(* ===== verification/_CoqProject ===== *)
-Q . S2P
Prelude.v
JsString.v
JsMap.v
Regex.v
JsNumber.v
Json.v
Protocol.v
EventBuffer.v
RunnerQueue.v
DiffComputer.v
WordDiff.v
RunGuard.v
History.v
TurnScope.v
RunnerEnv.v
Git.v
SdkHttp.v
SdkConnection.v
SdkWebhooks.v
RuntimeClient.v
GitHelpers.v
Snapshot.v
SharedRealtime.v
IssueQueue.v
JsDate.v
Recurrence.v
Mapping.v
MapClaude.v
MapCodex.v
MapOpenCode.v
MapPi.v
Base64.v
SdkOauth.v
TeamResources.v
Collaboration.v
RealtimeCaches.v
EntityUpdates.v
NavigationCache.v
WorkspaceSync.v
TeamHierarchy.v
DashboardLayout.v
SessionStream.v
StatusGroups.v
FilterChips.v
AdvancedFilter.v
QueryTree.v
FilterQuery.v
IssueQueryServer.v
FilterParity.v
BackgroundReview.v
Posters.v
ThreadPoster.v
AgentQueue.v
Harness.v
Session.v
