(* ===== verification/Prelude.v ===== *)
(** * Flow: a verification library for the TypeScript programs of the repository

    Flow is a project tracker with coding agents.  Its TypeScript programs are the sandbox runner,
    which runs a coding agent in a sandbox and streams what it does to Flow (sandbox-runner/src), the
    agent worker, which runs chat agents (agent-worker/src), the client library (sdk/typescript/src) and
    the web application (web/src).  This library models the parts of them that carry their logic and
    proves what makes these parts correct.  The server is written in another language and is the
    environment of every model.

    ** The parts and their files

    The language.  [JsString] (strings of code units below 256, split, join, trim, percent-encoding),
    [JsMap] (a Map or an object as the list of its entries in insertion order), [JsNumber] (numbers
    read from and written to text, as exact rationals), [JsDate] (calendar dates), [Json] (JSON values and
    their two printers) and [Regex] (regular expressions as a matcher, proved equivalent to the
    existence of a match).  This file holds the notations, the tactics and the generic lemmas.

    The sandbox runner.  A session ([Session]: session.ts) takes turns from the inbox, one after the
    other.  For a turn it starts a harness ([Harness]: harness/ and the line splitter of process.ts) in an
    environment ([RunnerEnv]: config.ts, proxy-env.ts, environment.ts), reads the harness' output
    through a mapper ([Mapping] with [MapClaude], [MapCodex], [MapOpenCode], [MapPi]: mapping/), and at
    the end commits and pushes with git ([Git]: git/git.ts) what the turn's scope allows ([TurnScope]:
    turn-scope.ts and the end of a turn).  Events go to Flow through a buffer ([EventBuffer]:
    event-buffer.ts); [RunnerQueue] is queue.ts and backoff.ts, [Protocol] protocol.ts.  All calls of
    Flow go through a client with retries ([RuntimeClient]: runtime-client.ts).  Beside the session stand
    the programs git calls ([GitHelpers]: git/credential-helper.ts, git/sign.ts) and the building and
    restoring of snapshots ([Snapshot]: snapshot.ts, restore.ts).

    The agent worker.  [RunGuard] (run-guard.ts: what a run may do and when it is sent back to the
    model), [History] (history.ts, policy.ts: compaction of a conversation, approvals), [Posters]
    (chat-run.ts, activities.ts: what a chat reply is told), [ThreadPoster] (thread-run.ts, and the
    conversation of a chat run) and [AgentQueue] (queue-worker.ts: the loop that claims tasks and the watcher that
    cancels them).

    The client library.  [SdkHttp] (http.ts, errors.ts, rate-limit.ts), [SdkConnection]
    (connection.ts), [SdkWebhooks] (webhooks.ts), [SdkOauth] (oauth.ts, crypto.ts) and [Base64] (its encodings).

    The web application.  [DiffComputer] (diff-computer.ts), [WordDiff] (word-diff.ts),
    [SharedRealtime] (shared-realtime.ts: one event stream shared by the tabs of a browser),
    [RealtimeCaches] (realtime-event-queue.ts: the events that wait to be applied; issue-detail-cache.ts: the issues that are
    held), [WorkspaceSync] (realtime-dispatch.ts, apply-realtime-patch.ts, resource-counts.ts, workspace-metadata-refresh.ts, issue-detail-cache.ts: what an
    event does to the workspace), [EntityUpdates] (entity-updates.ts: what is loaded on demand), [NavigationCache] (navigation-cache.ts),
    [IssueQueue] (issue-mutation-queue.ts), [TeamResources] (team-resource-sync.ts: optimistic rows), [Collaboration]
    (issue-collaboration.ts: shared documents), [BackgroundReview] (background-review-processor.ts: work handed to a
    background worker), [Recurrence] (recurrence.ts), [TeamHierarchy] (team-hierarchy.ts: the tree of teams and its rows),
    [DashboardLayout] (the layout of a dashboard and its stored form) and [SessionStream] (the stream that shows an agent's session).

    The issue filters of the web application are a chain of files.  [FilterChips] holds the chips of a filter bar and
    what toggling an option does (my-issues-filter-types.ts and the values of dates and customers); [AdvancedFilter] the trees
    of conditions and the text a bar has in an address (advanced-filter.ts); [StatusGroups] the statuses of several teams
    that count as one (status-groups.ts); [QueryTree] the query for the server and its simplification; [FilterQuery] the matching
    of a row on the client (issue-explorer-model.ts) and the query made of the chips (issue-filter-query.ts); [IssueQueryServer] what
    the server makes of such a query (api/internal/store: issue_query.go, issue_attributes.go, release_issue_filter.go); [FilterParity] puts
    them together: what the client keeps is what the server selects.

    ** How the code is modelled

    A class with state is a Record; its methods are functions that return the new state and what
    they emit.  Code that awaits is a machine: a function [handle] from an input (a timer, an answer,
    a call) and a state to the next state, cut at the awaits, and the theorems hold for every sequence of
    inputs, that is for every interleaving.  Effects that the theorems speak of are entries of a trace
    in the state.  In [Git] and [Session] a program is a function of the history of commands; the
    environment that answers them is an arbitrary function of that history.  Exceptions are sums or
    options.  Interfaces of the code are classes here: [EventCodec] for the JSON of events,
    [StreamMapper] with [MapperLaws] for the mappers, whose stream theorem is proved once, and [Yjs] with [YjsLaws] for the shared documents.  Code that is
    not in the repository (fetch, the URL class, path functions, crypto, a JSON parser, a locale, Go's reading and formatting of times) is an
    argument.

    Loops that are not structural carry fuel: the number of entries for the eviction loop, the length
    of the text for the scanners, the number of messages for the compaction, the attempts a policy allows
    for a request, the number of teams for the walks of the tree, two for an advanced chip inside an advanced chip; the lemmas about them
    show that the fuel is enough, so a theorem never speaks of a run that was cut short.  Numbers are
    integers or exact rationals; where the code computes in 32 bits ([DiffComputer.wrap32]) so does the
    model, and the widths of a dashboard are binary64 numbers ([DashboardLayout], on SpecFloat).  Time is a sequence of inputs, never a duration.

    ** What the theorems show

    Runner events: nothing queued is lost, duplicated or reordered, queued events never strand, and
    secrets are masked (EventBuffer).  A harness' words reach Flow in order whatever its output looks
    like and however it is cut into chunks, its credentials stay with Flow, and its environment is the
    runner's (Harness, Mapping, RunnerEnv).  Turns run once, in order, and are reported; a stop stands and interrupts what runs;
    a push goes to the session's branch and is reported truthfully; preparing a branch loses no commit
    (Session, Git).  What a turn may commit follows its scope (TurnScope).  A call of Flow ends, only
    passing failures are repeated, a refused token never, and the buffer does with a batch what
    the answer means (RuntimeClient).  git gets exactly Flow's credential and only Flow's signatures
    (GitHelpers).  A snapshot is reported once and truthfully, and its log arrives in order (Snapshot).

    Agent runs: the guard ends every run and offers only allowed tools (RunGuard); compaction keeps
    the conversation well formed (History); a reply is told exactly what the run did, in order, however
    its posts are coalesced, delayed and repeated (Posters, ThreadPoster); the worker never runs more tasks than it
    has slots, and a cancelled task is stopped, no other (AgentQueue).

    Client library: retries are bounded and credentials stay at the API's origin (SdkHttp), paging
    yields the whole list (SdkConnection), only signed deliveries reach the handlers (SdkWebhooks); the requests of the
    OAuth flow say what they were given, and only the answer to the own request yields a code (SdkOauth).

    Web: diffs are correct and shortest, patches parse back, word highlights mark only real changes
    (DiffComputer, WordDiff); tabs share one stream that resumes where it stopped, and two leaders
    become one (SharedRealtime); the events handed on are those received, less replaced replacements, or a snapshot is asked for, and no record goes back
    to an older version (RealtimeCaches); an event that is applied as a patch does to each issue what it says and the counts stay right, and what is no
    longer visible leaves no trace (WorkspaceSync); loads on demand are bounded and all are sent, as long as the workspace changes only between loads (EntityUpdates); a cached directory
    written by this build holds no bodies, one that is read is the viewer's own, and none outlives a clear that the storage accepts (NavigationCache); an edit of a shared document is kept until the server has it
    (Collaboration); rows written optimistically show the writes that were accepted and no others once the writes end (TeamResources); background work is
    answered (BackgroundReview); writes to an issue are serialised and never overwrite a foreign
    change (IssueQueue); due dates are the next dates of their schedule (Recurrence).  A team moves exactly where the tree
    stays a tree of five levels, and each team has its row (TeamHierarchy); edits keep a dashboard well formed and storing it
    loses nothing (DashboardLayout); a session shows every activity once and in order (SessionStream).

    Filters: toggling an option adds, drops or replaces that option and leaves the other filters (FilterChips); edits of a tree happen at the place they name and keep its depth, and a bar
    read back from an address is the bar that was shared (AdvancedFilter); every status is in one group (StatusGroups); a simplified query
    selects what the query selects (QueryTree); and when the server takes a query, it selects the issues the client keeps, for the values both know
    (FilterParity, which ends with the values for which they do not).

    ** Not modelled

    React components, pages, styles and translations (rendering, no logic of their own); the generated
    operations and types of the client library; the API client of the web application (one call per
    endpoint); processes, tar, the setup scripts, the browser tools and the MCP server of the runner (they drive
    other programs); the glue of the agent worker around the model library; colour arithmetic (floating
    point).  Of the issue views: the making of rows, option lists, groups and their order.  The stored snapshots of the realtime stream (a wrapper of the browser's
    storage) and the merge of a whole metadata projection.  In the modelled parts: log lines, waiting times and the metrics of the platform. *)

From Stdlib Require Import ZArith Lia Bool List Sorting.Permutation.
From stdpp Require Import base list gmap strings pretty.

(** The notations of the development live in a scope of their own. *)
Declare Scope flow_scope.
Delimit Scope flow_scope with flow.
Open Scope flow_scope.

(** JavaScript's [o ?? d]: the value of an optional, or the default. *)
Notation "o '??' d" := (default d o) (at level 60, right associativity) : flow_scope.
(** Equality of strings as a boolean ([===] on strings). *)
Notation "a '=s' b" := (String.eqb a b) (at level 70) : flow_scope.

(** ** Tactics *)

(** Turns boolean hypotheses and goals into propositions. *)
Ltac breflect :=
  repeat match goal with
  | H : _ && _ = true |- _ => apply andb_true_iff in H as [? ?]
  | H : _ || _ = false |- _ => apply orb_false_iff in H as [? ?]
  | H : negb _ = true |- _ => apply negb_true_iff in H
  | H : negb _ = false |- _ => apply negb_false_iff in H
  | H : (_ =? _)%Z = true |- _ => apply Z.eqb_eq in H
  | H : (_ =? _)%Z = false |- _ => apply Z.eqb_neq in H
  | H : (_ <? _)%Z = true |- _ => apply Z.ltb_lt in H
  | H : (_ <? _)%Z = false |- _ => apply Z.ltb_ge in H
  | H : (_ <=? _)%Z = true |- _ => apply Z.leb_le in H
  | H : (_ <=? _)%Z = false |- _ => apply Z.leb_gt in H
  | H : (_ =? _)%nat = true |- _ => apply Nat.eqb_eq in H
  | H : (_ =? _)%nat = false |- _ => apply Nat.eqb_neq in H
  | H : (_ <? _)%nat = true |- _ => apply Nat.ltb_lt in H
  | H : (_ <? _)%nat = false |- _ => apply Nat.ltb_ge in H
  | H : (_ <=? _)%nat = true |- _ => apply Nat.leb_le in H
  | H : (_ <=? _)%nat = false |- _ => apply Nat.leb_gt in H
  | H : String.eqb _ _ = true |- _ => apply String.eqb_eq in H
  | H : String.eqb _ _ = false |- _ => apply String.eqb_neq in H
  end.

(** Case analysis on every [if] and [match] of the goal, remembering the equations. *)
Ltac split_cases :=
  repeat (case_match; simplify_eq/=).

Create HintDb flow.
Create Rewrite HintDb flow.

(** [[...new Set(l)]]: the elements in order of first occurrence. *)
Definition unique {A} `{EqDecision A} (l : list A) : list A :=
  fold_left (fun acc x => if bool_decide (x ∈ acc) then acc else acc ++ [x]) l [].

Lemma unique_spec {A} `{EqDecision A} (l : list A) : NoDup (unique l) /\ forall x, x ∈ unique l <-> x ∈ l.
Proof.
  unfold unique. assert (H : forall (l acc : list A), NoDup acc -> NoDup (fold_left (fun acc x => if bool_decide (x ∈ acc) then acc else acc ++ [x]) l acc)
    /\ forall x, x ∈ fold_left (fun acc x => if bool_decide (x ∈ acc) then acc else acc ++ [x]) l acc <-> x ∈ acc \/ x ∈ l).
  { clear l. induction l as [|y l IH]; intros acc Hacc; simpl; [split; [done | set_solver]|]. case_bool_decide as Hy.
    - destruct (IH acc Hacc) as [H1 H2]. split; [done|]. intros x. rewrite H2. set_solver.
    - destruct (IH (acc ++ [y])) as [H1 H2]; [apply NoDup_app; split; [done|]; split; [set_solver | apply NoDup_singleton]|].
      split; [done|]. intros x. rewrite H2. set_solver. }
  destruct (H l [] (NoDup_nil_2)) as [H1 H2]. split; [done|]. intros x. rewrite H2. set_solver.
Qed.

(** ** Optional values *)

Definition isSome {A} (o : option A) : bool := match o with Some _ => true | None => false end.

Lemma isSome_true {A} (o : option A) : isSome o = true <-> is_Some o.
Proof. destruct o as [a|]; simpl; split; [eauto | done | done | intros [x Hx]; done]. Qed.

(** ** Array.prototype methods *)

(** [Array.prototype.findIndex]: [None] stands for the result -1. *)
Fixpoint findIndex {A} (p : A -> bool) (l : list A) : option nat :=
  match l with
  | [] => None
  | x :: r => if p x then Some 0%nat else S <$> findIndex p r
  end.

Lemma findIndex_Some {A} (p : A -> bool) l i :
  findIndex p l = Some i ->
  exists x, l = take i l ++ x :: drop (S i) l /\ l !! i = Some x /\ p x = true
            /\ Forall (fun y => p y = false) (take i l).
Proof.
  revert i. induction l as [|y l IH]; intros i; simpl; [done|].
  destruct (p y) eqn:Hy.
  - intros [= <-]. exists y. by rewrite drop_0.
  - destruct (findIndex p l) as [j|]; [|done]. intros [= <-].
    destruct (IH j eq_refl) as (x & Hl & Hi & Hx & Hf).
    exists x. simpl. split; [by rewrite <- Hl|]. split; [done|]. split; [done|].
    constructor; auto.
Qed.

Lemma findIndex_None {A} (p : A -> bool) l :
  findIndex p l = None <-> Forall (fun y => p y = false) l.
Proof.
  induction l as [|y l IH]; simpl; [split; auto|].
  rewrite Forall_cons. destruct (p y) eqn:Hy.
  - split; [done | intros [? _]; done].
  - destruct (findIndex p l); simpl in *; split; try done.
    + intros [_ H]. by apply IH in H.
    + intros _. split; [done|]. by apply IH.
Qed.

Lemma findIndex_lt {A} (p : A -> bool) l i : findIndex p l = Some i -> (i < length l)%nat.
Proof. intros H. destruct (findIndex_Some _ _ _ H) as (x & _ & Hi & _). by eapply lookup_lt_Some. Qed.

Lemma findIndex_first {A} (p : A -> bool) l i j x :
  findIndex p l = Some i -> l !! j = Some x -> p x = true -> (i <= j)%nat.
Proof.
  intros Hf Hj Hx. destruct (findIndex_Some _ _ _ Hf) as (y & _ & _ & _ & Hall).
  destruct (decide (i <= j)%nat); [done|]. rewrite Forall_lookup in Hall.
  specialize (Hall j x). rewrite lookup_take_lt in Hall by lia. specialize (Hall Hj). congruence.
Qed.

Lemma findIndex_None_lookup {A} (p : A -> bool) l j x :
  findIndex p l = None -> l !! j = Some x -> p x = false.
Proof. intros Hf Hj. apply findIndex_None in Hf. rewrite Forall_lookup in Hf. eauto. Qed.

(** ** Sums of integers *)

Definition sumZ (l : list Z) : Z := foldr Z.add 0%Z l.

Lemma sumZ_app l k : sumZ (l ++ k) = (sumZ l + sumZ k)%Z.
Proof. induction l; simpl; lia. Qed.

Lemma sumZ_snoc l x : sumZ (l ++ [x]) = (sumZ l + x)%Z.
Proof. rewrite sumZ_app. simpl. lia. Qed.

Lemma sumZ_nonneg l : Forall (fun x => (0 <= x)%Z) l -> (0 <= sumZ l)%Z.
Proof. induction 1; simpl; lia. Qed.

#[export] Hint Rewrite @sumZ_app @sumZ_snoc : flow.

(** ** Lists *)

Lemma delete_take_drop {A} (l : list A) i : delete i l = take i l ++ drop (S i) l.
Proof. revert i; induction l as [|x l IH]; intros [|i]; simpl; try done. by rewrite IH. Qed.

Lemma sumZ_delete {A} (f : A -> Z) (l : list A) i x :
  l !! i = Some x -> sumZ (map f l) = (f x + sumZ (map f (delete i l)))%Z.
Proof.
  intros Hi. rewrite <- (take_drop_middle _ _ _ Hi) at 1. rewrite delete_take_drop, !map_app, !sumZ_app.
  simpl. lia.
Qed.

Lemma omap_cons {A B} (f : A -> option B) x l :
  omap f (x :: l) = match f x with Some y => y :: omap f l | None => omap f l end.
Proof. reflexivity. Qed.

Lemma filter_negb_app {A} (p : A -> bool) l :
  Permutation l (List.filter p l ++ List.filter (fun x => negb (p x)) l).
Proof.
  induction l as [|x l IH]; simpl; [constructor|].
  destruct (p x); simpl; [by constructor|].
  rewrite IH at 1. by apply Permutation_middle.
Qed.

Lemma filter_all {A} (p : A -> bool) l : Forall (fun x => p x = true) l -> List.filter p l = l.
Proof. induction 1 as [|x l Hx _ IH]; simpl; [done|]. by rewrite Hx, IH. Qed.

Lemma filter_none {A} (p : A -> bool) l : Forall (fun x => p x = false) l -> List.filter p l = [].
Proof. induction 1 as [|x l Hx _ IH]; simpl; [done|]. by rewrite Hx. Qed.

Lemma Forall_filter_true {A} (p : A -> bool) l : Forall (fun x => p x = true) (List.filter p l).
Proof. induction l as [|x l IH]; simpl; [constructor|]. destruct (p x) eqn:Hx; [by constructor | done]. Qed.

Lemma take_split_drop {A} n k i (l : list A) : take (n + k) (drop i l) = take n (drop i l) ++ take k (drop (i + n) l).
Proof. rewrite <- take_take_drop, drop_drop. done. Qed.
