(* ===== verification/JsString.v ===== *)
(** * Strings of the JavaScript standard library

    A JavaScript string is modelled by Stdlib's [string]: a character stands for one UTF-16
    code unit below 256.  This file holds the [String.prototype] methods the modelled code
    calls and the facts about them that the components share. *)

From Stdlib Require Import ZArith Lia Bool List Ascii.
From Stdlib Require Import DecimalString DecimalN DecimalZ DecimalFacts.
From stdpp Require Import base list strings.
From S2P Require Import Prelude.

#[global] Arguments String.append !s1 s2 : simpl nomatch.

(** ** Methods *)

(** [s.startsWith(p)] *)
Definition startsWith (p s : string) : bool := String.prefix p s.

(** [s.includes(sub)] *)
Fixpoint includes (sub s : string) : bool :=
  String.prefix sub s || match s with EmptyString => false | String _ r => includes sub r end.

(** [s.split(sep)] for a non-empty separator.  [skip] counts the characters of the last
    separator that are still to be passed over. *)
Fixpoint split_skip (sep : string) (skip : nat) (s : string) : list string :=
  match s with
  | EmptyString => [EmptyString]
  | String c r =>
      match skip with
      | S n => split_skip sep n r
      | O =>
          if String.prefix sep s then EmptyString :: split_skip sep (String.length sep - 1) r
          else match split_skip sep 0 r with
               | h :: t => String c h :: t
               | [] => [String c EmptyString]
               end
      end
  end.

Definition split (sep s : string) : list string := split_skip sep 0 s.

(** [l.join(sep)] *)
Fixpoint join (sep : string) (l : list string) : string :=
  match l with
  | [] => EmptyString
  | [x] => x
  | x :: r => x +:+ sep +:+ join sep r
  end.

(** White space of [trim] among the code units below 256. *)
Definition is_space (c : ascii) : bool :=
  let n := nat_of_ascii c in
  ((9 <=? n) && (n <=? 13))%nat || (n =? 32)%nat || (n =? 160)%nat.

Fixpoint trim_start (s : string) : string :=
  match s with
  | String c r => if is_space c then trim_start r else s
  | EmptyString => EmptyString
  end.

Fixpoint trim_end (s : string) : string :=
  match s with
  | EmptyString => EmptyString
  | String c r =>
      match trim_end r with
      | EmptyString => if is_space c then EmptyString else String c EmptyString
      | r' => String c r'
      end
  end.

(** [s.trim()] *)
Definition trim (s : string) : string := trim_end (trim_start s).

(** [s.slice(from, to)] for [0 <= from <= to]. *)
Definition slice (from to : nat) (s : string) : string := String.substring from (to - from) s.

(** [s.slice(from)] for [0 <= from]. *)
Fixpoint slice_from (from : nat) (s : string) : string :=
  match from, s with
  | O, _ => s
  | S n, String _ r => slice_from n r
  | S _, EmptyString => EmptyString
  end.

(** [s.toLowerCase()] and [s.toUpperCase()] on the letters of ASCII. *)
Definition lower_char (c : ascii) : ascii :=
  let n := nat_of_ascii c in
  if ((65 <=? n) && (n <=? 90))%nat then ascii_of_nat (n + 32) else c.

Definition upper_char (c : ascii) : ascii :=
  let n := nat_of_ascii c in
  if ((97 <=? n) && (n <=? 122))%nat then ascii_of_nat (n - 32) else c.

Fixpoint map_string (f : ascii -> ascii) (s : string) : string :=
  match s with EmptyString => EmptyString | String c r => String (f c) (map_string f r) end.

Definition toLowerCase : string -> string := map_string lower_char.
Definition toUpperCase : string -> string := map_string upper_char.

(** The truth value of a string in a condition. *)
Definition truthy (s : string) : bool := negb (s =s "").

(** [String(n)] for an integer. *)
Definition showZ (n : Z) : string := NilEmpty.string_of_int (Z.to_int n).

(** Bytes of the UTF-8 encoding of a string of code units below 256. *)
Fixpoint byteLength (s : string) : Z :=
  match s with
  | EmptyString => 0%Z
  | String c r => ((if (nat_of_ascii c <? 128)%nat then 1 else 2) + byteLength r)%Z
  end.

Definition newline : string := String (ascii_of_nat 10) EmptyString.

(** ** Percent-encoding *)

Definition hex_upper (d : nat) : ascii := ascii_of_nat (if (d <? 10)%nat then 48 + d else 55 + d).

Definition percent (n : nat) : string := String "%" (String (hex_upper (n / 16)) (String (hex_upper (n mod 16)) EmptyString)).

(** The UTF-8 bytes of a code unit below 256, percent-encoded. *)
Definition percent_unit (n : nat) : string :=
  if (n <? 128)%nat then percent n else percent (192 + n / 64) +:+ percent (128 + n mod 64).

Definition alnum (n : nat) : bool :=
  ((48 <=? n) && (n <=? 57))%nat || ((65 <=? n) && (n <=? 90))%nat || ((97 <=? n) && (n <=? 122))%nat.

(** The characters [encodeURIComponent] leaves alone: letters, digits and - _ . ! ~ * ' ( ). *)
Definition unreserved (n : nat) : bool := alnum n || existsb (Nat.eqb n) [45; 95; 46; 33; 126; 42; 39; 40; 41].

Fixpoint encodeURIComponent (s : string) : string :=
  match s with
  | EmptyString => EmptyString
  | String c r =>
      let n := nat_of_ascii c in
      (if unreserved n then String c EmptyString else percent_unit n) +:+ encodeURIComponent r
  end.

(** A character of [\d]. *)
Definition is_digit (c : ascii) : bool :=
  let n := nat_of_ascii c in ((48 <=? n) && (n <=? 57))%nat.

(** The longest prefix of digits ([\d*], greedy) and the rest. *)
Fixpoint take_digits (s : string) : string * string :=
  match s with
  | String c r => if is_digit c then let '(d, rest) := take_digits r in (String c d, rest) else ("", s)
  | EmptyString => ("", "")
  end.

(** The number a string of decimal digits stands for; [None] for any other string. *)
Definition digits_value (s : string) : option Z :=
  match s with
  | EmptyString => None
  | _ => match NilEmpty.uint_of_string s with Some d => Some (Z.of_N (N.of_uint d)) | None => None end
  end.

(** ** Facts *)

Lemma string_of_uint_digits d r :
  match r with String c _ => is_digit c = false | EmptyString => True end ->
  take_digits (NilEmpty.string_of_uint d +:+ r) = (NilEmpty.string_of_uint d, r).
Proof.
  intros Hr. induction d as [|d IH|d IH|d IH|d IH|d IH|d IH|d IH|d IH|d IH|d IH]; cbn; try (by rewrite IH).
  destruct r as [|c r]; cbn; [done|]. by rewrite Hr.
Qed.

Lemma showZ_nonneg n : (0 <= n)%Z -> showZ n = NilEmpty.string_of_uint (N.to_uint (Z.to_N n)).
Proof. by destruct n. Qed.

Lemma show_not_empty n : NilEmpty.string_of_uint (N.to_uint n) <> "".
Proof.
  assert (Hn : N.to_uint n <> Decimal.Nil).
  { destruct n as [|p]; [done|]. simpl. apply DecimalPos.Unsigned.to_uint_nonnil. }
  by destruct (N.to_uint n).
Qed.

Lemma digits_value_show n : (0 <= n)%Z -> digits_value (showZ n) = Some n.
Proof.
  intros Hn. rewrite showZ_nonneg by done. unfold digits_value.
  pose proof (show_not_empty (Z.to_N n)) as Hne.
  destruct (NilEmpty.string_of_uint (N.to_uint (Z.to_N n))) eqn:Hs; [done|]. rewrite <- Hs.
  rewrite NilEmpty.usu, DecimalN.Unsigned.of_to. f_equal. lia.
Qed.

Lemma take_digits_show n r :
  (0 <= n)%Z -> match r with String c _ => is_digit c = false | EmptyString => True end ->
  take_digits (showZ n +:+ r) = (showZ n, r).
Proof. intros Hn Hr. rewrite showZ_nonneg by done. by apply string_of_uint_digits. Qed.

Lemma prefix_spec p s : String.prefix p s = true <-> exists r, s = p +:+ r.
Proof.
  revert s. induction p as [|c p IH]; intros s; simpl.
  - split; [by eexists | by destruct s].
  - destruct s as [|d s]; simpl.
    + split; [done | intros [r Hr]; done].
    + destruct (ascii_dec c d) as [->|Hne].
      * rewrite IH. split; intros [r Hr]; exists r; [by rewrite Hr | by injection Hr].
      * split; [done | intros [r Hr]; injection Hr; congruence].
Qed.

Lemma includes_spec sub s : includes sub s = true <-> exists a b, s = a +:+ sub +:+ b.
Proof.
  induction s as [|c s IH]; cbn [includes]; rewrite orb_true_iff, prefix_spec.
  - split.
    + intros [[r Hr]|Hf]; [|done]. exists "", r. done.
    + intros (a & b & H). destruct a; [|done]. left. by exists b.
  - rewrite IH. split.
    + intros [[r Hr]|(a & b & ->)]; [by exists "", r | by exists (String c a), b].
    + intros (a & b & H). destruct a as [|d a]; simpl in H.
      * left. by exists b.
      * injection H as -> ->. right. by exists a, b.
Qed.

Lemma split_skip_not_nil sep n s : split_skip sep n s <> [].
Proof.
  revert n. induction s as [|c s IH]; intros n; [done|]. cbn [split_skip].
  destruct n; [|apply IH]. destruct (String.prefix _ _); [done|].
  by destruct (split_skip sep 0 s).
Qed.

Lemma append_empty_r (s : string) : s +:+ "" = s.
Proof. induction s as [|c s IH]; [done|]. cbn. by rewrite IH. Qed.

Lemma string_app_assoc (a b c : string) : (a +:+ b) +:+ c = a +:+ (b +:+ c).
Proof. induction a; simpl; congruence. Qed.

Lemma string_length_app (a b : string) : String.length (a +:+ b) = (String.length a + String.length b)%nat.
Proof. induction a; simpl; congruence. Qed.

Lemma byteLength_nonneg s : (0 <= byteLength s)%Z.
Proof. induction s; simpl; [done|]. case_match; lia. Qed.

Lemma byteLength_length s : (Z.of_nat (String.length s) <= byteLength s)%Z.
Proof. induction s; simpl; [done|]. case_match; lia. Qed.

(** ** Replacing every occurrence of a substring

    [s.split(sub).join(by)] passes over non-overlapping occurrences from the left.  When no
    character of [sub] occurs in the replacement, the result has no occurrence left. *)

(** No character of [s] is [c]. *)
Fixpoint lacks (c : ascii) (s : string) : bool :=
  match s with EmptyString => true | String d r => negb (Ascii.eqb c d) && lacks c r end.

Lemma prefix_app_l p a b : String.prefix p a = true -> String.prefix p (a +:+ b) = true.
Proof. rewrite !prefix_spec. intros [r ->]. exists (r +:+ b). apply string_app_assoc. Qed.

Lemma split_head_prefix sep s h t : split_skip sep 0 s = h :: t -> exists r, s = h +:+ r.
Proof.
  revert h t. induction s as [|c s IH]; intros h t; cbn [split_skip].
  - intros [= <- <-]. by exists "".
  - destruct (String.prefix _ _); [intros [= <- <-]; by eexists|].
    destruct (split_skip sep 0 s) as [|h' t'] eqn:Hs; [by apply split_skip_not_nil in Hs|].
    intros [= <- <-]. destruct (IH _ _ eq_refl) as [r ->]. by exists r.
Qed.

Lemma split_parts sep n s : Forall (fun p => exists a b, s = a +:+ p +:+ b) (split_skip sep n s).
Proof.
  revert n. induction s as [|c s IH]; intros n; cbn [split_skip].
  - constructor; [by exists "", "" | constructor].
  - assert (Hskip : forall m, Forall (fun p => exists a b, String c s = a +:+ p +:+ b) (split_skip sep m s)).
    { intros m. eapply Forall_impl; [apply (IH m)|]. intros p (a & b & ->). by exists (String c a), b. }
    destruct n; [|apply Hskip]. destruct (String.prefix _ _).
    + constructor; [by exists "", (String c s) | apply Hskip].
    + destruct (split_skip sep 0 s) as [|h t] eqn:Hs; [by apply split_skip_not_nil in Hs|].
      destruct (split_head_prefix _ _ _ _ Hs) as [r ->]. constructor; [by exists "", r|].
      specialize (Hskip 0%nat). rewrite Hs in Hskip. by inversion Hskip.
Qed.

Lemma split_parts_free sep n s : sep <> "" -> Forall (fun p => includes sep p = false) (split_skip sep n s).
Proof.
  intros Hne. assert (Hempty : includes sep "" = false) by (by destruct sep).
  revert n. induction s as [|c s IH]; intros n; cbn [split_skip]; [by repeat constructor|].
  destruct n; [|apply IH]. destruct (String.prefix sep (String c s)) eqn:Hp; [by constructor; auto|].
  specialize (IH 0%nat).
  destruct (split_skip sep 0 s) as [|h t] eqn:Hs; [by apply split_skip_not_nil in Hs|].
  inversion IH as [|? ? Hh Ht]; subst. constructor; [|done].
  destruct (split_head_prefix _ _ _ _ Hs) as [r ->]. cbn [includes]. rewrite Hh, orb_false_r.
  destruct (String.prefix sep (String c h)) eqn:Hq; [|done].
  apply (prefix_app_l _ _ r) in Hq. simpl in *. congruence.
Qed.

Lemma prefix_barrier c p a b : lacks c p = true -> String.prefix p (a +:+ String c b) = true -> String.prefix p a = true.
Proof.
  revert a. induction p as [|d p IH]; intros a Hl; [by destruct a|]. simpl in Hl. breflect.
  destruct a as [|e a]; simpl.
  - destruct (ascii_dec d c) as [->|]; [|done]. by rewrite Ascii.eqb_refl in *.
  - destruct (ascii_dec d e); [|done]. by apply IH.
Qed.

Lemma includes_barrier c p a b : p <> "" -> lacks c p = true ->
  includes p (a +:+ String c b) = true -> includes p a = true \/ includes p b = true.
Proof.
  intros Hne Hl. induction a as [|d a IH].
  - simpl. rewrite orb_true_iff. intros [Hp|Hb]; [|by right].
    apply (prefix_barrier c p "" b Hl) in Hp. by destruct p.
  - cbn [includes String.append]. rewrite orb_true_iff. intros [Hp|Ha].
    + left. apply (prefix_barrier c p (String d a) b Hl) in Hp. by rewrite Hp.
    + destruct (IH Ha) as [H|H]; [left; by rewrite H, orb_true_r | by right].
Qed.

(** The mask of [s.split(sub).join('***')]. *)
Definition mask_stars : string := "***".

Lemma includes_join_stars p l : p <> "" -> lacks "*" p = true ->
  includes p (join mask_stars l) = true -> Exists (fun q => includes p q = true) l.
Proof.
  intros Hne Hl. induction l as [|x l IH]; [by destruct p|].
  destruct l as [|y l]; [by constructor|].
  change (join mask_stars (x :: y :: l)) with (x +:+ String "*" (String "*" (String "*" (join mask_stars (y :: l))))).
  intros H. apply (includes_barrier _ _ _ _ Hne Hl) in H as [H|H]; [by constructor|].
  apply (includes_barrier _ _ "" _ Hne Hl) in H as [H|H]; [by destruct p|].
  apply (includes_barrier _ _ "" _ Hne Hl) in H as [H|H]; [by destruct p|].
  right. by apply IH.
Qed.

Lemma mask_removes p s : p <> "" -> lacks "*" p = true -> includes p (join mask_stars (split p s)) = false.
Proof.
  intros Hne Hl. apply not_true_iff_false. intros H.
  apply includes_join_stars in H; [|done..]. pose proof (split_parts_free p 0 s Hne) as Hf.
  apply Exists_exists in H as (q & Hq & Hi). rewrite Forall_forall in Hf. specialize (Hf q Hq). congruence.
Qed.

Lemma mask_keeps_absent p q s : p <> "" -> lacks "*" p = true ->
  includes p s = false -> includes p (join mask_stars (split q s)) = false.
Proof.
  intros Hne Hl Habs. apply not_true_iff_false. intros H.
  apply includes_join_stars in H; [|done..]. apply Exists_exists in H as (r & Hr & Hi).
  pose proof (split_parts q 0 s) as Hf. rewrite Forall_forall in Hf.
  destruct (Hf r Hr) as (a & b & ->). apply includes_spec in Hi as (a' & b' & ->).
  apply not_true_iff_false in Habs. apply Habs, includes_spec.
  exists (a +:+ a'), (b' +:+ b). by rewrite !string_app_assoc.
Qed.

(** ** Splitting at a single character *)

Lemma split_char_none c s : lacks c s = true -> split (String c "") s = [s].
Proof.
  unfold split. induction s as [|d s IH]; [done|]. simpl. intros Hl. breflect.
  destruct (ascii_dec c d) as [->|Hne]; [by rewrite Ascii.eqb_refl in *|]. by rewrite IH.
Qed.

Lemma split_char_app c x r : lacks c x = true -> split (String c "") (x +:+ String c r) = x :: split (String c "") r.
Proof.
  unfold split. induction x as [|d x IH]; simpl.
  - intros _. destruct (ascii_dec c c) as [_|]; [|done]. by destruct r.
  - intros Hl. breflect. destruct (ascii_dec c d) as [->|Hne]; [by rewrite Ascii.eqb_refl in *|]. by rewrite IH.
Qed.

Lemma split_join_char c l : l <> [] -> Forall (fun s => lacks c s = true) l -> split (String c "") (join (String c "") l) = l.
Proof.
  intros Hne Hf. induction Hf as [|x l Hx Hf IH]; [done|]. destruct l as [|y l]; [by apply split_char_none|].
  change (join (String c "") (x :: y :: l)) with (x +:+ String c (join (String c "") (y :: l))).
  rewrite split_char_app by done. by rewrite IH.
Qed.

Lemma lacks_app c a b : lacks c (a +:+ b) = lacks c a && lacks c b.
Proof. induction a; simpl; [done|]. by rewrite IHa, andb_assoc. Qed.

Lemma lacks_digits d : lacks (ascii_of_nat 10) (NilEmpty.string_of_uint d) = true.
Proof. induction d; simpl; auto. Qed.

(** [s.split(c).join(by)] replaces every [c]. *)
Fixpoint replace_char (c : ascii) (by_ s : string) : string :=
  match s with
  | EmptyString => EmptyString
  | String d r => (if Ascii.eqb c d then by_ else String d EmptyString) +:+ replace_char c by_ r
  end.

Lemma join_split_char c by_ s : join by_ (split (String c EmptyString) s) = replace_char c by_ s.
Proof.
  induction s as [|d r IH]; [done|]. unfold split in *. cbn [split_skip String.prefix replace_char].
  destruct (Ascii.eqb_spec c d) as [<-|Hne].
  - destruct (ascii_dec c c) as [_|]; [|done]. destruct r as [|e r']; [cbn; by destruct by_|]. cbn [String.length Nat.sub].
    pose proof (split_skip_not_nil (String c EmptyString) 0 (String e r')) as Hn.
    destruct (split_skip _ 0 (String e r')) as [|x l] eqn:E; [done|]. rewrite <- IH. done.
  - destruct (ascii_dec c d) as [|_]; [congruence|].
    destruct (split_skip _ 0 r) as [|x l] eqn:E; [by apply split_skip_not_nil in E|]. rewrite <- IH. by destruct l.
Qed.

Lemma join_empty_cons x l : join EmptyString (x :: l) = x +:+ join EmptyString l.
Proof. destruct l; [|done]. simpl. induction x; simpl; congruence. Qed.
