(* ===== verification/JsMap.v ===== *)
(** * JavaScript's Map

    A [Map] iterates its keys in the order of their first insertion, and several components
    depend on that order (the first key is the oldest one).  It is modelled by an association
    list with distinct keys: [set] on a known key replaces the value in place, on a new key it
    appends. *)

From Stdlib Require Import Lia List.
From stdpp Require Import base list.
From S2P Require Import Prelude.

Section JsMap.
Context {K V : Type} `{EqDecision K}.

Implicit Types (m : list (K * V)) (k : K) (v : V).

Fixpoint map_get k m : option V :=
  match m with
  | [] => None
  | (k', v) :: r => if decide (k = k') then Some v else map_get k r
  end.

Fixpoint map_set k v m : list (K * V) :=
  match m with
  | [] => [(k, v)]
  | (k', v') :: r => if decide (k = k') then (k', v) :: r else (k', v') :: map_set k v r
  end.

Fixpoint map_delete k m : list (K * V) :=
  match m with
  | [] => []
  | (k', v) :: r => if decide (k = k') then r else (k', v) :: map_delete k r
  end.

Definition map_has k m : bool := isSome (map_get k m).
Definition map_keys m : list K := map fst m.
Definition map_values m : list V := map snd m.

Lemma map_get_set_eq k v m : map_get k (map_set k v m) = Some v.
Proof. induction m as [|[k' v'] m IH]; simpl; repeat case_decide; simpl; try case_decide; congruence. Qed.

Lemma map_get_set_ne k k' v m : k <> k' -> map_get k (map_set k' v m) = map_get k m.
Proof.
  intros Hne. induction m as [|[k1 v1] m IH]; simpl; repeat case_decide; simpl; try case_decide; congruence.
Qed.

Lemma map_set_Forall (P : K * V -> Prop) k v m :
  (forall k', k = k' -> P (k', v)) -> Forall P m -> Forall P (map_set k v m).
Proof.
  intros Hp. induction 1 as [|[k' v'] m Hx Hm IH]; simpl; [by repeat constructor; auto|]. case_decide; constructor; auto.
Qed.

Lemma map_get_elem k v m : map_get k m = Some v -> k ∈ map_keys m.
Proof.
  induction m as [|[k' v'] m IH]; simpl; [done|]. case_decide; intros ?; [subst; left | right; auto].
Qed.

Lemma map_get_None k m : map_get k m = None <-> k ∉ map_keys m.
Proof.
  induction m as [|[k' v'] m IH]; simpl.
  - split; [intros _; apply not_elem_of_nil | done].
  - rewrite not_elem_of_cons. case_decide; [split; [done | tauto]|]. rewrite IH. tauto.
Qed.

Lemma map_get_delete_ne k k' m : k <> k' -> map_get k (map_delete k' m) = map_get k m.
Proof. intros Hne. induction m as [|[k1 v1] m IH]; simpl; repeat case_decide; simpl; try case_decide; congruence. Qed.

Lemma map_get_delete_eq k m : NoDup (map_keys m) -> map_get k (map_delete k m) = None.
Proof.
  induction m as [|[k' v'] m IH]; simpl; [done|]. rewrite NoDup_cons. intros [Hn Hd].
  case_decide; simpl; [subst; by apply map_get_None|]. case_decide; [done | auto].
Qed.

Lemma map_set_keys_known k v m : k ∈ map_keys m -> map_keys (map_set k v m) = map_keys m.
Proof.
  induction m as [|[k' v'] m IH]; simpl; [by intros ?%elem_of_nil|].
  intros Hin. case_decide; simpl; [done|]. f_equal. apply IH. by apply elem_of_cons in Hin as [?|?].
Qed.

Lemma map_set_keys_new k v m : k ∉ map_keys m -> map_keys (map_set k v m) = map_keys m ++ [k].
Proof.
  induction m as [|[k' v'] m IH]; simpl; [done|]. rewrite not_elem_of_cons. intros [Hne Hn].
  case_decide; [done|]. simpl. f_equal. auto.
Qed.

Lemma map_set_NoDup k v m : NoDup (map_keys m) -> NoDup (map_keys (map_set k v m)).
Proof.
  intros Hd. destruct (decide (k ∈ map_keys m)); [by rewrite map_set_keys_known|].
  rewrite map_set_keys_new by done. apply NoDup_app. split; [done|].
  split; [|apply NoDup_singleton]. intros x Hx ->%list_elem_of_singleton. done.
Qed.

Lemma map_delete_sublist k m : sublist (map_keys (map_delete k m)) (map_keys m).
Proof.
  induction m as [|[k' v'] m IH]; simpl; [done|]. case_decide; simpl; [by apply sublist_cons | by apply sublist_skip].
Qed.

Lemma map_delete_keys k x m : x ∈ map_keys (map_delete k m) -> x ∈ map_keys m.
Proof.
  induction m as [|[k' v'] m IH]; simpl; [done|]. case_decide; simpl; [by right|].
  intros [->|Hx]%elem_of_cons; [left | right; auto].
Qed.

Lemma map_delete_NoDup k m : NoDup (map_keys m) -> NoDup (map_keys (map_delete k m)).
Proof. intros Hd. eapply sublist_NoDup; [done | apply map_delete_sublist]. Qed.

Lemma map_set_length_known k v m : k ∈ map_keys m -> length (map_set k v m) = length m.
Proof. intros Hk. apply (map_set_keys_known k v), (f_equal length) in Hk. unfold map_keys in Hk. by rewrite !length_map in Hk. Qed.

Lemma map_set_length_new k v m : k ∉ map_keys m -> length (map_set k v m) = S (length m).
Proof.
  intros Hk. apply (map_set_keys_new k v), (f_equal length) in Hk. unfold map_keys in Hk.
  rewrite length_app, !length_map in Hk. simpl in Hk. lia.
Qed.

Lemma map_delete_length k m : k ∈ map_keys m -> length m = S (length (map_delete k m)).
Proof.
  induction m as [|[k' v'] m IH]; simpl; [by intros ?%elem_of_nil|].
  intros [->|Hin]%elem_of_cons; case_decide; simpl; try done; f_equal; by apply IH.
Qed.
Lemma map_set_new k v m : k ∉ map_keys m -> map_set k v m = m ++ [(k, v)].
Proof. induction m as [|[k' v'] m IH]; cbn; [done|]. intros [Hk Hn]%not_elem_of_cons. rewrite decide_False by done. by rewrite IH. Qed.

Lemma map_delete_In k m e : NoDup (map_keys m) -> In e (map_delete k m) <-> In e m /\ e.1 <> k.
Proof.
  induction m as [|[k' v'] m IH]; cbn; [tauto|]. intros [Hn Hd]%NoDup_cons. case_decide as E.
  - subst k'. split; [|intros [[<-|Hi] Hk]; [done | done]]. intros Hi. split; [auto|]. intros <-. apply Hn, list_elem_of_In, in_map, Hi.
  - cbn. rewrite IH by done. split; [intros [<-|[? ?]]; auto | intros [[<-|?] ?]; auto].
Qed.

(** [new Map(l.map(x => [f(x), g(x)]))] *)
Definition index_by {T} (f : T -> K) (g : T -> V) (l : list T) : list (K * V) := fold_left (fun m x => map_set (f x) (g x) m) l [].

Lemma index_by_get {T} (f : T -> K) (g : T -> V) l k v : NoDup (map f l) -> map_get k (index_by f g l) = Some v <-> exists x, In x l /\ f x = k /\ g x = v.
Proof.
  unfold index_by. assert (G : forall m, NoDup (map_keys m ++ map f l) ->
    map_get k (fold_left (fun m x => map_set (f x) (g x) m) l m) = Some v <-> (exists x, In x l /\ f x = k /\ g x = v) \/ map_get k m = Some v).
  { induction l as [|y l IH]; intros m Hn; cbn [fold_left]; [split; [auto | by intros [(x & [] & _)|?]]|].
    cbn [map] in Hn. apply NoDup_app in Hn as (Hm & Hd & [Hy Hl]%NoDup_cons).
    assert (Hk : f y ∉ map_keys m) by (intros H; apply (Hd _ H); left). rewrite IH.
    - destruct (decide (k = f y)) as [->|Hne].
      + rewrite map_get_set_eq. assert (map_get (f y) m = None) as -> by (by apply map_get_None). split.
        * intros [(x & Hx & E)|[= <-]]; [left; exists x; split; [by right | done] | left; exists y; split; [by left | done]].
        * intros [(x & [<-|Hx] & E1 & E2)|?]; [right; by f_equal | left; by exists x | done].
      + rewrite map_get_set_ne by done. split; [intros [(x & Hx & E)|?]; [left; exists x; split; [by right | done] | auto]|].
        intros [(x & [<-|Hx] & E1 & E2)|?]; [congruence | left; by exists x | auto].
    - rewrite map_set_keys_new by done. rewrite <- app_assoc. apply NoDup_app. split; [done|]. split; [|cbn; by constructor]. intros z Hz. cbn. apply Hd, Hz. }
  intros Hn. rewrite G by done. cbn. split; [by intros [?|?] | auto].
Qed.

Lemma index_by_None {T} (f : T -> K) (g : T -> V) l k : NoDup (map f l) -> map_get k (index_by f g l) = None <-> k ∉ map f l.
Proof.
  intros Hn. rewrite list_elem_of_In, in_map_iff. destruct (map_get k (index_by f g l)) as [v|] eqn:E.
  - apply index_by_get in E as (x & Hx & E & _); [|done]. split; [done|]. intros H. destruct H. by exists x.
  - split; [|done]. intros _ (x & Ex & Hx). assert (map_get k (index_by f g l) = Some (g x)) by (apply index_by_get; [done | by exists x]). congruence.
Qed.

End JsMap.
