(* ===== verification/Regex.v ===== *)
(** * Regular expressions

    The regular expressions of the modelled code, as an executable matcher on UTF-16 code units
    and its meaning as a relation on positions.  Only the truth of [test] is used by the code,
    so greedy and lazy quantifiers are not told apart.  [regex_test] is proved equivalent to the
    existence of a match. *)

From Stdlib Require Import ZArith Lia Bool List Ascii.
From stdpp Require Import base list strings.
From S2P Require Import Prelude JsString.

(** A text is the list of its UTF-16 code units. *)
Abbreviation text := (list Z).

(** Decodes a literal of the source, written in UTF-8, into code units of the basic plane. *)
Fixpoint decode (s : string) : text :=
  match s with
  | EmptyString => []
  | String a r =>
      let n := Z.of_nat (nat_of_ascii a) in
      if (n <? 128)%Z then n :: decode r
      else match r with
           | String b r' =>
               let m := Z.land (Z.of_nat (nat_of_ascii b)) 63 in
               if (n <? 224)%Z then (Z.lor (Z.shiftl (Z.land n 31) 6) m) :: decode r'
               else match r' with
                    | String c r'' =>
                        Z.lor (Z.shiftl (Z.land n 15) 12) (Z.lor (Z.shiftl m 6) (Z.land (Z.of_nat (nat_of_ascii c)) 63))
                        :: decode r''
                    | EmptyString => [n]
                    end
           | EmptyString => [n]
           end
  end.

(** The code units of a string of units below 256. *)
Fixpoint units (s : string) : text :=
  match s with EmptyString => [] | String c r => Z.of_nat (nat_of_ascii c) :: units r end.

(** [\w], [\s] and the case folding of the flag [i] on ASCII letters. *)
Definition within (lo hi x : Z) : bool := (lo <=? x)%Z && (x <=? hi)%Z.
Definition is_word (x : Z) : bool := within 48 57 x || within 65 90 x || (x =? 95)%Z || within 97 122 x.
Definition is_white (x : Z) : bool :=
  within 9 13 x || existsb (Z.eqb x) [32; 160; 5760; 8232; 8233; 8239; 8287; 12288; 65279]%Z || within 8192 8202 x.
Definition fold_case (x : Z) : Z := if within 65 90 x then (x + 32)%Z else x.

Inductive regex :=
  | Eps
  | Cls (p : Z -> bool)
  | Seq (r1 r2 : regex)
  | Alt (r1 r2 : regex)
  | Star (r : regex)
  | Upto (n : nat) (p : Z -> bool)
  | Bound.

(** A position: the unit before it and the units after it. *)
Abbreviation pos := (option Z * text)%type.

Definition word_at (o : option Z) : bool := match o with Some x => is_word x | None => false end.

(** [\b] *)
Definition at_bound (p : pos) : bool := xorb (word_at (fst p)) (word_at (head (snd p))).

Fixpoint upto (n : nat) (c : Z -> bool) (p : pos) (k : pos -> bool) : bool :=
  k p || match n, snd p with
         | S n', x :: s => if c x then upto n' c (Some x, s) k else false
         | _, _ => false
         end.

(** Matching with a continuation; a round of a star must consume something. *)
Fixpoint mt (r : regex) (p : pos) (k : pos -> bool) : bool :=
  match r with
  | Eps => k p
  | Cls c => match snd p with x :: s => if c x then k (Some x, s) else false | [] => false end
  | Seq r1 r2 => mt r1 p (fun p' => mt r2 p' k)
  | Alt r1 r2 => mt r1 p k || mt r2 p k
  | Star r1 =>
      (fix loop (n : nat) (p : pos) : bool :=
         k p || match n with
                | O => false
                | S n' => mt r1 p (fun p' => if (length (snd p') <? length (snd p))%nat then loop n' p' else false)
                end) (length (snd p)) p
  | Upto n c => upto n c p k
  | Bound => if at_bound p then k p else false
  end.

Fixpoint search (r : regex) (prev : option Z) (s : text) : bool :=
  mt r (prev, s) (fun _ => true)
  || match s with [] => false | x :: s' => search r (Some x) s' end.

(** [pattern.test(text)] *)
Definition regex_test (r : regex) (s : text) : bool := search r None s.

(** *** Building blocks *)

Definition chr (c : Z) : regex := Cls (fun x => (fold_case x =? fold_case c)%Z).
Fixpoint seqs (l : list regex) : regex := match l with [] => Eps | [r] => r | r :: l' => Seq r (seqs l') end.
Fixpoint alts (l : list regex) : regex := match l with [] => Eps | [r] => r | r :: l' => Alt r (alts l') end.
Definition lit (s : string) : regex := seqs (map chr (decode s)).
Definition words (l : list string) : regex := alts (map lit l).
Definition opt (r : regex) : regex := Alt r Eps.
Definition plus (c : Z -> bool) : regex := Seq (Cls c) (Star (Cls c)).
Definition none_of (s : string) (x : Z) : bool := negb (existsb (Z.eqb x) (decode s)).
Definition one_of (s : string) : regex := Cls (fun x => existsb (Z.eqb x) (decode s)).

(** ** Meaning *)

Inductive derives : regex -> pos -> pos -> Prop :=
  | D_eps p : derives Eps p p
  | D_cls c o x s : c x = true -> derives (Cls c) (o, x :: s) (Some x, s)
  | D_seq r1 r2 p p' p'' : derives r1 p p' -> derives r2 p' p'' -> derives (Seq r1 r2) p p''
  | D_alt_l r1 r2 p p' : derives r1 p p' -> derives (Alt r1 r2) p p'
  | D_alt_r r1 r2 p p' : derives r2 p p' -> derives (Alt r1 r2) p p'
  | D_star_nil r p : derives (Star r) p p
  | D_star_cons r p p' p'' : derives r p p' -> derives (Star r) p' p'' -> derives (Star r) p p''
  | D_upto_nil n c p : derives (Upto n c) p p
  | D_upto_cons n c o x s p : c x = true -> derives (Upto n c) (Some x, s) p -> derives (Upto (S n) c) (o, x :: s) p
  | D_bound p : at_bound p = true -> derives Bound p p.

#[local] Hint Constructors derives : flow.

(** A match moves forward, or not at all. *)
Lemma derives_progress r p p' : derives r p p' -> p' = p \/ (length (snd p') < length (snd p))%nat.
Proof.
  induction 1; simpl in *; auto; repeat match goal with H : _ \/ _ |- _ => destruct H as [->|H] end; simpl in *; auto; right; lia.
Qed.

Lemma upto_sound n c p k : upto n c p k = true <-> exists p', derives (Upto n c) p p' /\ k p' = true.
Proof.
  revert p. induction n as [|n IH]; intros [o s]; cbn [upto snd].
  - rewrite orb_false_r. split; [intros H; exists (o, s); auto with flow | intros (p' & H & Hk); by inversion H; subst].
  - destruct s as [|x s]; [rewrite orb_false_r; split; [intros H; exists (o, []); auto with flow | intros (p' & H & Hk); by inversion H; subst]|].
    rewrite orb_true_iff. split.
    + intros [H|H]; [exists (o, x :: s); auto with flow|]. destruct (c x) eqn:Hc; [|done].
      apply IH in H as (p' & H & Hk). exists p'. auto with flow.
    + intros (p' & H & Hk). inversion H; subst; [by left|]. right.
      match goal with Hc : c x = true |- _ => rewrite Hc end. apply IH. eauto.
Qed.

(** The loop of a star finds what the star derives. *)
Lemma star_loop_sound r k loop :
  (forall n p, loop n p = k p || match n with O => false | S n' => mt r p (fun p' => if (length (snd p') <? length (snd p))%nat then loop n' p' else false) end) ->
  (forall p k, mt r p k = true <-> exists p', derives r p p' /\ k p' = true) ->
  forall n p, (length (snd p) <= n)%nat -> loop n p = true <-> exists p', derives (Star r) p p' /\ k p' = true.
Proof.
  intros Hloop Hr n. induction n as [n IH] using lt_wf_ind. intros p Hn. rewrite Hloop, orb_true_iff. split.
  - intros [H|H]; [exists p; auto with flow|]. destruct n as [|n]; [done|]. apply Hr in H as (p' & Hd & Hif). cbn beta in Hif.
    match type of Hif with (if ?b then _ else _) = true => destruct b eqn:Hlt; [breflect | done] end.
    apply IH in Hif as (p'' & Hs & Hk); [|lia|lia]. exists p''. eauto with flow.
  - intros (p' & Hs & Hk). remember (Star r) as sr eqn:Hsr. revert Hsr.
    induction Hs as [| | | | |r0 p|r0 p p1 p2 Hd _ Hs2 IHs| | |]; intros [=]; subst; [by left|].
    destruct (derives_progress _ _ _ Hd) as [->|Hlt]; [by apply IHs|]. right.
    destruct n as [|n]; [lia|]. apply Hr. exists p1. split; [done|]. cbn beta.
    apply Nat.ltb_lt in Hlt as Hb. rewrite Hb. apply IH; [lia | lia|]. exists p2. done.
Qed.

Lemma mt_sound r p k : mt r p k = true <-> exists p', derives r p p' /\ k p' = true.
Proof.
  revert p k. induction r as [|c|r1 IH1 r2 IH2|r1 IH1 r2 IH2|r IH|n c|]; intros p k; cbn [mt].
  - split; [eauto with flow | intros (p' & H & Hk); by inversion H; subst].
  - destruct p as [o [|x s]]; cbn [snd]; [split; [done | intros (p' & H & Hk); inversion H]|].
    split; [destruct (c x) eqn:Hc; [eauto with flow | done] | intros (p' & H & Hk); inversion H; subst;
      match goal with Hc : c x = true |- _ => by rewrite Hc end].
  - rewrite IH1. setoid_rewrite IH2. split.
    + intros (p1 & H1 & p2 & H2 & Hk). eauto with flow.
    + intros (p' & H & Hk). inversion H; subst. eauto 6.
  - rewrite orb_true_iff, IH1, IH2. split.
    + intros [(p' & H & Hk)|(p' & H & Hk)]; eauto with flow.
    + intros (p' & H & Hk). inversion H; subst; eauto.
  - apply (star_loop_sound r k); [intros [|n] q; reflexivity | exact IH | done].
  - apply upto_sound.
  - destruct (at_bound p) eqn:Hb; split; [eauto with flow | intros (p' & H & Hk); by inversion H; subst | done |
      intros (p' & H & Hk); inversion H; congruence].
Qed.

(** The positions of a text. *)
Definition position_of (s : text) (p : pos) : Prop :=
  exists before, s = before ++ snd p /\ fst p = last before.

(** [test] finds a match exactly when there is one at some position of the text. *)
Theorem regex_test_correct r s :
  regex_test r s = true <-> exists p p', position_of s p /\ derives r p p'.
Proof.
  assert (Hgen : forall s before, search r (last before) s = true
            <-> exists p p' mid, s = mid ++ snd p /\ fst p = last (before ++ mid) /\ derives r p p').
  { clear s. induction s as [|x s IH]; intros before; cbn [search]; rewrite ?orb_false_r, ?orb_true_iff, mt_sound.
    - split.
      + intros (p' & H & _). exists (last before, []), p', []. split; [done|]. split; [by rewrite (app_nil_r before) | done].
      + intros ([o t] & p' & mid & Hs & Hf & H). symmetry in Hs. apply app_eq_nil in Hs as [-> Ht]. simpl in *. subst.
        rewrite app_nil_r in *. eauto.
    - pose proof (IH (before ++ [x])) as IHx. rewrite last_snoc in IHx. rewrite IHx. split.
      + intros [(p' & H & _)|(p & p' & mid & -> & Hf & H)].
        * exists (last before, x :: s), p', []. split; [done|]. split; [by rewrite (app_nil_r before) | done].
        * exists p, p', (x :: mid). rewrite <- app_assoc in Hf. done.
      + intros ([o t] & p' & [|y mid] & Hs & Hf & H); simpl in *.
        * subst. rewrite app_nil_r in *. left. eauto.
        * injection Hs as -> ->. right. exists (o, t), p', mid. by rewrite <- app_assoc. }
  unfold regex_test. change (@None Z) with (last (@nil Z)). rewrite Hgen. unfold position_of. simpl. split.
  - intros (p & p' & mid & Hs & Hf & H). eauto 6.
  - intros (p & p' & (mid & Hs & Hf) & H). eauto 6.
Qed.
