(* ===== verification/JsNumber.v ===== *)
(** * Numbers read from strings

    [Number(text)] for the numeric literals JavaScript accepts (decimal with fraction and
    exponent, hexadecimal, octal and binary), as exact rationals: [None] stands for NaN and for
    the infinities, which the callers treat alike. *)

From Stdlib Require Import ZArith Lia Bool List Ascii QArith Qround.
From stdpp Require Import base list strings.
From S2P Require Import Prelude JsString.

#[export] Instance Q_eq_dec : EqDecision Q.
Proof. solve_decision. Defined.

(** The value of a digit in bases up to 16. *)
Definition digit_value (c : ascii) : option Z :=
  let n := Z.of_nat (nat_of_ascii c) in
  if (48 <=? n)%Z && (n <=? 57)%Z then Some (n - 48)%Z
  else if (97 <=? n)%Z && (n <=? 102)%Z then Some (n - 87)%Z
  else if (65 <=? n)%Z && (n <=? 70)%Z then Some (n - 55)%Z else None.

(** A non-empty string of digits below [base]. *)
Fixpoint digits_in (base : Z) (acc : Z) (s : string) : option Z :=
  match s with
  | EmptyString => Some acc
  | String c r => match digit_value c with
                  | Some d => if (d <? base)%Z then digits_in base (acc * base + d) r else None
                  | None => None
                  end
  end.

Definition integer_in (base : Z) (s : string) : option Z :=
  match s with EmptyString => None | _ => digits_in base 0 s end.

Definition pow10 (e : Z) : Q := if (0 <=? e)%Z then inject_Z (10 ^ e) else (1 # Z.to_pos (10 ^ (- e)))%Q.

(** An exponent part, [""] or [e±digits]. *)
Definition exponent (s : string) : option Z :=
  match s with
  | EmptyString => Some 0%Z
  | String c r =>
      if Ascii.eqb c "e" || Ascii.eqb c "E" then
        match r with
        | String "-" r' => Z.opp <$> integer_in 10 r'
        | String "+" r' => integer_in 10 r'
        | _ => integer_in 10 r
        end
      else None
  end.

(** Unsigned decimal: digits, optional fraction, optional exponent. *)
Definition decimal (s : string) : option Q :=
  let '(whole, r) := take_digits s in
  let '(frac, r') := match r with String "." r1 => take_digits r1 | _ => ("", r) end in
  if negb (truthy whole) && negb (truthy frac) then None
  else match digits_in 10 0 (whole +:+ frac), exponent r' with
       | Some m, Some e => Some (inject_Z m * pow10 (e - Z.of_nat (String.length frac)))%Q
       | _, _ => None
       end.

Definition Number (text : string) : option Q :=
  match trim text with
  | EmptyString => Some 0%Q
  | String "-" r => Qopp <$> decimal r
  | String "+" r => decimal r
  | String "0" (String c r) as s =>
      if Ascii.eqb c "x" || Ascii.eqb c "X" then inject_Z <$> integer_in 16 r
      else if Ascii.eqb c "o" || Ascii.eqb c "O" then inject_Z <$> integer_in 8 r
      else if Ascii.eqb c "b" || Ascii.eqb c "B" then inject_Z <$> integer_in 2 r
      else decimal s
  | s => decimal s
  end.

Lemma Number_examples :
  map Number [" 12 "; "-3"; "0x1F"; "2.50"; "1e3"; "5e-1"; ""; "abc"; "1x"]
  = [Some 12; Some (-3); Some 31; Some (250 # 100); Some 1000; Some (5 # 10); Some 0; None; None]%Q.
Proof. vm_compute. reflexivity. Qed.

Definition Qmax0 (q : Q) : Q := if Qle_bool 0 q then q else 0%Q.
Definition Qltb (a b : Q) : bool := negb (Qle_bool b a).

Lemma Qltb_spec a b : Qltb a b = true <-> (a < b)%Q.
Proof.
  unfold Qltb. rewrite negb_true_iff. destruct (Qle_bool b a) eqn:H.
  - apply Qle_bool_iff in H. split; [done|]. intros Hlt. exfalso. by apply (Qlt_not_le _ _ Hlt).
  - split; [|done]. intros _. apply Qnot_le_lt. intros Hle. apply Qle_bool_iff in Hle. congruence.
Qed.

(** [String(n)] of a number with a finite decimal expansion. *)
Fixpoint fraction_digits (fuel : nat) (q : Q) : string :=
  match fuel with
  | O => ""
  | S f => if Qeq_bool q 0 then "" else
      let d := Qfloor (q * 10) in showZ d +:+ fraction_digits f (q * 10 - inject_Z d)
  end.
Definition show_number (q : Q) : string :=
  let a := if Qle_bool 0 q then q else (- q)%Q in
  let whole := Qfloor a in
  (if Qle_bool 0 q then "" else "-") +:+ showZ whole
  +:+ (if Qeq_bool a (inject_Z whole) then "" else "." +:+ fraction_digits 20 (a - inject_Z whole)).
