(* ===== verification/Json.v ===== *)
(** * JSON values

    The values [JSON.parse] yields, with [JSON.stringify] and the conversions of the language
    that the agent worker and the runner apply to them.  Numbers are exact rationals. An object is
    the list of its properties in enumeration order, with distinct keys. *)

From Stdlib Require Import ZArith Lia Bool List Ascii QArith Sorting.Permutation.
From stdpp Require Import base list strings sorting.
From S2P Require Import Prelude JsString JsMap JsNumber.

Local Set Warnings "-register-all".

Inductive json :=
  | JNull
  | JBool (b : bool)
  | JNum (n : Q)
  | JStr (s : string)
  | JArr (l : list json)
  | JObj (fields : list (string * json)).

(** [value[key]] on an object; [None] is [undefined]. *)
Definition field (key : string) (v : json) : option json :=
  match v with JObj fs => map_get key fs | _ => None end.

Definition dquote : string := String (ascii_of_nat 34) EmptyString.
Definition backslash : string := String (ascii_of_nat 92) EmptyString.

Definition hex_digit (d : nat) : ascii := ascii_of_nat (if (d <? 10)%nat then 48 + d else 87 + d).

(** The escape of one character in [JSON.stringify]. *)
Definition escape_char (c : ascii) : string :=
  let n := nat_of_ascii c in
  if (n =? 34)%nat then backslash +:+ dquote
  else if (n =? 92)%nat then backslash +:+ backslash
  else if (n =? 8)%nat then backslash +:+ "b"
  else if (n =? 9)%nat then backslash +:+ "t"
  else if (n =? 10)%nat then backslash +:+ "n"
  else if (n =? 12)%nat then backslash +:+ "f"
  else if (n =? 13)%nat then backslash +:+ "r"
  else if (n <? 32)%nat
       then backslash +:+ "u00" +:+ String (hex_digit (n / 16)) (String (hex_digit (n mod 16)) EmptyString)
       else String c EmptyString.

Fixpoint escape (s : string) : string :=
  match s with EmptyString => EmptyString | String c r => escape_char c +:+ escape r end.

Definition quote (s : string) : string := dquote +:+ escape s +:+ dquote.

Definition show_bool (b : bool) : string := if b then "true" else "false".

(** [JSON.stringify(value)] *)
Fixpoint stringify_json (v : json) : string :=
  match v with
  | JNull => "null"
  | JBool b => show_bool b
  | JNum n => show_number n
  | JStr s => quote s
  | JArr l => "[" +:+ join "," (map stringify_json l) +:+ "]"
  | JObj fs => "{" +:+ join "," (map (fun p => quote (fst p) +:+ ":" +:+ stringify_json (snd p)) fs) +:+ "}"
  end.

(** [JSON.stringify(value, null, 2)], [indent] deep. *)
Fixpoint stringify_pretty (indent : string) (v : json) : string :=
  let inner := "  " +:+ indent in
  match v with
  | JArr ((_ :: _) as l) => "[" +:+ newline +:+ join ("," +:+ newline) (map (fun x => inner +:+ stringify_pretty inner x) l) +:+ newline +:+ indent +:+ "]"
  | JObj ((_ :: _) as fs) =>
      "{" +:+ newline +:+ join ("," +:+ newline) (map (fun p => inner +:+ quote (fst p) +:+ ": " +:+ stringify_pretty inner (snd p)) fs)
      +:+ newline +:+ indent +:+ "}"
  | _ => stringify_json v
  end.

(** A property name that is an array index: these come first, in ascending order. *)
Definition array_index (k : string) : option Z :=
  match digits_value k with Some n => if (showZ n =s k) && (n <? 4294967295)%Z then Some n else None | None => None end.

(** [o[k] = v] for an object [v]: a property of [__proto__] is the prototype, which is not enumerated. *)
Fixpoint insert_index (n : Z) (k : string) (v : json) (o : list (string * json)) : list (string * json) :=
  match o with
  | (k', v') :: r =>
      match array_index k' with
      | Some m => if (m <? n)%Z then (k', v') :: insert_index n k v r else if (m =? n)%Z then (k, v) :: r else (k, v) :: o
      | None => (k, v) :: o
      end
  | [] => [(k, v)]
  end.
Definition obj_set (k : string) (v : json) (o : list (string * json)) : list (string * json) :=
  if k =s "__proto__" then o else match array_index k with Some n => insert_index n k v o | None => map_set k v o end.

(** What [Array.prototype.join] makes of an element ([undefined] and [null] are empty). *)
Fixpoint join_text (v : json) : string :=
  match v with
  | JNull => ""
  | JBool b => show_bool b
  | JNum n => show_number n
  | JStr s => s
  | JArr l => join "," (map join_text l)
  | JObj _ => "[object Object]"
  end.

(** [keys.sort()]: by code units. *)
Definition sort_strings (l : list string) : list string := merge_sort String.le l.

Lemma sort_strings_perm l l' : Permutation l l' -> sort_strings l = sort_strings l'.
Proof.
  intros H. unfold sort_strings. apply (StronglySorted_unique String.le);
    [apply StronglySorted_merge_sort; apply _ .. |]. by rewrite !merge_sort_Permutation.
Qed.

Lemma map_get_perm {V} (m m' : list (string * V)) k :
  Permutation m m' -> NoDup (map fst m) -> map_get k m = map_get k m'.
Proof.
  intros H. induction H as [|[k1 v1] m m' _ IH|[k1 v1] [k2 v2] m|m1 m2 m3 H1 IH1 H2 IH2]; simpl; intros Hn.
  - done.
  - inversion Hn. case_decide; auto.
  - inversion Hn as [|? ? Hk _]. subst. repeat case_decide; subst; try done. exfalso. apply Hk. left.
  - rewrite IH1, IH2; [done | by rewrite <- H1 | done].
Qed.
