(* ===== verification/Protocol.v ===== *)
(** * The runner wire protocol (sandbox-runner/src/protocol.ts)

    The event types the sandbox runner sends to Flow, and the requests and responses of a session,
    with the field names of the source.  The
    JSON encoding of an event is an interface, [EventCodec]: the components only need the two
    functions, and an instance is given where a concrete run is evaluated. *)

From Stdlib Require Import ZArith QArith.
From stdpp Require Import base strings list.
From S2P Require Import Prelude JsString JsMap JsNumber Json.

Inductive RunnerEventType :=
  | ev_thought | ev_action | ev_response | ev_elicitation | ev_error | ev_plan
  | ev_status | ev_diff | ev_usage.

#[export] Instance RunnerEventType_eq_dec : EqDecision RunnerEventType.
Proof. solve_decision. Defined.

Inductive CodingErrorCode :=
  | noCodeAccess | quotaExceeded | environmentSetupFailed | snapshotFailed | turnTimeout
  | harnessFailed | modelUnavailable | pushFailed | signingFailed | internal.

Inductive PlanStatus := pl_pending | pl_inProgress | pl_completed | pl_canceled.

Record AgentPlanStep := { step_content : string; step_status : PlanStatus }.

Inductive DiffStatus := df_added | df_modified | df_deleted | df_renamed.

Record CodingDiffSummary := {
  diff_path : string; diff_additions : Z; diff_deletions : Z; diff_status : DiffStatus }.

Record ActionDetail := {
  act_action : string; act_parameter : option string; act_result : option string;
  act_tool : option string; act_exitCode : option Q }.

Record ErrorDetail := { err_code : CodingErrorCode; err_message : string }.

Record UsageDetail := {
  us_model : string; us_inputTokens : Q; us_outputTokens : Q; us_costUsd : option Q }.

Record RunnerEvent := {
  ev_id : string;
  ev_turnId : option string;
  ev_type : RunnerEventType;
  ev_ephemeral : option bool;
  ev_body : option string;
  ev_actionDetail : option ActionDetail;
  ev_planSteps : option (list AgentPlanStep);
  ev_diffs : option (list CodingDiffSummary);
  ev_errorDetail : option ErrorDetail;
  ev_usageDetail : option UsageDetail;
  ev_phase : option string;
  ev_createdAt : string }.

Definition MAX_EVENTS_PER_REQUEST : nat := 100.

(** [JSON.stringify] and [JSON.parse] on runner events; [None] is the exception of a text that
    is not the JSON of an event. *)
Class EventCodec := {
  stringify : RunnerEvent -> string;
  parse : string -> option RunnerEvent }.

(** What a rejected request throws: the sandbox token is refused ([AuthError]), the runtime API
    answered with an error ([RuntimeError]), or anything else (the network). *)
Inductive PostError :=
  | AuthError (status : Z)
  | RuntimeError (status : Z) (retryable : bool)
  | OtherError (message : string).

(** ** Bootstrap *)

Inductive RunnerMode := mode_session | mode_snapshot | mode_debug | mode_warm | mode_restore.

Definition SANDBOX_TOKEN_PREFIX : string := "fcs_".

Record BootstrapRepo := {
  codeHost : string; hostName : string; fullName : string; cloneUrl : string; pushUrl : option string; baseRef : string;
  baseSha : option string; branchName : string; existingBranch : bool; branchUnconfirmed : bool; repo_branchPrefix : option string }.

(** [contextWindow] is whatever the response holds. *)
Record BootstrapHarness := {
  h_name : string; h_model : string; reasoningEffort : option string; h_resumeId : option string; contextWindow : option json }.

Record BootstrapLLM := { anthropicBaseUrl : string; openaiBaseUrl : string; openSourceBaseUrl : string }.

Record BootstrapGit := {
  authorName : string; authorEmail : string; committerName : string; committerEmail : string;
  signingFormat : option string; signingPublicKey : option string; coAuthorTrailer : option string }.

Record BootstrapLimits := { turnTimeoutSeconds : Z; heartbeatSeconds : Z; setupTimeoutSeconds : Z; stopGraceSeconds : Z }.

Record BootstrapMCPServer := { srv_name : string; srv_title : string; srv_url : string }.

Record Turn := {
  tn_id : string; tn_prompt : string; tn_attachments : option (list string); tn_kind : string; tn_scope : option string;
  tn_scopeSource : option string; tn_includeLeftovers : option bool }.

Record CodingEnvVar := { var_name : string; var_value : string }.

(** The environment's mise variables, the browser switch and the guidance stand in the response itself. *)
Record BootstrapResponse := {
  b_repo : BootstrapRepo; b_harness : BootstrapHarness; b_llm : BootstrapLLM; b_git : BootstrapGit; b_browser : bool;
  b_environmentVariables : option (list CodingEnvVar); b_restored : bool; b_turn : option Turn; b_limits : BootstrapLimits;
  b_guidance : option string; b_mcpServers : option (list BootstrapMCPServer) }.

(** ** Sessions *)

Inductive HeartbeatPhase := ph_setup | ph_running | ph_idle | ph_publishing | ph_snapshotting.

#[export] Instance HeartbeatPhase_eq_dec : EqDecision HeartbeatPhase.
Proof. solve_decision. Defined.

Record HeartbeatRequest := { hb_phase : HeartbeatPhase; hb_turnId : option string }.

(** The kind is a text of the response: an unknown one is ignored. *)
Record InboxItem := {
  item_seq : Z; item_kind : string; item_turn : option Turn; item_signal : option string; item_data : option (list (string * json)) }.

Record CodingCommit := {
  c_sha : string; c_branch : string; c_turnActivityId : option string; c_message : option string; c_signed : bool; c_createdAt : string }.

Inductive TurnStatus := st_success | st_awaitingInput | st_error | st_stopped.

#[export] Instance TurnStatus_eq_dec : EqDecision TurnStatus.
Proof. solve_decision. Defined.

Record TurnCompleteRequest := {
  rq_status : TurnStatus; rq_summary : option string; rq_displayTitle : option string; rq_harnessSessionId : option string;
  rq_commits : option (list CodingCommit); rq_pushed : bool; rq_headSha : option string; rq_diff : option (list CodingDiffSummary);
  rq_error : option ErrorDetail; rq_scope : option string }.
