(* ===== verification/EventBuffer.v ===== *)
(** * The event buffer of the sandbox runner (sandbox-runner/src/event-buffer.ts)

    [EventBuffer] queues runner events and ships them in batches.  The class is a state machine
    driven by calls ([push], [flush], [close]) and by the event loop (the timer fires, a request
    settles, a backoff sleep ends, the [finally] of a finished pump runs).  [handle] is one such
    turn: the synchronous code that runs between two suspension points.  Every entry gets a
    reference number when it is pushed, which stands for the identity of the entry object that
    [remove] compares; [trace] records what the buffer does to the outside. *)

From Stdlib Require Import ZArith Lia Bool List Ascii Sorting.Permutation Sorting.Sorted.
From stdpp Require Import base list strings relations.
From S2P Require Import Prelude JsString Protocol.

(** ** State *)

Record Entry := mkEntry { ref : nat; event : RunnerEvent; size : Z; inflight : bool }.

(** Where the coroutine [run] stands: not running, suspended in [post] with a batch, suspended
    in [sleep], or finished with the [finally] handler of [pump] still to come. *)
Inductive Pump :=
  | Idle
  | Posting (batch : list nat) (attempt : Z)
  | Sleeping (attempt : Z)
  | Finishing.

Definition pump_active (p : Pump) : bool := match p with Idle => false | _ => true end.

(** What the buffer does that others can see. *)
Inductive Obs :=
  | OPost (refs : list nat)       (* a request is sent *)
  | OAck (refs : list nat)        (* a batch was delivered and leaves the queue *)
  | OReject (refs : list nat)     (* a batch Flow refuses for good leaves the queue *)
  | OEvict (r : nat)              (* an entry is dropped because the queue is full *)
  | OFatal                        (* onFatal is called *)
  | OWake (w : nat).              (* a waiting flush resolves *)

Record Buffer := mkBuffer {
  queue : list Entry;
  bytes : Z;
  timer : bool;
  pumping : Pump;
  closed : bool;
  fatal : option PostError;
  dropped : Z;
  waiters : list nat;
  nextRef : nat;
  trace : list Obs }.

Definition empty_buffer : Buffer := mkBuffer [] 0 false Idle false None 0 [] 0 [].

Definition set_queue (q : list Entry) (n : Z) (b : Buffer) : Buffer :=
  mkBuffer q n (timer b) (pumping b) (closed b) (fatal b) (dropped b) (waiters b) (nextRef b) (trace b).
Definition set_timer (t : bool) (b : Buffer) : Buffer :=
  mkBuffer (queue b) (bytes b) t (pumping b) (closed b) (fatal b) (dropped b) (waiters b) (nextRef b) (trace b).
Definition set_pumping (p : Pump) (b : Buffer) : Buffer :=
  mkBuffer (queue b) (bytes b) (timer b) p (closed b) (fatal b) (dropped b) (waiters b) (nextRef b) (trace b).
Definition set_fatal (e : PostError) (b : Buffer) : Buffer :=
  mkBuffer (queue b) (bytes b) (timer b) (pumping b) (closed b) (Some e) (dropped b) (waiters b) (nextRef b) (trace b).
Definition set_waiters (w : list nat) (b : Buffer) : Buffer :=
  mkBuffer (queue b) (bytes b) (timer b) (pumping b) (closed b) (fatal b) (dropped b) w (nextRef b) (trace b).
Definition emit (o : list Obs) (b : Buffer) : Buffer :=
  mkBuffer (queue b) (bytes b) (timer b) (pumping b) (closed b) (fatal b) (dropped b) (waiters b) (nextRef b) (trace b ++ o).

Definition DEFAULT_EVENT_BUFFER_BYTES : Z := 8 * 1024 * 1024.

Record EventBufferOptions := { maxBytes : Z; batchSize : Z }.

(** The constructor's defaults ([options.maxBytes ?? …], [options.batchSize ?? 20]). *)
Definition EventBuffer_options (max batch : option Z) : EventBufferOptions :=
  {| maxBytes := max ?? DEFAULT_EVENT_BUFFER_BYTES; batchSize := batch ?? 20%Z |}.

Section Buffer.
Context `{EventCodec} (opts : EventBufferOptions).

(** ** push *)

(** The inner loop of [push]: every secret the text contains is replaced by three stars and the
    event is parsed again from the masked text; [None] when that text does not parse. *)
Fixpoint mask_event (secrets : list string) (json : string) (ev : RunnerEvent) : option (string * RunnerEvent) :=
  match secrets with
  | [] => Some (json, ev)
  | secret :: rest =>
      if includes secret json then
        let json' := join mask_stars (split secret json) in
        match parse json' with
        | Some ev' => mask_event rest json' ev'
        | None => None
        end
      else mask_event rest json ev
  end.

Definition long_secrets (secrets : list string) : list string :=
  List.filter (fun s => (8 <=? String.length s)%nat) secrets.

Definition push_entry (json : string) (ev : RunnerEvent) (b : Buffer) : Buffer :=
  mkBuffer (queue b ++ [mkEntry (nextRef b) ev (byteLength json) false]) (bytes b + byteLength json)
    (timer b) (pumping b) (closed b) (fatal b) (dropped b) (waiters b) (S (nextRef b)) (trace b).

(** The outer loop; the flag says whether it was left by an exception. *)
Fixpoint push_loop (secrets : list string) (events : list RunnerEvent) (b : Buffer) : Buffer * bool :=
  match events with
  | [] => (b, false)
  | original :: rest =>
      match mask_event secrets (stringify original) original with
      | Some (json, ev) => push_loop secrets rest (push_entry json ev b)
      | None => (b, true)
      end
  end.

(** [findEvictable(match)] *)
Definition findEvictable (q : list Entry) (m : Entry -> bool) : option nat :=
  findIndex (fun e => negb (inflight e) && m e) q.

Definition is_thought (e : Entry) : bool := bool_decide (ev_type (event e) = ev_thought).
Definition is_ephemeral (e : Entry) : bool := bool_decide (ev_ephemeral (event e) = Some true).

(** The index [evict] removes next. *)
Definition evictIndex (q : list Entry) : option nat :=
  match findEvictable q is_thought with
  | Some i => Some i
  | None => match findEvictable q is_ephemeral with
            | Some i => Some i
            | None => findEvictable q (fun _ => true)
            end
  end.

(** The body of [evict]'s loop for the entry at index [i]. *)
Definition evict_at (i : nat) (b : Buffer) : Buffer :=
  match queue b !! i with
  | Some e => mkBuffer (delete i (queue b)) (bytes b - size e) (timer b) (pumping b) (closed b) (fatal b)
                (dropped b + 1) (waiters b) (nextRef b) (trace b ++ [OEvict (ref e)])
  | None => b
  end.

(** [evict]: every round removes one entry, so as many rounds as there are entries are enough. *)
Fixpoint evict_loop (fuel : nat) (b : Buffer) : Buffer :=
  match fuel with
  | O => b
  | S n =>
      if (bytes b <=? maxBytes opts)%Z then b
      else match evictIndex (queue b) with
           | None => b
           | Some i => evict_loop n (evict_at i b)
           end
  end.

Definition evict (b : Buffer) : Buffer := evict_loop (length (queue b)) b.

(** ** The pump *)

Definition mark_inflight (f : bool) (e : Entry) : Entry := mkEntry (ref e) (event e) (size e) f.

Definition in_batch (batch : list nat) (e : Entry) : bool := existsb (Nat.eqb (ref e)) batch.

(** [for (const entry of batch) entry.inflight = f] *)
Definition set_inflight (batch : list nat) (f : bool) (q : list Entry) : list Entry :=
  map (fun e => if in_batch batch e then mark_inflight f e else e) q.

(** [remove(batch)] *)
Definition remove (batch : list nat) (b : Buffer) : Buffer :=
  set_queue (List.filter (fun e => negb (in_batch batch e)) (queue b))
            (bytes b - sumZ (map size (List.filter (in_batch batch) (queue b)))) b.

Definition resolveWaiters (b : Buffer) : Buffer :=
  emit (map OWake (waiters b)) (set_waiters [] b).

(** The end of [run]: the promise settles and [finally] is still to run. *)
Definition finish_run (b : Buffer) : Buffer :=
  set_pumping Finishing (match queue b with [] => resolveWaiters b | _ => b end).

(** One round of [run]'s loop up to the suspension in [post], or its end. *)
Definition run_iter (attempt : Z) (b : Buffer) : Buffer :=
  match queue b, fatal b with
  | _ :: _, None =>
      let batch := map ref (take MAX_EVENTS_PER_REQUEST (queue b)) in
      emit [OPost batch]
        (set_pumping (Posting batch attempt) (set_queue (set_inflight batch true (queue b)) (bytes b) b))
  | _, _ => finish_run b
  end.

Definition pump (b : Buffer) : Buffer :=
  match pumping b with Idle => run_iter 0 b | _ => b end.

Definition clearTimer (b : Buffer) : Buffer := set_timer false b.

Definition schedule (b : Buffer) : Buffer :=
  if pump_active (pumping b) then b
  else if (batchSize opts <=? Z.of_nat (length (queue b)))%Z then pump (clearTimer b)
  else if timer b then b else set_timer true b.

Definition push (secrets : list string) (events : list RunnerEvent) (b : Buffer) : Buffer :=
  if closed b || isSome (fatal b) then b
  else match push_loop (long_secrets secrets) events b with
       | (b', false) => schedule (evict b')
       | (b', true) => b'
       end.

(** The request of the pump was answered. *)
Definition post_resolved (batch : list nat) (b : Buffer) : Buffer :=
  run_iter 0 (emit [OAck batch] (remove batch b)).

(** The request failed: the [catch] block of [run]. *)
Definition post_rejected (batch : list nat) (attempt : Z) (e : PostError) (b : Buffer) : Buffer :=
  let b1 := set_queue (set_inflight batch false (queue b)) (bytes b) b in
  match e with
  | AuthError _ => finish_run (emit [OFatal] (set_fatal e b1))
  | RuntimeError status retryable =>
      if negb retryable && (400 <=? status)%Z
      then run_iter attempt (emit [OReject batch] (remove batch b1))
      else set_pumping (Sleeping (attempt + 1)) b1
  | OtherError _ => set_pumping (Sleeping (attempt + 1)) b1
  end.

(** The [finally] handler of [pump]. *)
Definition pump_finally (b : Buffer) : Buffer :=
  let b1 := set_pumping Idle b in
  match queue b1, fatal b1 with
  | _ :: _, None => schedule b1
  | _, _ => b1
  end.

(** [flush]: the answer when it is known at once, else the waiter is queued. *)
Definition flush (w : nat) (b : Buffer) : Buffer * option bool :=
  match queue b, fatal b with
  | [], _ => (b, Some true)
  | _, Some _ => (b, Some false)
  | _, None => let b1 := pump (clearTimer b) in (set_waiters (waiters b1 ++ [w]) b1, None)
  end.

Definition close (b : Buffer) : Buffer :=
  mkBuffer (queue b) (bytes b) (timer b) (pumping b) true (fatal b) (dropped b) (waiters b) (nextRef b) (trace b).

(** ** The event loop *)

Inductive Input :=
  | IPush (secrets : list string) (events : list RunnerEvent)
  | IFlush (w : nat)
  | IClose
  | ITimer
  | IPostOk
  | IPostFail (e : PostError)
  | ISleepDone
  | IFinally.

Definition handle (i : Input) (b : Buffer) : option Buffer :=
  match i, pumping b with
  | IPush secrets events, _ => Some (push secrets events b)
  | IFlush w, _ => Some (fst (flush w b))
  | IClose, _ => Some (close b)
  | ITimer, _ => if timer b then Some (pump (set_timer false b)) else None
  | IPostOk, Posting batch _ => Some (post_resolved batch b)
  | IPostFail e, Posting batch attempt => Some (post_rejected batch attempt e b)
  | ISleepDone, Sleeping attempt => Some (run_iter attempt b)
  | IFinally, Finishing => Some (pump_finally b)
  | _, _ => None
  end.

(** A run: the inputs one after the other. *)
Fixpoint run_inputs (ins : list Input) (b : Buffer) : option Buffer :=
  match ins with
  | [] => Some b
  | i :: rest => match handle i b with Some b' => run_inputs rest b' | None => None end
  end.

Definition step (b b' : Buffer) : Prop := exists i, handle i b = Some b'.
Definition reachable (b : Buffer) : Prop := rtc step empty_buffer b.

(** What left the queue through a request, and what was evicted. *)
Definition settled1 (o : Obs) : list nat := match o with OAck l | OReject l => l | _ => [] end.
Definition evicted1 (o : Obs) : list nat := match o with OEvict r => [r] | _ => [] end.
Definition settled (tr : list Obs) : list nat := flat_map settled1 tr.
Definition evicted (tr : list Obs) : list nat := flat_map evicted1 tr.
End Buffer.

(** ** The well-formedness invariant

    It speaks of the queue, its byte count, the trace and the batch in flight; timers, waiters
    and flags do not matter to it. *)

Definition batch_of (p : Pump) : list nat := match p with Posting batch _ => batch | _ => [] end.

Record wf_core (q : list Entry) (n : Z) (d : Z) (nr : nat) (tr : list Obs) (batch : list nat) : Prop := {
  (* [bytes] is the sum of the sizes of the queued entries *)
  wf_bytes : n = sumZ (map size q);
  (* [dropped] counts the evicted entries *)
  wf_dropped : d = Z.of_nat (length (evicted tr));
  (* the entries in flight are the batch of the pending request, at the head of the queue *)
  wf_shape : exists pre post, q = pre ++ post /\ Forall (fun e => inflight e = true) pre
               /\ Forall (fun e => inflight e = false) post /\ map ref pre = batch;
  (* what was settled comes before what is queued, both in the order of the pushes *)
  wf_order : StronglySorted lt (settled tr ++ map ref q);
  (* no entry is lost and none is counted twice *)
  wf_perm : Permutation (seq 0 nr) (settled tr ++ evicted tr ++ map ref q) }.

Definition wf (b : Buffer) : Prop :=
  wf_core (queue b) (bytes b) (dropped b) (nextRef b) (trace b) (batch_of (pumping b)).

Lemma settled_app l k : settled (l ++ k) = settled l ++ settled k.
Proof. apply flat_map_app. Qed.

Lemma evicted_app l k : evicted (l ++ k) = evicted l ++ evicted k.
Proof. apply flat_map_app. Qed.

#[local] Hint Rewrite settled_app evicted_app : flow.

Lemma sorted_app_inv (l k : list nat) :
  StronglySorted lt (l ++ k) -> StronglySorted lt l /\ StronglySorted lt k /\ forall x y, In x l -> In y k -> (x < y)%nat.
Proof.
  induction l as [|a l IH]; simpl; intros Hs; [by repeat constructor|].
  apply StronglySorted_inv in Hs as [Hs Ha]. destruct (IH Hs) as (H1 & H2 & H3).
  rewrite List.Forall_app in Ha. destruct Ha as [Ha1 Ha2].
  split; [by constructor|]. split; [done|].
  intros x y [->|Hx] Hy; [|by apply H3]. rewrite List.Forall_forall in Ha2. by apply Ha2.
Qed.

Lemma sorted_app_intro (l k : list nat) :
  StronglySorted lt l -> StronglySorted lt k -> (forall x y, In x l -> In y k -> (x < y)%nat) -> StronglySorted lt (l ++ k).
Proof.
  induction l as [|a l IH]; simpl; intros Hl Hk Hlt; [done|].
  apply StronglySorted_inv in Hl as [Hl Ha]. constructor; [apply IH; auto|].
  apply List.Forall_app. split; [done|]. apply List.Forall_forall. auto.
Qed.

Lemma sorted_NoDup (l : list nat) : StronglySorted lt l -> NoDup l.
Proof.
  induction 1 as [|a l Hl IH Ha]; constructor; [|done].
  rewrite list_elem_of_In. intros Hin. rewrite List.Forall_forall in Ha. apply Ha in Hin. lia.
Qed.

Lemma wf_refs_NoDup q n d nr tr batch : wf_core q n d nr tr batch -> NoDup (map ref q).
Proof. intros W. destruct (sorted_app_inv _ _ (wf_order _ _ _ _ _ _ W)) as (_ & Hs & _). by apply sorted_NoDup. Qed.

Lemma wf_refs_lt q n d nr tr batch x : wf_core q n d nr tr batch -> In x (settled tr ++ map ref q) -> (x < nr)%nat.
Proof.
  intros W Hx. assert (Hin : In x (seq 0 nr)).
  { eapply Permutation_in; [symmetry; apply (wf_perm _ _ _ _ _ _ W)|].
    rewrite !in_app_iff in *. tauto. }
  apply in_seq in Hin. lia.
Qed.

(** *** Entries of the batch *)

Lemma in_batch_spec batch e : in_batch batch e = true <-> In (ref e) batch.
Proof.
  unfold in_batch. rewrite existsb_exists. split.
  - intros (x & Hx & He). breflect. by subst.
  - intros Hin. exists (ref e). by rewrite Nat.eqb_refl.
Qed.

Lemma batch_split pre post : NoDup (map ref (pre ++ post)) ->
  Forall (fun e => in_batch (map ref pre) e = true) pre /\ Forall (fun e => in_batch (map ref pre) e = false) post.
Proof.
  rewrite map_app. intros (_ & Hdis & _)%NoDup_app. split; apply List.Forall_forall.
  - intros e He. apply in_batch_spec. by apply in_map.
  - intros e He. apply not_true_iff_false. rewrite in_batch_spec. intros Hin.
    apply (Hdis (ref e)); apply list_elem_of_In; [done | by apply in_map].
Qed.

Lemma set_inflight_split pre post f : NoDup (map ref (pre ++ post)) ->
  set_inflight (map ref pre) f (pre ++ post) = map (mark_inflight f) pre ++ post.
Proof.
  intros Hnd. destruct (batch_split _ _ Hnd) as [Hp Hq]. unfold set_inflight. rewrite map_app. f_equal.
  - apply map_ext_in. intros e He. rewrite List.Forall_forall in Hp. by rewrite (Hp e He).
  - rewrite <- (map_id post) at 2. apply map_ext_in. intros e He.
    rewrite List.Forall_forall in Hq. by rewrite (Hq e He).
Qed.

Lemma filter_batch_split pre post : NoDup (map ref (pre ++ post)) ->
  List.filter (in_batch (map ref pre)) (pre ++ post) = pre
  /\ List.filter (fun e => negb (in_batch (map ref pre) e)) (pre ++ post) = post.
Proof.
  intros Hnd. destruct (batch_split _ _ Hnd) as [Hp Hq]. rewrite !List.filter_app. split.
  - by rewrite filter_all, filter_none, app_nil_r.
  - rewrite filter_none, filter_all; [done| |].
    + eapply Forall_impl; [exact Hq|]. intros e He. simpl. by rewrite He.
    + eapply Forall_impl; [exact Hp|]. intros e He. simpl. by rewrite He.
Qed.

Lemma map_ref_mark f l : map ref (map (mark_inflight f) l) = map ref l.
Proof. rewrite map_map. by apply map_ext. Qed.

Lemma map_size_mark f l : map size (map (mark_inflight f) l) = map size l.
Proof. rewrite map_map. by apply map_ext. Qed.

Lemma mark_all f l : Forall (fun e => inflight e = f) (map (mark_inflight f) l).
Proof. induction l; simpl; constructor; auto. Qed.

(** *** Each primitive keeps the invariant *)

Lemma wf_push q n d nr tr batch json ev :
  wf_core q n d nr tr batch ->
  wf_core (q ++ [mkEntry nr ev (byteLength json) false]) (n + byteLength json) d (S nr) tr batch.
Proof.
  intros W. pose proof (wf_refs_lt _ _ _ _ _ _ nr W) as Hlt.
  destruct W as [Wb Wd (pre & post & -> & Hp & Hq & Hb) Wo Wp]. split.
  - rewrite map_app. simpl. autorewrite with flow. lia.
  - done.
  - exists pre, (post ++ [mkEntry nr ev (byteLength json) false]). rewrite app_assoc.
    split; [done|]. split; [done|]. split; [|done]. apply List.Forall_app. auto.
  - rewrite map_app, app_assoc. apply sorted_app_intro; [done | repeat constructor|].
    intros x y Hx [<-|[]]. simpl. eapply (wf_refs_lt _ _ _ _ _ _ x); [|exact Hx].
    by split; eauto 10.
  - rewrite seq_S, map_app. simpl. rewrite !app_assoc. apply Permutation_app_tail.
    by rewrite <- app_assoc.
Qed.

Lemma wf_evict q n d nr tr batch i e :
  wf_core q n d nr tr batch -> q !! i = Some e -> inflight e = false ->
  wf_core (delete i q) (n - size e) (d + 1) nr (tr ++ [OEvict (ref e)]) batch.
Proof.
  intros [Wb Wd (pre & post & -> & Hp & Hq & Hb) Wo Wp] Hi Hf.
  assert (Hge : (length pre <= i)%nat).
  { destruct (decide (length pre <= i)%nat); [done|]. rewrite lookup_app_l in Hi by lia.
    rewrite Forall_lookup in Hp. specialize (Hp _ _ Hi). congruence. }
  rewrite lookup_app_r in Hi by lia. set (j := (i - length pre)%nat) in *.
  assert (Hdel : delete i (pre ++ post) = pre ++ delete j post).
  { rewrite !delete_take_drop. rewrite take_app_ge, drop_app_ge by lia.
    replace (S i - length pre)%nat with (S j) by lia. by rewrite app_assoc. }
  assert (Hpost : post = take j post ++ e :: drop (S j) post) by (by rewrite take_drop_middle).
  assert (Hperm : Permutation post (e :: delete j post)).
  { rewrite delete_take_drop. rewrite Hpost at 1. symmetry. apply Permutation_middle. }
  rewrite Hdel. split.
  - rewrite Wb, !map_app. autorewrite with flow.
    rewrite (sumZ_delete size post j e Hi).
    lia.
  - rewrite evicted_app, length_app. simpl. lia.
  - exists pre, (delete j post). split; [done|]. split; [done|]. split; [|done].
    rewrite delete_take_drop. rewrite Hpost in Hq. apply Forall_app in Hq as [Hq1 Hq2].
    apply Forall_app. split; [done|]. by apply Forall_cons in Hq2 as [_ ?].
  - rewrite settled_app, app_nil_r. rewrite !map_app in *. rewrite Hpost, map_app in Wo. simpl in Wo.
    rewrite delete_take_drop, map_app. rewrite !app_assoc in *.
    destruct (sorted_app_inv _ _ Wo) as (H1 & H2 & H3). apply StronglySorted_inv in H2 as [H2 _].
    apply sorted_app_intro; [done | done|]. intros x y Hx Hy. apply H3; [done | by right].
  - rewrite Wp, settled_app, evicted_app. simpl. rewrite app_nil_r.
    apply Permutation_app_head. rewrite <- app_assoc. apply Permutation_app_head.
    rewrite !map_app. transitivity (map ref pre ++ map ref (e :: delete j post)).
    + by apply Permutation_app_head, Permutation_map.
    + symmetry. apply (Permutation_middle (map ref pre) (map ref (delete j post)) (ref e)).
Qed.

Lemma wf_send q n d nr tr :
  wf_core q n d nr tr [] ->
  let batch := map ref (take MAX_EVENTS_PER_REQUEST q) in
  wf_core (set_inflight batch true q) n d nr (tr ++ [OPost batch]) batch.
Proof.
  intros W batch. pose proof (wf_refs_NoDup _ _ _ _ _ _ W) as Hnd.
  destruct W as [Wb Wd (pre & post & Hq & Hp & Hpost & Hb) Wo Wp].
  apply map_eq_nil in Hb. subst pre. simpl in Hq. subst post.
  set (pre := take MAX_EVENTS_PER_REQUEST q) in *. set (post := drop MAX_EVENTS_PER_REQUEST q).
  assert (Hsplit : q = pre ++ post) by (symmetry; apply take_drop).
  assert (Hset : set_inflight batch true q = map (mark_inflight true) pre ++ post).
  { rewrite Hsplit in Hnd |- *. by apply set_inflight_split. }
  assert (Href : map ref (set_inflight batch true q) = map ref q)
    by (by rewrite Hset, Hsplit, !map_app, map_ref_mark).
  split.
  - rewrite Wb, Hset, Hsplit, !map_app. by rewrite map_size_mark.
  - rewrite evicted_app, app_nil_r. done.
  - exists (map (mark_inflight true) pre), post. rewrite Hset. split; [done|].
    split; [apply mark_all|]. split; [|by rewrite map_ref_mark].
    rewrite Hsplit in Hpost. by apply Forall_app in Hpost as [_ ?].
  - by rewrite settled_app, app_nil_r, Href.
  - by rewrite settled_app, evicted_app, !app_nil_r, Href.
Qed.

(** The batch leaves the queue, delivered or refused. *)
Lemma wf_settle q n d nr tr batch o :
  wf_core q n d nr tr batch -> settled1 o = batch -> evicted1 o = [] ->
  wf_core (List.filter (fun e => negb (in_batch batch e)) q)
          (n - sumZ (map size (List.filter (in_batch batch) q))) d nr (tr ++ [o]) [].
Proof.
  intros W Ho1 Ho2. pose proof (wf_refs_NoDup _ _ _ _ _ _ W) as Hnd.
  destruct W as [Wb Wd (pre & post & -> & Hp & Hpost & <-) Wo Wp].
  destruct (filter_batch_split _ _ Hnd) as [-> ->].
  assert (Hs : settled (tr ++ [o]) = settled tr ++ map ref pre) by (rewrite settled_app; simpl; by rewrite Ho1, app_nil_r).
  assert (He : evicted (tr ++ [o]) = evicted tr) by (rewrite evicted_app; simpl; by rewrite Ho2, app_nil_r).
  rewrite map_app in *. split.
  - rewrite Wb. autorewrite with flow. lia.
  - by rewrite He.
  - by exists [], post.
  - rewrite Hs. by rewrite <- app_assoc.
  - rewrite Hs, He, Wp, <- !app_assoc. apply Permutation_app_head.
    rewrite !app_assoc. apply Permutation_app_tail, Permutation_app_comm.
Qed.

(** The batch stays queued after a failure. *)
Lemma wf_fail q n d nr tr batch :
  wf_core q n d nr tr batch -> wf_core (set_inflight batch false q) n d nr tr [].
Proof.
  intros W. pose proof (wf_refs_NoDup _ _ _ _ _ _ W) as Hnd.
  destruct W as [Wb Wd (pre & post & -> & Hp & Hpost & <-) Wo Wp].
  rewrite set_inflight_split by done.
  assert (Href : map ref (map (mark_inflight false) pre ++ post) = map ref (pre ++ post))
    by (by rewrite !map_app, map_ref_mark).
  split; try rewrite Href; try done.
  - rewrite Wb, !map_app. by rewrite map_size_mark.
  - exists [], (map (mark_inflight false) pre ++ post). split; [done|]. split; [constructor|].
    split; [|done]. apply Forall_app. split; [apply mark_all | done].
Qed.

(** Observations that settle and evict nothing. *)
Lemma wf_quiet q n d nr tr batch os :
  wf_core q n d nr tr batch -> settled os = [] -> evicted os = [] -> wf_core q n d nr (tr ++ os) batch.
Proof.
  intros [Wb Wd Ws Wo Wp] H1 H2. split; try done;
    rewrite ?settled_app, ?evicted_app, ?H1, ?H2, ?app_nil_r; done.
Qed.

(** *** Every turn of the event loop keeps the invariant *)

Section Invariant.
Context `{EventCodec} (opts : EventBufferOptions).

Lemma findEvictable_inflight q m i :
  findEvictable q m = Some i -> exists e, q !! i = Some e /\ inflight e = false /\ m e = true.
Proof. intros Hf. destruct (findIndex_Some _ _ _ Hf) as (e & _ & Hi & He & _). breflect. eauto. Qed.

Lemma evictIndex_inflight q i : evictIndex q = Some i -> exists e, q !! i = Some e /\ inflight e = false.
Proof.
  unfold evictIndex. intros Hi.
  destruct (findEvictable q is_thought) eqn:H1; [|destruct (findEvictable q is_ephemeral) eqn:H2];
    simplify_eq; edestruct findEvictable_inflight as (e & ? & ? & ?); eauto.
Qed.

Lemma evict_loop_wf fuel b : wf b -> wf (evict_loop opts fuel b).
Proof.
  revert b. induction fuel as [|n IH]; intros b W; simpl; [done|].
  destruct (_ <=? _)%Z; [done|]. destruct (evictIndex (queue b)) as [i|] eqn:Hi; [|done].
  apply IH. destruct (evictIndex_inflight _ _ Hi) as (e & He & Hf).
  unfold evict_at. rewrite He. by apply wf_evict.
Qed.

Lemma push_loop_wf secrets events b : wf b -> wf (fst (push_loop secrets events b)).
Proof.
  revert b. induction events as [|ev events IH]; intros b W; simpl; [done|].
  destruct (mask_event _ _ _) as [[json ev']|]; [|done]. apply IH. by apply wf_push.
Qed.

(** No request is pending; the field [pumping] itself does not matter. *)
Definition wf_free (b : Buffer) : Prop :=
  wf_core (queue b) (bytes b) (dropped b) (nextRef b) (trace b) [].

Lemma wake_quiet ws : settled (map OWake ws) = [] /\ evicted (map OWake ws) = [].
Proof. induction ws; simpl; auto. Qed.

Lemma finish_run_wf b : wf_free b -> wf (finish_run b).
Proof.
  unfold wf, wf_free, finish_run. intros W. destruct (queue b) eqn:Hq; simpl; rewrite Hq; [|done].
  destruct (wake_quiet (waiters b)). by apply wf_quiet.
Qed.

Lemma run_iter_wf attempt b : wf_free b -> wf (run_iter attempt b).
Proof.
  intros W. unfold run_iter. destruct (queue b) eqn:Hq; [by apply finish_run_wf|].
  destruct (fatal b); [by apply finish_run_wf|]. rewrite <- Hq.
  unfold wf, wf_free in *. by apply wf_send.
Qed.

Lemma wf_free_of b : wf b -> batch_of (pumping b) = [] -> wf_free b.
Proof. unfold wf, wf_free. by intros W <-. Qed.

Lemma pump_wf b : wf b -> wf (pump b).
Proof.
  unfold pump. intros W. destruct (pumping b) eqn:Hp; try done.
  apply run_iter_wf, wf_free_of; [done | by rewrite Hp].
Qed.

Lemma schedule_wf b : wf b -> wf (schedule opts b).
Proof.
  intros W. unfold schedule. destruct (pump_active _); [done|].
  destruct (_ <=? _)%Z; [by apply pump_wf|]. by destruct (timer b).
Qed.

Lemma push_wf secrets events b : wf b -> wf (push opts secrets events b).
Proof.
  intros W. unfold push. destruct (closed b || _); [done|].
  pose proof (push_loop_wf (long_secrets secrets) events b W) as W'.
  destruct (push_loop _ _ _) as [b' []]; simpl in W'; [done|].
  by apply schedule_wf, evict_loop_wf.
Qed.

Lemma filter_set_inflight batch f q :
  List.filter (fun e => negb (in_batch batch e)) (set_inflight batch f q)
    = List.filter (fun e => negb (in_batch batch e)) q
  /\ map size (List.filter (in_batch batch) (set_inflight batch f q)) = map size (List.filter (in_batch batch) q).
Proof.
  induction q as [|e q [IH1 IH2]]; simpl; [done|].
  destruct (in_batch batch e) eqn:He.
  - change (in_batch batch (mark_inflight f e)) with (in_batch batch e). rewrite He. simpl.
    split; [done | by f_equal].
  - rewrite He. simpl. split; [by f_equal | done].
Qed.

Lemma post_resolved_wf batch attempt b : wf b -> pumping b = Posting batch attempt -> wf (post_resolved batch b).
Proof.
  intros W Hp. unfold wf in W. rewrite Hp in W. apply run_iter_wf.
  exact (wf_settle _ _ _ _ _ _ (OAck batch) W eq_refl eq_refl).
Qed.

Lemma post_rejected_wf batch attempt e b :
  wf b -> pumping b = Posting batch attempt -> wf (post_rejected batch attempt e b).
Proof.
  intros W Hp. unfold wf in W. rewrite Hp in W. simpl in W. pose proof (wf_fail _ _ _ _ _ _ W) as W'.
  unfold post_rejected. destruct e as [st|st retry|msg].
  - apply finish_run_wf. by apply (wf_quiet _ _ _ _ _ _ [OFatal]).
  - destruct (negb retry && (400 <=? st)%Z); [|exact W'].
    apply run_iter_wf. destruct (filter_set_inflight batch false (queue b)) as [H1 H2].
    unfold wf_free, remove, set_queue, emit. cbn -[set_inflight]. rewrite H1, H2.
    exact (wf_settle _ _ _ _ _ _ (OReject batch) W eq_refl eq_refl).
  - exact W'.
Qed.

Lemma pump_finally_wf b : wf b -> pumping b = Finishing -> wf (pump_finally opts b).
Proof.
  intros W Hp. assert (W' : wf (set_pumping Idle b)) by (unfold wf in *; by rewrite Hp in W).
  unfold pump_finally. destruct (queue (set_pumping Idle b)); [done|].
  destruct (fatal (set_pumping Idle b)); [done|]. by apply schedule_wf.
Qed.

Lemma flush_wf w b : wf b -> wf (fst (flush w b)).
Proof.
  intros W. unfold flush. destruct (queue b) eqn:Hq; [done|]. destruct (fatal b); [done|].
  assert (W' : wf (pump (clearTimer b))) by (by apply pump_wf). exact W'.
Qed.

Lemma handle_wf i b b' : wf b -> handle opts i b = Some b' -> wf b'.
Proof.
  intros W Hi. destruct i; simpl in Hi; repeat case_match; simplify_eq.
  all: try (by apply push_wf); try (by apply flush_wf); try exact W.
  all: try (by apply pump_wf).
  all: eauto using post_resolved_wf, post_rejected_wf, pump_finally_wf.
  apply run_iter_wf, wf_free_of; [done|]. match goal with Hp : pumping _ = _ |- _ => by rewrite Hp end.
Qed.

Lemma empty_wf : wf empty_buffer.
Proof. split; try done; [by exists [], [] | constructor]. Qed.

Lemma reachable_wf b : reachable opts b -> wf b.
Proof.
  unfold reachable. intros Hr. remember empty_buffer as b0 eqn:H0.
  assert (W : wf b0) by (subst; apply empty_wf). clear H0.
  induction Hr as [|x y z [i Hi] _ IH]; eauto using handle_wf.
Qed.
End Invariant.

(** ** Properties *)

Section Properties.
Context `{EventCodec} (opts : EventBufferOptions).

(** C1 (event_buffer_conservation). Whatever the interleaving of pushes, flushes, timers, request
    outcomes and sleeps, no event is lost or duplicated: the events pushed so far are, each
    exactly once, settled by a request, evicted, or still queued; [bytes] is the size of the
    queue and [dropped] the number of evictions. *)
Theorem event_buffer_conservation b :
  reachable opts b ->
  Permutation (seq 0 (nextRef b)) (settled (trace b) ++ evicted (trace b) ++ map ref (queue b))
  /\ bytes b = sumZ (map size (queue b))
  /\ dropped b = Z.of_nat (length (evicted (trace b))).
Proof. intros W%reachable_wf. split; [apply W|]. split; apply W. Qed.

(** Events leave the buffer in the order they were pushed: the settled
    events followed by the queued ones are in increasing order of their push number, retries and
    failed batches included; and the batch in flight is the head of the queue. *)
Theorem event_buffer_fifo b :
  reachable opts b ->
  StronglySorted lt (settled (trace b) ++ map ref (queue b))
  /\ exists rest, map ref (queue b) = batch_of (pumping b) ++ rest.
Proof.
  intros W%reachable_wf. split; [apply W|].
  destruct (wf_shape _ _ _ _ _ _ W) as (pre & post & -> & _ & _ & <-).
  exists (map ref post). apply map_app.
Qed.

(** *** The bound on the queue *)

Lemma evictIndex_None q : evictIndex q = None -> Forall (fun e => inflight e = true) q.
Proof.
  unfold evictIndex. repeat case_match; try done. intros Hn. apply findIndex_None in Hn.
  eapply Forall_impl; [exact Hn|]. intros e He. simpl in He. rewrite andb_true_r in He. by breflect.
Qed.

Lemma evict_loop_bound fuel b :
  (length (queue b) <= fuel)%nat -> bytes b = sumZ (map size (queue b)) -> (0 <= maxBytes opts)%Z ->
  let b' := evict_loop opts fuel b in
  (bytes b' <= maxBytes opts)%Z \/ Forall (fun e => inflight e = true) (queue b').
Proof.
  revert b. induction fuel as [|n IH]; intros b Hlen Hb Hmax; simpl.
  - destruct (queue b) eqn:Hq; [by right | simpl in Hlen; lia].
  - destruct (_ <=? _)%Z eqn:Hle; [left; by breflect|].
    destruct (evictIndex (queue b)) as [i|] eqn:Hi; [|right; by apply evictIndex_None].
    destruct (evictIndex_inflight _ _ Hi) as (e & He & _). unfold evict_at. rewrite He.
    apply IH; simpl; [|rewrite Hb, (sumZ_delete _ _ _ _ He); lia|done].
    pose proof (lookup_lt_Some _ _ _ He). rewrite delete_take_drop, length_app, length_take, length_drop. lia.
Qed.

Lemma finish_run_queue b : queue (finish_run b) = queue b /\ bytes (finish_run b) = bytes b.
Proof. unfold finish_run. destruct (queue b) eqn:Hq; simpl; by rewrite ?Hq. Qed.

Lemma run_iter_bound attempt b : bytes (run_iter attempt b) = bytes b
  /\ (Forall (fun e => inflight e = true) (queue b) -> Forall (fun e => inflight e = true) (queue (run_iter attempt b))).
Proof.
  unfold run_iter. destruct (queue b) eqn:Hq; [|destruct (fatal b)];
    try (destruct (finish_run_queue b) as [-> ->]; rewrite Hq; done).
  split; [done|]. intros Hf. cbn [queue set_pumping set_queue emit]. rewrite <- Hq in *.
  generalize (map ref (take MAX_EVENTS_PER_REQUEST (queue b))) as batch. intros batch.
  apply Forall_fmap. eapply Forall_impl; [exact Hf|]. intros x Hx. simpl. by destruct (in_batch _ _).
Qed.

Lemma schedule_bound b : bytes (schedule opts b) = bytes b
  /\ (Forall (fun e => inflight e = true) (queue b) -> Forall (fun e => inflight e = true) (queue (schedule opts b))).
Proof.
  unfold schedule. destruct (pump_active _) eqn:Hp; [done|]. destruct (_ <=? _)%Z.
  - unfold pump, clearTimer. simpl. destruct (pumping b); try done. apply (run_iter_bound 0 (set_timer false b)).
  - by destruct (timer b).
Qed.

(** After a push that the buffer accepts and that throws nothing, the queue
    holds at most [maxBytes] bytes, except for entries whose request is in flight: eviction
    spares those, so if the bound is still exceeded the queue consists of them alone. *)
Theorem push_bounded b secrets events b1 :
  reachable opts b -> (0 <= maxBytes opts)%Z -> closed b = false -> fatal b = None ->
  push_loop (long_secrets secrets) events b = (b1, false) ->
  let b' := push opts secrets events b in
  (bytes b' <= maxBytes opts)%Z \/ Forall (fun e => inflight e = true) (queue b').
Proof.
  intros W%reachable_wf Hmax Hc Hf Hpush. unfold push. rewrite Hc, Hf, Hpush. simpl.
  pose proof (push_loop_wf (long_secrets secrets) events b W) as W'. rewrite Hpush in W'.
  destruct (evict_loop_bound (length (queue b1)) b1 (le_n _) (wf_bytes _ _ _ _ _ _ W') Hmax) as [Hb|Hb];
    destruct (schedule_bound (evict opts b1)) as [Hs1 Hs2].
  - left. by rewrite Hs1.
  - right. by apply Hs2.
Qed.

Lemma findEvictable_None q m j x :
  findEvictable q m = None -> q !! j = Some x -> inflight x = false -> m x = false.
Proof. intros Hn Hj Hx. pose proof (findIndex_None_lookup _ _ _ _ Hn Hj) as Hp. simpl in Hp. by rewrite Hx in Hp. Qed.

Lemma findEvictable_first q m i j x :
  findEvictable q m = Some i -> q !! j = Some x -> inflight x = false -> m x = true -> (i <= j)%nat.
Proof. intros Hs Hj Hx Hm. apply (findIndex_first _ _ _ _ _ Hs Hj). simpl. by rewrite Hx, Hm. Qed.

(** The eviction class of an entry: thoughts go first, then ephemeral events, then the rest. *)
Definition evict_rank (e : Entry) : nat :=
  if is_thought e then 0 else if is_ephemeral e then 1 else 2.

(** The entry [evict] picks is not in flight, and among the entries not in
    flight it is the oldest one of the first non-empty class (thoughts, ephemeral events, the
    rest): it minimises the class first and the position second. *)
Theorem evict_priority q i :
  evictIndex q = Some i ->
  exists e, q !! i = Some e /\ inflight e = false
    /\ forall j x, q !! j = Some x -> inflight x = false ->
         (evict_rank e < evict_rank x)%nat \/ (evict_rank e = evict_rank x /\ (i <= j)%nat).
Proof.
  unfold evictIndex, evict_rank. intros Hi.
  destruct (findEvictable q is_thought) as [k|] eqn:H1.
  { simplify_eq. destruct (findEvictable_inflight _ _ _ H1) as (e & He & Hfl & Hm). exists e.
    split; [done|]. split; [done|]. intros j x Hj Hx. rewrite Hm.
    destruct (is_thought x) eqn:Ht; [right; eauto using findEvictable_first|]. destruct (is_ephemeral x); lia. }
  destruct (findEvictable q is_ephemeral) as [k|] eqn:H2.
  { simplify_eq. destruct (findEvictable_inflight _ _ _ H2) as (e & He & Hfl & Hm). exists e.
    split; [done|]. split; [done|]. intros j x Hj Hx.
    rewrite (findEvictable_None _ _ _ _ H1 Hj Hx), (findEvictable_None _ _ _ _ H1 He Hfl), Hm.
    destruct (is_ephemeral x) eqn:Ht; [right; eauto using findEvictable_first | lia]. }
  destruct (findEvictable_inflight _ _ _ Hi) as (e & He & Hfl & Hm). exists e.
  split; [done|]. split; [done|]. intros j x Hj Hx.
  rewrite (findEvictable_None _ _ _ _ H1 Hj Hx), (findEvictable_None _ _ _ _ H1 He Hfl).
  rewrite (findEvictable_None _ _ _ _ H2 Hj Hx), (findEvictable_None _ _ _ _ H2 He Hfl).
  right; eauto using findEvictable_first.
Qed.

(** *** Secrets *)

Lemma mask_event_spec secrets json ev json' ev' :
  Forall (fun s => s <> "" /\ lacks "*" s = true) secrets ->
  mask_event secrets json ev = Some (json', ev') ->
  (json = stringify ev \/ parse json = Some ev) ->
  (json' = stringify ev' \/ parse json' = Some ev')
  /\ Forall (fun s => includes s json' = false) secrets
  /\ (forall s, s <> "" -> lacks "*" s = true -> includes s json = false -> includes s json' = false).
Proof.
  intros Hs. revert json ev. induction Hs as [|s rest [Hne Hl] _ IH]; simpl; intros json ev.
  - intros [= <- <-] ?. auto.
  - destruct (includes s json) eqn:Hin.
    + destruct (parse (join mask_stars (split s json))) as [ev1|] eqn:Hp; [|done]. intros Hm Hj.
      destruct (IH _ _ Hm (or_intror Hp)) as (H1 & H2 & H3). split; [done|]. split.
      * constructor; [|done]. apply H3; [done..|]. by apply mask_removes.
      * intros t Ht Htl Hti. apply H3; [done..|]. by apply mask_keeps_absent.
    + intros Hm Hj. destruct (IH _ _ Hm Hj) as (H1 & H2 & H3). split; [done|]. split; [|done].
      constructor; [|done]. by apply H3.
Qed.

(** C11 (push_masks_secrets). No secret of eight characters or more (without a star of its own)
    survives in what [push] queues: every entry it appends carries the event of a text in which
    none of the secrets occurs, and the entry's size is the size of that text. *)
Theorem push_masks_secrets secrets events b :
  Forall (fun s => lacks "*" s = true) secrets ->
  let b' := fst (push_loop (long_secrets secrets) events b) in
  exists added, queue b' = queue b ++ added
    /\ Forall (fun e => exists json, (json = stringify (event e) \/ parse json = Some (event e))
         /\ size e = byteLength json
         /\ Forall (fun s => (8 <= String.length s)%nat -> includes s json = false) secrets) added.
Proof.
  intros Hs. assert (Hls : Forall (fun s => s <> "" /\ lacks "*" s = true) (long_secrets secrets)).
  { unfold long_secrets. induction Hs as [|s l Hl _ IH]; cbn [List.filter]; [constructor|].
    destruct (8 <=? String.length s)%nat eqn:H8; [|exact IH]. constructor; [|done]. breflect.
    split; [|done]. intros ->. simpl in H8. lia. }
  revert b. induction events as [|ev events IH]; intros b; simpl; [by exists []; rewrite app_nil_r|].
  destruct (mask_event _ _ _) as [[json ev']|] eqn:Hm; [|by exists []; simpl; rewrite app_nil_r].
  destruct (IH (push_entry json ev' b)) as (added & Hq & Hadd).
  exists (mkEntry (nextRef b) ev' (byteLength json) false :: added). split.
  - rewrite Hq. simpl. by rewrite <- app_assoc.
  - constructor; [|done]. simpl. exists json.
    destruct (mask_event_spec _ _ _ _ _ Hls Hm (or_introl eq_refl)) as (H1 & H2 & _).
    split; [done|]. split; [done|]. rewrite Forall_forall in *. intros s Hin H8. apply H2.
    apply list_elem_of_In, filter_In. split; [by apply list_elem_of_In | by apply Nat.leb_le].
Qed.

(** *** Progress *)

(** Something is scheduled that will deliver what is queued. *)
Definition awake (b : Buffer) : bool :=
  match queue b with [] => true | _ => isSome (fatal b) || timer b || pump_active (pumping b) end.

Lemma active_awake b : pump_active (pumping b) = true -> awake b = true.
Proof. unfold awake. intros ->. destruct (queue b); [done|]. by rewrite orb_true_r. Qed.

Lemma run_iter_active attempt b : pump_active (pumping (run_iter attempt b)) = true.
Proof. unfold run_iter, finish_run. by destruct (queue b); [|destruct (fatal b)]. Qed.

Lemma pump_active_after b : pump_active (pumping (pump b)) = true.
Proof. unfold pump. destruct (pumping b) eqn:Hp; try (by rewrite Hp). apply run_iter_active. Qed.

Lemma schedule_awake b : awake (schedule opts b) = true.
Proof.
  unfold schedule. destruct (pump_active _) eqn:Hp; [by apply active_awake|].
  destruct (_ <=? _)%Z; [apply active_awake, pump_active_after|].
  unfold awake. destruct (timer b) eqn:Ht; simpl; destruct (queue b); try done; by rewrite ?Ht, ?orb_true_r.
Qed.

Lemma post_rejected_awake batch attempt e b : awake (post_rejected batch attempt e b) = true.
Proof.
  apply active_awake. destruct e as [st|st retry|msg]; simpl.
  - done.
  - destruct (_ && _); [apply run_iter_active | done].
  - done.
Qed.

Lemma pump_finally_awake b : awake (pump_finally opts b) = true.
Proof.
  unfold pump_finally. destruct (queue (set_pumping Idle b)) eqn:Hq; [unfold awake; by rewrite Hq|].
  destruct (fatal (set_pumping Idle b)) eqn:Hf; [|apply schedule_awake]. unfold awake. by rewrite Hq, Hf.
Qed.

(** The pushes of a run that do not throw: every event of the push still parses after its secrets
    were replaced in its text. *)
Definition push_parses (i : Input) : Prop :=
  match i with
  | IPush secrets events => Forall (fun ev => mask_event (long_secrets secrets) (stringify ev) ev <> None) events
  | _ => True
  end.

Lemma push_loop_total secrets events b :
  Forall (fun ev => mask_event secrets (stringify ev) ev <> None) events -> snd (push_loop secrets events b) = false.
Proof.
  intros Ht. revert b. induction Ht as [|ev events Hev _ IH]; intros b; simpl; [done|].
  destruct (mask_event _ _ _) as [[json ev']|]; [apply IH | done].
Qed.

Lemma handle_awake i b b' :
  push_parses i -> awake b = true -> handle opts i b = Some b' -> awake b' = true.
Proof.
  intros Ht Ha Hi. destruct i; simpl in Hi; repeat case_match; simplify_eq.
  all: try (by apply active_awake, pump_active_after).
  all: try (apply active_awake; unfold post_resolved; apply run_iter_active).
  all: eauto using post_rejected_awake, pump_finally_awake.
  all: try (unfold push; destruct (closed b || _); [done|];
    pose proof (push_loop_total (long_secrets secrets) events b Ht) as Hp;
    destruct (push_loop _ _ _) as [b' []]; simpl in Hp; [done | apply schedule_awake]).
  all: unfold flush; destruct (queue b) eqn:Hq; [done|]; destruct (fatal b) eqn:Hf; [done|];
    apply active_awake; apply (pump_active_after (clearTimer b)).
Qed.

Lemma run_awake ins b b' :
  Forall push_parses ins -> awake b = true -> run_inputs opts ins b = Some b' -> awake b' = true.
Proof.
  intros Hp. revert b. induction Hp as [|i ins Hi _ IH]; simpl; intros b Ha Hr; [congruence|].
  destruct (handle opts i b) eqn:Hh; [|done]. eauto using handle_awake.
Qed.

(** An event none of the secrets occurs in is not parsed again, so its push cannot throw. *)
Lemma untouched_parses secrets ev :
  Forall (fun s => includes s (stringify ev) = false) secrets -> mask_event secrets (stringify ev) ev <> None.
Proof. induction 1 as [|s secrets Hs _ IH]; simpl; [done|]. by rewrite Hs. Qed.

(** C2 (no_lost_wakeup). Queued events are never forgotten: after any sequence of inputs in which no
    push threw (each pushed event still parses once its own secrets are replaced in its text), a
    buffer with a non-empty queue and a valid token has a timer armed or its pump running (posting,
    sleeping before a retry, or about to reschedule itself). *)
Theorem no_lost_wakeup ins b :
  run_inputs opts ins empty_buffer = Some b -> Forall push_parses ins ->
  queue b <> [] -> fatal b = None ->
  timer b = true \/ pumping b <> Idle.
Proof.
  intros Hr Hp Hq Hf.
  pose proof (run_awake ins empty_buffer b Hp eq_refl Hr) as Ha.
  unfold awake in Ha. rewrite Hf in Ha. destruct (queue b); [done|]. simpl in Ha.
  apply orb_true_iff in Ha as [Ha|Ha]; [by left | right; intros Hpu; by rewrite Hpu in Ha].
Qed.
End Properties.

(** ** A concrete run *)

Section Demo.

(** A codec that keeps the body of an event as its text; a text with a brace is no event. *)
#[local] Instance body_codec : EventCodec := {|
  stringify ev := ev_body ev ?? "";
  parse s := if includes "{" s then None
             else Some {| ev_id := "e"; ev_turnId := None; ev_type := ev_response; ev_ephemeral := None;
                          ev_body := Some s; ev_actionDetail := None; ev_planSteps := None; ev_diffs := None;
                          ev_errorDetail := None; ev_usageDetail := None; ev_phase := None; ev_createdAt := "" |} |}.

Definition demo_event (ty : RunnerEventType) (text : string) : RunnerEvent :=
  {| ev_id := "e"; ev_turnId := None; ev_type := ty; ev_ephemeral := None; ev_body := Some text;
     ev_actionDetail := None; ev_planSteps := None; ev_diffs := None; ev_errorDetail := None;
     ev_usageDetail := None; ev_phase := None; ev_createdAt := "" |}.

Definition demo_opts : EventBufferOptions := {| maxBytes := 24; batchSize := 3 |}.

Lemma run_inputs_rtc ins b b' : run_inputs demo_opts ins b = Some b' -> rtc (step demo_opts) b b'.
Proof.
  revert b. induction ins as [|i ins IH]; simpl; intros b; [by intros [= ->]; constructor|].
  destruct (handle demo_opts i b) as [b1|] eqn:Hi; [|done]. intros Hr. econstructor; [by exists i | by apply IH].
Qed.

(** Three events fill the batch and are posted; the request fails and is retried; a push while
    it is in flight overflows the queue and the new thought is evicted. *)
Definition demo_inputs : list Input :=
  [ IPush ["fcs_secret"] [demo_event ev_response "one"; demo_event ev_thought "t fcs_secret";
                          demo_event ev_response "three"];
    IPostFail (OtherError "reset"); ISleepDone;
    IPush [] [demo_event ev_thought "a long thought of the agent"; demo_event ev_action "act"];
    IPostOk; IPostFail (RuntimeError 422 false); IFinally; IPush [] [demo_event ev_status "idle"] ].

Definition demo_state : Buffer :=
  match run_inputs demo_opts demo_inputs empty_buffer with Some b => b | None => empty_buffer end.

Lemma demo_reachable : reachable demo_opts demo_state.
Proof. apply (run_inputs_rtc demo_inputs). vm_compute. reflexivity. Qed.

Lemma event_buffer_conservation_witness :
  nextRef demo_state = 6%nat /\ length (queue demo_state) = 1%nat /\ evicted (trace demo_state) = [3%nat]
  /\ Permutation (seq 0 (nextRef demo_state))
       (settled (trace demo_state) ++ evicted (trace demo_state) ++ map ref (queue demo_state)).
Proof. repeat (split; [vm_compute; reflexivity|]). apply (event_buffer_conservation demo_opts demo_state demo_reachable). Defined.

Lemma event_buffer_fifo_witness :
  settled (trace demo_state) = [0; 1; 2; 4]%nat
  /\ StronglySorted lt (settled (trace demo_state) ++ map ref (queue demo_state)).
Proof. split; [vm_compute; reflexivity|]. apply (event_buffer_fifo demo_opts demo_state demo_reachable). Defined.

Lemma push_bounded_witness :
  let b' := push demo_opts [] [demo_event ev_response "more than fits in the queue"] demo_state in
  (bytes b' <= maxBytes demo_opts)%Z \/ Forall (fun e => inflight e = true) (queue b').
Proof.
  eapply (push_bounded demo_opts demo_state [] [demo_event ev_response "more than fits in the queue"]).
  - apply demo_reachable.
  - vm_compute. discriminate.
  - vm_compute. reflexivity.
  - vm_compute. reflexivity.
  - vm_compute. reflexivity.
Defined.

Lemma evict_priority_witness :
  let q := [mkEntry 0 (demo_event ev_thought "x") 1 true; mkEntry 1 (demo_event ev_response "y") 1 false;
            mkEntry 2 (demo_event ev_thought "z") 1 false] in
  evictIndex q = Some 2%nat /\ exists e, q !! 2%nat = Some e /\ inflight e = false.
Proof.
  intros q. split; [vm_compute; reflexivity|].
  destruct (evict_priority q 2 ltac:(vm_compute; reflexivity)) as (e & He & Hf & _). by exists e.
Defined.

Lemma push_masks_secrets_witness :
  let b' := fst (push_loop (long_secrets ["fcs_secret"]) [demo_event ev_thought "t fcs_secret"] empty_buffer) in
  map size (queue b') = [5%Z]
  /\ exists added, queue b' = [] ++ added /\ length added = 1%nat.
Proof.
  split; [vm_compute; reflexivity|].
  destruct (push_masks_secrets ["fcs_secret"] [demo_event ev_thought "t fcs_secret"] empty_buffer
              ltac:(repeat constructor)) as (added & Hq & _).
  exists added. split; [exact Hq|]. rewrite app_nil_l in Hq. rewrite <- Hq. vm_compute. reflexivity.
Defined.

Lemma no_lost_wakeup_witness : timer demo_state = true \/ pumping demo_state <> Idle.
Proof.
  apply (no_lost_wakeup demo_opts demo_inputs demo_state).
  - vm_compute. reflexivity.
  - repeat constructor; vm_compute; discriminate.
  - vm_compute. discriminate.
  - vm_compute. reflexivity.
Defined.
End Demo.
