(* ===== verification/RunnerQueue.v ===== *)
(** * The runner's inbox queue and its backoff
      (sandbox-runner/src/queue.ts, sandbox-runner/src/backoff.ts)

    [AsyncQueue] hands items to callers of [take] in order.  A pending [take] is a waiter,
    named by a number; resolving a promise is an entry of the trace. *)

From Stdlib Require Import ZArith QArith Qround Lia Lqa Bool List.
From stdpp Require Import base list strings relations.
From S2P Require Import Prelude.

(** ** AsyncQueue *)

Module AsyncQueue.
#[local] Arguments seq : simpl never.
Section Queue.
Context {T : Type}.

Record Queue := mkQueue {
  items : list T;
  waiters : list nat;
  closed : bool }.

Definition empty : Queue := mkQueue [] [] false.

(** A promise returned by [take] and what it resolves to. *)
Local Abbreviation Resolution := (nat * option T)%type.

Definition push (item : T) (q : Queue) : Queue * list Resolution :=
  if closed q then (q, [])
  else match waiters q with
       | w :: rest => (mkQueue (items q) rest false, [(w, Some item)])
       | [] => (mkQueue (items q ++ [item]) [] false, [])
       end.

Definition size (q : Queue) : Z := Z.of_nat (length (items q)).

Definition take (w : nat) (q : Queue) : Queue * list Resolution :=
  match items q with
  | x :: rest => (mkQueue rest (waiters q) (closed q), [(w, Some x)])
  | [] => if closed q then (q, [(w, None)]) else (mkQueue [] (waiters q ++ [w]) false, [])
  end.

Definition close (q : Queue) : Queue * list Resolution :=
  (mkQueue (items q) [] true, map (fun w => (w, None)) (waiters q)).

(** Calls in the order they are made, with the waiters numbered by their [take]. *)
Inductive Call := CPush (item : T) | CTake | CClose.

(** The queue, the promises resolved so far, the number of [take] calls and the items accepted. *)
Record Run := mkRun { queue : Queue; resolved : list Resolution; takes : nat; accepted : list T }.

Definition start : Run := mkRun empty [] 0 [].

Definition call (c : Call) (r : Run) : Run :=
  match c with
  | CPush x => let '(q, out) := push x (queue r) in
               mkRun q (resolved r ++ out) (takes r) (accepted r ++ (if closed (queue r) then [] else [x]))
  | CTake => let '(q, out) := take (takes r) (queue r) in
             mkRun q (resolved r ++ out) (S (takes r)) (accepted r)
  | CClose => let '(q, out) := close (queue r) in mkRun q (resolved r ++ out) (takes r) (accepted r)
  end.

Definition run (cs : list Call) : Run := fold_left (fun r c => call c r) cs start.

Definition given (rs : list Resolution) : list T := omap snd rs.

(** Promises resolved with an item come before those resolved with [undefined]. *)
Fixpoint items_first (rs : list Resolution) : bool :=
  match rs with
  | (_, Some _) :: rest => items_first rest
  | (_, None) :: rest => forallb (fun r => negb (isSome (snd r))) rest
  | [] => true
  end.

Record inv (r : Run) : Prop := {
  inv_one_side : items (queue r) = [] \/ waiters (queue r) = [];
  inv_closed : closed (queue r) = true -> waiters (queue r) = [];
  inv_takers : map fst (resolved r) ++ waiters (queue r) = seq 0 (takes r);
  inv_items : given (resolved r) ++ items (queue r) = accepted r;
  inv_undefined : Exists (fun x => snd x = None) (resolved r) -> closed (queue r) = true /\ items (queue r) = [];
  inv_order : items_first (resolved r) = true }.

Lemma given_app a b : given (a ++ b) = given a ++ given b.
Proof. apply omap_app. Qed.

Lemma given_nones ws : given (map (fun w => (w, None)) ws) = [].
Proof. induction ws; simpl; auto. Qed.

Lemma items_first_snoc_item rs w x :
  ~ Exists (fun r => snd r = None) rs -> items_first rs = true -> items_first (rs ++ [(w, Some x)]) = true.
Proof.
  induction rs as [|[v [y|]] rs IH]; simpl; intros Hn Hf; [done| |].
  - apply IH; [|done]. intros He. apply Hn. by constructor.
  - exfalso. apply Hn. by constructor.
Qed.

Lemma items_first_app_nones rs ws :
  items_first rs = true -> items_first (rs ++ map (fun w => (w, None)) ws) = true.
Proof.
  assert (Hn : forall l, forallb (fun r : Resolution => negb (isSome (snd r))) (map (fun w => (w, None)) l) = true)
    by (induction l; simpl; auto).
  induction rs as [|[v [y|]] rs IH]; simpl; intros Hf.
  - destruct ws; simpl; auto.
  - by apply IH.
  - by rewrite forallb_app, Hf, Hn.
Qed.

Lemma inv_start : inv start.
Proof. split; simpl; auto; try done. intros H. inversion H. Qed.

Lemma inv_push x r : inv r -> inv (call (CPush x) r).
Proof.
  intros [H1 H2 H3 H4 H5 H6]. simpl. unfold push. destruct (closed (queue r)) eqn:Hc.
  { simpl. rewrite !app_nil_r. split; simpl; rewrite ?Hc; auto. }
  destruct (waiters (queue r)) as [|w rest] eqn:Hw; simpl; rewrite ?app_nil_r.
  - split; simpl; auto; try done.
    + by rewrite <- H4, app_assoc.
    + intros He. destruct (H5 He). congruence.
  - assert (Hi : items (queue r) = []) by (by destruct H1). rewrite Hi in *. rewrite app_nil_r in H4.
    split; simpl; auto; try done.
    + by rewrite map_app, <- app_assoc, <- H3.
    + by rewrite given_app, app_nil_r, <- H4.
    + rewrite Exists_app. intros [He|He]; [destruct (H5 He); congruence|].
      inversion He as [? ? Hs|? ? Hs]; [done | inversion Hs].
    + apply items_first_snoc_item; [|done]. intros He. destruct (H5 He). congruence.
Qed.

Lemma inv_take r : inv r -> inv (call CTake r).
Proof.
  intros [H1 H2 H3 H4 H5 H6]. simpl. unfold take. destruct (items (queue r)) as [|x rest] eqn:Hi.
  - rewrite app_nil_r in H4. destruct (closed (queue r)) eqn:Hc; simpl.
    + split; simpl; rewrite ?Hi; auto.
      * rewrite seq_S, map_app, <- H3, (H2 eq_refl), !app_nil_r. done.
      * by rewrite given_app, !app_nil_r.
      * by apply (items_first_app_nones _ [takes r]).
    + rewrite app_nil_r. split; simpl; auto; try done.
      * by rewrite seq_S, <- H3, app_assoc.
      * by rewrite app_nil_r.
  - assert (Hw : waiters (queue r) = []) by (by destruct H1). rewrite Hw in *. rewrite app_nil_r in H3.
    assert (Hn : ~ Exists (fun x => snd x = None) (resolved r)) by (intros He; by destruct (H5 He)).
    split; simpl; auto.
    + by rewrite map_app, app_nil_r, seq_S, <- H3.
    + by rewrite given_app, <- app_assoc, <- H4.
    + rewrite Exists_app. intros [He|He]; [done|]. inversion He as [? ? Hs|? ? Hs]; [done | inversion Hs].
    + by apply items_first_snoc_item.
Qed.

Lemma inv_close r : inv r -> inv (call CClose r).
Proof.
  intros [H1 H2 H3 H4 H5 H6]. simpl. split; simpl; auto.
  - rewrite map_app, map_map, app_nil_r. simpl. by rewrite map_id.
  - by rewrite given_app, given_nones, app_nil_r.
  - rewrite Exists_app. intros [He|He]; [by destruct (H5 He)|]. split; [done|].
    destruct (waiters (queue r)); [inversion He | by destruct H1].
  - by apply items_first_app_nones.
Qed.

Lemma inv_run cs : inv (run cs).
Proof.
  unfold run. generalize inv_start. generalize start. induction cs as [|c cs IH]; simpl; intros r Hr; [done|].
  apply IH. destruct c; [by apply inv_push | by apply inv_take | by apply inv_close].
Qed.

(** The queue is a FIFO in both directions, whatever the order of [push],
    [take] and [close]: promises resolve in the order of the [take] calls, the items they carry
    are the accepted items in the order of the pushes with the rest still queued, items and
    waiters never coexist, and [undefined] is only handed out after [close] with nothing left. *)
Theorem async_queue_fifo cs :
  let r := run cs in
  map fst (resolved r) ++ waiters (queue r) = seq 0 (takes r)
  /\ given (resolved r) ++ items (queue r) = accepted r
  /\ (items (queue r) = [] \/ waiters (queue r) = [])
  /\ (Exists (fun x => snd x = None) (resolved r) -> closed (queue r) = true /\ items (queue r) = [])
  /\ items_first (resolved r) = true.
Proof. pose proof (inv_run cs) as [H1 H2 H3 H4 H5 H6]. auto. Qed.
End Queue.
End AsyncQueue.

(** ** Backoff *)

(** [Math.round]: the nearest integer, halves up. *)
Definition Math_round (x : Q) : Z := Qfloor (x + (1 # 2))%Q.

(** The capped exponential of [backoffDelay] and of the clients' retries. *)
Definition backoff_exp (attempt baseMs maxMs : Z) : Z :=
  Z.min maxMs (baseMs * 2 ^ Z.max 0 (Z.min attempt 30))%Z.

(** [random] is a value of [Math.random()]; the arithmetic is exact. *)
Definition backoffDelay (attempt baseMs maxMs : Z) (random : Q) : Z :=
  let exp := backoff_exp attempt baseMs maxMs in
  Math_round (inject_Z exp / 2 + random * (inject_Z exp / 2))%Q.

Lemma Math_round_le x n : (x < inject_Z n + (1 # 2))%Q -> (Math_round x <= n)%Z.
Proof.
  intros Hx. unfold Math_round. apply Z.lt_succ_r. unfold Z.succ. rewrite Zlt_Qlt, inject_Z_plus.
  eapply Qle_lt_trans; [apply Qfloor_le|]. change (inject_Z 1) with 1%Q. lra.
Qed.

Lemma Math_round_ge x n : (inject_Z n <= x + (1 # 2))%Q -> (n <= Math_round x)%Z.
Proof. intros Hx. unfold Math_round. rewrite <- (Qfloor_Z n). by apply Qfloor_resp_le. Qed.

(** A retry waits at least half of the capped exponential and at most
    the whole of it, in whole milliseconds; the exponential never exceeds [maxMs], doubles with
    each attempt until it meets the cap, and never shrinks as attempts go on. *)
Theorem backoff_delay_bounds attempt baseMs maxMs random :
  (0 <= baseMs)%Z -> (0 <= maxMs)%Z -> (0 <= random)%Q -> (random < 1)%Q ->
  let exp := backoff_exp attempt baseMs maxMs in
  (0 <= exp <= maxMs)%Z
  /\ (exp <= 2 * backoffDelay attempt baseMs maxMs random <= 2 * exp)%Z
  /\ (exp <= backoff_exp (attempt + 1) baseMs maxMs)%Z
  /\ ((0 <= attempt < 30)%Z -> backoff_exp (attempt + 1) baseMs maxMs = Z.min maxMs (2 * exp)).
Proof.
  intros Hb Hm Hr0 Hr1 exp.
  assert (Hexp : (0 <= exp <= maxMs)%Z).
  { unfold exp, backoff_exp. pose proof (Z.pow_nonneg 2 (Z.max 0 (Z.min attempt 30)) ltac:(lia)). nia. }
  split; [done|]. split; [|split].
  - unfold backoffDelay. fold exp. assert (He : (0 <= inject_Z exp)%Q) by (change 0%Q with (inject_Z 0); rewrite <- Zle_Qle; lia).
    assert (Hh2 : (inject_Z exp / 2 + inject_Z exp / 2 == inject_Z exp)%Q) by field.
    set (h := (inject_Z exp / 2)%Q) in *. set (x := (h + random * h)%Q).
    assert (Hx1 : (h <= x)%Q) by (unfold x; assert (0 <= random * h)%Q by (apply Qmult_le_0_compat; lra); lra).
    assert (Hx2 : (x <= inject_Z exp)%Q) by (unfold x; nra).
    split.
    + assert (Hhalf : ((exp + 1) / 2 <= Math_round x)%Z).
      { apply Math_round_ge. assert (Hd : (2 * ((exp + 1) / 2) <= exp + 1)%Z) by (pose proof (Z.mul_div_le (exp + 1) 2); lia).
        rewrite Zle_Qle, inject_Z_mult, inject_Z_plus in Hd. change (inject_Z 2) with 2%Q in Hd.
        change (inject_Z 1) with 1%Q in Hd. lra. }
      pose proof (Z.div_mod (exp + 1) 2 ltac:(lia)). pose proof (Z.mod_pos_bound (exp + 1) 2 ltac:(lia)). lia.
    + assert (Math_round x <= exp)%Z by (apply Math_round_le; lra). lia.
  - unfold exp, backoff_exp.
    assert (2 ^ Z.max 0 (Z.min attempt 30) <= 2 ^ Z.max 0 (Z.min (attempt + 1) 30))%Z by (apply Z.pow_le_mono_r; lia). nia.
  - intros Ha. unfold exp, backoff_exp. 
    replace (Z.max 0 (Z.min (attempt + 1) 30)) with (attempt + 1)%Z by lia.
    replace (Z.max 0 (Z.min attempt 30)) with attempt by lia.
    rewrite Z.pow_add_r by lia. pose proof (Z.pow_nonneg 2 attempt ltac:(lia)). change (2 ^ 1)%Z with 2%Z. nia.
Qed.

Lemma backoff_delay_bounds_witness :
  backoffDelay 3 1000 30000 (1 # 2) = 6000%Z /\ (8000 <= 2 * backoffDelay 3 1000 30000 (1 # 2) <= 2 * 8000)%Z.
Proof.
  split; [vm_compute; reflexivity|].
  apply (backoff_delay_bounds 3 1000 30000 (1 # 2)); [lia | lia | lra | lra].
Defined.
