(* ===== verification/DiffComputer.v ===== *)
(** * The diff engine of the review pages (web/src/lib/diff-computer.ts)

    Parsing of unified patches, the line diff by longest common subsequence, the pairing of
    removed and added lines for the split view, the collapsing of unchanged lines, and the
    [DiffComputer] class with its bounded cache. *)

From Stdlib Require Import ZArith Lia Bool List Ascii DecimalString Sorting.Sorted.
From stdpp Require Import base list strings gmap sorting.
From S2P Require Import Prelude JsString JsMap.

(** ** Data *)

Inductive DiffLineKind := k_add | k_remove | k_context.

#[export] Instance DiffLineKind_eq_dec : EqDecision DiffLineKind.
Proof. solve_decision. Defined.

Record DiffLine := mkLine {
  kind : DiffLineKind; content : string; oldNumber : option Z; newNumber : option Z }.

Record DiffHunk := mkHunk {
  oldStart : Z; oldCount : Z; newStart : Z; newCount : Z; header : string; hunkLines : list DiffLine }.

Inductive DiffVariant := basic | structural.
Inductive DiffPriority := high | low.
Inductive DiffComputeState := pending | computing | ready | error.

#[export] Instance DiffVariant_eq_dec : EqDecision DiffVariant.
Proof. solve_decision. Defined.
#[export] Instance DiffPriority_eq_dec : EqDecision DiffPriority.
Proof. solve_decision. Defined.
#[export] Instance DiffComputeState_eq_dec : EqDecision DiffComputeState.
Proof. solve_decision. Defined.

Definition is_kind (k : DiffLineKind) (l : DiffLine) : bool := bool_decide (kind l = k).

Record DiffOptions := {
  collapseUnchangedAreas : bool; enableStructuralDiff : bool; enableMoveDetection : bool }.

(** [Partial<DiffOptions>]: the options a request may override. *)
Record PartialOptions := {
  p_collapse : option bool; p_structural : option bool; p_moves : option bool }.

Definition BASIC_DIFF_OPTIONS : DiffOptions :=
  {| collapseUnchangedAreas := true; enableStructuralDiff := false; enableMoveDetection := false |}.
Definition STRUCTURAL_DIFF_OPTIONS : DiffOptions :=
  {| collapseUnchangedAreas := true; enableStructuralDiff := true; enableMoveDetection := true |}.

Definition optionsForVariant (v : DiffVariant) : DiffOptions :=
  match v with structural => STRUCTURAL_DIFF_OPTIONS | basic => BASIC_DIFF_OPTIONS end.

(** [{ ...base, ...over }] *)
Definition override (base : DiffOptions) (over : option PartialOptions) : DiffOptions :=
  match over with
  | None => base
  | Some o => {| collapseUnchangedAreas := p_collapse o ?? collapseUnchangedAreas base;
                 enableStructuralDiff := p_structural o ?? enableStructuralDiff base;
                 enableMoveDetection := p_moves o ?? enableMoveDetection base |}
  end.

Record SplitRow := mkRow { left : option DiffLine; right : option DiffLine }.

Record ComputedFileDiff := {
  key : string;
  filename : string;
  variant : DiffVariant;
  state : DiffComputeState;
  language : string;
  hunks : list DiffHunk;
  lines : list DiffLine;
  splitRows : list SplitRow;
  commentableOriginal : list Z;
  commentableModified : list Z;
  additions : Z;
  deletions : Z;
  diffError : option string;
  computedAt : Z;
  fromCache : option bool }.

Record DiffComputeInput := {
  in_filename : string;
  in_patch : option string;
  in_original : option string;
  in_modified : option string;
  in_options : option PartialOptions;
  in_cacheKey : option string }.

(** ** Patches *)

Definition newline : string := String (ascii_of_nat 10) EmptyString.

Definition LANGUAGE_BY_EXT (ext : string) : option string :=
  match List.find (fun p => fst p =s ext)
    [("ts", "TypeScript"); ("tsx", "TypeScript"); ("js", "JavaScript"); ("jsx", "JavaScript");
     ("mjs", "JavaScript"); ("cjs", "JavaScript"); ("go", "Go"); ("rs", "Rust"); ("py", "Python");
     ("rb", "Ruby"); ("java", "Java"); ("kt", "Kotlin"); ("swift", "Swift"); ("css", "CSS");
     ("scss", "CSS"); ("html", "HTML"); ("md", "Markdown"); ("json", "JSON"); ("yml", "YAML");
     ("yaml", "YAML"); ("sh", "Shell"); ("bash", "Shell"); ("sql", "SQL")] with
  | Some (_, name) => Some name
  | None => None
  end.

Definition languageFromFilename (name : string) : string :=
  let base := last (split "/" name) ?? name in
  let ext := if includes "." base then toLowerCase (last (split "." base) ?? "") else "" in
  LANGUAGE_BY_EXT ext ?? "Text".

(** [\d+] at the head of a string: the number and the rest. *)
Definition match_number (s : string) : option (Z * string) :=
  let '(d, rest) := take_digits s in
  match digits_value d with Some n => Some (n, rest) | None => None end.

(** [(\d+)(?:,(\d+))?]; the second number defaults to 1. *)
Definition match_range (s : string) : option (Z * Z * string) :=
  match match_number s with
  | None => None
  | Some (n, String c rest) =>
      if Ascii.eqb c "," then
        match match_number rest with
        | Some (m, rest') => Some (n, m, rest')
        | None => Some (n, 1%Z, String c rest)
        end
      else Some (n, 1%Z, String c rest)
  | Some (n, EmptyString) => Some (n, 1%Z, EmptyString)
  end.

(** A literal at the head of a string. *)
Definition match_literal (p s : string) : option string :=
  if startsWith p s then Some (slice_from (String.length p) s) else None.

(** The hunk header pattern [@@ -(\d+)(?:,(\d+))? \+(\d+)(?:,(\d+))? @@] at the head of a string
    (what follows it is free). *)
Definition match_header_at (s : string) : option (Z * Z * Z * Z) :=
  match match_literal "@@ -" s with
  | None => None
  | Some s1 =>
      match match_range s1 with
      | None => None
      | Some (a, b, s2) =>
          match match_literal " +" s2 with
          | None => None
          | Some s3 =>
              match match_range s3 with
              | None => None
              | Some (c, d, s4) => if startsWith " @@" s4 then Some (a, b, c, d) else None
              end
          end
      end
  end.

(** The first position at which the pattern matches. *)
Fixpoint match_header (s : string) : option (Z * Z * Z * Z) :=
  match match_header_at s with
  | Some r => Some r
  | None => match s with String _ r => match_header r | EmptyString => None end
  end.

(** The loop of [parsePatchHunks]: the hunks before the current one, the current one, and the
    next line numbers. *)
Record ParseState := mkParse {
  ps_done : list DiffHunk; ps_current : option DiffHunk; ps_old : Z; ps_new : Z }.

Definition push_line (l : DiffLine) (h : DiffHunk) : DiffHunk :=
  mkHunk (oldStart h) (oldCount h) (newStart h) (newCount h) (header h) (hunkLines h ++ [l]).

Definition all_hunks (p : ParseState) : list DiffHunk :=
  ps_done p ++ match ps_current p with Some h => [h] | None => [] end.

Definition skipped_line (raw : string) : bool :=
  startsWith "diff " raw || startsWith "index " raw || startsWith "--- " raw || startsWith "+++ " raw
  || startsWith "\ No newline" raw.

Definition synthetic_hunk : DiffHunk := mkHunk 1 0 1 0 "@@ -1 +1 @@" [].

(** A body line appended to the hunk [h]. *)
Definition parse_body (raw : string) (h : DiffHunk) (o n : Z) : DiffHunk * Z * Z :=
  if startsWith "+" raw then (push_line (mkLine k_add (slice_from 1 raw) None (Some n)) h, o, n + 1)%Z
  else if startsWith "-" raw then (push_line (mkLine k_remove (slice_from 1 raw) (Some o) None) h, o + 1, n)%Z
  else let c := if startsWith " " raw then slice_from 1 raw else raw in
       (push_line (mkLine k_context c (Some o) (Some n)) h, o + 1, n + 1)%Z.

Definition parse_line (p : ParseState) (raw : string) : ParseState :=
  if raw =s "" then p
  else if startsWith "@@" raw then
    match match_header raw with
    | None => p
    | Some (a, b, c, d) => mkParse (all_hunks p) (Some (mkHunk a b c d raw [])) a c
    end
  else if skipped_line raw then p
  else
    let '(h, o, n) := match ps_current p with
                      | Some h => (h, ps_old p, ps_new p)
                      | None => (synthetic_hunk, 1, 1)%Z
                      end in
    let '(h', o', n') := parse_body raw h o n in
    mkParse (ps_done p) (Some h') o' n'.

Definition parsePatchHunks (patch : option string) : list DiffHunk :=
  match patch with
  | None | Some EmptyString => []
  | Some text => all_hunks (fold_left parse_line (split newline text) (mkParse [] None 0 0))
  end.

Definition parseDiff (patch : string) : list DiffLine := flat_map hunkLines (parsePatchHunks (Some patch)).

(** ** Views of a list of lines *)

(** [while (lines[index]?.kind === k) ...]: the longest prefix of one kind. *)
Fixpoint take_kind (k : DiffLineKind) (ls : list DiffLine) : list DiffLine * list DiffLine :=
  match ls with
  | l :: rest => if is_kind k l then let '(a, b) := take_kind k rest in (l :: a, b) else ([], ls)
  | [] => ([], [])
  end.

(** The rows of one block of removed and added lines, side by side. *)
Fixpoint pair_block (removed added : list DiffLine) : list SplitRow :=
  match removed, added with
  | [], [] => []
  | r :: rs, [] => mkRow (Some r) None :: pair_block rs []
  | [], a :: xs => mkRow None (Some a) :: map (fun x => mkRow None (Some x)) xs
  | r :: rs, a :: xs => mkRow (Some r) (Some a) :: pair_block rs xs
  end.

(** The loop consumes at least one line per round. *)
Fixpoint pair_loop (fuel : nat) (ls : list DiffLine) : list SplitRow :=
  match fuel with
  | O => []
  | S f =>
      match ls with
      | [] => []
      | l :: rest =>
          if is_kind k_context l then mkRow (Some l) (Some l) :: pair_loop f rest
          else let '(removed, rest1) := take_kind k_remove ls in
               let '(added, rest2) := take_kind k_add rest1 in
               pair_block removed added ++ pair_loop f rest2
      end
  end.

Definition pairDiffLines (ls : list DiffLine) : list SplitRow := pair_loop (length ls) ls.

Definition countChanges (ls : list DiffLine) : Z * Z :=
  (Z.of_nat (length (List.filter (is_kind k_add) ls)), Z.of_nat (length (List.filter (is_kind k_remove) ls))).

(** [[...set].sort((a, b) => a - b)] *)
Definition sorted_set (s : gset Z) : list Z := merge_sort Z.le (elements s).

Definition commentableFromLines (ls : list DiffLine) : list Z * list Z :=
  let add := fun (p : DiffLine -> bool) (f : DiffLine -> option Z) (s : gset Z) (l : DiffLine) =>
    if p l then match f l with Some n => {[n]} ∪ s | None => s end else s in
  let original := fold_left (add (fun l => is_kind k_remove l || is_kind k_context l) oldNumber) ls ∅ in
  let modified := fold_left (add (fun l => is_kind k_add l || is_kind k_context l) newNumber) ls ∅ in
  (sorted_set original, sorted_set modified).

(** The indices [collapseUnchanged] keeps: those within [keepContext] of a changed line. *)
Definition keep_around (n keepContext i : nat) : list nat :=
  let lo := (i - keepContext)%nat in let hi := Nat.min (n - 1) (i + keepContext) in seq lo (S hi - lo).

Definition keep_set (ls : list DiffLine) (keepContext : nat) : gset nat :=
  list_to_set (flat_map (fun i => match ls !! i with
                                  | Some l => if is_kind k_context l then [] else keep_around (length ls) keepContext i
                                  | None => []
                                  end) (seq 0 (length ls))).

Definition pick (keep : gset nat) (ls : list DiffLine) : list DiffLine :=
  omap (fun p => if bool_decide (fst p ∈ keep) then Some (snd p) else None) (zip (seq 0 (length ls)) ls).

Definition collapseUnchanged (ls : list DiffLine) (keepContext : nat) : list DiffLine :=
  match ls with
  | [] => ls
  | _ => let keep := keep_set ls keepContext in
         if (size keep =? length ls)%nat then ls else pick keep ls
  end.

(** ** The line diff *)

(** [text.replace(/\n$/, "")] *)
Definition drop_last_newline (s : string) : string :=
  if String.eqb (slice_from (String.length s - 1) s) newline then slice 0 (String.length s - 1) s else s.

Definition text_lines (s : string) : list string :=
  match s with EmptyString => [] | _ => split newline (drop_last_newline s) end.

(** One row of the table, from the row below it and from right to left. *)
Fixpoint dp_row (x : string) (b : list string) (next : list nat) : list nat :=
  match b, next with
  | y :: b', n0 :: next' =>
      let r := dp_row x b' next' in
      (if x =s y then (List.hd 0 next' + 1)%nat else Nat.max n0 (List.hd 0 r)) :: r
  | _, _ => [0]
  end.

(** The rows from index 0 down to the row of zeros. *)
Fixpoint dp_table (a b : list string) : list (list nat) :=
  match a with
  | [] => [repeat 0 (S (length b))]
  | x :: a' => let t := dp_table a' b in dp_row x b (List.hd [] t) :: t
  end.

Definition dp_at (t : list (list nat)) (i j : nat) : nat := List.nth j (List.nth i t []) 0.

(** The three loops that emit the lines, on the tails [a[i..]] and [b[j..]]. *)
Fixpoint emit_removes (a : list string) (o : Z) : list DiffLine :=
  match a with [] => [] | x :: a' => mkLine k_remove x (Some o) None :: emit_removes a' (o + 1) end.

Fixpoint emit_adds (b : list string) (n : Z) : list DiffLine :=
  match b with [] => [] | y :: b' => mkLine k_add y None (Some n) :: emit_adds b' (n + 1) end.

Fixpoint emit_lines (t : list (list nat)) (a : list string) : list string -> nat -> nat -> Z -> Z -> list DiffLine :=
  fix emit_b (b : list string) (i j : nat) (o n : Z) {struct b} : list DiffLine :=
    match a, b with
    | [], _ => emit_adds b n
    | _, [] => emit_removes a o
    | x :: a', y :: b' =>
        if x =s y then mkLine k_context x (Some o) (Some n) :: emit_lines t a' b' (S i) (S j) (o + 1)%Z (n + 1)%Z
        else if (dp_at t i (S j) <=? dp_at t (S i) j)%nat
             then mkLine k_remove x (Some o) None :: emit_lines t a' b (S i) j (o + 1)%Z n
             else mkLine k_add y None (Some n) :: emit_b b' i (S j) o (n + 1)%Z
    end.

Definition computeStructuralLines (original modified : string) : list DiffLine :=
  let a := text_lines original in
  let b := text_lines modified in
  emit_lines (dp_table a b) a b 0 0 1 1.

Definition detectMoves (ls : list DiffLine) : list DiffLine := ls.

Definition first_some (f : DiffLine -> option Z) (ls : list DiffLine) : option Z := head (omap f ls).

Definition linesToSingleHunk (ls : list DiffLine) : list DiffHunk :=
  match ls with
  | [] => []
  | _ =>
      let os := first_some oldNumber ls ?? 1%Z in
      let ns := first_some newNumber ls ?? 1%Z in
      let oc := Z.of_nat (length (List.filter (fun l => negb (is_kind k_add l)) ls)) in
      let nc := Z.of_nat (length (List.filter (fun l => negb (is_kind k_remove l)) ls)) in
      [mkHunk os oc ns nc
         ("@@ -" +:+ showZ os +:+ "," +:+ showZ oc +:+ " +" +:+ showZ ns +:+ "," +:+ showZ nc +:+ " @@") ls]
  end.

(** ** Building a file diff *)

(** [x | 0]: the signed 32-bit value. *)
Definition wrap32 (x : Z) : Z := ((x + 2 ^ 31) mod 2 ^ 32 - 2 ^ 31)%Z.

Definition base36_digit (d : Z) : ascii :=
  if (d <? 10)%Z then ascii_of_nat (48 + Z.to_nat d) else ascii_of_nat (87 + Z.to_nat d).

(** [n.toString(36)] for [0 <= n < 36 ^ fuel]. *)
Fixpoint show36_loop (fuel : nat) (n : Z) (acc : string) : string :=
  match fuel with
  | O => acc
  | S f => let acc' := String (base36_digit (n mod 36)) acc in
           if (n <? 36)%Z then acc' else show36_loop f (n / 36) acc'
  end.

Fixpoint hash_chars (s : string) (h : Z) : Z :=
  match s with
  | EmptyString => h
  | String c r => hash_chars r (wrap32 (wrap32 (31 * h) + Z.of_nat (nat_of_ascii c)))
  end.

Definition text_length (s : option string) : Z := Z.of_nat (String.length (s ?? "")).

(** The 32-bit hash is below [36 ^ 7], so seven digits are enough. *)
Definition hashFingerPrint (patch original modified : option string) : string :=
  let raw := showZ (text_length patch) +:+ ":" +:+ showZ (text_length original) +:+ ":"
             +:+ showZ (text_length modified) +:+ ":" +:+ slice 0 64 (patch ?? "") in
  show36_loop 7 (hash_chars raw 0 mod 2 ^ 32) "".

Definition show_variant (v : DiffVariant) : string :=
  match v with basic => "basic" | structural => "structural" end.

Definition cache_key (input : DiffComputeInput) (v : DiffVariant) : string :=
  in_cacheKey input ?? (in_filename input +:+ "::" +:+ show_variant v +:+ "::"
                        +:+ hashFingerPrint (in_patch input) (in_original input) (in_modified input)).

Definition buildComputedFileDiff (input : DiffComputeInput) (v : DiffVariant) (st : DiffComputeState) (now : Z)
  : ComputedFileDiff :=
  let options := override (optionsForVariant v) (in_options input) in
  let contents := match v, in_original input, in_modified input with
                  | structural, Some o, Some m => Some (o, m)
                  | _, _, _ => None
                  end in
  let '(hs, ls) := match contents with
                   | Some (o, m) =>
                       let ls := computeStructuralLines o m in
                       let ls := if enableMoveDetection options then detectMoves ls else ls in
                       (linesToSingleHunk ls, ls)
                   | None => let hs := parsePatchHunks (in_patch input) in (hs, flat_map hunkLines hs)
                   end in
  let '(hs, ls) := if collapseUnchangedAreas options then
                     let ls' := collapseUnchanged ls 3 in
                     (match contents with Some _ => linesToSingleHunk ls' | None => hs end, ls')
                   else (hs, ls) in
  let '(adds, dels) := countChanges ls in
  let '(orig, modi) := commentableFromLines ls in
  {| key := cache_key input v; filename := in_filename input; variant := v; state := st;
     language := languageFromFilename (in_filename input); hunks := hs; lines := ls;
     splitRows := pairDiffLines ls; commentableOriginal := orig; commentableModified := modi;
     additions := adds; deletions := dels; diffError := None; computedAt := now; fromCache := None |}.

(** ** The DiffComputer class *)

Record CacheEntry := mkCache { ce_diff : ComputedFileDiff; ce_startedAt : Z }.

Record DiffTaskDebug := mkTask {
  task_id : string; task_priority : DiffPriority; task_filename : string; task_state : DiffComputeState;
  task_startedAt : Z; task_updatedAt : Z; task_meta : option (list (string * string)) }.

(** [dc_timers] lists the tasks a pending [setTimeout] will delete. *)
Record DiffComputer := mkComputer {
  dc_cache : list (string * CacheEntry);
  dc_tasks : list (string * DiffTaskDebug);
  dc_taskSeq : Z;
  dc_debugEnabled : bool;
  dc_timers : list string }.

Definition new_computer : DiffComputer := mkComputer [] [] 0 false [].
Definition maxCacheEntries : nat := 256.

Definition setDebugEnabled (enabled : bool) (c : DiffComputer) : DiffComputer :=
  mkComputer (dc_cache c) (if enabled then dc_tasks c else []) (dc_taskSeq c) enabled (dc_timers c).

Definition with_state (d : ComputedFileDiff) (st : DiffComputeState) (err : option string) (now : Z) (cached : option bool) :=
  {| key := key d; filename := filename d; variant := variant d; state := st; language := language d;
     hunks := hunks d; lines := lines d; splitRows := splitRows d; commentableOriginal := commentableOriginal d;
     commentableModified := commentableModified d; additions := additions d; deletions := deletions d;
     diffError := err; computedAt := now; fromCache := cached |}.

Definition getCached (k : string) (c : DiffComputer) : option ComputedFileDiff :=
  match map_get k (dc_cache c) with
  | None => None
  | Some e => Some (with_state (ce_diff e) (state (ce_diff e)) (diffError (ce_diff e)) (computedAt (ce_diff e)) (Some true))
  end.

Definition set_cache (m : list (string * CacheEntry)) (c : DiffComputer) : DiffComputer :=
  mkComputer m (dc_tasks c) (dc_taskSeq c) (dc_debugEnabled c) (dc_timers c).

Definition invalidate (keyPrefix : option string) (c : DiffComputer) : DiffComputer :=
  match keyPrefix with
  | None | Some EmptyString => set_cache [] c
  | Some p => set_cache (List.filter (fun e => negb (startsWith p (fst e))) (dc_cache c)) c
  end.

(** [getDebugState]: the background tasks, the foreground tasks and the size of the cache. *)
Definition getDebugState (c : DiffComputer) : list DiffTaskDebug * list DiffTaskDebug * Z :=
  let tasks := map_values (dc_tasks c) in
  (List.filter (fun t => bool_decide (task_priority t = low)) tasks,
   List.filter (fun t => bool_decide (task_priority t = high)) tasks,
   Z.of_nat (length (dc_cache c))).

Definition putCache (k : string) (d : ComputedFileDiff) (now : Z) (c : DiffComputer) : DiffComputer :=
  let m := map_set k (mkCache d now) (dc_cache c) in
  if (maxCacheEntries <? length m)%nat then
    match map_keys m with
    | oldest :: _ => if truthy oldest then set_cache (map_delete oldest m) c else set_cache m c
    | [] => set_cache m c
    end
  else set_cache m c.

Definition with_key (input : DiffComputeInput) (k : string) (o : option PartialOptions) : DiffComputeInput :=
  {| in_filename := in_filename input; in_patch := in_patch input; in_original := in_original input;
     in_modified := in_modified input; in_options := o; in_cacheKey := Some k |}.

Definition computeSync (input : DiffComputeInput) (v : DiffVariant) (now : Z) (c : DiffComputer)
  : ComputedFileDiff * DiffComputer :=
  let k := cache_key input v in
  match getCached k c with
  | Some d => (d, c)
  | None => let d := buildComputedFileDiff (with_key input k (in_options input)) v ready now in (d, putCache k d now c)
  end.

Record DiffComputeRequestOptions := {
  req_priority : option DiffPriority; req_variant : option DiffVariant; req_meta : option (list (string * string)) }.

Definition show_priority (p : DiffPriority) : string := match p with high => "high" | low => "low" end.

(** [{ ...STRUCTURAL_DIFF_OPTIONS, ...input.options }] as an override. *)
Definition structural_override (o : option PartialOptions) : option PartialOptions :=
  let r := override STRUCTURAL_DIFF_OPTIONS o in
  Some {| p_collapse := Some (collapseUnchangedAreas r); p_structural := Some (enableStructuralDiff r);
          p_moves := Some (enableMoveDetection r) |}.

(** The async generator [computeFileDiff], run to its end by its consumer: the diffs it yields
    and the computer afterwards.  [aborted1] and [aborted2] are the states of the abort signal at
    the two points where it is read; [now] gives the results of the calls of [Date.now()]. *)
Definition computeFileDiff (input : DiffComputeInput) (request : DiffComputeRequestOptions)
    (aborted1 aborted2 : bool) (now : nat -> Z) (c : DiffComputer) : list ComputedFileDiff * DiffComputer :=
  let wants := match in_options input with Some o => p_structural o ?? false | None => false end in
  let v := req_variant request ?? (if wants then structural else basic) in
  let priority := req_priority request ?? high in
  let k := cache_key input v in
  let compute :=
    let taskId := show_priority priority +:+ "-" +:+ showZ (dc_taskSeq c) in
    let debug := dc_debugEnabled c in
    let task := fun st upd => mkTask taskId priority (in_filename input) st (now 0%nat) upd
                                (if debug then req_meta request else None) in
    let tasks st upd := if debug then map_set taskId (task st upd) (dc_tasks c) else dc_tasks c in
    let c1 := mkComputer (dc_cache c) (tasks pending (now 1%nat)) (dc_taskSeq c + 1)%Z debug (dc_timers c) in
    let pending_diff := buildComputedFileDiff (with_key input k (in_options input)) v pending (now 2%nat) in
    let finished cache st :=
      mkComputer cache (tasks st (now 7%nat)) (dc_taskSeq c + 1)%Z debug
        (if debug then dc_timers c ++ [taskId] else dc_timers c) in
    if aborted1 then
      ([pending_diff; with_state pending_diff error (Some "aborted") (now 3%nat) None],
       mkComputer (dc_cache c) (if debug then map_delete taskId (dc_tasks c1) else dc_tasks c1)
         (dc_taskSeq c + 1)%Z debug (dc_timers c))
    else
      let computing_diff := with_state pending_diff computing None (computedAt pending_diff) None in
      if aborted2 then
        ([pending_diff; computing_diff; with_state pending_diff error (Some "aborted") (now 4%nat) None],
         finished (dc_cache c) error)
      else
        let built := buildComputedFileDiff (with_key input k (in_options input)) v ready (now 4%nat) in
        let ready_diff :=
          if bool_decide (v = structural) && (negb (isSome (in_original input)) || negb (isSome (in_modified input)))
          then buildComputedFileDiff (with_key input k (structural_override (in_options input))) structural ready (now 5%nat)
          else built in
        ([pending_diff; computing_diff; ready_diff],
         finished (dc_cache (putCache k ready_diff (now 6%nat) c1)) ready) in
  match getCached k c with
  | Some d => if bool_decide (state d = ready) then ([d], c) else compute
  | None => compute
  end.

(** ** The line diff is a correct and shortest edit script *)

(** Lines with consecutive numbers from [n]. *)
Fixpoint numbered (n : Z) (ls : list string) : list (string * option Z) :=
  match ls with [] => [] | x :: r => (x, Some n) :: numbered (n + 1) r end.

(** The old side and the new side of a diff. *)
Definition old_side (ls : list DiffLine) : list (string * option Z) :=
  map (fun l => (content l, oldNumber l)) (List.filter (fun l => negb (is_kind k_add l)) ls).
Definition new_side (ls : list DiffLine) : list (string * option Z) :=
  map (fun l => (content l, newNumber l)) (List.filter (fun l => negb (is_kind k_remove l)) ls).

Lemma emit_adds_sides b n : old_side (emit_adds b n) = [] /\ new_side (emit_adds b n) = numbered n b.
Proof. revert n. induction b as [|y b IH]; intros n; [done|]. destruct (IH (n + 1)%Z) as [H1 H2].
  unfold old_side, new_side in *. simpl. by rewrite H1, H2. Qed.

Lemma emit_removes_sides a o : old_side (emit_removes a o) = numbered o a /\ new_side (emit_removes a o) = [].
Proof. revert o. induction a as [|x a IH]; intros o; [done|]. destruct (IH (o + 1)%Z) as [H1 H2].
  unfold old_side, new_side in *. simpl. by rewrite H1, H2. Qed.

Lemma emit_lines_nil t b i j o n : emit_lines t [] b i j o n = emit_adds b n.
Proof. by destruct b. Qed.

Lemma emit_lines_sides t a b i j o n :
  old_side (emit_lines t a b i j o n) = numbered o a /\ new_side (emit_lines t a b i j o n) = numbered n b.
Proof.
  revert b i j o n. induction a as [|x a IHa]; intros b.
  { intros. rewrite emit_lines_nil. apply emit_adds_sides. }
  induction b as [|y b IHb]; intros i j o n; [apply (emit_removes_sides (x :: a) o)|]. cbn [emit_lines].
  destruct (x =s y) eqn:Hxy; [|destruct (_ <=? _)%nat].
  - breflect. subst y. destruct (IHa b (S i) (S j) (o + 1)%Z (n + 1)%Z) as [H1 H2].
    unfold old_side, new_side in *. simpl. by rewrite H1, H2.
  - destruct (IHa (y :: b) (S i) j (o + 1)%Z n) as [H1 H2]. unfold old_side, new_side in *. simpl. by rewrite H1, H2.
  - destruct (IHb i (S j) o (n + 1)%Z) as [H1 H2]. unfold old_side, new_side in *. simpl in *. by rewrite H1, H2.
Qed.

(** C5 (structural_diff_correct). The line diff is a correct edit script: its removed and
    unchanged lines are the lines of the original text in order, numbered from 1, and its added
    and unchanged lines are the lines of the modified text in order, numbered from 1. *)
Theorem structural_diff_correct original modified :
  old_side (computeStructuralLines original modified) = numbered 1 (text_lines original)
  /\ new_side (computeStructuralLines original modified) = numbered 1 (text_lines modified).
Proof. apply emit_lines_sides. Qed.

(** *** The table holds the lengths of longest common subsequences *)

Fixpoint lcs (a : list string) : list string -> nat :=
  fix lcs_b (b : list string) : nat :=
    match a, b with
    | x :: a', y :: b' => if x =s y then S (lcs a' b') else Nat.max (lcs a' b) (lcs_b b')
    | _, _ => 0
    end.

Lemma lcs_nil_r a : lcs a [] = 0%nat.
Proof. by destruct a. Qed.

Lemma lcs_cons x a y b :
  lcs (x :: a) (y :: b) = if x =s y then S (lcs a b) else Nat.max (lcs a (y :: b)) (lcs (x :: a) b).
Proof. reflexivity. Qed.

(** The value at column [j] of a row is the length for the tail of [b] from [j]. *)
Fixpoint lcs_row (a : list string) (b : list string) : list nat :=
  lcs a b :: match b with [] => [] | _ :: b' => lcs_row a b' end.

Lemma lcs_row_hd a b : List.hd 0 (lcs_row a b) = lcs a b.
Proof. by destruct b. Qed.

Lemma dp_row_lcs x a b : dp_row x b (lcs_row a b) = lcs_row (x :: a) b.
Proof.
  induction b as [|y b IH]; [done|].
  change (lcs_row a (y :: b)) with (lcs a (y :: b) :: lcs_row a b).
  change (lcs_row (x :: a) (y :: b)) with (lcs (x :: a) (y :: b) :: lcs_row (x :: a) b).
  cbn [dp_row]. rewrite IH, !lcs_row_hd, lcs_cons. f_equal. destruct (x =s y); lia.
Qed.

Lemma dp_table_hd a b : List.hd [] (dp_table a b) = lcs_row a b.
Proof.
  induction a as [|x a IH]; simpl; [|by rewrite IH, dp_row_lcs].
  induction b as [|y b IHb]; simpl; [done | by f_equal].
Qed.

Lemma lcs_row_nth a b j : (j <= length b)%nat -> List.nth j (lcs_row a b) 0 = lcs a (drop j b).
Proof.
  revert j. induction b as [|y b IH]; intros [|j] Hj; simpl in *; try done; try lia.
  apply IH. lia.
Qed.

Lemma dp_at_lcs a b i j : (i <= length a)%nat -> (j <= length b)%nat -> dp_at (dp_table a b) i j = lcs (drop i a) (drop j b).
Proof.
  unfold dp_at. intros Hi Hj.
  assert (H0 : forall c, List.nth 0 (dp_table c b) [] = lcs_row c b) by (intros c; rewrite <- dp_table_hd; by destruct (dp_table c b)).
  revert i Hi. induction a as [|x a IH]; intros [|i] Hi; try (rewrite H0; by apply lcs_row_nth); simpl in Hi; [lia|].
  apply IH. lia.
Qed.

Definition unchanged (ls : list DiffLine) : list string := map content (List.filter (is_kind k_context) ls).

Lemma emit_adds_unchanged b n : unchanged (emit_adds b n) = [].
Proof. revert n. induction b as [|y b IH]; intros n; [done|]. apply IH. Qed.

Lemma emit_removes_unchanged a o : unchanged (emit_removes a o) = [].
Proof. revert o. induction a as [|x a IH]; intros o; [done|]. apply IH. Qed.

Lemma emit_lines_lcs a0 b0 a b i j o n :
  a = drop i a0 -> b = drop j b0 -> (i <= length a0)%nat -> (j <= length b0)%nat ->
  length (unchanged (emit_lines (dp_table a0 b0) a b i j o n)) = lcs a b.
Proof.
  revert b i j o n. induction a as [|x a IHa]; intros b.
  { intros. rewrite emit_lines_nil, emit_adds_unchanged. by destruct b. }
  induction b as [|y b IHb]; intros i j o n Ha Hb Hi Hj.
  { rewrite lcs_nil_r. change (length (unchanged (emit_removes (x :: a) o)) = 0%nat). by rewrite emit_removes_unchanged. }
  assert (Ha' : a = drop (S i) a0) by (rewrite <- Nat.add_1_r, <- drop_drop, <- Ha; done).
  assert (Hb' : b = drop (S j) b0) by (rewrite <- Nat.add_1_r, <- drop_drop, <- Hb; done).
  assert (Hi' : (S i <= length a0)%nat) by (apply (f_equal length) in Ha; rewrite length_drop in Ha; simpl in Ha; lia).
  assert (Hj' : (S j <= length b0)%nat) by (apply (f_equal length) in Hb; rewrite length_drop in Hb; simpl in Hb; lia).
  cbn [emit_lines]. rewrite lcs_cons. destruct (x =s y) eqn:Hxy.
  - unfold unchanged in *. simpl. f_equal. by apply IHa.
  - rewrite !dp_at_lcs by lia. rewrite <- Ha, <- Hb, <- Ha', <- Hb'.
    destruct (_ <=? _)%nat eqn:Hle; breflect.
    + rewrite Nat.max_l by lia. exact (IHa (y :: b) (S i) j (o + 1)%Z n Ha' Hb Hi' Hj).
    + rewrite Nat.max_r by lia. exact (IHb i (S j) o (n + 1)%Z Ha Hb' Hi Hj').
Qed.

Lemma sublist_tail (z x : string) s a : sublist (z :: s) (x :: a) -> sublist s a.
Proof.
  rewrite sublist_cons_r. intros [Hs|(s' & [= -> ->] & Hs)]; [|done].
  etransitivity; [by apply sublist_cons | exact Hs].
Qed.

Lemma lcs_longest s a b : sublist s a -> sublist s b -> (length s <= lcs a b)%nat.
Proof.
  revert s b. induction a as [|x a IHa]; intros s b Ha Hb; [apply sublist_nil_r in Ha as ->; simpl; lia|].
  revert s Ha Hb. induction b as [|y b IHb]; intros s Ha Hb; [apply sublist_nil_r in Hb as ->; simpl; lia|].
  rewrite lcs_cons. destruct (x =s y) eqn:Hxy; breflect.
  - subst y. destruct s as [|z s]; simpl; [lia|]. apply le_n_S.
    apply IHa; eauto using sublist_tail.
  - apply sublist_cons_r in Ha as [Ha|(s' & -> & Ha)].
    + pose proof (IHa _ _ Ha Hb). lia.
    + apply sublist_cons_r in Hb as [Hb|(s'' & Heq & Hb)]; [|congruence].
      pose proof (IHb (x :: s') ltac:(by apply sublist_skip) Hb). lia.
Qed.

Lemma numbered_fst n ls : map fst (numbered n ls) = ls.
Proof. revert n. induction ls as [|x ls IH]; intros n; simpl; [done|]. by rewrite IH. Qed.

Lemma unchanged_sublist p ls :
  (forall l, is_kind k_context l = true -> p l = true) ->
  sublist (unchanged ls) (map content (List.filter p ls)).
Proof.
  intros Hp. unfold unchanged. induction ls as [|l ls IH]; simpl; [done|].
  destruct (is_kind k_context l) eqn:Hl.
  - rewrite (Hp l Hl). simpl. by apply sublist_skip.
  - destruct (p l); simpl; [by apply sublist_cons | done].
Qed.

Lemma context_not_changed l : is_kind k_context l = true -> is_kind k_add l = false /\ is_kind k_remove l = false.
Proof. unfold is_kind. by destruct (kind l). Qed.

Lemma side_contents ls a n : old_side ls = numbered n a -> map content (List.filter (fun l => negb (is_kind k_add l)) ls) = a.
Proof. intros H. apply (f_equal (map fst)) in H. unfold old_side in H. by rewrite map_map, numbered_fst in H. Qed.

Lemma side_contents_new ls b n : new_side ls = numbered n b -> map content (List.filter (fun l => negb (is_kind k_remove l)) ls) = b.
Proof. intros H. apply (f_equal (map fst)) in H. unfold new_side in H. by rewrite map_map, numbered_fst in H. Qed.

(** C8 (structural_diff_shortest). The line diff keeps as many lines as possible: its unchanged
    lines are a common subsequence of the two texts, and no common subsequence is longer. *)
Theorem structural_diff_shortest original modified :
  let kept := unchanged (computeStructuralLines original modified) in
  sublist kept (text_lines original) /\ sublist kept (text_lines modified)
  /\ forall s, sublist s (text_lines original) -> sublist s (text_lines modified) -> (length s <= length kept)%nat.
Proof.
  intros kept. unfold computeStructuralLines in kept.
  destruct (emit_lines_sides (dp_table (text_lines original) (text_lines modified)) (text_lines original) (text_lines modified) 0 0 1 1) as [H1 H2].
  split; [|split].
  - rewrite <- (side_contents _ _ _ H1). apply unchanged_sublist. intros l Hl.
    by destruct (context_not_changed l Hl) as [-> _].
  - rewrite <- (side_contents_new _ _ _ H2). apply unchanged_sublist. intros l Hl.
    by destruct (context_not_changed l Hl) as [_ ->].
  - intros s Ha Hb. unfold kept. rewrite (emit_lines_lcs _ _ _ _ 0 0 1 1); [by apply lcs_longest | done | done | lia | lia].
Qed.

(** ** The split view *)

Lemma take_kind_spec k ls a b : take_kind k ls = (a, b) ->
  ls = a ++ b /\ Forall (fun l => is_kind k l = true) a.
Proof.
  revert a b. induction ls as [|l ls IH]; simpl; intros a b; [intros [= <- <-]; by split|].
  destruct (is_kind k l) eqn:Hl; [|intros [= <- <-]; by split].
  destruct (take_kind k ls) as [a' b'] eqn:Ht. intros [= <- <-].
  destruct (IH _ _ eq_refl) as [-> Hf]. split; [done | by constructor].
Qed.

Lemma pair_block_sides removed added :
  omap left (pair_block removed added) = removed /\ omap right (pair_block removed added) = added.
Proof.
  revert added. induction removed as [|r rs IH]; intros added; cbn [pair_block].
  - destruct added as [|a xs]; [done|]. rewrite !omap_cons. cbn [left right]. split.
    + induction xs as [|x xs IHx]; [done|]. exact IHx.
    + f_equal. induction xs as [|x xs IHx]; [done|]. cbn [map]. rewrite omap_cons. cbn [right]. by f_equal.
  - destruct added as [|a xs]; rewrite !omap_cons; cbn [left right].
    + destruct (IH []) as [H1 H2]. split; [by f_equal | done].
    + destruct (IH xs) as [H1 H2]. split; by f_equal.
Qed.

Lemma filter_kind_all k p ls : Forall (fun l => is_kind k l = true) ls ->
  (forall l, is_kind k l = true -> p l = true) -> List.filter p ls = ls.
Proof. intros Hf Hp. apply filter_all. eapply Forall_impl; [exact Hf | exact Hp]. Qed.

Lemma filter_kind_none k p ls : Forall (fun l => is_kind k l = true) ls ->
  (forall l, is_kind k l = true -> p l = false) -> List.filter p ls = [].
Proof. intros Hf Hp. apply filter_none. eapply Forall_impl; [exact Hf | exact Hp]. Qed.

Ltac solve_kind := let l := fresh in intros l; unfold is_kind; destruct (kind l); by try done.

Lemma take_kind_progress l ls removed rest1 added rest2 :
  is_kind k_context l = false -> take_kind k_remove (l :: ls) = (removed, rest1) ->
  take_kind k_add rest1 = (added, rest2) -> (length rest2 <= length ls)%nat.
Proof.
  intros Hc H1 H2. destruct (take_kind_spec _ _ _ _ H1) as [Hs1 _]. destruct (take_kind_spec _ _ _ _ H2) as [Hs2 _].
  assert (Hlen : length (l :: ls) = (length removed + length added + length rest2)%nat)
    by (rewrite Hs1, Hs2, !length_app; lia).
  assert (length removed <> 0 \/ length added <> 0)%nat; [|simpl in Hlen; lia].
  simpl in H1. unfold is_kind in *. destruct (kind l) eqn:Hk; simpl in *; [|left|done].
  - right. injection H1 as <- <-. simpl in H2. unfold is_kind in H2. rewrite Hk in H2. simpl in H2.
    destruct (take_kind k_add ls). injection H2 as <- <-. done.
  - destruct (take_kind k_remove ls). injection H1 as <- <-. done.
Qed.

Lemma pair_loop_sides fuel ls : (length ls <= fuel)%nat ->
  omap left (pair_loop fuel ls) = List.filter (fun l => negb (is_kind k_add l)) ls
  /\ omap right (pair_loop fuel ls) = List.filter (fun l => negb (is_kind k_remove l)) ls.
Proof.
  revert ls. induction fuel as [|fuel IH]; intros [|l ls] Hlen; simpl in Hlen; try done; [lia|]. cbn [pair_loop].
  destruct (is_kind k_context l) eqn:Hc.
  - destruct (context_not_changed l Hc) as [Ha Hr]. destruct (IH ls ltac:(lia)) as [H1 H2].
    rewrite !omap_cons. cbn [left right List.filter]. by rewrite H1, H2, Ha, Hr.
  - destruct (take_kind k_remove (l :: ls)) as [removed rest1] eqn:H1.
    destruct (take_kind k_add rest1) as [added rest2] eqn:H2.
    pose proof (take_kind_progress _ _ _ _ _ _ Hc H1 H2) as Hprog.
    destruct (take_kind_spec _ _ _ _ H1) as [-> Hf1]. destruct (take_kind_spec _ _ _ _ H2) as [-> Hf2].
    destruct (IH rest2 ltac:(lia)) as [IH1 IH2]. destruct (pair_block_sides removed added) as [P1 P2].
    rewrite !omap_app, P1, P2, IH1, IH2, !List.filter_app. split.
    + rewrite (filter_kind_all k_remove _ removed Hf1), (filter_kind_none k_add _ added Hf2); [done|solve_kind|solve_kind].
    + rewrite (filter_kind_none k_remove _ removed Hf1), (filter_kind_all k_add _ added Hf2); [done|solve_kind|solve_kind].
Qed.

(** The split view shows every line once and in order: the left cells
    of the rows are the removed and unchanged lines of the diff, the right cells the added and
    unchanged lines, for any list of lines (the row loop always comes to its end). *)
Theorem split_view_faithful ls :
  omap left (pairDiffLines ls) = List.filter (fun l => negb (is_kind k_add l)) ls
  /\ omap right (pairDiffLines ls) = List.filter (fun l => negb (is_kind k_remove l)) ls.
Proof. apply pair_loop_sides. lia. Qed.

(** ** Collapsing unchanged lines *)

Lemma keep_around_spec n k i x : (i < n)%nat -> x ∈ keep_around n k i <-> (i - k <= x <= i + k /\ x < n)%nat.
Proof. intros Hi. unfold keep_around. rewrite list_elem_of_In, in_seq. lia. Qed.

Lemma keep_set_spec ls k x :
  x ∈ keep_set ls k <->
  (x < length ls)%nat /\ exists j l, ls !! j = Some l /\ is_kind k_context l = false /\ (j - k <= x <= j + k)%nat.
Proof.
  unfold keep_set. rewrite elem_of_list_to_set, list_elem_of_In, in_flat_map. split.
  - intros (j & Hj & Hx). destruct (ls !! j) as [l|] eqn:Hl; [|done].
    destruct (is_kind k_context l) eqn:Hc; [done|]. pose proof (lookup_lt_Some _ _ _ Hl) as Hlt.
    apply list_elem_of_In, keep_around_spec in Hx; [|done]. split; [lia|]. exists j, l. repeat split; auto; lia.
  - intros (Hx & j & l & Hl & Hc & Hr). pose proof (lookup_lt_Some _ _ _ Hl) as Hlt.
    exists j. split; [apply in_seq; lia|]. rewrite Hl, Hc. apply list_elem_of_In, keep_around_spec; [done | lia].
Qed.

Definition pick_from (off : nat) (keep : gset nat) (ls : list DiffLine) : list DiffLine :=
  omap (fun p => if bool_decide (fst p ∈ keep) then Some (snd p) else None) (zip (seq off (length ls)) ls).

Lemma pick_from_cons off keep l ls :
  pick_from off keep (l :: ls) = (if bool_decide (off ∈ keep) then [l] else []) ++ pick_from (S off) keep ls.
Proof. unfold pick_from. simpl. by case_bool_decide. Qed.

Lemma pick_from_all off keep ls : (forall j, (j < length ls)%nat -> (off + j)%nat ∈ keep) -> pick_from off keep ls = ls.
Proof.
  revert off. induction ls as [|l ls IH]; intros off Hk; [done|]. rewrite pick_from_cons.
  rewrite bool_decide_true by (rewrite <- (Nat.add_0_r off); apply Hk; simpl; lia). simpl. f_equal. apply IH.
  intros j Hj. replace (S off + j)%nat with (off + S j)%nat by lia. apply Hk. simpl. lia.
Qed.

Lemma pick_from_changed off keep ls p :
  (forall j l, ls !! j = Some l -> p l = true -> (off + j)%nat ∈ keep) -> List.filter p (pick_from off keep ls) = List.filter p ls.
Proof.
  revert off. induction ls as [|l ls IH]; intros off Hk; [done|]. rewrite pick_from_cons, List.filter_app, IH.
  - simpl. destruct (p l) eqn:Hp.
    + rewrite bool_decide_true by (rewrite <- (Nat.add_0_r off); by apply (Hk 0%nat l)). simpl. by rewrite Hp.
    + case_bool_decide; simpl; by rewrite ?Hp.
  - intros j l' Hl Hp. replace (S off + j)%nat with (off + S j)%nat by lia. by apply (Hk (S j) l').
Qed.

Lemma keep_set_full ls k : size (keep_set ls k) = length ls -> forall j, (j < length ls)%nat -> j ∈ keep_set ls k.
Proof.
  intros Hs j Hj.
  assert (Hsub : keep_set ls k ⊆ set_seq 0 (length ls)).
  { intros x Hx. apply keep_set_spec in Hx as [Hx _]. apply elem_of_set_seq. lia. }
  destruct (decide (j ∈ keep_set ls k)) as [|Hn]; [done|]. exfalso.
  assert (Hlt : (size (keep_set ls k) < size (set_seq 0 (length ls) : gset nat))%nat).
  { apply subset_size. split; [done|]. intros Hc. apply Hn, Hc, elem_of_set_seq. lia. }
  rewrite size_set_seq in Hlt. lia.
Qed.

(** Collapsing keeps exactly the lines within [keepContext] of a
    changed line, in order; in particular no added or removed line disappears, so the counts of
    additions and deletions do not depend on collapsing. *)
Theorem collapse_keeps_changes ls k :
  collapseUnchanged ls k = pick (keep_set ls k) ls
  /\ (forall i, i ∈ keep_set ls k <->
        (i < length ls)%nat /\ exists j l, ls !! j = Some l /\ is_kind k_context l = false /\ (j - k <= i <= j + k)%nat)
  /\ List.filter (fun l => negb (is_kind k_context l)) (collapseUnchanged ls k)
     = List.filter (fun l => negb (is_kind k_context l)) ls
  /\ countChanges (collapseUnchanged ls k) = countChanges ls.
Proof.
  assert (Hpick : collapseUnchanged ls k = pick (keep_set ls k) ls).
  { unfold collapseUnchanged. destruct ls as [|l ls']; [done|]. set (ls := l :: ls').
    destruct (_ =? _)%nat eqn:Hs; [|done]. breflect. symmetry.
    apply (pick_from_all 0). intros j Hj. by apply keep_set_full. }
  assert (Hch : forall p, (forall l, p l = true -> is_kind k_context l = false) ->
                List.filter p (collapseUnchanged ls k) = List.filter p ls).
  { intros p Hp. rewrite Hpick. apply (pick_from_changed 0). intros j l Hl Hpl. apply keep_set_spec.
    split; [by eapply lookup_lt_Some|]. exists j, l. repeat split; auto; lia. }
  split; [done|]. split; [apply keep_set_spec|]. split; [apply Hch; intros l Hl; by breflect|].
  unfold countChanges. rewrite !Hch; [done| |]; solve_kind.
Qed.

(** ** Parsing a patch gives back the hunk it was printed from *)

Definition render_line (l : DiffLine) : string :=
  match kind l with k_add => "+" | k_remove => "-" | k_context => " " end +:+ content l.

Definition render_hunk (h : DiffHunk) : string := join newline (header h :: map render_line (hunkLines h)).

Definition hunk_header (os oc ns nc : Z) : string :=
  "@@ -" +:+ showZ os +:+ "," +:+ showZ oc +:+ " +" +:+ showZ ns +:+ "," +:+ showZ nc +:+ " @@".

(** The numbers of the lines run on from [o] and [n]. *)
Fixpoint well_numbered (o n : Z) (ls : list DiffLine) : bool :=
  match ls with
  | [] => true
  | l :: rest =>
      match kind l, oldNumber l, newNumber l with
      | k_add, None, Some n' => (n' =? n)%Z && well_numbered o (n + 1) rest
      | k_remove, Some o', None => (o' =? o)%Z && well_numbered (o + 1) n rest
      | k_context, Some o', Some n' => (o' =? o)%Z && (n' =? n)%Z && well_numbered (o + 1) (n + 1) rest
      | _, _, _ => false
      end
  end.

(** A line whose text has no line break, and does not look like a file header once it is marked
    as added or removed ([+++ ] and [--- ]). *)
Definition printable (l : DiffLine) : bool :=
  lacks (ascii_of_nat 10) (content l)
  && match kind l with
     | k_add => negb (startsWith "++ " (content l))
     | k_remove => negb (startsWith "-- " (content l))
     | k_context => true
     end.

Lemma match_literal_app p s : match_literal p (p +:+ s) = Some s.
Proof.
  unfold match_literal, startsWith. replace (String.prefix p (p +:+ s)) with true.
  - f_equal. induction p; simpl; auto.
  - symmetry. apply prefix_spec. by eexists.
Qed.

Lemma match_number_show n r :
  (0 <= n)%Z -> match r with String c _ => is_digit c = false | EmptyString => True end ->
  match_number (showZ n +:+ r) = Some (n, r).
Proof. intros Hn Hr. unfold match_number. by rewrite take_digits_show, digits_value_show. Qed.

Lemma match_range_show n m r :
  (0 <= n)%Z -> (0 <= m)%Z -> match r with String c _ => is_digit c = false | EmptyString => True end ->
  match_range (showZ n +:+ String "," (showZ m +:+ r)) = Some (n, m, r).
Proof. intros Hn Hm Hr. unfold match_range. rewrite match_number_show by done. simpl. by rewrite match_number_show. Qed.

Lemma match_header_print os oc ns nc :
  (0 <= os)%Z -> (0 <= oc)%Z -> (0 <= ns)%Z -> (0 <= nc)%Z ->
  match_header (hunk_header os oc ns nc) = Some (os, oc, ns, nc).
Proof.
  intros H1 H2 H3 H4.
  assert (Hat : match_header_at (hunk_header os oc ns nc) = Some (os, oc, ns, nc)).
  { unfold match_header_at, hunk_header. rewrite match_literal_app.
    change ("," +:+ showZ oc +:+ " +" +:+ showZ ns +:+ "," +:+ showZ nc +:+ " @@")
      with (String "," (showZ oc +:+ " +" +:+ showZ ns +:+ "," +:+ showZ nc +:+ " @@")).
    rewrite match_range_show by done. rewrite match_literal_app.
    change ("," +:+ showZ nc +:+ " @@") with (String "," (showZ nc +:+ " @@")).
    by rewrite match_range_show. }
  unfold hunk_header in *. simpl in *. by rewrite Hat.
Qed.

Lemma lacks_show n : (0 <= n)%Z -> lacks (ascii_of_nat 10) (showZ n) = true.
Proof. intros Hn. rewrite showZ_nonneg by done. apply lacks_digits. Qed.

Definition next_old (l : DiffLine) (o : Z) : Z := match kind l with k_add => o | _ => (o + 1)%Z end.
Definition next_new (l : DiffLine) (n : Z) : Z := match kind l with k_remove => n | _ => (n + 1)%Z end.

Lemma skipped_marker c s :
  (c = "+"%char /\ startsWith "++ " s = false) \/ (c = "-"%char /\ startsWith "-- " s = false) \/ c = " "%char ->
  skipped_line (String c s) = false.
Proof.
  unfold skipped_line, startsWith.
  intros [[-> H] | [[-> H] | ->]]; cbn -[String.prefix] in *; [| |by destruct s].
  - change (String.prefix "+++ " (String "+" s)) with (String.prefix "++ " s). by rewrite H.
  - change (String.prefix "--- " (String "-" s)) with (String.prefix "-- " s). by rewrite H.
Qed.

Lemma well_numbered_cons o n l ls : well_numbered o n (l :: ls) = true ->
  l = mkLine (kind l) (content l) (match kind l with k_add => None | _ => Some o end)
        (match kind l with k_remove => None | _ => Some n end)
  /\ well_numbered (next_old l o) (next_new l n) ls = true.
Proof.
  destruct l as [k c ol ne]. unfold next_old, next_new. simpl.
  destruct k, ol, ne; try done; intros Hw; breflect; subst; done.
Qed.

Lemma parse_line_rendered dn h o n l :
  well_numbered o n [l] = true -> printable l = true ->
  parse_line (mkParse dn (Some h) o n) (render_line l) = mkParse dn (Some (push_line l h)) (next_old l o) (next_new l n).
Proof.
  intros [Hl _]%well_numbered_cons Hp. unfold printable in Hp. apply andb_true_iff in Hp as [_ Hp].
  rewrite Hl in *. clear Hl. destruct l as [k c ol ne]. cbn [kind content] in *. unfold render_line, parse_line.
  destruct k; breflect; cbn -[skipped_line]; rewrite skipped_marker by tauto; by destruct c.
Qed.

Lemma parse_rendered dn h o n ls :
  well_numbered o n ls = true -> Forall (fun l => printable l = true) ls ->
  all_hunks (fold_left parse_line (map render_line ls) (mkParse dn (Some h) o n))
    = dn ++ [mkHunk (oldStart h) (oldCount h) (newStart h) (newCount h) (header h) (hunkLines h ++ ls)].
Proof.
  revert h o n. induction ls as [|l ls IH]; intros h o n Hw Hp.
  - unfold all_hunks. simpl. rewrite app_nil_r. by destruct h.
  - inversion Hp; subst. destruct (well_numbered_cons _ _ _ _ Hw) as [Hl Hw'].
    cbn [map fold_left]. rewrite parse_line_rendered; [|rewrite Hl; unfold well_numbered; simpl|done].
    + rewrite IH by done. simpl. by rewrite <- app_assoc.
    + destruct (kind l); by rewrite ?Z.eqb_refl.
Qed.

Lemma lacks_render l : printable l = true -> lacks (ascii_of_nat 10) (render_line l) = true.
Proof.
  unfold printable, render_line. intros Hp. apply andb_true_iff in Hp as [Hp _]. rewrite lacks_app, Hp.
  by destruct (kind l).
Qed.

(** C12 (patch_roundtrip). Parsing inverts printing: a hunk whose lines are numbered consecutively
    from its starts is read back unchanged from its unified-diff text, provided no line contains
    a line break and no changed line looks like a file header once marked ([+++ ], [--- ]). *)
Theorem patch_roundtrip os oc ns nc ls :
  (0 <= os)%Z -> (0 <= oc)%Z -> (0 <= ns)%Z -> (0 <= nc)%Z ->
  well_numbered os ns ls = true -> Forall (fun l => printable l = true) ls ->
  let h := mkHunk os oc ns nc (hunk_header os oc ns nc) ls in
  parsePatchHunks (Some (render_hunk h)) = [h].
Proof.
  intros H1 H2 H3 H4 Hw Hp h.
  assert (Hhd : lacks (ascii_of_nat 10) (hunk_header os oc ns nc) = true)
    by (unfold hunk_header; rewrite !lacks_app, !lacks_show by done; done).
  assert (Hsplit : split newline (render_hunk h) = hunk_header os oc ns nc :: map render_line ls).
  { apply split_join_char; [done|]. constructor; [exact Hhd|]. apply Forall_map.
    eapply Forall_impl; [exact Hp|]. intros l. apply lacks_render. }
  assert (Htext : exists c r, render_hunk h = String c r).
  { unfold render_hunk, hunk_header. simpl. destruct (map render_line ls); simpl; eauto. }
  destruct Htext as (c & r & Ht). unfold parsePatchHunks. rewrite Ht. rewrite <- Ht, Hsplit. cbn [fold_left].
  assert (Hstart : parse_line (mkParse [] None 0 0) (hunk_header os oc ns nc)
                   = mkParse [] (Some (mkHunk os oc ns nc (hunk_header os oc ns nc) [])) os ns).
  { unfold parse_line. rewrite match_header_print by done. unfold hunk_header. simpl. done. }
  rewrite Hstart, parse_rendered by done. done.
Qed.

Lemma patch_roundtrip_witness :
  let ls := [mkLine k_context "keep" (Some 7%Z) (Some 9%Z); mkLine k_remove "old" (Some 8%Z) None;
             mkLine k_add "new" None (Some 10%Z)] in
  let h := mkHunk 7 2 9 2 (hunk_header 7 2 9 2) ls in
  header h = "@@ -7,2 +9,2 @@" /\ parsePatchHunks (Some (render_hunk h)) = [h].
Proof.
  intros ls h. split; [vm_compute; reflexivity|].
  apply (patch_roundtrip 7 2 9 2 ls); try lia; [vm_compute; reflexivity | repeat constructor].
Defined.

(** Without the side condition the round trip fails: the
    removal of a line that starts with two dashes and a space (an SQL comment) is taken for a
    file header, is missing from the parsed hunk, and the old line numbers after it are too low. *)
Theorem patch_header_like_lines_lost :
  let ls := [mkLine k_remove "-- note" (Some 1%Z) None; mkLine k_context "select" (Some 2%Z) (Some 1%Z)] in
  let h := mkHunk 1 2 1 1 (hunk_header 1 2 1 1) ls in
  well_numbered 1 1 ls = true
  /\ parsePatchHunks (Some (render_hunk h))
     = [mkHunk 1 2 1 1 (hunk_header 1 2 1 1) [mkLine k_context "select" (Some 1%Z) (Some 1%Z)]].
Proof. split; vm_compute; reflexivity. Qed.

(** ** The cache *)

(** Distinct, non-empty keys and at most [maxCacheEntries] of them. *)
Record cache_ok (c : DiffComputer) : Prop := {
  ck_nodup : NoDup (map_keys (dc_cache c));
  ck_keys : "" ∉ map_keys (dc_cache c);
  ck_size : (length (dc_cache c) <= maxCacheEntries)%nat }.

Lemma map_set_keys_elem (k x : string) (v : CacheEntry) m : x ∈ map_keys (map_set k v m) -> x = k \/ x ∈ map_keys m.
Proof.
  destruct (decide (k ∈ map_keys m)) as [Hk|Hk]; [rewrite map_set_keys_known by done; tauto|].
  rewrite map_set_keys_new by done. rewrite elem_of_app, list_elem_of_singleton. tauto.
Qed.

Lemma putCache_ok k d now c : k <> "" -> cache_ok c -> cache_ok (putCache k d now c).
Proof.
  intros Hk [Hn He Hs]. unfold putCache. set (m := map_set k (mkCache d now) (dc_cache c)).
  assert (Hnm : NoDup (map_keys m)) by (by apply map_set_NoDup).
  assert (Hem : "" ∉ map_keys m) by (intros [?|?]%map_set_keys_elem; congruence).
  assert (Hlen : (length m <= S maxCacheEntries)%nat).
  { unfold m. destruct (decide (k ∈ map_keys (dc_cache c))).
    - rewrite map_set_length_known by done. lia.
    - rewrite map_set_length_new by done. lia. }
  destruct (maxCacheEntries <? length m)%nat eqn:Hlt; breflect; [|by split].
  destruct (map_keys m) as [|oldest rest] eqn:Hkeys.
  { apply (f_equal length) in Hkeys. unfold map_keys in Hkeys. rewrite length_map in Hkeys. simpl in Hkeys. lia. }
  assert (Hold : oldest <> "") by (intros ->; apply Hem; left).
  unfold truthy. rewrite (proj2 (String.eqb_neq _ _) Hold). simpl. rewrite <- Hkeys in *. split; simpl.
  - by apply map_delete_NoDup.
  - intros Hin. apply Hem. by eapply map_delete_keys.
  - rewrite (map_delete_length oldest m) in Hlen by (rewrite Hkeys; left). lia.
Qed.

Definition keyed (input : DiffComputeInput) : Prop := in_cacheKey input <> Some "".

Lemma cache_key_nonempty input v : keyed input -> cache_key input v <> "".
Proof.
  unfold keyed, cache_key. destruct (in_cacheKey input) as [k|]; simpl; [congruence|].
  intros _. by destruct (in_filename input).
Qed.

Lemma set_cache_ok m c : NoDup (map_keys m) -> "" ∉ map_keys m -> (length m <= maxCacheEntries)%nat -> cache_ok (set_cache m c).
Proof. by split. Qed.

Lemma cache_ok_ext c c' : dc_cache c' = dc_cache c -> cache_ok c -> cache_ok c'.
Proof. intros He [H1 H2 H3]. split; by rewrite He. Qed.

Lemma computeSync_ok input v now c : keyed input -> cache_ok c -> cache_ok (snd (computeSync input v now c)).
Proof.
  intros Hk Hc. unfold computeSync. destruct (getCached _ _); [done|]. apply putCache_ok; [|done].
  by apply cache_key_nonempty.
Qed.

Lemma computeFileDiff_ok input req a1 a2 now c :
  keyed input -> cache_ok c -> cache_ok (snd (computeFileDiff input req a1 a2 now c)).
Proof.
  intros Hk Hc. unfold computeFileDiff. set (v := req_variant req ?? _).
  pose proof (cache_key_nonempty input v Hk) as Hne.
  repeat case_match; simpl; try done; simplify_eq; try (eapply cache_ok_ext; [|exact Hc]; done).
  all: eapply cache_ok_ext; [|apply (putCache_ok (cache_key input v))]; [cbn [dc_cache]; reflexivity | done |].
  all: by eapply cache_ok_ext; [|exact Hc].
Qed.

Lemma filter_keys_ok (p : string * CacheEntry -> bool) m :
  NoDup (map_keys m) -> NoDup (map_keys (List.filter p m)) /\ (forall x, x ∈ map_keys (List.filter p m) -> x ∈ map_keys m)
  /\ (length (List.filter p m) <= length m)%nat.
Proof.
  induction m as [|[k v] m IH]; simpl; [done|]. rewrite NoDup_cons. intros [Hn Hd].
  destruct (IH Hd) as (H1 & H2 & H3). destruct (p (k, v)); simpl.
  - split; [|split; [|lia]].
    + apply NoDup_cons. split; [|done]. intros Hx. by apply Hn, H2.
    + intros x [->|Hx]%elem_of_cons; [left | right; auto].
  - split; [done|]. split; [|lia]. intros x Hx. right. auto.
Qed.

Lemma invalidate_ok p c : cache_ok c -> cache_ok (invalidate p c).
Proof.
  intros [H1 H2 H3]. unfold invalidate.
  assert (He : cache_ok (set_cache [] c)) by (split; simpl; [constructor | apply not_elem_of_nil | lia]).
  destruct p as [[|ch p]|]; try done.
  destruct (filter_keys_ok (fun e => negb (startsWith (String ch p) (fst e))) (dc_cache c) H1) as (F1 & F2 & F3).
  split; simpl; [done | intros Hx; by apply H2, F2 | lia].
Qed.

(** The public operations of a [DiffComputer]. *)
Inductive ComputerOp :=
  | OpSync (input : DiffComputeInput) (v : DiffVariant) (now : Z)
  | OpCompute (input : DiffComputeInput) (req : DiffComputeRequestOptions) (a1 a2 : bool) (now : nat -> Z)
  | OpInvalidate (prefix : option string)
  | OpDebug (enabled : bool).

Definition op_keyed (op : ComputerOp) : Prop :=
  match op with OpSync i _ _ | OpCompute i _ _ _ _ => keyed i | _ => True end.

Definition apply_op (c : DiffComputer) (op : ComputerOp) : DiffComputer :=
  match op with
  | OpSync i v now => snd (computeSync i v now c)
  | OpCompute i r a1 a2 now => snd (computeFileDiff i r a1 a2 now c)
  | OpInvalidate p => invalidate p c
  | OpDebug e => setDebugEnabled e c
  end.

Lemma apply_op_ok c op : op_keyed op -> cache_ok c -> cache_ok (apply_op c op).
Proof.
  destruct op; simpl; intros Hk Hc;
    [by apply computeSync_ok | by apply computeFileDiff_ok | by apply invalidate_ok | by eapply cache_ok_ext; [|exact Hc]].
Qed.

Lemma getCached_put k d now c : cache_ok c -> k ∉ map_keys (dc_cache c) ->
  map_get k (dc_cache (putCache k d now c)) = Some (mkCache d now).
Proof.
  intros [Hn He Hs] Hk. unfold putCache. set (m := map_set k (mkCache d now) (dc_cache c)).
  assert (Hget : map_get k m = Some (mkCache d now)) by apply map_get_set_eq.
  destruct (maxCacheEntries <? length m)%nat eqn:Hlt; [|done]. breflect.
  destruct (map_keys m) as [|oldest rest] eqn:Hkeys; [done|]. destruct (truthy oldest); [|done].
  simpl. rewrite map_get_delete_ne; [done|]. intros <-.
  unfold m in Hkeys, Hlt. rewrite map_set_keys_new in Hkeys by done.
  rewrite map_set_length_new in Hlt by done. destruct (dc_cache c) as [|[k0 v0] r]; [simpl in Hlt; unfold maxCacheEntries in *; lia|].
  simpl in Hkeys. injection Hkeys as -> _. apply Hk. left.
Qed.

(** Whatever the public operations called on a [DiffComputer], its cache
    holds distinct keys and at most 256 of them; and a diff that was computed is answered from
    the cache afterwards, unchanged but for its mark, without touching the computer.  (An empty
    [cacheKey] is excluded: such an entry is never evicted.) *)
Theorem diff_cache_sound ops input v now now' :
  Forall op_keyed ops -> keyed input ->
  let c := fold_left apply_op ops new_computer in
  NoDup (map_keys (dc_cache c)) /\ (length (dc_cache c) <= 256)%nat
  /\ let '(d, c') := computeSync input v now c in
     computeSync input v now' c' = (with_state d (state d) (diffError d) (computedAt d) (Some true), c').
Proof.
  intros Hops Hk c. assert (Hc : cache_ok c).
  { unfold c. assert (H0 : cache_ok new_computer) by (split; simpl; [constructor | apply not_elem_of_nil | lia]).
    revert H0. generalize new_computer. induction Hops as [|op ops Hop _ IH]; simpl; intros c0 H0; [done|].
    by apply IH, apply_op_ok. }
  split; [apply Hc|]. split; [apply Hc|]. unfold computeSync, getCached.
  set (k := cache_key input v). destruct (map_get k (dc_cache c)) as [e|] eqn:Hg; simpl; [by rewrite Hg|].
  rewrite getCached_put; [done | done|]. by apply map_get_None.
Qed.

Lemma diff_cache_sound_witness :
  let input := {| in_filename := "a.ts"; in_patch := Some "@@ -1 +1 @@"; in_original := None; in_modified := None;
                  in_options := None; in_cacheKey := None |} in
  let c := fold_left apply_op [OpSync input basic 5; OpInvalidate (Some "b")] new_computer in
  length (dc_cache c) = 1%nat /\ (length (dc_cache c) <= 256)%nat.
Proof.
  intros input c. split; [vm_compute; reflexivity|].
  assert (Hk : keyed input) by discriminate.
  assert (Hops : Forall op_keyed [OpSync input basic 5; OpInvalidate (Some "b")])
    by (repeat constructor; discriminate).
  exact (proj1 (proj2 (diff_cache_sound _ input basic 7 8 Hops Hk))).
Defined.

(** The default cache key only fingerprints the lengths of the texts and
    the first 64 characters of the patch.  Two patches of one file that differ later, at equal
    length, share their key: the second call answers the first patch's diff. *)
Theorem diff_cache_stale :
  let file (last : string) := {|
    in_filename := "a.ts";
    in_patch := Some (join newline ["@@ -1,2 +1,2 @@"; " const first = 'a line that is the same in both patches'"; last]);
    in_original := None; in_modified := None; in_options := None; in_cacheKey := None |} in
  let '(d1, c1) := computeSync (file "+const x = 1") basic 1 new_computer in
  let '(d2, c2) := computeSync (file "+const x = 2") basic 2 c1 in
  cache_key (file "+const x = 1") basic = cache_key (file "+const x = 2") basic
  /\ lines d2 = lines d1
  /\ lines d2 <> lines (fst (computeSync (file "+const x = 2") basic 2 new_computer)).
Proof. vm_compute. split; [reflexivity|]. split; [reflexivity|]. discriminate. Qed.
