(* ===== verification/WordDiff.v ===== *)
(** * Word highlighting of paired diff lines (web/src/lib/word-diff.ts)

    [matchedRuns] finds the common runs of two lines, [wordDiffRanges] turns them into the ranges
    to highlight, [pairedWordRanges] does so for the changed lines of a diff, and
    [markHighlightedRanges] inserts the marks into highlighted HTML.  The theorems: the text left
    unmarked is the same on both sides, ranges are ordered and in bounds, ranges are only given
    to changed lines, and marking changes nothing but the marks, which cover exactly the ranges. *)

From Stdlib Require Import ZArith Lia Bool List Ascii.
From stdpp Require Import base list gmap strings.
From S2P Require Import Prelude JsString JsMap DiffComputer.

(** A line as the sequence of its characters; a character compares as a string of length one. *)
Definition chars (s : string) : list ascii := String.list_ascii_of_string s.
Definition one (c : ascii) : string := String c EmptyString.

Definition TextRange : Type := nat * nat.

Definition WORD_DIFF_MAX_LINE : nat := 400.

(** [/[\p{L}\p{N}_]/u] on the code units below 256; [None] is an index out of range. *)
Definition isWordChar (c : option ascii) : bool :=
  match c with
  | None => false
  | Some c =>
      let n := nat_of_ascii c in
      let within lo hi := ((lo <=? n) && (n <=? hi))%nat in
      within 48 57 || within 65 90 || (n =? 95)%nat || within 97 122
      || existsb (Nat.eqb n) [170; 178; 179; 181; 185; 186; 188; 189; 190]
      || within 192 214 || within 216 246 || within 248 255
  end.

(** ** Common runs *)

(** [[aStart, bStart, length]] *)
Record MatchRun := mkMatch { ra : nat; rb : nat; rlen : nat }.

(** The first loop: how many leading characters agree. *)
Fixpoint common_prefix (a b : list ascii) : nat :=
  match a, b with
  | x :: a', y :: b' => if Ascii.eqb x y then S (common_prefix a' b') else 0
  | _, _ => 0
  end.

(** Appends [k] matched characters at [(i, j)], extending the last run when it ends there.  The
    runs are kept last first. *)
Definition extend (i j k : nat) (runs : list MatchRun) : list MatchRun :=
  match runs with
  | last :: rest =>
      if (ra last + rlen last =? i)%nat && (rb last + rlen last =? j)%nat
      then mkMatch (ra last) (rb last) (rlen last + k) :: rest
      else mkMatch i j k :: runs
  | [] => [mkMatch i j k]
  end.

(** The walk through the table, on the tails [a[start+i..endA]] and [b[start+j..endB]]. *)
Fixpoint walk (t : list (list nat)) (start : nat) (a : list ascii)
  : list ascii -> nat -> nat -> list MatchRun -> list MatchRun :=
  fix walk_b (b : list ascii) (i j : nat) (runs : list MatchRun) {struct b} : list MatchRun :=
    match a, b with
    | x :: a', y :: b' =>
        if Ascii.eqb x y then walk t start a' b' (S i) (S j) (extend (start + i) (start + j) 1 runs)
        else if (dp_at t i (S j) <=? dp_at t (S i) j)%nat then walk t start a' b (S i) j runs
             else walk_b b' i (S j) runs
    | _, _ => runs
    end.

(** The table is the one of the line diff, on characters. *)
Definition matchedRuns (a b : list ascii) : list MatchRun :=
  let start := common_prefix a b in
  let suffix := common_prefix (rev (drop start a)) (rev (drop start b)) in
  let endA := (length a - suffix)%nat in
  let endB := (length b - suffix)%nat in
  let runs0 := if (0 <? start)%nat then [mkMatch 0 0 start] else [] in
  let ma := take (endA - start) (drop start a) in
  let mb := take (endB - start) (drop start b) in
  let runs1 := walk (dp_table (map one ma) (map one mb)) start ma mb 0 0 runs0 in
  let runs2 := if (endA <? length a)%nat then extend endA endB (length a - endA) runs1 else runs1 in
  rev runs2.

(** ** Ranges *)

(** The callback of [runs.filter], with the neighbours of the run in the unfiltered array. *)
Definition keep_run (before after : list ascii) (previous next : option MatchRun) (run : MatchRun) : bool :=
  let '(mkMatch aStart bStart len) := run in
  if (2 <? len)%nat then true
  else
    let editBefore := match previous with
      | Some p => (ra p + rlen p <? aStart)%nat || (rb p + rlen p <? bStart)%nat
      | None => (0 <? aStart)%nat || (0 <? bStart)%nat
      end in
    let editAfter := match next with
      | Some n => (aStart + len <? ra n)%nat || (bStart + len <? rb n)%nat
      | None => (aStart + len <? length before)%nat || (bStart + len <? length after)%nat
      end in
    if editBefore && editAfter then false
    else
      let before_char := match aStart with O => None | S i => before !! i end in
      let insideWord :=
        isWordChar (head (take len (drop aStart before)))
        && ((editBefore && isWordChar before_char) || (editAfter && isWordChar (before !! (aStart + len)%nat))) in
      negb insideWord.

Fixpoint filter_runs (before after : list ascii) (previous : option MatchRun) (runs : list MatchRun) : list MatchRun :=
  match runs with
  | [] => []
  | run :: rest =>
      let rest' := filter_runs before after (Some run) rest in
      if keep_run before after previous (head rest) run then run :: rest' else rest'
  end.

(** [gaps(side, total)]: what the runs leave uncovered on one side. *)
Fixpoint gaps_loop (side : MatchRun -> nat) (total cursor : nat) (runs : list MatchRun) : list TextRange :=
  match runs with
  | [] => if (cursor <? total)%nat then [(cursor, total)] else []
  | run :: rest =>
      let gap := if (cursor <? side run)%nat then [(cursor, side run)] else [] in
      gap ++ gaps_loop side total (side run + rlen run) rest
  end.

(** The quotient is compared with MIN_SIMILARITY = 0.5 in whole numbers. *)
Definition wordDiffRanges (before after : string) : option (list TextRange * list TextRange) :=
  let a := chars before in
  let b := chars after in
  if (before =s after) || (WORD_DIFF_MAX_LINE <? length a)%nat || (WORD_DIFF_MAX_LINE <? length b)%nat then None
  else if negb (truthy (trim before)) || negb (truthy (trim after)) then None
  else
    let runs := matchedRuns a b in
    let matched := sum_list (map rlen runs) in
    if (4 * matched <? length a + length b)%nat then None
    else
      let kept := filter_runs a b None runs in
      let left := gaps_loop ra (length a) 0 kept in
      let right := gaps_loop rb (length b) 0 kept in
      match left, right with
      | [], [] => None
      | _, _ => Some (left, right)
      end.

(** ** The changed lines of a diff *)

Record Pairing := mkPairing {
  result : list (nat * list TextRange); removed : list nat; added : list nat }.

(** One turn of the loop of [flush]. *)
Definition flush_pair (textOf : nat -> string) (m : list (nat * list TextRange)) (p : nat * nat) : list (nat * list TextRange) :=
  let '(r, a) := p in
  match wordDiffRanges (textOf r) (textOf a) with
  | None => m
  | Some (before, after) =>
      let m1 := match before with [] => m | _ => map_set r before m end in
      match after with [] => m1 | _ => map_set a after m1 end
  end.

Definition flush_pairs (textOf : nat -> string) (st : Pairing) : Pairing :=
  mkPairing (fold_left (flush_pair textOf) (zip (removed st) (added st)) (result st)) [] [].

Definition pair_line (textOf : nat -> string) (st : Pairing) (p : nat * DiffLineKind) : Pairing :=
  let '(index, k) := p in
  match k with
  | k_remove =>
      let st := match added st with [] => st | _ => flush_pairs textOf st end in
      mkPairing (result st) (removed st ++ [index]) (added st)
  | k_add => mkPairing (result st) (removed st) (added st ++ [index])
  | k_context => flush_pairs textOf st
  end.

Definition pairedWordRanges (kinds : list DiffLineKind) (textOf : nat -> string) : list (nat * list TextRange) :=
  result (flush_pairs textOf (fold_left (pair_line textOf) (imap pair kinds) (mkPairing [] [] []))).

(** ** Marks in highlighted code *)

(** What is appended to [out]: a mark opened or closed, a tag of the input, a character of it. *)
Inductive Piece := POpen | PClose | PTag (t : list ascii) | PUnit (u : list ascii).

Definition mark_open : list ascii :=
  chars "<span class=" ++ [ascii_of_nat 34] ++ chars "review-word-mark" ++ [ascii_of_nat 34] ++ chars ">".
Definition mark_close : list ascii := chars "</span>".

Definition piece_text (p : Piece) : list ascii :=
  match p with POpen => mark_open | PClose => mark_close | PTag t => t | PUnit u => u end.

Definition entity_names : list (list ascii) :=
  map chars ["&amp;"; "&lt;"; "&gt;"; "&quot;"; "&#x27;"; "&#39;"].

(** [html.indexOf(c, index) - index + 1] on the tail from [index]. *)
Definition through (c : ascii) (tail : list ascii) : option nat :=
  option_map S (findIndex (Ascii.eqb c) tail).

(** The characters one unit of the original text takes in [tail]: an entity or one character. *)
Definition unit_length (tail : list ascii) : nat :=
  match tail with
  | c :: _ =>
      if Ascii.eqb c "&" then
        match through ";" tail with
        | Some n => if (1 <? n)%nat && (n <=? 7)%nat && bool_decide (take n tail ∈ entity_names) then n else 1
        | None => 1
        end
      else 1
  | [] => 1
  end.

(** [while (position >= ranges[rangeIndex][1]) rangeIndex += 1], on the ranges from [rangeIndex]. *)
Fixpoint skip_ranges (position : nat) (ranges : list TextRange) : list TextRange :=
  match ranges with
  | (s, e) :: rest => if (e <=? position)%nat then skip_ranges position rest else ranges
  | [] => []
  end.

Definition inside_head (position : nat) (ranges : list TextRange) : bool :=
  match ranges with
  | (s, e) :: _ => (s <=? position)%nat && (position <? e)%nat
  | [] => false
  end.

(** The loop over the tail [html[index..]].  Without a closing [>] the source sets the index back
    to 0 and goes round for ever: the model runs out of fuel there ([None]). *)
Fixpoint mark_loop (fuel : nat) (html tail : list ascii) (position : nat) (ranges : list TextRange) (open : bool)
  : option (list Piece) :=
  match tail with
  | [] => Some (if open then [PClose] else [])
  | c :: _ =>
      match fuel with
      | O => None
      | S fuel' =>
          if Ascii.eqb c "<" then
            let close := if open then [PClose] else [] in
            match through ">" tail with
            | Some n => option_map (fun out => close ++ PTag (take n tail) :: out) (mark_loop fuel' html (drop n tail) position ranges false)
            | None => option_map (fun out => close ++ PTag [] :: out) (mark_loop fuel' html html position ranges false)
            end
          else
            let n := unit_length tail in
            let ranges' := skip_ranges position ranges in
            let inside := inside_head position ranges' in
            let step := if inside then (if open then [] else [POpen]) else (if open then [PClose] else []) in
            option_map (fun out => step ++ PUnit (take n tail) :: out)
              (mark_loop fuel' html (drop n tail) (S position) ranges' inside)
      end
  end.

Definition markHighlightedRanges (html : list ascii) (ranges : list TextRange) : option (list ascii) :=
  match ranges with
  | [] => Some html
  | _ => option_map (flat_map piece_text) (mark_loop (length html) html html 0 ranges false)
  end.

(** ** Common runs match *)

(** The runs of [matchedRuns], last first: each is a non-empty stretch of equal text, and they
    are ordered on both sides and end before [(ea, eb)]. *)
Fixpoint chain (a b : list ascii) (runs : list MatchRun) (ea eb : nat) : Prop :=
  match runs with
  | [] => True
  | r :: rest =>
      (0 < rlen r)%nat /\ (ra r + rlen r <= ea)%nat /\ (rb r + rlen r <= eb)%nat
      /\ take (rlen r) (drop (ra r) a) = take (rlen r) (drop (rb r) b)
      /\ chain a b rest (ra r) (rb r)
  end.

Lemma chain_weaken a b runs ea eb ea' eb' : chain a b runs ea eb -> (ea <= ea')%nat -> (eb <= eb')%nat -> chain a b runs ea' eb'.
Proof. destruct runs as [|r rest]; simpl; [done|]. intros (? & ? & ? & ? & ?). repeat split; try done; lia. Qed.

Lemma extend_chain a b runs i j k :
  chain a b runs i j -> (0 < k)%nat -> take k (drop i a) = take k (drop j b) ->
  chain a b (extend i j k runs) (i + k) (j + k).
Proof.
  destruct runs as [|r rest]; simpl; [intros; repeat split; try done; lia|].
  intros (Hl & Ha & Hb & Ht & Hc) Hk Heq.
  destruct (ra r + rlen r =? i)%nat eqn:H1; destruct (rb r + rlen r =? j)%nat eqn:H2; breflect; simpl;
    repeat split; try done; try lia.
  subst i j. by rewrite !take_split_drop, Ht, Heq.
Qed.

Lemma take_one {A} (l : list A) i x : l !! i = Some x -> take 1 (drop i l) = [x].
Proof. intros H. by rewrite (drop_S _ _ _ H). Qed.

Lemma drop_head_lookup {A} i (l : list A) x r : drop i l = x :: r -> l !! i = Some x /\ drop (S i) l = r.
Proof.
  intros H. split.
  - rewrite <- (Nat.add_0_r i), <- lookup_drop, H. done.
  - rewrite <- Nat.add_1_r, <- drop_drop, H. done.
Qed.

Lemma take_drop_head {A} n i (l : list A) x r :
  take n (drop i l) = x :: r -> l !! i = Some x /\ r = take (n - 1) (drop (S i) l).
Proof.
  destruct n as [|n]; [done|]. destruct (drop i l) as [|y t] eqn:Hd; [done|]. simpl.
  intros [= <- <-]. destruct (drop_head_lookup _ _ _ _ Hd) as [? ->]. by rewrite Nat.sub_0_r.
Qed.

Lemma walk_chain a0 b0 t start a b na nb i j runs :
  a = take (na - i) (drop (start + i) a0) -> b = take (nb - j) (drop (start + j) b0) ->
  (i <= na)%nat -> (j <= nb)%nat ->
  chain a0 b0 runs (start + i) (start + j) ->
  chain a0 b0 (walk t start a b i j runs) (start + na) (start + nb).
Proof.
  revert b i j runs. induction a as [|x a IHa]; intros b.
  { intros i j runs _ _ Hi Hj Hc. destruct b; simpl; eapply chain_weaken; try done; lia. }
  induction b as [|y b IHb]; intros i j runs Ha Hb Hi Hj Hc; [simpl; eapply chain_weaken; try done; lia|].
  symmetry in Ha, Hb.
  assert (Hi' : (i < na)%nat) by (destruct (na - i)%nat eqn:E; [done | lia]).
  assert (Hj' : (j < nb)%nat) by (destruct (nb - j)%nat eqn:E; [done | lia]).
  destruct (take_drop_head _ _ _ _ _ Ha) as [Hxa Ha'], (take_drop_head _ _ _ _ _ Hb) as [Hyb Hb'].
  replace (na - i - 1)%nat with (na - S i)%nat in Ha' by lia. replace (nb - j - 1)%nat with (nb - S j)%nat in Hb' by lia.
  rewrite <- Nat.add_succ_r in Ha', Hb'.
  cbn [walk]. destruct (Ascii.eqb_spec x y) as [->|_].
  - apply IHa; try done. replace (start + S i)%nat with (start + i + 1)%nat by lia.
    replace (start + S j)%nat with (start + j + 1)%nat by lia. apply extend_chain; [done | lia|].
    by rewrite (take_one _ _ _ Hxa), (take_one _ _ _ Hyb).
  - destruct (_ <=? _)%nat.
    + apply IHa; try done. eapply chain_weaken; try done; lia.
    + apply IHb; try done. eapply chain_weaken; try done; lia.
Qed.

Lemma common_prefix_take a b : let n := common_prefix a b in
  take n a = take n b /\ (n <= length a)%nat /\ (n <= length b)%nat.
Proof.
  revert b. induction a as [|x a IH]; intros [|y b]; simpl; [split; [done|lia]..|].
  destruct (Ascii.eqb_spec x y) as [->|_]; simpl; [|split; [done|lia]].
  destruct (IH b) as (-> & ? & ?). split; [done|lia].
Qed.

Lemma common_suffix_drop a b : let n := common_prefix (rev a) (rev b) in
  drop (length a - n) a = drop (length b - n) b /\ (n <= length a)%nat /\ (n <= length b)%nat.
Proof.
  intros n. destruct (common_prefix_take (rev a) (rev b)) as (Ht & Ha & Hb). fold n in Ht, Ha, Hb.
  rewrite length_rev in Ha, Hb. split; [|done].
  apply (f_equal (@rev ascii)) in Ht. rewrite !firstn_rev, !rev_involutive in Ht. exact Ht.
Qed.

Lemma chain_start a b n : take n a = take n b -> (n <= length a)%nat ->
  chain a b (if (0 <? n)%nat then [mkMatch 0 0 n] else []) n n.
Proof. intros Ht Hn. destruct (0 <? n)%nat eqn:H; simpl; [|done]. breflect. repeat split; try lia. by rewrite !drop_0. Qed.

Lemma matchedRuns_chain a b : exists runs, matchedRuns a b = rev runs /\ chain a b runs (length a) (length b).
Proof.
  unfold matchedRuns. set (start := common_prefix a b).
  set (suffix := common_prefix (rev (drop start a)) (rev (drop start b))).
  destruct (common_prefix_take a b) as (Ht & Ha & Hb). fold start in Ht, Ha, Hb.
  destruct (common_suffix_drop (drop start a) (drop start b)) as (Hs & Hsa & Hsb).
  fold suffix in Hs, Hsa, Hsb. rewrite !length_drop in Hs, Hsa, Hsb.
  set (endA := (length a - suffix)%nat). set (endB := (length b - suffix)%nat).
  eexists. split; [reflexivity|].
  match goal with |- chain _ _ (if _ then extend _ _ _ ?w else _) _ _ => assert (Hw : chain a b w endA endB) end.
  { assert (HA : (start + (endA - start))%nat = endA) by (unfold endA; lia).
    assert (HB : (start + (endB - start))%nat = endB) by (unfold endB; lia).
    eapply chain_weaken; [eapply (walk_chain a b _ start _ _ (endA - start) (endB - start) 0 0)| |];
      rewrite ?Nat.sub_0_r, ?Nat.add_0_r; try done; try lia. by apply chain_start. }
  destruct (endA <? length a)%nat eqn:Hlt; breflect.
  - rewrite !length_drop in Hs. replace (length a - endA)%nat with suffix by (unfold endA; lia).
    eapply chain_weaken; [apply extend_chain; [exact Hw | unfold endA in Hlt; lia |] | unfold endA; lia | unfold endB; lia].
    f_equal. rewrite !drop_drop in Hs. unfold endA, endB.
    replace (length a - suffix)%nat with (start + (length a - start - suffix))%nat by lia.
    replace (length b - suffix)%nat with (start + (length b - start - suffix))%nat by lia. exact Hs.
  - eapply chain_weaken; [done | unfold endA; lia | unfold endB; lia].
Qed.

(** The same from left to right: the runs from the cursors [(ca, cb)] on. *)
Fixpoint aligned (a b : list ascii) (ca cb : nat) (runs : list MatchRun) : Prop :=
  match runs with
  | [] => True
  | r :: rest =>
      (ca <= ra r)%nat /\ (cb <= rb r)%nat /\ (0 < rlen r)%nat
      /\ (ra r + rlen r <= length a)%nat /\ (rb r + rlen r <= length b)%nat
      /\ take (rlen r) (drop (ra r) a) = take (rlen r) (drop (rb r) b)
      /\ aligned a b (ra r + rlen r) (rb r + rlen r) rest
  end.

Lemma aligned_weaken a b runs ca cb ca' cb' : aligned a b ca cb runs -> (ca' <= ca)%nat -> (cb' <= cb)%nat -> aligned a b ca' cb' runs.
Proof. destruct runs as [|r rest]; simpl; [done|]. intros (? & ? & ? & ? & ? & ? & ?). repeat split; try done; lia. Qed.

Lemma chain_aligned a b runs ea eb rest :
  chain a b runs ea eb -> (ea <= length a)%nat -> (eb <= length b)%nat ->
  aligned a b ea eb rest -> aligned a b 0 0 (rev runs ++ rest).
Proof.
  revert ea eb rest. induction runs as [|r runs IH]; intros ea eb rest; simpl.
  { intros _ _ _ H. eapply aligned_weaken; [exact H | lia | lia]. }
  intros (? & ? & ? & ? & Hc) ? ? Hrest. rewrite <- app_assoc. apply (IH (ra r) (rb r)); try done; try lia.
  simpl. repeat split; try done; try lia. eapply aligned_weaken; [exact Hrest | lia | lia].
Qed.

Lemma matchedRuns_aligned a b : aligned a b 0 0 (matchedRuns a b).
Proof.
  destruct (matchedRuns_chain a b) as (runs & -> & Hc). rewrite <- (app_nil_r (rev runs)).
  by apply (chain_aligned _ _ _ _ _ [] Hc).
Qed.

Lemma filter_runs_aligned before after a b previous ca cb runs :
  aligned a b ca cb runs -> aligned a b ca cb (filter_runs before after previous runs).
Proof.
  revert previous ca cb. induction runs as [|r runs IH]; intros previous ca cb; simpl; [done|].
  intros (? & ? & ? & ? & ? & ? & Hr). destruct (keep_run _ _ _ _ _).
  - simpl. repeat split; try done. by apply IH.
  - eapply aligned_weaken; [by apply IH | lia | lia].
Qed.

(** ** The ranges cover what the runs leave *)

Definition in_range (i : nat) (r : TextRange) : bool := (fst r <=? i)%nat && (i <? snd r)%nat.
Definition in_ranges (i : nat) (rs : list TextRange) : bool := existsb (in_range i) rs.

(** The characters of [l], whose first one has index [k], that lie in no range. *)
Fixpoint unmarked (k : nat) (rs : list TextRange) (l : list ascii) : list ascii :=
  match l with
  | [] => []
  | c :: r => (if in_ranges k rs then [] else [c]) ++ unmarked (S k) rs r
  end.

(** Ranges are non-empty, ordered, apart from each other, from [c] on and up to [total]. *)
Fixpoint ranges_ok (c total : nat) (rs : list TextRange) : Prop :=
  match rs with
  | [] => True
  | (s, e) :: rest => (c <= s)%nat /\ (s < e)%nat /\ (e <= total)%nat /\ ranges_ok (S e) total rest
  end.

Lemma ranges_ok_weaken c c' total rs : ranges_ok c total rs -> (c' <= c)%nat -> ranges_ok c' total rs.
Proof. destruct rs as [|[s e] rest]; simpl; [done|]. intros (? & ? & ? & ?) ?. repeat split; try done; lia. Qed.

Lemma ranges_ok_below c total rs i : ranges_ok c total rs -> (i < c)%nat -> in_ranges i rs = false.
Proof.
  revert c. induction rs as [|[s e] rest IH]; intros c; simpl; [done|]. intros (? & ? & ? & Hr) ?.
  rewrite (IH (S e)) by (done || lia). unfold in_range. simpl.
  destruct (s <=? i)%nat eqn:E; breflect; [lia | done].
Qed.

Lemma unmarked_app k rs l l' : unmarked k rs (l ++ l') = unmarked k rs l ++ unmarked (k + length l) rs l'.
Proof.
  revert k. induction l as [|c l IH]; intros k; simpl; [by rewrite Nat.add_0_r|].
  rewrite IH, app_assoc. do 2 f_equal. lia.
Qed.

Lemma unmarked_none k rs l : (forall i, (k <= i < k + length l)%nat -> in_ranges i rs = false) -> unmarked k rs l = l.
Proof.
  revert k. induction l as [|c l IH]; intros k H; simpl in *; [done|]. rewrite H by lia. simpl. f_equal.
  apply IH. intros i Hi. apply H. lia.
Qed.

Lemma unmarked_all k rs l : (forall i, (k <= i < k + length l)%nat -> in_ranges i rs = true) -> unmarked k rs l = [].
Proof.
  revert k. induction l as [|c l IH]; intros k H; simpl in *; [done|]. rewrite H by lia. simpl.
  apply IH. intros i Hi. apply H. lia.
Qed.

Lemma unmarked_ext k rs rs' l : (forall i, (k <= i)%nat -> in_ranges i rs = in_ranges i rs') -> unmarked k rs l = unmarked k rs' l.
Proof.
  revert k. induction l as [|c l IH]; intros k H; simpl; [done|]. rewrite H by lia. f_equal. apply IH. intros i Hi. apply H. lia.
Qed.

Section Gaps.
Context (side : MatchRun -> nat) (l : list ascii).

(** One side of [aligned]. *)
Fixpoint covered (c : nat) (runs : list MatchRun) : Prop :=
  match runs with
  | [] => True
  | r :: rest => (c <= side r)%nat /\ (0 < rlen r)%nat /\ (side r + rlen r <= length l)%nat /\ covered (side r + rlen r) rest
  end.

Definition run_text (r : MatchRun) : list ascii := take (rlen r) (drop (side r) l).

Lemma gaps_ok c runs : covered c runs -> ranges_ok c (length l) (gaps_loop side (length l) c runs).
Proof.
  revert c. induction runs as [|r runs IH]; intros c; simpl.
  - destruct (c <? length l)%nat eqn:E; breflect; simpl; repeat split; lia.
  - intros (? & ? & ? & Hc). specialize (IH _ Hc). destruct (c <? side r)%nat eqn:E; breflect; simpl.
    + repeat split; try lia. eapply ranges_ok_weaken; [exact IH | lia].
    + eapply ranges_ok_weaken; [exact IH | lia].
Qed.

Lemma gaps_unmarked c runs : covered c runs -> (c <= length l)%nat ->
  unmarked c (gaps_loop side (length l) c runs) (drop c l) = flat_map run_text runs.
Proof.
  revert c. induction runs as [|r runs IH]; intros c; cbn [gaps_loop flat_map].
  - intros _ Hc. apply unmarked_all. intros i Hi. rewrite length_drop in Hi.
    destruct (c <? length l)%nat eqn:E; breflect; [|lia]. unfold in_ranges, in_range. simpl.
    rewrite orb_false_r. apply andb_true_iff. split; [apply Nat.leb_le | apply Nat.ltb_lt]; lia.
  - intros Hr Hc. pose proof (gaps_ok _ _ Hr) as Hok. cbn [gaps_loop] in Hok.
    destruct Hr as (H1 & H2 & H3 & Hr). set (rest := gaps_loop side (length l) (side r + rlen r) runs) in *.
    pose proof (gaps_ok _ _ Hr) as Hrest. fold rest in Hrest.
    assert (Hsplit : drop c l = take (side r - c) (drop c l) ++ run_text r ++ drop (side r + rlen r) l).
    { unfold run_text. rewrite <- (take_drop (side r - c) (drop c l)) at 1. f_equal. rewrite drop_drop.
      replace (c + (side r - c))%nat with (side r) by lia.
      rewrite <- (take_drop (rlen r) (drop (side r) l)) at 1. by rewrite drop_drop. }
    assert (Hl1 : length (take (side r - c) (drop c l)) = (side r - c)%nat) by (rewrite length_take, length_drop; lia).
    assert (Hl2 : length (run_text r) = rlen r) by (unfold run_text; rewrite length_take, length_drop; lia).
    assert (Hgap : forall i, in_ranges i ((if (c <? side r)%nat then [(c, side r)] else []) ++ rest)
                   = ((c <=? i)%nat && (i <? side r)%nat) || in_ranges i rest).
    { intros i. destruct (c <? side r)%nat eqn:E; [done|]. breflect. simpl.
      destruct (c <=? i)%nat eqn:E1, (i <? side r)%nat eqn:E2; breflect; simpl; try done; lia. }
    rewrite Hsplit, !unmarked_app, Hl1, Hl2. 
    replace (c + (side r - c))%nat with (side r) by lia.
    rewrite unmarked_all, unmarked_none.
    + simpl. f_equal. rewrite <- (IH _ Hr H3). apply unmarked_ext. intros i Hi. rewrite Hgap.
      destruct (i <? side r)%nat eqn:E; breflect; [lia|]. by rewrite andb_false_r.
    + intros i Hi. rewrite Hl2 in Hi. rewrite Hgap. destruct (i <? side r)%nat eqn:E; breflect; [lia|].
      rewrite andb_false_r. apply (ranges_ok_below _ _ _ _ Hrest). lia.
    + intros i Hi. rewrite Hl1 in Hi. rewrite Hgap. apply orb_true_iff. left. apply andb_true_iff.
      split; [apply Nat.leb_le | apply Nat.ltb_lt]; lia.
Qed.
End Gaps.

Lemma aligned_sides a b ca cb runs : aligned a b ca cb runs ->
  covered ra a ca runs /\ covered rb b cb runs /\ flat_map (run_text ra a) runs = flat_map (run_text rb b) runs.
Proof.
  revert ca cb. induction runs as [|r runs IH]; intros ca cb; simpl; [done|].
  intros (? & ? & ? & ? & ? & Heq & Hr). destruct (IH _ _ Hr) as (? & ? & ->).
  repeat split; try done. unfold run_text at 1 3. by rewrite Heq.
Qed.

(** The highlight of a pair of lines covers every difference: what is
    left unmarked reads the same on both lines.  The ranges of each line are non-empty, in order,
    apart from each other and within the line; equal lines get none, and some range is given. *)
Theorem word_ranges_sound before after left right :
  wordDiffRanges before after = Some (left, right) ->
  unmarked 0 left (chars before) = unmarked 0 right (chars after)
  /\ ranges_ok 0 (length (chars before)) left /\ ranges_ok 0 (length (chars after)) right
  /\ before <> after /\ (left <> [] \/ right <> []).
Proof.
  unfold wordDiffRanges. destruct ((before =s after) || _ || _) eqn:H1; [done|].
  destruct (negb (truthy (trim before)) || _); [done|]. destruct (4 * _ <? _)%nat; [done|]. set (a := chars before) in *. set (b := chars after) in *.
  set (kept := filter_runs a b None (matchedRuns a b)).
  assert (Hk : aligned a b 0 0 kept) by apply filter_runs_aligned, matchedRuns_aligned.
  destruct (aligned_sides _ _ _ _ _ Hk) as (Ha & Hb & Heq).
  pose proof (gaps_unmarked ra a 0 kept Ha ltac:(lia)) as Hua. pose proof (gaps_unmarked rb b 0 kept Hb ltac:(lia)) as Hub.
  pose proof (gaps_ok ra a 0 kept Ha) as Hoa. pose proof (gaps_ok rb b 0 kept Hb) as Hob.
  rewrite drop_0 in Hua, Hub. intros H.
  assert (left = gaps_loop ra (length a) 0 kept /\ right = gaps_loop rb (length b) 0 kept /\ (left <> [] \/ right <> []))
    as (-> & -> & Hne)
    by (destruct (gaps_loop ra _ _ _), (gaps_loop rb _ _ _); simplify_eq; naive_solver).
  apply orb_false_iff in H1 as [H1 _]. apply orb_false_iff in H1 as [H1 _]. apply String.eqb_neq in H1.
  repeat split; try done. by rewrite Hua, Hub.
Qed.

Lemma word_ranges_sound_witness :
  wordDiffRanges "const total = 1" "const sum = 1" = Some ([(6, 11)], [(6, 9)])
  /\ unmarked 0 [(6, 11)] (chars "const total = 1") = unmarked 0 [(6, 9)] (chars "const sum = 1").
Proof.
  assert (H : wordDiffRanges "const total = 1" "const sum = 1" = Some ([(6, 11)], [(6, 9)])) by (vm_compute; reflexivity).
  split; [exact H|]. exact (proj1 (word_ranges_sound _ _ _ _ H)).
Defined.

(** ** Ranges go to paired changes *)

(** A removed line [i] and an added line [j] after it, with only changes between them. *)
Definition paired (kinds : list DiffLineKind) (i j : nat) : Prop :=
  kinds !! i = Some k_remove /\ kinds !! j = Some k_add /\ (i < j)%nat
  /\ forall m, (i < m < j)%nat -> kinds !! m <> Some k_context.

Definition entry_ok (kinds : list DiffLineKind) (textOf : nat -> string) (e : nat * list TextRange) : Prop :=
  exists i j before after, paired kinds i j /\ wordDiffRanges (textOf i) (textOf j) = Some (before, after)
    /\ snd e <> [] /\ (e = (i, before) \/ e = (j, after)).

(** The open block: removed lines, then added ones, no context since. *)
Record block_ok (kinds : list DiffLineKind) (textOf : nat -> string) (st : Pairing) : Prop := {
  bo_result : Forall (entry_ok kinds textOf) (result st);
  bo_pairs : forall i j, i ∈ removed st -> j ∈ added st -> paired kinds i j;
  bo_removed : forall i, i ∈ removed st -> kinds !! i = Some k_remove
                 /\ forall m, (i < m)%nat -> kinds !! m <> Some k_context }.

Lemma paired_snoc kinds k i j : paired kinds i j -> paired (kinds ++ [k]) i j.
Proof.
  intros (Hi & Hj & Hlt & Hm). assert (j < length kinds)%nat by (by apply lookup_lt_Some in Hj).
  repeat split; [by apply lookup_app_l_Some | by apply lookup_app_l_Some | done|].
  intros m Hml. rewrite lookup_app_l by lia. auto.
Qed.

Lemma entry_ok_snoc kinds textOf k e : entry_ok kinds textOf e -> entry_ok (kinds ++ [k]) textOf e.
Proof. intros (i & j & b & a & Hp & Hr). exists i, j, b, a. eauto using paired_snoc. Qed.

Lemma flush_pairs_ok kinds textOf st : block_ok kinds textOf st -> block_ok kinds textOf (flush_pairs textOf st).
Proof.
  intros [Hr Hp _]. split; simpl; [|intros i j Hi; by apply not_elem_of_nil in Hi | intros i Hi; by apply not_elem_of_nil in Hi].
  assert (Hz : Forall (fun p => paired kinds (fst p) (snd p)) (zip (removed st) (added st))).
  { apply Forall_forall. intros [i j] Hin. apply elem_of_zip_l in Hin as Hi. apply elem_of_zip_r in Hin as Hj. by apply Hp. }
  revert Hr. generalize (result st). induction Hz as [|[i j] ps Hij _ IH]; simpl; intros m Hm; [done|].
  apply IH. simpl in Hij. destruct (wordDiffRanges (textOf i) (textOf j)) as [[before after]|] eqn:Hw; [|done].
  assert (Hb : before <> [] -> entry_ok kinds textOf (i, before)) by (intros; exists i, j, before, after; simpl; auto).
  assert (Ha : after <> [] -> entry_ok kinds textOf (j, after)) by (intros; exists i, j, before, after; simpl; auto).
  destruct before, after; repeat (apply map_set_Forall; [intros ? <-; auto|]); auto.
Qed.

Lemma lookup_snoc_cases {A} (l : list A) x i y : (l ++ [x]) !! i = Some y -> l !! i = Some y \/ (i = length l /\ x = y).
Proof.
  intros H. apply lookup_app_Some in H as [H|[Hi H]]; [by left|]. right.
  destruct (i - length l)%nat eqn:E; [|done]. simplify_eq/=. split; [lia | done].
Qed.

Lemma no_context_snoc kinds k i : (forall m, (i < m)%nat -> kinds !! m <> Some k_context) -> k <> k_context ->
  forall m, (i < m)%nat -> (kinds ++ [k]) !! m <> Some k_context.
Proof. intros H Hk m Hm Hc. apply lookup_snoc_cases in Hc as [Hc|[_ Hc]]; [by apply (H m) | done]. Qed.

Lemma block_snoc kinds textOf k st : k <> k_context -> block_ok kinds textOf st -> block_ok (kinds ++ [k]) textOf st.
Proof.
  intros Hk [Hr Hp Hm]. split.
  - eapply Forall_impl; [exact Hr | intros e; apply entry_ok_snoc].
  - intros i j Hi Hj. by apply paired_snoc, Hp.
  - intros i Hi. destruct (Hm i Hi) as [H1 H2]. split; [by apply lookup_app_l_Some | by apply no_context_snoc].
Qed.

Lemma pair_line_ok kinds textOf k st :
  block_ok kinds textOf st -> block_ok (kinds ++ [k]) textOf (pair_line textOf st (length kinds, k)).
Proof.
  assert (Hlast : (kinds ++ [k]) !! length kinds = Some k) by (rewrite lookup_app_r, Nat.sub_diag by lia; done).
  intros Hst. destruct k; simpl.
  - destruct (block_snoc _ _ k_add _ ltac:(done) Hst) as [Hr Hp Hm]. split; simpl; try done.
    intros i j Hi Hj. apply elem_of_app in Hj as [Hj | ->%list_elem_of_singleton]; [by apply Hp|].
    destruct (Hm i Hi) as [Hi1 Hi2]. repeat split; try done; [|intros m Hml; apply Hi2; lia].
    destruct (bo_removed _ _ _ Hst i Hi) as [Hi3%lookup_lt_Some _]. done.
  - assert (Hst' : block_ok kinds textOf (match added st with [] => st | _ => flush_pairs textOf st end)
        /\ added (match added st with [] => st | _ => flush_pairs textOf st end) = [])
      by (destruct (added st) eqn:E; split; auto using flush_pairs_ok).
    destruct Hst' as [Hst' Hnil]. destruct (block_snoc _ _ k_remove _ ltac:(done) Hst') as [Hr Hp Hm].
    split; simpl; [done | rewrite Hnil; intros i j _ Hj; by apply not_elem_of_nil in Hj|].
    intros i Hi. apply elem_of_app in Hi as [Hi | ->%list_elem_of_singleton]; [by apply Hm|]. split; [done|].
    intros m Hlt Hc. apply lookup_lt_Some in Hc. rewrite length_app in Hc. simpl in Hc. lia.
  - destruct (flush_pairs_ok _ _ _ Hst) as [Hr _ _].
    split; simpl; [|intros i j Hi; by apply not_elem_of_nil in Hi | intros i Hi; by apply not_elem_of_nil in Hi].
    eapply Forall_impl; [exact Hr | intros e; apply entry_ok_snoc].
Qed.

(** Highlight ranges are only given to changed lines, and only within a
    block: each entry of the result belongs to a removed line and an added line after it with
    nothing but changes between, and holds that side's ranges of the pair, never an empty list. *)
Theorem paired_ranges_sound kinds textOf : Forall (entry_ok kinds textOf) (pairedWordRanges kinds textOf).
Proof.
  unfold pairedWordRanges. apply (bo_result kinds textOf), flush_pairs_ok.
  induction kinds as [|k kinds IH] using rev_ind.
  { split; simpl; [constructor | intros i j Hi; by apply not_elem_of_nil in Hi | intros i Hi; by apply not_elem_of_nil in Hi]. }
  rewrite imap_app. simpl. rewrite Nat.add_0_r, fold_left_app. simpl. by apply pair_line_ok.
Qed.

(** ** Marking keeps the code and marks the ranges *)

(** Every [<] of the code has a [>] after it, as in the highlighter's output. *)
Fixpoint tags_closed (l : list ascii) : bool :=
  match l with
  | [] => true
  | c :: r => (if Ascii.eqb c "<" then existsb (Ascii.eqb ">") r else true) && tags_closed r
  end.

(** The output without the marks. *)
Definition source_text (out : list Piece) : list ascii :=
  flat_map (fun p => match p with POpen | PClose => [] | PTag t => t | PUnit u => u end) out.

(** Marks are closed where they must be and never contain a tag; the character at a position of
    the original text is inside a mark exactly when the position is in a range. *)
Fixpoint marks_exact (ranges : list TextRange) (open : bool) (position : nat) (out : list Piece) : Prop :=
  match out with
  | [] => open = false
  | POpen :: r => open = false /\ marks_exact ranges true position r
  | PClose :: r => open = true /\ marks_exact ranges false position r
  | PTag _ :: r => open = false /\ marks_exact ranges false position r
  | PUnit _ :: r => open = in_ranges position ranges /\ marks_exact ranges open (S position) r
  end.

Lemma tags_closed_drop n l : tags_closed l = true -> tags_closed (drop n l) = true.
Proof.
  revert n. induction l as [|c l IH]; intros [|n]; simpl; try done. intros H%andb_true_iff.
  apply IH. apply H.
Qed.

Lemma through_closed l r : l = "<"%char :: r -> tags_closed l = true -> exists n, through ">" l = Some (S n).
Proof.
  intros -> H. cbn [tags_closed] in H. rewrite Ascii.eqb_refl in H. apply andb_true_iff in H as [H _].
  unfold through. destruct (findIndex (Ascii.eqb ">") ("<"%char :: r)) as [n|] eqn:E; simpl; [by exists n|].
  apply existsb_exists in H as (x & Hx & Hc). apply findIndex_None in E.
  rewrite List.Forall_forall in E. specialize (E x (or_intror Hx)). cbn beta in E. by rewrite Hc in E.
Qed.

Lemma unit_length_pos l : exists n, unit_length l = S n.
Proof.
  unfold unit_length. destruct l as [|c l]; [by exists 0%nat|]. destruct (Ascii.eqb c "&"); [|by exists 0%nat].
  destruct (through _ _) as [[|n]|]; simpl; [by exists 0%nat| |by exists 0%nat].
  destruct (_ && _); [by exists n | by exists 0%nat].
Qed.

Lemma skip_ranges_spec c total position rs :
  ranges_ok c total rs ->
  (exists c', ranges_ok c' total (skip_ranges position rs))
  /\ (forall i, (position <= i)%nat -> in_ranges i (skip_ranges position rs) = in_ranges i rs)
  /\ inside_head position (skip_ranges position rs) = in_ranges position rs.
Proof.
  revert c. induction rs as [|[s e] rs IH]; intros c Hok; [split; [by exists 0%nat | done]|].
  cbn [skip_ranges]. destruct (e <=? position)%nat eqn:He; breflect.
  - destruct Hok as (_ & _ & _ & Hok). destruct (IH _ Hok) as (H1 & H2 & H3).
    assert (Hout : forall i, (position <= i)%nat -> in_range i (s, e) = false).
    { intros i Hi. unfold in_range. simpl. destruct (i <? e)%nat eqn:E; breflect; [lia|]. by rewrite andb_false_r. }
    split; [done|]. split; [intros i Hi; rewrite H2 by done; simpl; by rewrite Hout|]. rewrite H3. simpl. by rewrite Hout.
  - split; [by exists c|]. split; [done|]. destruct Hok as (_ & _ & _ & Hok). simpl.
    rewrite (ranges_ok_below _ _ _ position Hok) by lia. by rewrite orb_false_r.
Qed.

Lemma mark_loop_spec html ranges total fuel tail position rs c open :
  tags_closed tail = true -> (length tail <= fuel)%nat -> ranges_ok c total rs ->
  (forall i, (position <= i)%nat -> in_ranges i rs = in_ranges i ranges) ->
  exists out, mark_loop fuel html tail position rs open = Some out
    /\ source_text out = tail /\ marks_exact ranges open position out.
Proof.
  revert tail position rs c open.
  induction fuel as [|fuel IH]; intros [|x tail] position rs c open Hcl Hf Hok Hin; simpl in Hf; try lia;
    try (destruct open; eexists; repeat split; by simpl).
  cbn [mark_loop]. destruct (Ascii.eqb_spec x "<") as [->|Hx].
  - destruct (through_closed _ _ eq_refl Hcl) as [n Hn]. rewrite Hn.
    destruct (IH (drop (S n) ("<"%char :: tail)) position rs c false) as (out & -> & Hs & Hm);
      [by apply tags_closed_drop | rewrite length_drop; simpl; lia | done | done|].
    eexists. split; [reflexivity|]. unfold source_text in *.
    destruct open; cbn [app flat_map marks_exact]; rewrite Hs, take_drop; done.
  - destruct (unit_length_pos (x :: tail)) as [n Hn]. rewrite Hn.
    destruct (skip_ranges_spec c total position rs Hok) as ((c' & Hok') & Hsk & Hins).
    set (rs' := skip_ranges position rs) in *. rewrite Hins, Hin by lia.
    destruct (IH (drop (S n) (x :: tail)) (S position) rs' c' (in_ranges position ranges)) as (out & -> & Hs & Hm);
      [by apply tags_closed_drop | rewrite length_drop; simpl; lia | done | intros i Hi; rewrite Hsk, Hin by lia; done|].
    eexists. split; [reflexivity|]. unfold source_text in *.
    destruct open, (in_ranges position ranges) eqn:Hp; cbn [app flat_map marks_exact]; rewrite Hs, take_drop; done.
Qed.

(** Marking ordered ranges of highlighted code terminates and only inserts
    marks: without them the output is the input; every mark is closed, no mark straddles a tag,
    and a character is inside a mark exactly when its position is in one of the ranges. *)
Theorem marking_faithful html ranges total :
  tags_closed html = true -> ranges_ok 0 total ranges -> ranges <> [] ->
  exists out, markHighlightedRanges html ranges = Some (flat_map piece_text out)
    /\ source_text out = html /\ marks_exact ranges false 0 out.
Proof.
  intros Hcl Hok Hne.
  destruct (mark_loop_spec html ranges total (length html) html 0 ranges 0 false) as (out & Hm & Hs); try done.
  exists out. split; [|done]. unfold markHighlightedRanges. rewrite Hm. by destruct ranges.
Qed.

Lemma marking_faithful_witness :
  let html := chars "<b>a</b>&lt;c" in
  markHighlightedRanges html [(1, 2)]
    = Some (chars "<b>a</b>" ++ mark_open ++ chars "&lt;" ++ mark_close ++ chars "c")
  /\ exists out, markHighlightedRanges html [(1, 2)] = Some (flat_map piece_text out)
       /\ source_text out = html /\ marks_exact [(1, 2)] false 0 out.
Proof.
  intros html. split; [vm_compute; reflexivity|].
  apply (marking_faithful html [(1, 2)] 3); [vm_compute; reflexivity | simpl; lia | discriminate].
Defined.

(** The code relies on that: on a stray [<] the search for its end fails,
    the index falls back to 0, and however many rounds are allowed the loop does not end. *)
Theorem marking_diverges fuel position ranges open :
  mark_loop fuel (chars "<") (chars "<") position ranges open = None.
Proof. revert position ranges open. induction fuel as [|fuel IH]; intros; [done|]. simpl. by rewrite IH. Qed.
