(* ===== verification/RunGuard.v ===== *)
(** * The delegated-run guard of the agent worker (agent-worker/src/run-guard.ts)

    Flow keeps the rules of a guarded run; the worker asks Flow at the points where the loop
    decides and enforces the answers.  Every operation takes the answer of its one guard request
    as an argument ([None]: the request failed), so that an arbitrary Flow is covered.  The
    theorems: tools are withdrawn as told and guarded once, the forced-decision turn runs no
    other call, the nudges a run follows are bounded, and the error flags of tool results are
    read back first in, first out whatever the order of the arguments' properties. *)

From Stdlib Require Import ZArith Lia Bool List Ascii Sorting.Permutation.
From stdpp Require Import base list strings.
From S2P Require Import Prelude JsString JsMap Json.

(** ** Requests and answers *)

Inductive FinishPhase := ph_reply | ph_decision | ph_turnLimit.

#[export] Instance FinishPhase_eq_dec : EqDecision FinishPhase.
Proof. solve_decision. Defined.

Record ModelUsage := { mu_inputTokens : Z; mu_outputTokens : Z; mu_cachedTokens : Z; mu_reasoningTokens : Z }.
Record ModelCall := { mc_id : string; mc_name : string; mc_arguments : string }.
Record ModelTurn := {
  mt_text : string; mt_reasoning : string; mt_calls : list ModelCall; mt_stopReason : string; mt_stopDetail : string;
  mt_usage : ModelUsage; mt_durationMs : Z; mt_events : Z; mt_bytes : Z; mt_finished : bool;
  mt_model : string; mt_protocol : string; mt_unreadable : option Z; mt_unknown : option Z; mt_error : option string }.

Inductive GuardRequest :=
  | RInput (contextBytes : Z)
  | RModel (round : Z) (modelTurn : ModelTurn)
  | RStart
  | RTurn (round maxTurns : Z) (connectors : bool)
  | RBefore (tool arguments : string)
  | RAfter (tool arguments content : string) (failed : bool)
  | RCoding (content : string) (failed : bool)
  | RFinish (phase : FinishPhase) (text : string).

Record GuardResponse := {
  a_enabled : bool; a_codingDue : bool; a_decisionRound : Z; a_mustDecide : option bool; a_nudge : option string;
  a_withhold : option bool; a_handled : option bool; a_content : option string; a_failed : option bool;
  a_reply : option string; a_transferred : option bool; a_error : option string }.

(** The truth value of an optional string and of an optional flag. *)
Definition truthy_opt (o : option string) : bool := truthy (o ?? "").
Definition Boolean (o : option bool) : bool := o ?? false.

Definition startCodingSessionTool : string := "start_coding_session".

Definition isConnectorTool (name : string) : bool := startsWith "external_" name.

Section Guard.
(** [JSON.parse]; [None] when it throws. *)
Context (JSON_parse : string -> option json).

Definition isErrorOutput (text : string) : bool :=
  if startsWith "An error occurred while running the tool" text || startsWith "Error: " text then true
  else match JSON_parse text with
       | Some (JObj fs) =>
           match map_get "error" fs with
           | Some (JStr _) => (length (map_keys fs) =? 1)%nat
           | _ => false
           end
       | _ => false
       end.

(** ** Error flags of tool results *)

Fixpoint stableJson (v : json) : string :=
  match v with
  | JArr l => "[" +:+ join "," (map stableJson l) +:+ "]"
  | JObj fs =>
      let shown := map (fun p => (fst p, stableJson (snd p))) fs in
      let keys := sort_strings (map fst fs) in
      "{" +:+ join "," (map (fun key => quote key +:+ ":" +:+ (map_get key shown ?? "")) keys) +:+ "}"
  | _ => stringify_json v
  end.

(** The arguments of a call: a JSON text or a value ([None] is [undefined]). *)
Inductive Args := ArgText (s : string) | ArgValue (v : option json).

Definition nul : string := String (ascii_of_nat 0) EmptyString.

(** [value ?? {}] *)
Definition or_empty (v : option json) : json :=
  match v with None | Some JNull => JObj [] | Some v => v end.

Definition flagKey (tool : string) (args : Args) : string :=
  match args with
  | ArgText s =>
      match JSON_parse (if truthy s then s else "{}") with
      | Some v => tool +:+ nul +:+ stableJson (or_empty (Some v))
      | None => tool +:+ nul +:+ s
      end
  | ArgValue v => tool +:+ nul +:+ stableJson (or_empty v)
  end.

Definition ToolErrorFlags : Type := list (string * list bool).

(** [list.slice(-8)] *)
Definition last8 (l : list bool) : list bool := drop (length l - 8) l.

Definition record (tool : string) (args : Args) (isError : bool) (flags : ToolErrorFlags) : ToolErrorFlags :=
  let key := flagKey tool args in
  map_set key (last8 ((map_get key flags ?? []) ++ [isError])) flags.

(** The list in the map is the one [shift] shortens; it is deleted when it becomes empty. *)
Definition take_flag (tool : string) (args : Args) (flags : ToolErrorFlags) : option bool * ToolErrorFlags :=
  let key := flagKey tool args in
  match map_get key flags with
  | None => (None, flags)
  | Some [] => (None, map_delete key flags)
  | Some (flag :: rest) =>
      (Some flag, match rest with [] => map_delete key flags | _ => map_set key rest flags end)
  end.

Definition outputText (output : json) : string :=
  let is_text item := match field "type" item with Some (JStr t) => t =s "text" | _ => false end in
  let text_of item := match field "text" item with Some t => join_text t | None => "" end in
  match output with
  | JStr s => s
  | _ =>
      let items := match output with JArr l => l | v => [v] end in
      if forallb is_text items then join (String (ascii_of_nat 10) EmptyString) (map text_of items)
      else stringify_json output
  end.

(** ** The guard *)

Record View := mkView { v_enabled : bool; v_codingDue : bool; v_decisionRound : Z }.

Record RunGuard := mkGuard {
  round : Z; decisionCut : bool; outcomeNudged : bool; nudges : list string; repeatNudges : bool;
  view : View; turnAsked : Z; withdraw : bool; withhold : bool; nudge : option string;
  maxTurns : Z; toolErrors : option ToolErrorFlags }.

Definition maxNudges : nat := 6.

Definition new_guard (maxTurns : Z) (toolErrors : option ToolErrorFlags) : RunGuard :=
  mkGuard 0 false false [] false (mkView false false (-1)) (-1) false false None maxTurns toolErrors.

Definition enabled (g : RunGuard) : bool := v_enabled (view g).

Definition set_view (v : View) (g : RunGuard) : RunGuard :=
  mkGuard (round g) (decisionCut g) (outcomeNudged g) (nudges g) (repeatNudges g) v (turnAsked g) (withdraw g)
    (withhold g) (nudge g) (maxTurns g) (toolErrors g).
Definition set_turn (asked : Z) (wd wh : bool) (n : option string) (g : RunGuard) : RunGuard :=
  mkGuard (round g) (decisionCut g) (outcomeNudged g) (nudges g) (repeatNudges g) (view g) asked wd wh n (maxTurns g) (toolErrors g).
Definition set_nudge (n : option string) (g : RunGuard) : RunGuard :=
  set_turn (turnAsked g) (withdraw g) (withhold g) n g.
Definition set_cut (g : RunGuard) : RunGuard :=
  mkGuard (round g) true (outcomeNudged g) (nudges g) (repeatNudges g) (view g) (turnAsked g) (withdraw g)
    (withhold g) (nudge g) (maxTurns g) (toolErrors g).
Definition set_nudges (ns : list string) (g : RunGuard) : RunGuard :=
  mkGuard (round g) (decisionCut g) true ns (repeatNudges g) (view g) (turnAsked g) (withdraw g)
    (withhold g) (nudge g) (maxTurns g) (toolErrors g).
Definition set_repeatNudges (rep : bool) (g : RunGuard) : RunGuard :=
  mkGuard (round g) (decisionCut g) (outcomeNudged g) (nudges g) rep (view g) (turnAsked g) (withdraw g)
    (withhold g) (nudge g) (maxTurns g) (toolErrors g).
Definition set_toolErrors (f : option ToolErrorFlags) (g : RunGuard) : RunGuard :=
  mkGuard (round g) (decisionCut g) (outcomeNudged g) (nudges g) (repeatNudges g) (view g) (turnAsked g) (withdraw g)
    (withhold g) (nudge g) (maxTurns g) f.

(** One guard operation: Flow's answer refreshes the view when the guard is on, or on [start]. *)
Definition call (request : GuardRequest) (answer : option GuardResponse) (g : RunGuard) : RunGuard :=
  match answer with
  | None => g
  | Some a =>
      let is_start := match request with RStart => true | _ => false end in
      if is_start || enabled g then set_view (mkView (a_enabled a) (a_codingDue a) (a_decisionRound a)) g else g
  end.

Definition start (answer : option GuardResponse) (g : RunGuard) : RunGuard := call RStart answer g.

(** *** Tool guardrails *)

Inductive GuardrailOutput := Allow | RejectContent (content : string).

(** [guard] is the guard of the run's context ([None]: the context has none).  The result is
    the output, the request sent and the guard afterwards. *)
Definition beforeGuardrail (guard : option RunGuard) (name : string) (arguments : option string)
  (answer : option GuardResponse) : GuardrailOutput * option RunGuard :=
  match guard with
  | Some g =>
      if enabled g then
        let g' := call (RBefore name (arguments ?? "")) answer g in
        (match answer with
         | Some a => if Boolean (a_handled a) then RejectContent (a_content a ?? "") else Allow
         | None => Allow
         end, Some g')
      else (Allow, guard)
  | None => (Allow, None)
  end.

Definition afterGuardrail (guard : option RunGuard) (name : string) (arguments : option string) (output : json)
  (answer : option GuardResponse) : GuardrailOutput * option GuardRequest * option RunGuard :=
  match guard with
  | Some g =>
      if enabled g then
        let content := outputText output in
        let '(flagged, flags') :=
          match toolErrors g with
          | Some flags => let '(f, fl) := take_flag name (ArgText (arguments ?? "")) flags in (f, Some fl)
          | None => (None, None)
          end in
        let failed := bool_decide (flagged = Some true) || isErrorOutput content in
        let request := RAfter name (arguments ?? "") content failed in
        (Allow, Some request, Some (call request answer (set_toolErrors flags' g)))
      else (Allow, None, guard)
  | None => (Allow, None, None)
  end.

Definition codingGuardrail (guard : option RunGuard) (output : json) (answer : option GuardResponse)
  : GuardrailOutput * option RunGuard :=
  match guard with
  | Some g =>
      if enabled g then
        let content := outputText output in
        let g' := call (RCoding content (isErrorOutput content)) answer g in
        (match answer with
         | Some a => if truthy_opt (a_content a) && negb (a_content a ?? "" =s content)
                     then RejectContent (a_content a ?? "") else Allow
         | None => Allow
         end, Some g')
      else (Allow, guard)
  | None => (Allow, None)
  end.
End Guard.

(** *** The tools of a turn *)

(** A tool of the SDK; guardrails are told apart by their names. *)
Record Tool := mkTool {
  t_function : bool; t_name : string; inputGuardrails : option (list string); outputGuardrails : option (list string) }.

Definition before_name : string := "flow_run_guard_before".
Definition after_name : string := "flow_run_guard_after".
Definition coding_name : string := "flow_run_guard_coding".

Definition attach (l : option (list string)) (guardrail : string) : list string :=
  let items := l ?? [] in
  if existsb (String.eqb guardrail) items then items else items ++ [guardrail].

(** The body of the loop: the tool as offered, [None] when it is left out. *)
Definition offer (g : RunGuard) (tool : Tool) : option Tool :=
  if withhold g && t_function tool then None
  else if negb (t_function tool) then Some tool
  else if isConnectorTool (t_name tool) then
    if withdraw g then None
    else Some (mkTool true (t_name tool) (Some (attach (inputGuardrails tool) before_name))
                 (Some (attach (outputGuardrails tool) after_name)))
  else if t_name tool =s startCodingSessionTool
       then Some (mkTool true (t_name tool) (inputGuardrails tool) (Some (attach (outputGuardrails tool) coding_name)))
       else Some tool.

(** Asks Flow once per round. *)
Definition ask_turn (connectors : bool) (answer : option GuardResponse) (g : RunGuard) : RunGuard :=
  if (turnAsked g =? round g)%Z then g
  else
    let g' := call (RTurn (round g) (maxTurns g) connectors) answer g in
    match answer with
    | Some a => set_turn (round g) (Boolean (a_mustDecide a)) (Boolean (a_withhold a))
                  (if truthy_opt (a_nudge a) then a_nudge a else nudge g') g'
    | None => set_turn (round g) false false (nudge g') g'
    end.

Definition tools (ts : list Tool) (answer : option GuardResponse) (g : RunGuard) : list Tool * RunGuard :=
  if negb (enabled g) then (ts, g)
  else
    let connectors := existsb (fun t => t_function t && isConnectorTool (t_name t)) ts in
    let g' := ask_turn connectors answer g in
    (omap (offer g') ts, g').

(** *** The items of a turn *)

(** The output of a tool result: a text, a text item, a list of items, or something else. *)
Inductive ResultOutput :=
  | OutString (s : string)
  | OutText (text : string)
  | OutList (items : list json)
  | OutOther (v : json).

Inductive Item :=
  | CallResult (callId : string) (output : ResultOutput)
  | FunctionCall (name : string)
  | Message (text : string)
  | OtherItem (type : string).

Definition append_nudge (n : string) (output : ResultOutput) : option ResultOutput :=
  match output with
  | OutString s => Some (OutString (s +:+ n))
  | OutText s => Some (OutText (s +:+ n))
  | OutList items => Some (OutList (items ++ [JObj [("type", JStr "input_text"); ("text", JStr n)]]))
  | OutOther _ => None
  end.

Definition input (items : list Item) (g : RunGuard) : list Item * RunGuard :=
  let g' := set_nudge None g in
  match nudge g with
  | Some n =>
      if truthy n then
        match last items with
        | Some (CallResult id output) =>
            match append_nudge n output with
            | Some next => (take (length items - 1) items ++ [CallResult id next], g')
            | None => (items, g')
            end
        | _ => (items, g')
        end
      else (items, g')
  | None => (items, g')
  end.

Definition is_call (i : Item) : bool := match i with FunctionCall _ => true | _ => false end.
Definition is_message (i : Item) : bool := match i with Message _ => true | _ => false end.
Definition enters_coding (i : Item) : bool :=
  match i with FunctionCall n => (n =s startCodingSessionTool) || (n =s "ask_user") | _ => false end.

Definition output (items : list Item) (g : RunGuard) : list Item * RunGuard :=
  let calls := List.filter is_call items in
  if negb (enabled g) || negb (round g =? v_decisionRound (view g))%Z || negb (v_codingDue (view g))
     || (length calls =? 0)%nat then (items, g)
  else if existsb enters_coding calls then (items, g)
  else
    let kept := List.filter (fun i => negb (is_call i)) items in
    (if existsb is_message kept then kept else kept ++ [Message ""], set_cut g).

(** *** The last word *)

Record FinishResult := mkFinish { f_reply : string; f_error : option string; f_transferred : bool; f_nudge : option string }.

Definition follows (phase : FinishPhase) (a : GuardResponse) (g : RunGuard) : bool :=
  bool_decide (phase = ph_reply) && truthy_opt (a_nudge a) && negb (truthy_opt (a_reply a))
  && (length (nudges g) <? maxNudges)%nat
  && (repeatNudges g || negb (existsb (String.eqb (a_nudge a ?? "")) (nudges g))).

Definition finish (phase : FinishPhase) (text : string) (answer : option GuardResponse) (g : RunGuard)
  : FinishResult * RunGuard :=
  if negb (enabled g) then
    (if bool_decide (phase = ph_turnLimit) then mkFinish "" None false None else mkFinish text None false None, g)
  else
    let g' := call (RFinish phase text) answer g in
    match answer with
    | None => (mkFinish text None false None, g')
    | Some a =>
        if truthy_opt (a_error a) then (mkFinish "" (a_error a) false None, g')
        else if follows phase a g' then
          (mkFinish "" None false (a_nudge a), set_nudges (nudges g' ++ [a_nudge a ?? ""]) g')
        else (mkFinish (if truthy_opt (a_reply a) then a_reply a ?? "" else text) None (Boolean (a_transferred a)) None, g')
    end.

(** ** Properties *)

(** *** Nudges *)

Lemma call_frame r answer g :
  nudges (call r answer g) = nudges g /\ repeatNudges (call r answer g) = repeatNudges g
  /\ round (call r answer g) = round g /\ turnAsked (call r answer g) = turnAsked g.
Proof. unfold call. destruct answer; [|done]. by destruct (_ || _). Qed.

(** The nudges a sequence of last words is sent back with, Flow answering as it likes. *)
Fixpoint finishes (l : list (FinishPhase * string * option GuardResponse)) (g : RunGuard) : list string * RunGuard :=
  match l with
  | [] => ([], g)
  | (phase, text, answer) :: r =>
      let '(res, g1) := finish phase text answer g in
      let '(ns, g2) := finishes r g1 in
      (match f_nudge res with Some n => n :: ns | None => ns end, g2)
  end.

Lemma finish_nudges phase text answer g :
  let '(res, g') := finish phase text answer g in
  repeatNudges g' = repeatNudges g /\
  (f_nudge res = None /\ nudges g' = nudges g
   \/ exists n, f_nudge res = Some n /\ nudges g' = nudges g ++ [n] /\ (length (nudges g) < maxNudges)%nat
        /\ (repeatNudges g = false -> n ∉ nudges g)).
Proof.
  unfold finish. destruct (negb (enabled g)); [split; [done|]; left; by destruct (bool_decide _)|].
  destruct (call_frame (RFinish phase text) answer g) as (Hn & Hr & _ & _). set (g' := call _ _ _) in *.
  destruct answer as [a|]; [|by split; [|left]]. destruct (truthy_opt (a_error a)); [by split; [|left]|].
  destruct (follows phase a g') eqn:Hf; [|by split; [|left]]. split; [done|]. right.
  unfold follows in Hf. breflect. destruct (a_nudge a) as [n|] eqn:Ha; [|done]. exists n. simpl. rewrite Hn in *.
  repeat split; try done. intros Hrep. rewrite Hr, Hrep in *. simpl in *. breflect. intros Hin.
  match goal with H : existsb _ _ = false |- _ => apply not_true_iff_false in H; apply H end.
  apply existsb_exists. exists n. split; [by apply list_elem_of_In | apply String.eqb_refl].
Qed.

(** Whatever Flow answers, the run is sent back to the model at most
    six times in all, and, unless it repeats nudges, never twice with the same nudge: the loop that
    follows the nudges ends. *)
Theorem run_guard_nudges_bounded l maxT flags rep answer :
  let g := start answer (set_repeatNudges rep (new_guard maxT flags)) in
  let ns := fst (finishes l g) in
  (length ns <= maxNudges)%nat /\ (rep = false -> NoDup ns).
Proof.
  assert (Hgen : forall l g, (length (nudges g) <= maxNudges)%nat ->
    let '(ns, g') := finishes l g in
    (length (nudges g) + length ns <= maxNudges)%nat
    /\ (repeatNudges g = false -> NoDup (nudges g) -> NoDup (nudges g ++ ns))).
  { clear. induction l as [|[[phase text] answer] l IH]; intros g Hg; simpl.
    { rewrite app_nil_r. split; [lia | done]. }
    pose proof (finish_nudges phase text answer g) as Hf. destruct (finish phase text answer g) as [res g1].
    destruct Hf as [Hrep Hf]. specialize (IH g1). destruct (finishes l g1) as [ns g2].
    destruct Hf as [[-> Hn]|(n & -> & Hn & Hlt & Hfresh)]; rewrite Hn, ?Hrep in IH.
    - by apply IH.
    - rewrite length_app in IH. simpl in *. destruct IH as [IH1 IH2]; [lia|]. split; [lia|]. intros Hr Hnd.
      change (n :: ns) with ([n] ++ ns). rewrite app_assoc. apply IH2; [done|]. apply NoDup_app. split; [done|].
      split; [|apply NoDup_singleton]. intros x Hx ->%list_elem_of_singleton. by apply Hfresh. }
  intros g ns. destruct (call_frame RStart answer (set_repeatNudges rep (new_guard maxT flags))) as (Hn & Hr & _ & _).
  change (nudges g = []) in Hn. change (repeatNudges g = rep) in Hr.
  specialize (Hgen l g). rewrite Hn, Hr in Hgen. specialize (Hgen ltac:(simpl; unfold maxNudges; lia)). unfold ns.
  destruct (finishes l g) as [ns' g']. simpl in *. destruct Hgen as [H1 H2]. split; [done|]. intros ->. apply H2; [done | constructor].
Qed.

(** *** Tools *)

Definition allowed (g : RunGuard) (t : Tool) : bool :=
  negb (t_function t) || (negb (withhold g) && negb (withdraw g && isConnectorTool (t_name t))).

(** The guardrails a function tool must carry when it is offered. *)
Definition guarded (t : Tool) : Prop :=
  t_function t = true ->
  (isConnectorTool (t_name t) = true -> before_name ∈ (inputGuardrails t ?? []) /\ after_name ∈ (outputGuardrails t ?? []))
  /\ (t_name t = startCodingSessionTool -> coding_name ∈ (outputGuardrails t ?? [])).

Lemma attach_elem l x : x ∈ attach l x.
Proof.
  unfold attach. destruct (existsb (String.eqb x) (l ?? [])) eqn:He.
  - apply existsb_exists in He as (y & Hy & ->%String.eqb_eq). by apply list_elem_of_In.
  - apply elem_of_app. right. by apply list_elem_of_singleton.
Qed.

Lemma attach_attach l x : attach (Some (attach l x)) x = attach l x.
Proof.
  unfold attach at 1. simpl. destruct (existsb (String.eqb x) (attach l x)) eqn:He; [done|].
  apply not_true_iff_false in He. exfalso. apply He, existsb_exists. exists x.
  split; [apply list_elem_of_In, attach_elem | apply String.eqb_refl].
Qed.

Lemma offer_spec g t :
  match offer g t with
  | Some t' => allowed g t = true /\ t_name t' = t_name t /\ guarded t' /\ offer g t' = Some t'
  | None => allowed g t = false
  end.
Proof.
  destruct t as [fn name ins outs]. unfold offer, allowed, guarded. simpl.
  destruct fn; simpl; rewrite ?andb_false_r; [|done].
  destruct (withhold g); simpl; [done|]. destruct (isConnectorTool name) eqn:Hc.
  - destruct (withdraw g); simpl; [done|]. rewrite Hc. rewrite !attach_attach. repeat split; auto using attach_elem.
    intros ->. done.
  - rewrite andb_false_r. simpl. destruct (name =s startCodingSessionTool) eqn:Hs; simpl; rewrite Hc, Hs, ?attach_attach;
      repeat split; auto using attach_elem; try done. by apply String.eqb_neq in Hs.
Qed.

Lemma ask_turn_asked connectors answer g :
  let g' := ask_turn connectors answer g in turnAsked g' = round g' /\ (forall c a, ask_turn c a g' = g').
Proof.
  intros g'. assert (Ha : turnAsked g' = round g').
  { unfold g', ask_turn. destruct (turnAsked g =? round g)%Z eqn:E; breflect; [done|].
    destruct (call_frame (RTurn (round g) (maxTurns g) connectors) answer g) as (_ & _ & Hr & _). by destruct answer. }
  split; [done|]. intros c a. unfold ask_turn. by rewrite (proj2 (Z.eqb_eq _ _) Ha).
Qed.

Lemma offers_spec g ts :
  map t_name (omap (offer g) ts) = map t_name (List.filter (allowed g) ts)
  /\ Forall guarded (omap (offer g) ts) /\ omap (offer g) (omap (offer g) ts) = omap (offer g) ts.
Proof.
  induction ts as [|t ts (IH1 & IH2 & IH3)]; [done|]. rewrite omap_cons. cbn [List.filter].
  pose proof (offer_spec g t) as Ht. destruct (offer g t) as [t'|] eqn:Ho; [|by rewrite Ht].
  destruct Ht as (-> & Hn & Hg & Hi). rewrite omap_cons, Hi, IH3. simpl. rewrite Hn, IH1. auto.
Qed.

(** The tools a guarded turn offers are, in order, those Flow has not
    withdrawn: no function tool when Flow withholds them, no connector tool once the run must
    decide.  Every connector tool offered carries the guardrails before and after its calls, and
    start_coding_session its own; Flow is asked once per round, and asking for the tools again
    in the same round, on the tools already guarded, changes nothing. *)
Theorem run_guard_tools ts answer g :
  enabled g = true ->
  let '(offered, g') := tools ts answer g in
  map t_name offered = map t_name (List.filter (allowed g') ts)
  /\ Forall guarded offered
  /\ (forall a, answer = Some a -> turnAsked g <> round g ->
        withdraw g' = Boolean (a_mustDecide a) /\ withhold g' = Boolean (a_withhold a))
  /\ turnAsked g' = round g'
  /\ forall answer', tools offered answer' g' = (offered, g').
Proof.
  intros He. unfold tools at 1. rewrite He. simpl.
  set (g' := ask_turn _ answer g). destruct (offers_spec g' ts) as (H1 & H2 & H3).
  destruct (ask_turn_asked (existsb (fun t => t_function t && isConnectorTool (t_name t)) ts) answer g) as [Ha Hi].
  fold g' in Ha, Hi. repeat split; try done.
  - unfold g', ask_turn. destruct (Z.eqb_spec (turnAsked g) (round g)); [done|]. by simplify_eq.
  - unfold g', ask_turn. destruct (Z.eqb_spec (turnAsked g) (round g)); [done|]. by simplify_eq.
  - intros answer'. unfold tools. rewrite Hi, H3. by destruct (enabled g').
Qed.

(** *** Error flags *)

Section Flags.
Context (JSON_parse : string -> option json).

Inductive FlagOp := FRecord (tool : string) (args : Args) (isError : bool) | FTake (tool : string) (args : Args).

(** What the takes of a sequence of operations return. *)
Fixpoint run_flags (ops : list FlagOp) (flags : ToolErrorFlags) : list (option bool) :=
  match ops with
  | [] => []
  | FRecord t a e :: r => run_flags r (record JSON_parse t a e flags)
  | FTake t a :: r => let '(f, flags') := take_flag JSON_parse t a flags in f :: run_flags r flags'
  end.

(** The contract: for each key the queue of its last eight unread flags. *)
Fixpoint run_spec (ops : list FlagOp) (queues : string -> list bool) : list (option bool) :=
  match ops with
  | [] => []
  | FRecord t a e :: r =>
      let k := flagKey JSON_parse t a in
      run_spec r (fun k' => if k' =s k then last8 (queues k ++ [e]) else queues k')
  | FTake t a :: r =>
      let k := flagKey JSON_parse t a in
      head (queues k) :: run_spec r (fun k' => if k' =s k then tail (queues k) else queues k')
  end.

(** The map stands for the queues: an absent key for an empty queue. *)
Definition represents (flags : ToolErrorFlags) (queues : string -> list bool) : Prop :=
  NoDup (map_keys flags) /\ forall k, map_get k flags ?? [] = queues k.

Lemma represents_set flags queues k l :
  represents flags queues -> represents (map_set k l flags) (fun k' => if k' =s k then l else queues k').
Proof.
  intros [Hn Hq]. split; [by apply map_set_NoDup|]. intros k'. destruct (String.eqb_spec k' k) as [->|Hne].
  - by rewrite map_get_set_eq.
  - by rewrite map_get_set_ne.
Qed.

Lemma represents_delete flags queues k :
  represents flags queues -> represents (map_delete k flags) (fun k' => if k' =s k then [] else queues k').
Proof.
  intros [Hn Hq]. split; [by apply map_delete_NoDup|]. intros k'. destruct (String.eqb_spec k' k) as [->|Hne].
  - by rewrite map_get_delete_eq.
  - by rewrite map_get_delete_ne.
Qed.

Lemma run_spec_ext ops q q' : (forall k, q k = q' k) -> run_spec ops q = run_spec ops q'.
Proof.
  revert q q'. induction ops as [|[t a e|t a] ops IH]; intros q q' H; simpl; [done| |]; rewrite !H; [|f_equal]; apply IH;
    intros k; case_match; auto.
Qed.

Lemma run_flags_refines ops flags queues : represents flags queues -> run_flags ops flags = run_spec ops queues.
Proof.
  revert flags queues. induction ops as [|[t a e|t a] ops IH]; intros flags queues Hr; simpl; [done| |].
  - apply IH. unfold record. destruct Hr as [Hn Hq]. rewrite Hq. by apply represents_set.
  - unfold take_flag. set (k := flagKey JSON_parse t a). pose proof (proj2 Hr k) as Hk.
    destruct (map_get k flags) as [[|f [|f' rest]]|] eqn:Hg; simpl in Hk; rewrite <- Hk; simpl; f_equal;
      apply IH; try by (apply represents_set || apply represents_delete).
    destruct Hr as [Hn Hq]. split; [done|]. intros k'. destruct (String.eqb_spec k' k) as [->|]; [by rewrite Hg | done].
Qed.

Lemma stableJson_perm fs gs : Permutation fs gs -> NoDup (map fst fs) -> stableJson (JObj fs) = stableJson (JObj gs).
Proof.
  intros Hp Hn. simpl. rewrite (sort_strings_perm (map fst fs) (map fst gs)) by (by apply Permutation_map).
  do 3 f_equal. apply map_ext. intros k. do 3 f_equal. apply (f_equal (default "")), map_get_perm.
  - by apply Permutation_map.
  - rewrite map_map. simpl. exact Hn.
Qed.

(** The error flags refine one queue per tool and arguments: whatever the
    interleaving of recording and taking, [take] returns the earliest unread flag of its key among
    the last eight, and undefined when there is none; and arguments that list the same properties
    in another order have the same key. *)
Theorem tool_flags_refine ops tool fs gs :
  Permutation fs gs -> NoDup (map fst fs) ->
  run_flags ops [] = run_spec ops (fun _ => [])
  /\ flagKey JSON_parse tool (ArgValue (Some (JObj fs))) = flagKey JSON_parse tool (ArgValue (Some (JObj gs))).
Proof.
  intros Hp Hn. split.
  - apply run_flags_refines. split; [constructor | done].
  - unfold flagKey, or_empty. by rewrite (stableJson_perm fs gs).
Qed.
End Flags.

Lemma tool_flags_refine_witness :
  let fs := [("b", JNum (QArith_base.inject_Z 1)); ("a", JStr "x")] in let gs := [("a", JStr "x"); ("b", JNum (QArith_base.inject_Z 1))] in
  run_flags (fun _ => None) [FRecord "t" (ArgValue (Some (JObj fs))) true; FTake "t" (ArgValue (Some (JObj gs)));
                             FTake "t" (ArgValue (Some (JObj gs)))] [] = [Some true; None]
  /\ flagKey (fun _ => None) "t" (ArgValue (Some (JObj fs))) = flagKey (fun _ => None) "t" (ArgValue (Some (JObj gs))).
Proof.
  intros fs gs. split; [vm_compute; reflexivity|].
  refine (proj2 (tool_flags_refine (fun _ => None) [] "t" fs gs _ _)); [apply perm_swap|].
  apply (bool_decide_unpack _). vm_compute. exact I.
Defined.

Lemma run_guard_tools_witness :
  let a := {| a_enabled := true; a_codingDue := true; a_decisionRound := 0; a_mustDecide := Some true; a_nudge := Some "decide";
              a_withhold := None; a_handled := None; a_content := None; a_failed := None; a_reply := None;
              a_transferred := None; a_error := None |} in
  let g := start (Some a) (new_guard 8 None) in
  let ts := [mkTool true "external_1" None None; mkTool true "start_coding_session" None None] in
  map t_name (fst (tools ts (Some a) g)) = ["start_coding_session"] /\ Forall guarded (fst (tools ts (Some a) g)).
Proof.
  intros a g ts. split; [vm_compute; reflexivity|].
  pose proof (run_guard_tools ts (Some a) g ltac:(vm_compute; reflexivity)) as H.
  destruct (tools ts (Some a) g) as [offered g']. exact (proj1 (proj2 H)).
Defined.
