(* ===== verification/History.v ===== *)
(** * History compaction and approvals of the agent worker
    (agent-worker/src/history.ts, policy.ts)

    Before every model call the worker shortens old tool results and, when the estimate still
    exceeds the budget, drops whole requests from the front.  Items are JSON values, the estimate
    is the length of their JSON text.  The loop has fuel, one unit per round; with at least one
    request to keep the number of user messages is enough. *)

From Stdlib Require Import ZArith Lia Bool List Ascii.
From stdpp Require Import base list strings.
From S2P Require Import Prelude JsString JsMap Json.

Record CompactionOptions := { maxOldResultChars : nat; budgetTokens : Z; keepRequests : nat }.

(** [Math.floor(contextWindow * 0.6)], in whole numbers. *)
Definition defaultCompaction (contextWindow : Z) : CompactionOptions :=
  {| maxOldResultChars := Z.to_nat 6000; budgetTokens := (contextWindow * 6 / 10)%Z; keepRequests := 4 |}.

Definition has_string (key value : string) (item : json) : bool :=
  match field key item with Some (JStr s) => s =s value | _ => false end.

Definition isUser (item : json) : bool := has_string "type" "message" item && has_string "role" "user" item.

(** [Math.ceil(JSON.stringify(items).length / 3.5)] *)
Definition estimateTokens (items : list json) : Z :=
  ((2 * Z.of_nat (String.length (stringify_json (JArr items))) + 6) / 7)%Z.

(** [items.findLastIndex(isUser)]; -1 when there is none. *)
Fixpoint lastUserIndex (items : list json) : Z :=
  match items with
  | [] => -1
  | i :: r =>
      let k := lastUserIndex r in
      if (0 <=? k)%Z then (k + 1)%Z else if isUser i then 0%Z else (-1)%Z
  end.

(** The text of a tool result: a string or a text item. *)
Definition result_text (item : json) : option string :=
  match field "output" item with
  | Some (JStr s) => Some s
  | Some o => if has_string "type" "text" o then match field "text" o with Some (JStr s) => Some s | _ => None end else None
  | None => None
  end.

(** The horizontal ellipsis of the note, one code unit. *)
Definition ellipsis : ascii := ascii_of_nat 133.

Definition cut_text (text : string) : string :=
  slice 0 1500 text +:+ String (ascii_of_nat 10) (String ellipsis " [")
  +:+ showZ (Z.of_nat (String.length text) - 1500)
  +:+ " more characters from an earlier turn were elided; call the tool again if you need them]".

(** [{ ...item, output }] *)
Definition with_output (output item : json) : json :=
  match item with JObj fs => JObj (map_set "output" output fs) | _ => item end.

(** The callback of the map: [Some] new item when the result is cut. *)
Definition elide (options : CompactionOptions) (lastUser index : Z) (item : json) : option json :=
  if (lastUser <=? index)%Z || negb (has_string "type" "function_call_result" item) then None
  else match result_text item with
       | Some text =>
           if (String.length text <=? maxOldResultChars options)%nat then None
           else Some (with_output (JObj [("type", JStr "text"); ("text", JStr (cut_text text))]) item)
       | None => None
       end.

Fixpoint elide_all (options : CompactionOptions) (lastUser index : Z) (items : list json) : list json * Z :=
  match items with
  | [] => ([], 0%Z)
  | item :: r =>
      let '(r', n) := elide_all options lastUser (index + 1) r in
      match elide options lastUser index item with
      | Some cut => (cut :: r', (n + 1)%Z)
      | None => (item :: r', n)
      end
  end.

(** The indices of the user messages. *)
Fixpoint starts_from (k : nat) (items : list json) : list nat :=
  match items with
  | [] => []
  | i :: r => (if isUser i then [k] else []) ++ starts_from (S k) r
  end.

(** [items.slice(starts[1])]; [slice(undefined)] is the whole array. *)
Definition drop_request (items : list json) : list json :=
  match starts_from 0 items with
  | _ :: second :: _ => drop second items
  | _ => items
  end.

Fixpoint drop_loop (fuel : nat) (options : CompactionOptions) (items : list json) (dropped : Z) : option (list json * Z) :=
  if (budgetTokens options <? estimateTokens items)%Z then
    if (length (starts_from 0 items) <=? keepRequests options)%nat then Some (items, dropped)
    else match fuel with
         | O => None
         | S fuel' => drop_loop fuel' options (drop_request items) (dropped + 1)
         end
  else Some (items, dropped).

Record Compaction := mkCompaction { c_input : list json; c_elided : Z; c_dropped : Z }.

Definition compactHistory (fuel : nat) (input : list json) (options : CompactionOptions) : option Compaction :=
  let lastUser := lastUserIndex input in
  let '(items, elided) := elide_all options lastUser 0 input in
  match drop_loop fuel options items 0 with
  | Some (items', dropped) => Some (mkCompaction items' elided dropped)
  | None => None
  end.

(** ** Approvals (policy.ts) *)

(** The connector tools set to always ask; [None] when the run's context has no such list. *)
Definition approvalKind (alwaysAskTools : option (list string)) (tool : string) : bool :=
  startsWith "external_" tool && existsb (String.eqb tool) (alwaysAskTools ?? []).

Definition approvalPreview (calls : list string) : string :=
  "Run " +:+ join ", " (map (fun name => "**" +:+ name +:+ "**") calls) +:+ " with an external connector?".

(** ** Properties *)

Definition users (items : list json) : nat := length (starts_from 0 items).

Lemma map_get_with_output (key : string) o item : key <> "output" -> field key (with_output o item) = field key item.
Proof. destruct item; simpl; try done. intros. by apply map_get_set_ne. Qed.

Lemma isUser_with_output o item : isUser (with_output o item) = isUser item.
Proof. unfold isUser, has_string. by rewrite !map_get_with_output. Qed.

(** What a shortened item keeps: everything but its output. *)
Definition same_but_output (a b : json) : Prop := forall key, key <> "output" -> field key a = field key b.

Lemma elide_all_spec options lastUser k items :
  let '(items', n) := elide_all options lastUser k items in
  length items' = length items
  /\ map isUser items' = map isUser items
  /\ Forall2 same_but_output items' items
  /\ forall i, (lastUser <= k + Z.of_nat i)%Z -> drop i items' = drop i items.
Proof.
  revert k. induction items as [|item items IH]; intros k; simpl; [done|].
  specialize (IH (k + 1)%Z). destruct (elide_all options lastUser (k + 1) items) as [r n].
  destruct IH as (H1 & H2 & H3 & H4).
  assert (Htail : forall i, (lastUser <= k + Z.of_nat (S i))%Z -> drop i r = drop i items) by (intros i Hi; apply H4; lia).
  destruct (elide options lastUser k item) as [cut|] eqn:He; simpl.
  - assert (Hc : (k < lastUser)%Z /\ exists o, cut = with_output o item).
    { unfold elide in He. destruct (Z.leb_spec lastUser k); simpl in He; [done|]. split; [done|]. split_cases. eauto. }
    destruct Hc as [Hk (o & ->)]. rewrite isUser_with_output, H1, H2. split; [done|]. split; [done|]. split.
    + constructor; [|done]. intros key Hkey. by apply map_get_with_output.
    + intros [|i] Hi; simpl; [lia | by apply Htail].
  - rewrite H1, H2. split; [done|]. split; [done|]. split; [by constructor|].
    intros [|i] Hi; simpl; [f_equal; apply (Htail 0%nat); lia | by apply Htail].
Qed.

Lemma starts_from_length k items : length (starts_from k items) = length (List.filter isUser items).
Proof. revert k. induction items as [|i r IH]; intros k; simpl; [done|]. rewrite length_app, IH. by destruct (isUser i). Qed.

Lemma starts_from_spec k items :
  match starts_from k items with
  | [] => Forall (fun i => isUser i = false) items
  | s :: _ => exists n u, s = (k + n)%nat /\ items !! n = Some u /\ isUser u = true
                /\ Forall (fun i => isUser i = false) (take n items)
                /\ starts_from k items = s :: starts_from (S s) (drop (S n) items)
  end.
Proof.
  revert k. induction items as [|i r IH]; intros k; simpl; [constructor|]. destruct (isUser i) eqn:Hi; simpl.
  - exists 0%nat, i. rewrite drop_0. repeat split; try done; lia.
  - specialize (IH (S k)). destruct (starts_from (S k) r) as [|s rest] eqn:Hs; [by constructor|].
    destruct IH as (n & u & -> & Hu & Hus & Hf & Heq). exists (S n), u. repeat split; try done; try lia.
    simpl. by constructor.
Qed.

Lemma users_filter items : users items = length (List.filter isUser items).
Proof. apply starts_from_length. Qed.

Lemma users_app l l' : users (l ++ l') = (users l + users l')%nat.
Proof. by rewrite !users_filter, List.filter_app, length_app. Qed.

Lemma users_none l : Forall (fun i => isUser i = false) l -> users l = 0%nat.
Proof. rewrite users_filter. induction 1 as [|i l Hi _ IH]; simpl; [done|]. by rewrite Hi. Qed.

Lemma users_cons_user u l : isUser u = true -> users (u :: l) = S (users l).
Proof. intros Hu. by rewrite !users_filter; simpl; rewrite Hu. Qed.

(** Dropping a request removes one user message and cuts in front of the next one. *)
Lemma drop_request_spec items : (2 <= users items)%nat ->
  exists p u r, drop_request items = drop p items /\ drop p items = u :: r /\ isUser u = true
    /\ (p <= length items)%nat /\ users items = S (users (drop_request items)).
Proof.
  unfold users at 1, drop_request. pose proof (starts_from_spec 0 items) as H1.
  destruct (starts_from 0 items) as [|s1 ss] eqn:E1; [simpl; lia|]. destruct H1 as (n1 & u1 & Hs1 & Hu1 & Hus1 & Hf1 & Heq).
  injection Heq as Hss. pose proof (starts_from_spec (S s1) (drop (S n1) items)) as H2. rewrite <- Hss in H2.
  destruct ss as [|s2 ss]; [simpl; lia|]. intros _. destruct H2 as (n2 & u2 & Hs2 & Hu2 & Hus2 & Hf2 & _).
  assert (Hd : drop s2 items = u2 :: drop (S s2) items).
  { apply drop_S. rewrite Hs2, Hs1, <- lookup_drop. exact Hu2. }
  exists s2, u2, (drop (S s2) items). split; [done|]. split; [done|]. split; [done|].
  assert (Hlt : (s2 < length items)%nat).
  { apply lookup_lt_Some in Hu2. rewrite length_drop in Hu2. lia. }
  split; [lia|]. rewrite <- (take_drop_middle items n1 u1 Hu1) at 1. rewrite users_app, (users_none _ Hf1), users_cons_user by done.
  simpl. f_equal. rewrite <- (take_drop n2 (drop (S n1) items)) at 1. rewrite users_app, (users_none _ Hf2). simpl.
  f_equal. rewrite drop_drop. f_equal. lia.
Qed.

(** The loop returns; what it returns is the tail from a request on, fits the budget or holds no
    more requests than must be kept, and holds those. *)
Lemma drop_loop_spec fuel options items dropped :
  (1 <= keepRequests options)%nat -> (users items <= fuel)%nat ->
  exists k n, drop_loop fuel options items dropped = Some (drop k items, (dropped + Z.of_nat n)%Z)
    /\ (n = 0%nat /\ k = 0%nat \/ exists u r, drop k items = u :: r /\ isUser u = true)
    /\ users items = (n + users (drop k items))%nat
    /\ (Nat.min (keepRequests options) (users items) <= users (drop k items))%nat
    /\ ((estimateTokens (drop k items) <= budgetTokens options)%Z \/ (users (drop k items) <= keepRequests options)%nat).
Proof.
  intros Hkeep. revert items dropped. induction fuel as [|fuel IH]; intros items dropped Hf; cbn [drop_loop];
    change (length (starts_from 0 items)) with (users items);
    (destruct (budgetTokens options <? estimateTokens items)%Z eqn:Hb; breflect;
     [|exists 0%nat, 0%nat; rewrite drop_0, Z.add_0_r; repeat split; auto; lia]);
    (destruct (users items <=? keepRequests options)%nat eqn:Hk; breflect;
     [exists 0%nat, 0%nat; rewrite drop_0, Z.add_0_r; repeat split; auto; lia|]); [lia|].
  destruct (drop_request_spec items ltac:(lia)) as (p & u & r & Hp & Hd & Hu & Hle & Hn).
  destruct (IH (drop_request items) (dropped + 1)%Z ltac:(lia)) as (k & n & -> & Hhead & Hsum & Hmin & Hend).
  rewrite Hp, drop_drop in *. exists (p + k)%nat, (S n). repeat split; try done; try lia.
  - do 2 f_equal. lia.
  - right. destruct Hhead as [[_ ->]|Hhead]; [|done]. rewrite Nat.add_0_r. eauto.
Qed.

Lemma lastUserIndex_spec items :
  let k := lastUserIndex items in
  (-1 <= k)%Z /\ Forall (fun i => isUser i = false) (drop (Z.to_nat (k + 1)) items).
Proof.
  induction items as [|i r [IH1 IH2]]; simpl; [split; [lia | constructor]|].
  destruct (Z.leb_spec 0 (lastUserIndex r)).
  - split; [lia|]. replace (Z.to_nat (lastUserIndex r + 1 + 1)) with (S (Z.to_nat (lastUserIndex r + 1))) by lia. done.
  - replace (Z.to_nat (lastUserIndex r + 1)) with 0%nat in IH2 by lia. rewrite drop_0 in IH2.
    destruct (isUser i) eqn:Hi; (split; [lia|]); simpl; [by rewrite drop_0 | by constructor].
Qed.

Lemma users_same l l' : map isUser l = map isUser l' -> users l = users l'.
Proof.
  rewrite !users_filter. revert l'. induction l as [|i l IH]; intros [|i' l']; simpl; try done. intros [= Hi Hl].
  rewrite Hi. destruct (isUser i'); simpl; auto.
Qed.

(** Compaction returns (one round per request at most), and what it
    returns is the history from some request on, in order: a cut is made in front of a user
    message, so that calls stay with their results; only the outputs of tool results before the
    last user message are changed; everything from that message on is intact; at least the last
    [keepRequests] requests are kept; and the estimate fits the budget unless no more than those
    are left. *)
Theorem compact_history_correct input options fuel :
  (1 <= keepRequests options)%nat -> (users input <= fuel)%nat ->
  exists c items k, compactHistory fuel input options = Some c
    /\ c_input c = drop k items /\ Forall2 same_but_output items input
    /\ (c_dropped c = 0%Z /\ k = 0%nat \/ exists u r, c_input c = u :: r /\ isUser u = true)
    /\ drop (Z.to_nat (lastUserIndex input)) input `suffix_of` c_input c
    /\ (Nat.min (keepRequests options) (users input) <= users (c_input c))%nat
    /\ c_dropped c = (Z.of_nat (users input) - Z.of_nat (users (c_input c)))%Z
    /\ ((estimateTokens (c_input c) <= budgetTokens options)%Z \/ (users (c_input c) <= keepRequests options)%nat).
Proof.
  intros Hkeep Hf. unfold compactHistory. pose proof (elide_all_spec options (lastUserIndex input) 0 input) as Hel.
  destruct (elide_all options (lastUserIndex input) 0 input) as [items n]. destruct Hel as (Hlen & Hus & Hsame & Htail).
  rewrite <- (users_same _ _ Hus) in *.
  destruct (drop_loop_spec fuel options items 0 Hkeep Hf) as (k & d & -> & Hhead & Hsum & Hmin & Hend).
  eexists _, items, k. split; [reflexivity|]. simpl. split; [done|]. split; [done|].
  split; [destruct Hhead as [[-> ->]|Hhead]; [by left | by right]|]. split; [|repeat split; try done; lia].
  destruct (lastUserIndex_spec input) as [Hl1 Hl2]. set (lu := lastUserIndex input) in *.
  rewrite <- (Htail (Z.to_nat lu)) by lia. assert (Hk : (k <= Z.to_nat lu)%nat).
  { destruct (decide (k <= Z.to_nat lu)%nat) as [|Hgt]; [done|]. exfalso.
    assert (Hz : users (drop k items) = 0%nat).
    { replace k with (Z.to_nat (lu + 1) + (k - Z.to_nat (lu + 1)))%nat by lia. rewrite <- drop_drop.
      rewrite (Htail (Z.to_nat (lu + 1))) by lia. apply users_none. by apply Forall_drop. }
    destruct Hhead as [[-> ->]|(u & r & Hd & Hu)]; [lia|]. rewrite Hd, users_cons_user in Hz by done. lia. }
  exists (drop k (take (Z.to_nat lu) items)). rewrite <- (take_drop (Z.to_nat lu) items) at 1.
  destruct (decide (Z.to_nat lu <= length items)%nat).
  - rewrite drop_app_le; [done|]. rewrite length_take. lia.
  - rewrite (drop_ge items) by lia. by rewrite !app_nil_r.
Qed.

(** With nothing to keep and one long request the loop does not end. *)
Lemma compaction_diverges fuel dropped :
  let options := {| maxOldResultChars := 10; budgetTokens := 1; keepRequests := 0 |} in
  let user := JObj [("type", JStr "message"); ("role", JStr "user")] in
  drop_loop fuel options [user] dropped = None.
Proof. revert dropped. induction fuel as [|fuel IH]; intros dropped; [done|]. apply IH. Qed.

Lemma compact_history_correct_witness :
  let user := JObj [("type", JStr "message"); ("role", JStr "user"); ("content", JStr "do it")] in
  let options := {| maxOldResultChars := 10; budgetTokens := 30; keepRequests := 1 |} in
  let input := [user; JObj [("type", JStr "function_call_result"); ("output", JStr "a long result")]; user] in
  option_map c_input (compactHistory 2 input options) = Some [user]
  /\ exists c, compactHistory 2 input options = Some c /\ (1 <= users (c_input c))%nat.
Proof.
  intros user options input. split; [vm_compute; reflexivity|].
  destruct (compact_history_correct input options 2) as (c & items & k & Hc & _ & _ & _ & _ & Hmin & _);
    [simpl; lia | vm_compute; lia|]. exists c. split; [exact Hc | exact Hmin].
Defined.
