(* ===== verification/TurnScope.v ===== *)
(** * The write scope of a turn (sandbox-runner/src/turn-scope.ts, session.ts)

    What a turn may do to the repository: the classification of its request, the fingerprint of
    the workspace, what counts as a violation of a read-only turn, and which paths the end of a
    write turn commits.  The prompt is a text of UTF-16 code units and is classified by the
    regular expressions of the source; everything else is ASCII strings.  Git and SHA-256 are
    parameters. *)

From Stdlib Require Import ZArith Lia Bool List Ascii.
From stdpp Require Import base list strings.
From S2P Require Import Prelude JsString JsMap Regex JsNumber Json Protocol.

Inductive TurnScope := write | noPublish | readOnly.

#[export] Instance TurnScope_eq_dec : EqDecision TurnScope.
Proof. solve_decision. Defined.

(** The fields of a turn that decide its scope. *)
Record ScopedTurn := mkTurn { turn_prompt : text; turn_kind : string; turn_scope : option string }.

(** ** Classification *)

Definition WRITE_KINDS : list string := ["fixPr"; "rebase"; "lint"; "test"; "configureEnvironment"; "fixEnvironment"].

Definition OBJECT : regex :=
  alts [Seq (lit "repo") (opt (lit "sitory")); Seq (lit "code") (opt (lit "base")); lit "branch";
        seqs [lit "working"; opt (lit " "); lit "tree"]; lit "worktree"; seqs [lit "work"; opt (lit " "); lit "tree"];
        Seq (lit "file") (opt (lit "s")); lit "everything"; lit "state"; lit "pr"; lit "pull request";
        lit "merge request"; lit "mr"; lit "head"].

Definition newline_char : string := String (ascii_of_nat 10) EmptyString.
Definition no_stop : Z -> bool := none_of (".;" +:+ newline_char).
Definition no_stop_zh : Z -> bool := none_of ("。；" +:+ newline_char).
Definition spaces : regex := plus is_white.
Definition zh_dont : regex := words ["不要"; "不得"; "不能"; "别"; "勿"].

Definition READ_ONLY : list regex := [
  seqs [Bound; words ["keep"; "leave"]; Bound; Upto 80 no_stop; Bound; OBJECT; Bound; Upto 60 no_stop; Bound;
        alts [lit "unchanged"; lit "untouched"; seqs [lit "as"; one_of "- "; lit "is"]; lit "intact"; lit "unmodified"; lit "alone"];
        Bound];
  seqs [Bound; words ["do not"; "don't"; "dont"; "without"]; spaces;
        opt (seqs [lit "mak"; words ["e"; "ing"]; spaces]); lit "any"; spaces;
        opt (Alt (Seq (lit "code") spaces) (Seq (lit "file") spaces)); words ["changes"; "modifications"; "edits"]; Bound];
  seqs [Bound; words ["do not"; "don't"; "dont"; "without"]; spaces; words ["chang"; "modif"; "edit"; "touch"; "alter"];
        Star (Cls is_word); spaces;
        alts [lit "anything"; Seq (lit "the repo") (opt (lit "sitory"));
              Seq (lit "any ") (Alt (Seq (lit "file") (opt (lit "s"))) (lit "code"));
              Seq (lit "the code") (opt (lit "base")); lit "the branch";
              seqs [lit "the "; opt (lit "existing "); words ["pr"; "pull request"; "merge request"]]]; Bound];
  seqs [Bound; lit "read"; one_of "- "; lit "only"; Bound];
  seqs [Bound; alts [seqs [lit "verif"; words ["y"; "ication"]; one_of "- "; lit "only"]; lit "only verify"; lit "just verify"]; Bound];
  seqs [lit "保持"; Upto 40 no_stop_zh; words ["不变"; "原样"; "不动"]];
  seqs [zh_dont; Upto 12 no_stop_zh; lit "任何"; words ["修改"; "改动"; "更改"; "变更"; "改变"]];
  seqs [zh_dont; words ["修改"; "改动"; "更改"; "动"];
        alts [lit "仓库"; lit "代码库"; lit "代码"; lit "分支"; lit "任何文件"; lit "任何代码";
              seqs [lit "现有"; Star (Cls is_white); lit "PR"]; lit "PR"]];
  seqs [words ["只"; "仅"]; opt (words ["做"; "进行"; "需要"]); words ["验证"; "核实"; "核对"]];
  lit "只读"].

Definition NO_PUBLISH : list regex := [
  seqs [Bound; words ["do not"; "don't"; "dont"; "never"]; spaces; opt (Seq (lit "git") spaces); words ["commit"; "push"]; Bound];
  seqs [Bound; lit "without"; spaces; words ["committing"; "pushing"]; Bound];
  seqs [zh_dont; words ["提交"; "推送"; "commit"; "push"]]].

Definition inferTurnScope (turn : ScopedTurn) : TurnScope :=
  if existsb (String.eqb (turn_kind turn)) WRITE_KINDS then write
  else if existsb (fun pattern => regex_test pattern (turn_prompt turn)) READ_ONLY then readOnly
  else if existsb (fun pattern => regex_test pattern (turn_prompt turn)) NO_PUBLISH then noPublish
  else write.

(** The scopes of the API. *)
Definition scope_of_string (s : string) : option TurnScope :=
  if s =s "write" then Some write else if s =s "noPublish" then Some noPublish
  else if s =s "readOnly" then Some readOnly else None.

Definition turnScope (turn : ScopedTurn) : TurnScope :=
  match turn_scope turn ≫= scope_of_string with
  | Some s => s
  | None => inferTurnScope turn
  end.

Definition publishes (scope : TurnScope) : bool := bool_decide (scope = write).

(** ** The workspace *)

Record WorkspaceState := mkWorkspace {
  ws_head : string; ws_branch : string; ws_index : string; ws_worktree : string; ws_dirty : list (string * string) }.

Definition nul : string := String (ascii_of_nat 0) EmptyString.

Definition parse_entry (dirty : list (string * string)) (entry : string) : list (string * string) :=
  if (String.length entry <? 4)%nat then dirty
  else map_set (slice_from 3 entry) (slice 0 2 entry) dirty.

Definition parseStatus (output : string) : list (string * string) :=
  fold_left parse_entry (split nul output) [].

Section Workspace.
(** [git(args)]: exit code and standard output; and the hash. *)
Context (git : list string -> Z * string) (hash : string -> string).

Definition git_out (args : list string) : string :=
  let '(code, stdout) := git args in if (code =? 0)%Z then stdout else "".

Definition readWorkspaceState : WorkspaceState :=
  mkWorkspace (trim (git_out ["rev-parse"; "HEAD"])) (trim (git_out ["symbolic-ref"; "--quiet"; "HEAD"]))
    (hash (git_out ["--no-optional-locks"; "diff"; "--cached"; "--binary"; "--no-renames"; "--no-ext-diff"]))
    (hash (git_out ["--no-optional-locks"; "diff"; "--binary"; "--no-renames"; "--no-ext-diff"]))
    (parseStatus (git_out ["--no-optional-locks"; "status"; "--porcelain=v1"; "-z"; "--untracked-files=all"; "--no-renames"])).
End Workspace.

Definition touchedLeftovers (leftovers : list string) (before after : list (string * string)) : list string :=
  List.filter (fun path => negb (bool_decide (map_get path before = map_get path after))) leftovers.

Definition tracked (dirty : list (string * string)) : list string :=
  map fst (List.filter (fun p => negb (snd p =s "??")) dirty).

Definition listPaths (paths : list string) (limit : nat) : string :=
  let shown := join ", " (take limit paths) in
  if (limit <? length paths)%nat
  then shown +:+ " and " +:+ showZ (Z.of_nat (length paths) - Z.of_nat limit) +:+ " more" else shown.

Definition short (sha : string) : string := if truthy sha then slice 0 12 sha else "(none)".

Definition or_detached (branch : string) : string := if truthy branch then branch else "(detached)".

Definition readOnlyViolations (before after : WorkspaceState) : list string * list string :=
  let v1 := if negb (ws_head after =s ws_head before)
            then ["HEAD moved from " +:+ short (ws_head before) +:+ " to " +:+ short (ws_head after)] else [] in
  let v2 := if negb (ws_branch after =s ws_branch before)
            then ["the checked-out branch changed from " +:+ or_detached (ws_branch before) +:+ " to " +:+ or_detached (ws_branch after)] else [] in
  let v3 := if negb (ws_index after =s ws_index before) then ["the index (staged changes) changed"] else [] in
  let v4 :=
    if negb (ws_worktree after =s ws_worktree before)
       || negb (join nul (tracked (ws_dirty after)) =s join nul (tracked (ws_dirty before))) then
      let changed := List.filter (fun path => negb (bool_decide (map_get path (ws_dirty before) = map_get path (ws_dirty after))))
                       (tracked (ws_dirty after)) in
      ["tracked files changed" +:+ match changed with [] => "" | _ => ": " +:+ listPaths changed 10 end]
    else [] in
  let untracked := map fst (List.filter (fun p => (snd p =s "??") && negb (map_has (fst p) (ws_dirty before))) (ws_dirty after)) in
  (v1 ++ v2 ++ v3 ++ v4, untracked).

(** ** What the harness is told *)

Definition scopeGuidance (scope : TurnScope) (leftovers : list string) (includeLeftovers : bool) : string :=
  let lines := ["## Current turn";
    "- The latest user message is the goal of this turn. The issue and earlier turns are background: do not continue earlier work unless the latest message asks for it. Its scope never overrides the sandbox, security or repository rules."] in
  let rules := match scope with
    | readOnly => [
      "- Write scope: read-only. Keep the repository, its index, HEAD and the existing pull/merge request exactly as they are: do not edit, create or delete files in the repository, and do not stage, commit, stash, reset, checkout, rebase, merge or push.";
      "- Put temporary verification files outside the repository (for example under `$TMPDIR`). Flow does not commit or push at the end of this turn.";
      "- If the request cannot be done without changing the repository, do not change it: stop and say so."]
    | noPublish => [
      "- Write scope: you may change files, but do not commit, push or touch the pull/merge request. Flow does not commit or push at the end of this turn; your changes stay uncommitted in the working tree."]
    | write => [
      "- Write scope: you may change the repository for this request. Flow commits the changes made in this turn, pushes the branch and updates the draft pull/merge request when the turn ends."]
    end in
  let earlier := match leftovers with
    | [] => []
    | _ =>
        let had := "- The working tree already had uncommitted changes before this turn (" +:+ listPaths leftovers 10 +:+ "). " in
        if negb (publishes scope) then
          [had +:+ "Leave them as they are: do not commit, discard, stash or overwrite them."]
        else if includeLeftovers then
          [had +:+ "The latest message asks to include them: Flow commits them together with this turn's changes. Do not discard, stash or revert them."]
        else
          [had +:+ "They are not part of this turn: Flow does not commit them, and you must not commit, discard, stash or overwrite them unless the latest message asks you to.";
           "- A file among them that you change in this turn counts as this turn's change: Flow commits it whole, including its earlier uncommitted changes. Leave the others untouched."]
    end in
  join newline_char (lines ++ rules ++ earlier).

Definition requestHeader (kind : string) (scope : TurnScope) : string :=
  let scopeLine := match scope with
    | readOnly => "Write scope: read-only. Keep the repository and the existing pull request unchanged; Flow will not commit or push this turn."
    | noPublish => "Write scope: changes allowed, but no commit or push; Flow will not commit or push this turn."
    | write => "Write scope: changes allowed; Flow commits and pushes this turn's changes when it ends."
    end in
  join newline_char [
    "[Flow: current request (" +:+ (if truthy kind then kind else "followUp") +:+ " turn)]";
    "The message below is the latest request and the goal of this turn. It replaces earlier goals from this conversation and from the issue description: do not continue earlier work unless it asks for it.";
    scopeLine; ""; "---"; ""].

(** ** The end of a turn (session.ts) *)

(** What a write turn commits: everything, or the turn's own paths. *)
Inductive CommitPlan := CommitAll | CommitPaths (own : list string).

Record TurnRun := mkTurnRun {
  run_scope : TurnScope; run_before : WorkspaceState; run_leftovers : list string;
  run_prints : list (string * string); run_include : bool }.

(** The commit step of [publishTurn], with the workspace and the fingerprints of the leftovers as
    they are at its end.  The lists are the leftovers left alone and the ones committed. *)
Definition commitPlan (run : TurnRun) (after : WorkspaceState) (printsNow : list (string * string))
  : CommitPlan * list string * list string :=
  match run_leftovers run with
  | [] => (CommitAll, [], [])
  | _ =>
      let dirty path := map_has path (ws_dirty after) in
      if run_include run then (CommitAll, [], List.filter dirty (run_leftovers run))
      else
        let touched := touchedLeftovers (run_leftovers run) (run_prints run) printsNow in
        let is_touched path := existsb (String.eqb path) touched in
        let own := List.filter (fun path => negb (map_has path (ws_dirty (run_before run))) || is_touched path) (map_keys (ws_dirty after)) in
        (CommitPaths own,
         List.filter (fun path => dirty path && negb (is_touched path)) (run_leftovers run),
         List.filter (fun path => dirty path && is_touched path) (run_leftovers run))
  end.

(** The verdict of [completeWithoutPublishing]: the violations it reports and the status. *)
Definition scopeViolations (run : TurnRun) (after : WorkspaceState) (startHead headNow : string) : list string :=
  let violations := fst (readOnlyViolations (run_before run) after) in
  let violations := if bool_decide (run_scope run = noPublish)
    then List.filter (fun line => startsWith "HEAD" line || startsWith "the checked-out branch" line) violations else violations in
  if negb (headNow =s startHead) && negb (existsb (startsWith "HEAD") violations)
  then ("HEAD moved from " +:+ slice 0 12 startHead +:+ " to " +:+ slice 0 12 headNow) :: violations
  else violations.

Definition unpublishedStatus (initial : TurnStatus) (violations : list string) : TurnStatus :=
  match violations, initial with
  | [], _ => initial
  | _, st_success | _, st_awaitingInput => st_error
  | _, s => s
  end.

(** ** Properties *)

(** The prompts of the runner's own test, as it expects them classified. *)
Lemma scope_vectors :
  let scope prompt := turnScope (mkTurn (decode prompt) "followUp" None) in
  map scope ["Only verify the restored state. Do not make any changes.";
             "Please leave the branch and the pull request as is and just report what you see.";
             "Don't modify anything, read-only check of the build.";
             "只验证恢复后的状态，保持仓库和现有 PR 不变。"; "检查一下测试是否通过，不要做任何修改。";
             "Try the refactor locally but do not commit or push yet."; "先改一下，但不要提交。";
             "Continue with the dark mode toggle and add tests."; "Rename the API but keep the return type unchanged"]
  = [readOnly; readOnly; readOnly; readOnly; readOnly; noPublish; noPublish; write; write].
Proof. vm_compute. reflexivity. Qed.

(** A pattern has a match somewhere in the text. *)
Definition mentions (patterns : list regex) (t : text) : Prop :=
  exists r p p', In r patterns /\ position_of t p /\ derives r p p'.

Lemma existsb_mentions patterns t : existsb (fun r => regex_test r t) patterns = true <-> mentions patterns t.
Proof.
  unfold mentions. rewrite existsb_exists. split.
  - intros (r & Hr & (p & p' & Hp & Hd)%regex_test_correct). eauto 8.
  - intros (r & p & p' & Hr & Hp & Hd). exists r. split; [done|]. apply regex_test_correct. eauto.
Qed.

(** When Flow names a scope, the runner applies it as is.  When it names none
    (or one the runner does not know), a turn of Flow's own kinds publishes, and any other turn
    publishes exactly when no read-only and no no-publish pattern matches anywhere in its prompt;
    a read-only pattern prevails over a no-publish one. *)
Theorem turn_scope_safe turn :
  (forall s, turn_scope turn ≫= scope_of_string = Some s -> turnScope turn = s)
  /\ (turn_scope turn ≫= scope_of_string = None ->
        (turn_kind turn ∈ WRITE_KINDS -> publishes (turnScope turn) = true)
        /\ (turn_kind turn ∉ WRITE_KINDS ->
              (publishes (turnScope turn) = true <-> ~ mentions READ_ONLY (turn_prompt turn) /\ ~ mentions NO_PUBLISH (turn_prompt turn))
              /\ (turnScope turn = readOnly <-> mentions READ_ONLY (turn_prompt turn)))).
Proof.
  unfold turnScope. split; [by intros s ->|]. intros ->. unfold inferTurnScope, publishes.
  assert (Hk : existsb (String.eqb (turn_kind turn)) WRITE_KINDS = true <-> turn_kind turn ∈ WRITE_KINDS).
  { rewrite existsb_exists, list_elem_of_In. split; [intros (x & Hx & ->%String.eqb_eq); done|].
    intros H. exists (turn_kind turn). split; [done | apply String.eqb_refl]. }
  destruct (existsb (String.eqb _) _).
  { split; [done|]. intros Hin. exfalso. by apply Hin, Hk. }
  split; [intros Hin; by apply Hk in Hin|]. intros _. clear Hk.
  rewrite <- !existsb_mentions.
  destruct (existsb (fun r => regex_test r (turn_prompt turn)) READ_ONLY),
    (existsb (fun r => regex_test r (turn_prompt turn)) NO_PUBLISH); rewrite bool_decide_eq_true; simpl; intuition (congruence || discriminate).
Qed.

(** *** Status output *)

Definition status_entry (p : string * string) : string := snd p +:+ " " +:+ fst p.

(** [git status -z] ends every entry with a NUL. *)
Definition render_status (dirty : list (string * string)) : string := join nul (map status_entry dirty ++ [""]).

Definition entry_printable (p : string * string) : Prop :=
  fst p <> "" /\ String.length (snd p) = 2%nat /\ lacks (ascii_of_nat 0) (fst p) = true /\ lacks (ascii_of_nat 0) (snd p) = true.

Lemma parse_status_entry dirty p : entry_printable p -> fst p ∉ map_keys dirty ->
  parse_entry dirty (status_entry p) = dirty ++ [p].
Proof.
  destruct p as [path xy]. intros (Hp & Hl & _ & _) Hn. simpl in *.
  destruct xy as [|x [|y [|z xy]]]; simpl in Hl; try lia. destruct path as [|c path]; [done|].
  unfold parse_entry, status_entry. simpl. clear Hl Hp.
  induction dirty as [|[k v] dirty IH]; [done|]. simpl in *. apply not_elem_of_cons in Hn as [Hne Hn].
  destruct (decide _); [done|]. f_equal. by apply IH.
Qed.

(** The parser reads back what git prints: a status of distinct paths
    without NUL characters parses to exactly its paths and their two-letter codes, in order. *)
Theorem status_roundtrip dirty :
  NoDup (map_keys dirty) -> Forall entry_printable dirty -> parseStatus (render_status dirty) = dirty.
Proof.
  intros Hn Hp. unfold parseStatus, render_status, nul. rewrite split_join_char.
  - rewrite fold_left_app. simpl. unfold parse_entry at 1. simpl.
    change dirty with ([] ++ dirty) in Hn |- * at 2. revert Hn. generalize (@nil (string * string)).
    induction Hp as [|p dirty Hx Hp IH]; intros acc Hn; simpl; [by rewrite app_nil_r|].
    rewrite parse_status_entry; [|done|].
    + rewrite IH; rewrite <- app_assoc; done.
    + unfold map_keys in *. rewrite map_app in Hn. apply NoDup_app in Hn as (_ & Hd & _).
      intros Hin. apply (Hd _ Hin). left.
  - by destruct (map status_entry dirty).
  - apply Forall_app. split; [|by constructor]. apply Forall_map. eapply Forall_impl; [exact Hp|].
    intros p (_ & _ & H1 & H2). unfold status_entry. by rewrite !lacks_app, H1, H2.
Qed.

Lemma status_roundtrip_witness :
  let dirty := [("src/a b.ts", " M"); ("new.txt", "??")] in
  parseStatus (render_status dirty) = dirty /\ tracked dirty = ["src/a b.ts"].
Proof.
  intros dirty. split; [|vm_compute; reflexivity]. apply (status_roundtrip dirty).
  - apply (bool_decide_unpack _). vm_compute. exact I.
  - repeat constructor; discriminate.
Defined.

(** *** Read-only turns *)

Definition path_ok (path : string) : Prop := path <> "" /\ lacks (ascii_of_nat 0) path = true.

Lemma join_nul_inj l l' : Forall path_ok l -> Forall path_ok l' -> join nul l = join nul l' -> l = l'.
Proof.
  assert (Hne : forall x r, path_ok x -> join nul (x :: r) <> "").
  { intros [|c x] r [Hx _]; [done|]. destruct r; simpl; done. }
  assert (Hlack : forall l, Forall path_ok l -> Forall (fun s => lacks (ascii_of_nat 0) s = true) l)
    by (intros m Hm; eapply Forall_impl; [exact Hm | by intros s [_ ?]]).
  intros H H' Heq. destruct l as [|x l], l' as [|x' l']; try done.
  - symmetry in Heq. by apply Hne in Heq; [|inversion H'].
  - by apply Hne in Heq; [|inversion H].
  - rewrite <- (split_join_char (ascii_of_nat 0) (x :: l)), <- (split_join_char (ascii_of_nat 0) (x' :: l')) by auto.
    unfold nul in Heq. by rewrite Heq.
Qed.

Definition workspace_ok (w : WorkspaceState) : Prop := Forall path_ok (tracked (ws_dirty w)).

(** The two states agree on everything a read-only turn must keep. *)
Definition kept (before after : WorkspaceState) : Prop :=
  ws_head after = ws_head before /\ ws_branch after = ws_branch before /\ ws_index after = ws_index before
  /\ ws_worktree after = ws_worktree before /\ tracked (ws_dirty after) = tracked (ws_dirty before).

Lemma no_violations before after : workspace_ok before -> workspace_ok after ->
  fst (readOnlyViolations before after) = [] <-> kept before after.
Proof.
  intros Hb Ha. unfold readOnlyViolations, kept. cbn [fst].
  destruct (String.eqb_spec (ws_head after) (ws_head before)), (String.eqb_spec (ws_branch after) (ws_branch before)),
    (String.eqb_spec (ws_index after) (ws_index before)), (String.eqb_spec (ws_worktree after) (ws_worktree before));
    cbn [negb app orb]; try (split; [done | tauto]).
  destruct (String.eqb_spec (join nul (tracked (ws_dirty after))) (join nul (tracked (ws_dirty before)))) as [He|He]; cbn [negb].
  - split; [|done]. intros _. repeat split; try done. by apply join_nul_inj.
  - split; [done|]. intros (_ & _ & _ & _ & Heq). by rewrite Heq in He.
Qed.

Lemma scopeViolations_readOnly run after startHead headNow : run_scope run = readOnly ->
  scopeViolations run after startHead headNow
  = let vs := fst (readOnlyViolations (run_before run) after) in
    if negb (headNow =s startHead) && negb (existsb (startsWith "HEAD") vs)
    then ("HEAD moved from " +:+ slice 0 12 startHead +:+ " to " +:+ slice 0 12 headNow) :: vs else vs.
Proof. intros Hs. unfold scopeViolations. by rewrite Hs. Qed.

(** A read-only turn ends in success only if the repository is as it was:
    the same HEAD (also as read at its end), branch, index and working tree of tracked files, and
    the same tracked paths with uncommitted changes.  And when all of that is unchanged, the turn
    keeps the status it had. *)
Theorem read_only_enforced run after startHead headNow status :
  run_scope run = readOnly -> workspace_ok (run_before run) -> workspace_ok after ->
  let violations := scopeViolations run after startHead headNow in
  (status = st_success -> unpublishedStatus status violations = st_success ->
     kept (run_before run) after /\ headNow = startHead)
  /\ (kept (run_before run) after -> headNow = startHead -> unpublishedStatus status violations = status).
Proof.
  intros Hs Hb Ha. rewrite scopeViolations_readOnly by done. intros violations.
  pose proof (no_violations (run_before run) after Hb Ha) as Hv.
  set (vs := fst (readOnlyViolations (run_before run) after)) in *. split.
  - intros -> Hst. assert (Hnil : violations = []) by (by destruct violations). unfold violations in Hnil.
    destruct (negb (headNow =s startHead) && negb (existsb (startsWith "HEAD") vs)) eqn:Hh; [done|].
    rewrite Hnil in Hh. simpl in Hh. rewrite andb_true_r in Hh. breflect. split; [by apply Hv | done].
  - intros Hk ->. apply Hv in Hk. unfold violations. rewrite Hk, String.eqb_refl. done.
Qed.

Definition demo_workspace (head : string) (dirty : list (string * string)) : WorkspaceState :=
  mkWorkspace head "refs/heads/main" "i" "w" dirty.

Lemma read_only_enforced_witness :
  let before := demo_workspace "abc" [("a.ts", " M")] in
  let after := demo_workspace "abc" [("a.ts", " M"); ("tmp.log", "??")] in
  let run := mkTurnRun readOnly before ["a.ts"] [] false in
  readOnlyViolations before after = ([], ["tmp.log"])
  /\ unpublishedStatus st_success (scopeViolations run after "abc" "abc") = st_success.
Proof.
  intros before after run. split; [vm_compute; reflexivity|].
  destruct (read_only_enforced run after "abc" "abc" st_success) as [_ H]; [reflexivity | repeat constructor; discriminate ..|].
  apply H; [vm_compute; repeat split | reflexivity].
Defined.

(** *** Write turns *)

Lemma In_filter {A} (p : A -> bool) l x : x ∈ List.filter p l <-> x ∈ l /\ p x = true.
Proof. rewrite !list_elem_of_In. apply filter_In. Qed.

Lemma existsb_eqb x l : existsb (String.eqb x) l = true <-> x ∈ l.
Proof.
  rewrite existsb_exists, list_elem_of_In. split; [by intros (y & Hy & ->%String.eqb_eq)|].
  intros Hx. exists x. split; [done | apply String.eqb_refl].
Qed.

Lemma map_has_elem {V} (k : string) (m : list (string * V)) : map_has k m = true <-> k ∈ map_keys m.
Proof.
  unfold map_has. destruct (map_get k m) eqn:H; simpl; split; try done.
  - intros _. by eapply map_get_elem.
  - by apply map_get_None in H.
Qed.

(** When a write turn starts with uncommitted changes and does not ask
    to include them, its commit holds exactly the paths that are dirty now and were clean before
    the turn or have changed content; the other leftovers are exactly the dirty paths the commit
    leaves out, and their content is what it was. *)
Theorem commit_plan_correct run after printsNow :
  run_leftovers run = map_keys (ws_dirty (run_before run)) -> run_leftovers run <> [] -> run_include run = false ->
  exists own left changed, commitPlan run after printsNow = (CommitPaths own, left, changed)
    /\ (forall path, path ∈ own <-> path ∈ map_keys (ws_dirty after)
          /\ (path ∉ run_leftovers run \/ map_get path (run_prints run) <> map_get path printsNow))
    /\ (forall path, path ∈ map_keys (ws_dirty after) -> (path ∈ left <-> path ∉ own))
    /\ (forall path, path ∈ left -> map_get path (run_prints run) = map_get path printsNow)
    /\ (forall path, path ∈ changed <-> path ∈ own /\ path ∈ run_leftovers run).
Proof.
  intros Hl Hne Hi. unfold commitPlan. rewrite Hi. destruct (run_leftovers run) as [|x xs] eqn:Hlo; [done|].
  rewrite <- Hlo in *. clear x xs Hlo. set (touched := touchedLeftovers _ _ _).
  assert (Ht : forall path, existsb (String.eqb path) touched = true <-> path ∈ run_leftovers run /\ map_get path (run_prints run) <> map_get path printsNow).
  { intros path. rewrite existsb_eqb. unfold touched, touchedLeftovers. rewrite In_filter, negb_true_iff, bool_decide_eq_false. done. }
  assert (Hown : forall path, negb (map_has path (ws_dirty (run_before run))) || existsb (String.eqb path) touched = true
     <-> path ∉ run_leftovers run \/ map_get path (run_prints run) <> map_get path printsNow).
  { intros path. rewrite orb_true_iff, negb_true_iff, <- not_true_iff_false, map_has_elem, Ht, Hl.
    destruct (decide (path ∈ map_keys (ws_dirty (run_before run)))); tauto. }
  eexists _, _, _. split; [reflexivity|]. split; [|split; [|split]].
  - intros path. by rewrite In_filter, Hown.
  - intros path Hp. rewrite !In_filter, Hown, andb_true_iff, negb_true_iff, <- not_true_iff_false, map_has_elem, Ht.
    destruct (decide (path ∈ run_leftovers run)), (decide (map_get path (run_prints run) = map_get path printsNow)); tauto.
  - intros path. rewrite In_filter, andb_true_iff, negb_true_iff, <- not_true_iff_false, Ht.
    destruct (decide (map_get path (run_prints run) = map_get path printsNow)); tauto.
  - intros path. rewrite !In_filter, Hown, andb_true_iff, map_has_elem, Ht.
    destruct (decide (path ∈ run_leftovers run)); tauto.
Qed.

Lemma commit_plan_correct_witness :
  let before := demo_workspace "abc" [("a.ts", " M"); ("b.ts", " M")] in
  let after := demo_workspace "abc" [("a.ts", " M"); ("b.ts", " M"); ("c.ts", "??")] in
  let run := mkTurnRun write before ["a.ts"; "b.ts"] [("a.ts", "f:1"); ("b.ts", "f:2")] false in
  exists left changed, commitPlan run after [("a.ts", "f:1"); ("b.ts", "f:3")] = (CommitPaths ["b.ts"; "c.ts"], left, changed).
Proof.
  intros before after run.
  destruct (commit_plan_correct run after [("a.ts", "f:1"); ("b.ts", "f:3")]) as (own & left & changed & H & _);
    [reflexivity | discriminate | reflexivity|].
  exists left, changed. rewrite H. vm_compute in H. by injection H as <- <- <-.
Defined.
