(* ===== verification/Git.v ===== *)
(** * Git operations of the runner (sandbox-runner/src/git/git.ts)

    The runner's git commands as programs over an environment that answers each command.  An
    environment is an arbitrary function of the commands run so far and their results, so nothing
    is assumed of git or the code host; the history of a program is what the theorems speak about.
    Time limits belong to the environment: an answer may say that it timed out. *)

From Stdlib Require Import ZArith Lia Bool List Ascii QArith.
From stdpp Require Import base list strings sets.
From S2P Require Import Prelude JsString JsMap Regex JsNumber Json Protocol.

Open Scope Z_scope.

(** ** Commands and errors *)

Record RunResult := mkResult { rr_code : Z; rr_stdout : string; rr_stderr : string; rr_timedOut : bool }.

(** The arguments of git, its standard input and the variables added to its environment. *)
Record Command := mkCommand { cmd_args : list string; cmd_stdin : option string; cmd_env : list (string * string) }.

Inductive RemoteFailure := rf_auth | rf_network | rf_unavailable | rf_unknown.

#[export] Instance RemoteFailure_eq_dec : EqDecision RemoteFailure.
Proof. solve_decision. Defined.

Inductive GitError :=
  | CommandError (command : string) (result : RunResult)
  | RemoteQueryError (kind : RemoteFailure) (branch detail : string)
  | BranchNotFoundError (branch : string)
  | BranchPolicyError (message : string)
  | DateError.

Definition digit : regex := Cls (fun x => within 48 57 x).
(** [http(\/[\d.]+)? ] *)
Definition http_version : regex := Seq (lit "http") (Seq (opt (Seq (lit "/") (plus (fun x => within 48 57 x || (x =? 46))))) (lit " ")).

Definition auth_pattern : regex :=
  alts [lit "authentication failed"; Seq (lit "could not read ") (words ["username"; "password"]); lit "terminal prompts disabled";
        lit "invalid username or password"; Seq (lit "returned error: 40") (one_of "13"); Seq http_version (Seq (lit "40") (one_of "13"));
        lit "permission denied"; lit "access denied"; lit "repository not found"; lit "not authorized"; lit "bad credentials"].
Definition unavailable_pattern : regex :=
  alts [Seq (lit "returned error: 5") (Seq digit digit); Seq http_version (Seq (lit "5") (Seq digit digit)); lit "service unavailable"; lit "bad gateway";
        Seq (lit "gateway time") (Seq (opt (lit "-")) (lit "out")); lit "internal server error"; Seq (lit "server is ") (words ["busy"; "unavailable"]);
        lit "try again later"; lit "rate limit"].
Definition network_pattern : regex :=
  alts [lit "could not resolve host"; Seq (lit "connection ") (words ["refused"; "reset"; "timed out"]); lit "operation timed out"; lit "failed to connect";
        lit "network is unreachable"; lit "no route to host"; lit "ssl"; lit "tls"; lit "gnutls"; lit "early eof"; lit "unexpected disconnect";
        lit "rpc failed"; lit "remote end hung up"; lit "timed out"].

Definition classifyRemoteFailure (stderr : string) (timedOut : bool) : RemoteFailure :=
  if regex_test auth_pattern (units stderr) then rf_auth
  else if regex_test unavailable_pattern (units stderr) then rf_unavailable
  else if timedOut || regex_test network_pattern (units stderr) then rf_network else rf_unknown.

(** [/^git\b/] *)
Definition git_command (command : string) : bool :=
  startsWith "git" command && negb (word_at (head (units (slice_from 3 command)))).

Definition isRemoteAuthFailure (e : GitError) : bool :=
  match e with
  | BranchNotFoundError _ => false
  | RemoteQueryError kind _ _ => bool_decide (kind = rf_auth)
  | CommandError command r => git_command command && negb (rr_timedOut r) && bool_decide (classifyRemoteFailure (rr_stderr r) false = rf_auth)
  | _ => false
  end.

Definition signing_pattern : regex := words ["flow-sign"; "failed to sign"; "gpg failed"; "signing failed"; "ssh-keygen"; "signing key"].
Definition isSigningFailure (e : GitError) : bool :=
  match e with CommandError _ r => regex_test signing_pattern (units (rr_stderr r +:+ rr_stdout r)) | _ => false end.

(** [s.slice(-n)] *)
Definition slice_end (n : nat) (s : string) : string := slice_from (String.length s - n) s.

(** ** Commit messages *)

Definition MAX_SUBJECT : nat := 72.

(** [/^[#>*\-\s]+/] *)
Fixpoint strip_markers (s : string) : string :=
  match s with
  | String c r => if is_space c || existsb (Ascii.eqb c) ["#"; ">"; "*"; "-"]%char then strip_markers r else s
  | EmptyString => ""
  end.
(** [/:\s*$/] *)
Definition strip_colon (s : string) : string :=
  let t := trim_end s in
  match String.get (String.length t - 1) t with Some c => if Ascii.eqb c ":" then slice 0 (String.length t - 1) t else s | None => s end.

Definition summaryLine (summary : string) : option string :=
  find truthy (map (fun line => trim (strip_colon (strip_markers line))) (split newline summary)).

(** The ellipsis is written in its UTF-8 bytes. *)
Definition commitMessage (summary : string) (trailer : option string) (fallback : string) : string :=
  let subject := summaryLine summary ?? fallback in
  let subject := if (MAX_SUBJECT <? String.length subject)%nat then trim_end (slice 0 (MAX_SUBJECT - 1) subject) +:+ "…" else subject in
  match trailer with
  | Some t => if truthy t then subject +:+ newline +:+ newline +:+ t +:+ newline else subject +:+ newline
  | None => subject +:+ newline
  end.
Definition default_subject : string := "Update from Flow coding session".

Definition summaryTitle (summary : string) : option string :=
  match summaryLine summary with Some line => if (String.length line <=? MAX_SUBJECT)%nat then Some line else None | None => None end.

Definition checkBranchAllowed (repo : BootstrapRepo) (fallbackPrefix : string) : option GitError :=
  if existingBranch repo then None
  else
    let prefix := match repo_branchPrefix repo with Some p => if truthy p then p else fallbackPrefix | None => fallbackPrefix end in
    if startsWith prefix (branchName repo) then None
    else Some (BranchPolicyError ("refusing to push " +:+ branchName repo +:+ ": branches must start with " +:+ prefix)).

(** ** Numstat *)

Definition tab : string := String (ascii_of_nat 9) "".
Definition last_string (l : list string) : string := List.last l "".

Definition status_letter (code : string) : DiffStatus :=
  match code with
  | String c _ => if Ascii.eqb c "A" then df_added else if Ascii.eqb c "D" then df_deleted else if Ascii.eqb c "R" then df_renamed else df_modified
  | EmptyString => df_modified
  end.

Definition name_statuses (nameStatus : string) : list (string * DiffStatus) :=
  fold_left (fun m line =>
    if truthy (trim line) then match split tab line with code :: paths => map_set (last_string paths) (status_letter code) m | [] => m end else m)
    (split newline nameStatus) [].

(** [Number(s) || 0]; git prints whole numbers. *)
Definition count_of (s : option string) : Z :=
  match s with Some t => if t =s "-" then 0 else match Number t with Some q => Qround.Qfloor q | None => 0 end | None => 0 end.

Definition parseNumstat (numstat nameStatus : string) : list CodingDiffSummary :=
  let statuses := name_statuses nameStatus in
  omap (fun line =>
    if truthy (trim line) then
      let cells := split tab line in
      let path := join tab (drop 2 cells) in
      Some {| diff_path := path; diff_additions := count_of (cells !! 0%nat); diff_deletions := count_of (cells !! 1%nat);
              diff_status := map_get path statuses ?? df_modified |}
    else None) (split newline numstat).

(** ** Programs *)

(** The environment of every git command. *)
Definition gitEnv (base : list (string * string)) : list (string * string) :=
  fold_left (fun e p => map_set (fst p) (snd p) e)
    [("GIT_TERMINAL_PROMPT", "0"); ("GIT_ASKPASS", ""); ("SSH_ASKPASS", ""); ("GCM_INTERACTIVE", "never"); ("GIT_PAGER", "cat");
     ("GIT_LFS_SKIP_SMUDGE", map_get "GIT_LFS_SKIP_SMUDGE" base ?? "0")] base.

Abbreviation History := (list (Command * RunResult)).

(** A program runs commands, which extend the history, and returns a value or throws. *)
Definition M (A : Type) : Type := History -> History * (A + GitError).

Definition ret {A} (a : A) : M A := fun h => (h, inl a).
Definition throw {A} (e : GitError) : M A := fun h => (h, inr e).
Definition bind {A B} (m : M A) (k : A -> M B) : M B := fun h => match m h with (h', inl a) => k a h' | (h', inr e) => (h', inr e) end.
(** [m.catch(() => other)] *)
Definition catch {A} (m : M A) (k : GitError -> M A) : M A := fun h => match m h with (h', inl a) => (h', inl a) | (h', inr e) => k e h' end.

Notation "'let*' x := m 'in' k" := (bind m (fun x => k)) (at level 10, x pattern, m at level 100, k at level 200) : flow_scope.
Notation "m ';;;' k" := (bind m (fun _ => k)) (at level 199, right associativity) : flow_scope.

Definition unless (b : bool) (m : M unit) : M unit := if b then ret tt else m.

Section Git.
(** The environment, the repository's directory, the helpers and the parser of dates. *)
Context (environment : History -> Command -> RunResult) (repoDir credentialHelper signProgram : string) (toISOString : string -> option string).

Definition exec (c : Command) : M RunResult := fun h => let r := environment h c in (h ++ [(c, r)], inl r).

Definition show_command (args : list string) : string := "git " +:+ join " " args.

(** [this.git(args, { check })]: a checked command throws when it fails. *)
Definition git_with (args : list string) (stdin : option string) (env : list (string * string)) (check : bool) : M RunResult :=
  let* r := exec (mkCommand args stdin env) in
  if check && negb (rr_code r =? 0) then throw (CommandError (show_command args) r) else ret r.
Definition git (args : list string) : M RunResult := git_with args None [] true.
Definition git_unchecked (args : list string) : M RunResult := git_with args None [] false.

Definition helperArgs : list string :=
  ["-c"; "credential.helper="; "-c"; "credential.helper=" +:+ credentialHelper; "-c"; "credential.useHttpPath=true"].

(** [network] and [repoNetwork]: once more when the host rejected the credential. *)
Definition network (args : list string) : M RunResult :=
  let* first := git_unchecked args in
  if (rr_code first =? 0) || rr_timedOut first || negb (bool_decide (classifyRemoteFailure (rr_stderr first) false = rf_auth)) then ret first
  else git_unchecked args.

Definition network_checked (args : list string) : M unit :=
  let* r := network args in if rr_code r =? 0 then ret tt else throw (CommandError (show_command args) r).

Definition clone (cloneUrl : string) : M unit := network_checked (helperArgs ++ ["clone"; "--no-tags"; "--progress"; cloneUrl; repoDir]).

Definition isRepo : M bool := let* r := git_unchecked ["rev-parse"; "--git-dir"] in ret (rr_code r =? 0).

Definition nonempty (o : option string) : bool := match o with Some s => truthy s | None => false end.

Definition configureCredentials (pushUrl : option string) : M unit :=
  git ["config"; "--local"; "--replace-all"; "credential.helper"; credentialHelper] ;;;
  git ["config"; "--local"; "credential.useHttpPath"; "true"] ;;;
  git ["config"; "--local"; "push.autoSetupRemote"; "true"] ;;;
  (if nonempty pushUrl then git ["remote"; "set-url"; "--push"; "origin"; pushUrl ?? ""]
   else git_unchecked ["config"; "--local"; "--unset-all"; "remote.origin.pushurl"]) ;;;
  ret tt.

Definition set_config (key value : string) : M unit := git ["config"; "--local"; key; value] ;;; ret tt.

Definition configureIdentity (identity : BootstrapGit) : M unit :=
  unless (negb (truthy (authorName identity))) (set_config "user.name" (authorName identity)) ;;;
  unless (negb (truthy (authorEmail identity))) (set_config "user.email" (authorEmail identity)) ;;;
  let format := signingFormat identity ?? "" in
  let key := trim (signingPublicKey identity ?? "") in
  if (format =s "ssh") && nonempty (signingPublicKey identity) then
    set_config "gpg.format" "ssh" ;;; set_config "gpg.ssh.program" signProgram ;;;
    set_config "user.signingkey" (if startsWith "ssh-" key || startsWith "key::" key then key else "key::" +:+ key) ;;;
    set_config "commit.gpgsign" "true"
  else if (format =s "openpgp") && nonempty (signingPublicKey identity) then
    set_config "gpg.format" "openpgp" ;;; set_config "gpg.program" signProgram ;;; set_config "user.signingkey" key ;;; set_config "commit.gpgsign" "true"
  else set_config "commit.gpgsign" "false".

Definition fetch : M unit :=
  let* r := network ["fetch"; "--no-tags"; "--prune"; "origin"] in
  if rr_code r =? 0 then ret tt else throw (CommandError "git fetch --no-tags --prune origin" r).

(** ** The session's branch *)

Definition head_ref (branch : string) : string := "refs/heads/" +:+ branch.

(** The first field of the line whose second field is the branch. *)
Definition listed_head (branch stdout : string) : option string :=
  match find (fun cells => match cells !! 1%nat with Some ref => ref =s head_ref branch | None => false end) (map (split tab) (split newline stdout)) with
  | Some cells => cells !! 0%nat
  | None => None
  end.

Definition remoteBranchHead (branch : string) : M (option string) :=
  let* r := network (helperArgs ++ ["ls-remote"; "--exit-code"; "--heads"; "origin"; head_ref branch]) in
  let failed := throw (RemoteQueryError (classifyRemoteFailure (rr_stderr r) (rr_timedOut r)) branch (slice_end 1000 (trim (rr_stderr r)))) in
  if rr_code r =? 0 then
    match listed_head branch (rr_stdout r) with Some sha => if truthy sha then ret (Some sha) else failed | None => failed end
  else if (rr_code r =? 2) && negb (rr_timedOut r) then ret None else failed.

Definition revParse (ref : string) : M (option string) :=
  let* r := git_unchecked ["rev-parse"; "--verify"; "--quiet"; ref +:+ "^{commit}"] in
  ret (if rr_code r =? 0 then Some (trim (rr_stdout r)) else None).

Definition isAncestor (ancestor descendant : string) : M bool :=
  let* r := git_unchecked ["merge-base"; "--is-ancestor"; ancestor; descendant] in ret (rr_code r =? 0).

Inductive CheckoutSource := src_remote | src_kept | src_created.
Record BranchCheckout := mkCheckout { co_source : CheckoutSource; co_base : option string; co_note : option string; co_recovered : bool }.

Definition branchBase (repo : BootstrapRepo) : M (string * option string) :=
  let fallback := "origin/" +:+ baseRef repo in
  let sha := baseSha repo ?? "" in
  if negb (truthy sha) then ret (fallback, None)
  else
    let* known := revParse sha in
    if nonempty known then ret (sha, None)
    else
      git_unchecked (helperArgs ++ ["fetch"; "--no-tags"; "origin"; sha]) ;;;
      let* now := revParse sha in
      if nonempty now then ret (sha, None)
      else ret (fallback, Some ("baseline " +:+ slice 0 12 sha +:+ " is not on origin; branching from " +:+ fallback)).

(** Brings origin's branch up to date when the remote-tracking branch is not at its head. *)
Definition fetch_branch (branch remote : string) : M unit :=
  let* tracked := revParse ("refs/remotes/origin/" +:+ branch) in
  if bool_decide (tracked = Some remote) then ret tt
  else
    let* r := network (helperArgs ++ ["fetch"; "--no-tags"; "origin"; "+refs/heads/" +:+ branch +:+ ":refs/remotes/origin/" +:+ branch]) in
    if rr_code r =? 0 then ret tt
    else throw (RemoteQueryError (classifyRemoteFailure (rr_stderr r) (rr_timedOut r)) branch (slice_end 1000 (trim (rr_stderr r)))).

(** [local && local !== remote && !(await this.isAncestor(local, remote))] *)
Definition has_own_commits (local : option string) (remote : string) : M bool :=
  if nonempty local && negb (bool_decide (local = Some remote)) then let* a := isAncestor (local ?? "") remote in ret (negb a) else ret false.

(** The branch that origin has at [sha]: it is taken over unless the workspace's has commits of its own. *)
Definition checkoutRemote (branch sha : string) (local : option string) : M BranchCheckout :=
  fetch_branch branch sha ;;;
  let* own := has_own_commits local sha in
  let* checkout :=
    if own then
      git ["checkout"; branch] ;;;
      ret (mkCheckout src_kept None (Some ("kept the workspace's " +:+ branch +:+ ": it has commits origin/" +:+ branch +:+ " does not")) false)
    else
      git ["checkout"; "-B"; branch; "origin/" +:+ branch] ;;; ret (mkCheckout src_remote None None false) in
  git_unchecked ["branch"; "--set-upstream-to"; "origin/" +:+ branch] ;;;
  ret checkout.

Definition checkoutSessionBranch (repo : BootstrapRepo) : M BranchCheckout :=
  let branch := branchName repo in
  let* remote := remoteBranchHead branch in
  let* local := revParse (head_ref branch) in
  match remote with
  | Some sha => checkoutRemote branch sha local
  | None =>
      if nonempty local then
        git ["checkout"; branch] ;;; ret (mkCheckout src_kept None (Some ("kept the workspace's unpublished " +:+ branch)) false)
      else if existingBranch repo && negb (branchUnconfirmed repo) then throw (BranchNotFoundError branch)
      else
        let* base := branchBase repo in
        git ["checkout"; "--no-track"; "-b"; branch; fst base] ;;;
        ret (mkCheckout src_created (Some (fst base)) (snd base) (existingBranch repo))
  end.

(** ** Commits and pushes *)

Definition baseRevision (repo : BootstrapRepo) : string := if nonempty (baseSha repo) then baseSha repo ?? "" else "origin/" +:+ baseRef repo.

Definition git_head : M string := let* r := git_unchecked ["rev-parse"; "HEAD"] in ret (if rr_code r =? 0 then trim (rr_stdout r) else "").

Definition hasChanges : M bool := let* r := git ["status"; "--porcelain"; "--untracked-files=all"] in ret (truthy (trim (rr_stdout r))).

Definition author_env (a : BootstrapGit) : list (string * string) :=
  List.filter (fun p => truthy (snd p)) [("GIT_AUTHOR_NAME", authorName a); ("GIT_AUTHOR_EMAIL", authorEmail a);
    ("GIT_COMMITTER_NAME", committerName a); ("GIT_COMMITTER_EMAIL", committerEmail a)].

Definition commitAll (message : string) (author : BootstrapGit) : M string :=
  git ["add"; "-A"] ;;;
  let* staged := git_unchecked ["diff"; "--cached"; "--quiet"] in
  if rr_code staged =? 0 then ret ""
  else git_with ["commit"; "--no-verify"; "-F"; "-"] (Some message) (author_env author) true ;;; git_head.

Definition nul_char : string := String (ascii_of_nat 0) "".

Definition commitPaths (message : string) (author : BootstrapGit) (paths : list string) : M string :=
  match paths with
  | [] => ret ""
  | _ =>
      let stdin := join nul_char paths +:+ nul_char in
      git_with ["--literal-pathspecs"; "add"; "-A"; "--pathspec-from-file=-"; "--pathspec-file-nul"] (Some stdin) [] true ;;;
      let* staged := git ["diff"; "--cached"; "--name-only"; "-z"; "--no-renames"] in
      if negb (existsb (fun path => bool_decide (path ∈ paths)) (split nul_char (rr_stdout staged))) then ret ""
      else
        git_with ["--literal-pathspecs"; "commit"; "--no-verify"; "--only"; "-m"; message; "--pathspec-from-file=-"; "--pathspec-file-nul"]
          (Some stdin) (author_env author) true ;;;
        git_head
  end.

Definition unit_separator : string := String (ascii_of_nat 31) "".

(** A line of the log; an invalid date throws. *)
Definition parse_commit (branch : string) (turnId : option string) (signed : bool) (line : string) : option CodingCommit :=
  let cells := split unit_separator line in
  match toISOString (cells !! 2%nat ?? "") with
  | Some date => Some {| c_sha := cells !! 0%nat ?? ""; c_branch := branch; c_turnActivityId := turnId; c_message := cells !! 1%nat;
                         c_signed := signed; c_createdAt := date |}
  | None => None
  end.

Definition commitsSince (since branch : string) (turnId : option string) (signed : bool) : M (list CodingCommit) :=
  let range := if truthy since then since +:+ "..HEAD" else "HEAD" in
  let* r := git_unchecked ["log"; "--reverse"; "--format=%H%x1f%s%x1f%cI"; range] in
  if negb (rr_code r =? 0) then ret []
  else match mapM (parse_commit branch turnId signed) (List.filter truthy (split newline (rr_stdout r))) with
       | Some l => ret l
       | None => throw DateError
       end.

Definition git_push (branch : string) (forceWithLease : bool) : M unit :=
  network_checked (helperArgs ++ ["push"; "--porcelain"] ++ (if forceWithLease then ["--force-with-lease"] else []) ++ ["origin"; "HEAD:refs/heads/" +:+ branch]).

Definition diffSummary (base : string) : M (list CodingDiffSummary) :=
  let* numstat := git_unchecked ["diff"; "--no-renames"; "--numstat"; base +:+ "...HEAD"] in
  let* names := git_unchecked ["diff"; "--no-renames"; "--name-status"; base +:+ "...HEAD"] in
  if negb (rr_code numstat =? 0) then ret [] else ret (parseNumstat (rr_stdout numstat) (rr_stdout names)).
End Git.

Lemma git_examples :
  commitMessage ("## Fix the parser: " +:+ newline +:+ "- one") (Some "Co-Authored-By: x") default_subject
    = "Fix the parser" +:+ newline +:+ newline +:+ "Co-Authored-By: x" +:+ newline
  /\ commitMessage (newline +:+ " * ") None default_subject = default_subject +:+ newline
  /\ classifyRemoteFailure "fatal: HTTP/1.1 403 Forbidden" false = rf_auth /\ classifyRemoteFailure "The requested URL returned error: 502" false = rf_unavailable
  /\ classifyRemoteFailure "" true = rf_network /\ git_command "git fetch" = true /\ git_command "gitlab" = false
  /\ map (fun d => (diff_path d, diff_additions d, diff_deletions d)) (parseNumstat ("3" +:+ tab +:+ "1" +:+ tab +:+ "a b" +:+ newline +:+ "-" +:+ tab +:+ "-" +:+ tab +:+ "x") "")
     = [("a b", 3, 1); ("x", 0, 0)].
Proof. vm_compute. repeat split. Qed.

(** ** What a program does, whatever the environment answers *)

(** [spec m Q]: from every history, [m] appends commands and ends as [Q] says of them. *)
Definition spec {A} (m : M A) (Q : History -> A + GitError -> Prop) : Prop :=
  forall h, exists l, fst (m h) = h ++ l /\ Q l (snd (m h)).

Lemma spec_ret {A} (a : A) (Q : History -> A + GitError -> Prop) : Q [] (inl a) -> spec (ret a) Q.
Proof. intros H h. exists []. by rewrite app_nil_r. Qed.

Lemma spec_throw {A} e (Q : History -> A + GitError -> Prop) : Q [] (inr e) -> spec (throw e) Q.
Proof. intros H h. exists []. by rewrite app_nil_r. Qed.

Lemma spec_bind {A B} (m : M A) (k : A -> M B) (Q1 : History -> A + GitError -> Prop) (Q : History -> B + GitError -> Prop) :
  spec m Q1 -> (forall l a, Q1 l (inl a) -> spec (k a) (fun l2 r => Q (l ++ l2) r)) -> (forall l e, Q1 l (inr e) -> Q l (inr e)) ->
  spec (bind m k) Q.
Proof.
  intros H1 Hk He h. destruct (H1 h) as (l & Hl & HQ). unfold bind. destruct (m h) as [h1 [a|e]]; simpl in *; subst h1.
  - destruct (Hk l a HQ (h ++ l)) as (l2 & Hl2 & HQ2). exists (l ++ l2). by rewrite app_assoc.
  - exists l. split; [done | by apply He].
Qed.

Lemma spec_mono {A} (m : M A) (Q1 Q2 : History -> A + GitError -> Prop) : (forall l r, Q1 l r -> Q2 l r) -> spec m Q1 -> spec m Q2.
Proof. intros H H1 h. destruct (H1 h) as (l & Hl & HQ). eauto. Qed.

(** A program that does not throw. *)
Ltac no_throw := let H := fresh in intros ? ? H; cbv beta in H; repeat match type of H with ex _ => destruct H as [? H] | _ /\ _ => destruct H as [? H] end; done.

Section Facts.
Context (environment : History -> Command -> RunResult) (repoDir credentialHelper signProgram : string) (toISOString : string -> option string).

Abbreviation git := (git environment).
Abbreviation git_unchecked := (git_unchecked environment).
Abbreviation network := (network environment).
Abbreviation revParse := (revParse environment).
Abbreviation plain_command args := (mkCommand args None []).

Lemma exec_spec c : spec (exec environment c) (fun l r => exists a, l = [(c, a)] /\ r = inl a).
Proof. intros h. by eexists [_]; simpl; eauto. Qed.

Lemma git_unchecked_spec args : spec (git_unchecked args) (fun l r => exists a, l = [(plain_command args, a)] /\ r = inl a).
Proof.
  eapply spec_bind; [apply exec_spec | |]; [|no_throw]. intros l a (a' & -> & [= <-]). simpl. apply spec_ret. eauto.
Qed.

Lemma git_spec args : spec (git args) (fun l r => exists a, l = [(plain_command args, a)]
  /\ (rr_code a = 0 /\ r = inl a \/ rr_code a <> 0 /\ r = inr (CommandError (show_command args) a))).
Proof.
  eapply spec_bind; [apply exec_spec | |]; [|no_throw]. intros l a (a' & -> & [= <-]). simpl.
  destruct (Z.eqb_spec (rr_code a) 0); simpl; [apply spec_ret | apply spec_throw]; eauto 6.
Qed.

(** A network command runs once, or twice when the first answer rejected the credential. *)
Lemma network_spec args : spec (network args) (fun l r => exists a, r = inl a
  /\ (l = [(plain_command args, a)] \/ exists first, l = [(plain_command args, first); (plain_command args, a)]
      /\ rr_code first <> 0 /\ rr_timedOut first = false /\ classifyRemoteFailure (rr_stderr first) false = rf_auth)).
Proof.
  eapply spec_bind; [apply git_unchecked_spec | |]; [|no_throw]. intros l first (a' & -> & [= <-]).
  destruct ((rr_code first =? 0) || rr_timedOut first || _) eqn:E; [apply spec_ret; eauto|].
  apply orb_false_iff in E as [[E1 E2]%orb_false_iff E3%negb_false_iff]. apply bool_decide_eq_true in E3. apply Z.eqb_neq in E1.
  eapply spec_mono; [|apply git_unchecked_spec]. intros l r (a & -> & ->). exists a. split; [done|]. right. by exists first.
Qed.

(** A command that neither pushes nor resets a branch. *)
Fixpoint subcommand (args : list string) : string :=
  match args with x :: ((_ :: r) as r') => if x =s "-c" then subcommand r else if (x =s "--literal-pathspecs") || (x =s "--no-optional-locks") then subcommand r' else x | [x] => x | [] => "" end.
Definition pushes (c : Command) : bool := subcommand (cmd_args c) =s "push".
Definition resets (c : Command) : bool := match cmd_args c with [a; b; _; _] => (a =s "checkout") && (b =s "-B") | _ => false end.
Definition harmless (p : Command * RunResult) : Prop := pushes (fst p) = false /\ resets (fst p) = false.

Abbreviation helper_args := (helperArgs credentialHelper).
Definition ls_remote (branch : string) : Command := plain_command (helper_args ++ ["ls-remote"; "--exit-code"; "--heads"; "origin"; head_ref branch]).
Definition parse_of (ref : string) : Command := plain_command ["rev-parse"; "--verify"; "--quiet"; ref +:+ "^{commit}"].

(** What the answers in a history say of the branch. *)
Definition remote_at (branch : string) (l : History) (sha : string) : Prop :=
  exists a, (ls_remote branch, a) ∈ l /\ rr_code a = 0 /\ listed_head branch (rr_stdout a) = Some sha.
Definition remote_absent (branch : string) (l : History) : Prop := exists a, (ls_remote branch, a) ∈ l /\ rr_code a = 2 /\ rr_timedOut a = false.
Definition parsed (ref : string) (l : History) (o : option string) : Prop :=
  exists a, (parse_of ref, a) ∈ l /\ o = if rr_code a =? 0 then Some (trim (rr_stdout a)) else None.
Definition local_absent (branch : string) (l : History) : Prop := exists o, parsed (head_ref branch) l o /\ nonempty o = false.
(** Every commit of the workspace's branch is on origin's. *)
Definition contained (branch : string) (l : History) : Prop :=
  local_absent branch l \/ exists local sha, parsed (head_ref branch) l (Some local) /\ remote_at branch l sha
    /\ (local = sha \/ exists a, (plain_command ["merge-base"; "--is-ancestor"; local; sha], a) ∈ l /\ rr_code a = 0).

Lemma revParse_spec ref : spec (revParse ref) (fun l r => Forall harmless l /\ exists o, r = inl o /\ parsed ref l o).
Proof.
  eapply spec_bind; [apply git_unchecked_spec | |]; [|no_throw]. intros l a (a' & -> & [= <-]). apply spec_ret.
  split; [by repeat constructor|]. eexists. split; [done|]. exists a. split; [left | done].
Qed.

Lemma remoteBranchHead_spec branch : spec (remoteBranchHead environment credentialHelper branch) (fun l r => Forall harmless l
  /\ match r with
     | inl (Some sha) => remote_at branch l sha
     | inl None => remote_absent branch l
     | inr e => exists kind detail, e = RemoteQueryError kind branch detail
     end).
Proof.
  eapply spec_bind; [apply network_spec | |]; [|no_throw]. intros l a (a' & [= <-] & Hl).
  assert (Hh : Forall harmless (l ++ [])).
  { rewrite app_nil_r. destruct Hl as [-> | (first & -> & _)]; repeat constructor. }
  assert (Hin : (ls_remote branch, a) ∈ l ++ []).
  { rewrite app_nil_r. destruct Hl as [-> | (first & -> & _)]; [left | right; left]. }
  destruct (Z.eqb_spec (rr_code a) 0) as [E0|E0].
  - destruct (listed_head branch (rr_stdout a)) as [sha|] eqn:Es; [|apply spec_throw; eauto].
    destruct (truthy sha); [apply spec_ret | apply spec_throw; eauto]. split; [done|]. by exists a.
  - destruct (Z.eqb_spec (rr_code a) 2) as [E2|E2]; [destruct (rr_timedOut a) eqn:Et|]; cbn [andb negb];
      [apply spec_throw; eauto | apply spec_ret | apply spec_throw; eauto]. split; [done|]. by exists a.
Qed.

Lemma fetch_branch_spec branch sha : spec (fetch_branch environment credentialHelper branch sha) (fun l r => Forall harmless l
  /\ match r with inl _ => True | inr e => exists kind detail, e = RemoteQueryError kind branch detail end).
Proof.
  eapply spec_bind; [apply revParse_spec | |]; [|no_throw]. intros l tracked (Hl & _).
  case_bool_decide; [apply spec_ret; by rewrite app_nil_r|]. eapply spec_bind; [apply network_spec | |]; [|no_throw].
  intros l2 a (a' & [= <-] & Hl2). assert (H2 : Forall harmless l2) by (destruct Hl2 as [-> | (first & -> & _)]; repeat constructor).
  destruct (rr_code a =? 0); [apply spec_ret | apply spec_throw]; rewrite app_nil_r; split; try done; [by apply Forall_app | by apply Forall_app | eauto].
Qed.

Lemma isAncestor_spec x sha : spec (isAncestor environment x sha) (fun l r => Forall harmless l
  /\ exists a, (plain_command ["merge-base"; "--is-ancestor"; x; sha], a) ∈ l /\ r = inl (rr_code a =? 0)).
Proof.
  eapply spec_bind; [apply git_unchecked_spec | |]; [|no_throw]. intros l a (a' & -> & [= <-]). apply spec_ret.
  split; [by repeat constructor|]. exists a. split; [left | done].
Qed.

Lemma own_commits_spec local sha : spec (has_own_commits environment local sha) (fun l r => Forall harmless l /\ exists own, r = inl own
  /\ (own = false -> nonempty local = false \/ local = Some sha
      \/ exists x a, local = Some x /\ (plain_command ["merge-base"; "--is-ancestor"; x; sha], a) ∈ l /\ rr_code a = 0)).
Proof.
  unfold has_own_commits. destruct (nonempty local) eqn:Hn; [|apply spec_ret; eauto 6]. case_bool_decide as Hs; [apply spec_ret; eauto 6|].
  cbn [negb andb]. destruct local as [x|]; [|done]. eapply spec_bind; [apply isAncestor_spec | |]; [|no_throw].
  intros l own (Hl & a & Ha & [= ->]). apply spec_ret. rewrite app_nil_r. split; [done|]. eexists. split; [done|].
  intros E%negb_false_iff%Z.eqb_eq. eauto 8.
Qed.

Lemma parsed_mono ref l l' o : l ⊆ l' -> parsed ref l o -> parsed ref l' o.
Proof. intros H (a & Ha & E). exists a. auto. Qed.

Lemma absent_mono branch l l' : l ⊆ l' -> remote_absent branch l -> remote_absent branch l'.
Proof. intros H (a & Ha & E). exists a. auto. Qed.

Lemma remote_mono branch l l' sha : l ⊆ l' -> remote_at branch l sha -> remote_at branch l' sha.
Proof. intros H (a & Ha & E). exists a. auto. Qed.

(** The end of a checkout. *)
Definition checkout_ok (repo : BootstrapRepo) (l : History) (r : BranchCheckout + GitError) : Prop :=
  Forall (fun p => pushes (fst p) = false) l
  /\ (Exists (fun p => resets (fst p) = true) l -> contained (branchName repo) l)
  /\ match r with
     | inl co => co_source co = src_created ->
         remote_absent (branchName repo) l /\ local_absent (branchName repo) l /\ (existingBranch repo = false \/ branchUnconfirmed repo = true)
     | inr (BranchNotFoundError b) =>
         remote_absent (branchName repo) l /\ local_absent (branchName repo) l /\ existingBranch repo = true /\ branchUnconfirmed repo = false
     | inr _ => True
     end.

Lemma harmless_ok l : Forall harmless l -> Forall (fun p => pushes (fst p) = false) l /\ ~ Exists (fun p => resets (fst p) = true) l.
Proof.
  intros H. split; [eapply Forall_impl; [exact H | by intros ? []]|]. intros He. apply Exists_exists in He as (p & Hp & Hr).
  rewrite Forall_forall in H. destruct (H p Hp). congruence.
Qed.

Lemma branchBase_spec repo : spec (branchBase environment credentialHelper repo) (fun l r => Forall harmless l /\ exists b, r = inl b).
Proof.
  unfold branchBase. destruct (negb _); [apply spec_ret; eauto|]. eapply spec_bind; [apply revParse_spec | |]; [|no_throw].
  intros l o (Hl & _). destruct (nonempty o); [apply spec_ret; rewrite app_nil_r; eauto|].
  eapply spec_bind; [apply git_unchecked_spec | |]; [|no_throw]. intros l2 a (a' & -> & _).
  eapply spec_bind; [apply revParse_spec | |]; [|no_throw]. intros l3 o3 (Hl3 & _).
  destruct (nonempty o3); apply spec_ret; rewrite app_nil_r; (split; [|by eexists]); (apply Forall_app; split; [done|]);
    apply Forall_app; (split; [by repeat constructor | done]).
Qed.

(** A checkout that neither created the branch nor found it missing. *)
Definition settled_checkout (r : BranchCheckout + GitError) : Prop :=
  match r with inl co => co_source co <> src_created | inr (BranchNotFoundError _) => False | inr _ => True end.

Lemma git_checkout_spec args co : co_source co <> src_created -> pushes (plain_command args) = false ->
  spec (git args ;;; ret co) (fun l r => (Forall (fun p => pushes (fst p) = false) l /\ (resets (plain_command args) = false -> Forall harmless l)) /\ settled_checkout r).
Proof.
  intros Hc Hp. assert (H : forall a, Forall (fun p : Command * RunResult => pushes (fst p) = false) [(plain_command args, a)]
    /\ (resets (plain_command args) = false -> Forall harmless [(plain_command args, a)])) by (intros a; split; repeat constructor; done).
  eapply spec_bind; [apply git_spec | |].
  - intros l a (a' & -> & _). apply spec_ret. rewrite app_nil_r. done.
  - intros l e (a' & -> & [[_ [=]]|[_ [= ->]]]). done.
Qed.

Lemma checkoutRemote_spec branch sha local :
  spec (checkoutRemote environment credentialHelper branch sha local) (fun l r => Forall (fun p => pushes (fst p) = false) l
    /\ (Exists (fun p => resets (fst p) = true) l -> nonempty local = false \/ local = Some sha
        \/ exists x a, local = Some x /\ (plain_command ["merge-base"; "--is-ancestor"; x; sha], a) ∈ l /\ rr_code a = 0)
    /\ settled_checkout r).
Proof.
  eapply spec_bind; [apply fetch_branch_spec | |].
  2: { intros l e [[Hp Hr]%harmless_ok (k & d & ->)]. by repeat split. }
  intros l2 _ [[Hp2 Hr2]%harmless_ok _]. eapply spec_bind; [apply own_commits_spec | |]; [|no_throw].
  intros l3 own ([Hp3 Hr3]%harmless_ok & own' & [= <-] & Hown).
  assert (Hreset : forall l4 l5, (own = true -> Forall harmless l4) -> ~ Exists (fun p => resets (fst p) = true) l5 ->
    Exists (fun p => resets (fst p) = true) (l2 ++ l3 ++ l4 ++ l5) -> nonempty local = false \/ local = Some sha
    \/ exists x a, local = Some x /\ (plain_command ["merge-base"; "--is-ancestor"; x; sha], a) ∈ l2 ++ l3 ++ l4 ++ l5 /\ rr_code a = 0).
  { intros l4 l5 Hh4 Hr5 He. rewrite !Exists_app in He. destruct own.
    - exfalso. destruct (harmless_ok _ (Hh4 eq_refl)) as [_ Hr4]. tauto.
    - destruct (Hown eq_refl) as [H|[H|(x & b & H & Hin & Hb)]]; [auto | auto|]. right. right. exists x, b. split; [done|]. split; [|done].
      apply elem_of_app. right. apply elem_of_app. by left. }
  eapply spec_bind with (Q1 := fun l r => (Forall (fun p => pushes (fst p) = false) l /\ (own = true -> Forall harmless l)) /\ settled_checkout r).
  { destruct own; (eapply spec_mono; [|by apply git_checkout_spec]); intros l r [[H1 H2] H3]; repeat split; auto; done. }
  - intros l4 co [[Hp4 Hh4] Hco]. eapply spec_bind; [apply git_unchecked_spec | |]; [|no_throw]. intros l5 a (a' & -> & _). apply spec_ret.
    rewrite app_nil_r. split; [repeat (apply Forall_app; split; [done|]); by repeat constructor|]. split; [|done].
    apply Hreset; [done|]. intros He. inversion He as [? ? Hx|? ? Hx]; [done | inversion Hx].
  - intros l4 e [[Hp4 Hh4] Hco]. split; [repeat (apply Forall_app; split; [done|]); done|]. split; [|done].
    specialize (Hreset l4 [] Hh4). rewrite app_nil_r in Hreset. apply Hreset. by intros ?%Exists_nil.
Qed.

Lemma contained_from branch l sha local l2 : remote_at branch l sha -> parsed (head_ref branch) l local ->
  (nonempty local = false \/ local = Some sha
   \/ exists x a, local = Some x /\ (plain_command ["merge-base"; "--is-ancestor"; x; sha], a) ∈ l2 /\ rr_code a = 0) -> contained branch (l ++ l2).
Proof.
  intros Hr Hp H. assert (Hsub : l ⊆ l ++ l2) by (intros x Hx; apply elem_of_app; by left). pose proof (parsed_mono _ _ _ _ Hsub Hp) as Hp'.
  pose proof (remote_mono _ _ _ _ Hsub Hr) as Hr'. destruct H as [H|[->|(x & a & -> & Hin & Ha)]].
  - left. by exists local.
  - right. exists sha, sha. auto.
  - right. exists x, sha. split; [done|]. split; [done|]. right. exists a. split; [set_solver | done].
Qed.

(** The branch is not on origin. *)
Lemma checkout_absent repo l local : Forall harmless l -> remote_absent (branchName repo) l -> parsed (head_ref (branchName repo)) l local ->
  spec (if nonempty local then
          git ["checkout"; branchName repo] ;;; ret (mkCheckout src_kept None (Some ("kept the workspace's unpublished " +:+ branchName repo)) false)
        else if existingBranch repo && negb (branchUnconfirmed repo) then throw (BranchNotFoundError (branchName repo))
        else
          let* base := branchBase environment credentialHelper repo in
          git ["checkout"; "--no-track"; "-b"; branchName repo; fst base] ;;;
          ret (mkCheckout src_created (Some (fst base)) (snd base) (existingBranch repo)))
    (fun l2 r => checkout_ok repo (l ++ l2) r).
Proof.
  intros Hl Hr Hp. assert (Hsafe : forall l2 r, Forall harmless l2 -> (nonempty local = false -> match r with
      | inl co => co_source co = src_created -> existingBranch repo = false \/ branchUnconfirmed repo = true
      | inr (BranchNotFoundError _) => existingBranch repo = true /\ branchUnconfirmed repo = false | inr _ => True end) ->
      (nonempty local = true -> settled_checkout r) -> checkout_ok repo (l ++ l2) r).
  { intros l2 r H2 Hf Ht. destruct (harmless_ok (l ++ l2)) as [Hpu Hre]; [by apply Forall_app|]. split; [done|]. split; [done|].
    assert (Hsub : l ⊆ l ++ l2) by (intros x Hx; apply elem_of_app; by left). destruct (nonempty local) eqn:Hn.
    - specialize (Ht eq_refl). by destruct r as [co|[]].
    - specialize (Hf eq_refl). assert (Hla : local_absent (branchName repo) (l ++ l2)) by (exists local; split; [by eapply parsed_mono | done]).
      pose proof (absent_mono _ _ _ Hsub Hr). destruct r as [co|[]]; [by auto | done | done | by destruct Hf | done | done]. }
  destruct (nonempty local).
  - eapply spec_mono; [|by apply git_checkout_spec]. intros l2 r [[_ H2] H3]. apply Hsafe; [by apply H2 | done | done].
  - destruct (existingBranch repo) eqn:He, (branchUnconfirmed repo) eqn:Hu; cbn [andb negb]; [|apply spec_throw; by apply Hsafe | |];
      (eapply spec_bind; [apply branchBase_spec | |]; [|no_throw]); intros l2 base (H2 & _); (eapply spec_bind; [apply git_spec | |]);
      [intros l3 a (a' & -> & _); apply spec_ret; rewrite app_nil_r
      | intros l3 e (a' & -> & [[_ [=]]|[_ [= ->]]])
      | intros l3 a (a' & -> & _); apply spec_ret; rewrite app_nil_r
      | intros l3 e (a' & -> & [[_ [=]]|[_ [= ->]]])
      | intros l3 a (a' & -> & _); apply spec_ret; rewrite app_nil_r
      | intros l3 e (a' & -> & [[_ [=]]|[_ [= ->]]])];
      (apply Hsafe; [apply Forall_app; split; [done | by repeat constructor] | by auto | done]).
Qed.

(** C9 (checkout_keeps_work). Whatever git and the code host answer, preparing the session's branch
    never pushes; it resets the workspace's branch only after the answers showed that every commit
    of it is on origin; and it starts a new branch, or reports one missing, only after the code
    host itself said that the branch does not exist and the workspace has none: a failed query
    never counts as an absent branch. *)
Theorem checkout_keeps_work (repo : BootstrapRepo) (h : History) :
  exists l, fst (checkoutSessionBranch environment credentialHelper repo h) = h ++ l
    /\ checkout_ok repo l (snd (checkoutSessionBranch environment credentialHelper repo h)).
Proof.
  revert h. change (spec (checkoutSessionBranch environment credentialHelper repo) (checkout_ok repo)).
  eapply spec_bind; [apply remoteBranchHead_spec | |].
  2: { intros l e [[Hp Hr]%harmless_ok (k & d & ->)]. by repeat split. }
  intros l1 remote [H1 Hrem]. eapply spec_bind; [apply revParse_spec | |]; [|no_throw]. intros l2 local (H2 & o & [= <-] & Hpar).
  assert (Hl : Forall harmless (l1 ++ l2)) by (by apply Forall_app). assert (Hs1 : l1 ⊆ l1 ++ l2) by set_solver.
  assert (Hs2 : l2 ⊆ l1 ++ l2) by set_solver. pose proof (parsed_mono _ _ _ _ Hs2 Hpar) as Hpar'.
  destruct remote as [sha|].
  - pose proof (remote_mono _ _ _ _ Hs1 Hrem) as Hrem'. eapply spec_mono; [|apply checkoutRemote_spec]. intros l3 r (Hp & Hr & Hs). rewrite app_assoc.
    destruct (harmless_ok _ Hl) as [Hpl Hrl]. split; [by apply Forall_app|]. split; [|by destruct r as [co|[]]].
    intros [He|He]%Exists_app; [done|]. eapply contained_from; [done | done | by apply Hr].
  - eapply spec_mono; [|apply (checkout_absent repo (l1 ++ l2) local); [done | exact (absent_mono _ _ _ Hs1 Hrem) | done]]. intros l3 r Hok. by rewrite app_assoc.
Qed.
End Facts.
