(* ===== verification/SdkHttp.v ===== *)
(** * The HTTP layer of the TypeScript SDK
    (sdk/typescript/src/rate-limit.ts, errors.ts, http.ts)

    Rate-limit headers, the mapping of responses to errors, URL building and the request loop
    with its retries.  The platform ([fetch], [JSON.parse], [Date.parse], [URL]) is given by
    parameters; what the network does in each attempt is an argument of the loop.  Delays are
    exact rationals.  The loop recurses on the retries that are left, so it always ends. *)

From Stdlib Require Import ZArith Lia Bool List Ascii QArith Qround Qpower Lqa.
From stdpp Require Import base list strings.
From S2P Require Import Prelude JsString JsMap Json JsNumber RunnerQueue.

Local Set Warnings "-register-all".

(** ** Rate limits *)

Record RateLimitInfo := mkRateLimit {
  requestsLimit : option Q; requestsRemaining : option Q; requestsResetAt : option Q; complexity : option Q;
  complexityLimit : option Q; complexityRemaining : option Q; complexityResetAt : option Q; endpointName : option string;
  endpointRequestsLimit : option Q; endpointRequestsRemaining : option Q; endpointRequestsResetAt : option Q;
  retryAfter : option Q }.

(** [headers.get(name)]; [None] is null. *)
Definition Headers : Type := string -> option string.

Definition integer (headers : Headers) (name : string) : option Q :=
  match headers name with
  | None => None
  | Some value => if trim value =s "" then None else Number value
  end.

(** [new Date(ms)], by its time value. *)
Definition epoch (headers : Headers) (name : string) : option Q := integer headers name.

Section Sdk.
(** [Date.parse], in milliseconds; [None] is NaN. *)
Context (Date_parse : string -> option Z).

Definition parseRetryAfter (value : option string) (now : Z) : option Q :=
  match value with
  | None => None
  | Some value =>
      if trim value =s "" then None
      else match Number value with
           | Some seconds => Some (Qmax0 seconds)
           | None => match Date_parse value with
                     | Some date => Some (Qmax0 (inject_Z (Qceiling (inject_Z (date - now) / 1000)%Q)))
                     | None => None
                     end
           end
  end.

Definition no_info (i : RateLimitInfo) : bool :=
  match i with
  | mkRateLimit None None None None None None None None None None None None => true
  | _ => false
  end.

Definition parseRateLimit (headers : Headers) (now : Z) : option RateLimitInfo :=
  let info := {|
    requestsLimit := integer headers "X-RateLimit-Requests-Limit";
    requestsRemaining := integer headers "X-RateLimit-Requests-Remaining";
    requestsResetAt := epoch headers "X-RateLimit-Requests-Reset";
    complexity := integer headers "X-Complexity";
    complexityLimit := integer headers "X-RateLimit-Complexity-Limit";
    complexityRemaining := integer headers "X-RateLimit-Complexity-Remaining";
    complexityResetAt := epoch headers "X-RateLimit-Complexity-Reset";
    endpointName := headers "X-RateLimit-Endpoint-Name";
    endpointRequestsLimit := integer headers "X-RateLimit-Endpoint-Requests-Limit";
    endpointRequestsRemaining := integer headers "X-RateLimit-Endpoint-Requests-Remaining";
    endpointRequestsResetAt := epoch headers "X-RateLimit-Endpoint-Requests-Reset";
    retryAfter := parseRetryAfter (headers "Retry-After") now |} in
  if no_info info then None else Some info.

(** ** Errors *)

Inductive FlowErrorType :=
  | INVALID_INPUT | AUTHENTICATION_ERROR | FORBIDDEN | FEATURE_NOT_ACCESSIBLE | NOT_FOUND | CONFLICT | RATELIMITED
  | INTERNAL_ERROR | UNAVAILABLE
  | NETWORK_ERROR | TIMEOUT | ABORTED | OAUTH_ERROR | UNKNOWN.

Definition show_type (t : FlowErrorType) : string :=
  match t with
  | INVALID_INPUT => "INVALID_INPUT" | AUTHENTICATION_ERROR => "AUTHENTICATION_ERROR" | FORBIDDEN => "FORBIDDEN"
  | FEATURE_NOT_ACCESSIBLE => "FEATURE_NOT_ACCESSIBLE" | NOT_FOUND => "NOT_FOUND" | CONFLICT => "CONFLICT"
  | RATELIMITED => "RATELIMITED" | INTERNAL_ERROR => "INTERNAL_ERROR" | UNAVAILABLE => "UNAVAILABLE"
  | NETWORK_ERROR => "NETWORK_ERROR" | TIMEOUT => "TIMEOUT" | ABORTED => "ABORTED" | OAUTH_ERROR => "OAUTH_ERROR"
  | UNKNOWN => "UNKNOWN"
  end.

Inductive ErrorClass :=
  | InvalidInputFlowError | AuthenticationFlowError | ForbiddenFlowError | FeatureNotAccessibleFlowError
  | NotFoundFlowError | ConflictFlowError | RatelimitedFlowError | InternalFlowError | UnavailableFlowError
  | NetworkFlowError | TimeoutFlowError | AbortFlowError | FlowOAuthError | UnknownFlowError.

Record FlowErrorInit := {
  i_message : string; i_type : FlowErrorType; i_code : option string; i_status : option Z; i_requestId : option string;
  i_method : option string; i_url : option string; i_body : option json; i_rateLimit : option RateLimitInfo }.

Record FlowError := mkFlowError {
  e_class : ErrorClass; e_message : string; e_type : FlowErrorType; e_code : string; e_status : Z;
  e_requestId : option string; e_method : option string; e_url : option string; e_body : option json;
  e_rateLimit : option RateLimitInfo }.

(** The constructor of the base class, for a subclass. *)
Definition new_FlowError (c : ErrorClass) (init : FlowErrorInit) : FlowError :=
  mkFlowError c (i_message init) (i_type init) (i_code init ?? show_type (i_type init)) (i_status init ?? 0%Z)
    (i_requestId init) (i_method init) (i_url init) (i_body init) (i_rateLimit init).

Definition retryable (e : FlowError) : bool :=
  match e_type e with
  | RATELIMITED | INTERNAL_ERROR | UNAVAILABLE | NETWORK_ERROR | TIMEOUT => true
  | _ => false
  end.

Definition errorTypeForStatus (status : Z) : FlowErrorType :=
  if (status =? 401)%Z then AUTHENTICATION_ERROR
  else if (status =? 403)%Z then FORBIDDEN
  else if (status =? 404)%Z || (status =? 410)%Z then NOT_FOUND
  else if (status =? 409)%Z || (status =? 412)%Z then CONFLICT
  else if (status =? 429)%Z then RATELIMITED
  else if (status =? 502)%Z || (status =? 503)%Z || (status =? 504)%Z then UNAVAILABLE
  else if (500 <=? status)%Z then INTERNAL_ERROR
  else if (400 <=? status)%Z then INVALID_INPUT
  else UNKNOWN.

(** The declared types of the envelope ([knownTypes]). *)
Definition known_type (s : string) : option FlowErrorType :=
  head (List.filter (fun t => show_type t =s s)
          [INVALID_INPUT; AUTHENTICATION_ERROR; FORBIDDEN; FEATURE_NOT_ACCESSIBLE; NOT_FOUND; CONFLICT; RATELIMITED;
           INTERNAL_ERROR; UNAVAILABLE]).

Definition classes (t : FlowErrorType) : ErrorClass :=
  match t with
  | INVALID_INPUT => InvalidInputFlowError | AUTHENTICATION_ERROR => AuthenticationFlowError
  | FORBIDDEN => ForbiddenFlowError | FEATURE_NOT_ACCESSIBLE => FeatureNotAccessibleFlowError
  | NOT_FOUND => NotFoundFlowError | CONFLICT => ConflictFlowError | RATELIMITED => RatelimitedFlowError
  | INTERNAL_ERROR => InternalFlowError | UNAVAILABLE => UnavailableFlowError
  | _ => UnknownFlowError
  end.

(** [typeof envelope?.key === 'string' ? envelope.key : undefined] *)
Definition string_field (key : string) (body : option json) : option string :=
  match body ≫= field key with Some (JStr s) => Some s | _ => None end.

(** The first of the candidates that is a non-empty string. *)
Definition first_truthy (l : list (option string)) : option string :=
  head (List.filter truthy (omap id l)).

Definition parseFlowError (status : Z) (body : option json) (headers : option Headers) (method url : option string) (now : Z) : FlowError :=
  let declared := string_field "type" body in
  let type := match declared ≫= known_type with Some t => t | None => errorTypeForStatus status end in
  let text := match body with Some (JStr s) => Some (slice 0 300 (trim s)) | _ => None end in
  let message := first_truthy [string_field "error" body; string_field "message" body; text]
                 ?? ("Flow API request failed with status " +:+ showZ status) in
  let requestId := first_truthy [string_field "requestId" body; headers ≫= (fun h => h "X-Request-ID")] in
  new_FlowError (classes type) {|
    i_message := message; i_type := type; i_code := string_field "code" body; i_status := Some status;
    i_requestId := requestId; i_method := method; i_url := url; i_body := body;
    i_rateLimit := headers ≫= (fun h => parseRateLimit h now) |}.

(** [ConflictFlowError.current], [RatelimitedFlowError.retryAfter], [FlowOAuthError.errorDescription]. *)
Definition conflict_current (e : FlowError) : option json := e_body e ≫= field "current".
Definition error_retryAfter (e : FlowError) : option Q := e_rateLimit e ≫= retryAfter.
Definition errorDescription (e : FlowError) : option json := e_body e ≫= field "error_description".

(** ** Retry settings *)

Record RetryOptions := mkRetryOptions {
  o_retries : option Z; o_baseDelayMs : option Q; o_maxDelayMs : option Q; o_factor : option Q;
  o_jitter : option bool; o_retryNonIdempotent : option bool }.

(** [boolean | number | RetryOptions | undefined] *)
Inductive RetrySetting := RetryBool (b : bool) | RetryCount (n : Z) | RetryWith (o : RetryOptions) | RetryUndefined.

Record ResolvedRetry := mkRetry {
  retries : Z; baseDelayMs : Q; maxDelayMs : Q; factor : Q; jitter : bool; retryNonIdempotent : bool }.

Definition resolveRetry (retry : RetrySetting) : ResolvedRetry :=
  let none := mkRetryOptions None None None None None None in
  let options := match retry with
    | RetryBool true => none
    | RetryCount n => mkRetryOptions (Some n) None None None None None
    | RetryBool false | RetryUndefined => mkRetryOptions (Some 0%Z) None None None None None
    | RetryWith o => o
    end in
  mkRetry (Z.max 0 (o_retries options ?? 3%Z)) (o_baseDelayMs options ?? 500%Q) (o_maxDelayMs options ?? 30000%Q)
    (o_factor options ?? 2%Q) (o_jitter options ?? true) (o_retryNonIdempotent options ?? false).

Definition idempotent (method : string) : bool := existsb (String.eqb method) ["GET"; "HEAD"; "PUT"; "DELETE"; "OPTIONS"].

Definition shouldRetry (r : ResolvedRetry) (failure : FlowError) (method : string) : bool :=
  match e_type failure with
  | ABORTED => false
  | RATELIMITED => true
  | INTERNAL_ERROR | UNAVAILABLE | NETWORK_ERROR | TIMEOUT => idempotent method || retryNonIdempotent r
  | _ => false
  end.

Definition Qmin2 (a b : Q) : Q := if Qle_bool a b then a else b.

(** [random] is the value of [random()] for this attempt. *)
Definition delayFor (r : ResolvedRetry) (failure : FlowError) (attempt : nat) (random : Q) : option Q :=
  match error_retryAfter failure with
  | Some seconds => let wait := (seconds * 1000)%Q in if Qltb (maxDelayMs r) wait then None else Some wait
  | None =>
      let delay := Qmin2 (maxDelayMs r) (baseDelayMs r * Qpower (factor r) (Z.of_nat attempt))%Q in
      Some (if jitter r then inject_Z (Math_round (delay * ((1 # 2) + random * (1 # 2)))%Q) else delay)
  end.

End Sdk.

(** ** URLs *)

(** [URLSearchParams.toString()]: letters, digits and * - . _ as they are, + for a space. *)
Fixpoint form_encode (s : string) : string :=
  match s with
  | EmptyString => EmptyString
  | String c r =>
      let n := nat_of_ascii c in
      (if alnum n || existsb (Nat.eqb n) [42; 45; 46; 95] then String c EmptyString
       else if (n =? 32)%nat then "+" else percent_unit n) +:+ form_encode r
  end.

(** A query value; a date by its ISO text, a scalar by [String(value)]. *)
Inductive QueryValue := QUndefined | QNull | QArray (l : list QueryValue) | QDate (iso : string) | QObject (v : json) | QScalar (s : string).

Fixpoint appendQuery (key : string) (value : QueryValue) : list (string * string) :=
  match value with
  | QUndefined | QNull => []
  | QArray l => flat_map (appendQuery key) l
  | QDate iso => [(key, iso)]
  | QObject v => [(key, stringify_json v)]
  | QScalar s => [(key, s)]
  end.

(** [[^{}]+] *)
Fixpoint span_name (s : string) : string * string :=
  match s with
  | String c r =>
      if Ascii.eqb c "{" || Ascii.eqb c "}" then (EmptyString, s)
      else let '(name, rest) := span_name r in (String c name, rest)
  | EmptyString => (EmptyString, EmptyString)
  end.

(** The replacement of the placeholders; [None] when a parameter is missing (a TypeError).  The
    fuel is the length of the path. *)
Fixpoint fill (fuel : nat) (params : list (string * string)) (s : string) : option string :=
  match fuel with
  | O => Some s
  | S fuel' =>
      match s with
      | EmptyString => Some EmptyString
      | String c r =>
          if Ascii.eqb c "{" then
            match span_name r with
            | (String n0 ns, String "}" rest) =>
                match map_get (String n0 ns) params with
                | Some value => if truthy value then String.append (encodeURIComponent value) <$> fill fuel' params rest else None
                | None => None
                end
            | _ => String c <$> fill fuel' params r
            end
          else String c <$> fill fuel' params r
      end
  end.

Definition buildPath (path : string) (pathParams : list (string * string)) (query : list (string * QueryValue)) : option string :=
  match fill (String.length path) pathParams path with
  | None => None
  | Some filled =>
      let params := flat_map (fun p => appendQuery (fst p) (snd p)) query in
      let search := join "&" (map (fun p => form_encode (fst p) +:+ "=" +:+ form_encode (snd p)) params) in
      Some (if truthy search then filled +:+ "?" +:+ search else filled)
  end.

(** ** One attempt *)

Inductive Expect := ex_json | ex_none | ex_text | ex_response.

Record RequestSpec := mkSpec {
  method : string; path : string; pathParams : list (string * string); query : list (string * QueryValue);
  body : option json; rawBody : option string; expect : Expect; spec_url : option string; auth : bool;
  spec_headers : list (string * string); spec_timeout : option Z; spec_retries : option Z }.

Record Response := mkResponse { r_status : Z; r_headers : Headers; r_text : option string }.

Definition response_ok (r : Response) : bool := (200 <=? r_status r)%Z && (r_status r <? 300)%Z.

(** What happens during an attempt: the signal aborted before it; the client's headers ([inl]: the function
    throws, a FlowError or something else); what [fetch] does ([inl]: it rejects, with a FlowError or with an
    error of this message); whether the signal is aborted, or the timer has fired, when a failure is
    classified; the clock. *)
Record AttemptEnv := mkEnv {
  aborted_before : bool; base_headers : option FlowError + list (string * string); fetched : (FlowError + string) + Response;
  aborted_now : bool; timed_out : bool; clock : Z }.

Inductive Data := DUndefined | DText (s : string) | DJson (v : json) | DResponse (r : Response).

Record HttpResult := mkResult { h_data : Data; h_status : Z; h_requestId : option string; h_rateLimit : option RateLimitInfo }.

(** An attempt succeeds, throws a FlowError, or throws something else. *)
Inductive Attempt := AOk (r : HttpResult) | AFail (e : FlowError) | AThrow.

Section Transport.
Context (JSON_parse : string -> option json) (Date_parse : string -> option Z)
  (isBrowser : bool) (userAgent : option string) (sdkVersion : string) (default_timeout : Z).

Definition simple_init (message : string) (t : FlowErrorType) (m url : string) : FlowErrorInit :=
  {| i_message := message; i_type := t; i_code := None; i_status := None; i_requestId := None;
     i_method := Some m; i_url := Some url; i_body := None; i_rateLimit := None |}.

Definition abort_error (m url : string) : FlowError :=
  new_FlowError AbortFlowError (simple_init "The request was aborted" ABORTED m url).

(** What [abortableSleep] rejects with. *)
Definition sleep_abort_error : FlowError :=
  new_FlowError AbortFlowError {| i_message := "The request was aborted"; i_type := ABORTED; i_code := None; i_status := None; i_requestId := None;
    i_method := None; i_url := None; i_body := None; i_rateLimit := None |}.

Definition classify (env : AttemptEnv) (timeout : Z) (m url : string) (error : FlowError + string) : FlowError :=
  match error with
  | inl e => e
  | inr detail =>
      if aborted_now env then abort_error m url
      else if timed_out env then new_FlowError TimeoutFlowError (simple_init ("Request timed out after " +:+ showZ timeout +:+ " ms") TIMEOUT m url)
      else new_FlowError NetworkFlowError (simple_init ("Network request failed: " +:+ detail) NETWORK_ERROR m url)
  end.

(** [headers.set(name, value)]: names are case-insensitive. *)
Definition set_header (h : list (string * string)) (p : string * string) : list (string * string) :=
  map_set (toLowerCase (fst p)) (snd p) h.

(** [userAgent]: [Some ""] stands for [false]. *)
Definition buildHeaders (spec : RequestSpec) (base : list (string * string)) (hasJsonBody : bool) : list (string * string) :=
  let h0 := set_header [] ("Accept", "application/json") in
  let h1 :=
    if auth spec then
      let h := fold_left set_header base h0 in
      if negb (bool_decide (userAgent = Some "")) && negb isBrowser && negb (map_has "user-agent" h)
      then set_header h ("User-Agent", userAgent ?? ("flow-sdk-typescript/" +:+ sdkVersion)) else h
    else h0 in
  let h2 := if hasJsonBody then set_header h1 ("Content-Type", "application/json") else h1 in
  fold_left set_header (spec_headers spec) h2.

Definition parseBody (text : string) : option json :=
  if trim text =s "" then None else Some (JSON_parse text ?? JStr text).

(** The request sent: its headers and body. *)
Record Sent := mkSent { sent_url : string; sent_headers : list (string * string); sent_body : option string }.

Definition attempt (spec : RequestSpec) (m url : string) (env : AttemptEnv) : Attempt * option Sent * option RateLimitInfo :=
  if aborted_before env then (AFail (abort_error m url), None, None)
  else match (if auth spec then base_headers env else inr []) with
  | inl None => (AThrow, None, None)
  | inl (Some e) => (AFail e, None, None)
  | inr base =>
      let hasJsonBody := isSome (body spec) && negb (isSome (rawBody spec)) in
      let timeout := spec_timeout spec ?? default_timeout in
      let sent := mkSent url (buildHeaders spec base hasJsonBody)
        (match rawBody spec with Some b => Some b | None => if hasJsonBody then stringify_json <$> body spec else None end) in
      match fetched env with
      | inl error => (AFail (classify env timeout m url error), Some sent, None)
      | inr response =>
          let rateLimit := parseRateLimit Date_parse (r_headers response) (clock env) in
          let requestId := r_headers response "X-Request-ID" in
          let base d := AOk (mkResult d (r_status response) requestId rateLimit) in
          let outcome :=
            if response_ok response && (match expect spec with ex_response => true | _ => false end) then base (DResponse response)
            else match r_text response with
            | None => AFail (classify env timeout m url (inr "body"))
            | Some text =>
                if negb (response_ok response) then
                  AFail (parseFlowError Date_parse (r_status response) (parseBody text) (Some (r_headers response)) (Some m) (Some url) (clock env))
                else match expect spec with
                | ex_none => base DUndefined
                | ex_text => base (DText text)
                | _ =>
                    if trim text =s "" then base DUndefined
                    else match JSON_parse text with
                    | Some v => base (DJson v)
                    | None => AFail (new_FlowError UnknownFlowError {|
                        i_message := "The server returned a response that is not valid JSON"; i_type := UNKNOWN; i_code := None;
                        i_status := Some (r_status response); i_requestId := requestId; i_method := Some m; i_url := Some url;
                        i_body := Some (JStr (slice 0 500 text)); i_rateLimit := None |})
                    end
                end
            end in
          (outcome, Some sent, rateLimit)
      end
  end.

(** ** The request loop *)

(** How a request ends: refused before it is sent, a result, an error of the SDK, another error. *)
Inductive Outcome := Refused | MissingParameter | Done (r : HttpResult) | Failed (e : FlowError) | Threw.

(** What was done: for each attempt its request, if one was sent, and the delay slept after it. *)
Record Round := mkRound { sent : option Sent; failure : option FlowError; slept : option Q }.

Section Loop.
Context (retry : ResolvedRetry) (spec : RequestSpec) (m url : string)
  (envs : nat -> AttemptEnv) (random : nat -> Q) (sleep_aborts : nat -> bool).

Fixpoint request_loop (left n : nat) : Outcome * list Round :=
  let '(outcome, sent, _) := attempt spec m url (envs n) in
  match outcome with
  | AOk r => (Done r, [mkRound sent None None])
  | AThrow => (Threw, [mkRound sent None None])
  | AFail e =>
      match left with
      | O => (Failed e, [mkRound sent (Some e) None])
      | S left' =>
          if negb (shouldRetry retry e m) then (Failed e, [mkRound sent (Some e) None])
          else match delayFor retry e n (random n) with
               | None => (Failed e, [mkRound sent (Some e) None])
               | Some delay =>
                   if sleep_aborts n then (Failed sleep_abort_error, [mkRound sent (Some e) (Some delay)])
                   else let '(o, rounds) := request_loop left' (S n) in (o, mkRound sent (Some e) (Some delay) :: rounds)
               end
      end
  end.
End Loop.

(** [new URL(url, base).toString()] and [new URL(url).origin]. *)
Context (resolve_url : string -> string -> string) (origin : string -> string).

Definition requestWithMeta (baseUrl : string) (retry : ResolvedRetry) (spec : RequestSpec)
  (envs : nat -> AttemptEnv) (random : nat -> Q) (sleep_aborts : nat -> bool) : Outcome * list Round :=
  let m := toUpperCase (method spec) in
  let given := match spec_url spec with Some u => if truthy u then Some u else None | None => None end in
  let url := match given with
    | Some u => Some (resolve_url u (baseUrl +:+ "/"))
    | None => String.append baseUrl <$> buildPath (path spec) (pathParams spec) (query spec)
    end in
  match url with
  | None => (MissingParameter, [])
  | Some url =>
      if isSome given && auth spec && negb (origin url =s origin baseUrl) then (Refused, [])
      else
        let maxRetries := match spec_retries spec with Some n => Z.max 0 n | None => retries retry end in
        request_loop retry spec m url envs random sleep_aborts (Z.to_nat maxRetries) 0
  end.
End Transport.

(** ** Properties *)

(** *** Retries *)

(** Sane settings: a whole number of milliseconds as the longest delay. *)
Record retry_ok (r : ResolvedRetry) (M : Z) : Prop := {
  ro_max : maxDelayMs r = inject_Z M; ro_pos : (0 <= M)%Z; ro_base : (0 <= baseDelayMs r)%Q; ro_factor : (0 <= factor r)%Q }.

Lemma Qmin2_le_l a b : (Qmin2 a b <= a)%Q.
Proof. unfold Qmin2. destruct (Qle_bool a b) eqn:H; [lra|]. apply Qlt_le_weak, Qnot_le_lt. intros Hle. apply Qle_bool_iff in Hle. congruence. Qed.

Lemma Qmin2_nonneg a b : (0 <= a)%Q -> (0 <= b)%Q -> (0 <= Qmin2 a b)%Q.
Proof. unfold Qmin2. by destruct (Qle_bool a b). Qed.

Lemma Qpower_nonneg q n : (0 <= q)%Q -> (0 <= Qpower q (Z.of_nat n))%Q.
Proof. intros Hq. by apply Qpower_0_le. Qed.

Lemma delayFor_bound r M e n random d :
  retry_ok r M -> (0 <= random)%Q -> (random < 1)%Q -> delayFor r e n random = Some d -> (d <= inject_Z M)%Q.
Proof.
  intros [Hmax Hpos Hbase Hfac] Hr0 Hr1. unfold delayFor. rewrite Hmax. destruct (error_retryAfter e) as [s|].
  - destruct (Qltb (inject_Z M) (s * 1000)) eqn:Hb; [done|]. intros [= <-].
    destruct (Qlt_le_dec (inject_Z M) (s * 1000)) as [Hlt|Hle]; [|done]. apply Qltb_spec in Hlt. congruence.
  - set (delay := Qmin2 _ _). intros [= <-].
    assert (Hd1 : (delay <= inject_Z M)%Q) by apply Qmin2_le_l.
    assert (Hm : (0 <= inject_Z M)%Q) by (change 0%Q with (inject_Z 0); by rewrite <- Zle_Qle).
    assert (Hd0 : (0 <= delay)%Q) by (apply Qmin2_nonneg; [done|]; apply Qmult_le_0_compat; [done | by apply Qpower_nonneg]).
    destruct (jitter r); [|done]. rewrite <- Zle_Qle. apply Math_round_le.
    assert (Hp : (delay * ((1 # 2) + random * (1 # 2)) <= delay)%Q) by nra. lra.
Qed.

(** One round that is followed by another: a failure worth retrying and a bounded delay. *)
Definition retried_ok (r : ResolvedRetry) (M : Z) (m : string) (rd : Round) : Prop :=
  exists e d, failure rd = Some e /\ slept rd = Some d /\ (d <= inject_Z M)%Q /\ retryable e = true
    /\ (e_type e = RATELIMITED \/ idempotent m = true \/ retryNonIdempotent r = true).

Lemma shouldRetry_retryable r e m : shouldRetry r e m = true ->
  retryable e = true /\ (e_type e = RATELIMITED \/ idempotent m = true \/ retryNonIdempotent r = true).
Proof. unfold shouldRetry, retryable. destruct (e_type e); try done; auto; intros H%orb_true_iff; auto. Qed.

Section Loops.
Context (JSON_parse : string -> option json) (Date_parse : string -> option Z)
  (isBrowser : bool) (userAgent : option string) (sdkVersion : string) (default_timeout : Z)
  (resolve_url : string -> string -> string) (origin : string -> string).

Abbreviation loop := (request_loop JSON_parse Date_parse isBrowser userAgent sdkVersion default_timeout).
Abbreviation request := (requestWithMeta JSON_parse Date_parse isBrowser userAgent sdkVersion default_timeout resolve_url origin).

Lemma request_loop_rounds retry M spec m url envs random aborts left n :
  retry_ok retry M -> (forall k, 0 <= random k /\ random k < 1)%Q ->
  let '(o, rounds) := loop retry spec m url envs random aborts left n in
  exists before last, rounds = before ++ [last] /\ (length before <= left)%nat
    /\ Forall (retried_ok retry M m) before
    /\ match o with
       | Failed e => failure last = Some e \/ (retried_ok retry M m last /\ e = sleep_abort_error)
       | Done _ | Threw => failure last = None
       | _ => False
       end.
Proof.
  intros Hok Hr. revert n. induction left as [|left IH]; intros n; cbn [request_loop];
    destruct (attempt _ _ _ _ _ _ _ _ _ _) as [[[r|e|] sn] rl];
    try (eexists [], _; split; [reflexivity|]; split; [simpl; lia|]; split; [constructor | simpl; auto]; fail).
  destruct (shouldRetry retry e m) eqn:Hs; cbn [negb];
    [|eexists [], _; split; [reflexivity|]; split; [simpl; lia|]; split; [constructor | simpl; auto]].
  destruct (delayFor retry e n (random n)) as [d|] eqn:Hd;
    [|eexists [], _; split; [reflexivity|]; split; [simpl; lia|]; split; [constructor | simpl; auto]].
  assert (Hround : retried_ok retry M m (mkRound sn (Some e) (Some d))).
  { destruct (shouldRetry_retryable _ _ _ Hs). exists e, d. repeat split; try done.
    by eapply delayFor_bound; [exact Hok | apply Hr | apply Hr | exact Hd]. }
  destruct (aborts n).
  - eexists [], _. split; [reflexivity|]. split; [simpl; lia|]. split; [constructor | by right].
  - specialize (IH (S n)). destruct (loop retry spec m url envs random aborts left (S n)) as [o rounds].
    destruct IH as (before & last & -> & Hl & Hf & Ho). exists (mkRound sn (Some e) (Some d) :: before), last.
    split; [done|]. split; [simpl; lia|]. split; [by constructor | done].
Qed.

(** C33 (sdk_retries_disciplined). A request makes at most one attempt more than its retries and
    then ends.  Every attempt but the last failed with an error worth retrying (a rate limit, or a
    server or network failure of an idempotent request unless the client opted in for others) and
    was followed by a delay of at most [maxDelayMs]; the error thrown is the last attempt's, or an
    abort during the last delay. *)
Theorem sdk_retries_disciplined retry M baseUrl spec envs random aborts :
  retry_ok retry M -> (forall k, 0 <= random k /\ random k < 1)%Q ->
  let '(o, rounds) := request baseUrl retry spec envs random aborts in
  let allowed := match spec_retries spec with Some n => Z.max 0 n | None => retries retry end in
  (rounds = [] /\ (o = Refused \/ o = MissingParameter))
  \/ exists before last m, m = toUpperCase (method spec) /\ rounds = before ++ [last]
       /\ (length before <= Z.to_nat allowed)%nat /\ Forall (retried_ok retry M m) before
       /\ match o with
          | Failed e => failure last = Some e \/ (retried_ok retry M m last /\ e = sleep_abort_error)
          | Done _ | Threw => failure last = None
          | _ => False
          end.
Proof.
  intros Hok Hr. unfold requestWithMeta. set (m := toUpperCase (method spec)).
  destruct (match match spec_url spec with Some u => if truthy u then Some u else None | None => None end with
            | Some u => Some (resolve_url u (baseUrl +:+ "/"))
            | None => String.append baseUrl <$> buildPath (path spec) (pathParams spec) (query spec) end) as [url|]; [|left; auto].
  destruct (_ && _ && _); [left; auto|].
  pose proof (request_loop_rounds retry M spec m url envs random aborts
    (Z.to_nat (match spec_retries spec with Some n => Z.max 0 n | None => retries retry end)) 0 Hok Hr) as H.
  destruct (loop retry spec m url envs random aborts _ 0) as [o rounds]. destruct H as (before & last & H).
  right. exists before, last, m. done.
Qed.

(** *** Credentials *)

Lemma set_header_keys h p k : k ∈ map_keys (set_header h p) -> k ∈ map_keys h \/ k = toLowerCase (fst p).
Proof.
  unfold set_header. destruct (decide (toLowerCase (fst p) ∈ map_keys h)) as [Hin|Hn].
  - rewrite map_set_keys_known by done. auto.
  - rewrite map_set_keys_new by done. intros [H|H%list_elem_of_singleton]%elem_of_app; auto.
Qed.

Lemma set_headers_keys ps h k : k ∈ map_keys (fold_left set_header ps h) -> k ∈ map_keys h \/ k ∈ map (fun p => toLowerCase (fst p)) ps.
Proof.
  revert h. induction ps as [|p ps IH]; simpl; intros h; [auto|]. intros [H|H]%IH; [|right; by right].
  apply set_header_keys in H as [H| ->]; [by left | right; left].
Qed.

Lemma loop_sent retry spec m url envs random aborts left n rd s :
  rd ∈ snd (loop retry spec m url envs random aborts left n) -> sent rd = Some s ->
  sent_url s = url /\ exists base json, sent_headers s = buildHeaders isBrowser userAgent sdkVersion spec base json.
Proof.
  assert (Hat : forall k s0, snd (fst (attempt JSON_parse Date_parse isBrowser userAgent sdkVersion default_timeout spec m url (envs k))) = Some s0 ->
    sent_url s0 = url /\ exists base json, sent_headers s0 = buildHeaders isBrowser userAgent sdkVersion spec base json).
  { intros k s0. unfold attempt. destruct (aborted_before _); [done|]. destruct (if auth spec then _ else _) as [[e|]|base]; [done | done|].
    destruct (fetched _); simpl; intros [= <-]; eauto. }
  revert n. induction left as [|left IH]; intros n; cbn [request_loop]; pose proof (Hat n) as Hn;
    destruct (attempt JSON_parse Date_parse isBrowser userAgent sdkVersion default_timeout spec m url (envs n)) as [[[r|e|] sn] rl]; simpl in Hn;
    try (simpl; intros ->%list_elem_of_singleton; simpl; by apply Hn).
  destruct (negb _); [simpl; intros ->%list_elem_of_singleton; simpl; by apply Hn|].
  destruct (delayFor _ _ _ _) as [d|]; [|simpl; intros ->%list_elem_of_singleton; simpl; by apply Hn].
  destruct (aborts n); [simpl; intros ->%list_elem_of_singleton; simpl; by apply Hn|].
  specialize (IH (S n)). destruct (loop retry spec m url envs random aborts left (S n)) as [o rounds]. simpl in *.
  intros [-> |H]%elem_of_cons; [simpl; by apply Hn | by apply IH].
Qed.

(** C34 (sdk_credentials_confined). The client's credentials never leave the API's origin: a request
    to an explicit URL that carries them goes to the origin of the API URL, on every attempt; and a
    request that asks for no credentials carries no header but Accept, Content-Type and its own. *)
Theorem sdk_credentials_confined baseUrl retry spec envs random aborts rd s :
  rd ∈ snd (request baseUrl retry spec envs random aborts) -> sent rd = Some s ->
  (auth spec = true -> forall u, spec_url spec = Some u -> u <> "" -> origin (sent_url s) = origin baseUrl)
  /\ (auth spec = false -> forall k, k ∈ map_keys (sent_headers s) ->
        k ∈ ["accept"; "content-type"] \/ k ∈ map (fun p => toLowerCase (fst p)) (spec_headers spec)).
Proof.
  unfold requestWithMeta.
  set (given := match spec_url spec with Some u => if truthy u then Some u else None | None => None end).
  destruct (match given with Some u => _ | None => _ end) as [url|]; [|by intros ?%elem_of_nil].
  destruct (isSome given && auth spec && negb (origin url =s origin baseUrl)) eqn:Hg; [by intros ?%elem_of_nil|].
  intros Hrd Hs. destruct (loop_sent _ _ _ _ _ _ _ _ _ _ _ Hrd Hs) as (-> & base & js & Hh). split.
  - intros Ha u Hu Hne. unfold given in Hg. rewrite Hu, Ha in Hg. unfold truthy in Hg.
    destruct (u =s "") eqn:He; breflect; [done|]. simpl in Hg. by breflect.
  - intros Ha k. rewrite Hh. unfold buildHeaders. rewrite Ha. intros [Hk|Hk]%set_headers_keys; [|by right]. left.
    destruct js; [apply set_header_keys in Hk as [Hk| ->]; [|right; left]|];
      change (k ∈ ["accept"]) in Hk; apply list_elem_of_singleton in Hk as ->; left.
Qed.
End Loops.

Definition demo_spec (m : string) : RequestSpec :=
  mkSpec m "/api/issues/{id}" [("id", "a b")] [] None None ex_json None true [] None None.

(** Two 503 answers, then a body. *)
Definition demo_envs (n : nat) : AttemptEnv :=
  mkEnv false (inr [("Authorization", "key")])
    (inr (mkResponse (if (n <? 2)%nat then 503 else 200) (fun _ => None) (Some "ok"))) false false 0.

Lemma sdk_retries_disciplined_witness :
  let r := resolveRetry (RetryBool true) in
  let run m := requestWithMeta (fun _ => Some JNull) (fun _ => None) false None "0.1.0" 30000 (fun u _ => u) id "http://x" r
                 (demo_spec m) demo_envs (fun _ => (1 # 2)%Q) (fun _ => false) in
  length (snd (run "get")) = 3%nat /\ length (snd (run "post")) = 1%nat /\ (length (snd (run "get")) <= 4)%nat.
Proof.
  intros r run. split; [vm_compute; reflexivity|]. split; [vm_compute; reflexivity|].
  assert (Hok : retry_ok r 30000) by (split; [reflexivity | lia | apply Qle_bool_iff; reflexivity ..]).
  pose proof (sdk_retries_disciplined (fun _ => Some JNull) (fun _ => None) false None "0.1.0" 30000 (fun u _ => u) id r 30000
    "http://x" (demo_spec "get") demo_envs (fun _ => (1 # 2)%Q) (fun _ => false) Hok ltac:(intros; split; lra)) as H.
  fold (run "get") in H. destruct (run "get") as [o rounds]. simpl.
  destruct H as [[-> _]|(before & last & m & _ & -> & Hl & _)]; [simpl; lia|].
  rewrite length_app. simpl in *. change (Z.to_nat (retries r)) with 3%nat in Hl. lia.
Defined.

Lemma sdk_credentials_confined_witness :
  let spec := mkSpec "GET" "" [] [] None None ex_json (Some "http://x/file") true [] None None in
  let '(o, rounds) := requestWithMeta (fun _ => Some JNull) (fun _ => None) false None "0.1.0" 30000 (fun u _ => u)
    (slice 0 8) "http://x" (resolveRetry RetryUndefined) spec demo_envs (fun _ => 0%Q) (fun _ => false) in
  exists rd s, rd ∈ rounds /\ sent rd = Some s /\ slice 0 8 (sent_url s) = slice 0 8 "http://x".
Proof.
  intros spec. pose proof (sdk_credentials_confined (fun _ => Some JNull) (fun _ => None) false None "0.1.0" 30000 (fun u _ => u)
    (slice 0 8) "http://x" (resolveRetry RetryUndefined) spec demo_envs (fun _ => 0%Q) (fun _ => false)) as H.
  remember (requestWithMeta _ _ _ _ _ _ _ _ _ _ _ _ _ _) as res eqn:Hres. vm_compute in Hres.
  destruct res as [o rounds]. injection Hres as Ho Hr.
  destruct rounds as [|rd rest]; [discriminate Hr|]. injection Hr as Hrd Hrest.
  destruct (sent rd) as [s|] eqn:Hs; [|rewrite Hrd in Hs; discriminate Hs].
  exists rd, s. split; [left|]. split; [exact Hs|].
  exact (proj1 (H rd s ltac:(left) Hs) eq_refl _ eq_refl ltac:(discriminate)).
Defined.

(** *** Errors *)

Lemma first_truthy_nonempty l s : first_truthy l = Some s -> truthy s = true.
Proof.
  unfold first_truthy. induction (omap id l) as [|x r IH]; simpl; [done|]. destruct (truthy x) eqn:Hx; simpl; [congruence | done].
Qed.

(** Every error response becomes an error with a message, of the class that its
    type names: the type of Flow's envelope when it is one of Flow's, else the one the status
    implies, in which case it is retryable exactly for 429 and the statuses from 500 on.  For
    idempotent requests the retry loop retries exactly the errors that say they are retryable. *)
Theorem error_mapping Date_parse status body headers method url now retry m :
  let e := parseFlowError Date_parse status body headers method url now in
  let declared := string_field "type" body ≫= known_type in
  e_message e <> "" /\ e_class e = classes (e_type e) /\ e_status e = status
  /\ (forall t, declared = Some t -> e_type e = t)
  /\ (declared = None -> retryable e = (status =? 429)%Z || (500 <=? status)%Z)
  /\ (forall e', idempotent m = true -> shouldRetry retry e' m = retryable e').
Proof.
  intros e declared. split; [|split; [|split; [|split; [|split]]]]; try done.
  - unfold e, parseFlowError. simpl. set (text := match body with Some (JStr s) => _ | _ => _ end).
    destruct (first_truthy [string_field "error" body; string_field "message" body; text]) as [s|] eqn:Hs; simpl; [|done].
    apply first_truthy_nonempty in Hs. unfold truthy in Hs. by breflect.
  - intros t Ht. unfold e, parseFlowError. simpl. fold declared. by rewrite Ht.
  - intros Hn. unfold e, retryable, parseFlowError. simpl. fold declared. rewrite Hn. unfold errorTypeForStatus.
    repeat match goal with |- context [if ?c then _ else _] => destruct c eqn:? end; breflect;
      repeat match goal with H : _ || _ = true |- _ => apply orb_true_iff in H as [H|H] end; breflect;
      subst; try reflexivity; symmetry; rewrite ?orb_true_iff, ?orb_false_iff, ?Z.leb_le, ?Z.leb_gt, ?Z.eqb_neq; lia.
  - intros e' Hi. unfold shouldRetry, retryable. rewrite Hi. by destruct (e_type e').
Qed.

(** *** Paths *)

(** A path template as its pieces. *)
Inductive PathPiece := PLit (s : string) | PParam (name : string).

Definition template (l : list PathPiece) : string :=
  foldr (fun p r => match p with PLit s => s | PParam n => "{" +:+ n +:+ "}" end +:+ r) "" l.

Definition filled (params : list (string * string)) (l : list PathPiece) : string :=
  foldr (fun p r => match p with PLit s => s | PParam n => encodeURIComponent (map_get n params ?? "") end +:+ r) "" l.

Definition no_braces (s : string) : bool := lacks "{" s && lacks "}" s.

Definition piece_ok (params : list (string * string)) (p : PathPiece) : Prop :=
  match p with
  | PLit s => no_braces s = true
  | PParam n => no_braces n = true /\ n <> "" /\ exists v, map_get n params = Some v /\ v <> ""
  end.

Lemma span_name_app n r : no_braces n = true -> span_name (n +:+ String "}" r) = (n, String "}" r).
Proof.
  unfold no_braces. induction n as [|c n IH]; [done|]. simpl. intros H. breflect.
  destruct (Ascii.eqb_spec c "{"); [by subst|].
  destruct (Ascii.eqb_spec c "}"); [by subst|]. simpl. rewrite IH; [done|].
  apply andb_true_iff. done.
Qed.

Lemma fill_lit params s r fuel : no_braces s = true -> (String.length s <= fuel)%nat ->
  fill fuel params (s +:+ r) = String.append s <$> fill (fuel - String.length s) params r.
Proof.
  revert fuel. induction s as [|c s IH]; intros fuel Hn Hf; simpl in *.
  - rewrite Nat.sub_0_r. by destruct (fill fuel params r).
  - destruct fuel as [|fuel]; [lia|]. simpl. unfold no_braces in Hn. simpl in Hn. breflect.
    destruct (Ascii.eqb_spec c "{"); [by subst|].
    rewrite IH; [|apply andb_true_iff; done | lia]. by destruct (fill _ params r).
Qed.

Lemma fill_template params l fuel : Forall (piece_ok params) l -> (String.length (template l) <= fuel)%nat ->
  fill fuel params (template l) = Some (filled params l).
Proof.
  intros Hl. revert fuel. induction Hl as [|p l Hp Hl IH]; intros fuel Hf; cbn [template filled foldr] in *.
  - by destruct fuel.
  - fold (template l) in *. fold (filled params l). rewrite string_length_app in Hf. destruct p as [s|n].
    + rewrite fill_lit by (done || lia). rewrite IH by lia. done.
    + destruct Hp as (Hn & Hne & v & Hv & Hvne). simpl in Hf. rewrite string_length_app in Hf. simpl in Hf.
      destruct fuel as [|fuel]; [lia|]. cbn [fill String.append]. rewrite Ascii.eqb_refl.
      rewrite string_app_assoc. cbn [String.append]. rewrite span_name_app by done.
      destruct n as [|c n]; [done|]. rewrite Hv. unfold truthy. destruct (String.eqb_spec v ""); [done|]. simpl.
      rewrite IH by lia. done.
Qed.

Definition count (c : ascii) (s : string) : nat := count_occ ascii_dec (String.list_ascii_of_string s) c.

Lemma count_app c a b : count c (a +:+ b) = (count c a + count c b)%nat.
Proof.
  unfold count. induction a as [|d a IH]; [done|]. simpl. destruct (ascii_dec d c); simpl; by rewrite IH.
Qed.

(** The characters that delimit the parts of a URL. *)
Definition delimiters : list ascii := ["/"; "?"; "#"; "&"; "="; ":"; "@"]%char.

Lemma encode_unit_clean a : forall c, In c delimiters ->
  count c (if unreserved (nat_of_ascii a) then String a "" else percent_unit (nat_of_ascii a)) = 0%nat.
Proof.
  assert (H : forallb (fun a => forallb (fun c => (count c (if unreserved (nat_of_ascii a) then String a "" else percent_unit (nat_of_ascii a)) =? 0)%nat) delimiters)
                (map ascii_of_nat (seq 0 256)) = true) by (vm_compute; reflexivity).
  rewrite forallb_forall in H. specialize (H a). rewrite forallb_forall in H. intros c Hc.
  apply Nat.eqb_eq, H; [|done]. apply in_map_iff. exists (nat_of_ascii a). split; [apply ascii_nat_embedding|].
  apply in_seq. pose proof (nat_ascii_bounded a). lia.
Qed.

Lemma encode_clean c s : In c delimiters -> count c (encodeURIComponent s) = 0%nat.
Proof.
  intros Hc. induction s as [|a s IH]; [done|]. cbn [encodeURIComponent]. rewrite count_app, IH, encode_unit_clean by done. done.
Qed.

(** A path template is filled completely and its parameters cannot
    change its structure: every placeholder is replaced by the encoding of its value, and the result
    has exactly the slashes, question marks, hashes and other delimiters of the template's own text.
    A missing or empty parameter throws. *)
Theorem build_path_injection_safe params l :
  Forall (piece_ok params) l ->
  buildPath (template l) params [] = Some (filled params l)
  /\ forall c, In c delimiters ->
       count c (filled params l) = sum_list (map (fun p => match p with PLit s => count c s | PParam _ => 0%nat end) l).
Proof.
  intros Hl. split.
  - unfold buildPath. by rewrite fill_template.
  - intros c Hc. clear Hl. induction l as [|p l IH]; [done|]. cbn [filled foldr map sum_list]. rewrite count_app. fold (filled params l).
    rewrite IH. destruct p; [done|]. by rewrite encode_clean.
Qed.

Lemma build_path_injection_safe_witness :
  let l := [PLit "/api/issues/"; PParam "id"; PLit "/comments"] in
  buildPath (template l) [("id", "a/../b?x")] [] = Some "/api/issues/a%2F..%2Fb%3Fx/comments"
  /\ buildPath (template l) [] [] = None
  /\ count "/" (filled [("id", "a/../b?x")] l) = 4%nat.
Proof.
  intros l. split; [vm_compute; reflexivity|]. split; [vm_compute; reflexivity|].
  apply (build_path_injection_safe [("id", "a/../b?x")] l); [|left; reflexivity].
  repeat constructor; try discriminate. eexists. split; [reflexivity | discriminate].
Defined.
