(* ===== verification/SdkConnection.v ===== *)
(** * Pagination of the TypeScript SDK (sdk/typescript/src/connection.ts)

    A connection holds the nodes fetched so far and fetches its neighbours through a page
    fetcher.  What it relies on is stated as classes of the fetcher ([ForwardServer],
    [BackwardServer]): a server that pages one list by cursors.  Against such a server the
    operations keep a window of the list, and iteration yields every node once, in order.  The
    generator of pages has fuel, one unit per request; the length of the list is enough. *)

From Stdlib Require Import ZArith Lia Bool List Ascii.
From stdpp Require Import base list strings.
From S2P Require Import Prelude JsString.

Record PageInfo := mkPageInfo {
  hasNextPage : bool; hasPreviousPage : bool; startCursor : option string; endCursor : option string }.

Record PageRequest := mkRequest { first : option nat; after : option string; last : option nat; before : option string }.

Section Connection.
Context {T : Type}.

Record Page := mkPage { page_nodes : list T; page_info : PageInfo; page_total : option Z }.

(** [None]: the request fails. *)
Definition PageFetcher : Type := PageRequest -> option Page.

Record Connection := mkConnection { nodes : list T; pageInfo : PageInfo; totalCount : option Z; pageSize : nat }.

Definition new_Connection (page : Page) (size : option nat) : Connection :=
  mkConnection (page_nodes page) (page_info page) (page_total page)
    (size ?? (match page_nodes page with [] => 50 | l => length l end)).

(** [cursor] when it is a non-empty string. *)
Definition usable (cursor : option string) : option string :=
  match cursor with Some c => if truthy c then Some c else None | None => None end.

Definition or_cursor (o : option string) (cursor : string) : option string :=
  match o with Some c => Some c | None => Some cursor end.

Definition fetchNext (fetch : PageFetcher) (c : Connection) : option Connection :=
  let info := pageInfo c in
  match hasNextPage info, usable (endCursor info) with
  | true, Some cursor =>
      match fetch (mkRequest (Some (pageSize c)) (Some cursor) None None) with
      | None => None
      | Some page =>
          Some (mkConnection (nodes c ++ page_nodes page)
            (mkPageInfo (hasNextPage (page_info page)) (hasPreviousPage info) (startCursor info)
               (or_cursor (endCursor (page_info page)) cursor))
            (match page_total page with Some t => Some t | None => totalCount c end) (pageSize c))
      end
  | _, _ => Some c
  end.

Definition fetchPrevious (fetch : PageFetcher) (c : Connection) : option Connection :=
  let info := pageInfo c in
  match hasPreviousPage info, usable (startCursor info) with
  | true, Some cursor =>
      match fetch (mkRequest None None (Some (pageSize c)) (Some cursor)) with
      | None => None
      | Some page =>
          Some (mkConnection (page_nodes page ++ nodes c)
            (mkPageInfo (hasNextPage info) (hasPreviousPage (page_info page))
               (or_cursor (startCursor (page_info page)) cursor) (endCursor info))
            (totalCount c) (pageSize c))
      end
  | _, _ => Some c
  end.

(** How a generator ends: it returns, a request fails, or the fuel is spent. *)
Inductive Ended := Returned | FetchFailed | OutOfFuel.

Fixpoint pages_loop (fuel : nat) (fetch : PageFetcher) (size : nat) (hasNext : bool) (cursor : option string) : list (list T) * Ended :=
  match hasNext, usable cursor with
  | true, Some c =>
      match fuel with
      | O => ([], OutOfFuel)
      | S fuel' =>
          match fetch (mkRequest (Some size) (Some c) None None) with
          | None => ([], FetchFailed)
          | Some page =>
              let yielded := match page_nodes page with [] => [] | l => [l] end in
              match usable (endCursor (page_info page)) with
              | None => (yielded, Returned)
              | Some next =>
                  if next =s c then (yielded, Returned)
                  else let '(rest, e) := pages_loop fuel' fetch size (hasNextPage (page_info page)) (Some next) in
                       (yielded ++ rest, e)
              end
          end
      end
  | _, _ => ([], Returned)
  end.

Definition pages (fuel : nat) (fetch : PageFetcher) (c : Connection) : list (list T) * Ended :=
  let '(rest, e) := pages_loop fuel fetch (pageSize c) (hasNextPage (pageInfo c)) (endCursor (pageInfo c)) in
  (nodes c :: rest, e).

(** [result.push(node)], then the test of the limit. *)
Fixpoint collect (limit : option nat) (result stream : list T) : list T * bool :=
  match stream with
  | [] => (result, false)
  | x :: r =>
      let result' := result ++ [x] in
      match limit with
      | Some n => if (n <=? length result')%nat then (result', true) else collect limit result' r
      | None => collect limit result' r
      end
  end.

(** [None]: a request failed (or the fuel was spent) before the limit was reached. *)
Definition all (fuel : nat) (fetch : PageFetcher) (limit : option nat) (c : Connection) : option (list T) :=
  let '(yielded, e) := pages fuel fetch c in
  let '(result, stopped) := collect limit [] (concat yielded) in
  match stopped, e with
  | true, _ | _, Returned => Some result
  | _, _ => None
  end.

(** ** Cursor-paged endpoints *)

Record CursorPage := mkCursorPage { items : list T; hasMore : bool; nextCursor : option string; cp_total : option Z }.

Definition toPage (page : CursorPage) (after : option string) : Page :=
  mkPage (items page)
    (mkPageInfo (hasMore page && isSome (usable (nextCursor page))) false after (usable (nextCursor page))) (cp_total page).

(** The fetcher of [cursorConnection]. *)
Definition cursor_fetcher (fetch : option string -> nat -> option CursorPage) (limit : nat) : PageFetcher := fun request =>
  match usable (after request) with
  | None => Some (mkPage [] (mkPageInfo false false None None) None)
  | Some c => (fun p => toPage p (Some c)) <$> fetch (Some c) (first request ?? limit)
  end.

Definition cursorConnection (fetch : option string -> nat -> option CursorPage) (start : option string) (limit : nat) : option Connection :=
  (fun p => new_Connection (toPage p start) (Some limit)) <$> fetch start limit.

(** ** What a server promises *)

Context (data : list T).

(** Pages of [data] after a position, told by cursors. *)
Class ForwardServer (fetch : PageFetcher) (cursor : nat -> string) : Prop := {
  cursor_nonempty : forall i, cursor i <> "";
  cursor_inj : forall i j, (i <= length data)%nat -> (j <= length data)%nat -> cursor i = cursor j -> i = j;
  fetch_after : forall i n, (0 < n)%nat -> (i <= length data)%nat ->
    exists page, fetch (mkRequest (Some n) (Some (cursor i)) None None) = Some page
      /\ page_nodes page = take n (drop i data)
      /\ hasNextPage (page_info page) = (i + n <? length data)%nat
      /\ endCursor (page_info page) = Some (cursor (Nat.min (i + n) (length data))) }.

Class BackwardServer (fetch : PageFetcher) (cursor : nat -> string) : Prop := {
  back_nonempty : forall i, cursor i <> "";
  fetch_before : forall i n, (0 < n)%nat -> (i <= length data)%nat ->
    exists page, fetch (mkRequest None None (Some n) (Some (cursor i))) = Some page
      /\ page_nodes page = drop (i - n) (take i data)
      /\ hasPreviousPage (page_info page) = (0 <? i - n)%nat
      /\ startCursor (page_info page) = Some (cursor (i - n)%nat) }.

(** The connection shows [data] from [i] up to [j]. *)
Record window (cursor : nat -> string) (c : Connection) (i j : nat) : Prop := {
  w_order : (i <= j <= length data)%nat;
  w_nodes : nodes c = take (j - i) (drop i data);
  w_next : hasNextPage (pageInfo c) = (j <? length data)%nat;
  w_prev : hasPreviousPage (pageInfo c) = (0 <? i)%nat;
  w_start : startCursor (pageInfo c) = Some (cursor i);
  w_end : endCursor (pageInfo c) = Some (cursor j);
  w_size : (0 < pageSize c)%nat }.

Lemma usable_cursor s : s <> "" -> usable (Some s) = Some s.
Proof. intros H. unfold usable, truthy. destruct (String.eqb_spec s ""); done. Qed.

Lemma min_ltb a n : (Nat.min a n <? n)%nat = (a <? n)%nat.
Proof. destruct (Nat.ltb_spec (Nat.min a n) n), (Nat.ltb_spec a n); done || lia. Qed.

Section Server.
Context (fetch : PageFetcher) (cursor : nat -> string) `{!ForwardServer fetch cursor}.

Lemma take_two_windows i j n : (i <= j <= length data)%nat ->
  take (j - i) (drop i data) ++ take n (drop j data) = take (Nat.min (j + n) (length data) - i) (drop i data).
Proof.
  intros Hij. replace j with (i + (j - i))%nat at 2 by lia. rewrite <- take_split_drop.
  destruct (decide (j + n <= length data)%nat) as [Hle|Hgt]; [f_equal; lia|].
  rewrite !take_ge by (rewrite length_drop; lia). done.
Qed.

Lemma fetchNext_window c i j : window cursor c i j ->
  exists c', fetchNext fetch c = Some c' /\ window cursor c' i (if (j <? length data)%nat then Nat.min (j + pageSize c) (length data) else j)
    /\ pageSize c' = pageSize c.
Proof.
  intros W. pose proof W as W'. destruct W as [Hij Hn Hnext Hprev Hs He Hp]. unfold fetchNext. rewrite Hnext, He, usable_cursor by apply cursor_nonempty.
  destruct (j <? length data)%nat eqn:Hlt; [|exists c; split; [done|]; split; [exact W' | done]]. breflect.
  destruct (fetch_after j (pageSize c) Hp ltac:(lia)) as (page & -> & Hpn & Hpx & Hpe). eexists. split; [reflexivity|].
  split; [|done]. split; cbn [nodes pageInfo pageSize hasNextPage hasPreviousPage startCursor endCursor]; try done; try lia.
  - rewrite Hn, Hpn. by apply take_two_windows.
  - by rewrite Hpx, min_ltb.
  - by rewrite Hpe.
Qed.

(** The pages after position [j] are the rest of the data. *)
Lemma pages_loop_complete fuel size j : (0 < size)%nat -> (j <= length data)%nat -> (length data - j <= fuel)%nat ->
  exists ps, pages_loop fuel fetch size (j <? length data)%nat (Some (cursor j)) = (ps, Returned) /\ concat ps = drop j data.
Proof.
  intros Hsize. revert j. induction fuel as [|fuel IH]; intros j Hj Hf; cbn [pages_loop]; rewrite usable_cursor by apply cursor_nonempty;
    destruct (j <? length data)%nat eqn:Hlt; breflect; try lia;
    try (exists []; split; [done|]; rewrite drop_ge by lia; done).
  destruct (fetch_after j size Hsize ltac:(lia)) as (page & -> & Hpn & Hpx & Hpe). rewrite Hpe, usable_cursor by apply cursor_nonempty.
  destruct (String.eqb_spec (cursor (Nat.min (j + size) (length data))) (cursor j)) as [Heq|_].
  { apply cursor_inj in Heq; lia. }
  set (j' := Nat.min (j + size) (length data)). rewrite Hpx.
  replace (j + size <? length data)%nat with (j' <? length data)%nat
    by apply min_ltb.
  destruct (IH j' ltac:(unfold j'; lia) ltac:(unfold j'; lia)) as (ps & -> & Hc).
  eexists. split; [reflexivity|]. rewrite concat_app, Hc.
  replace (concat (match page_nodes page with [] => [] | x => [x] end)) with (page_nodes page)
    by (destruct (page_nodes page); simpl; by rewrite ?app_nil_r).
  rewrite Hpn. unfold j'. destruct (decide (j + size <= length data)%nat).
  - replace (Nat.min (j + size) (length data)) with (j + size)%nat by lia. rewrite <- drop_drop. apply take_drop.
  - rewrite take_ge by (rewrite length_drop; lia). rewrite (drop_ge data (Nat.min _ _)) by lia. apply app_nil_r.
Qed.

Lemma collect_spec limit result stream :
  match limit with Some n => (length result < n)%nat | None => True end ->
  fst (collect limit result stream) = result ++ match limit with Some n => take (n - length result) stream | None => stream end.
Proof.
  revert result. induction stream as [|x r IH]; intros result Hl; simpl.
  - destruct limit; by rewrite ?take_nil, app_nil_r.
  - destruct limit as [n|].
    + rewrite length_app. simpl. destruct (n <=? length result + 1)%nat eqn:E; breflect; simpl.
      * replace (n - length result)%nat with 1%nat by lia. done.
      * rewrite IH by (rewrite length_app; simpl; lia). rewrite length_app. simpl. rewrite <- app_assoc. simpl.
        replace (n - length result)%nat with (S (n - (length result + 1)))%nat by lia. done.
    + rewrite IH by done. by rewrite <- app_assoc.
Qed.

(** Against a server that pages one list, a connection neither skips nor
    repeats a node: its nodes are always a contiguous window of the list, [fetchNext] moves the end
    of the window by a page, and [all] ends (one request per node at most) with every node from the
    start of the window on, in order, or the first [limit] of them. *)
Theorem connection_complete c i j limit fuel :
  window cursor c i j -> (length data <= fuel)%nat -> limit <> Some 0%nat ->
  (exists c', fetchNext fetch c = Some c'
     /\ window cursor c' i (if (j <? length data)%nat then Nat.min (j + pageSize c) (length data) else j))
  /\ all fuel fetch limit c = Some (match limit with Some n => take n (drop i data) | None => drop i data end).
Proof.
  intros W Hf Hl. split; [destruct (fetchNext_window c i j W) as (c' & H1 & H2 & _); eauto|].
  destruct W as [Hij Hn Hnext Hprev Hs He Hp]. unfold all, pages. rewrite Hnext, He.
  destruct (pages_loop_complete fuel (pageSize c) j Hp ltac:(lia) ltac:(lia)) as (ps & -> & Hc).
  assert (Hstream : concat (nodes c :: ps) = drop i data).
  { simpl. rewrite Hc, Hn. replace (drop j data) with (drop (j - i) (drop i data)) by (rewrite drop_drop; f_equal; lia). apply take_drop. }
  rewrite Hstream. pose proof (collect_spec limit [] (drop i data)) as Hcol.
  destruct (collect limit [] (drop i data)) as [result stopped]. simpl in Hcol.
  rewrite Hcol by (destruct limit as [[|n]|]; [done | simpl; lia | done]).
  destruct limit as [n|]; rewrite ?Nat.sub_0_r; by destruct stopped.
Qed.

(** A limit of zero is passed over: the first node has been collected when it is tested. *)
Lemma all_limit_zero c i j fuel x r :
  window cursor c i j -> (length data <= fuel)%nat -> drop i data = x :: r -> all fuel fetch (Some 0%nat) c = Some [x].
Proof.
  intros [Hij Hn Hnext Hprev Hs He Hp] Hf Hd. unfold all, pages. rewrite Hnext, He.
  destruct (pages_loop_complete fuel (pageSize c) j Hp ltac:(lia) ltac:(lia)) as (ps & -> & Hc).
  replace (concat (nodes c :: ps)) with (x :: r); [done|]. rewrite <- Hd. simpl. rewrite Hc, Hn.
  replace (drop j data) with (drop (j - i) (drop i data)) by (rewrite drop_drop; f_equal; lia). symmetry. apply take_drop.
Qed.
End Server.

Lemma fetchPrevious_window fetch cursor `{!BackwardServer fetch cursor} c i j : window cursor c i j ->
  exists c', fetchPrevious fetch c = Some c' /\ window cursor c' (i - pageSize c) j.
Proof.
  intros W. pose proof W as W'. destruct W as [Hij Hn Hnext Hprev Hs He Hp]. unfold fetchPrevious. rewrite Hprev, Hs, usable_cursor by apply back_nonempty.
  destruct i as [|i]; [exists c; split; [done | exact W']|]. simpl (0 <? S i)%nat.
  destruct (fetch_before (S i) (pageSize c) Hp ltac:(lia)) as (page & -> & Hpn & Hpx & Hps). eexists. split; [reflexivity|].
  split; cbn [nodes pageInfo pageSize hasNextPage hasPreviousPage startCursor endCursor]; try done; try lia; [|by rewrite Hps].
  rewrite Hpn, Hn. set (k := (S i - pageSize c)%nat). rewrite skipn_firstn_comm.
  replace (j - k)%nat with ((S i - k) + (j - S i))%nat by (unfold k; lia). rewrite take_split_drop.
  replace (k + (S i - k))%nat with (S i) by (unfold k; lia). done.
Qed.
End Connection.

(** ** A server *)

Section ListServer.
Context {T : Type} (data : list T).

Definition list_cursor (i : nat) : string := showZ (Z.of_nat i).

(** Answers a request from a list; the cursor is the decimal position. *)
Definition list_fetch : @PageFetcher T := fun request =>
  match first request, after request with
  | Some n, Some c =>
      match digits_value c with
      | Some z =>
          let i := Z.to_nat z in
          Some (mkPage (take n (drop i data))
            (mkPageInfo (i + n <? length data)%nat (0 <? i)%nat (Some c) (Some (list_cursor (Nat.min (i + n) (length data))))) None)
      | None => None
      end
  | _, _ => None
  end.

#[export] Instance list_server : ForwardServer data list_fetch list_cursor.
Proof.
  split.
  - intros i. unfold list_cursor. rewrite showZ_nonneg by lia. apply show_not_empty.
  - intros i j _ _ H. apply (f_equal digits_value) in H. unfold list_cursor in H. rewrite !digits_value_show in H by lia.
    injection H. lia.
  - intros i n Hn Hi. unfold list_fetch, list_cursor. cbn [first after]. rewrite digits_value_show by lia.
    rewrite Nat2Z.id. eexists. split; [reflexivity|]. done.
Qed.
End ListServer.

Lemma connection_complete_witness :
  let data := [10; 20; 30; 40; 50]%nat in
  let c := mkConnection [10; 20]%nat (mkPageInfo true false (Some "0") (Some "2")) None 2 in
  all 5 (list_fetch data) None c = Some data /\ all 5 (list_fetch data) (Some 3%nat) c = Some [10; 20; 30]%nat.
Proof.
  intros data c. assert (W : window data list_cursor c 0 2) by (split; simpl; (lia || reflexivity)).
  split.
  - exact (proj2 (connection_complete data (list_fetch data) list_cursor c 0 2 None 5 W (le_n _) ltac:(discriminate))).
  - exact (proj2 (connection_complete data (list_fetch data) list_cursor c 0 2 (Some 3%nat) 5 W (le_n _) ltac:(discriminate))).
Defined.
