(* ===== verification/SdkWebhooks.v ===== *)
(** * Webhook receiver of the TypeScript SDK (sdk/typescript/src/webhooks.ts)

    Signature and replay checks, event construction, handler registration and the two request
    handlers.  HMAC-SHA256, the UTF-8 decoder and [JSON.parse] are parameters; bytes are integers.
    A handler is known by a number and may throw. *)

From Stdlib Require Import ZArith Lia Bool List Ascii QArith Qabs.
From stdpp Require Import base list strings.
From S2P Require Import Prelude JsString JsMap Json JsNumber.

Open Scope Z_scope.

Definition FLOW_SIGNATURE_HEADER : string := "flow-signature".
Definition FLOW_DELIVERY_HEADER : string := "flow-delivery".
Definition FLOW_EVENT_HEADER : string := "flow-event".
Definition FLOW_ATTEMPT_HEADER : string := "flow-attempt".
Definition FLOW_SIGNATURE_STATUS_HEADER : string := "flow-signature-status".

Definition DEFAULT_WEBHOOK_TOLERANCE_MS : Z := 60000.
Definition DEFAULT_MAX_BODY_BYTES : Z := Z.shiftl 5 20.

Abbreviation bytes := (list Z).

Inductive WebhookBody := BodyString (s : string) | BodyBytes (b : bytes).

Inductive WebhookVerificationFailure := missing_signature | invalid_signature | invalid_payload | missing_timestamp | stale_timestamp.

(** What a rejected delivery throws. *)
Record WebhookVerificationError := mkVerificationError { reason : WebhookVerificationFailure; message : string }.

(** UTF-8 of code units below 256. *)
Fixpoint utf8 (s : string) : bytes :=
  match s with
  | EmptyString => []
  | String c r =>
      let n := Z.of_nat (nat_of_ascii c) in
      (if n <? 128 then [n] else [192 + n / 64; 128 + n mod 64]) ++ utf8 r
  end.

Definition toBytes (body : WebhookBody) : bytes :=
  match body with BodyString s => utf8 s | BodyBytes b => b end.

(** ** Hexadecimal *)

Definition hex_char (d : Z) : ascii := ascii_of_nat (Z.to_nat (if d <? 10 then 48 + d else 87 + d)).

Fixpoint hex (b : bytes) : string :=
  match b with
  | [] => EmptyString
  | x :: r => String (hex_char (x / 16)) (String (hex_char (x mod 16)) (hex r))
  end.

(** [Buffer.from(text, 'hex')] on well-formed text. *)
Fixpoint unhex (s : string) : bytes :=
  match s with
  | String a (String b r) =>
      match digit_value a, digit_value b with
      | Some x, Some y => (16 * x + y) :: unhex r
      | _, _ => []
      end
  | _ => []
  end.

Fixpoint all_hex (s : string) : bool :=
  match s with EmptyString => true | String c r => isSome (digit_value c) && all_hex r end.

(** [/^[a-f0-9]{64}$/i] *)
Definition is_signature (s : string) : bool := (String.length s =? 64)%nat && all_hex s.

Section Webhooks.
Context (hmac : bytes -> bytes -> bytes) (decode_utf8 : bytes -> string) (JSON_parse : string -> option json).

Definition computeWebhookSignature (rawBody : WebhookBody) (secret : bytes) : string := hex (hmac secret (toBytes rawBody)).

Definition verifyWebhookSignature (rawBody : WebhookBody) (signature : option string) (secrets : list bytes) : bool :=
  match signature with
  | None => false
  | Some signature =>
      let given := trim signature in
      if negb (is_signature given) then false
      else
        let givenBytes := unhex given in
        let body := toBytes rawBody in
        fold_left (fun matched candidate => if bool_decide (hmac candidate body = givenBytes) then true else matched) secrets false
  end.

Definition verifyWebhookTimestamp (timestamp : option json) (toleranceMs : option Z) (now : Z) : bool :=
  match timestamp with
  | Some (JNum t) => Qle_bool (Qabs (inject_Z now - t)) (inject_Z (toleranceMs ?? DEFAULT_WEBHOOK_TOLERANCE_MS))
  | _ => false
  end.

(** [number | null | undefined] *)
Inductive Tolerance := TolDefault | TolNone | TolMs (ms : Z).

Definition tolerance_ms (t : Tolerance) : option Z := match t with TolMs ms => Some ms | _ => None end.

Definition constructWebhookEvent (rawBody : WebhookBody) (signature : option string) (secrets : list bytes)
  (tolerance : Tolerance) (now : Z) : WebhookVerificationError + json :=
  match signature with
  | None => inl (mkVerificationError missing_signature "The Flow-Signature header is missing")
  | Some s =>
      if trim s =s "" then inl (mkVerificationError missing_signature "The Flow-Signature header is missing")
      else if negb (verifyWebhookSignature rawBody signature secrets) then inl (mkVerificationError invalid_signature "The webhook signature does not match the request body")
      else match JSON_parse (decode_utf8 (toBytes rawBody)) with
           | None => inl (mkVerificationError invalid_payload "The webhook body is not valid JSON")
           | Some event =>
               match field "type" event with
               | Some (JStr _) =>
                   match tolerance with
                   | TolNone => inr event
                   | _ =>
                       match field "webhookTimestamp" event with
                       | Some (JNum t) =>
                           if verifyWebhookTimestamp (Some (JNum t)) (tolerance_ms tolerance) now then inr event
                           else inl (mkVerificationError stale_timestamp "The webhook timestamp is outside the allowed window (possible replay)")
                       | _ => inl (mkVerificationError missing_timestamp "The webhook payload has no webhookTimestamp")
                       end
                   end
               | _ => inl (mkVerificationError invalid_payload "The webhook body is not an event")
               end
           end
  end.

(** ** Headers *)

Inductive HeaderValue := HOne (s : string) | HMany (l : list string).

Definition headerValue (headers : list (string * HeaderValue)) (name : string) : option string :=
  let found := match map_get name headers with
    | Some v => Some v
    | None => match map_get (toLowerCase name) headers with
              | Some v => Some v
              | None => snd <$> head (List.filter (fun p => toLowerCase (fst p) =s name) headers)
              end
    end in
  match found with Some (HOne s) => Some s | Some (HMany l) => head l | None => None end.

Record WebhookContext := mkContext { deliveryId : option string; eventName : option string; ctx_attempt : option Q; signatureStatus : option string }.

Definition contextFrom (headers : list (string * HeaderValue)) : WebhookContext :=
  let attempt := headerValue headers FLOW_ATTEMPT_HEADER ≫= Number in
  mkContext (headerValue headers FLOW_DELIVERY_HEADER) (headerValue headers FLOW_EVENT_HEADER)
    (match attempt with Some q => if Qltb 0 q then Some q else None | None => None end)
    (headerValue headers FLOW_SIGNATURE_STATUS_HEADER).

Definition statusFor (error : WebhookVerificationError) : Z := match reason error with invalid_payload => 400 | _ => 401 end.

(** ** The client *)

Record FlowWebhookClient := mkClient {
  secrets : list bytes; tolerance : Tolerance; background : bool; maxBodyBytes : option Z; handlers : list (string * list nat) }.

(** [None]: the constructor throws. *)
Definition new_FlowWebhookClient (list : list bytes) (tol : Tolerance) (bg : bool) (max : option Z) : option FlowWebhookClient :=
  if (length list =? 0)%nat || existsb (fun s => (length s =? 0)%nat) list then None
  else Some (mkClient list tol bg max []).

Definition set_handlers (h : list (string * list nat)) (c : FlowWebhookClient) : FlowWebhookClient :=
  mkClient (secrets c) (tolerance c) (background c) (maxBodyBytes c) h.

Definition verify (rawBody : WebhookBody) (signature : option string) (c : FlowWebhookClient) : bool :=
  verifyWebhookSignature rawBody signature (secrets c).

Definition constructEvent (rawBody : WebhookBody) (signature : option string) (now : Z) (c : FlowWebhookClient) : WebhookVerificationError + json :=
  constructWebhookEvent rawBody signature (secrets c) (tolerance c) now.

Definition on (type : string) (handler : nat) (c : FlowWebhookClient) : FlowWebhookClient :=
  set_handlers (map_set type ((map_get type (handlers c) ?? []) ++ [handler]) (handlers c)) c.

Definition off (type : string) (handler : nat) (c : FlowWebhookClient) : FlowWebhookClient :=
  match map_get type (handlers c) with
  | Some list => set_handlers (map_set type (List.filter (fun h => negb (h =? handler)%nat) list) (handlers c)) c
  | None => c
  end.

Definition event_type (event : json) : string := match field "type" event with Some (JStr t) => t | _ => "" end.

Definition handlers_for (event : json) (c : FlowWebhookClient) : list nat :=
  (map_get (event_type event) (handlers c) ?? []) ++ (map_get "*" (handlers c) ?? []).

(** Whether a handler throws on an event. *)
Context (throws : nat -> json -> bool).

(** The handlers called, in order, and whether the last one threw. *)
Fixpoint call_handlers (event : json) (l : list nat) : list nat * bool :=
  match l with
  | [] => ([], false)
  | h :: r => if throws h event then ([h], true) else let '(called, failed) := call_handlers event r in (h :: called, failed)
  end.

Definition dispatch (event : json) (c : FlowWebhookClient) : list nat * bool := call_handlers event (handlers_for event c).

(** What a request comes to: the answer, the handlers called and the failures reported. *)
Record Handled := mkHandled { answer : Z; answer_text : string; called : list nat; reported : nat }.

Definition run_dispatch (event : json) (c : FlowWebhookClient) : Handled :=
  let '(cs, failed) := dispatch event c in
  let report := if failed then 1%nat else 0%nat in
  if background c then mkHandled 200 "ok" cs report
  else if failed then mkHandled 500 "handler failed" cs 1 else mkHandled 200 "ok" cs 0.

Definition refuse (status : Z) (text : string) : Handled := mkHandled status text [] 0.

Definition limit_of (c : FlowWebhookClient) : Z := maxBodyBytes c ?? DEFAULT_MAX_BODY_BYTES.

(** [createFetchHandler]: the method, the Content-Length header, the body and the signature. *)
Definition fetchHandler (c : FlowWebhookClient) (method : string) (contentLength : option string) (raw : bytes)
  (signature : option string) (now : Z) : Handled :=
  let limit := limit_of c in
  if negb (method =s "POST") then refuse 405 "Method Not Allowed"
  else if match Number (contentLength ?? "") with Some declared => Qltb (inject_Z limit) declared | None => false end
       then refuse 413 "Payload Too Large"
  else if limit <? Z.of_nat (length raw) then refuse 413 "Payload Too Large"
  else match constructEvent (BodyBytes raw) signature now c with
       | inl error => refuse (statusFor error) (message error)
       | inr event => run_dispatch event c
       end.

(** ** Node requests *)

(** A property of the request: absent, text, bytes, or something a parser made of the body. *)
Inductive NodeBody := NBUndefined | NBString (s : string) | NBBytes (b : bytes) | NBParsed.

Inductive StreamEvent := SData (chunk : bytes) | SEnd | SError.

Inductive ReadResult := TooLarge | Unavailable | ReadBody (b : WebhookBody) | Pending.

Definition read_candidate (limit : Z) (candidate : NodeBody) : option ReadResult :=
  match candidate with
  | NBString s => Some (if limit <? Z.of_nat (String.length s) then TooLarge else ReadBody (BodyString s))
  | NBBytes b => Some (if limit <? Z.of_nat (length b) then TooLarge else ReadBody (BodyBytes b))
  | _ => None
  end.

(** The listeners of the stream until one of them finishes the promise. *)
Fixpoint read_stream (limit size : Z) (chunks : bytes) (events : list StreamEvent) : ReadResult :=
  match events with
  | [] => Pending
  | SData chunk :: r =>
      let size' := size + Z.of_nat (length chunk) in
      if limit <? size' then TooLarge else read_stream limit size' (chunks ++ chunk) r
  | SEnd :: _ => ReadBody (BodyBytes chunks)
  | SError :: _ => Unavailable
  end.

Record NodeRequest := mkNodeRequest {
  n_method : option string; n_headers : list (string * HeaderValue); n_body : NodeBody; n_rawBody : NodeBody;
  readableEnded : bool; has_on : bool; events : list StreamEvent }.

Definition readNodeBody (req : NodeRequest) (limit : Z) : ReadResult :=
  match read_candidate limit (n_rawBody req) with
  | Some r => r
  | None =>
      match read_candidate limit (n_body req) with
      | Some r => r
      | None =>
          if match n_body req with NBUndefined => false | _ => true end || readableEnded req || negb (has_on req) then Unavailable
          else read_stream limit 0 [] (events req)
      end
  end.

(** [createNodeHandler]; [None] while the body has not been read to its end. *)
Definition nodeHandler (c : FlowWebhookClient) (req : NodeRequest) (now : Z) : option Handled :=
  match n_method req with
  | Some m => if truthy m && negb (m =s "POST") then Some (refuse 405 "Method Not Allowed") else None
  | None => None
  end ∪
  match readNodeBody req (limit_of c) with
  | Pending => None
  | TooLarge => Some (refuse 413 "Payload Too Large")
  | Unavailable => Some (mkHandled 500 "raw body unavailable" [] 1)
  | ReadBody raw =>
      match constructEvent raw (headerValue (n_headers req) FLOW_SIGNATURE_HEADER) now c with
      | inl error => Some (refuse (statusFor error) (message error))
      | inr event => Some (run_dispatch event c)
      end
  end.
End Webhooks.

(** ** Properties *)

Lemma hex_length b : String.length (hex b) = (2 * length b)%nat.
Proof. induction b as [|x b IH]; simpl; lia. Qed.

Definition is_byte (x : Z) : Prop := 0 <= x < 256.

Lemma digit_hex d : 0 <= d < 16 -> digit_value (hex_char d) = Some d.
Proof.
  intros Hd. assert (Hall : forallb (fun d => bool_decide (digit_value (hex_char d) = Some d)) (map Z.of_nat (seq 0 16)) = true)
    by (vm_compute; reflexivity).
  rewrite forallb_forall in Hall. specialize (Hall d). apply bool_decide_eq_true in Hall; [done|].
  apply in_map_iff. exists (Z.to_nat d). split; [lia|]. apply in_seq. lia.
Qed.

Lemma byte_digits x : is_byte x -> 0 <= x / 16 < 16 /\ 0 <= x mod 16 < 16 /\ 16 * (x / 16) + x mod 16 = x.
Proof.
  unfold is_byte. intros Hx. pose proof (Z.div_mod x 16 ltac:(lia)). pose proof (Z.mod_pos_bound x 16 ltac:(lia)).
  split; [|lia]. split; [apply Z.div_pos; lia | apply Z.div_lt_upper_bound; lia].
Qed.

Lemma unhex_hex b : Forall is_byte b -> unhex (hex b) = b /\ all_hex (hex b) = true.
Proof.
  induction 1 as [|x b Hx Hb [IH1 IH2]]; [done|]. destruct (byte_digits x Hx) as (H1 & H2 & H3).
  cbn [hex unhex all_hex]. rewrite !digit_hex by done. rewrite IH1, IH2, H3. done.
Qed.

(** A hexadecimal text has no white space to trim. *)
Lemma trim_start_hex s : all_hex s = true -> trim_start s = s.
Proof.
  destruct s as [|c s]; [done|]. simpl. intros H. breflect. destruct (is_space c) eqn:Hs; [|done]. exfalso.
  apply isSome_true in H as [d Hd]. revert Hd Hs. clear. unfold digit_value, is_space.
  pose proof (nat_ascii_bounded c). generalize dependent (nat_of_ascii c). intros n Hn.
  repeat match goal with |- context [if ?b then _ else _] => destruct b eqn:? end; try done; intros _; rewrite !orb_true_iff, !andb_true_iff, !Nat.leb_le, !Nat.eqb_eq;
    breflect; lia.
Qed.

Lemma trim_end_hex s : all_hex s = true -> trim_end s = s.
Proof.
  induction s as [|c s IH]; [done|]. intros H. pose proof (trim_start_hex _ H) as Hts. simpl in H. breflect.
  cbn [trim_end]. rewrite IH by done. destruct s; [|done]. simpl in Hts. destruct (is_space c); done.
Qed.

Lemma trim_hex s : all_hex s = true -> trim s = s.
Proof. intros H. unfold trim. by rewrite trim_start_hex, trim_end_hex. Qed.

Section Properties.
Context (hmac : bytes -> bytes -> bytes) (decode_utf8 : bytes -> string) (JSON_parse : string -> option json).

Abbreviation verifySig := (verifyWebhookSignature hmac).
Abbreviation construct := (constructWebhookEvent hmac decode_utf8 JSON_parse).

Lemma any_secret body given secrets matched :
  fold_left (fun matched candidate => if bool_decide (hmac candidate body = given) then true else matched) secrets matched = true
  <-> matched = true \/ Exists (fun s => hmac s body = given) secrets.
Proof.
  revert matched. induction secrets as [|s secrets IH]; intros matched; simpl.
  - rewrite Exists_nil. tauto.
  - rewrite IH, Exists_cons. case_bool_decide; intuition.
Qed.

(** The time of an event lies in the window. *)
Definition fresh (event : json) (tolerance : Tolerance) (now : Z) : Prop :=
  match tolerance with
  | TolNone => True
  | _ => exists t, field "webhookTimestamp" event = Some (JNum t)
           /\ (Qabs (inject_Z now - t) <= inject_Z (tolerance_ms tolerance ?? DEFAULT_WEBHOOK_TOLERANCE_MS))%Q
  end.

(** A delivery is accepted exactly when it should be: the signature
    is 64 hexadecimal digits that decode to the HMAC of the raw body under one of the secrets, the
    body is an event with a type, and its signed timestamp is in the replay window (unless the
    check is off).  What is returned is the parsed body. *)
Theorem webhook_construct_sound rawBody signature secrets tolerance now event :
  construct rawBody signature secrets tolerance now = inr event
  <-> exists s, signature = Some s /\ is_signature (trim s) = true
      /\ Exists (fun secret => hmac secret (toBytes rawBody) = unhex (trim s)) secrets
      /\ JSON_parse (decode_utf8 (toBytes rawBody)) = Some event
      /\ (exists t, field "type" event = Some (JStr t)) /\ fresh event tolerance now.
Proof.
  unfold constructWebhookEvent. destruct signature as [s|]; [|split; [done | by intros (s & Hs & _)]].
  assert (Hempty : trim s = "" -> is_signature (trim s) = false) by (by intros ->).
  destruct (String.eqb_spec (trim s) "") as [He|He].
  { split; [done|]. intros (s' & [= <-] & Hsig & _). rewrite Hempty in Hsig by done. done. }
  cbn [verifyWebhookSignature]. destruct (is_signature (trim s)) eqn:Hsig; cbn [negb].
  2: { split; [done|]. intros (s' & [= <-] & Hs & _). congruence. }
  pose proof (any_secret (toBytes rawBody) (unhex (trim s)) secrets false) as Hany.
  destruct (fold_left _ secrets false); cbn [negb].
  2: { split; [done|]. intros (s' & [= <-] & _ & Hex & _). by assert (false = true) by (apply Hany; auto). }
  assert (Hex : Exists (fun secret => hmac secret (toBytes rawBody) = unhex (trim s)) secrets) 
    by (by destruct (proj1 Hany eq_refl)).
  destruct (JSON_parse _) as [ev|]; [|split; [done | by intros (? & _ & _ & _ & ? & _)]].
  split.
  - intros H. exists s. split; [done|]. split; [done|]. split; [done|].
    destruct (field "type" ev) as [[]|] eqn:Ht; try done. unfold fresh.
    destruct tolerance; [| simplify_eq; eauto |];
      (destruct (field "webhookTimestamp" ev) as [[]|] eqn:Hts; try done; cbn [verifyWebhookTimestamp] in H;
       destruct (Qle_bool _ _) eqn:Hle; simplify_eq; apply Qle_bool_iff in Hle; split; [done|]; split; eauto).
  - intros (s' & _ & _ & _ & [= ->] & (t & ->) & Hf). unfold fresh in Hf. destruct tolerance; try done;
      destruct Hf as (ts & -> & Hle); cbn [verifyWebhookTimestamp]; apply Qle_bool_iff in Hle; by rewrite Hle.
Qed.
End Properties.

(** *** Handlers *)

Section Handlers.
Context (hmac : bytes -> bytes -> bytes) (decode_utf8 : bytes -> string) (JSON_parse : string -> option json)
  (throws : nat -> json -> bool).

Lemma call_handlers_spec event l :
  let '(cs, failed) := call_handlers throws event l in
  cs `prefix_of` l /\ (failed = false -> cs = l /\ Forall (fun h => throws h event = false) l)
  /\ (failed = true -> exists pre h, cs = pre ++ [h] /\ throws h event = true /\ Forall (fun h => throws h event = false) pre).
Proof.
  induction l as [|h l IH]; simpl; [done|]. destruct (throws h event) eqn:Hh.
  - split; [by exists l|]. split; [done|]. intros _. exists [], h. done.
  - destruct (call_handlers throws event l) as [cs failed]. destruct IH as (IH1 & IH2 & IH3). split; [by apply prefix_cons|]. split.
    + intros Hf. destruct (IH2 Hf) as [-> ?]. split; [done | by constructor].
    + intros Hf. destruct (IH3 Hf) as (pre & h' & -> & ? & ?). exists (h :: pre), h'. split; [done|]. split; [done | by constructor].
Qed.

(** What the handler may do with a delivery, [built] being what its body was verified to. *)
Definition delivery_ok (c : FlowWebhookClient) (method : string) (raw : bytes) (built : WebhookVerificationError + json) (r : Handled) : Prop :=
  (called r <> [] -> method = "POST" /\ Z.of_nat (length raw) <= limit_of c)
  /\ match built with
     | inl _ => called r = [] /\ answer r <> 200 /\ answer r <> 500
     | inr event =>
         called r `prefix_of` handlers_for event c
         /\ (answer r = 200 \/ answer r = 500 \/ (called r = [] /\ (answer r = 405 \/ answer r = 413)))
         /\ (background c = false -> answer r = 200 -> called r = handlers_for event c /\ reported r = 0%nat)
         /\ (answer r = 500 -> exists pre h, called r = pre ++ [h] /\ throws h event = true /\ reported r = 1%nat)
     end.

Lemma refused_ok c method raw built st t : st = 405 \/ st = 413 -> delivery_ok c method raw built (refuse st t).
Proof.
  intros Hst. destruct built as [e|event]; (split; [done|]); simpl; [split; [done | lia]|].
  split; [apply prefix_nil|]. split; [tauto|]. split; intros; lia.
Qed.

Lemma dispatched_ok c raw event : Z.of_nat (length raw) <= limit_of c -> delivery_ok c "POST" raw (inr event) (run_dispatch throws event c).
Proof.
  intros Hl. split; [done|]. unfold run_dispatch, dispatch. pose proof (call_handlers_spec event (handlers_for event c)) as Hd.
  destruct (call_handlers throws event (handlers_for event c)) as [cs failed]. destruct Hd as (H1 & H2 & H3).
  destruct (background c); [simpl; split; [done|]; split; [tauto|]; split; [done | lia]|].
  destruct failed; simpl; (split; [done|]); (split; [tauto|]); split; try lia.
  - intros _. destruct (H3 eq_refl) as (pre & h & -> & ? & _). eauto.
  - intros _ _. by destruct (H2 eq_refl) as [-> _].
Qed.

(** A fetch handler calls handlers only for verified deliveries: if any is
    called, the request was a POST within the size limit whose event was constructed from its body.
    The handlers called are a prefix of the type's handlers followed by the catch-all ones, in the
    order of their registration; all of them, unless one throws, which is then the last.  Without
    background mode the answer is 200 only when all of them ran, else 500; a refused delivery is
    answered 405, 413, 400 or 401 and reaches no handler. *)
Theorem webhook_handler_safe c method contentLength raw signature now :
  delivery_ok c method raw (constructEvent hmac decode_utf8 JSON_parse (BodyBytes raw) signature now c)
    (fetchHandler hmac decode_utf8 JSON_parse throws c method contentLength raw signature now).
Proof.
  unfold fetchHandler. destruct (String.eqb_spec method "POST") as [->|Hm]; cbn [negb]; [|apply refused_ok; tauto].
  destruct (match Number _ with Some d => _ | None => _ end); [apply refused_ok; tauto|].
  destruct (limit_of c <? Z.of_nat (length raw)) eqn:Hl; breflect; [apply refused_ok; tauto|].
  destruct (constructEvent _ _ _ _ _ _ _) as [e|event]; [|by apply dispatched_ok].
  split; [done|]. simpl. split; [done|]. unfold statusFor. destruct (reason e); lia.
Qed.

(** A handler registered for a type runs after the earlier ones of the type and before the
    catch-all ones. *)
Lemma on_handlers c type h event :
  event_type event = type -> type <> "*" ->
  handlers_for event (on type h c)
  = (map_get type (handlers c) ?? []) ++ [h] ++ (map_get "*" (handlers c) ?? []).
Proof.
  intros <- Hne. unfold handlers_for, on. simpl. rewrite map_get_set_eq, map_get_set_ne by done. simpl. by rewrite <- app_assoc.
Qed.

(** A delivery signed with one of the secrets is accepted. *)
Lemma signed_accepted rawBody secret secrets tolerance now event t :
  (forall k b, length (hmac k b) = 32%nat /\ Forall is_byte (hmac k b)) -> secret ∈ secrets ->
  JSON_parse (decode_utf8 (toBytes rawBody)) = Some event -> field "type" event = Some (JStr t) -> fresh event tolerance now ->
  constructWebhookEvent hmac decode_utf8 JSON_parse rawBody (Some (computeWebhookSignature hmac rawBody secret)) secrets tolerance now = inr event.
Proof.
  intros Hh Hin Hp Ht Hf. apply webhook_construct_sound. eexists. split; [reflexivity|]. unfold computeWebhookSignature.
  destruct (Hh secret (toBytes rawBody)) as [Hlen Hb]. destruct (unhex_hex _ Hb) as [Hun Hall].
  rewrite trim_hex by done. split; [unfold is_signature; by rewrite hex_length, Hlen, Hall|].
  split; [|split; [done|]; split; [by exists t | done]]. apply Exists_exists. exists secret. by rewrite Hun.
Qed.

Lemma read_stream_limit limit size chunks chs rest :
  size + Z.of_nat (length (concat chs)) <= limit -> Z.of_nat (length chunks) = size ->
  read_stream limit size chunks (map SData chs ++ SEnd :: rest) = ReadBody (BodyBytes (chunks ++ concat chs)).
Proof.
  revert size chunks. induction chs as [|ch chs IH]; intros size chunks Hl Hs; simpl in *; [by rewrite app_nil_r|].
  rewrite length_app in Hl. destruct (limit <? size + Z.of_nat (length ch)) eqn:E; breflect; [lia|].
  rewrite IH; [by rewrite app_assoc | lia | rewrite length_app; lia].
Qed.
End Handlers.

(** The size limit of the Node handler is stated in bytes, but a body that a
    parser left as text is measured in characters: such a body can exceed the limit and be read. *)
Theorem webhook_text_limit :
  let req := mkNodeRequest (Some "POST") [] (NBString (String (ascii_of_nat 233) (String (ascii_of_nat 233) EmptyString))) NBUndefined false false [] in
  exists body, readNodeBody req 2 = ReadBody body /\ length (toBytes body) = 4%nat.
Proof. eexists. split; vm_compute; reflexivity. Qed.
