(* ===== verification/RuntimeClient.v ===== *)
(** * The client of Flow's runner API (sandbox-runner/src/runtime-client.ts)

    [request] sends one request of the runner, again and again while the failures are transient; the
    endpoints are calls of it.  What the platform does in each attempt (the token file, fetch, the
    abort signal, the clock, the random number) is an argument, [AttemptEnv]; the URL class is the
    parameter [URL_href].  The loop carries fuel; a policy with a limit of attempts or a deadline
    never uses it up.  The log is not modelled. *)

From Stdlib Require Import ZArith QArith Lia Bool List.
From stdpp Require Import base list strings.
From S2P Require Import Prelude JsString JsMap JsNumber Json Protocol RunnerQueue RunnerEnv EventBuffer.

Local Set Warnings "-register-all".
Open Scope Z_scope.

Definition RUNTIME_PREFIX : string := "/internal/coding-runtime".

(** ** Errors *)

(** A thrown or rejected value: an Error object has an identity, a name and a message. *)
Inductive Value := VUndefined | VNull | VError (id : nat) (name message : string) | VOther (text : string).

#[export] Instance Value_eq_dec : EqDecision Value.
Proof. solve_decision. Defined.

Definition errorMessage (error : Value) : string :=
  match error with VUndefined => "undefined" | VNull => "null" | VError _ _ message => message | VOther text => text end.

(** What [request] throws: the two classes of the client, or any other value. *)
Inductive Thrown :=
  | ThrowRuntime (message : string) (status : Z) (retryable : bool) (body : string)
  | ThrowAuth (status : Z) (body : string)
  | ThrowValue (v : Value).

(** An [AbortSignal] at one moment: [None] while it is not aborted (or absent), else its reason. *)
Definition Signal : Type := option Value.

Definition isAbort (error : Value) (signal : Signal) : bool :=
  match signal with
  | None => false
  | Some reason => bool_decide (error = reason) || match error with VError _ name _ => name =s "AbortError" | _ => false end
  end.

(** [signal.reason ?? new Error('aborted')]; the identity of the new error is not compared any more. *)
Definition abort_value (reason : Value) : Value :=
  match reason with VUndefined | VNull => VError 0 "Error" "aborted" | v => v end.

Definition isRetryableStatus (status : Z) : bool :=
  (status =? 408) || (status =? 425) || (status =? 429) || ((500 <=? status) && negb (status =? 501)).

(** ** Retry policies *)

Inductive Attempts := Times (n : Z) | Infinity.

Record RetryPolicy := mkPolicy { attempts : Attempts; deadlineMs : option Z; baseMs : option Z; maxMs : option Z }.

Definition RETRY_NONE : RetryPolicy := mkPolicy (Times 1) None None None.
Definition RETRY_DEFAULT : RetryPolicy := mkPolicy (Times 5) None (Some 1000) (Some 15000).
Definition RETRY_PERSISTENT : RetryPolicy := mkPolicy Infinity (Some (30 * 60000)) (Some 1000) (Some 30000).

(** [attempt < retry.attempts] *)
Definition below (attempt : nat) (a : Attempts) : bool :=
  match a with Times n => Z.of_nat attempt <? n | Infinity => true end.

(** ** Requests *)

(** The body of a request; a stream has a [getReader]. *)
Inductive Body := Bytes (content : string) | Stream (content : string).

Record RequestOptions := mkOptions {
  query : list (string * option string); json_body : option json; raw_body : option Body; contentType : option string;
  timeoutMs : option Z; retry : option RetryPolicy; acceptStatus : list Z }.

Definition no_options : RequestOptions := mkOptions [] None None None None None [].

(** The text and the bytes of a body may fail to arrive ([None]); [has_body] is false when the body is null. *)
Record Response := mkResponse { status : Z; text : Value + string; has_body : bool }.

Definition ok (r : Response) : bool := (200 <=? status r) && (status r <? 300).

(** What the client hands to [fetch]. *)
Record Sent := mkSent {
  sent_method : string; sent_url : string; sent_headers : list (string * string); sent_body : option Body; sent_half : bool; sent_timeout : Z }.

(** One attempt: the signal before it, the token, what [fetch] does, the signal when its failure is
    examined in [once] and in [request], the random number, the clock after the failure and the signal that ends the sleep early. *)
Record AttemptEnv := mkEnv {
  signal_before : Signal; token : Value + string; fetched : Value + Response; signal_once : Signal; signal_request : Signal;
  random : Q; now : Z; sleep_signal : Signal }.

Record RuntimeClient := mkClient { baseUrl : string; client_timeoutMs : Z }.

Definition new_RuntimeClient (url : string) (timeout : option Z) : RuntimeClient := mkClient (strip_slashes url) (timeout ?? 30000).

Section Client.
(** The text of [new URL(full)] after [searchParams.set] of the entries, or what the constructor throws. *)
Context (URL_href : string -> list (string * string) -> Value + string) (client : RuntimeClient).

Definition full_url (path : string) : string :=
  if startsWith "http://" path || startsWith "https://" path then path else baseUrl client +:+ path.

Definition url (path : string) (query : list (string * option string)) : Value + string :=
  URL_href (full_url path) (omap (fun p => pair (fst p) <$> snd p) query).

(** The headers and the body of a request. *)
Definition headers_of (bearer : string) (o : RequestOptions) : list (string * string) :=
  ("authorization", "Bearer " +:+ bearer) ::
  match json_body o, contentType o with
  | Some _, _ => [("content-type", "application/json")]
  | None, Some t => if truthy t then [("content-type", t)] else []
  | None, None => []
  end.

Definition body_of (o : RequestOptions) : option Body :=
  match json_body o with Some v => Some (Bytes (stringify_json v)) | None => raw_body o end.

(** What an answer that is not a success throws. *)
Definition refusal (method path : string) (r : Response) : Thrown :=
  let body := match text r with inr t => t | inl _ => "" end in
  if (status r =? 401) || (status r =? 403) then ThrowAuth (status r) body
  else ThrowRuntime (trim (method +:+ " " +:+ path +:+ ": HTTP " +:+ showZ (status r) +:+ " " +:+ slice 0 300 body))
         (status r) (isRetryableStatus (status r)) body.

Definition once (method path : string) (o : RequestOptions) (env : AttemptEnv) : (Thrown + Response) * option Sent :=
  match token env with
  | inl e => (inl (ThrowValue e), None)
  | inr bearer =>
      let network e :=
        if isAbort e (signal_once env) then ThrowValue e
        else ThrowRuntime (method +:+ " " +:+ path +:+ ": " +:+ errorMessage e) 0 true "" in
      match url path (query o) with
      | inl e => (inl (network e), None)
      | inr href =>
          let half := match body_of o with Some (Stream _) => true | _ => false end in
          let sent := mkSent method href (headers_of bearer o) (body_of o) half (timeoutMs o ?? client_timeoutMs client) in
          match fetched env with
          | inl e => (inl (network e), Some sent)
          | inr r => (if ok r || existsb (Z.eqb (status r)) (acceptStatus o) then inr r else inl (refusal method path r), Some sent)
          end
      end
  end.

(** Whether [request] goes on after this error. *)
Definition retryable (error : Thrown) (signal : Signal) : bool :=
  match error with
  | ThrowRuntime _ _ again _ => again
  | ThrowAuth _ _ => false
  | ThrowValue v => negb (isAbort v signal)
  end.

(** What one attempt did: the request sent, its result and the delay slept after it. *)
Record Round := mkRound { sent : option Sent; result : Thrown + Response; slept : option Z }.

Definition delay_after (p : RetryPolicy) (attempt : nat) (env : AttemptEnv) : Z :=
  backoffDelay (Z.of_nat attempt) (baseMs p ?? 1000) (maxMs p ?? 30000) (random env).

Definition past_deadline (p : RetryPolicy) (elapsed delay : Z) : bool :=
  match deadlineMs p with Some d => d <? elapsed + delay | None => false end.

Section Loop.
Context (method path : string) (o : RequestOptions) (p : RetryPolicy) (envs : nat -> AttemptEnv) (started : Z).

(** The loop from an attempt on, with the last error; [None] is a loop that ran out of fuel. *)
Fixpoint request_loop (fuel attempt : nat) (lastError : Thrown) : option ((Thrown + Response) * list Round) :=
  match fuel with
  | O => None
  | S fuel' =>
      let env := envs attempt in
      if negb (below attempt (attempts p)) then Some (inl lastError, [])
      else match signal_before env with
      | Some reason => Some (inl (ThrowValue (abort_value reason)), [])
      | None =>
          match once method path o env with
          | (inr r, s) => Some (inr r, [mkRound s (inr r) None])
          | (inl error, s) =>
              if negb (retryable error (signal_request env)) then Some (inl error, [mkRound s (inl error) None])
              else
                let delay := delay_after p attempt env in
                if negb (below (S attempt) (attempts p)) || past_deadline p (now env - started) delay
                then Some (inl error, [mkRound s (inl error) None])
                else match sleep_signal env with
                | Some reason => Some (inl (ThrowValue (abort_value reason)), [mkRound s (inl error) (Some delay)])
                | None =>
                    match request_loop fuel' (S attempt) error with
                    | Some (out, rounds) => Some (out, mkRound s (inl error) (Some delay) :: rounds)
                    | None => None
                    end
                end
          end
      end
  end.
End Loop.

(** [started] is the clock when the call begins. *)
Definition request (fuel : nat) (method path : string) (o : RequestOptions) (envs : nat -> AttemptEnv) (started : Z) :=
  request_loop method path o (retry o ?? RETRY_DEFAULT) envs started fuel 0 (ThrowValue VUndefined).

(** ** Endpoints

    A call that a caller makes: the request and what becomes of its answer. *)

Record Call := mkCall { call_method : string; call_path : string; call_options : RequestOptions }.

Definition opts_json (v : json) (r : option RetryPolicy) (timeout : option Z) : RequestOptions := mkOptions [] (Some v) None None timeout r [].

Definition seconds (n : Z) : string := showZ n +:+ "s".

Definition bootstrap_call (wait : option Z) : Call :=
  let w := match wait with Some 0 => None | w => w end in
  mkCall "GET" (RUNTIME_PREFIX +:+ "/bootstrap")
    (mkOptions [("wait", seconds <$> w)] None None None (Some (((wait ?? 0) + 30) * 1000)) (Some RETRY_PERSISTENT) [204]).

Definition setupSecrets_call : Call := mkCall "GET" (RUNTIME_PREFIX +:+ "/setup-secrets") no_options.

Definition heartbeat_call (request : json) : Call :=
  mkCall "POST" (RUNTIME_PREFIX +:+ "/heartbeat") (opts_json request (Some RETRY_NONE) (Some 10000)).

Definition postEvents_call (events : list json) : Call :=
  mkCall "POST" (RUNTIME_PREFIX +:+ "/events") (opts_json (JObj [("events", JArr events)]) (Some RETRY_NONE) (Some 15000)).

Definition inbox_call (after waitSeconds : Z) : Call :=
  mkCall "GET" (RUNTIME_PREFIX +:+ "/inbox")
    (mkOptions [("after", Some (showZ after)); ("wait", Some (seconds waitSeconds))] None None None
       (Some ((waitSeconds + 15) * 1000)) (Some RETRY_NONE) []).

Definition completeTurn_call (turnId : string) (request : json) : Call :=
  mkCall "POST" (RUNTIME_PREFIX +:+ "/turns/" +:+ encodeURIComponent turnId +:+ "/complete") (opts_json request (Some RETRY_PERSISTENT) None).

Definition retry_short (n : Z) : RetryPolicy := mkPolicy (Times n) None (Some 500) (Some 5000).

Definition credentials_call (request : json) : Call := mkCall "POST" (RUNTIME_PREFIX +:+ "/credentials") (opts_json request (Some (retry_short 4)) None).
Definition sign_call (request : json) : Call := mkCall "POST" (RUNTIME_PREFIX +:+ "/sign") (opts_json request (Some (retry_short 4)) None).

Definition getHarnessState_call : Call :=
  mkCall "GET" (RUNTIME_PREFIX +:+ "/harness-state") (mkOptions [] None None None (Some 120000) None [204; 404]).

Definition putHarnessState_call (archive : string) : Call :=
  mkCall "PUT" (RUNTIME_PREFIX +:+ "/harness-state") (mkOptions [] None (Some (Bytes archive)) (Some "application/zstd") (Some 120000) None []).

Definition snapshot_path (snapshotId what : string) : string := RUNTIME_PREFIX +:+ "/snapshots/" +:+ encodeURIComponent snapshotId +:+ what.

(** [override || path] *)
Definition or_path (override : option string) (path : string) : string :=
  match override with Some u => if truthy u then u else path | None => path end.

Definition putSnapshotArchive_call (snapshotId content : string) (uploadUrl : option string) : Call :=
  mkCall "PUT" (or_path uploadUrl (snapshot_path snapshotId "/archive"))
    (mkOptions [] None (Some (Stream content)) (Some "application/zstd") (Some (2 * 60 * 60000)) (Some RETRY_NONE) []).

Definition getSnapshotArchive_call (snapshotId : string) (archiveUrl : option string) : Call :=
  mkCall "GET" (or_path archiveUrl (snapshot_path snapshotId "/archive")) (mkOptions [] None None None (Some (2 * 60 * 60000)) None []).

Definition postSnapshotLogs_call (snapshotId : string) (lines : list string) : Call :=
  mkCall "POST" (snapshot_path snapshotId "/logs") (opts_json (JObj [("lines", JArr (map JStr lines))]) (Some (retry_short 3)) None).

Definition completeSnapshot_call (snapshotId : string) (request : json) : Call :=
  mkCall "POST" (snapshot_path snapshotId "/complete") (opts_json request (Some RETRY_PERSISTENT) None).

Definition run_call (fuel : nat) (c : Call) (envs : nat -> AttemptEnv) (started : Z) : option (Thrown + Response) :=
  fst <$> request fuel (call_method c) (call_path c) (call_options c) envs started.

(** What the caller gets of an answer. [JSON_parse] throws by [inl]. *)
Section Answers.
Context (JSON_parse : string -> Value + json).

Definition thrown_json (v : Value + json) : Thrown + json := match v with inl e => inl (ThrowValue e) | inr j => inr j end.

(** [json<T>]: an empty text is an empty object. *)
Definition json_answer (out : Thrown + Response) : Thrown + json :=
  match out with
  | inl e => inl e
  | inr r => match text r with
             | inl e => inl (ThrowValue e)
             | inr t => if truthy t then thrown_json (JSON_parse t) else inr (JObj [])
             end
  end.

(** [bootstrap]: null for 204, else [response.json()]. *)
Definition bootstrap_answer (out : Thrown + Response) : Thrown + option json :=
  match out with
  | inl e => inl e
  | inr r => if status r =? 204 then inr None
             else match text r with
                  | inl e => inl (ThrowValue e)
                  | inr t => match thrown_json (JSON_parse t) with inl e => inl e | inr j => inr (Some j) end
                  end
  end.

Definition void_answer (out : Thrown + Response) : Thrown + unit := match out with inl e => inl e | inr _ => inr tt end.

(** [getHarnessState]: null for 204 and 404, else the bytes. *)
Definition harness_answer (out : Thrown + Response) : Thrown + option string :=
  match out with
  | inl e => inl e
  | inr r => if (status r =? 204) || (status r =? 404) then inr None
             else match text r with inl e => inl (ThrowValue e) | inr bytes => inr (Some bytes) end
  end.

(** [getSnapshotArchive]: the body, which must be there. *)
Definition archive_answer (out : Thrown + Response) : Thrown + Response :=
  match out with
  | inl e => inl e
  | inr r => if has_body r then inr r else inl (ThrowRuntime "snapshot archive response has no body" (status r) false "")
  end.
End Answers.
End Client.

(** ** The loop ends *)

Definition base_of (p : RetryPolicy) : Z := baseMs p ?? 1000.
Definition max_of (p : RetryPolicy) : Z := maxMs p ?? 30000.

(** A policy with positive delays that limits the attempts or the time. *)
Definition bounded_policy (p : RetryPolicy) : Prop :=
  0 < base_of p /\ 0 < max_of p /\ match attempts p, deadlineMs p with Infinity, None => False | _, _ => True end.

(** The most attempts a policy allows: their number, or the deadline over half of the shortest delay. *)
Definition attempt_limit (p : RetryPolicy) : nat :=
  match attempts p, deadlineMs p with
  | Times n, _ => Z.to_nat n
  | Infinity, Some d => S (Z.to_nat (2 * d / Z.min (base_of p) (max_of p)))
  | Infinity, None => 0
  end.

(** The platform: [Math.random()] is in [0, 1) and a sleep lasts at least its delay. *)
Record platform_ok (p : RetryPolicy) (envs : nat -> AttemptEnv) (started : Z) : Prop := {
  random_ok : forall n, (0 <= random (envs n))%Q /\ (random (envs n) < 1)%Q;
  clock_started : started <= now (envs 0%nat);
  clock_advances : forall n, now (envs n) + delay_after p n (envs n) <= now (envs (S n)) }.

Lemma delay_after_bounds p envs started n : bounded_policy p -> platform_ok p envs started ->
  Z.min (base_of p) (max_of p) <= 2 * delay_after p n (envs n) /\ delay_after p n (envs n) <= max_of p.
Proof.
  intros (Hb & Hm & _) Hp. destruct (random_ok _ _ _ Hp n) as [Hr0 Hr1].
  destruct (backoff_delay_bounds (Z.of_nat n) (base_of p) (max_of p) (random (envs n))) as (He & Hd & _); [lia | lia | done | done |].
  unfold delay_after. fold (base_of p) (max_of p). split; [|lia].
  enough (Z.min (base_of p) (max_of p) <= backoff_exp (Z.of_nat n) (base_of p) (max_of p)) by lia.
  unfold backoff_exp. assert (1 <= 2 ^ Z.max 0 (Z.min (Z.of_nat n) 30)) by (apply (Z.pow_le_mono_r 2 0); lia). nia.
Qed.

Lemma slept_cons s r d rounds : sumZ (omap slept (mkRound s r (Some d) :: rounds)) = d + sumZ (omap slept rounds).
Proof. by rewrite omap_cons. Qed.

Section Ends.
Context (URL_href : string -> list (string * string) -> Value + string) (client : RuntimeClient)
  (method path : string) (o : RequestOptions) (p : RetryPolicy) (envs : nat -> AttemptEnv) (started : Z).

#[local] Abbreviation loop := (request_loop URL_href client method path o p envs started).

(** Enough fuel is enough: more of it changes nothing. *)
Lemma loop_mono fuel fuel' n last x : (fuel <= fuel')%nat -> loop fuel n last = Some x -> loop fuel' n last = Some x.
Proof.
  revert fuel' n last x. induction fuel as [|f IH]; intros [|f'] n last x Hle; [done | done | lia |]. cbn [request_loop].
  destruct (negb (below n _)); [done|]. destruct (signal_before _); [done|].
  destruct (once _ _ _ _ _ _) as [[error|r] s]; [|done]. destruct (negb (retryable _ _)); [done|].
  destruct (_ || _); [done|]. destruct (sleep_signal _); [done|].
  destruct (loop f (S n) error) as [[out rounds]|] eqn:E; [|done]. by rewrite (IH f' _ _ _ ltac:(lia) E).
Qed.

(** Where the loop stands at an attempt: [total] was slept before it, and the clock shows it. *)
Definition loop_at (n : nat) (total : Z) : Prop :=
  0 <= total /\ total <= now (envs n) - started /\ Z.of_nat n * Z.min (base_of p) (max_of p) <= 2 * total.

Lemma loop_at_next n total : bounded_policy p -> platform_ok p envs started -> loop_at n total ->
  loop_at (S n) (total + delay_after p n (envs n)).
Proof.
  intros Hb Hp (H0 & H1 & H2). pose proof (delay_after_bounds p envs started n Hb Hp). pose proof (clock_advances _ _ _ Hp n).
  destruct Hb as (Hb & Hm & _). unfold loop_at. split; [lia|]. split; nia.
Qed.

(** A further attempt is within the limit, and what was slept within the deadline. *)
Lemma next_within n total : bounded_policy p -> platform_ok p envs started -> loop_at n total ->
  below (S n) (attempts p) = true -> past_deadline p (now (envs n) - started) (delay_after p n (envs n)) = false ->
  (S n < attempt_limit p)%nat /\ forall d, deadlineMs p = Some d -> total + delay_after p n (envs n) <= d.
Proof.
  intros Hb Hp Hat Hbelow Hdead. pose proof (loop_at_next n total Hb Hp Hat) as (_ & _ & Hn).
  destruct Hat as (_ & Ht & _). destruct Hb as (Hb & Hm & Hlim).
  assert (Hd : forall d, deadlineMs p = Some d -> total + delay_after p n (envs n) <= d).
  { intros d E. unfold past_deadline in Hdead. rewrite E in Hdead. apply Z.ltb_ge in Hdead. lia. }
  split; [|done]. unfold attempt_limit, below in *. destruct (attempts p) as [k|]; [apply Z.ltb_lt in Hbelow; lia|].
  destruct (deadlineMs p) as [d|]; [|done]. specialize (Hd d eq_refl).
  assert (Z.of_nat (S n) <= 2 * d / Z.min (base_of p) (max_of p)) by (apply Z.div_le_lower_bound; lia). lia.
Qed.

Lemma loop_ends fuel n total last : bounded_policy p -> platform_ok p envs started -> loop_at n total ->
  (n < attempt_limit p \/ attempts p <> Infinity)%nat -> (attempt_limit p < n + fuel)%nat -> (0 < fuel)%nat ->
  exists out rounds, loop fuel n last = Some (out, rounds)
    /\ (length rounds <= attempt_limit p - n)%nat
    /\ (forall d, deadlineMs p = Some d -> sumZ (omap slept rounds) = 0 \/ total + sumZ (omap slept rounds) <= d).
Proof.
  intros Hb Hp. revert n total last. induction fuel as [|f IH]; intros n total last Hat Hn Hf H0; [lia|]. cbn [request_loop].
  destruct (below n (attempts p)) eqn:Hbelow; cbn [negb]; [|eexists _, []; split; [done | cbn; split; [lia | auto]]].
  assert (Hlt : (n < attempt_limit p)%nat).
  { unfold attempt_limit, below in *. destruct (attempts p); [apply Z.ltb_lt in Hbelow; lia|]. by destruct Hn. }
  destruct (signal_before _); [eexists _, []; split; [done | cbn; split; [lia | auto]]|].
  destruct (once _ _ _ _ _ _) as [[error|r] s]; [|eexists _, [_]; split; [done | cbn; split; [lia | auto]]].
  destruct (negb (retryable _ _)); [eexists _, [_]; split; [done | cbn; split; [lia | auto]]|].
  destruct (negb (below (S n) _)) eqn:Hnext; [eexists _, [_]; split; [done | cbn; split; [lia | auto]]|]. cbn [orb].
  destruct (past_deadline _ _ _) eqn:Hdead; [eexists _, [_]; split; [done | cbn; split; [lia | auto]]|].
  apply negb_false_iff in Hnext. destruct (next_within n total Hb Hp Hat Hnext Hdead) as [Hlim Hslept].
  destruct (sleep_signal _).
  { eexists _, [_]. split; [done|]. split; [cbn; lia|]. intros d E. right. rewrite slept_cons. specialize (Hslept d E). change (sumZ (omap slept [])) with 0. lia. }
  destruct (IH (S n) _ error (loop_at_next n total Hb Hp Hat) (or_introl Hlim) ltac:(lia) ltac:(lia)) as (out & rounds & -> & Hlen & Hsum).
  eexists out, (_ :: rounds). split; [done|]. split; [cbn; lia|]. intros d E. right. rewrite slept_cons. specialize (Hslept d E).
  destruct (Hsum d E); lia.
Qed.
End Ends.

(** C14 (runtime_request_ends).  A request whose policy limits its attempts or its time always ends: a number of loop rounds fixed by
    the policy alone is enough, no more attempts are made than the policy allows, and the time slept
    between them stays within the deadline. *)
Theorem runtime_request_ends URL_href client method path o envs started :
  let p := retry o ?? RETRY_DEFAULT in
  bounded_policy p -> platform_ok p envs started ->
  exists out rounds,
    (forall fuel, (attempt_limit p < fuel)%nat -> request URL_href client fuel method path o envs started = Some (out, rounds))
    /\ (length rounds <= attempt_limit p)%nat
    /\ (forall d, deadlineMs p = Some d -> 0 <= d -> sumZ (omap slept rounds) <= d).
Proof.
  intros p Hb Hp. assert (Hat : loop_at p envs started 0 0) by (pose proof (clock_started _ _ _ Hp); unfold loop_at; lia).
  assert (Hn : (0 < attempt_limit p \/ attempts p <> Infinity)%nat).
  { unfold attempt_limit. destruct Hb as (_ & _ & Hb). destruct (attempts p); [by right|]. destruct (deadlineMs p); [left; lia | done]. }
  destruct (loop_ends URL_href client method path o p envs started (S (attempt_limit p)) 0 0 (ThrowValue VUndefined) Hb Hp Hat Hn
              ltac:(lia) ltac:(lia)) as (out & rounds & E & Hlen & Hsum).
  exists out, rounds. split; [|split].
  - intros fuel Hf. exact (loop_mono _ _ _ _ _ _ _ _ (S (attempt_limit p)) fuel _ _ _ Hf E).
  - lia.
  - intros d Ed H0. destruct (Hsum d Ed); lia.
Qed.

(** ** What is retried *)

(** A failure worth another attempt: the network, an answer of a passing kind, or a token file that could not be read. *)
Definition transient (error : Thrown) (env : AttemptEnv) : Prop :=
  match error with
  | ThrowRuntime _ s again _ => again = true /\ (s = 0 \/ isRetryableStatus s = true)
  | ThrowAuth _ _ => False
  | ThrowValue v => token env = inl v /\ isAbort v (signal_request env) = false
       \/ isAbort v (signal_once env) = true /\ isAbort v (signal_request env) = false
  end.

Lemma once_errors URL_href client method path o env error s :
  once URL_href client method path o env = (inl error, s) -> retryable error (signal_request env) = true -> transient error env.
Proof.
  unfold once. destruct (token env) as [e|bearer] eqn:Et.
  { intros [= <- <-]. cbn. rewrite negb_true_iff. by left. }
  destruct (url _ _ _ _) as [e|href].
  - intros [= <- <-]. destruct (isAbort e (signal_once env)) eqn:Ea; cbn; rewrite ?negb_true_iff; auto.
  - destruct (fetched env) as [e|r].
    + intros [= <- <-]. destruct (isAbort e (signal_once env)) eqn:Ea; cbn; rewrite ?negb_true_iff; auto.
    + destruct (_ || _); [done|]. intros [= <- <-]. unfold refusal. destruct (_ || _); cbn; naive_solver.
Qed.

Lemma once_success URL_href client method path o env r s :
  once URL_href client method path o env = (inr r, s) -> fetched env = inr r /\ (ok r = true \/ In (status r) (acceptStatus o)).
Proof.
  unfold once. destruct (token env); [done|]. destruct (url _ _ _ _); [done|]. destruct (fetched env) as [e|r']; [done|].
  destruct (ok r' || _) eqn:E; [|done]. intros [= <- <-]. split; [done|]. apply orb_true_iff in E as [E|E]; [by left | right].
  apply existsb_exists in E as (x & Hin & Hx). apply Z.eqb_eq in Hx. by rewrite Hx.
Qed.

Section Discipline.
Context (URL_href : string -> list (string * string) -> Value + string) (client : RuntimeClient)
  (method path : string) (o : RequestOptions) (p : RetryPolicy) (envs : nat -> AttemptEnv) (started : Z).

#[local] Abbreviation loop := (request_loop URL_href client method path o p envs started).

(** A round is the attempt it stands for; a delay follows only a passing failure, and another attempt only a delay. *)
Definition round_ok (n : nat) (more : bool) (rd : Round) : Prop :=
  once URL_href client method path o (envs n) = (result rd, sent rd)
  /\ (forall d, slept rd = Some d -> d = delay_after p n (envs n) /\ exists e, result rd = inl e /\ transient e (envs n))
  /\ (more = true -> isSome (slept rd) = true).

(** The caller's signal ended the call, before its first attempt or after a delay began. *)
Definition aborted_by (n : nat) (final : option Round) (reason : Value) : Prop :=
  match final with
  | None => signal_before (envs n) = Some reason
  | Some rd => isSome (slept rd) = true /\ (signal_before (envs n) = Some reason \/ sleep_signal (envs (pred n)) = Some reason)
  end.

(** No further attempt after this error. *)
Definition gave_up (n : nat) (e : Thrown) : Prop :=
  retryable e (signal_request (envs (pred n))) = false \/ below n (attempts p) = false
  \/ past_deadline p (now (envs (pred n)) - started) (delay_after p (pred n) (envs (pred n))) = true.

(** How a call ends that would make attempt [n] next. *)
Definition ended (n : nat) (out : Thrown + Response) (final : option Round) : Prop :=
  match out with
  | inr r => exists rd, final = Some rd /\ result rd = inr r /\ (ok r = true \/ In (status r) (acceptStatus o))
  | inl e =>
      (exists reason, e = ThrowValue (abort_value reason) /\ aborted_by n final reason)
      \/ (n = 0%nat /\ final = None /\ below 0 (attempts p) = false)
      \/ (exists rd, final = Some rd /\ result rd = inl e /\ gave_up n e)
  end.

Lemma single_round n r s d more : once URL_href client method path o (envs n) = (r, s) ->
  (forall x, d = Some x -> x = delay_after p n (envs n) /\ exists e, r = inl e /\ transient e (envs n)) -> more = false ->
  forall i rd, [mkRound s r d] !! i = Some rd -> round_ok (n + i) more rd.
Proof. intros Ho Hd -> [|[|i]] rd; [|done|done]. intros [= <-]. rewrite Nat.add_0_r. by split. Qed.

(** The end of a loop after a first round is the end of the loop from there. *)
Lemma ended_cons n rd rounds out : isSome (slept rd) = true -> ended (n + length rounds) out (last rounds) -> below n (attempts p) = true -> n <> 0%nat ->
  ended (n + length rounds) out (last (rd :: rounds)).
Proof.
  intros Hs He Hb Hn. destruct rounds as [|x rest]; [|exact He]. cbn in *. rewrite Nat.add_0_r in *.
  destruct out as [e|r]; cbn in *; [|by destruct He as (? & ? & _)]. destruct He as [(reason & -> & H)|[(? & _)|(? & ? & _)]]; [|lia|done].
  left. exists reason. cbn. auto.
Qed.

Lemma loop_disciplined fuel n last_error out rounds : loop fuel n last_error = Some (out, rounds) ->
  (n = 0%nat \/ below n (attempts p) = true) ->
  (forall i rd, rounds !! i = Some rd -> round_ok (n + i) (S i <? length rounds)%nat rd)
  /\ ended (n + length rounds) out (last rounds).
Proof.
  revert n last_error out rounds. induction fuel as [|f IH]; intros n le out rounds; [done|]. cbn [request_loop].
  destruct (below n (attempts p)) eqn:Hb; cbn [negb].
  2: { intros [= <- <-] [->|?]; [|congruence]. split; [done|]. cbn. auto. }
  destruct (signal_before (envs n)) as [reason|] eqn:Hs.
  { intros [= <- <-] _; split; [done|]. cbn. rewrite Nat.add_0_r. eauto. }
  destruct (once _ _ _ _ _ _) as [[error|r] s] eqn:Ho.
  2: { intros [= <- <-] _. split; [intros [|i] rd; [|done]; by eapply (single_round n)|]. cbn. eexists. split; [done|]. split; [done|]. by apply once_success in Ho as [_ ?]. }
  assert (Hfin : forall d, gave_up (S n) error -> ended (n + 1) (inl error) (Some (mkRound s (inl error) d))).
  { intros d Hg. rewrite Nat.add_1_r. right; right. eauto. }
  destruct (negb (retryable _ _)) eqn:Hr.
  { intros [= <- <-] _. split; [intros [|i] rd; [|done]; by eapply (single_round n)|]. apply Hfin. left. by apply negb_true_iff. }
  apply negb_false_iff in Hr. pose proof (once_errors _ _ _ _ _ _ _ _ Ho Hr) as Htr. destruct (_ || _) eqn:Hstop.
  { intros [= <- <-] _. split; [intros [|i] rd; [|done]; by eapply (single_round n)|]. apply Hfin. right.
    apply orb_true_iff in Hstop as [?%negb_true_iff|?]; auto. }
  apply orb_false_iff in Hstop as [Hnext%negb_false_iff _].
  assert (Hdel : forall x, Some (delay_after p n (envs n)) = Some x -> x = delay_after p n (envs n) /\ exists e, inl error = inl (B := Response) e /\ transient e (envs n)).
  { intros x [= <-]. eauto. }
  destruct (sleep_signal (envs n)) as [reason|] eqn:Hss.
  { intros [= <- <-] _. split; [intros [|i] rd; [|done]; by eapply (single_round n)|].
    cbn [length last]. rewrite Nat.add_1_r. left. exists reason. cbn. auto. }
  destruct (loop f (S n) error) as [[out' rounds']|] eqn:El; [|done]. intros [= <- <-] _.
  destruct (IH _ _ _ _ El (or_intror Hnext)) as [IHr IHe]. split.
  - intros [|i] rd; cbn [lookup list_lookup].
    + intros [= <-]. rewrite Nat.add_0_r. by split.
    + intros Hi. rewrite Nat.add_succ_r. exact (IHr i rd Hi).
  - cbn [length]. rewrite Nat.add_succ_r. by apply (ended_cons (S n)).
Qed.

(** A round whose error is not a passing failure is the last one, and the call throws that error. *)
Lemma final_error out rounds i rd e : (forall j r, rounds !! j = Some r -> round_ok j (S j <? length rounds)%nat r) ->
  ended (length rounds) out (last rounds) -> rounds !! i = Some rd -> result rd = inl e -> ~ transient e (envs i) ->
  S i = length rounds /\ out = inl e.
Proof.
  intros Hr He Hi Hres Hnt. destruct (Hr i rd Hi) as (_ & Hs & Hmore).
  assert (Hns : slept rd = None). { destruct (slept rd) as [d|] eqn:E; [|done]. destruct (Hs d eq_refl) as (_ & e' & He' & Ht). congruence. }
  rewrite Hns in Hmore. assert (Hlen : S i = length rounds).
  { pose proof (lookup_lt_Some _ _ _ Hi). destruct (S i <? length rounds)%nat eqn:E; [by specialize (Hmore eq_refl)|]. apply Nat.ltb_ge in E. lia. }
  split; [done|]. assert (Hl : last rounds = Some rd) by (rewrite last_lookup, <- Hlen; done). rewrite Hl in He.
  destruct out as [e'|r]; cbn in He; [|destruct He as (? & [= <-] & ? & _); congruence].
  destruct He as [(reason & _ & Hsl & _)|[(? & ? & _)|(rd' & [= <-] & Hres' & _)]]; [by rewrite Hns in Hsl | done | congruence].
Qed.
End Discipline.

(** C13 (runtime_retries_disciplined).  Every attempt of a request sends what [once] sends; another attempt follows only a passing failure (no answer, 408, 425,
    429, 5xx but 501, an unreadable token) after the backoff delay, never an answer that rejects the sandbox token, and never an abort of the caller; and
    the result is the answer of the last attempt, its error, or the reason of the abort. *)
Theorem runtime_retries_disciplined URL_href client fuel method path o envs started out rounds :
  let p := retry o ?? RETRY_DEFAULT in
  request URL_href client fuel method path o envs started = Some (out, rounds) ->
  (forall i rd, rounds !! i = Some rd -> round_ok URL_href client method path o p envs i (S i <? length rounds)%nat rd)
  /\ ended o p envs started (length rounds) out (last rounds)
  /\ (forall i rd s body, rounds !! i = Some rd -> result rd = inl (ThrowAuth s body) -> S i = length rounds /\ out = inl (ThrowAuth s body))
  /\ (forall i rd v, rounds !! i = Some rd -> result rd = inl (ThrowValue v) -> isAbort v (signal_request (envs i)) = true ->
        S i = length rounds /\ out = inl (ThrowValue v)).
Proof.
  intros p E. destruct (loop_disciplined _ _ _ _ _ _ _ _ _ _ _ _ _ E (or_introl eq_refl)) as [Hr He].
  split; [exact Hr|]. split; [exact He|]. split.
  - intros i rd s body Hi Hres. eapply (final_error _ _ _ _ _ _ _ _ _ _ _ _ _ Hr He Hi Hres). by intros [].
  - intros i rd v Hi Hres Ha. eapply (final_error _ _ _ _ _ _ _ _ _ _ _ _ _ Hr He Hi Hres). cbn. intuition congruence.
Qed.

(** ** The event buffer on top of the client

    The [post] of the buffer is [postEvents]; what it throws is what [run] of the buffer sees. *)

Definition post_input (out : Thrown + unit) : Input :=
  match out with
  | inr tt => IPostOk
  | inl (ThrowAuth s _) => IPostFail (AuthError s)
  | inl (ThrowRuntime _ s again _) => IPostFail (RuntimeError s again)
  | inl (ThrowValue v) => IPostFail (OtherError (errorMessage v))
  end.

Definition refs (b : Buffer) : list nat := map ref (queue b).

Lemma refs_set_inflight batch f q : map ref (set_inflight batch f q) = map ref q.
Proof. unfold set_inflight. rewrite map_map. apply map_ext. intros e. by destruct (in_batch batch e). Qed.

Lemma refs_remove batch b : refs (remove batch b) = List.filter (fun r => negb (existsb (Nat.eqb r) batch)) (refs b).
Proof.
  unfold refs, remove, set_queue. cbn [queue]. induction (queue b) as [|e q IH]; [done|]. cbn. unfold in_batch.
  destruct (existsb (Nat.eqb (ref e)) batch); cbn; [done | by f_equal].
Qed.

Lemma refs_run_iter k b : refs (run_iter k b) = refs b.
Proof.
  unfold run_iter, finish_run, refs. destruct (queue b) as [|e q] eqn:E; [cbn; by rewrite E|].
  destruct (fatal b); [cbn; by rewrite E|]. cbn [emit set_pumping set_queue queue]. apply refs_set_inflight.
Qed.

Lemma trace_run_iter k b x : In x (trace b) -> In x (trace (run_iter k b)).
Proof.
  intros Hx. unfold run_iter, finish_run. destruct (queue b), (fatal b); cbn; rewrite ?in_app_iff; auto.
Qed.

(** What one answer to a batch of events means: delivered, the token refused, the batch refused for good, or to be sent again. *)
Inductive Verdict := Delivered | TokenRefused (s : Z) | BatchRefused | SendAgain.

Definition verdict (answer : Value + Response) : Verdict :=
  match answer with
  | inl _ => SendAgain
  | inr r =>
      if ok r then Delivered
      else if (status r =? 401) || (status r =? 403) then TokenRefused (status r)
      else if (400 <=? status r) && negb (isRetryableStatus (status r)) then BatchRefused else SendAgain
  end.

Lemma refs_rejected batch (b : Buffer) : refs (set_queue (set_inflight batch false (queue b)) (bytes b) b) = refs b.
Proof. unfold refs. cbn. apply refs_set_inflight. Qed.

(** A request with one attempt is that attempt. *)
Lemma request_single URL_href client fuel method path o envs started : retry o = Some RETRY_NONE -> (1 <= fuel)%nat -> signal_before (envs 0%nat) = None ->
  exists rd, request URL_href client fuel method path o envs started = Some (fst (once URL_href client method path o (envs 0%nat)), [rd]).
Proof.
  intros Hr Hf Hs. destruct fuel as [|f]; [lia|]. unfold request. rewrite Hr. cbn [default request_loop RETRY_NONE attempts]. cbn [below negb Z.of_nat Z.ltb Z.compare].
  rewrite Hs. destruct (once _ _ _ _ _ _) as [[error|r] s]; [|eauto]. destruct (negb (retryable _ _)); [eauto|].
  change (negb (below 1 (Times 1))) with true. cbn [orb]. eauto.
Qed.

(** C10 (post_events_drive_buffer).  One request of the event buffer is one attempt, and the buffer does with the batch what the answer means: it forgets a batch
    that was delivered or refused for good and only such a batch, stops when the sandbox token is
    refused, and keeps the batch for another try otherwise, also when no answer came. *)
Theorem post_events_drive_buffer `{EventCodec} URL_href client opts events envs started b batch k fuel bearer href :
  pumping b = Posting batch k -> (1 <= fuel)%nat ->
  signal_before (envs 0%nat) = None -> token (envs 0%nat) = inr bearer ->
  url URL_href client (call_path (postEvents_call events)) [] = inr href ->
  exists out rounds b',
    request URL_href client fuel "POST" (call_path (postEvents_call events)) (call_options (postEvents_call events)) envs started = Some (out, rounds)
    /\ length rounds = 1%nat
    /\ handle opts (post_input (void_answer out)) b = Some b'
    /\ match verdict (fetched (envs 0%nat)) with
       | Delivered => refs b' = List.filter (fun r => negb (existsb (Nat.eqb r) batch)) (refs b) /\ In (OAck batch) (trace b')
       | BatchRefused => refs b' = List.filter (fun r => negb (existsb (Nat.eqb r) batch)) (refs b) /\ In (OReject batch) (trace b')
       | TokenRefused s => refs b' = refs b /\ fatal b' = Some (AuthError s) /\ pumping b' = Finishing
       | SendAgain => refs b' = refs b /\ fatal b' = fatal b /\ pumping b' = Sleeping (k + 1)
       end.
Proof.
  intros Hp Hf Hs Ht Hu.
  destruct (request_single URL_href client fuel "POST" (call_path (postEvents_call events)) (call_options (postEvents_call events)) envs started)
    as [rd ->]; [done | done | done |]. exists (fst (once URL_href client "POST" (call_path (postEvents_call events)) (call_options (postEvents_call events)) (envs 0%nat))), [rd].
  unfold once. rewrite Ht. change (query (call_options (postEvents_call events))) with (@nil (string * option string)). rewrite Hu.
  unfold handle, verdict. destruct (fetched (envs 0%nat)) as [e|r]; cbn [fst].
  { destruct (isAbort e _); cbn [void_answer post_input]; rewrite Hp; eexists; (do 3 (split; [done|])); (split; [apply refs_rejected | done]). }
  destruct (ok r); cbn [orb existsb acceptStatus call_options postEvents_call opts_json fst void_answer post_input].
  { rewrite Hp. eexists. do 3 (split; [done|]). unfold post_resolved. rewrite refs_run_iter. split; [apply (refs_remove batch b)|].
    apply trace_run_iter. cbn. rewrite in_app_iff. cbn. auto. }
  unfold refusal. destruct (_ || _) eqn:Ea; cbn [void_answer post_input]; rewrite Hp; eexists; (do 3 (split; [done|])); cbn [post_rejected].
  { rewrite <- (refs_rejected batch b). unfold refs, finish_run. cbn -[set_inflight]. destruct (set_inflight batch false (queue b)) eqn:E; cbn; by rewrite ?E. }
  rewrite andb_comm. destruct (negb (isRetryableStatus (status r)) && (400 <=? status r)); [|split; [apply refs_rejected | done]].
  rewrite refs_run_iter. split; [|apply trace_run_iter; cbn; rewrite in_app_iff; cbn; auto].
  rewrite <- (refs_rejected batch b). apply (refs_remove batch).
Qed.

(** ** Concrete runs *)

(** The network fails, then Flow is unavailable, then the token is refused; a minute passes between attempts. *)
Definition demo_env (n : nat) : AttemptEnv :=
  mkEnv None (inr "fcs_abc")
    (match n with
     | 0%nat => inl (VError 1 "TypeError" "fetch failed")
     | 1%nat => inr (mkResponse 503 (inr "busy") true)
     | _ => inr (mkResponse 401 (inr "revoked") true)
     end) None None 0%Q (Z.of_nat n * 60000) None.

Definition demo_href (full : string) (q : list (string * string)) : Value + string := inr full.
Definition demo_client : RuntimeClient := new_RuntimeClient "https://flow.test//" None.

Lemma demo_platform p : bounded_policy p -> max_of p <= 60000 -> platform_ok p demo_env 0.
Proof.
  intros (Hb & Hm & _) Hmax. split; [intros n; cbn; split; [apply Qle_refl | done] | done |]. intros n.
  destruct (backoff_delay_bounds (Z.of_nat n) (base_of p) (max_of p) 0) as (He & Hd & _); [lia | lia | apply Qle_refl | done |].
  unfold delay_after. fold (base_of p) (max_of p). cbn [now random demo_env]. lia.
Qed.

Lemma runtime_request_ends_witness :
  attempt_limit RETRY_PERSISTENT = 3601%nat
  /\ exists out rounds,
       (forall fuel, (3601 < fuel)%nat -> request demo_href demo_client fuel "POST" "/x" (opts_json JNull (Some RETRY_PERSISTENT) None) demo_env 0 = Some (out, rounds))
       /\ (length rounds <= 3601)%nat.
Proof.
  split; [vm_compute; reflexivity|].
  destruct (runtime_request_ends demo_href demo_client "POST" "/x" (opts_json JNull (Some RETRY_PERSISTENT) None) demo_env 0)
    as (out & rounds & H1 & H2 & _).
  - cbn. unfold bounded_policy, base_of, max_of. cbn. lia.
  - apply demo_platform; [|cbn; unfold max_of; cbn; lia]. cbn. unfold bounded_policy, base_of, max_of. cbn. lia.
  - exists out, rounds. change (attempt_limit RETRY_PERSISTENT) with 3601%nat in *. auto.
Defined.

(** Two passing failures are retried after half a second and a second; the refusal ends the call. *)
Lemma runtime_retries_disciplined_witness :
  exists rounds, request demo_href demo_client 9 "GET" "/x" no_options demo_env 0 = Some (inl (ThrowAuth 401 "revoked"), rounds)
    /\ map slept rounds = [Some 500; Some 1000; None]
    /\ (omap sent rounds !! 2%nat) = Some (mkSent "GET" "https://flow.test/x" [("authorization", "Bearer fcs_abc")] None false 30000)
    /\ ended no_options RETRY_DEFAULT demo_env 0 3 (inl (ThrowAuth 401 "revoked")) (last rounds).
Proof.
  destruct (request demo_href demo_client 9 "GET" "/x" no_options demo_env 0) as [[out rounds]|] eqn:E; [|vm_compute in E; discriminate].
  pose proof (runtime_retries_disciplined demo_href demo_client 9 "GET" "/x" no_options demo_env 0 out rounds E) as (_ & He & _).
  revert He. vm_compute in E. injection E as <- <-. intros He. eexists. split; [reflexivity|]. split; [reflexivity|]. split; [reflexivity|]. exact He.
Defined.

#[local] Instance demo_runtime_codec : EventCodec := {| stringify := ev_id; parse := fun _ => None |}.

Definition demo_posting : Buffer :=
  mkBuffer [mkEntry 0 (demo_event ev_response "a") 1 true; mkEntry 1 (demo_event ev_response "b") 1 false] 2 false (Posting [0%nat] 0) false None 0 [] 2 [].

Lemma post_events_drive_buffer_witness :
  exists out rounds b', request demo_href demo_client 3 "POST" "/internal/coding-runtime/events" (call_options (postEvents_call [])) (fun _ => demo_env 1) 0 = Some (out, rounds)
    /\ length rounds = 1%nat /\ handle demo_opts (post_input (void_answer out)) demo_posting = Some b'
    /\ refs b' = [0%nat; 1%nat] /\ pumping b' = Sleeping 1.
Proof.
  destruct (post_events_drive_buffer demo_href demo_client demo_opts [] (fun _ => demo_env 1) 0 demo_posting [0%nat] 0 3 "fcs_abc"
              "https://flow.test/internal/coding-runtime/events") as (out & rounds & b' & H1 & H2 & H3 & H4 & _ & H6);
    [reflexivity | lia | reflexivity | reflexivity | reflexivity |]. exists out, rounds, b'. auto.
Defined.
