(* ===== verification/GitHelpers.v ===== *)
(** * The programs git calls in a sandbox
      (sandbox-runner/src/git/credential-helper.ts, sandbox-runner/src/git/sign.ts)

    The credential helper asks Flow for a password each time git needs one; flow-sign sends what git
    wants signed to Flow.  Both are functions of what they read, of Flow's answer and of the platform
    (the hash, base64, [Date.parse], writes that fail), which are arguments. *)

From Stdlib Require Import ZArith QArith Lia Bool List Ascii.
From stdpp Require Import base list strings.
From S2P Require Import Prelude JsString JsMap JsNumber RuntimeClient.

Local Set Warnings "-register-all".

(** ** Lines of key=value *)

(** [line.replace(/\r$/, '')] *)
Fixpoint chomp (s : string) : string :=
  match s with
  | EmptyString => EmptyString
  | String c EmptyString => if Ascii.eqb c "013" then EmptyString else s
  | String c r => String c (chomp r)
  end.

(** [key.replace(/\[\]$/, '')] *)
Fixpoint strip_brackets (s : string) : string :=
  if s =s "[]" then EmptyString else match s with EmptyString => EmptyString | String c r => String c (strip_brackets r) end.

(** The text in front of the first [=] and the text after it. *)
Fixpoint cut_eq (s : string) : option (string * string) :=
  match s with
  | EmptyString => None
  | String c r => if Ascii.eqb c "=" then Some (EmptyString, r) else match cut_eq r with Some (k, v) => Some (String c k, v) | None => None end
  end.

(** The object [CredentialInput]. A text assigned to [__proto__] has no effect. *)
Definition CredentialInput : Type := list (string * string).

Definition set_key (key value : string) (out : CredentialInput) : CredentialInput :=
  if key =s "__proto__" then out else map_set key value out.

Fixpoint parse_lines (lines : list string) (out : CredentialInput) : CredentialInput :=
  match lines with
  | [] => out
  | line :: rest =>
      let trimmed := chomp line in
      if negb (truthy trimmed) then out
      else match cut_eq trimmed with
      | Some ((String _ _) as key, value) => parse_lines rest (set_key (strip_brackets key) value out)
      | _ => parse_lines rest out
      end
  end.

Definition parseCredentialInput (text : string) : CredentialInput := parse_lines (split newline text) [].

(** [input.key || ''] *)
Definition input_or (key : string) (input : CredentialInput) : string := map_get key input ?? "".

(** ** Requests and answers *)

Inductive Purpose := purpose_git | purpose_cli.

Record CredentialRequest := mkCredentialRequest {
  cr_protocol : string; cr_host : string; cr_path : option string; cr_purpose : Purpose; cr_rejected : option bool; cr_fingerprint : option string }.

Record CredentialResponse := mkCredentialResponse { username : string; password : string; expiresAt : string; cliEnv : option (list (string * string)) }.

Definition credentialRequest (input : CredentialInput) : option CredentialRequest :=
  let protocol := toLowerCase (input_or "protocol" input) in
  let host := input_or "host" input in
  let path := input_or "path" input in
  if negb (protocol =s "https") && negb (protocol =s "http") then None
  else if negb (truthy host) then None
  else Some (mkCredentialRequest protocol host (if truthy path then Some path else None) purpose_git None None).

Fixpoint has_line_break (s : string) : bool :=
  match s with
  | EmptyString => false
  | String c r => Ascii.eqb c "010" || Ascii.eqb c "013" || Ascii.eqb c "000" || has_line_break r
  end.

(** [None] is the exception. *)
Definition clean (value : string) : option string := if has_line_break value then None else Some value.

Section Helper.
(** [Date.parse] in milliseconds ([None]: NaN) and the hexadecimal SHA-256 of a text. *)
Context (Date_parse : string -> option Z) (sha256 : string -> string).

Definition expiry_line (response : CredentialResponse) : list string :=
  match Date_parse (expiresAt response) with
  | Some expiry => if (0 <? expiry)%Z then ["password_expiry_utc=" +:+ showZ (expiry / 1000)] else []
  | None => []
  end.

Definition formatCredentialOutput (response : CredentialResponse) : option string :=
  let user := if truthy (username response) then username response else "x-access-token" in
  match clean user, clean (password response) with
  | Some u, Some p => Some (join newline (["username=" +:+ u; "password=" +:+ p] ++ expiry_line response) +:+ newline)
  | _, _ => None
  end.

Definition credentialFingerprint (password : string) : string := sha256 password.

(** The requests sent to Flow and what is printed; [None]: the helper throws. *)
Definition runCredentialHelper (action stdinText : string) (credentials : CredentialRequest -> option CredentialResponse) :
    list CredentialRequest * option string :=
  if action =s "erase" then
    let input := parseCredentialInput stdinText in
    let secret := input_or "password" input in
    match credentialRequest input with
    | Some request =>
        if negb (truthy secret) then ([], Some "")
        else let sent := mkCredentialRequest (cr_protocol request) (cr_host request) (cr_path request) (cr_purpose request)
                           (Some true) (Some (credentialFingerprint secret)) in
             ([sent], match credentials sent with Some _ => Some "" | None => None end)
    | None => ([], Some "")
    end
  else if negb (action =s "get") then ([], Some "")
  else match credentialRequest (parseCredentialInput stdinText) with
  | None => ([], Some "")
  | Some request =>
      ([request], match credentials request with
                  | None => None
                  | Some response => if truthy (password response) then formatCredentialOutput response else Some ""
                  end)
  end.
End Helper.

(** ** flow-sign *)

Inductive SignProgram := ssh_keygen | gpg.

Inductive SignInvocation :=
  | SignSsh (namespace : string) (keyFile bufferFile : option string)
  | SignOpenpgp (keyId : option string) (statusFd : Q) (armor : bool)
  | Passthrough (program : SignProgram).

(** [argv.indexOf(x)] *)
Definition arg_index (x : string) (argv : list string) : option nat := findIndex (String.eqb x) argv.

Record SshArgs := mkSshArgs { namespace : string; keyFile : option string; positional : list string }.

(** The loop of the ssh form from index [i] on; the arguments at [y] and [y + 1] are skipped. *)
Fixpoint ssh_loop (y : nat) (args : list string) (i : nat) (st : SshArgs) : SshArgs :=
  match args with
  | [] => st
  | arg :: rest =>
      if (i =? y)%nat || (i =? y + 1)%nat then ssh_loop y rest (i + 1) st
      else if arg =s "-n" then
        match rest with
        | v :: rest' => ssh_loop y rest' (i + 2) (mkSshArgs v (keyFile st) (positional st))
        | [] => st
        end
      else if arg =s "-f" then
        match rest with
        | v :: rest' => ssh_loop y rest' (i + 2) (mkSshArgs (namespace st) (Some v) (positional st))
        | [] => mkSshArgs (namespace st) None (positional st)
        end
      else if arg =s "-O" then match rest with _ :: rest' => ssh_loop y rest' (i + 2) st | [] => st end
      else if (arg =s "-U") || (arg =s "-q") then ssh_loop y rest (i + 1) st
      else if negb (startsWith "-" arg) then ssh_loop y rest (i + 1) (mkSshArgs (namespace st) (keyFile st) (positional st ++ [arg]))
      else ssh_loop y rest (i + 1) st
  end.

(** [statusFd] is [None] when it is not a finite number. *)
Record GpgArgs := mkGpgArgs { detach : bool; do_sign : bool; g_armor : bool; keyId : option string; statusFd : option Q }.

Definition is_letter (c : ascii) : bool :=
  let n := nat_of_ascii c in ((65 <=? n) && (n <=? 90) || (97 <=? n) && (n <=? 122))%nat.

Fixpoint all_letters (s : string) : bool := match s with EmptyString => true | String c r => is_letter c && all_letters r end.

(** [/^-[a-zA-Z]+$/]: the letters. *)
Definition short_flags (arg : string) : option string :=
  match arg with String "-" ((String _ _) as flags) => if all_letters flags then Some flags else None | _ => None end.

Fixpoint ends_with_char (c : ascii) (s : string) : bool :=
  match s with EmptyString => false | String x EmptyString => Ascii.eqb x c | String _ r => ends_with_char c r end.

(** [arg.startsWith(p)] and the rest. *)
Definition after_prefix (p arg : string) : option string := if startsWith p arg then Some (slice_from (String.length p) arg) else None.

Fixpoint gpg_loop (args : list string) (st : GpgArgs) : GpgArgs :=
  match args with
  | [] => st
  | arg :: rest =>
      let set_fd q := mkGpgArgs (detach st) (do_sign st) (g_armor st) (keyId st) q in
      let set_key k st := mkGpgArgs (detach st) (do_sign st) (g_armor st) k (statusFd st) in
      match after_prefix "--status-fd=" arg with
      | Some v => gpg_loop rest (set_fd (Number v))
      | None =>
      if arg =s "--status-fd" then match rest with v :: rest' => gpg_loop rest' (set_fd (Number v)) | [] => set_fd None end
      else if arg =s "--detach-sign" then gpg_loop rest (mkGpgArgs true (do_sign st) (g_armor st) (keyId st) (statusFd st))
      else if arg =s "--sign" then gpg_loop rest (mkGpgArgs (detach st) true (g_armor st) (keyId st) (statusFd st))
      else if arg =s "--armor" then gpg_loop rest (mkGpgArgs (detach st) (do_sign st) true (keyId st) (statusFd st))
      else if (arg =s "--local-user") || (arg =s "-u") then
        match rest with v :: rest' => gpg_loop rest' (set_key (Some v) st) | [] => set_key None st end
      else match after_prefix "--local-user=" arg with
      | Some v => gpg_loop rest (set_key (Some v) st)
      | None =>
      match short_flags arg with
      | Some flags =>
          let st' := mkGpgArgs (detach st || negb (lacks "b" flags)) (do_sign st || negb (lacks "s" flags))
                       (g_armor st || negb (lacks "a" flags)) (keyId st) (statusFd st) in
          if ends_with_char "u" flags
          then match rest with v :: rest' => gpg_loop rest' (set_key (Some v) st') | [] => set_key None st' end
          else gpg_loop rest st'
      | None => gpg_loop rest st
      end end end
  end.

Definition parseSignArgs (argv : list string) : SignInvocation :=
  match arg_index "-Y" argv with
  | Some y =>
      if bool_decide (argv !! (y + 1)%nat = Some "sign") then
        let st := ssh_loop y argv 0 (mkSshArgs "git" None []) in SignSsh (namespace st) (keyFile st) (last (positional st))
      else Passthrough ssh_keygen
  | None =>
      let st := gpg_loop argv (mkGpgArgs false false false None (Some (-1)%Q)) in
      if detach st && do_sign st then SignOpenpgp (keyId st) (statusFd st ?? (-1)%Q) (g_armor st) else Passthrough gpg
  end.

(** ** Signing through Flow *)

Inductive SignFormat := fmt_ssh | fmt_openpgp.

Record SignRequest := mkSignRequest { sg_format : SignFormat; sg_payload : string }.

(** What flow-sign does to the outside. *)
Inductive SignEffect :=
  | AskFlow (request : SignRequest)
  | WriteFile (path data : string)
  | WriteStdout (data : string)
  | WriteStderr (data : string)
  | WriteFd (fd : Q) (data : string)
  | RunProgram (program : SignProgram) (argv : list string).

(** The outside: reads, Flow's answer, a write that throws, the exit code of the real program, the clock. *)
Record SignDeps := mkSignDeps {
  readStdin : Value + string; readFile : string -> Value + string; sign_answer : SignRequest -> Value + string;
  write_fails : SignEffect -> option Value; program_code : Z; clock_ms : Z }.

(** [(keyId || '0000000000000000').replace(/^0x/i, '').toUpperCase()] *)
Definition fingerprint_of (keyId : option string) : string :=
  let id := match keyId with Some k => if truthy k then k else "0000000000000000" | None => "0000000000000000" end in
  toUpperCase (match id with
               | String "0" (String x r) => if Ascii.eqb x "x" || Ascii.eqb x "X" then r else id
               | _ => id
               end).

Definition gpgStatus (keyId : option string) (now : Z) : string :=
  let fpr := fingerprint_of keyId in
  "[GNUPG:] KEY_CONSIDERED " +:+ fpr +:+ " 2" +:+ newline +:+ "[GNUPG:] BEGIN_SIGNING H8" +:+ newline
  +:+ "[GNUPG:] SIG_CREATED D 1 8 00 " +:+ showZ (now / 1000) +:+ " " +:+ fpr +:+ newline.

Section Sign.
(** [Buffer.toString('base64')] *)
Context (base64 : string -> string) (deps : SignDeps).

(** A sequence of writes: what was written, and the error that stopped it. *)
Fixpoint writes (l : list SignEffect) : list SignEffect * option Value :=
  match l with
  | [] => ([], None)
  | e :: rest => match write_fails deps e with
                 | Some error => ([], Some error)
                 | None => let '(done, error) := writes rest in (e :: done, error)
                 end
  end.

Definition with_newline (signature : string) : string := if ends_with_char "010" signature then signature else signature +:+ newline.

(** One signature: the payload is read, Flow is asked, the answer is checked and [deliver]ed. *)
Definition sign_payload (payload : Value + string) (format : SignFormat) (marker invalid : string) (deliver : string -> list SignEffect) :
    list SignEffect * option Value :=
  match payload with
  | inl error => ([], Some error)
  | inr bytes =>
      let request := mkSignRequest format (base64 bytes) in
      match sign_answer deps request with
      | inl error => ([AskFlow request], Some error)
      | inr signature =>
          if includes marker signature
          then let '(done, error) := writes (deliver signature) in (AskFlow request :: done, error)
          else ([AskFlow request], Some (VError 0 "Error" invalid))
      end
  end.

(** Where the signature of an invocation goes. *)
Definition ssh_delivery (bufferFile : option string) (signature : string) : list SignEffect :=
  match bufferFile with
  | Some path => if truthy path then [WriteFile (path +:+ ".sig") (with_newline signature)] else [WriteStdout (with_newline signature)]
  | None => [WriteStdout (with_newline signature)]
  end.

Definition status_delivery (fd : Q) (status : string) : list SignEffect :=
  if Qle_bool 0 fd then
    if Qeq_bool fd 1 then [WriteStdout status] else if Qeq_bool fd 2 then [WriteStderr status] else [WriteFd fd status]
  else [].

Definition openpgp_delivery (keyId : option string) (fd : Q) (signature : string) : list SignEffect :=
  WriteStdout (with_newline signature) :: status_delivery fd (gpgStatus keyId (clock_ms deps)).

Definition ssh_payload (bufferFile : option string) : Value + string :=
  match bufferFile with Some path => if truthy path then readFile deps path else readStdin deps | None => readStdin deps end.

Definition sign_invocation (invocation : SignInvocation) : list SignEffect * option Value :=
  match invocation with
  | SignSsh _ _ bufferFile =>
      sign_payload (ssh_payload bufferFile) fmt_ssh "BEGIN SSH SIGNATURE" "Flow returned an invalid SSH signature" (ssh_delivery bufferFile)
  | SignOpenpgp keyId fd _ =>
      sign_payload (readStdin deps) fmt_openpgp "BEGIN PGP SIGNATURE" "Flow returned an invalid OpenPGP signature" (openpgp_delivery keyId fd)
  | Passthrough _ => ([], None)
  end.

(** The effects and the exit code. *)
Definition runSign (argv : list string) : list SignEffect * Z :=
  match parseSignArgs argv with
  | Passthrough program => ([RunProgram program argv], program_code deps)
  | invocation =>
      match sign_invocation invocation with
      | (effects, None) => (effects, 0%Z)
      | (effects, Some error) =>
          (effects ++ [WriteStderr ("flow-sign: signing through Flow failed: " +:+ errorMessage error +:+ newline)], 1%Z)
      end
  end.
End Sign.

(** ** git and the helper understand each other *)

Lemma has_line_break_lacks s : has_line_break s = false -> lacks "010" s = true /\ lacks "013" s = true.
Proof.
  induction s as [|a s IH]; cbn [has_line_break lacks]; [done|]. rewrite !orb_false_iff. intros [[[H1 H2] _] Hs].
  rewrite (Ascii.eqb_sym "010"), (Ascii.eqb_sym "013"), H1, H2. cbn. auto.
Qed.

Lemma chomp_lacks s : lacks "013" s = true -> chomp s = s.
Proof.
  induction s as [|a s IH]; [done|]. cbn [lacks]. rewrite andb_true_iff, negb_true_iff, Ascii.eqb_sym. intros [Ha Hs].
  destruct s as [|b s]; [cbn [chomp]; by rewrite Ha|].
  change (chomp (String a (String b s))) with (String a (chomp (String b s))). by rewrite IH.
Qed.

Lemma cut_eq_app k v : lacks "=" k = true -> cut_eq (k +:+ "=" +:+ v) = Some (k, v).
Proof.
  induction k as [|a k IH]; [done|]. cbn [lacks]. rewrite andb_true_iff, negb_true_iff, Ascii.eqb_sym. intros [Ha Hk].
  change ((String a k) +:+ "=" +:+ v) with (String a (k +:+ "=" +:+ v)). cbn [cut_eq]. by rewrite Ha, (IH Hk).
Qed.

(** The keys the helper prints are read back as they are. *)
Definition plain_key (k : string) : bool :=
  truthy k && lacks "=" k && lacks "013" k && lacks "010" k && (strip_brackets k =s k) && negb (k =s "__proto__").

Lemma parse_line k v rest out : plain_key k = true -> lacks "013" v = true ->
  parse_lines ((k +:+ "=" +:+ v) :: rest) out = parse_lines rest (map_set k v out).
Proof.
  unfold plain_key. rewrite !andb_true_iff. intros (((((Ht & He) & Hc) & _) & Hb%String.eqb_eq) & Hp%negb_true_iff) Hv.
  destruct k as [|a k]; [done|]. cbn [parse_lines]. rewrite chomp_lacks by (rewrite !lacks_app, Hc, Hv; done).
  change (truthy (String a k +:+ "=" +:+ v)) with true. cbn [negb]. rewrite cut_eq_app by done. unfold set_key. by rewrite Hb, Hp.
Qed.

(** Lines of plain keys, each ended by a line end, are read back. *)
Definition print_pairs (l : list (string * string)) : list string := map (fun p => fst p +:+ "=" +:+ snd p) l.

Definition plain_pair (p : string * string) : Prop := plain_key (fst p) = true /\ lacks "010" (snd p) = true /\ lacks "013" (snd p) = true.

Lemma join_cons2 sep x y l : join sep (x :: y :: l) = x +:+ sep +:+ join sep (y :: l).
Proof. done. Qed.

Lemma split_newline x r : lacks "010" x = true -> split newline (x +:+ newline +:+ r) = x :: split newline r.
Proof. exact (split_char_app "010" x r). Qed.

Lemma split_lines l : Forall plain_pair l -> l <> [] -> split newline (join newline (print_pairs l) +:+ newline) = print_pairs l ++ [""].
Proof.
  intros Hl Hne. induction Hl as [|[k v] l (Hk & Hv & _) Hl IH]; [done|].
  assert (Hlack : lacks "010" (k +:+ "=" +:+ v) = true).
  { cbn [fst snd] in Hk, Hv. unfold plain_key in Hk. rewrite !andb_true_iff in Hk. destruct Hk as (((((_ & _) & _) & Hk) & _) & _). by rewrite !lacks_app, Hk, Hv. }
  destruct l as [|[k' v'] l].
  - cbn [print_pairs map join fst snd app]. exact (split_newline _ EmptyString Hlack).
  - cbn [print_pairs map fst snd] in *. set (x := k +:+ "=" +:+ v) in *. rewrite join_cons2, !string_app_assoc, split_newline by done.
    cbn [app]. f_equal. by apply IH.
Qed.

Lemma parse_printed l out : Forall plain_pair l -> parse_lines (print_pairs l ++ [""]) out = fold_left (fun m p => map_set (fst p) (snd p) m) l out.
Proof.
  intros Hl. revert out. induction Hl as [|[k v] l (Hk & _ & Hv) Hl IH]; intros out; [done|].
  cbn [print_pairs map app fst snd fold_left]. rewrite parse_line by done. apply IH.
Qed.

(** What git reads from the output of a [get]. *)
Definition output_pairs (Date_parse : string -> option Z) (response : CredentialResponse) : list (string * string) :=
  [("username", if truthy (username response) then username response else "x-access-token"); ("password", password response)]
  ++ match Date_parse (expiresAt response) with
     | Some expiry => if (0 <? expiry)%Z then [("password_expiry_utc", showZ (expiry / 1000))] else []
     | None => []
     end.

Lemma showZ_lacks n c : (0 <= n)%Z -> c = "010"%char \/ c = "013"%char -> lacks c (showZ n) = true.
Proof.
  intros Hn Hc. rewrite showZ_nonneg by done.
  assert (forall d, lacks c (DecimalString.NilEmpty.string_of_uint d) = true) as H; [|apply H].
  induction d; [done|..]; cbn; rewrite IHd, andb_true_r; by destruct Hc as [-> | ->].
Qed.

Lemma formatted_output Date_parse response out : formatCredentialOutput Date_parse response = Some out ->
  Forall plain_pair (output_pairs Date_parse response) /\ out = join newline (print_pairs (output_pairs Date_parse response)) +:+ newline.
Proof.
  unfold formatCredentialOutput, clean, output_pairs, expiry_line. set (u := if truthy _ then _ else _).
  destruct (has_line_break u) eqn:Hu; [done|]. destruct (has_line_break (password response)) eqn:Hp; [done|]. intros [= <-].
  apply has_line_break_lacks in Hu, Hp. assert (H0 : Forall plain_pair [("username", u); ("password", password response)]) by (destruct Hu, Hp; repeat constructor; done).
  destruct (Date_parse _) as [expiry|]; [|done]. destruct (0 <? expiry)%Z eqn:E; [|done]. apply Z.ltb_lt in E. split; [|done].
  apply Forall_app. split; [done|]. repeat constructor; apply showZ_lacks; auto using Z.div_pos with lia; apply Z.div_pos; lia.
Qed.

Lemma output_parsed Date_parse response out : formatCredentialOutput Date_parse response = Some out ->
  parseCredentialInput out = output_pairs Date_parse response.
Proof.
  intros [Hf ->]%formatted_output. unfold parseCredentialInput. rewrite split_lines, parse_printed by done.
  unfold output_pairs. destruct (Date_parse _) as [expiry|]; [|done]. by destruct (0 <? expiry)%Z.
Qed.

Lemma input_or_truthy key input : truthy (input_or key input) = true -> map_get key input = Some (input_or key input).
Proof. unfold input_or. by destruct (map_get key input). Qed.

Lemma credentialRequest_spec input request : credentialRequest input = Some request ->
  (cr_protocol request = "https" \/ cr_protocol request = "http") /\ map_get "host" input = Some (cr_host request)
  /\ cr_purpose request = purpose_git /\ cr_rejected request = None /\ cr_fingerprint request = None.
Proof.
  unfold credentialRequest, input_or. destruct (negb _ && negb _) eqn:E; [done|]. destruct (map_get "host" input) as [h|]; [|by cbn].
  cbn [default from_option id]. destruct (truthy h); [|by cbn]. intros [= <-]. cbn. split; [|done].
  apply andb_false_iff in E as [E|E]; apply negb_false_iff, String.eqb_eq in E; auto.
Qed.

(** The credential helper asks Flow at most once, over http(s) and for the host git named; a rejected password is only named
    by its hash; and whatever Flow answers, git reads back from the printed text exactly the user name and the password of
    the answer to a [get] (and its expiry): no value can smuggle in another key. *)
Theorem credential_helper_safe Date_parse sha256 action stdinText credentials reqs out :
  runCredentialHelper Date_parse sha256 action stdinText credentials = (reqs, out) ->
  let input := parseCredentialInput stdinText in
  (length reqs <= 1)%nat
  /\ (forall r, In r reqs ->
        (cr_protocol r = "https" \/ cr_protocol r = "http") /\ map_get "host" input = Some (cr_host r) /\ cr_purpose r = purpose_git
        /\ (cr_fingerprint r = None \/ action = "erase" /\ exists secret, map_get "password" input = Some secret /\ cr_fingerprint r = Some (sha256 secret)))
  /\ (forall text, out = Some text -> text <> "" ->
        action = "get" /\ exists request response, reqs = [request] /\ credentials request = Some response
        /\ parseCredentialInput text = output_pairs Date_parse response).
Proof.
  intros H input. unfold runCredentialHelper in H. fold input in H. destruct (action =s "erase") eqn:Ee.
  - apply String.eqb_eq in Ee as ->. destruct (credentialRequest input) as [request|] eqn:Er; [|injection H as <- <-; split; [cbn; lia | naive_solver]].
    destruct (truthy (input_or "password" input)) eqn:Es; cbn [negb] in H; injection H as <- <-; [|split; [cbn; lia | naive_solver]].
    apply input_or_truthy in Es.
    apply credentialRequest_spec in Er as (Hp & Hh & Hg & _). split; [done|]. split.
    + intros r [<-|[]]. cbn. eauto 10.
    + intros text. destruct (credentials _); naive_solver.
  - destruct (action =s "get") eqn:Eg; cbn [negb] in H; [|injection H as <- <-; split; [cbn; lia | naive_solver]]. apply String.eqb_eq in Eg as ->.
    destruct (credentialRequest input) as [request|] eqn:Er; [|injection H as <- <-; split; [cbn; lia | naive_solver]]. injection H as <- <-.
    split; [done|]. split.
    + apply credentialRequest_spec in Er as (Hp & Hh & Hg & _ & Hf). intros r [<-|[]]. auto.
    + intros text Ht Hne. destruct (credentials request) as [response|] eqn:Ec; [|done]. destruct (truthy (password response)); [|congruence].
      split; [done|]. exists request, response. auto using output_parsed.
Qed.

Lemma credential_helper_safe_witness :
  let stdin := "protocol=https" +:+ newline +:+ "host=github.com" +:+ newline +:+ newline in
  let answer := mkCredentialResponse "" "p=1" "soon" None in
  exists reqs text, runCredentialHelper (fun _ => Some 5000%Z) (fun s => s) "get" stdin (fun _ => Some answer) = (reqs, Some text)
    /\ parseCredentialInput text = [("username", "x-access-token"); ("password", "p=1"); ("password_expiry_utc", "5")].
Proof.
  intros stdin answer. destruct (runCredentialHelper (fun _ => Some 5000%Z) (fun s => s) "get" stdin (fun _ => Some answer)) as [reqs out] eqn:E.
  pose proof (credential_helper_safe (fun _ => Some 5000%Z) (fun s => s) "get" stdin (fun _ => Some answer) reqs out E) as (_ & _ & H).
  vm_compute in E. injection E as <- <-. destruct (H _ eq_refl ltac:(discriminate)) as (_ & request & response & _ & [= <-] & Hp).
  do 2 eexists. split; [reflexivity|]. exact Hp.
Defined.

(** ** flow-sign hands over only Flow's signature *)

(** The format, the marker, the payload and the destination of an invocation that signs. *)
Definition sign_job (deps : SignDeps) (inv : SignInvocation) : option (SignFormat * string * (Value + string) * (string -> list SignEffect)) :=
  match inv with
  | SignSsh _ _ file => Some (fmt_ssh, "BEGIN SSH SIGNATURE", ssh_payload deps file, ssh_delivery file)
  | SignOpenpgp key fd _ => Some (fmt_openpgp, "BEGIN PGP SIGNATURE", readStdin deps, openpgp_delivery deps key fd)
  | Passthrough _ => None
  end.

Lemma writes_spec deps l : exists rest, l = fst (writes deps l) ++ rest /\ (snd (writes deps l) = None <-> rest = []).
Proof.
  induction l as [|e l (rest & IHl & IHn)]; [by exists []|]. cbn [writes]. destruct (write_fails deps e) as [error|].
  - exists (e :: l). by split.
  - destruct (writes deps l) as [done error]. exists rest. cbn in *. split; [by f_equal | done].
Qed.

Lemma writes_all deps l : (forall e, In e l -> write_fails deps e = None) -> writes deps l = (l, None).
Proof. induction l as [|e l IH]; intros H; [done|]. cbn [writes]. rewrite (H e) by (by left). rewrite IH; [done|]. intros x Hx. apply H. by right. Qed.

Definition failure_text (error : Value) : string := "flow-sign: signing through Flow failed: " +:+ errorMessage error +:+ newline.

Section Job.
Context (base64 : string -> string) (deps : SignDeps) (format : SignFormat) (marker : string) (payload : Value + string) (deliver : string -> list SignEffect).

(** Flow signed the payload. *)
Definition signed (ask : SignEffect) (signature : string) : Prop :=
  exists bytes, payload = inr bytes /\ ask = AskFlow (mkSignRequest format (base64 bytes))
    /\ sign_answer deps (mkSignRequest format (base64 bytes)) = inr signature /\ includes marker signature = true.

(** A part of the work: nothing, the question, or the question and a beginning of the delivery. *)
Definition partial (effects : list SignEffect) : Prop :=
  effects = []
  \/ (exists bytes, payload = inr bytes /\ effects = [AskFlow (mkSignRequest format (base64 bytes))])
  \/ (exists ask signature rest, signed ask signature /\ rest <> [] /\ ask :: deliver signature = effects ++ rest).

Lemma sign_payload_spec invalid effects error :
  sign_payload base64 deps payload format marker invalid deliver = (effects, error) ->
  match error with
  | None => exists ask signature, signed ask signature /\ effects = ask :: deliver signature
  | Some _ => partial effects
  end.
Proof.
  unfold sign_payload. destruct payload as [e|bytes] eqn:Ep; [intros [= <- <-]; by left|].
  destruct (sign_answer deps _) as [e|signature] eqn:Ea; [intros [= <- <-]; right; left; eauto|].
  destruct (includes marker signature) eqn:Em; [|intros [= <- <-]; right; left; eauto].
  destruct (writes_spec deps (deliver signature)) as (rest & Hl & Hn). destruct (writes deps (deliver signature)) as [done err].
  cbn [fst snd] in *. assert (Hs : signed (AskFlow (mkSignRequest format (base64 bytes))) signature) by (exists bytes; auto).
  intros [= <- <-]. destruct err as [e|].
  - right; right. exists (AskFlow (mkSignRequest format (base64 bytes))), signature, rest. split; [done|].
    split; [by intros ->; destruct Hn as [_ Hn]; specialize (Hn eq_refl)|]. cbn. by rewrite <- Hl.
  - destruct Hn as [Hn _]. rewrite (Hn eq_refl), app_nil_r in Hl. do 2 eexists. split; [exact Hs | by rewrite Hl].
Qed.

Lemma sign_payload_complete invalid ask signature : signed ask signature -> (forall e, In e (deliver signature) -> write_fails deps e = None) ->
  sign_payload base64 deps payload format marker invalid deliver = (ask :: deliver signature, None).
Proof. intros (bytes & -> & -> & Ha & Hm) Hw. unfold sign_payload. by rewrite Ha, Hm, writes_all. Qed.
End Job.

(** The signing program of git asks Flow at most once, with the bytes git wants signed.  It exits with 0 only after it has
    delivered, in full and where git looks for it, a signature of Flow that carries the marker of its format, and it does so
    whenever Flow gives one and no write fails; on any failure it exits with 1, says why on stderr and has done only a
    part of that work; what is not a request to sign goes to the real program. *)
Theorem flow_sign_sound base64 deps argv effects code :
  runSign base64 deps argv = (effects, code) ->
  match sign_job deps (parseSignArgs argv) with
  | None => exists program, effects = [RunProgram program argv] /\ code = program_code deps
  | Some (format, marker, payload, deliver) =>
      (code = 0%Z /\ exists ask signature, signed base64 deps format marker payload ask signature /\ effects = ask :: deliver signature)
      \/ (code = 1%Z /\ (exists part error, effects = part ++ [WriteStderr (failure_text error)] /\ partial base64 deps format marker payload deliver part)
          /\ forall ask signature, signed base64 deps format marker payload ask signature ->
               exists e, In e (deliver signature) /\ write_fails deps e <> None)
  end.
Proof.
  unfold runSign, sign_job, sign_invocation. intros H.
  assert (Hno : forall l, (forall e, In e l -> write_fails deps e = None) \/ exists e, In e l /\ write_fails deps e <> None).
  { induction l as [|e l [IH|(e' & ? & ?)]]; [left; done | | right; exists e'; split; [by right | done]].
    destruct (write_fails deps e) eqn:E; [right; exists e; split; [by left | congruence] | left; intros x [<-|Hx]; auto]. }
  destruct (parseSignArgs argv) as [ns key file|key fd armor|program]; [| |injection H as <- <-; eauto];
    (destruct (sign_payload _ _ _ _ _ _ _) as [eff [error|]] eqn:E; injection H as <- <-;
      [right; split; [done|]; split; [exists eff, error; split; [done | exact (sign_payload_spec _ _ _ _ _ _ _ _ _ E)]|]; intros ask signature Hs; edestruct Hno as [Hw|Hw]; [|exact Hw];
       erewrite sign_payload_complete in E by done; discriminate
      | left; split; [done | exact (sign_payload_spec _ _ _ _ _ _ _ _ _ E)]]).
Qed.

(** The calls git makes are understood as requests to sign. *)
Lemma sign_args_of_git key file : negb (startsWith "-" file) = true ->
  parseSignArgs ["-Y"; "sign"; "-n"; "git"; "-f"; key; file] = SignSsh "git" (Some key) (Some file)
  /\ parseSignArgs ["-Y"; "sign"; "-n"; "git"; "-f"; key; "-U"; file] = SignSsh "git" (Some key) (Some file)
  /\ (key <> "-Y" -> parseSignArgs ["--status-fd=2"; "-bsau"; key] = SignOpenpgp (Some key) 2 true).
Proof.
  intros Hf. assert (Hskip : ssh_loop 0 [file] 6 (mkSshArgs "git" (Some key) []) = mkSshArgs "git" (Some key) [file]
    /\ ssh_loop 0 [file] 7 (mkSshArgs "git" (Some key) []) = mkSshArgs "git" (Some key) [file]).
  { assert (forall o, String.prefix "-" o = true -> (file =s o) = false) as Hne.
    { intros o Ho. destruct (file =s o) eqn:E; [|done]. apply String.eqb_eq in E as ->. unfold startsWith in Hf. by rewrite Ho in Hf. }
    cbn [ssh_loop]. by rewrite !Hne, Hf by done. }
  destruct Hskip as [H6 H7]. split; [|split].
  - unfold parseSignArgs. cbn -[ssh_loop]. change (ssh_loop 0 ["-Y"; "sign"; "-n"; "git"; "-f"; key; file] 0 (mkSshArgs "git" None []))
      with (ssh_loop 0 [file] 6 (mkSshArgs "git" (Some key) [])). by rewrite H6.
  - unfold parseSignArgs. cbn -[ssh_loop]. change (ssh_loop 0 ["-Y"; "sign"; "-n"; "git"; "-f"; key; "-U"; file] 0 (mkSshArgs "git" None []))
      with (ssh_loop 0 [file] 7 (mkSshArgs "git" (Some key) [])). by rewrite H7.
  - intros Hk. unfold parseSignArgs, arg_index. cbn [findIndex]. change ("-Y" =s "--status-fd=2") with false. change ("-Y" =s "-bsau") with false. cbn [findIndex].
    destruct ("-Y" =s key) eqn:E; [by apply String.eqb_eq in E|]. cbn. done.
Qed.

Definition demo_sign_deps : SignDeps :=
  mkSignDeps (inr "commit") (fun _ => inr "tree 1") (fun _ => inr "-----BEGIN SSH SIGNATURE-----") (fun _ => None) 7 1000.

Lemma flow_sign_sound_witness :
  runSign (fun s => s) demo_sign_deps ["-Y"; "sign"; "-n"; "git"; "-f"; "/k"; "/tmp/b"]
    = ([AskFlow (mkSignRequest fmt_ssh "tree 1"); WriteFile "/tmp/b.sig" ("-----BEGIN SSH SIGNATURE-----" +:+ newline)], 0%Z)
  /\ exists ask signature, signed (fun s => s) demo_sign_deps fmt_ssh "BEGIN SSH SIGNATURE" (inr "tree 1") ask signature.
Proof.
  split; [vm_compute; reflexivity|].
  destruct (flow_sign_sound (fun s => s) demo_sign_deps ["-Y"; "sign"; "-n"; "git"; "-f"; "/k"; "/tmp/b"] _ _ eq_refl) as [(_ & ask & signature & H & _)|(Hc & _)].
  - exists ask, signature. exact H.
  - vm_compute in Hc. discriminate.
Defined.

(** Verification goes to the real program, and a signature of the wrong kind is refused. *)
Lemma sign_examples :
  runSign (fun s => s) demo_sign_deps ["-Y"; "verify"; "-n"; "git"] = ([RunProgram ssh_keygen ["-Y"; "verify"; "-n"; "git"]], 7%Z)
  /\ runSign (fun s => s) demo_sign_deps ["--verify"; "a"] = ([RunProgram gpg ["--verify"; "a"]], 7%Z)
  /\ runSign (fun s => s) demo_sign_deps ["--status-fd=2"; "-bsau"; "0xab"]
     = ([AskFlow (mkSignRequest fmt_openpgp "commit");
         WriteStderr ("flow-sign: signing through Flow failed: Flow returned an invalid OpenPGP signature" +:+ newline)], 1%Z)
  /\ fingerprint_of (Some "0xab") = "AB".
Proof. vm_compute. done. Qed.
