(* ===== verification/Snapshot.v ===== *)
(** * Snapshots of a sandbox
      (sandbox-runner/src/snapshot.ts, sandbox-runner/src/restore.ts)

    Building a snapshot: the log lines of the setup are posted in batches by [SnapshotLogShipper], the
    archive is uploaded with retries, and the result is reported to Flow.  Restoring one: which snapshot
    the environment names.  The shipper is a machine over calls and turns of the event loop; the
    work of a build (the setup, git, tar) is an argument.  The heartbeat loop of a
    build, tar and the masking of the log are not modelled. *)

From Stdlib Require Import ZArith QArith Lia Bool List Ascii.
From stdpp Require Import base list strings.
From S2P Require Import Prelude JsString JsMap Json Protocol RunnerQueue RunnerEnv SdkHttp RuntimeClient GitHelpers.

Local Set Warnings "-register-all".

(** ** The log shipper *)

Module Shipper.

(** [chained] are the batches handed to the promise chain [sending], in order; the first [started]
    of them were sent and the first [settled] have been answered (or have failed). [timer] is the delay of the pending timer. *)
Record Shipper := mkShipper { lines : list string; timer : option Z; chained : list (list string); started : nat; settled : nat }.

Definition new_shipper : Shipper := mkShipper [] None [] 0 0.

Section Options.
Context (batch : nat) (intervalMs : Z).

Definition flushSoon (delay : Z) (s : Shipper) : Shipper :=
  if isSome (timer s) && (0 <? delay)%Z then s else mkShipper (lines s) (Some delay) (chained s) (started s) (settled s).

Definition push (line : string) (s : Shipper) : Shipper :=
  let s1 := mkShipper (lines s ++ [line]) (timer s) (chained s) (started s) (settled s) in
  if (batch <=? length (lines s1))%nat then flushSoon 0 s1 else flushSoon intervalMs s1.

Definition flush (s : Shipper) : Shipper :=
  mkShipper [] None (match lines s with [] => chained s | l => chained s ++ [l] end) (started s) (settled s).

(** A call, the timer, or a turn of the chain: the next send begins once the one before has settled. *)
Inductive Input := IPush (line : string) | IFlush | ITimer | IStart | ISettle.

Definition handle (i : Input) (s : Shipper) : option Shipper :=
  match i with
  | IPush line => Some (push line s)
  | IFlush => Some (flush s)
  | ITimer => if isSome (timer s) then Some (flush s) else None
  | IStart => if (started s =? settled s)%nat && (started s <? length (chained s))%nat
              then Some (mkShipper (lines s) (timer s) (chained s) (S (started s)) (settled s)) else None
  | ISettle => if (settled s <? started s)%nat then Some (mkShipper (lines s) (timer s) (chained s) (started s) (S (settled s))) else None
  end.

Fixpoint run (ins : list Input) (s : Shipper) : option Shipper :=
  match ins with [] => Some s | i :: rest => match handle i s with Some s' => run rest s' | None => None end end.
End Options.

Definition pushed1 (i : Input) : list string := match i with IPush line => [line] | _ => [] end.
Definition pushed (ins : list Input) : list string := flat_map pushed1 ins.

(** The lines that were posted. *)
Definition posted (s : Shipper) : list string := concat (take (started s) (chained s)).

Record good (log : list string) (s : Shipper) : Prop := {
  good_lines : concat (chained s) ++ lines s = log;
  good_batches : Forall (fun b => b <> []) (chained s);
  good_order : (settled s <= started s <= S (settled s))%nat /\ (started s <= length (chained s))%nat;
  good_timer : isSome (timer s) = true <-> lines s <> [] }.

Lemma flushSoon_good log s delay : concat (chained s) ++ lines s = log -> Forall (fun b => b <> []) (chained s) ->
  (settled s <= started s <= S (settled s))%nat /\ (started s <= length (chained s))%nat -> lines s <> [] -> good log (flushSoon delay s).
Proof. intros Hl Hb Ho Hne. unfold flushSoon. destruct (isSome (timer s)) eqn:E, (0 <? delay)%Z; by split. Qed.

Lemma push_good batch interval line log s : good log s -> good (log ++ [line]) (push batch interval line s).
Proof.
  intros [Hl Hb Ho _]. unfold push. destruct (_ <=? _)%nat; apply flushSoon_good; cbn; rewrite ?app_assoc, ?Hl; try done; by destruct (lines s).
Qed.

Lemma flush_good log s : good log s -> good log (flush s).
Proof.
  intros [Hl Hb [Ho Hc] _]. unfold flush. destruct (lines s) as [|l ls] eqn:E; split; cbn [lines timer chained started settled]; try done.
  - by rewrite concat_app, app_nil_r; cbn; rewrite app_nil_r.
  - apply Forall_app. by repeat constructor.
  - rewrite length_app. cbn. lia.
Qed.

Lemma flush_chained s : exists more, chained (flush s) = chained s ++ more.
Proof. cbn. destruct (lines s); [exists []; by rewrite app_nil_r | by eexists]. Qed.

Lemma handle_good batch interval i log s s' : good log s -> handle batch interval i s = Some s' ->
  good (log ++ pushed1 i) s' /\ exists more, chained s' = chained s ++ more.
Proof.
  intros Hg. destruct i; cbn [handle pushed1]; rewrite ?app_nil_r.
  - intros [= <-]. split; [by apply push_good|]. exists []. rewrite app_nil_r. unfold push, flushSoon. by repeat case_match.
  - intros [= <-]. split; [by apply flush_good|]. apply flush_chained.
  - destruct (isSome _); [|done]. intros [= <-]. split; [by apply flush_good|]. apply flush_chained.
  - destruct (_ && _) eqn:E; [|done]. intros [= <-]. apply andb_true_iff in E as [E1%Nat.eqb_eq E2%Nat.ltb_lt]. destruct Hg as [Hl Hb Ho Ht].
    split; [split; cbn; [done | done | lia | done] | exists []; by rewrite app_nil_r].
  - destruct (_ <? _)%nat eqn:E; [|done]. intros [= <-]. apply Nat.ltb_lt in E. destruct Hg as [Hl Hb Ho Ht].
    split; [split; cbn; [done | done | lia | done] | exists []; by rewrite app_nil_r].
Qed.

Lemma run_good batch interval ins log s s' : good log s -> run batch interval ins s = Some s' ->
  good (log ++ pushed ins) s' /\ exists more, chained s' = chained s ++ more.
Proof.
  revert log s. induction ins as [|i ins IH]; intros log s Hg; cbn [run].
  - intros [= <-]. split; [by rewrite app_nil_r | exists []; by rewrite app_nil_r].
  - destruct (handle batch interval i s) as [s1|] eqn:Hi; [|done]. intros Hr. destruct (handle_good _ _ _ _ _ _ Hg Hi) as [Hg1 [m1 H1]].
    destruct (IH _ _ Hg1 Hr) as [Hg' [m2 H2]]. change (pushed (i :: ins)) with (pushed1 i ++ pushed ins). rewrite app_assoc. split; [done|].
    exists (m1 ++ m2). by rewrite app_assoc, <- H1.
Qed.

Lemma new_good : good [] new_shipper.
Proof. split; cbn; [done | constructor | lia | done]. Qed.

(** For every sequence of calls and turns, the lines posted are a beginning of the lines pushed, in order and
    each once, one request at a time and none empty; lines that wait have a timer; and once the promise of a [flush] has
    settled, every line pushed before the [flush] was posted. *)
Theorem snapshot_logs_shipped batch interval before after s s' :
  run batch interval before new_shipper = Some s -> run batch interval after (flush s) = Some s' ->
  (exists rest, pushed (before ++ after) = posted s' ++ rest)
  /\ (started s' <= S (settled s'))%nat /\ Forall (fun b => b <> []) (chained s')
  /\ (lines s' <> [] -> isSome (timer s') = true)
  /\ ((length (chained (flush s)) <= settled s')%nat -> exists rest, posted s' = pushed before ++ rest).
Proof.
  intros H1 H2. destruct (run_good _ _ _ _ _ _ new_good H1) as [Hg _]. cbn in Hg.
  pose proof (flush_good _ _ Hg) as Hf. destruct (run_good _ _ _ _ _ _ Hf H2) as [[Hl Hb Ho Ht] [more Hm]].
  split; [|split; [lia | split; [done | split; [tauto|]]]].
  - exists (concat (drop (started s') (chained s')) ++ lines s'). unfold pushed. rewrite flat_map_app. fold (pushed before) (pushed after).
    unfold posted. by rewrite app_assoc, <- concat_app, take_drop, Hl.
  - intros Hs. exists (concat (take (started s' - length (chained (flush s))) more)). unfold posted. rewrite Hm.
    rewrite take_app_ge by lia. rewrite concat_app. f_equal. destruct Hf as [Hfl _ _ _]. cbn in Hfl. by rewrite app_nil_r in Hfl.
Qed.

Lemma snapshot_logs_shipped_witness :
  let s := mkShipper [] None [["a"; "b"]] 1 1 in
  run 50 1000 [IPush "a"; IPush "b"; ITimer; IStart; ISettle] new_shipper = Some s
  /\ exists s', run 50 1000 [IPush "c"] (flush s) = Some s' /\ exists rest, posted s' = ["a"; "b"] ++ rest.
Proof.
  split; [reflexivity|]. eexists. split; [reflexivity|].
  refine (proj2 (proj2 (proj2 (proj2 (snapshot_logs_shipped 50 1000 [IPush "a"; IPush "b"; ITimer; IStart; ISettle] [IPush "c"] _ _ eq_refl eq_refl)))) _).
  cbn. lia.
Defined.
End Shipper.

(** ** Building a snapshot *)

Record BootstrapSnapshot := mkBootstrapSnapshot { snap_id : string; strategy : string; snap_uploadUrl : option string }.

Inductive SnapshotStatus := snap_ready | snap_failed.

Record SnapshotCompleteRequest := mkSnapshotComplete {
  sc_status : SnapshotStatus; sc_baseSha : option string; sc_sizeBytes : option Z; sc_errorCode : option CodingErrorCode; sc_error : option string }.

(** An error of the setup has a class of its own. *)
Inductive Failure := FSetup (message : string) | FThrown (t : Thrown).

Definition thrown_message (t : Thrown) : string :=
  match t with
  | ThrowRuntime message _ _ _ => message
  | ThrowAuth status _ => "runtime API rejected the sandbox token (" +:+ showZ status +:+ ")"
  | ThrowValue v => errorMessage v
  end.

Definition failure_message (f : Failure) : string := match f with FSetup message => message | FThrown t => thrown_message t end.

Definition is_auth (f : Failure) : bool := match f with FThrown (ThrowAuth _ _) => true | _ => false end.

(** The loop of [uploadWithRetry] from an attempt on, with [left] retries left: the result, the lines logged and the delays slept.
    [tries] is what the [try] block does in each attempt. *)
Fixpoint upload_loop (tries : nat -> Failure + Z) (random : nat -> Q) (left attempt : nat) : (Failure + Z) * list string * list Z :=
  match tries attempt with
  | inr size => (inr size, [], [])
  | inl error =>
      if is_auth error then (inl error, [], [])
      else match left with
      | O => (inl error, [], [])
      | S left' =>
          let '(out, log, slept) := upload_loop tries random left' (S attempt) in
          (out, ("archive upload failed (" +:+ failure_message error +:+ "), retrying") :: log,
           backoffDelay (Z.of_nat attempt) 2000 30000 (random attempt) :: slept)
      end
  end.

(** [attempt + 1 >= attempts] at attempt 0 and [attempts - 1] attempts later at the latest. *)
Definition uploadWithRetry (uploadAttempts : option Z) (tries : nat -> Failure + Z) (random : nat -> Q) :=
  upload_loop tries random (Z.to_nat ((uploadAttempts ?? 3%Z) - 1)) 0.

(** What the build runs: each step fails or gives its value. *)
Record BuildEnv := mkBuildEnv {
  write_info : option Failure; prepare_repository : option Failure; run_setup : option Failure; git_head : Failure + string;
  upload_tries : nat -> Failure + Z; build_random : nat -> Q; complete_answer : option Thrown }.

(** The snapshot of the bootstrap response. *)
Definition snapshot_of (snapshot : option BootstrapSnapshot) (snapshotId : option string) : option BootstrapSnapshot :=
  match snapshot with
  | Some s => Some s
  | None => match snapshotId with Some id => if truthy id then Some (mkBootstrapSnapshot id "archive" None) else None | None => None end
  end.

(** The [try] block: the lines logged and the base revision with the size, or the failure. *)
Definition build (uploadAttempts : option Z) (env : BuildEnv) (s : BootstrapSnapshot) : list string * (Failure + (string * Z)) :=
  match write_info env with
  | Some f => ([], inl f)
  | None => match prepare_repository env with
  | Some f => ([], inl f)
  | None => match run_setup env with
  | Some f => ([], inl f)
  | None => match git_head env with
  | inl f => ([], inl f)
  | inr baseSha =>
      if strategy s =s "volumesnapshot" then ([], inr (baseSha, 0%Z))
      else
        let '(out, log, _) := uploadWithRetry uploadAttempts (upload_tries env) (build_random env) in
        match out with
        | inl f => ("archiving workspace and home" :: log, inl f)
        | inr size => ("archiving workspace and home" :: log ++ ["uploaded snapshot archive (" +:+ showZ size +:+ " bytes)"], inr (baseSha, size))
        end
  end end end end.

Definition build_result (out : Failure + (string * Z)) : list string * SnapshotCompleteRequest :=
  match out with
  | inr (baseSha, size) => ([], mkSnapshotComplete snap_ready (Some baseSha) (if (size =? 0)%Z then None else Some size) None None)
  | inl f =>
      let '(message, code) := match f with
        | FSetup message => (message, environmentSetupFailed)
        | FThrown t => ("Snapshot failed: " +:+ thrown_message t, snapshotFailed)
        end in
      ([message], mkSnapshotComplete snap_failed None None (Some code) (Some message))
  end.

(** The log, the reports sent to Flow, and the exit code or what is thrown. *)
Definition runSnapshot (uploadAttempts : option Z) (env : BuildEnv) (snapshot : option BootstrapSnapshot) (snapshotId : option string) :
    list string * list (string * SnapshotCompleteRequest) * (Thrown + Z) :=
  match snapshot_of snapshot snapshotId with
  | None => ([], [], inr 1%Z)
  | Some s =>
      let '(log, out) := build uploadAttempts env s in
      let '(line, result) := build_result out in
      (log ++ line, [(snap_id s, result)],
       match complete_answer env with
       | Some e => inl e
       | None => inr (match sc_status result with snap_ready => 0%Z | snap_failed => 1%Z end)
       end)
  end.

(** ** Which snapshot to restore *)

Section Restore.
(** [decodeURIComponent]; [None] is a malformed text. Ids may hold any character, so it is an argument. *)
Context (decode : string -> option string).

Definition ARCHIVE_PREFIX : string := RUNTIME_PREFIX +:+ "/snapshots/".

(** [[^/?#]*] in front and the rest. *)
Fixpoint span_id (s : string) : string * string :=
  match s with
  | EmptyString => (EmptyString, EmptyString)
  | String c r =>
      if Ascii.eqb c "/" || Ascii.eqb c "?" || Ascii.eqb c "#" then (EmptyString, s)
      else let '(id, rest) := span_id r in (String c id, rest)
  end.

(** [ARCHIVE_ROUTE] at the start of the text: the captured id. *)
Definition route_at (s : string) : option string :=
  match after_prefix ARCHIVE_PREFIX s with
  | Some r =>
      match span_id r with
      | (String c id, rest) =>
          match after_prefix "/archive" rest with
          | Some EmptyString => Some (String c id)
          | Some (String e _) => if Ascii.eqb e "?" || Ascii.eqb e "#" then Some (String c id) else None
          | None => None
          end
      | _ => None
      end
  | None => None
  end.

(** [ARCHIVE_ROUTE.exec]: the leftmost match. *)
Fixpoint archive_route (s : string) : option string :=
  match route_at s with
  | Some id => Some id
  | None => match s with EmptyString => None | String _ r => archive_route r end
  end.

Definition nonempty (s : option string) : option string := match s with Some t => if truthy t then s else None | None => None end.

Definition snapshotIdFromArchiveUrl (archiveUrl : option string) : option string :=
  match nonempty archiveUrl with
  | None => None
  | Some u => match archive_route u with Some id => nonempty (decode id) | None => None end
  end.

Inductive RestoreError := IdMismatch (explicit fromUrl : string) | NoSnapshotInUrl.

Definition restoreTarget (env : Env) : RestoreError + (option string * option string) :=
  let archiveUrl := nonempty (map_get "FLOW_ARCHIVE_URL" env) in
  let fromUrl := snapshotIdFromArchiveUrl archiveUrl in
  let explicit := nonempty (map_get "FLOW_SNAPSHOT_ID" env) in
  match explicit, fromUrl with
  | Some e, Some f => if e =s f then inr (Some e, archiveUrl) else inl (IdMismatch e f)
  | Some e, None => inr (Some e, archiveUrl)
  | None, Some f => inr (Some f, archiveUrl)
  | None, None => if isSome archiveUrl then inl NoSnapshotInUrl else inr (None, None)
  end.
End Restore.

(** ** What a build reports *)

Lemma upload_spec tries random left attempt out log slept : upload_loop tries random left attempt = (out, log, slept) ->
  exists n, (n <= left)%nat /\ tries (attempt + n)%nat = out /\ length slept = n /\ length log = n
    /\ (forall m, (m < n)%nat -> exists f, tries (attempt + m)%nat = inl f /\ is_auth f = false)
    /\ (forall f, out = inl f -> is_auth f = true \/ n = left).
Proof.
  revert attempt out log slept. induction left as [|left IH]; intros attempt out log slept; cbn [upload_loop];
    (destruct (tries attempt) as [f|size] eqn:E;
     [|intros [= <- <- <-]; exists 0%nat; rewrite Nat.add_0_r; repeat split; naive_solver lia]).
  - intros H. exists 0%nat. rewrite Nat.add_0_r. destruct (is_auth f) eqn:Ea; injection H as <- <- <-; repeat split; naive_solver lia.
  - destruct (is_auth f) eqn:Ea; [intros [= <- <- <-]; exists 0%nat; rewrite Nat.add_0_r; repeat split; naive_solver lia|].
    destruct (upload_loop tries random left (S attempt)) as [[out' log'] slept'] eqn:El. intros [= <- <- <-].
    destruct (IH _ _ _ _ El) as (n & Hn & Ho & Hs & Hl & Hb & Hf). exists (S n). rewrite Nat.add_succ_r. cbn. repeat split; try lia; auto.
    + intros [|m] Hm; [rewrite Nat.add_0_r; eauto | rewrite Nat.add_succ_r; apply Hb; lia].
    + intros g Hg. destruct (Hf g Hg); auto.
Qed.

(** The archive arrived: some try within the limit succeeded and those before it failed without the token being refused. *)
Definition uploaded (uploadAttempts : option Z) (tries : nat -> Failure + Z) (size : Z) : Prop :=
  exists n, (Z.of_nat n < Z.max 1 (uploadAttempts ?? 3%Z))%Z /\ tries n = inr size
    /\ forall m, (m < n)%nat -> exists f, tries m = inl f /\ is_auth f = false.

(** The build succeeded, with this revision and size. *)
Definition built (uploadAttempts : option Z) (env : BuildEnv) (s : BootstrapSnapshot) (baseSha : string) (size : Z) : Prop :=
  write_info env = None /\ prepare_repository env = None /\ run_setup env = None /\ git_head env = inr baseSha
  /\ (if strategy s =s "volumesnapshot" then size = 0%Z else uploaded uploadAttempts (upload_tries env) size).

(** A failure one of the steps had. *)
Definition step_failure (env : BuildEnv) (f : Failure) : Prop :=
  write_info env = Some f \/ prepare_repository env = Some f \/ run_setup env = Some f \/ git_head env = inl f
  \/ exists n, upload_tries env n = inl f.

Lemma upload_result attempts env size : fst (fst (uploadWithRetry attempts (upload_tries env) (build_random env))) = inr size <->
  uploaded attempts (upload_tries env) size.
Proof.
  unfold uploadWithRetry. destruct (upload_loop _ _ _ _) as [[out log] slept] eqn:E. cbn [fst].
  apply upload_spec in E as (n & Hn & Ho & _ & _ & Hb & Hf). cbn in Ho, Hb. split.
  - intros ->. exists n. split; [lia | auto].
  - intros (k & Hk & Hs & Hbk). destruct (Nat.lt_trichotomy k n) as [H|[->|H]].
    + destruct (Hb k H) as (f & Hkf & _). congruence.
    + congruence.
    + destruct (Hbk n H) as (f & Hnf & Hna). rewrite Hnf in Ho. subst out. destruct (Hf f eq_refl) as [?|Hl]; [congruence|]. lia.
Qed.

Lemma build_spec attempts env s :
  match snd (build attempts env s) with
  | inr (baseSha, size) => built attempts env s baseSha size
  | inl f => step_failure env f /\ forall baseSha size, ~ built attempts env s baseSha size
  end.
Proof.
  unfold build, built, step_failure. destruct (write_info env) as [f|]; [cbn; split; [auto 6 | intros ? ? (? & ? & ? & ? & _); congruence]|].
  destruct (prepare_repository env) as [f|]; [cbn; split; [auto 6 | intros ? ? (? & ? & ? & ? & _); congruence]|]. destruct (run_setup env) as [f|]; [cbn; split; [auto 6 | intros ? ? (? & ? & ? & ? & _); congruence]|].
  destruct (git_head env) as [f|sha]; [cbn; split; [auto 6 | intros ? ? (? & ? & ? & ? & _); congruence]|]. destruct (strategy s =s "volumesnapshot"); [done|].
  pose proof (upload_result attempts env) as Hu. destruct (uploadWithRetry _ _ _) as [[out log] slept] eqn:E. cbn [fst] in Hu.
  destruct out as [f|size]; cbn [snd]; [|repeat split; by apply Hu]. split; [|intros sha' size (_ & _ & _ & _ & H%Hu); done].
  unfold uploadWithRetry in E. apply upload_spec in E as (n & _ & Ho & _). do 4 right. by exists n.
Qed.

(** A snapshot build is reported to Flow exactly once: as ready, with the revision and the size, exactly when every step
    succeeded and the archive was uploaded within the attempts allowed, without a try after the token was refused; and as failed
    otherwise, with the message of a step that failed and the code that tells a setup failure from any other.  The exit code says the same. *)
Theorem snapshot_reported attempts env snapshot snapshotId s log reports out :
  snapshot_of snapshot snapshotId = Some s -> runSnapshot attempts env snapshot snapshotId = (log, reports, out) ->
  exists result, reports = [(snap_id s, result)]
  /\ (sc_status result = snap_ready <-> exists baseSha size, built attempts env s baseSha size)
  /\ (sc_status result = snap_ready -> exists baseSha size, built attempts env s baseSha size
        /\ sc_baseSha result = Some baseSha /\ sc_sizeBytes result ?? 0%Z = size)
  /\ (sc_status result = snap_failed -> exists f, step_failure env f
        /\ sc_errorCode result = Some (match f with FSetup _ => environmentSetupFailed | _ => snapshotFailed end)
        /\ sc_error result = Some (match f with FSetup m => m | FThrown t => "Snapshot failed: " +:+ thrown_message t end))
  /\ (complete_answer env = None -> out = inr (match sc_status result with snap_ready => 0%Z | snap_failed => 1%Z end)).
Proof.
  intros Hs. unfold runSnapshot. rewrite Hs. pose proof (build_spec attempts env s) as Hb. destruct (build attempts env s) as [lines res]. cbn [snd] in Hb.
  destruct res as [f|[sha size]]; cbn [build_result].
  - destruct Hb as [Hf Hnb]. destruct f as [m|t]; intros [= <- <- <-]; eexists; (split; [done|]); cbn;
      (split; [split; [done | intros (? & ? & H); destruct (Hnb _ _ H)]|]); (split; [done|]); (split; [intros _; eexists; split; [exact Hf | done]|]); by intros ->.
  - intros [= <- <- <-]. eexists. split; [done|]. cbn. split; [split; eauto|]. split; [|split; [done | by intros ->]].
    intros _. exists sha, size. split; [done|]. split; [done|]. destruct (size =? 0)%Z eqn:E; [apply Z.eqb_eq in E; by subst | done].
Qed.

Definition demo_build : BuildEnv :=
  mkBuildEnv None None None (inr "abc")
    (fun n => if (n <? 2)%nat then inl (FThrown (ThrowRuntime "PUT: HTTP 503" 503 true "")) else inr 42%Z) (fun _ => 0%Q) None.

Lemma snapshot_reported_witness :
  exists log result, runSnapshot None demo_build None (Some "snap_1") = (log, [("snap_1", result)], inr 0%Z)
    /\ result = mkSnapshotComplete snap_ready (Some "abc") (Some 42%Z) None None /\ length log = 4%nat
    /\ exists baseSha size, built None demo_build (mkBootstrapSnapshot "snap_1" "archive" None) baseSha size.
Proof.
  do 2 eexists. split; [vm_compute; reflexivity|]. split; [reflexivity|]. split; [reflexivity|].
  destruct (snapshot_reported None demo_build None (Some "snap_1") (mkBootstrapSnapshot "snap_1" "archive" None) _ _ _ eq_refl eq_refl)
    as (result & H1 & H2 & _). apply H2. vm_compute in H1. injection H1 as <-. reflexivity.
Defined.

(** ** The archive route names its snapshot *)

Lemma after_prefix_app p r : after_prefix p (p +:+ r) = Some r.
Proof.
  unfold after_prefix, startsWith. assert (String.prefix p (p +:+ r) = true) as -> by (apply prefix_spec; eauto).
  f_equal. induction p as [|c p IH]; [by destruct r | exact IH].
Qed.

Lemma count_zero_cons c a s : count c (String a s) = 0%nat -> Ascii.eqb a c = false /\ count c s = 0%nat.
Proof. unfold count. cbn. destruct (ascii_dec a c) as [->|Hne]; [done|]. split; [by apply Ascii.eqb_neq | done]. Qed.

Lemma span_id_app id r : count "/" id = 0%nat -> count "?" id = 0%nat -> count "#" id = 0%nat -> span_id (id +:+ String "/" r) = (id, String "/" r).
Proof.
  induction id as [|a id IH]; intros H1 H2 H3; [done|]. apply count_zero_cons in H1 as [E1 H1], H2 as [E2 H2], H3 as [E3 H3].
  cbn. by rewrite E1, E2, E3, IH.
Qed.

(** No route starts inside a base URL that has no directory named internal. *)
Lemma route_at_base a y r : includes "/internal/" (String a y +:+ "/") = false ->
  route_at (String a y +:+ RUNTIME_PREFIX +:+ r) = None.
Proof.
  intros Hi. unfold route_at, after_prefix, startsWith. destruct (String.prefix ARCHIVE_PREFIX _) eqn:Hp; [|done]. exfalso.
  apply prefix_spec in Hp as [t Ht]. change (ARCHIVE_PREFIX +:+ t) with (String "/" ("internal" +:+ "/" +:+ "coding-runtime/snapshots/" +:+ t)) in Ht.
  cbn [String.append] in Ht. injection Ht as -> Ht. fold String.append in Ht.
  assert (Hpre : String.prefix "internal" y = true).
  { apply (prefix_barrier "/" "internal" y ("internal/coding-runtime" +:+ r)); [done|]. apply prefix_spec. eexists. exact Ht. }
  apply prefix_spec in Hpre as [z ->]. rewrite string_app_assoc in Ht. cbn [String.append] in Ht. injection Ht as Ht.
  apply Bool.diff_true_false. rewrite <- Hi. symmetry. apply includes_spec. exists "".
  destruct z as [|c z]; [exists ""; reflexivity|]. cbn in Ht. injection Ht as -> _. exists (z +:+ "/"). reflexivity.
Qed.

Lemma archive_route_base base r id : includes "/internal/" (base +:+ "/") = false -> route_at (RUNTIME_PREFIX +:+ r) = Some id ->
  archive_route (base +:+ RUNTIME_PREFIX +:+ r) = Some id.
Proof.
  intros Hi Hr. induction base as [|a y IH].
  - cbn [String.append]. destruct (RUNTIME_PREFIX +:+ r) eqn:E; cbn [archive_route]; by rewrite Hr.
  - cbn [String.append archive_route]. change (String a (y +:+ RUNTIME_PREFIX +:+ r)) with (String a y +:+ RUNTIME_PREFIX +:+ r).
    rewrite route_at_base by done. apply IH. destruct (includes "/internal/" (y +:+ "/")) eqn:E; [|done].
    apply includes_spec in E as (u & v & E). rewrite <- Hi. symmetry. apply includes_spec. exists (String a u), v. cbn. by f_equal.
Qed.

(** The route the client uploads to and downloads from is the route the restore step recognises: a URL
    of the runner API with the archive route of a snapshot names that snapshot, and it is
    refused when the environment names another one. *)
Theorem archive_route_roundtrip decode base id env :
  (forall s, s = id \/ s = "" -> decode (encodeURIComponent s) = Some s) -> id <> "" -> includes "/internal/" (base +:+ "/") = false ->
  map_get "FLOW_ARCHIVE_URL" env = Some (base +:+ snapshot_path id "/archive") ->
  restoreTarget decode env =
    match nonempty (map_get "FLOW_SNAPSHOT_ID" env) with
    | Some other => if other =s id then inr (Some id, Some (base +:+ snapshot_path id "/archive")) else inl (IdMismatch other id)
    | None => inr (Some id, Some (base +:+ snapshot_path id "/archive"))
    end.
Proof.
  intros Hd Hid Hb Hu. unfold restoreTarget. rewrite Hu.
  assert (Ht : truthy (base +:+ snapshot_path id "/archive") = true) by (by destruct base).
  cbn [nonempty]. rewrite Ht. unfold snapshotIdFromArchiveUrl. cbn [nonempty]. rewrite Ht.
  assert (archive_route (base +:+ snapshot_path id "/archive") = Some (encodeURIComponent id)) as ->.
  { apply archive_route_base; [done|]. unfold route_at. rewrite <- string_app_assoc. fold ARCHIVE_PREFIX. rewrite after_prefix_app.
    change "/archive" with (String "/" "archive"). rewrite span_id_app by (apply encode_clean; cbn; tauto).
    destruct (encodeURIComponent id) eqn:E; [|done]. pose proof (Hd id (or_introl eq_refl)) as H1. rewrite E in H1.
    pose proof (Hd "" (or_intror eq_refl)) as H2. cbn in H2. congruence. }
  rewrite Hd by auto. cbn [nonempty]. assert (truthy id = true) as -> by (unfold truthy; by apply negb_true_iff, String.eqb_neq).
  destruct (nonempty (map_get "FLOW_SNAPSHOT_ID" env)) as [other|]; [|done]. destruct (other =s id) eqn:E; [|done]. apply String.eqb_eq in E as ->. done.
Qed.

Lemma restore_examples :
  restoreTarget Some [("FLOW_ARCHIVE_URL", "https://flow.test/internal/coding-runtime/snapshots/snap_1/archive?x=1")]
    = inr (Some "snap_1", Some "https://flow.test/internal/coding-runtime/snapshots/snap_1/archive?x=1")
  /\ restoreTarget Some [("FLOW_ARCHIVE_URL", "https://flow.test/a/archive")] = inl NoSnapshotInUrl
  /\ restoreTarget Some [("FLOW_SNAPSHOT_ID", "snap_2"); ("FLOW_ARCHIVE_URL", "https://flow.test/internal/coding-runtime/snapshots/snap_1/archive")]
    = inl (IdMismatch "snap_2" "snap_1")
  /\ restoreTarget Some [] = inr (None, None).
Proof. vm_compute. done. Qed.
