(* ===== verification/SharedRealtime.v ===== *)
(** * The event stream shared by the tabs of a browser (web/src/lib/shared-realtime.ts)

    One tab, the leader, holds the stream and rebroadcasts its messages to the others.  A tab is
    a state machine: its inputs are the start, the grant of the lock, the timers, the events of
    the stream and the messages of the channel; its outputs are what it posts, opens, closes and
    reports.  Handlers are written in a small state-and-output monad, in the order of the code.
    Each input carries the clock.  The theorems hold for every sequence of inputs. *)

From Stdlib Require Import ZArith Lia Bool List Ascii.
From stdpp Require Import base list strings relations.
From S2P Require Import Prelude JsString Json.

Open Scope Z_scope.

Record RealtimeMessage := mkMessage { data : string; lastEventId : string }.

Inductive Wire :=
  | WHello (from : string)
  | WMsg (from : string) (to : option string) (message : RealtimeMessage)
  | WStatus (from : string) (to : option string) (connected : bool)
  | WBeat (from : string)
  | WClaim (from : string)
  | WResign (from : string).

Definition SHARED_REPLAY_WINDOW_MS : Z := 30000.
Definition replayMaxEvents : Z := 256.
Definition replayMaxBytes : Z := 2 * 1024 * 1024.
Definition leaderTimeoutMs : Z := 1800.
Definition reconnectBaseMs : Z := 1000.
Definition reconnectMaxMs : Z := 15000.
Definition STALE_STREAM_MS : Z := 45000.

Inductive Role := follower | leader.

#[export] Instance Role_eq_dec : EqDecision Role.
Proof. solve_decision. Defined.

Record ReplayEntry := mkReplay { at_ms : Z; entry_bytes : Z; entry_message : RealtimeMessage }.

(** The fields of the class; a timer is [true] while it is armed, a stream is known by a number. *)
Record Tab := mkTab {
  tabId : string; channel : bool; role : Role; disposed : bool; stream : option nat; nextStream : nat;
  lock : bool; reconnectTimer : bool; staleTimer : bool; retry : Z; keepalives : bool; lastSeen : Z;
  cursor : option string; initialSince : option string; sawStream : bool; connectedNow : bool;
  presence : option RealtimeMessage; replay : list ReplayEntry; replayBytes : Z;
  heartbeat : bool; lastBeat : Z; beatTimer : bool; joinTimer : bool; resignTimer : bool; claimTimer : bool }.

(** What a tab does to the outside; a stream is opened with its resume cursor. *)
Inductive Out :=
  | OPost (w : Wire) | OStatus (connected : bool) | ORole (r : Role) | OMessage (m : RealtimeMessage)
  | OOpen (id : nat) (since : option string) | OClose (id : nat) | OReconnectIn (ms : Z).

(** ** The monad *)

Definition act : Type := Tab -> Tab * list Out.

Definition modify (f : Tab -> Tab) : act := fun t => (f t, []).
Definition out (f : Tab -> list Out) : act := fun t => (t, f t).
Definition andThen (a b : act) : act := fun t => let '(t1, o1) := a t in let '(t2, o2) := b t1 in (t2, o1 ++ o2).
Definition when (c : Tab -> bool) (a : act) : act := fun t => if c t then a t else (t, []).
Definition orElse (c : Tab -> bool) (a b : act) : act := fun t => if c t then a t else b t.
Notation "a '>>;' b" := (andThen a b) (at level 60, right associativity) : flow_scope.

Definition set_election (r : Role) (claim : bool) (t : Tab) : Tab :=
  mkTab (tabId t) (channel t) r (disposed t) (stream t) (nextStream t) (lock t) (reconnectTimer t) (staleTimer t) (retry t)
    (keepalives t) (lastSeen t) (cursor t) (initialSince t) (sawStream t) (connectedNow t) (presence t) (replay t) (replayBytes t)
    (heartbeat t) (lastBeat t) (beatTimer t) (joinTimer t) (resignTimer t) claim.
Definition set_stream (s : option nat) (next : nat) (reconnect stale : bool) (seen : Z) (t : Tab) : Tab :=
  mkTab (tabId t) (channel t) (role t) (disposed t) s next (lock t) reconnect stale (retry t)
    (keepalives t) seen (cursor t) (initialSince t) (sawStream t) (connectedNow t) (presence t) (replay t) (replayBytes t)
    (heartbeat t) (lastBeat t) (beatTimer t) (joinTimer t) (resignTimer t) (claimTimer t).
Definition set_health (n : Z) (k : bool) (t : Tab) : Tab :=
  mkTab (tabId t) (channel t) (role t) (disposed t) (stream t) (nextStream t) (lock t) (reconnectTimer t) (staleTimer t) n
    k (lastSeen t) (cursor t) (initialSince t) (sawStream t) (connectedNow t) (presence t) (replay t) (replayBytes t)
    (heartbeat t) (lastBeat t) (beatTimer t) (joinTimer t) (resignTimer t) (claimTimer t).
Definition set_history (c since : option string) (saw : bool) (p : option RealtimeMessage) (r : list ReplayEntry) (n : Z) (t : Tab) : Tab :=
  mkTab (tabId t) (channel t) (role t) (disposed t) (stream t) (nextStream t) (lock t) (reconnectTimer t) (staleTimer t) (retry t)
    (keepalives t) (lastSeen t) c since saw (connectedNow t) p r n
    (heartbeat t) (lastBeat t) (beatTimer t) (joinTimer t) (resignTimer t) (claimTimer t).
Definition set_connected (b : bool) (t : Tab) : Tab :=
  mkTab (tabId t) (channel t) (role t) (disposed t) (stream t) (nextStream t) (lock t) (reconnectTimer t) (staleTimer t) (retry t)
    (keepalives t) (lastSeen t) (cursor t) (initialSince t) (sawStream t) b (presence t) (replay t) (replayBytes t)
    (heartbeat t) (lastBeat t) (beatTimer t) (joinTimer t) (resignTimer t) (claimTimer t).
Definition set_heartbeat (h : bool) (last : Z) (beat join resign : bool) (t : Tab) : Tab :=
  mkTab (tabId t) (channel t) (role t) (disposed t) (stream t) (nextStream t) (lock t) (reconnectTimer t) (staleTimer t) (retry t)
    (keepalives t) (lastSeen t) (cursor t) (initialSince t) (sawStream t) (connectedNow t) (presence t) (replay t) (replayBytes t)
    h last beat join resign (claimTimer t).
Definition set_channel (c d l : bool) (t : Tab) : Tab :=
  mkTab (tabId t) c (role t) d (stream t) (nextStream t) l (reconnectTimer t) (staleTimer t) (retry t)
    (keepalives t) (lastSeen t) (cursor t) (initialSince t) (sawStream t) (connectedNow t) (presence t) (replay t) (replayBytes t)
    (heartbeat t) (lastBeat t) (beatTimer t) (joinTimer t) (resignTimer t) (claimTimer t).

Definition is_leader (t : Tab) : bool := bool_decide (role t = leader).

(** ** Delivery *)

(** [post]: the last status posted is remembered; without a channel nothing is sent. *)
Definition post (w : Tab -> Wire) : act := fun t =>
  let t' := match w t with WStatus from _ connected => if from =s tabId t then set_connected connected t else t | _ => t end in
  (t', if channel t then [OPost (w t)] else []).

(** The part of the pattern between the id and the type. *)
Fixpoint after_quote (s : string) : option string :=
  match s with
  | EmptyString => None
  | String c r => if (nat_of_ascii c =? 34)%nat then Some r else after_quote r
  end.

(** [presenceMessage.test]: the roster messages, [{"id":"...","type":"connected"] and the like. *)
Definition is_presence (d : string) : bool :=
  let head := "{" +:+ dquote +:+ "id" +:+ dquote +:+ ":" +:+ dquote in
  if startsWith head d then
    match after_quote (slice_from (String.length head) d) with
    | Some r =>
        let sep := "," +:+ dquote +:+ "type" +:+ dquote +:+ ":" +:+ dquote in
        startsWith (sep +:+ "connected" +:+ dquote) r || startsWith (sep +:+ "presence.updated" +:+ dquote) r
    | None => false
    end
  else false.

(** The loop of [remember]: entries leave from the front while a bound is exceeded. *)
Fixpoint trim_replay (now : Z) (r : list ReplayEntry) (n : Z) : list ReplayEntry * Z :=
  match r with
  | [] => ([], n)
  | e :: rest =>
      if (replayMaxEvents <? Z.of_nat (length r)) || (replayMaxBytes <? n) || (SHARED_REPLAY_WINDOW_MS <? now - at_ms e)
      then trim_replay now rest (n - entry_bytes e) else (r, n)
  end.

Definition remember (now : Z) (m : RealtimeMessage) : act := modify (fun t =>
  let bytes := Z.of_nat (String.length (data m)) * 2 in
  let '(r, n) := trim_replay now (replay t ++ [mkReplay now bytes m]) (replayBytes t + bytes) in
  set_history (cursor t) (initialSince t) (sawStream t) (presence t) r n t).

Definition resumable (id : string) : bool := truthy id && negb (startsWith "connected_" id).

Definition accept (now : Z) (m : RealtimeMessage) (broadcast : bool) : act :=
  modify (fun t => set_history (if resumable (lastEventId m) then Some (lastEventId m) else cursor t) (initialSince t) true
                     (if is_presence (data m) then Some m else presence t) (replay t) (replayBytes t) t) >>;
  (if is_presence (data m) then modify id else remember now m) >>;
  (if broadcast then post (fun t => WMsg (tabId t) None m) else modify id) >>;
  out (fun _ => [OMessage m]).

(** ** The stream of the leader *)

Definition closeStream : act :=
  out (fun t => match stream t with Some s => [OClose s] | None => [] end) >>;
  modify (fun t => set_stream None (nextStream t) (reconnectTimer t) false (lastSeen t) t).

Definition connect (now : Z) : act := when (fun t => negb (disposed t) && is_leader t)
  (out (fun t => [OOpen (nextStream t) (match cursor t with Some c => Some c | None => initialSince t end)]) >>;
   modify (fun t => set_stream (Some (nextStream t)) (S (nextStream t)) (reconnectTimer t) true now t)).

(** The handlers of stream [s] do nothing once it is not the current one. *)
Definition current (s : nat) (t : Tab) : bool := bool_decide (stream t = Some s).

Definition stream_open (now : Z) (s : nat) : act := when (current s)
  (modify (fun t => set_stream (stream t) (nextStream t) (reconnectTimer t) (staleTimer t) now t) >>;
   modify (fun t => set_health 0 (keepalives t) t) >>;
   out (fun _ => [OStatus true]) >>; post (fun t => WStatus (tabId t) None true)).

Definition reconnectDelay (retry : Z) : Z := Z.min reconnectMaxMs (reconnectBaseMs * 2 ^ retry).

Definition fail (s : nat) : act := when (current s)
  (closeStream >>; out (fun _ => [OStatus false]) >>; post (fun t => WStatus (tabId t) None false) >>;
   out (fun t => [OReconnectIn (reconnectDelay (retry t))]) >>;
   modify (fun t => set_health (retry t + 1) (keepalives t) t) >>;
   modify (fun t => set_stream (stream t) (nextStream t) true (staleTimer t) (lastSeen t) t)).

Definition stream_message (now : Z) (s : nat) (m : RealtimeMessage) : act := when (current s)
  (modify (fun t => set_stream (stream t) (nextStream t) (reconnectTimer t) (staleTimer t) now t) >>; accept now m true).

Definition keepalive (now : Z) (s : nat) : act :=
  modify (fun t => set_health (retry t) true t) >>;
  when (current s) (modify (fun t => set_stream (stream t) (nextStream t) (reconnectTimer t) (staleTimer t) now t)).

(** The interval belongs to the stream that armed it. *)
Definition stale_tick (now : Z) : act := fun t =>
  match stream t with
  | Some s => when (fun t => staleTimer t && keepalives t && (STALE_STREAM_MS <? now - lastSeen t)) (fail s) t
  | None => (t, [])
  end.

(** ** Election *)

Section Tabs.
(** [new Date(ms).toISOString()] *)
Context (toISOString : Z -> string).

Definition cancelClaim : act := modify (fun t => set_election (role t) false t).

(** The synthetic message that asks every tab for a snapshot. *)
Definition resync (now : Z) : RealtimeMessage :=
  mkMessage (stringify_json (JObj [("id", JStr ("resync_" +:+ showZ now)); ("type", JStr "resync"); ("createdAt", JStr (toISOString now))])) "".

(** [persisted] is [options.cursor?.()]. *)
Definition becomeLeader (now : Z) (persisted : option string) : act :=
  when (fun t => negb (disposed t) && negb (is_leader t))
  (modify (fun t => set_election leader (claimTimer t) t) >>; cancelClaim >>;
   out (fun _ => [ORole leader; OStatus false]) >>; post (fun t => WStatus (tabId t) None false) >>;
   modify (fun t => set_health 0 (keepalives t) t) >>;
   modify (fun t => set_history (cursor t) (match cursor t with Some c => Some c | None => persisted end) (sawStream t) (presence t) (replay t) (replayBytes t) t) >>;
   when (fun t => sawStream t && negb (truthy (initialSince t ?? ""))) (accept now (resync now) true) >>;
   when heartbeat (post (fun t => WBeat (tabId t))) >>;
   connect now).

Definition stepDown : act := when is_leader
  (modify (fun t => set_election follower (claimTimer t) t) >>;
   modify (fun t => set_stream (stream t) (nextStream t) false (staleTimer t) (lastSeen t) t) >>;
   closeStream >>; out (fun _ => [ORole follower; OStatus false]) >>; post (fun t => WHello (tabId t))).

Definition claim : act := when (fun t => negb (disposed t) && negb (is_leader t) && negb (claimTimer t))
  (post (fun t => WClaim (tabId t)) >>; modify (fun t => set_election (role t) true t)).

Definition claim_fires (now : Z) (persisted : option string) : act :=
  modify (fun t => set_election (role t) false t) >>;
  when (fun t => negb (disposed t) && negb (is_leader t)) (becomeLeader now persisted).

Definition electWithHeartbeat : act := modify (fun t => set_heartbeat true 0 true true (resignTimer t) t).

Definition join_fires : act :=
  modify (fun t => set_heartbeat (heartbeat t) (lastBeat t) (beatTimer t) false (resignTimer t) t) >>;
  when (fun t => lastBeat t =? 0) claim.

Definition beat_tick (now : Z) : act := when beatTimer
  (orElse is_leader (post (fun t => WBeat (tabId t)))
     (when (fun t => negb (lastBeat t =? 0) && (leaderTimeoutMs <? now - lastBeat t)) claim)).

Definition lock_granted (now : Z) (persisted : option string) : act :=
  when (fun t => negb (disposed t)) (becomeLeader now persisted >>; modify (fun t => set_channel (channel t) (disposed t) true t)).

Definition lock_failed : act := when (fun t => negb (disposed t) && negb (heartbeat t)) electWithHeartbeat.

Definition start (now : Z) (hasChannel hasLocks : bool) (persisted : option string) : act :=
  modify (fun t => set_channel hasChannel (disposed t) (lock t) t) >>;
  (if hasChannel then (if hasLocks then modify id else electWithHeartbeat) >>; post (fun t => WHello (tabId t))
   else becomeLeader now persisted).

(** A join timer whose handle a [resign] overwrote is not cleared; [claim] does nothing on a
    disposed tab, so that it still fires is not observable. *)
Definition dispose : act := when (fun t => negb (disposed t))
  (modify (fun t => set_channel (channel t) true (lock t) t) >>;
   when (fun t => is_leader t && heartbeat t) (post (fun t => WResign (tabId t))) >>;
   modify (fun t => set_stream (stream t) (nextStream t) false (staleTimer t) (lastSeen t) t) >>;
   modify (fun t => set_heartbeat (heartbeat t) (lastBeat t) false false (resignTimer t) t) >>;
   modify (fun t => set_election (role t) false t) >>;
   closeStream >>; modify (fun t => set_channel false (disposed t) false t) >>;
   modify (fun t => set_history (cursor t) (initialSince t) (sawStream t) None [] 0 t)).

(** ** The channel *)

Definition answerHello (now : Z) (to : string) : act :=
  post (fun t => WStatus (tabId t) (Some to) (isSome (stream t) && connectedNow t)) >>;
  out (fun t => if channel t then
    map (fun m => OPost (WMsg (tabId t) (Some to) m))
      (match presence t with Some m => [m] | None => [] end
       ++ map entry_message (List.filter (fun e => now - SHARED_REPLAY_WINDOW_MS <=? at_ms e) (replay t))) else []).

Definition wire_from (w : Wire) : string :=
  match w with WHello f | WMsg f _ _ | WStatus f _ _ | WBeat f | WClaim f | WResign f => f end.

Definition wire_to (w : Wire) : option string :=
  match w with WMsg _ to _ | WStatus _ to _ => to | _ => None end.

(** [a < b] on strings. *)
Definition ltb_string (a b : string) : bool := String.ltb a b.

Definition for_me (w : Wire) (t : Tab) : bool :=
  negb (disposed t) && negb (wire_from w =s tabId t)
  && match wire_to w with Some to => negb (truthy to) || (to =s tabId t) | None => true end.

Definition onWire (now : Z) (w : Wire) : act := when (for_me w)
  (match w with
   | WHello from => when is_leader (answerHello now from >>; when heartbeat (post (fun t => WBeat (tabId t))))
   | WMsg from to m =>
       when (fun t => negb (is_leader t && match to with Some s => negb (truthy s) | None => true end)) (accept now m false)
   | WStatus _ _ connected => when (fun t => negb (is_leader t)) (out (fun _ => [OStatus connected]))
   | WBeat from =>
       when is_leader (orElse (fun t => ltb_string from (tabId t)) stepDown (post (fun t => WBeat (tabId t)))) >>;
       modify (fun t => set_heartbeat (heartbeat t) now (beatTimer t) (joinTimer t) (resignTimer t) t) >>; cancelClaim
   | WClaim from => orElse is_leader (post (fun t => WBeat (tabId t))) (when (fun t => ltb_string from (tabId t)) cancelClaim)
   | WResign _ => when (fun t => negb (is_leader t))
       (modify (fun t => set_heartbeat (heartbeat t) (lastBeat t) (beatTimer t) (joinTimer t) true t))
   end).

(** ** Steps *)

Inductive Input :=
  | IStart (hasChannel hasLocks : bool) | ILockGranted | ILockFailed | IDispose
  | IJoinFires | IResignFires | IBeatTick | IClaimFires | IReconnectFires | IStaleTick
  | IOpen (s : nat) | IError (s : nat) | IMessage (s : nat) (m : RealtimeMessage) | IKeepalive (s : nat)
  | IWire (w : Wire).

(** An input happens at a time, with the cursor persisted at that time. *)
Definition handle (i : Input) (now : Z) (persisted : option string) : act :=
  match i with
  | IStart c l => start now c l persisted
  | ILockGranted => lock_granted now persisted
  | ILockFailed => lock_failed
  | IDispose => dispose
  | IJoinFires => when joinTimer join_fires
  | IResignFires => when resignTimer (modify (fun t => set_heartbeat (heartbeat t) (lastBeat t) (beatTimer t) (joinTimer t) false t) >>; claim)
  | IBeatTick => beat_tick now
  | IClaimFires => when claimTimer (claim_fires now persisted)
  | IReconnectFires => when reconnectTimer (modify (fun t => set_stream (stream t) (nextStream t) false (staleTimer t) (lastSeen t) t) >>; connect now)
  | IStaleTick => stale_tick now
  | IOpen s => stream_open now s
  | IError s => fail s
  | IMessage s m => stream_message now s m
  | IKeepalive s => keepalive now s
  | IWire w => onWire now w
  end.

Definition new_tab (id : string) : Tab :=
  mkTab id false follower false None 0 false false false 0 false 0 None None false false None [] 0 false 0 false false false false.

Fixpoint run (l : list (Input * Z * option string)) (t : Tab) : Tab * list Out :=
  match l with
  | [] => (t, [])
  | (i, now, p) :: r => let '(t1, o1) := handle i now p t in let '(t2, o2) := run r t1 in (t2, o1 ++ o2)
  end.

(** ** Properties *)

Definition opened (o : list Out) : list nat := omap (fun x => match x with OOpen s _ => Some s | _ => None end) o.
Definition closed (o : list Out) : list nat := omap (fun x => match x with OClose s => Some s | _ => None end) o.
Definition held (t : Tab) : list nat := match stream t with Some s => [s] | None => [] end.

(** The fields the stream depends on. *)
Definition core (t : Tab) := (stream t, nextStream t, reconnectTimer t, role t, disposed t).

(** The replay buffer is bounded and its size known; the cursor can be resumed from. *)
Record hist_ok (t : Tab) : Prop := {
  ho_events : Z.of_nat (length (replay t)) <= replayMaxEvents;
  ho_bytes : replayBytes t <= replayMaxBytes;
  ho_sum : replayBytes t = sumZ (map entry_bytes (replay t));
  ho_cursor : match cursor t with Some c => resumable c = true | None => True end }.

(** A leader has a stream or is about to reconnect, and no other tab has either. *)
Record tab_ok (t : Tab) : Prop := {
  to_stream : stream t <> None -> role t = leader /\ disposed t = false /\ reconnectTimer t = false;
  to_reconnect : reconnectTimer t = true -> role t = leader /\ disposed t = false;
  to_leader : role t = leader -> disposed t = false -> stream t <> None \/ reconnectTimer t = true;
  to_hist : hist_ok t }.

(** Streams are opened and closed one after the other. *)
Definition streams_ok (t t' : Tab) (o : list Out) : Prop :=
  exists n, nextStream t' = (nextStream t + n)%nat /\ opened o = seq (nextStream t) n
    /\ held t ++ seq (nextStream t) n = closed o ++ held t'.

Lemma opened_app o o' : opened (o ++ o') = opened o ++ opened o'.
Proof. apply omap_app. Qed.
Lemma closed_app o o' : closed (o ++ o') = closed o ++ closed o'.
Proof. apply omap_app. Qed.

Lemma streams_ok_trans t1 t2 t3 o o' : streams_ok t1 t2 o -> streams_ok t2 t3 o' -> streams_ok t1 t3 (o ++ o').
Proof.
  intros (n & Hn & Ho & Hc) (m & Hm & Ho' & Hc'). exists (n + m)%nat. rewrite opened_app, closed_app, Ho, Ho', seq_app, <- Hn.
  split; [lia|]. split; [done|]. rewrite app_assoc, Hc, <- !app_assoc. by rewrite Hc'.
Qed.

(** *** Actions that leave the stream alone *)

Record quiet (a : act) : Prop := {
  q_core : forall t, core (fst (a t)) = core t;
  q_out : forall t, opened (snd (a t)) = [] /\ closed (snd (a t)) = [];
  q_hist : forall t, hist_ok t -> hist_ok (fst (a t)) }.

Lemma quiet_seq a b : quiet a -> quiet b -> quiet (a >>; b).
Proof.
  intros [Ha1 Ha2 Ha3] [Hb1 Hb2 Hb3]. unfold andThen.
  split; intros t; specialize (Ha1 t); specialize (Ha2 t); specialize (Ha3 t); destruct (a t) as [t1 o1]; simpl in *;
    specialize (Hb1 t1); specialize (Hb2 t1); specialize (Hb3 t1); destruct (b t1) as [t2 o2]; simpl in *.
  - congruence.
  - rewrite opened_app, closed_app. destruct Ha2 as [-> ->], Hb2 as [-> ->]. done.
  - auto.
Qed.

Lemma quiet_when c a : quiet a -> quiet (when c a).
Proof. intros [H1 H2 H3]. split; intros t; unfold when; destruct (c t); auto. Qed.

Lemma quiet_orElse c a b : quiet a -> quiet b -> quiet (orElse c a b).
Proof. intros [H1 H2 H3] [H1' H2' H3']. split; intros t; unfold orElse; destruct (c t); auto. Qed.

Lemma quiet_modify f : (forall t, core (f t) = core t) -> (forall t, hist_ok t -> hist_ok (f t)) -> quiet (modify f).
Proof. intros H1 H2. by split; simpl. Qed.

Lemma quiet_out f : (forall t, opened (f t) = [] /\ closed (f t) = []) -> quiet (out f).
Proof. intros H. by split; simpl. Qed.

Lemma quiet_post w : quiet (post w).
Proof.
  split; intros t; unfold post; simpl.
  - destruct (w t); try done. by destruct (_ =s _).
  - by destruct (channel t).
  - intros [H1 H2 H3 H4]. destruct (w t); try by split. by destruct (_ =s _).
Qed.

#[local] Hint Resolve quiet_seq quiet_when quiet_orElse quiet_post : flow.

(** Setters of the other fields. *)
Ltac quiet_setter := apply quiet_modify; [done | by intros ? [? ? ? ?]; split].

Lemma trim_replay_spec now r n :
  n = sumZ (map entry_bytes r) ->
  let '(r', n') := trim_replay now r n in
  n' = sumZ (map entry_bytes r') /\ Z.of_nat (length r') <= replayMaxEvents /\ n' <= replayMaxBytes
  /\ match r' with e :: _ => now - at_ms e <= SHARED_REPLAY_WINDOW_MS | [] => True end.
Proof.
  revert n. induction r as [|e r IH]; intros n Hn; cbn [trim_replay].
  - subst. simpl. unfold replayMaxEvents, replayMaxBytes. lia.
  - destruct (_ || _) eqn:H; [apply IH; simpl in Hn; lia|]. apply orb_false_iff in H as [H H3].
    apply orb_false_iff in H as [H1 H2]. breflect. done.
Qed.

Lemma quiet_remember now m : quiet (remember now m).
Proof.
  apply quiet_modify.
  - intros t. cbv zeta. by match goal with |- context [trim_replay ?a ?b ?c] => destruct (trim_replay a b c) end.
  - intros t [H1 H2 H3 H4]. cbv zeta. set (n := Z.of_nat (String.length (data m)) * 2).
    pose proof (trim_replay_spec now (replay t ++ [mkReplay now n m]) (replayBytes t + n)) as Ht.
    destruct (trim_replay now (replay t ++ [mkReplay now n m]) (replayBytes t + n)) as [r k]. destruct Ht as (Hs & Hl & Hb & _).
    { rewrite map_app, sumZ_app, H3. simpl. lia. }
    by split.
Qed.

Lemma quiet_id : quiet (modify id).
Proof. by apply quiet_modify. Qed.

Lemma quiet_accept now m broadcast : quiet (accept now m broadcast).
Proof.
  unfold accept. repeat apply quiet_seq.
  - apply quiet_modify; [done|]. intros t [H1 H2 H3 H4]. split; simpl; try done.
    destruct (resumable (lastEventId m)) eqn:Hr; [done | exact H4].
  - destruct (is_presence _); auto using quiet_id, quiet_remember.
  - destruct broadcast; auto using quiet_id, quiet_post.
  - by apply quiet_out.
Qed.

Lemma quiet_answerHello now to : quiet (answerHello now to).
Proof.
  apply quiet_seq; [apply quiet_post|]. apply quiet_out. intros t. destruct (channel t); [|done].
  induction (_ ++ _) as [|x l IH]; [done|]. exact IH.
Qed.

Lemma quiet_claim : quiet claim.
Proof. apply quiet_when, quiet_seq; [apply quiet_post | quiet_setter]. Qed.

#[local] Hint Resolve quiet_accept quiet_answerHello quiet_claim quiet_id : flow.

(** *** Actions that open or close the stream *)

Definition step_ok (a : act) : Prop := forall t, tab_ok t -> tab_ok (fst (a t)) /\ streams_ok t (fst (a t)) (snd (a t)).

Lemma seq_fst a b t : fst ((a >>; b) t) = fst (b (fst (a t))).
Proof. unfold andThen. destruct (a t) as [t1 o1]. simpl. by destruct (b t1). Qed.

Lemma seq_snd a b t : snd ((a >>; b) t) = snd (a t) ++ snd (b (fst (a t))).
Proof. unfold andThen. destruct (a t) as [t1 o1]. simpl. by destruct (b t1). Qed.

Lemma step_seq a b : step_ok a -> step_ok b -> step_ok (a >>; b).
Proof.
  intros Ha Hb t Ht. rewrite seq_fst, seq_snd. destruct (Ha t Ht) as [H1 H2]. destruct (Hb _ H1) as [H3 H4].
  split; [done | by eapply streams_ok_trans].
Qed.

Lemma streams_ok_refl t : streams_ok t t [].
Proof. exists 0%nat. rewrite Nat.add_0_r. simpl. by rewrite app_nil_r. Qed.

Lemma step_when c a : step_ok a -> step_ok (when c a).
Proof. intros Ha t Ht. unfold when. destruct (c t); [by apply Ha|]. split; [done | apply streams_ok_refl]. Qed.

(** The stream conditions only depend on the core. *)
Lemma tab_ok_core t t' : core t' = core t -> hist_ok t' -> tab_ok t -> tab_ok t'.
Proof. intros [= Hs Hn Hr Hro Hd] Hh [H1 H2 H3 _]. split; rewrite ?Hs, ?Hr, ?Hro, ?Hd; auto. Qed.

Lemma streams_ok_core t t' o : core t' = core t -> opened o = [] -> closed o = [] -> streams_ok t t' o.
Proof.
  intros [= Hs Hn Hr Hro Hd] Ho Hc. exists 0%nat. rewrite Ho, Hc, Hn, Nat.add_0_r. unfold held. by rewrite Hs, app_nil_r.
Qed.

Lemma quiet_step a : quiet a -> step_ok a.
Proof.
  intros [H1 H2 H3] t Ht. specialize (H1 t). specialize (H2 t) as [Ho Hc]. specialize (H3 t (to_hist _ Ht)).
  split; [by eapply tab_ok_core | by apply streams_ok_core].
Qed.

(** Opening the stream of a leader that has none. *)
Lemma connect_ok now t : hist_ok t -> stream t = None -> reconnectTimer t = false -> role t = leader -> disposed t = false ->
  tab_ok (fst (connect now t)) /\ streams_ok t (fst (connect now t)) (snd (connect now t)).
Proof.
  intros [Hh1 Hh2 Hh3 Hh4] Hs Hr Hro Hd. unfold connect, when, is_leader. rewrite Hd, Hro. simpl. split.
  - split; simpl; [intros _; auto | congruence | by left | by split].
  - exists 1%nat. unfold held. simpl. rewrite Hs. split; [lia|]. done.
Qed.

(** What every transition that ends without a stream has in common. *)
Lemma closed_ok t t' o r : tab_ok t -> hist_ok t' -> core t' = (None, nextStream t, r, role t', disposed t') ->
  opened o = [] -> closed o = held t -> (r = true -> role t' = leader /\ disposed t' = false) ->
  (role t' = leader -> disposed t' = false -> r = true) -> tab_ok t' /\ streams_ok t t' o.
Proof.
  intros Ht Hh [= Hs Hn Hr] Ho Hc Hr1 Hr2. split.
  - split; rewrite ?Hs, ?Hr; auto; done.
  - exists 0%nat. rewrite Ho, Hc, Hn, Nat.add_0_r. unfold held at 3. rewrite Hs. done.
Qed.

Ltac run_acts :=
  unfold andThen, when, closeStream, post, out, modify, is_leader; cbn; rewrite ?String.eqb_refl; cbn.

Lemma fail_ok s : step_ok (fail s).
Proof.
  intros t Ht. unfold fail, when, current. case_bool_decide as Hs; [|split; [done | apply streams_ok_refl]].
  destruct (to_stream _ Ht) as (Hro & Hd & Hr); [by rewrite Hs|]. destruct (to_hist _ Ht) as [Hh1 Hh2 Hh3 Hh4].
  apply (closed_ok t _ _ true Ht); run_acts; rewrite ?Hs; try done.
  - by destruct (channel t).
  - unfold held. rewrite Hs. by destruct (channel t).
Qed.

Lemma stepDown_ok : step_ok stepDown.
Proof.
  intros t Ht. unfold stepDown, when, is_leader. case_bool_decide as Hro; [|split; [done | apply streams_ok_refl]].
  destruct (to_hist _ Ht) as [Hh1 Hh2 Hh3 Hh4].
  apply (closed_ok t _ _ false Ht); run_acts; try done.
  - destruct (stream t), (channel t); done.
  - unfold held. destruct (stream t), (channel t); done.
Qed.

Lemma dispose_ok : step_ok dispose.
Proof.
  intros t Ht. unfold dispose. unfold when at 1 3 5. destruct (disposed t) eqn:Hd; [split; [done | apply streams_ok_refl]|].
  destruct (to_hist _ Ht) as [Hh1 Hh2 Hh3 Hh4].
  apply (closed_ok t _ _ false Ht); run_acts; (case_bool_decide; cbn; destruct (heartbeat t); cbn); try done;
    unfold held; try (by destruct (stream t), (channel t)); by split.
Qed.

Lemma becomeLeader_ok now persisted : step_ok (becomeLeader now persisted).
Proof.
  intros t Ht. unfold becomeLeader. unfold when at 1 4 7, is_leader. destruct (disposed t) eqn:Hd; [split; [done | apply streams_ok_refl]|].
  case_bool_decide as Hro; [split; [done | apply streams_ok_refl]|]. cbn [negb andb].
  assert (Hs : stream t = None) by (destruct (stream t) eqn:E; [|done]; by destruct (to_stream _ Ht) as [? _]; [rewrite E|]).
  assert (Hr : reconnectTimer t = false) by (destruct (reconnectTimer t) eqn:E; [|done]; by destruct (to_reconnect _ Ht E)).
  set (t1 := set_election leader (claimTimer t) t).
  match goal with |- context [(modify _ >>; ?rest) t] => set (tail := rest) end.
  assert (Htail : tab_ok (fst (tail t1)) /\ streams_ok t1 (fst (tail t1)) (snd (tail t1))).
  { assert (Hq : forall q, quiet q -> forall t2, core t2 = (None, nextStream t, false, leader, false) -> hist_ok t2 ->
        forall k, (forall t3, core t3 = (None, nextStream t, false, leader, false) -> hist_ok t3 ->
                     tab_ok (fst (k t3)) /\ streams_ok t3 (fst (k t3)) (snd (k t3))) ->
        tab_ok (fst ((q >>; k) t2)) /\ streams_ok t2 (fst ((q >>; k) t2)) (snd ((q >>; k) t2))).
    { intros q [Q1 Q2 Q3] t2 Hc Hh k Hk. rewrite seq_fst, seq_snd.
      destruct (Hk (fst (q t2))) as [K1 K2]; [by rewrite Q1 | by apply Q3|]. split; [done|].
      eapply streams_ok_trans; [|exact K2]. destruct (Q2 t2). by apply streams_ok_core; [apply Q1 | |]. }
    unfold tail. repeat match goal with
      | |- context [(?q >>; ?k) ?x] => apply (Hq q); [ | | | intros ? ? ?]
      end; try done; auto with flow; try quiet_setter; try (by apply quiet_out).
    all: try (unfold t1, core; simpl; by rewrite Hs, Hr, Hd).
    all: try (unfold t1; destruct (to_hist _ Ht) as [? ? ? ?]; by split).
    match goal with Hc : core ?x = _, Hh : hist_ok ?x |- context [connect now ?x] =>
      injection Hc as ? ? ? ? ?; by apply connect_ok end. }
  unfold andThen, modify. fold t1. destruct (tail t1) as [t2 o2]. simpl in *. split; [apply Htail|].
  destruct Htail as [_ (n & H1 & H2 & H3)]. exists n. done.
Qed.

Lemma reconnect_ok now :
  step_ok (when reconnectTimer (modify (fun t => set_stream (stream t) (nextStream t) false (staleTimer t) (lastSeen t) t) >>; connect now)).
Proof.
  intros t Ht. unfold when at 1 2 3. destruct (reconnectTimer t) eqn:Hr; [|split; [done | apply streams_ok_refl]].
  destruct (to_reconnect _ Ht Hr) as [Hro Hd]. destruct (to_hist _ Ht) as [Hh1 Hh2 Hh3 Hh4].
  assert (Hs : stream t = None) by (destruct (stream t) eqn:E; [|done]; destruct (to_stream _ Ht) as (_ & _ & ?); [by rewrite E | congruence]).
  rewrite seq_fst, seq_snd. simpl. set (t1 := set_stream _ _ _ _ _ t).
  destruct (connect_ok now t1) as [H1 (n & H2)]; try done. split; [done | by exists n].
Qed.

Lemma stale_ok now : step_ok (stale_tick now).
Proof.
  intros t Ht. unfold stale_tick. destruct (stream t) as [s|]; [|split; [done | apply streams_ok_refl]].
  by apply step_when; [apply fail_ok|].
Qed.

Ltac quiet_all := repeat first
  [ apply quiet_answerHello | apply quiet_accept | apply quiet_claim | apply quiet_seq | apply quiet_when | apply quiet_orElse
  | apply quiet_post | apply quiet_id | quiet_setter | (apply quiet_out; done) ].

Lemma onWire_ok now w : step_ok (onWire now w).
Proof.
  unfold onWire. apply step_when. destruct w; try (apply quiet_step; quiet_all; fail).
  apply step_seq; [|apply quiet_step; unfold cancelClaim; quiet_all]. apply step_when. intros t Ht. unfold orElse.
  destruct (ltb_string from (tabId t)); [by apply stepDown_ok | by apply (quiet_step _ (quiet_post _))].
Qed.

Lemma handle_ok i now persisted : step_ok (handle i now persisted).
Proof.
  destruct i; simpl; auto using fail_ok, stale_ok, dispose_ok, reconnect_ok, onWire_ok.
  - unfold start. apply step_seq; [apply quiet_step; quiet_setter|]. destruct hasChannel; [|apply becomeLeader_ok].
    apply quiet_step. unfold electWithHeartbeat. destruct hasLocks; quiet_all.
  - apply step_when, step_seq; [apply becomeLeader_ok | apply quiet_step; quiet_setter].
  - apply quiet_step. unfold lock_failed, electWithHeartbeat. quiet_all.
  - apply quiet_step. unfold join_fires. quiet_all.
  - apply quiet_step. quiet_all.
  - apply quiet_step. unfold beat_tick. quiet_all.
  - apply step_when. unfold claim_fires. apply step_seq; [apply quiet_step; quiet_setter | apply step_when, becomeLeader_ok].
  - apply quiet_step. unfold stream_open. quiet_all.
  - apply quiet_step. unfold stream_message. quiet_all.
  - apply quiet_step. unfold keepalive. quiet_all.
Qed.

Lemma run_ok l t : tab_ok t -> tab_ok (fst (run l t)) /\ streams_ok t (fst (run l t)) (snd (run l t)).
Proof.
  revert t. induction l as [|[[i now] p] l IH]; intros t Ht; simpl; [split; [done | apply streams_ok_refl]|].
  destruct (handle_ok i now p t Ht) as [H1 H2]. destruct (handle i now p t) as [t1 o1]. simpl in *.
  destruct (IH t1 H1) as [H3 H4]. destruct (run l t1) as [t2 o2]. simpl in *. split; [done | by eapply streams_ok_trans].
Qed.

(** C22 (shared_stream_exclusive). Whatever happens to a tab, it holds a stream only while it is the
    leader and not disposed, and never more than one: the streams it closed, followed by the one it
    holds, are the streams it opened, in order.  Only a live leader waits to reconnect, and only while it
    holds no stream; a leader is never stuck: it holds a stream or a reconnect is scheduled.  The replay buffer stays within 256 events and two megabytes, and the
    resume cursor is never empty or a handshake id. *)
Theorem shared_stream_exclusive l id :
  let '(t, o) := run l (new_tab id) in
  (stream t <> None -> role t = leader /\ disposed t = false)
  /\ closed o ++ held t = opened o
  /\ (reconnectTimer t = true -> role t = leader /\ disposed t = false /\ stream t = None)
  /\ (role t = leader -> disposed t = false -> stream t <> None \/ reconnectTimer t = true)
  /\ Z.of_nat (length (replay t)) <= 256 /\ replayBytes t <= 2097152
  /\ (forall c, cursor t = Some c -> c <> "" /\ startsWith "connected_" c = false).
Proof.
  assert (H0 : tab_ok (new_tab id)) by (split; try done; split; simpl; unfold replayMaxEvents, replayMaxBytes; try lia; done).
  pose proof (run_ok l _ H0) as H. destruct (run l (new_tab id)) as [t o]. simpl in H.
  destruct H as [[H1 H2 H3 [Hh1 Hh2 Hh3 Hh4]] (n & Hn & Ho & Hc)].
  split; [by intros Hs; destruct (H1 Hs) as (? & ? & _)|]. split; [rewrite Ho; symmetry; exact Hc|]. split.
  { intros Hr. destruct (H2 Hr) as [Hro Hd]. split; [done|]. split; [done|]. destruct (stream t) eqn:E; [|done]. destruct H1 as (_ & _ & ?); [done | congruence]. }
  split; [done|]. split; [done|]. split; [done|]. intros c Hcur. rewrite Hcur in Hh4. unfold resumable, truthy in Hh4. by breflect.
Qed.

(** *** Resuming *)

(** The last resumable id among the messages delivered, starting from [c]. *)
Fixpoint track (c : option string) (o : list Out) : option string :=
  match o with
  | [] => c
  | OMessage m :: r => track (if resumable (lastEventId m) then Some (lastEventId m) else c) r
  | _ :: r => track c r
  end.

(** Every stream opened after a resumable message resumes from the last one. *)
Fixpoint resumes (c : option string) (o : list Out) : Prop :=
  match o with
  | [] => True
  | OMessage m :: r => resumes (if resumable (lastEventId m) then Some (lastEventId m) else c) r
  | OOpen _ since :: r => (c <> None -> since = c) /\ resumes c r
  | _ :: r => resumes c r
  end.

Lemma track_app c o o' : track c (o ++ o') = track (track c o) o'.
Proof. revert c. induction o as [|[] o IH]; intros c; simpl; auto. Qed.

Lemma resumes_app c o o' : resumes c (o ++ o') <-> resumes c o /\ resumes (track c o) o'.
Proof. revert c. induction o as [|[] o IH]; intros c; simpl; rewrite ?IH; tauto. Qed.

Definition tracked (a : act) : Prop := forall t,
  cursor (fst (a t)) = track (cursor t) (snd (a t)) /\ resumes (cursor t) (snd (a t)).

Lemma tracked_seq a b : tracked a -> tracked b -> tracked (a >>; b).
Proof.
  intros Ha Hb t. rewrite seq_fst, seq_snd, track_app, resumes_app. destruct (Ha t) as [H1 H2], (Hb (fst (a t))) as [H3 H4].
  rewrite <- H1. done.
Qed.

Lemma tracked_when c a : tracked a -> tracked (when c a).
Proof. intros Ha t. unfold when. destruct (c t); [apply Ha | done]. Qed.

Lemma tracked_orElse c a b : tracked a -> tracked b -> tracked (orElse c a b).
Proof. intros Ha Hb t. unfold orElse. destruct (c t); auto. Qed.

Lemma tracked_modify f : (forall t, cursor (f t) = cursor t) -> tracked (modify f).
Proof. intros H t. simpl. by rewrite H. Qed.

Lemma tracked_out f : (forall t, Forall (fun x => match x with OMessage _ | OOpen _ _ => False | _ => True end) (f t)) -> tracked (out f).
Proof.
  intros H t. simpl. specialize (H t). induction H as [|x o Hx _ [IH1 IH2]]; [done|]. by destruct x.
Qed.

Lemma tracked_post w : tracked (post w).
Proof.
  intros t. unfold post. simpl. split.
  - destruct (w t); try (by destruct (channel t)). destruct (_ =s _); by destruct (channel t).
  - by destruct (channel t).
Qed.

Lemma tracked_accept now m b : tracked (accept now m b).
Proof.
  intros t. unfold accept. rewrite !seq_fst, !seq_snd. simpl. set (c := if resumable (lastEventId m) then Some (lastEventId m) else cursor t).
  set (t1 := set_history c _ _ _ _ _ t).
  assert (Hmid : forall t2, cursor t2 = c ->
    cursor (fst ((if b then post (fun t => WMsg (tabId t) None m) else modify id) t2)) = c
    /\ track (cursor t) (snd ((if b then post (fun t => WMsg (tabId t) None m) else modify id) t2) ++ [OMessage m]) = c
    /\ resumes (cursor t) (snd ((if b then post (fun t => WMsg (tabId t) None m) else modify id) t2) ++ [OMessage m])).
  { intros t2 H2. destruct b; simpl; [|done]. by destruct (channel t2). }
  destruct (is_presence (data m)); simpl.
  - destruct (Hmid t1 eq_refl) as (H1 & H2 & H3). by rewrite H1, H2.
  - match goal with |- context [trim_replay ?x ?y ?z] => destruct (trim_replay x y z) as [r n] end.
    destruct (Hmid (set_history c (initialSince t1) true (presence t1) r n t1) eq_refl) as (H1 & H2 & H3).
    simpl in *. by rewrite H1, H2.
Qed.

Lemma tracked_connect now : tracked (connect now).
Proof.
  intros t. unfold connect, when. destruct (_ && _); [|done]. simpl. split; [done|]. split; [|done]. by destruct (cursor t).
Qed.

Lemma tracked_answerHello now to : tracked (answerHello now to).
Proof.
  apply tracked_seq; [apply tracked_post|]. apply tracked_out. intros t. destruct (channel t); [|constructor].
  induction (_ ++ _) as [|x l IH]; simpl; by constructor.
Qed.

Ltac tracked_all := repeat first
  [ apply tracked_answerHello | apply tracked_accept | apply tracked_connect | apply tracked_seq | apply tracked_when
  | apply tracked_orElse | apply tracked_post | (apply tracked_modify; done) | (apply tracked_out; intros ?; repeat constructor; done)
  | (apply tracked_out; intros t; destruct (stream t); repeat constructor) ].

Lemma handle_tracked i now persisted : tracked (handle i now persisted).
Proof.
  assert (Hfail : forall s, tracked (fail s)) by (intros s; unfold fail, closeStream; tracked_all).
  destruct i; simpl; auto.
  - unfold start, electWithHeartbeat. destruct hasChannel, hasLocks; tracked_all.
  - unfold lock_granted. tracked_all.
  - unfold lock_failed, electWithHeartbeat. tracked_all.
  - unfold dispose, closeStream. tracked_all.
  - unfold join_fires, claim. tracked_all.
  - unfold claim. tracked_all.
  - unfold beat_tick, claim. tracked_all.
  - unfold claim_fires. tracked_all.
  - tracked_all.
  - intros t. unfold stale_tick. destruct (stream t) as [s|]; [|done]. by apply tracked_when.
  - unfold stream_open. tracked_all.
  - unfold stream_message. tracked_all.
  - unfold keepalive. tracked_all.
  - unfold onWire, stepDown, closeStream, cancelClaim. destruct w; tracked_all.
Qed.

(** No event is skipped on a handover: a tab's cursor is always the last
    resumable id among the messages it delivered (from its own stream or from another leader), and
    every stream it opens after such a message resumes from that id. *)
Theorem shared_stream_resumes l id :
  let '(t, o) := run l (new_tab id) in cursor t = track None o /\ resumes None o.
Proof.
  assert (H : forall l t, cursor (fst (run l t)) = track (cursor t) (snd (run l t)) /\ resumes (cursor t) (snd (run l t))).
  { clear. induction l as [|[[i now] p] l IH]; intros t; simpl; [done|]. destruct (handle_tracked i now p t) as [H1 H2].
    destruct (handle i now p t) as [t1 o1]. simpl in *. specialize (IH t1). destruct (run l t1) as [t2 o2]. simpl in *.
    rewrite track_app, resumes_app, <- H1. tauto. }
  specialize (H l (new_tab id)). by destruct (run l (new_tab id)).
Qed.

End Tabs.

(** *** Two leaders *)

(** A tab hears the heartbeats of other tabs, one after the other. *)
Definition hear (now : Z) (ids : list string) (t : Tab) : Tab :=
  fold_left (fun t from => fst (onWire now (WBeat from) t)) ids t.

Lemma beat_role now from t : disposed t = false -> from <> tabId t ->
  let t' := fst (onWire now (WBeat from) t) in
  tabId t' = tabId t /\ disposed t' = false
  /\ role t' = (if is_leader t && ltb_string from (tabId t) then follower else role t).
Proof.
  intros Hd Hne. assert (Hme : for_me (WBeat from) t = true).
  { unfold for_me. simpl. rewrite Hd. by destruct (String.eqb_spec from (tabId t)). }
  unfold onWire, when. rewrite Hme, !seq_fst. unfold orElse. destruct (is_leader t) eqn:Hl; cbn [andb]; [|done].
  destruct (ltb_string from (tabId t)); [|done]. unfold stepDown, when. rewrite Hl. done.
Qed.

Lemma hear_role now ids t : disposed t = false -> tabId t ∉ ids -> role t = leader ->
  tabId (hear now ids t) = tabId t /\ disposed (hear now ids t) = false
  /\ (role (hear now ids t) = leader <-> Forall (fun from => ltb_string from (tabId t) = false) ids).
Proof.
  assert (Hf : forall ids t, disposed t = false -> tabId t ∉ ids -> role t = follower ->
    tabId (hear now ids t) = tabId t /\ disposed (hear now ids t) = false /\ role (hear now ids t) = follower).
  { clear ids t. induction ids as [|from ids IH]; intros t Hd Hn Hr; [done|]. apply not_elem_of_cons in Hn as [Hne Hn].
    destruct (beat_role now from t Hd ltac:(congruence)) as (H1 & H2 & H3). simpl. unfold is_leader in H3. rewrite Hr in H3. simpl in H3.
    destruct (IH _ H2 ltac:(by rewrite H1) H3) as (H4 & H5 & H6). rewrite H4, H1. done. }
  revert t. induction ids as [|from ids IH]; intros t Hd Hn Hr; [done|]. apply not_elem_of_cons in Hn as [Hne Hn].
  destruct (beat_role now from t Hd ltac:(congruence)) as (H1 & H2 & H3). simpl. unfold is_leader in H3.
  rewrite Hr, bool_decide_true in H3 by done. simpl in H3. rewrite Forall_cons. destruct (ltb_string from (tabId t)).
  - destruct (Hf ids _ H2 ltac:(by rewrite H1) H3) as (H4 & H5 & H6). unfold hear in *. rewrite H4, H6, H1. intuition done.
  - destruct (IH _ H2 ltac:(by rewrite H1) H3) as (H4 & H5 & H6). unfold hear in *. rewrite H4, H6, H1. intuition done.
Qed.

Lemma ltb_leb a b : String.ltb a b = negb (String.leb b a).
Proof.
  unfold String.ltb, String.leb. rewrite (String.compare_antisym b a).
  by destruct (String.compare a b).
Qed.

(** The lowest of a non-empty list of ids. *)
Lemma lowest_id ids : ids <> [] -> exists i, i ∈ ids /\ Forall (fun j => j <> i -> ltb_string j i = false) ids.
Proof.
  induction ids as [|x ids IH]; [done|]. intros _. destruct ids as [|y ids].
  { exists x. split; [left|]. repeat constructor. done. }
  destruct IH as (i & Hi & Hmin); [done|]. destruct (String.leb x i) eqn:Hxi.
  - exists x. split; [left|]. constructor; [done|]. eapply Forall_impl; [exact Hmin|]. intros j Hj Hjx.
    unfold ltb_string in *. rewrite ltb_leb. apply negb_false_iff.
    destruct (decide (j = i)) as [->|Hji]; [done|]. specialize (Hj Hji). rewrite ltb_leb in Hj. breflect.
    apply Is_true_true. eapply (transitivity (R := String.le)); by apply Is_true_true.
  - exists i. split; [by right|]. constructor; [|done]. intros Hne. unfold ltb_string. rewrite ltb_leb.
    apply negb_false_iff. destruct (String.leb_total i x) as [H|H]; [done | congruence].
Qed.

(** When tabs that all lead (a partition healed) have heard each other's
    heartbeats, exactly one is left leading, the one with the lowest id; the others follow. *)
Theorem split_brain_heals now (tabs : list Tab) :
  tabs <> [] -> NoDup (map tabId tabs) -> Forall (fun t => role t = leader /\ disposed t = false) tabs ->
  let others t := List.filter (fun id => negb (id =s tabId t)) (map tabId tabs) in
  exists t, t ∈ tabs /\ role (hear now (others t) t) = leader
    /\ (forall t', t' ∈ tabs -> t' <> t -> role (hear now (others t') t') = follower)
    /\ (forall t', t' ∈ tabs -> t' <> t -> ltb_string (tabId t) (tabId t') = true).
Proof.
  intros Hne Hnd Hall others. destruct (lowest_id (map tabId tabs)) as (i & Hi & Hmin); [by destruct tabs|].
  apply list_elem_of_fmap in Hi as (t & -> & Ht). exists t. rewrite Forall_forall in Hall. rewrite Forall_forall in Hmin.
  assert (Hoth : forall t id, id ∈ others t <-> id ∈ map tabId tabs /\ id <> tabId t).
  { intros t0 id. unfold others. rewrite !list_elem_of_In, filter_In, negb_true_iff, String.eqb_neq. done. }
  assert (Hinj : forall a b, a ∈ tabs -> b ∈ tabs -> tabId a = tabId b -> a = b).
  { intros a b Ha Hb Hab. apply list_elem_of_lookup in Ha as [x Ha], Hb as [y Hb].
    assert (x = y) as ->; [|congruence]. eapply (NoDup_lookup _ _ _ (tabId a) Hnd);
      rewrite list_lookup_fmap; [by rewrite Ha | rewrite Hb; simpl; by rewrite Hab]. }
  assert (Hlow : forall t', t' ∈ tabs -> t' <> t -> ltb_string (tabId t) (tabId t') = true).
  { intros t' Ht' Hdiff. assert (Hid : tabId t' <> tabId t) by (intros Heq; by apply Hdiff, Hinj).
    specialize (Hmin (tabId t') ltac:(by apply list_elem_of_fmap_2) Hid). unfold ltb_string in *.
    rewrite ltb_leb in Hmin. rewrite ltb_leb. breflect. apply negb_true_iff.
    destruct (String.leb (tabId t') (tabId t)) eqn:E; [|done]. exfalso. apply Hid. by apply String.leb_antisym. }
  split; [done|]. split; [|split; [|done]].
  - destruct (Hall t Ht) as [Hr Hd]. destruct (hear_role now (others t) t Hd) as (_ & _ & H); [by rewrite Hoth; intros [_ ?] | done|].
    apply H. apply Forall_forall. intros from Hfrom. apply Hoth in Hfrom as [Hf1 Hf2]. by apply Hmin.
  - intros t' Ht' Hdiff. destruct (Hall t' Ht') as [Hr Hd].
    destruct (hear_role now (others t') t' Hd) as (_ & _ & H); [by rewrite Hoth; intros [_ ?] | done|].
    destruct (role (hear now (others t') t')) eqn:E; [done|]. exfalso. pose proof (proj1 H eq_refl) as H'.
    rewrite Forall_forall in H'. specialize (H' (tabId t)). rewrite (Hlow t' Ht' Hdiff) in H'.
    discriminate H'. apply Hoth. split; [by apply list_elem_of_fmap_2|]. intros Heq. apply Hdiff, Hinj; done.
Qed.

Lemma split_brain_heals_witness :
  let lead id := set_election leader false (new_tab id) in
  let tabs := [lead "b"; lead "a"; lead "c"] in
  map (fun t => role (hear 1 (List.filter (fun id => negb (id =s tabId t)) (map tabId tabs)) t)) tabs = [follower; leader; follower]
  /\ exists t, t ∈ tabs /\ role (hear 1 (List.filter (fun id => negb (id =s tabId t)) (map tabId tabs)) t) = leader.
Proof.
  intros lead tabs. split; [vm_compute; reflexivity|].
  assert (Hnd : NoDup (map tabId tabs)) by (apply (bool_decide_unpack _); vm_compute; exact I).
  assert (Hall : Forall (fun t => role t = leader /\ disposed t = false) tabs) by (repeat constructor).
  destruct (split_brain_heals 1 tabs ltac:(discriminate) Hnd Hall) as (t & Ht & Hl & _).
  exists t. split; [exact Ht | exact Hl].
Defined.
