(* ===== verification/IssueQueue.v ===== *)
(** * The queue of issue writes (web/src/lib/issue-mutation-queue.ts)

    The writes of an issue run one at a time.  Promises are tasks with a number: [tails] maps an
    issue to its last task, a task waits for the tails it found, and a queued update is an object
    that later edits are merged into until its task runs.  The queue remembers which versions its
    own writes produced and sends an edit based on one of them with the newest.

    The second part puts the queue in front of a server that keeps a log per issue: one entry for
    each version step, saying whether this tab made it.  The theorems relate the version a request
    carries to that log. *)

From Stdlib Require Import ZArith Lia Bool List.
From stdpp Require Import base list gmap strings.
From S2P Require Import Prelude JsString Json.

Open Scope Z_scope.

(** ** Data *)

Record Lineage := mkLineage { lineage_from : Z; lineage_to : Z }.

(** A result of the server: an issue with its version, when it is a finite number, and the
    issues that changed with it. *)
Local Set Warnings "-register-all".
Inductive Written := mkWritten (id : string) (version : option Z) (affected : option (list Written)).

Definition w_id (w : Written) := let 'mkWritten i _ _ := w in i.
Definition versionOf (w : Written) := let 'mkWritten _ v _ := w in v.

(** [ApiError] with the version of its [current] issue, or any other error. *)
Inductive Error := ApiError (status : Z) (current : option Z) | OtherError.

Record Conflict := mkConflict { conflict_version : Z; conflict_error : Error }.

Record IssueUpdateInput := mkInput {
  expectedVersion : option Z; documentUpdateIds : option (list string); expectedDocumentVersion : option Z;
  fields : gmap string json }.

(** The input and the promise of a waiting update are those of its task. *)
Record WaitingUpdate := mkWaiting { waiting_path : string; waiting_task : nat }.

Inductive Op := OpWrite (id : string) | OpUpdate (id path : string) (body : IssueUpdateInput) | OpBatch (ids : list string).
Inductive Outcome := Resolved (issues : list Written) | Rejected (e : Error).
Inductive Status := Queued | Running (sent : option Z) | Settled (r : Outcome).
Record Task := mkTask { deps : list nat; op : Op; status : Status }.

Record Queue := mkQueue {
  tails : gmap string nat; lineages : gmap string Lineage; conflicts : gmap string Conflict;
  waiting : gmap string WaitingUpdate; tasks : list Task }.

Definition op_ids (o : Op) : list string :=
  match o with OpWrite id | OpUpdate id _ _ => [id] | OpBatch ids => ids end.

Definition set_tails f (q : Queue) := mkQueue (f (tails q)) (lineages q) (conflicts q) (waiting q) (tasks q).
Definition set_lineages l (q : Queue) := mkQueue (tails q) l (conflicts q) (waiting q) (tasks q).
Definition set_conflicts c (q : Queue) := mkQueue (tails q) (lineages q) c (waiting q) (tasks q).
Definition set_waiting w (q : Queue) := mkQueue (tails q) (lineages q) (conflicts q) w (tasks q).
Definition set_tasks t (q : Queue) := mkQueue (tails q) (lineages q) (conflicts q) (waiting q) t.

Definition set_status (n : nat) (st : Status) (q : Queue) : Queue :=
  set_tasks (alter (fun t => mkTask (deps t) (op t) st) n (tasks q)) q.

(** ** Versions *)

Definition versionToSend (L : gmap string Lineage) (id : string) (expected : option Z) : option Z :=
  match expected with
  | None => None
  | Some e =>
      match L !! id with
      | Some l => Some (if (lineage_from l <=? e) && (e <? lineage_to l) then lineage_to l else e)
      | None => Some e
      end
  end.

(** The rest of [recordWrite], for the version of a result. *)
Definition recordVersion (L : gmap string Lineage) (id : string) (sent : option Z) (v : option Z) : gmap string Lineage :=
  match v with
  | None => L
  | Some version =>
      match sent with
      | Some s =>
          if version <=? s then L
          else <[id := match L !! id with
                       | Some l => if lineage_to l =? s then mkLineage (lineage_from l) version else mkLineage s version
                       | None => mkLineage s version
                       end]> L
      | None =>
          match L !! id with
          | Some l =>
              if version <=? lineage_to l then L
              else <[id := if lineage_to l =? version - 1 then mkLineage (lineage_from l) version else mkLineage (version - 1) version]> L
          | None => <[id := mkLineage (version - 1) version]> L
          end
      end
  end.

(** [recordWrite], which records the affected issues ([recordAffected]) before the issue itself. *)
Fixpoint recordWrite (L : gmap string Lineage) (id : string) (sent : option Z) (result : Written) : gmap string Lineage :=
  match result with
  | mkWritten _ version affected =>
      let L' := match affected with
                | None => L
                | Some l => (fix recordAffected (L : gmap string Lineage) (l : list Written) :=
                    match l with
                    | [] => L
                    | a :: r => recordAffected (if truthy (w_id a) then recordWrite L (w_id a) None a else L) r
                    end) L l
                end in
      recordVersion L' id sent version
  end.

(** [delete written.affectedIssues] *)
Definition strip (w : Written) : Written := let 'mkWritten i v _ := w in mkWritten i v None.

Definition recordFailure (id : string) (e : Error) (q : Queue) : Queue :=
  match e with
  | ApiError 409 current =>
      let q := set_lineages (delete id (lineages q)) q in
      match current with Some v => set_conflicts (<[id := mkConflict v e]> (conflicts q)) q | None => q end
  | _ => q
  end.

(** ** The queue *)

(** The function a task runs once the tasks before it have settled. *)
Definition run_task (n : nat) (q : Queue) : Queue :=
  match tasks q !! n with
  | Some t =>
      match op t with
      | OpUpdate id _ body =>
          let q := match waiting q !! id with
                   | Some w => if (waiting_task w =? n)%nat then set_waiting (delete id (waiting q)) q else q
                   | None => q
                   end in
          match conflicts q !! id, expectedVersion body with
          | Some c, Some e =>
              if e <? conflict_version c then set_status n (Settled (Rejected (conflict_error c))) q
              else set_status n (Running (versionToSend (lineages q) id (Some e))) q
          | _, e => set_status n (Running (versionToSend (lineages q) id e)) q
          end
      | _ => set_status n (Running None) q
      end
  | None => q
  end.

(** The number of the new task is its promise. *)
Definition enqueue (o : Op) (q : Queue) : Queue * nat :=
  let n := length (tasks q) in
  let previous := omap (fun id => tails q !! id) (op_ids o) in
  let q := set_tasks (tasks q ++ [mkTask previous o Queued]) q in
  let q := if bool_decide (previous = []) then run_task n q else q in
  (set_tails (fun t => fold_left (fun t id => <[id := n]> t) (op_ids o) t) q, n).

(** The callback of the tail. *)
Definition cleanup (n : nat) (q : Queue) : Queue :=
  match tasks q !! n with
  | Some (mkTask _ o (Settled _)) =>
      fold_left (fun q id => if bool_decide (tails q !! id = Some n)
                             then set_conflicts (delete id (conflicts q)) (set_tails (delete id) q) else q) (op_ids o) q
  | _ => q
  end.

Definition is_settled (q : Queue) (n : nat) : bool :=
  match tasks q !! n with Some (mkTask _ _ (Settled _)) => true | _ => false end.

(** [Promise.all(previous).then(run)] *)
Definition start_task (n : nat) (q : Queue) : Queue :=
  match tasks q !! n with
  | Some (mkTask d _ Queued) => if forallb (is_settled q) d then run_task n q else q
  | _ => q
  end.

(** The handlers of a write that is over. *)
Definition settle (n : nat) (r : Outcome) (q : Queue) : Queue :=
  match tasks q !! n with
  | Some (mkTask _ o (Running sent)) =>
      match r with
      | Resolved ws =>
          let L := match o with
                   | OpWrite id => match ws with w :: _ => recordWrite (lineages q) id None w | [] => lineages q end
                   | OpUpdate id _ _ => match ws with w :: _ => recordWrite (lineages q) id sent w | [] => lineages q end
                   | OpBatch _ => fold_left (fun L w => if truthy (w_id w) then recordWrite L (w_id w) None w else L) ws (lineages q)
                   end in
          set_status n (Settled (Resolved (map strip ws))) (set_lineages L q)
      | Rejected e => set_status n (Settled (Rejected e)) (fold_left (fun q id => recordFailure id e q) (op_ids o) q)
      end
  | _ => q
  end.

Definition mergeable (i : IssueUpdateInput) : bool :=
  negb (isSome (documentUpdateIds i)) && negb (isSome (expectedDocumentVersion i)).

(** [Object.assign(pending.input, input)]: the fields of the new input win. *)
Definition assign (a b : IssueUpdateInput) : IssueUpdateInput :=
  let or {A} (x y : option A) := match x with Some v => Some v | None => y end in
  mkInput (or (expectedVersion b) (expectedVersion a)) (or (documentUpdateIds b) (documentUpdateIds a))
    (or (expectedDocumentVersion b) (expectedDocumentVersion a)) (fields b ∪ fields a).

Definition queueIssueWrite (id : string) (q : Queue) : Queue * nat :=
  enqueue (OpWrite id) (set_waiting (delete id (waiting q)) q).

(** The body of the waiting update of an issue. *)
Definition pending_body (q : Queue) (w : WaitingUpdate) : option IssueUpdateInput :=
  match tasks q !! waiting_task w with Some (mkTask _ (OpUpdate _ _ b) _) => Some b | _ => None end.

Definition merges (q : Queue) (id path : string) (input : IssueUpdateInput) : option (nat * IssueUpdateInput) :=
  match waiting q !! id with
  | Some w =>
      match pending_body q w with
      | Some b => if (waiting_path w =s path) && mergeable b && mergeable input && bool_decide (expectedVersion b = expectedVersion input)
                  then Some (waiting_task w, b) else None
      | None => None
      end
  | None => None
  end.

Definition queueIssueUpdate (id path : string) (input : IssueUpdateInput) (q : Queue) : Queue * nat :=
  match merges q id path input with
  | Some (n, b) => (set_tasks (alter (fun t => mkTask (deps t) (OpUpdate id path (assign b input)) (status t)) n (tasks q)) q, n)
  | None =>
      let q := set_waiting (delete id (waiting q)) q in
      let mustWait := isSome (tails q !! id) in
      let '(q, n) := enqueue (OpUpdate id path input) q in
      (if mustWait then set_waiting (<[id := mkWaiting path n]> (waiting q)) q else q, n)
  end.

Definition queueIssuesWrite (ids : list string) (q : Queue) : Queue * nat :=
  let ids := unique ids in
  enqueue (OpBatch ids) (set_waiting (fold_left (fun w id => delete id w) ids (waiting q)) q).

Definition resetIssueMutationQueue : Queue := mkQueue ∅ ∅ ∅ ∅ [].

(** ** The queue and the server *)

(** [log w id] has an entry for every version step of the issue, [true] when this tab made it. *)
Abbreviation Server := (gmap string (list bool)).
Record World := mkWorld { queue : Queue; server : Server; responses : gmap nat Outcome }.

Definition log (srv : Server) (id : string) : list bool := srv !! id ?? [].
Definition version (srv : Server) (id : string) : Z := Z.of_nat (length (log srv id)).

(** A write raises the version of an issue by exactly one. *)
Definition raise (mine : bool) (id : string) (srv : Server) : Server :=
  <[id := log srv id ++ [mine]]> srv.

(** One issue of an answer: it is raised when it changes, as are the issues it affects. *)
Record Effect := mkEffect { eff_id : string; eff_changes : bool; eff_affects : list string }.

Definition apply_effect (srv : Server) (x : Effect) : Server * Written :=
  let srv1 := if eff_changes x then raise true (eff_id x) srv else srv in
  let v := version srv1 (eff_id x) in
  let '(srv2, ws) := fold_left (fun '(srv, ws) id => (raise true id srv, ws ++ [mkWritten id (Some (version (raise true id srv) id)) None]))
                     (eff_affects x) (srv1, []) in
  (srv2, mkWritten (eff_id x) (Some v) (Some ws)).

Fixpoint apply_effects (srv : Server) (l : list Effect) : Server * list Written :=
  match l with
  | [] => (srv, [])
  | x :: r => let '(srv1, w) := apply_effect srv x in let '(srv2, ws) := apply_effects srv1 r in (srv2, w :: ws)
  end.

Definition accepted (srv : Server) (id : string) (sent : option Z) : bool :=
  match sent with Some v => v =? version srv id | None => true end.

(** The effects of a request to one issue are on that issue. *)
Definition effects_of (o : Op) (l : list Effect) : list Effect :=
  match o with
  | OpBatch _ => l
  | OpWrite id | OpUpdate id _ _ => map (fun x => mkEffect id (eff_changes x) (eff_affects x)) (take 1 l)
  end.

Inductive Event :=
  | EWrite (id : string) | EUpdate (id path : string) (input : IssueUpdateInput) | EBatch (ids : list string)
  | EStart (n : nat) | ECleanup (n : nat)
  | EServe (n : nat) (effects : list Effect)  (* the server processes the request *)
  | EAnswer (n : nat)                         (* its answer arrives *)
  | ELost (n : nat)                           (* its answer does not *)
  | EForeign (id : string).                   (* another session changes the issue *)

Definition with_queue (q : Queue) (w : World) : World := mkWorld q (server w) (responses w).

Definition serve (n : nat) (l : list Effect) (w : World) : World :=
  match tasks (queue w) !! n, responses w !! n with
  | Some (mkTask _ o (Running sent)), None =>
      match o with
      | OpUpdate id _ _ =>
          if accepted (server w) id sent
          then let '(srv, ws) := apply_effects (server w) (effects_of o l) in mkWorld (queue w) srv (<[n := Resolved ws]> (responses w))
          else mkWorld (queue w) (server w) (<[n := Rejected (ApiError 409 (Some (version (server w) id)))]> (responses w))
      | _ => let '(srv, ws) := apply_effects (server w) (effects_of o l) in mkWorld (queue w) srv (<[n := Resolved ws]> (responses w))
      end
  | _, _ => w
  end.

Definition handle (e : Event) (w : World) : World :=
  match e with
  | EWrite id => with_queue (fst (queueIssueWrite id (queue w))) w
  | EUpdate id path input => with_queue (fst (queueIssueUpdate id path input (queue w))) w
  | EBatch ids => with_queue (fst (queueIssuesWrite ids (queue w))) w
  | EStart n => with_queue (start_task n (queue w)) w
  | ECleanup n => with_queue (cleanup n (queue w)) w
  | EServe n l => serve n l w
  | EAnswer n => match responses w !! n with Some r => with_queue (settle n r (queue w)) w | None => w end
  | ELost n => with_queue (settle n (Rejected OtherError) (queue w)) w
  | EForeign id => mkWorld (queue w) (raise false id (server w)) (responses w)
  end.

Definition run (l : list Event) (w : World) : World := fold_left (fun w e => handle e w) l w.
Definition fresh (srv : Server) : World := mkWorld resetIssueMutationQueue srv ∅.

(** ** The writes of an issue are serialised *)

Definition settled (t : Task) : Prop := exists r, status t = Settled r.

(** What the tails know: a task waits for the last earlier task of each of its issues that has
    not settled. *)
Record chain_ok (q : Queue) : Prop := {
  co_deps : forall n t, tasks q !! n = Some t -> Forall (fun d => d < n)%nat (deps t);
  co_tail : forall id m, tails q !! id = Some m ->
    (exists t, tasks q !! m = Some t /\ id ∈ op_ids (op t))
    /\ forall n t, tasks q !! n = Some t -> id ∈ op_ids (op t) -> (n <= m)%nat;
  co_free : forall id n t, tails q !! id = None -> tasks q !! n = Some t -> id ∈ op_ids (op t) -> settled t;
  co_chain : forall n t id m tm, tasks q !! n = Some t -> id ∈ op_ids (op t) -> (m < n)%nat ->
    tasks q !! m = Some tm -> id ∈ op_ids (op tm) ->
    settled tm \/ exists d td, d ∈ deps t /\ (m <= d)%nat /\ tasks q !! d = Some td /\ id ∈ op_ids (op td) }.

Definition dep_settled (q : Queue) (d : nat) : Prop := exists t, tasks q !! d = Some t /\ settled t.

Record queue_ok (q : Queue) : Prop := {
  qo_chain : chain_ok q;
  qo_started : forall n t, tasks q !! n = Some t -> status t <> Queued -> Forall (dep_settled q) (deps t);
  qo_waiting : forall id w, waiting q !! id = Some w ->
    exists d b, tasks q !! waiting_task w = Some (mkTask d (OpUpdate id (waiting_path w) b) Queued) }.

(** A step that keeps the tails and what the tasks wait for. *)
Record evolves (q q' : Queue) : Prop := {
  ev_tails : tails q' = tails q;
  ev_length : length (tasks q') = length (tasks q);
  ev_task : forall n t, tasks q !! n = Some t ->
    exists t', tasks q' !! n = Some t' /\ deps t' = deps t /\ op_ids (op t') = op_ids (op t) /\ (settled t -> settled t') }.

Lemma is_settled_spec q n : is_settled q n = true <-> dep_settled q n.
Proof.
  unfold is_settled, dep_settled, settled. destruct (tasks q !! n) as [[d o st]|]; [|split; [done | intros (? & ? & ?); done]].
  destruct st; split; try done; try (by intros (t & [= <-] & r & ?)); intros _; eexists; (split; [done|]); eexists; done.
Qed.

Lemma alter_lookup_inv (f : Task -> Task) (n m : nat) (l : list Task) t' : alter f n l !! m = Some t' ->
  exists t, l !! m = Some t /\ t' = if decide (m = n) then f t else t.
Proof.
  destruct (decide (m = n)) as [->|Hne].
  - rewrite list_lookup_alter_eq. destruct (l !! n); simpl; intros [= <-]. eauto.
  - rewrite list_lookup_alter_ne by done. eauto.
Qed.

Lemma alter_lookup (f : Task -> Task) (n m : nat) (l : list Task) t : l !! m = Some t -> alter f n l !! m = Some (if decide (m = n) then f t else t).
Proof.
  intros H. destruct (decide (m = n)) as [->|Hne]; [by rewrite list_lookup_alter_eq, H | by rewrite list_lookup_alter_ne].
Qed.

Lemma evolves_back q q' n t' : evolves q q' -> tasks q' !! n = Some t' ->
  exists t, tasks q !! n = Some t /\ deps t' = deps t /\ op_ids (op t') = op_ids (op t) /\ (settled t -> settled t').
Proof.
  intros H Hn. assert (Hlt : (n < length (tasks q))%nat) by (rewrite <- (ev_length _ _ H); by eapply lookup_lt_Some).
  apply lookup_lt_is_Some in Hlt as [t Ht]. destruct (ev_task _ _ H _ _ Ht) as (t2 & Ht2 & Hr). exists t.
  assert (t2 = t') as -> by congruence. done.
Qed.

Lemma evolves_chain q q' : evolves q q' -> chain_ok q -> chain_ok q'.
Proof.
  intros He [H1 H2 H3 H4]. split.
  - intros n t Ht. destruct (evolves_back _ _ _ _ He Ht) as (t0 & Ht0 & -> & _). eauto.
  - intros id m. rewrite (ev_tails _ _ He). intros Hm. destruct (H2 _ _ Hm) as [(t & Ht & Hid) Hlast]. split.
    + destruct (ev_task _ _ He _ _ Ht) as (t' & Ht' & _ & Hi & _). exists t'. by rewrite Hi.
    + intros n t' Ht' Hid'. destruct (evolves_back _ _ _ _ He Ht') as (t0 & Ht0 & _ & Hi & _). rewrite Hi in Hid'. eauto.
  - intros id n t. rewrite (ev_tails _ _ He). intros Hnone Ht Hid.
    destruct (evolves_back _ _ _ _ He Ht) as (t0 & Ht0 & _ & Hi & Hs). rewrite Hi in Hid. eauto.
  - intros n t id m tm Ht Hid Hlt Hm Hidm. destruct (evolves_back _ _ _ _ He Ht) as (t0 & Ht0 & Hd & Hi & _).
    destruct (evolves_back _ _ _ _ He Hm) as (m0 & Hm0 & _ & Him & Hsm). rewrite Hi in Hid. rewrite Him in Hidm.
    destruct (H4 _ _ _ _ _ Ht0 Hid Hlt Hm0 Hidm) as [?|(d & td & Hdd & Hle & Htd & Hidd)]; [auto|]. right.
    destruct (ev_task _ _ He _ _ Htd) as (td' & Htd' & _ & Hi' & _). exists d, td'. rewrite Hd, Hi'. done.
Qed.

Lemma dep_settled_evolves q q' d : evolves q q' -> dep_settled q d -> dep_settled q' d.
Proof. intros He (t & Ht & Hs). destruct (ev_task _ _ He _ _ Ht) as (t' & Ht' & _ & _ & Hs'). exists t'. auto. Qed.

(** A task that has left the queue runs after every earlier task of its issues. *)
Lemma queue_serial q : queue_ok q -> forall n t m tm id, tasks q !! n = Some t -> status t <> Queued -> (m < n)%nat ->
  tasks q !! m = Some tm -> id ∈ op_ids (op t) -> id ∈ op_ids (op tm) -> settled tm.
Proof.
  intros [Hc Hs _]. induction n as [n IH] using lt_wf_ind. intros t m tm id Ht Hst Hlt Hm Hid Hidm.
  destruct (co_chain _ Hc _ _ _ _ _ Ht Hid Hlt Hm Hidm) as [?|(d & td & Hd & Hle & Htd & Hidd)]; [done|].
  pose proof (Hs _ _ Ht Hst) as Hall. rewrite Forall_forall in Hall. destruct (Hall d Hd) as (td' & Htd' & r & Hr).
  assert (td' = td) as -> by congruence. pose proof (co_deps _ Hc _ _ Ht) as Hlts. rewrite Forall_forall in Hlts.
  destruct (decide (m = d)) as [->|Hne]; [exists r; congruence|].
  apply (IH d (Hlts _ Hd) td m tm id Htd); [by rewrite Hr | lia | done..].
Qed.

(** A task leaves the queue, or settles. *)
Lemma step_task_ok n st L C W q : queue_ok q -> st <> Queued ->
  (forall t, tasks q !! n = Some t -> Forall (dep_settled q) (deps t) /\ (settled t -> exists r, st = Settled r)) ->
  (forall id w, W !! id = Some w -> waiting q !! id = Some w /\ waiting_task w <> n) ->
  queue_ok (mkQueue (tails q) L C W (alter (fun t => mkTask (deps t) (op t) st) n (tasks q))).
Proof.
  intros [Hc Hs Hw] Hst Hn HW. set (q' := mkQueue _ _ _ _ _).
  assert (He : evolves q q').
  { split; [done | apply length_alter|]. intros m t Ht. simpl. rewrite (alter_lookup _ _ _ _ _ Ht). eexists. split; [done|].
    destruct (decide (m = n)) as [->|]; [|done]. split; [done|]. split; [done|]. by destruct (Hn _ Ht). }
  split.
  - by eapply evolves_chain.
  - intros m t' Ht' Hst'. apply alter_lookup_inv in Ht' as (t & Ht & ->).
    assert (Hd : Forall (dep_settled q) (deps t)) by (destruct (decide (m = n)) as [->|]; [by destruct (Hn _ Ht) | eauto]).
    destruct (decide (m = n)); simpl; (eapply Forall_impl; [exact Hd|]; intros d; by apply dep_settled_evolves).
  - intros id w Hid. destruct (HW _ _ Hid) as [Hid' Hne]. destruct (Hw _ _ Hid') as (d & b & Hb). exists d, b. simpl.
    rewrite (alter_lookup _ _ _ _ _ Hb). by destruct (decide (waiting_task w = n)).
Qed.

(** The version a request carries. *)
Definition sent_for (L : gmap string Lineage) (o : Op) : option Z :=
  match o with OpUpdate id _ b => versionToSend L id (expectedVersion b) | _ => None end.

(** What running a task changes. *)
Lemma run_task_shape n q : exists st W, st <> Queued
  /\ run_task n q = mkQueue (tails q) (lineages q) (conflicts q) W (alter (fun t => mkTask (deps t) (op t) st) n (tasks q))
  /\ (forall id w, W !! id = Some w -> waiting q !! id = Some w)
  /\ (forall id path b t, tasks q !! n = Some t -> op t = OpUpdate id path b -> forall w, W !! id = Some w -> waiting_task w <> n)
  /\ (forall t, tasks q !! n = Some t -> st = Running (sent_for (lineages q) (op t))
        \/ exists id path b c e, op t = OpUpdate id path b /\ conflicts q !! id = Some c /\ st = Settled (Rejected e)).
Proof.
  unfold run_task. destruct (tasks q !! n) as [t|] eqn:Ht.
  2:{ exists (Running None), (waiting q). split; [done|]. split; [|done]. destruct q; simpl in *. f_equal. apply list_eq. intros i. rewrite list_lookup_alter.
      destruct (decide (n = i)) as [<-|]; [by rewrite Ht | done]. }
  destruct (op t) as [id|id path b|ids] eqn:Ho; try by (exists (Running None), (waiting q); split; [done|]; split; [by destruct q|]; split; [done|];
      split; [congruence|]; intros ? [= <-]; left; by rewrite Ho).
  set (W := match waiting q !! id with Some w => if (waiting_task w =? n)%nat then delete id (waiting q) else waiting q | None => waiting q end).
  set (q' := match waiting q !! id with Some w => if (waiting_task w =? n)%nat then set_waiting (delete id (waiting q)) q else q | None => q end).
  assert (Hq : q' = set_waiting W q).
  { subst q' W. destruct (waiting q !! id) as [w|]; [destruct (_ =? _)%nat; by destruct q | by destruct q]. }
  assert (HW : forall id' w, W !! id' = Some w -> waiting q !! id' = Some w).
  { intros id' w. subst W. destruct (waiting q !! id) as [w'|]; [|done]. destruct (_ =? _)%nat; [|done]. by intros [? ?]%lookup_delete_Some. }
  assert (Hn : forall w, W !! id = Some w -> waiting_task w <> n).
  { intros w. subst W. destruct (waiting q !! id) as [w'|] eqn:Hw; [|congruence]. destruct (Nat.eqb_spec (waiting_task w') n).
    - by rewrite lookup_delete_eq.
    - congruence. }
  rewrite Hq. clearbody W. clear q' Hq. simpl.
  assert (Hu : forall id' path' b' t', Some t = Some t' -> op t' = OpUpdate id' path' b' -> forall w, W !! id' = Some w -> waiting_task w <> n).
  { intros ? ? ? ? [= <-] Heq. rewrite Ho in Heq. by injection Heq as <- <- <-. }
  destruct (conflicts q !! id) as [c|] eqn:Hc; destruct (expectedVersion b) as [e|] eqn:He; [destruct (e <? _)|..];
    (eexists _, W; split; [|split; [by destruct q | split; [done | split; [exact Hu|]]]]; [done|]; intros ? [= <-]; rewrite Ho; simpl; rewrite ?He).
  - right. by eexists _, _, _, _, _.
  - by left.
  - by left.
  - by left.
  - by left.
Qed.

Lemma run_task_ok n q : queue_ok q -> (forall t, tasks q !! n = Some t -> Forall (dep_settled q) (deps t) /\ status t = Queued) ->
  queue_ok (run_task n q).
Proof.
  intros Hq Hn. destruct (run_task_shape n q) as (st & W & Hst & -> & HW & HWn & _). apply step_task_ok; try done.
  - intros t Ht. destruct (Hn _ Ht) as [Hd Hqd]. split; [done|]. intros [r Hr]. congruence.
  - intros id w Hw. split; [auto|]. intros Heq. destruct (qo_waiting _ Hq _ _ (HW _ _ Hw)) as (d & b & Hb). rewrite Heq in Hb.
    by eapply HWn in Hb.
Qed.

Lemma start_task_ok n q : queue_ok q -> queue_ok (start_task n q).
Proof.
  intros Hq. unfold start_task. destruct (tasks q !! n) as [[d o st]|] eqn:Ht; [|done]. destruct st; try done.
  destruct (forallb _ _) eqn:Hf; [|done]. apply run_task_ok; [done|]. intros t. rewrite Ht. intros [= <-]. split; [|done].
  apply Forall_forall. intros x Hx. rewrite forallb_forall in Hf. apply is_settled_spec, Hf. by apply list_elem_of_In.
Qed.

(** The fields that recording a failure leaves alone. *)
Lemma recordFailures_shape e ids q : exists L C,
  fold_left (fun q id => recordFailure id e q) ids q = mkQueue (tails q) L C (waiting q) (tasks q)
  /\ L ⊆ lineages q.
Proof.
  revert q. induction ids as [|id ids IH]; intros q; simpl; [exists (lineages q), (conflicts q); by destruct q|].
  assert (H1 : exists L C, recordFailure id e q = mkQueue (tails q) L C (waiting q) (tasks q) /\ L ⊆ lineages q).
  { assert (Hd : delete id (lineages q) ⊆ lineages q) by apply delete_subseteq. unfold recordFailure. destruct e as [s c|]; [|exists (lineages q), (conflicts q); by destruct q].
    destruct (decide (s = 409)) as [->|Hne]; [destruct c; by eexists _, _|].
    exists (lineages q), (conflicts q). destruct q. destruct s; try done. repeat (destruct p; try done). }
  destruct H1 as (L & C & -> & H1). destruct (IH (mkQueue (tails q) L C (waiting q) (tasks q))) as (L' & C' & -> & H2).
  exists L', C'. split; [done|]. by transitivity L.
Qed.

Lemma settle_ok n r q : queue_ok q -> queue_ok (settle n r q).
Proof.
  intros Hq. unfold settle. destruct (tasks q !! n) as [[d o st]|] eqn:Ht; [|done]. destruct st as [|sent|]; try done.
  assert (Hok : forall r L C, queue_ok (mkQueue (tails q) L C (waiting q) (alter (fun t => mkTask (deps t) (op t) (Settled r)) n (tasks q)))).
  { intros r' L C. apply step_task_ok; try done.
    - intros t Ht'. split; [|by exists r']. apply (qo_started _ Hq _ _ Ht'). rewrite Ht in Ht'. by injection Ht' as <-.
    - intros id w Hw. split; [done|]. intros Heq. destruct (qo_waiting _ Hq _ _ Hw) as (d' & b & Hb). rewrite Heq in Hb. congruence. }
  destruct r as [ws|e]; [apply Hok|]. destruct (recordFailures_shape e (op_ids o) q) as (L & C & Heq & _). simpl. rewrite Heq. apply Hok.
Qed.

Lemma lookup_fold_insert (n : nat) ids (T : gmap string nat) id :
  fold_left (fun t id => <[id := n]> t) ids T !! id = if bool_decide (id ∈ ids) then Some n else T !! id.
Proof.
  revert T. induction ids as [|x ids IH]; intros T; simpl; [done|]. rewrite IH. destruct (decide (id ∈ ids)) as [Hin|Hin].
  - rewrite !bool_decide_true; [done | by right | done].
  - rewrite (bool_decide_false (id ∈ ids)) by done. destruct (decide (id = x)) as [->|Hne].
    + rewrite bool_decide_true, lookup_insert_eq by left. done.
    + rewrite bool_decide_false by (intros [?|?]%elem_of_cons; done). by rewrite lookup_insert_ne by congruence.
Qed.

(** The queue with a new task at the end, before the task runs. *)
Definition appended (o : Op) (q : Queue) : Queue :=
  let n := length (tasks q) in
  mkQueue (fold_left (fun t id => <[id := n]> t) (op_ids o) (tails q)) (lineages q) (conflicts q) (waiting q)
    (tasks q ++ [mkTask (omap (fun id => tails q !! id) (op_ids o)) o Queued]).

Lemma run_task_tails n f q : run_task n (set_tails f q) = set_tails f (run_task n q).
Proof.
  unfold run_task. simpl. destruct (tasks q !! n) as [t|]; [|done]. destruct (op t) as [|id path b|]; try done.
  destruct (waiting q !! id) as [w|]; [destruct (_ =? _)%nat|]; simpl; destruct (conflicts q !! id), (expectedVersion b); simpl; try done;
    by destruct (_ <? _).
Qed.

Lemma enqueue_eq o q : enqueue o q =
  (if bool_decide (omap (fun id => tails q !! id) (op_ids o) = []) then run_task (length (tasks q)) (appended o q) else appended o q,
   length (tasks q)).
Proof. unfold enqueue. destruct (bool_decide _); [|done]. by rewrite <- run_task_tails. Qed.

Lemma append_lookup_inv (l : list Task) x n t : (l ++ [x]) !! n = Some t -> l !! n = Some t \/ n = length l /\ t = x.
Proof.
  intros [H|[Hlt H]]%lookup_app_Some; [auto|]. right. apply list_lookup_singleton_Some in H as [H1 H2]. split; [lia | done].
Qed.

Lemma elem_deps q o d : d ∈ omap (fun id => tails q !! id) (op_ids o) <-> exists id, id ∈ op_ids o /\ tails q !! id = Some d.
Proof. apply list_elem_of_omap. Qed.

Lemma appended_ok o q : queue_ok q -> queue_ok (appended o q).
Proof.
  intros [[H1 H2 H3 H4] Hs Hw]. set (x := mkTask (omap (fun id => tails q !! id) (op_ids o)) o Queued).
  assert (Hold : forall n t, tasks q !! n = Some t -> (tasks q ++ [x]) !! n = Some t) by (intros; by apply lookup_app_l_Some).
  assert (Hnew : (tasks q ++ [x]) !! length (tasks q) = Some x) by (rewrite lookup_app_r, Nat.sub_diag by lia; done).
  split; [split|..]; simpl; fold x.
  - intros n t [Ht|[-> ->]]%append_lookup_inv; [eauto|]. apply Forall_forall. intros d (id & _ & Hd)%elem_deps.
    destruct (H2 _ _ Hd) as [(t & Ht & _) _]. by eapply lookup_lt_Some.
  - intros id m. rewrite lookup_fold_insert. case_bool_decide as Hid.
    + intros [= <-]. split; [by exists x|]. intros n t Ht%lookup_lt_Some _. rewrite length_app in Ht. simpl in Ht. lia.
    + intros Hm. destruct (H2 _ _ Hm) as [(t & Ht & Hi) Hl]. split; [eauto|].
      intros n t' [Ht'|[-> ->]]%append_lookup_inv Hi'; [eauto | done].
  - intros id n t. rewrite lookup_fold_insert. case_bool_decide as Hid; [done|]. intros Hnone [Ht|[-> ->]]%append_lookup_inv Hi; [eauto | done].
  - intros n t id m tm [Ht|[-> ->]]%append_lookup_inv Hi Hlt [Hm|[-> ->]]%append_lookup_inv Him; try lia.
    + destruct (H4 _ _ _ _ _ Ht Hi Hlt Hm Him) as [?|(d & td & ? & ? & ? & ?)]; [auto|]. right. exists d, td. auto.
    + apply lookup_lt_Some in Ht. lia.
    + destruct (tails q !! id) as [d|] eqn:Hd; [right | left; eauto]. destruct (H2 _ _ Hd) as [(td & Htd & Hid) Hl].
      exists d, td. split; [apply elem_deps; by exists id|]. eauto.
  - intros n t [Ht|[-> ->]]%append_lookup_inv Hst; [|done]. eapply Forall_impl; [by eapply Hs|].
    intros d (td & Htd & Hsd). exists td. auto.
  - intros id w Hid. destruct (Hw _ _ Hid) as (d & b & Hb). eauto.
Qed.

Lemma enqueue_ok o q : queue_ok q -> queue_ok (fst (enqueue o q)).
Proof.
  intros Hq. rewrite enqueue_eq. simpl. case_bool_decide as Hd; [|by apply appended_ok]. apply run_task_ok; [by apply appended_ok|].
  intros t Ht. apply append_lookup_inv in Ht as [Ht%lookup_lt_Some|[_ ->]]; [lia|]. simpl. rewrite Hd. done.
Qed.

Lemma drop_waiting_ok W q : (forall id w, W !! id = Some w -> waiting q !! id = Some w) -> queue_ok q -> queue_ok (set_waiting W q).
Proof.
  intros HW [Hc Hs Hw]. split; [by eapply (evolves_chain q); [split; eauto|] | done|]. intros id w Hid. by apply Hw, HW.
Qed.

Lemma merge_ok id path b b' n q : queue_ok q -> (exists d st, tasks q !! n = Some (mkTask d (OpUpdate id path b) st)) ->
  queue_ok (set_tasks (alter (fun t => mkTask (deps t) (OpUpdate id path b') (status t)) n (tasks q)) q).
Proof.
  intros [Hc Hs Hw] (d & st & Hn). set (q' := set_tasks _ _).
  assert (He : evolves q q').
  { split; [done | apply length_alter|]. intros m t Ht. simpl. rewrite (alter_lookup _ _ _ _ _ Ht). eexists. split; [done|].
    destruct (decide (m = n)) as [->|]; [|done]. rewrite Hn in Ht. by injection Ht as <-. }
  split; [by eapply evolves_chain|..].
  - intros m t' Ht' Hst. apply alter_lookup_inv in Ht' as (t & Ht & ->). assert (Hd : Forall (dep_settled q) (deps t)) by
      (apply (Hs _ _ Ht); by destruct (decide (m = n))).
    destruct (decide (m = n)); simpl; (eapply Forall_impl; [exact Hd|]; intros y; by apply dep_settled_evolves).
  - intros id' w Hid. destruct (Hw _ _ Hid) as (d' & b0 & Hb). simpl. rewrite (alter_lookup _ _ _ _ _ Hb).
    destruct (decide (waiting_task w = n)) as [<-|]; [|eauto]. rewrite Hn in Hb. injection Hb as -> -> -> -> ->. eauto.
Qed.

Lemma merges_Some q id path input n b : queue_ok q -> merges q id path input = Some (n, b) ->
  (exists d, tasks q !! n = Some (mkTask d (OpUpdate id path b) Queued))
  /\ mergeable b = true /\ mergeable input = true /\ expectedVersion b = expectedVersion input.
Proof.
  intros Hq. unfold merges, pending_body. destruct (waiting q !! id) as [w|] eqn:Hw; [|done].
  destruct (qo_waiting _ Hq _ _ Hw) as (d & b' & Hb). rewrite Hb. destruct (_ && _) eqn:H; [|done]. intros [= <- <-].
  breflect. subst. case_bool_decide; [eauto | done].
Qed.

Lemma queueIssueUpdate_ok id path input q : queue_ok q ->
  let '(q', n) := queueIssueUpdate id path input q in
  queue_ok q' /\ exists d b st, tasks q' !! n = Some (mkTask d (OpUpdate id path b) st)
    /\ fields input ⊆ fields b /\ expectedVersion b = expectedVersion input.
Proof.
  intros Hq. unfold queueIssueUpdate. destruct (merges q id path input) as [[n b]|] eqn:Hm.
  { destruct (merges_Some _ _ _ _ _ _ Hq Hm) as ((d & Hn) & _ & _ & Hv). split; [eapply merge_ok; eauto|].
    simpl. rewrite (alter_lookup _ _ _ _ _ Hn), decide_True by done. eexists _, _, _. split; [done|]. simpl.
    split; [apply map_union_subseteq_l | rewrite Hv; by destruct (expectedVersion input)]. }
  set (q0 := set_waiting (delete id (waiting q)) q). assert (Hq0 : queue_ok q0).
  { apply drop_waiting_ok; [|done]. by intros id' w [? ?]%lookup_delete_Some. }
  pose proof (enqueue_ok (OpUpdate id path input) q0 Hq0) as He. rewrite enqueue_eq in *. simpl in He |- *.
  set (n := length (tasks q)) in *. set (x := mkTask (omap (fun id => tails q !! id) [id]) (OpUpdate id path input) Queued).
  assert (Hnew : tasks (appended (OpUpdate id path input) q0) !! n = Some x) by (simpl; by rewrite lookup_app_r, Nat.sub_diag by lia).
  destruct (tails q !! id) as [m|] eqn:Htl; simpl in *; rewrite ?Htl in *; simpl in *.
  - split; [|by exists [m], input, Queued; rewrite lookup_app_r, Nat.sub_diag by lia].
    destruct He as [Hc Hs Hw]. split; [destruct Hc as [K1 K2 K3 K4]; by split | exact Hs |]. intros id' w. simpl.
    intros [[<- <-]|[Hne Hid]]%lookup_insert_Some; [|by apply Hw]. exists [m], input. cbn [waiting_task waiting_path].
    rewrite lookup_app_r, Nat.sub_diag by (unfold n; lia). by rewrite Htl.
  - split; [done|]. destruct (run_task_shape n (appended (OpUpdate id path input) q0)) as (st & W & _ & -> & _). simpl. rewrite ?Htl.
    rewrite (alter_lookup _ _ _ _ _ Hnew), decide_True by done. by eexists _, input, st.
Qed.

Lemma cleanup_ok n q : queue_ok q -> queue_ok (cleanup n q).
Proof.
  intros Hq. unfold cleanup. destruct (tasks q !! n) as [[d o st]|] eqn:Hn; [|done]. destruct st as [| |r]; try done.
  generalize (op_ids o) as ids. intros ids.
  assert (Hn' : exists t, tasks q !! n = Some t /\ settled t) by (eexists; split; [exact Hn | by exists r]). clear Hn.
  revert q Hq Hn'. induction ids as [|id ids IH]; intros q Hq (t & Hn & Hst); simpl; [done|].
  case_bool_decide as Hid; [|apply IH; eauto]. apply IH; [|eauto]. pose proof (queue_serial _ Hq) as Hser.
  destruct Hq as [[H1 H2 H3 H4] Hs Hw]. split; [split; try done | done..]; simpl.
  - intros id' m [? Hm]%lookup_delete_Some. eauto.
  - intros id' n' t' Hnone Ht' Hi. destruct (decide (id' = id)) as [->|Hne]; [|rewrite lookup_delete_ne in Hnone by done; eauto].
    destruct (H2 _ _ Hid) as [(t0 & Ht0 & Hi0) Hlast]. assert (t0 = t) as -> by congruence.
    pose proof (Hlast _ _ Ht' Hi). destruct (decide (n' = n)) as [->|]; [congruence|].
    apply (Hser n t n' t' id); try done; [|lia]. destruct Hst as [r' ->]. done.
Qed.

Lemma handle_queue_ok e w : queue_ok (queue w) -> queue_ok (queue (handle e w)).
Proof.
  intros Hq. assert (Hdel : forall ids, queue_ok (set_waiting (fold_left (fun w id => delete id w) ids (waiting (queue w))) (queue w))).
  { intros ids. apply drop_waiting_ok; [|done]. generalize (waiting (queue w)). induction ids as [|x ids IH]; intros W id v; simpl; [done|].
    intros H%IH. by apply lookup_delete_Some in H as [? ?]. }
  destruct e as [id|id path input|ids|n|n|n l|n|n|id]; cbn [handle with_queue queue].
  - apply (enqueue_ok (OpWrite id)), (Hdel [id]).
  - pose proof (queueIssueUpdate_ok id path input _ Hq) as H. destruct (queueIssueUpdate id path input (queue w)). by destruct H.
  - apply (enqueue_ok (OpBatch (unique ids))), Hdel.
  - by apply start_task_ok.
  - by apply cleanup_ok.
  - unfold serve. destruct (tasks (queue w) !! n) as [[d o [|sent|]]|]; try done. destruct (responses w !! n); [done|].
    destruct o as [id|id path b|ids]; try destruct (accepted _ _ _); try destruct (apply_effects _ _); done.
  - destruct (responses w !! n); [by apply settle_ok | done].
  - by apply settle_ok.
  - done.
Qed.

Lemma run_queue_ok l w : queue_ok (queue w) -> queue_ok (queue (run l w)).
Proof. revert w. induction l as [|e l IH]; intros w Hw; simpl; [done|]. by apply IH, handle_queue_ok. Qed.

Lemma fresh_ok srv : queue_ok (queue (fresh srv)).
Proof. split; [split|..]; simpl; intros; by simplify_map_eq. Qed.

(** The first task that has not settled runs or can start. *)
Lemma first_unsettled q : queue_ok q -> forall n t, tasks q !! n = Some t -> ~ settled t ->
  exists m t', tasks q !! m = Some t' /\ ((exists sent, status t' = Running sent)
    \/ status t' = Queued /\ forallb (is_settled q) (deps t') = true).
Proof.
  intros Hq. induction n as [n IH] using lt_wf_ind. intros t Ht Hns.
  destruct (status t) as [|sent|r] eqn:Hst; [|exists n, t; split; [done | left; by exists sent] | by destruct Hns; exists r].
  destruct (forallb (is_settled q) (deps t)) eqn:Hf; [exists n, t; split; [done | by right]|].
  apply not_true_iff_false in Hf. destruct (decide (Exists (fun d => is_settled q d = false) (deps t))) as [He|He].
  - apply Exists_exists in He as (d & Hd & Hnd). pose proof (co_deps _ (qo_chain _ Hq) _ _ Ht) as Hlt. rewrite Forall_forall in Hlt.
    specialize (Hlt _ Hd). destruct (lookup_lt_is_Some_2 (tasks q) d) as [td Htd]; [apply lookup_lt_Some in Ht; lia|].
    apply (IH d Hlt td Htd). intros Hs. apply not_true_iff_false in Hnd. apply Hnd, is_settled_spec. by exists td.
  - destruct Hf. apply forallb_forall. intros d Hd. destruct (is_settled q d) eqn:E; [done|].
    destruct He. apply Exists_exists. exists d. rewrite list_elem_of_In. done.
Qed.

(** C39 (issue_writes_serialised). Whatever is queued and however tasks, the server and other
    sessions interleave: a write is only sent once every earlier write of its issues has settled;
    an edit only joins a request that has not been sent, and the request it joins carries its
    fields and its expected version; and the queue never deadlocks: while a task is not settled,
    some task is running or can start, and starting it sends or settles it. *)
Theorem issue_writes_serialised l srv :
  let q := queue (run l (fresh srv)) in
  (forall m n tm tn id, tasks q !! m = Some tm -> tasks q !! n = Some tn -> (m < n)%nat ->
     id ∈ op_ids (op tm) -> id ∈ op_ids (op tn) -> status tn <> Queued -> settled tm)
  /\ (forall id w, waiting q !! id = Some w -> exists d b, tasks q !! waiting_task w = Some (mkTask d (OpUpdate id (waiting_path w) b) Queued))
  /\ (forall id path input, let '(q', n) := queueIssueUpdate id path input q in
       exists d b st, tasks q' !! n = Some (mkTask d (OpUpdate id path b) st)
         /\ fields input ⊆ fields b /\ expectedVersion b = expectedVersion input)
  /\ ((exists n t, tasks q !! n = Some t /\ ~ settled t) -> exists n t, tasks q !! n = Some t
       /\ ((exists sent, status t = Running sent)
           \/ status t = Queued /\ exists t', tasks (start_task n q) !! n = Some t' /\ status t' <> Queued)).
Proof.
  intros q. assert (Hq : queue_ok q) by apply run_queue_ok, fresh_ok. split; [|split; [|split]].
  - intros m n tm tn id Hm Hn Hlt Him Hin Hst. by eapply (queue_serial _ Hq n).
  - apply Hq.
  - intros id path input. pose proof (queueIssueUpdate_ok id path input q Hq) as H.
    destruct (queueIssueUpdate id path input q). by destruct H.
  - intros (n & t & Ht & Hns). destruct (first_unsettled _ Hq _ _ Ht Hns) as (m & t' & Hm & Hcase). exists m, t'. split; [done|].
    destruct Hcase as [?|[Hqd Hf]]; [auto|]. right. split; [done|]. unfold start_task. rewrite Hm. destruct t' as [d o st].
    simpl in *. subst st. rewrite Hf. destruct (run_task_shape m q) as (st & W & Hst & -> & _). simpl.
    rewrite (alter_lookup _ _ _ _ _ Hm), decide_True by done. by eexists.
Qed.

(** ** Edits over the changes of another session are refused *)

(** Every version step of the issue from [a] to [b] is this tab's. *)
Definition own (srv : Server) (id : string) (a b : Z) : Prop :=
  forall k, a <= k < b -> log srv id !! Z.to_nat k = Some true.

Definition grows (srv srv' : Server) : Prop := forall id, log srv id `prefix_of` log srv' id.

#[local] Instance grows_preorder : PreOrder grows.
Proof. split; [intros s id; done | intros s s' s'' H H' id; by transitivity (log s' id)]. Qed.

Lemma own_grows srv srv' id a b : grows srv srv' -> own srv id a b -> own srv' id a b.
Proof. intros Hg Ho k Hk. eapply prefix_lookup_Some; [by apply Ho | apply Hg]. Qed.

Lemma own_empty srv id a b : b <= a -> own srv id a b.
Proof. intros H k Hk. lia. Qed.

Lemma own_trans srv id a b c : own srv id a b -> own srv id b c -> own srv id a c.
Proof. intros H1 H2 k Hk. destruct (decide (k < b)); [apply H1 | apply H2]; lia. Qed.

Lemma log_raise mine id srv id' : log (raise mine id srv) id' = if decide (id' = id) then log srv id ++ [mine] else log srv id'.
Proof.
  unfold log, raise. destruct (decide (id' = id)) as [->|]; [by rewrite lookup_insert_eq | by rewrite lookup_insert_ne].
Qed.

Lemma grows_raise mine id srv : grows srv (raise mine id srv).
Proof. intros id'. rewrite log_raise. destruct (decide (id' = id)) as [->|]; [by eexists | done]. Qed.

Lemma version_raise mine id srv : version (raise mine id srv) id = version srv id + 1.
Proof. unfold version. rewrite log_raise, decide_True, length_app by done. simpl. lia. Qed.

Lemma own_raise id srv : own (raise true id srv) id (version srv id) (version srv id + 1).
Proof.
  intros k Hk. unfold version in Hk. replace k with (Z.of_nat (length (log srv id))) by lia.
  rewrite log_raise, decide_True, Nat2Z.id by done. by rewrite lookup_app_r, Nat.sub_diag by lia.
Qed.

Definition lineages_ok (srv : Server) (L : gmap string Lineage) : Prop :=
  forall id l, L !! id = Some l -> own srv id (lineage_from l) (lineage_to l).

(** The versions of an answer that are recorded as produced by this tab. *)
Definition version_ok (srv : Server) (id : string) (sent v : option Z) : Prop :=
  match v, sent with
  | Some v, Some s => s < v -> own srv id s v
  | Some v, None => own srv id (v - 1) v
  | None, _ => True
  end.

Fixpoint written_ok (srv : Server) (id : string) (sent : option Z) (w : Written) : Prop :=
  match w with
  | mkWritten _ v affected => version_ok srv id sent v /\
      match affected with
      | None => True
      | Some l => (fix go l := match l with [] => True | a :: r => written_ok srv (w_id a) None a /\ go r end) l
      end
  end.

Lemma recordVersion_ok srv L id sent v : lineages_ok srv L -> version_ok srv id sent v -> lineages_ok srv (recordVersion L id sent v).
Proof.
  intros HL Hv. unfold recordVersion, version_ok in *. destruct v as [v|]; [|done]. destruct sent as [s|].
  - destruct (v <=? s) eqn:Hle; [done|]. breflect. specialize (Hv Hle).
    intros id' l [[<- <-]|[_ ?]]%lookup_insert_Some; [|eauto]. destruct (L !! id) as [l|] eqn:Hl; [|done].
    destruct (lineage_to l =? s) eqn:E; [|done]. breflect. simpl. eapply own_trans; [|exact Hv]. rewrite <- E. eauto.
  - destruct (L !! id) as [l|] eqn:Hl; [destruct (v <=? lineage_to l); [done|]|];
      (intros id' l' [[<- <-]|[_ ?]]%lookup_insert_Some; [|eauto]); [|done].
    destruct (lineage_to l =? v - 1) eqn:E; [|done]. breflect. simpl. eapply own_trans; [|exact Hv]. rewrite <- E. eauto.
Qed.

Lemma recordWrite_ok srv : forall w L id sent, lineages_ok srv L -> written_ok srv id sent w -> lineages_ok srv (recordWrite L id sent w).
Proof.
  fix IH 1. intros [i v affected] L id sent HL [Hv Ha]. simpl. apply recordVersion_ok; [|done]. destruct affected as [l|]; [|done].
  revert L HL Ha. induction l as [|a r IHr]; intros L HL Ha; [done|]. destruct Ha as [Ha Hr]. apply IHr; [|done].
  destruct (truthy (w_id a)); [by apply IH | done].
Qed.

Lemma written_grows srv srv' : grows srv srv' -> forall w id sent, written_ok srv id sent w -> written_ok srv' id sent w.
Proof.
  intros Hg. fix IH 1. intros [i v affected] id sent [Hv Ha]. split.
  - unfold version_ok in *. destruct v as [v|], sent as [s|]; try done; [intros Hlt; specialize (Hv Hlt)|]; by eapply own_grows.
  - destruct affected as [l|]; [|done]. revert Ha. induction l as [|a r IHr]; [done|]. intros [Ha Hr]. split; [by apply IH | by apply IHr].
Qed.

(** *** What the server answers *)

Lemma affects_ok ids srv ws :
  let '(srv', ws') := fold_left (fun '(srv, ws) id => (raise true id srv, ws ++ [mkWritten id (Some (version (raise true id srv) id)) None])) ids (srv, ws) in
  grows srv srv' /\ exists new, ws' = ws ++ new /\ Forall (fun a => written_ok srv' (w_id a) None a) new /\ map w_id new = ids.
Proof.
  revert srv ws. induction ids as [|id ids IH]; intros srv ws; simpl; [split; [done | exists []; by rewrite app_nil_r]|].
  specialize (IH (raise true id srv) (ws ++ [mkWritten id (Some (version (raise true id srv) id)) None])).
  destruct (fold_left _ ids _) as [srv' ws']. destruct IH as (Hg & new & -> & Hnew & Hids).
  split; [by transitivity (raise true id srv); [apply grows_raise|]|].
  eexists (_ :: new). rewrite <- app_assoc. split; [done|]. split; [|by simpl; rewrite Hids]. constructor; [|done]. split; [|done]. simpl.
  eapply own_grows; [exact Hg|]. rewrite version_raise. replace (version srv id + 1 - 1) with (version srv id) by lia. apply own_raise.
Qed.

Lemma written_ok_affected srv id sent i v l : version_ok srv id sent v -> Forall (fun a => written_ok srv (w_id a) None a) l ->
  written_ok srv id sent (mkWritten i v (Some l)).
Proof. intros Hv Hl. split; [done|]. by induction Hl. Qed.

Lemma apply_effect_ok srv x :
  let '(srv', w) := apply_effect srv x in
  grows srv srv' /\ w_id w = eff_id x /\ written_ok srv' (eff_id x) (Some (version srv (eff_id x))) w
  /\ (eff_changes x = true -> written_ok srv' (eff_id x) None w).
Proof.
  unfold apply_effect. set (srv1 := if eff_changes x then raise true (eff_id x) srv else srv).
  pose proof (affects_ok (eff_affects x) srv1 []) as Ha. destruct (fold_left _ _ _) as [srv2 ws].
  destruct Ha as (Hg & new & -> & Hnew & _).
  assert (Hg1 : grows srv srv1) by (subst srv1; destruct (eff_changes x); [apply grows_raise | done]).
  split; [by transitivity srv1|]. split; [done|]. split; [|intros Hch]; (apply written_ok_affected; [|done]); simpl.
  - intros Hlt. subst srv1. destruct (eff_changes x); [|lia]. rewrite version_raise. eapply own_grows; [exact Hg | apply own_raise].
  - subst srv1. rewrite Hch, version_raise in *. eapply own_grows; [exact Hg|].
    replace (version srv (eff_id x) + 1 - 1) with (version srv (eff_id x)) by lia. apply own_raise.
Qed.

Lemma apply_effects_ok l srv :
  let '(srv', ws) := apply_effects srv l in
  grows srv srv'
  /\ (forallb eff_changes l = true -> Forall (fun w => written_ok srv' (w_id w) None w) ws).
Proof.
  revert srv. induction l as [|x l IH]; intros srv; simpl; [done|]. pose proof (apply_effect_ok srv x) as Hx.
  destruct (apply_effect srv x) as [srv1 w]. specialize (IH srv1). destruct (apply_effects srv1 l) as [srv2 ws].
  destruct Hx as (Hg & Hid & _ & Hu), IH as (Hg' & Hws). split; [by transitivity srv1|].
  intros [Hc Hall]%andb_true_iff. constructor; [|auto]. rewrite Hid. eapply written_grows; [exact Hg' | auto].
Qed.

(** *** The invariant *)

Definition answer_ok (srv : Server) (o : Op) (sent : option Z) (ws : list Written) : Prop :=
  match o with
  | OpUpdate id _ _ => Forall (written_ok srv id sent) ws
  | OpWrite id => Forall (written_ok srv id None) ws
  | OpBatch _ => Forall (fun w => written_ok srv (w_id w) None w) ws
  end.

(** A request carries the expected version of its edit, or a later one that only steps of this
    tab lead to. *)
Definition sent_ok (srv : Server) (o : Op) (sent : option Z) : Prop :=
  match o with
  | OpUpdate id _ b =>
      match expectedVersion b with
      | Some e => exists v, sent = Some v /\ e <= v /\ own srv id e v
      | None => sent = None
      end
  | _ => sent = None
  end.

Definition task_ok (srv : Server) (R : gmap nat Outcome) (n : nat) (t : Task) : Prop :=
  match status t with
  | Queued => R !! n = None
  | Running sent => sent_ok srv (op t) sent /\ match R !! n with Some (Resolved ws) => answer_ok srv (op t) sent ws | _ => True end
  | Settled _ => True
  end.

Record world_ok (w : World) : Prop := {
  wo_queue : queue_ok (queue w);
  wo_lineages : lineages_ok (server w) (lineages (queue w));
  wo_tasks : forall n t, tasks (queue w) !! n = Some t -> task_ok (server w) (responses w) n t;
  wo_fresh : forall n, (length (tasks (queue w)) <= n)%nat -> responses w !! n = None }.

Lemma sent_for_ok srv L o : lineages_ok srv L -> sent_ok srv o (sent_for L o).
Proof.
  intros HL. destruct o as [id|id path b|ids]; simpl; try done. destruct (expectedVersion b) as [e|]; simpl; [|done].
  destruct (L !! id) as [l|] eqn:Hl; [|exists e; split; [done|]; split; [lia | apply own_empty; lia]].
  destruct (_ && _) eqn:E; [|exists e; split; [done|]; split; [lia | apply own_empty; lia]]. breflect.
  exists (lineage_to l). split; [done|]. split; [lia|]. intros k Hk. apply (HL _ _ Hl). lia.
Qed.

Lemma sent_grows srv srv' o sent : grows srv srv' -> sent_ok srv o sent -> sent_ok srv' o sent.
Proof.
  intros Hg. destruct o as [|id path b|]; simpl; try done. destruct (expectedVersion b); [|done].
  intros (v & -> & Hle & Ho). exists v. split; [done|]. split; [done|]. by eapply own_grows.
Qed.

Lemma answer_grows srv srv' o sent ws : grows srv srv' -> answer_ok srv o sent ws -> answer_ok srv' o sent ws.
Proof.
  intros Hg. destruct o; simpl; (intros H; eapply Forall_impl; [exact H|]; simpl; intros w; by apply written_grows).
Qed.

Lemma world_grows q srv srv' R : grows srv srv' -> world_ok (mkWorld q srv R) -> world_ok (mkWorld q srv' R).
Proof.
  intros Hg [H1 H2 H3 H4]. split; simpl in *; try done.
  - intros id l Hl. by eapply own_grows; eauto.
  - intros n t Ht. specialize (H3 _ _ Ht). unfold task_ok in *. destruct (status t); try done. destruct H3 as [Hs Ha].
    split; [by eapply sent_grows|]. destruct (R !! n) as [[ws|]|]; try done. by eapply answer_grows.
Qed.

(** A step of the queue that sets the status of one task. *)
Lemma world_status n st q q' srv R : world_ok (mkWorld q srv R) -> queue_ok q' -> lineages_ok srv (lineages q') ->
  tasks q' = alter (fun t => mkTask (deps t) (op t) st) n (tasks q) ->
  (forall t, tasks q !! n = Some t -> (exists r, st = Settled r) \/ R !! n = None /\ exists sent, st = Running sent /\ sent_ok srv (op t) sent) ->
  world_ok (mkWorld q' srv R).
Proof.
  intros [H1 H2 H3 H4] Hq HL Ht Hst. split; simpl in *; try done.
  - rewrite Ht. intros m t' (t & Hm & ->)%alter_lookup_inv. destruct (decide (m = n)) as [->|]; [|by apply H3].
    unfold task_ok. simpl. destruct (Hst _ Hm) as [[r ->]|[Hn (sent & -> & Hs)]]; [done|]. by rewrite Hn.
  - rewrite Ht, length_alter. done.
Qed.

Lemma world_run_task n q srv R : world_ok (mkWorld q srv R) -> queue_ok (run_task n q) ->
  (forall t, tasks q !! n = Some t -> status t = Queued) -> world_ok (mkWorld (run_task n q) srv R).
Proof.
  intros Hw Hq Hn. destruct (run_task_shape n q) as (st & W & _ & Heq & _ & _ & Hst). rewrite Heq in *.
  eapply world_status; [exact Hw | exact Hq | apply Hw | done|]. intros t Ht.
  destruct (Hst _ Ht) as [-> |(id & path & b & c & e & _ & _ & ->)]; [right | left; eauto]. split.
  - pose proof (wo_tasks _ Hw _ _ Ht) as H. unfold task_ok in H. by rewrite (Hn _ Ht) in H.
  - eexists. split; [done|]. apply sent_for_ok, Hw.
Qed.

Lemma world_append o q srv R : world_ok (mkWorld q srv R) -> world_ok (mkWorld (appended o q) srv R).
Proof.
  intros [H1 H2 H3 H4]. split; simpl in *; [by apply appended_ok | done|..].
  - intros n t [Ht|[-> ->]]%append_lookup_inv; [by apply H3 | by apply H4].
  - intros n. rewrite length_app. simpl. intros. apply H4. lia.
Qed.

Lemma world_enqueue o q srv R : world_ok (mkWorld q srv R) -> world_ok (mkWorld (fst (enqueue o q)) srv R).
Proof.
  intros Hw. pose proof (enqueue_ok o q (wo_queue _ Hw)) as Hq. pose proof (world_append o _ _ _ Hw) as Ha. rewrite enqueue_eq in *.
  cbn [fst] in *. destruct (bool_decide _); [|done]. apply world_run_task; [done..|].
  intros t [Ht%lookup_lt_Some|[_ ->]]%append_lookup_inv; [lia | done].
Qed.

(** A step that keeps the statuses of the tasks that run and adds no lineage. *)
Lemma world_tasks q q' srv R : world_ok (mkWorld q srv R) -> queue_ok q' -> lineages q' = lineages q -> length (tasks q') = length (tasks q) ->
  (forall n t', tasks q' !! n = Some t' -> exists t, tasks q !! n = Some t /\ status t' = status t /\ (status t = Queued \/ op t' = op t)) ->
  world_ok (mkWorld q' srv R).
Proof.
  intros [H1 H2 H3 H4] Hq HL Hlen Ht. split; simpl in *; [done | by rewrite HL| | by rewrite Hlen].
  intros n t' Ht'. destruct (Ht _ _ Ht') as (t & Hn & Hs & Ho). specialize (H3 _ _ Hn). unfold task_ok in *. rewrite Hs.
  destruct Ho as [Ho|Ho]; [by rewrite Ho in * | by rewrite Ho].
Qed.

Lemma world_settle n r q srv R : world_ok (mkWorld q srv R) ->
  (forall ws, r = Resolved ws -> R !! n = Some r) -> world_ok (mkWorld (settle n r q) srv R).
Proof.
  intros Hw Hr. pose proof (settle_ok n r q (wo_queue _ Hw)) as Hq. unfold settle in *.
  destruct (tasks q !! n) as [[d o st]|] eqn:Hn; [|done]. destruct st as [|sent|]; try done.
  pose proof (wo_tasks _ Hw _ _ Hn) as Hok. pose proof (wo_lineages _ Hw) as HL. simpl in Hok, HL. destruct r as [ws|e].
  - eapply world_status; [exact Hw | exact Hq | | done | eauto]. simpl.
    unfold task_ok in Hok. simpl in Hok. rewrite (Hr _ eq_refl) in Hok. destruct Hok as [_ Hok]. destruct o as [id|id path b|ids]; simpl in Hok.
    + destruct Hok; [done|]. by apply recordWrite_ok.
    + destruct Hok; [done|]. by apply recordWrite_ok.
    + clear - Hok HL. revert HL. generalize (lineages q). induction Hok as [|x ws Hx Hws IH]; intros L HL; simpl; [done|].
      apply IH. destruct (truthy (w_id x)); [by apply recordWrite_ok | done].
  - destruct (recordFailures_shape e (op_ids o) q) as (L & C & Heq & Hsub). simpl in *. rewrite Heq in *.
    eapply world_status; [exact Hw | exact Hq | | done | eauto]. simpl. intros id l Hl. apply HL. by eapply lookup_weaken.
Qed.

(** An answer to a request without a version names a version that the request produced. *)
Definition honest_event (w : World) (e : Event) : bool :=
  match e with
  | EServe n l => match tasks (queue w) !! n with Some (mkTask _ o (Running None)) => forallb eff_changes (effects_of o l) | _ => true end
  | _ => true
  end.

Fixpoint honest_run (l : list Event) (w : World) : bool :=
  match l with [] => true | e :: r => honest_event w e && honest_run r (handle e w) end.

Lemma single_effect_ok srv id (l : list Effect) :
  let l' := map (fun x => mkEffect id (eff_changes x) (eff_affects x)) (take 1 l) in
  let '(srv', ws) := apply_effects srv l' in
  grows srv srv' /\ Forall (written_ok srv' id (Some (version srv id))) ws
  /\ (forallb eff_changes l' = true -> Forall (written_ok srv' id None) ws).
Proof.
  destruct l as [|x l]; simpl; [done|]. set (y := mkEffect _ _ _). pose proof (apply_effect_ok srv y) as H.
  destruct (apply_effect srv y) as [srv' w]. destruct H as (Hg & _ & Hv & Hu). split; [done|]. split; [by constructor|].
  rewrite andb_true_r. intros Hc. constructor; [auto | done].
Qed.

Lemma serve_ok n l w : honest_event w (EServe n l) = true -> world_ok w -> world_ok (serve n l w).
Proof.
  intros Hh Hw. unfold serve. simpl in Hh. destruct (tasks (queue w) !! n) as [[d o st]|] eqn:Hn; [|done].
  destruct st as [|sent|]; try done. destruct (responses w !! n) eqn:Hr; [done|].
  assert (Hlen : (n < length (tasks (queue w)))%nat) by (by eapply lookup_lt_Some).
  assert (Hok : forall srv' r, grows (server w) srv' -> (forall ws, r = Resolved ws -> answer_ok srv' o sent ws) ->
    world_ok (mkWorld (queue w) srv' (<[n := r]> (responses w)))).
  { intros srv' r Hg Ha. destruct (world_grows (queue w) (server w) srv' (responses w) Hg) as [H1 H2 H3 H4]; [by destruct w|].
    split; simpl in *; try done.
    - intros m t Ht. specialize (H3 _ _ Ht). unfold task_ok in *. destruct (decide (m = n)) as [->|Hne].
      + rewrite Hn in Ht. injection Ht as <-. simpl in *. split; [by destruct H3|]. rewrite lookup_insert_eq. destruct r; [auto | done].
      + by rewrite lookup_insert_ne by done.
    - intros m Hm. rewrite lookup_insert_ne by lia. auto. }
  pose proof (wo_tasks _ Hw _ _ Hn) as [Hs _]. simpl in Hs. destruct o as [id|id path b|ids].
  - simpl in Hs. subst sent. pose proof (single_effect_ok (server w) id l) as H. cbn [effects_of] in *.
    destruct (apply_effects (server w) _) as [srv' ws]. destruct H as (Hg & _ & Hu). apply Hok; [done|]. intros ws' [= <-]. exact (Hu Hh).
  - destruct (accepted (server w) id sent) eqn:Hacc; [|by apply Hok].
    pose proof (single_effect_ok (server w) id l) as H. cbn [effects_of] in *. destruct (apply_effects (server w) _) as [srv' ws].
    destruct H as (Hg & Hv & Hu). apply Hok; [done|]. intros ws' [= <-]. simpl. destruct sent as [v|]; [|exact (Hu Hh)].
    simpl in Hacc. breflect. by subst v.
  - simpl in Hs. subst sent. cbn [effects_of] in *. pose proof (apply_effects_ok l (server w)) as H.
    destruct (apply_effects (server w) l) as [srv' ws]. destruct H as (Hg & Hu). apply Hok; [done|]. intros ws' [= <-]. simpl. auto.
Qed.

Lemma cleanup_shape n q : tasks (cleanup n q) = tasks q /\ lineages (cleanup n q) = lineages q.
Proof.
  unfold cleanup. destruct (tasks q !! n) as [[d o [| |r]]|]; try done. generalize (op_ids o). intros ids.
  revert q. induction ids as [|id ids IH]; intros q; simpl; [done|]. case_bool_decide; [|apply IH].
  destruct (IH (set_conflicts (delete id (conflicts q)) (set_tails (delete id) q))) as [-> ->]. done.
Qed.

Lemma handle_world_ok e w : honest_event w e = true -> world_ok w -> world_ok (handle e w).
Proof.
  intros Hh Hw. pose proof (handle_queue_ok e w (wo_queue _ Hw)) as Hq. destruct w as [q srv R].
  assert (Hdel : forall W, queue_ok (set_waiting W q) -> world_ok (mkWorld (set_waiting W q) srv R)).
  { intros W HW. apply (world_tasks q); try done. intros n t Ht. eauto. }
  assert (Hfold : forall ids, queue_ok (set_waiting (fold_left (fun w id => delete id w) ids (waiting q)) q)).
  { intros ids. apply drop_waiting_ok; [|apply Hw]. generalize (waiting q). induction ids as [|x ids IH]; intros W id v; simpl; [done|].
    intros H%IH. by apply lookup_delete_Some in H as [? ?]. }
  destruct e as [id|id path input|ids|n|n|n l|n|n|id]; cbn [handle with_queue queue server responses] in *.
  - apply (world_enqueue (OpWrite id)), Hdel, (Hfold [id]).
  - unfold queueIssueUpdate in *. destruct (merges q id path input) as [[n b]|] eqn:Hm.
    + destruct (merges_Some _ _ _ _ _ _ (wo_queue _ Hw) Hm) as ((d & Hn) & _). eapply (world_tasks q); [done.. | apply length_alter|].
      intros m t' (t & Ht & ->)%alter_lookup_inv. exists t. destruct (decide (m = n)) as [->|]; [|eauto].
      simpl in Hn. rewrite Hn in Ht. injection Ht as <-. eauto.
    + pose proof (world_enqueue (OpUpdate id path input) _ _ _ (Hdel _ (Hfold [id]))) as He. simpl fold_left in He. cbv zeta in Hq |- *.
      destruct (enqueue _ (set_waiting _ q)) as [q' n]. simpl in He |- *. destruct (isSome _); [|done].
      eapply (world_tasks q'); [exact He | exact Hq | done | done|]. eauto.
  - apply (world_enqueue (OpBatch (unique ids))), Hdel, Hfold.
  - unfold start_task in *. destruct (tasks q !! n) as [[d o [| |]]|] eqn:Hn; try done. destruct (forallb _ _); [|done].
    apply world_run_task; [done..|]. intros t. rewrite Hn. by intros [= <-].
  - destruct (cleanup_shape n q) as [Ht HL]. eapply (world_tasks q); [done | done | done | by rewrite Ht|]. rewrite Ht. eauto.
  - by apply serve_ok.
  - destruct (R !! n) as [r|] eqn:Hr; [|done]. apply world_settle; [done|]. by intros ws ->.
  - by apply world_settle.
  - eapply world_grows; [apply grows_raise | done].
Qed.

Lemma run_world_ok l w : honest_run l w = true -> world_ok w -> world_ok (run l w).
Proof.
  revert w. induction l as [|e l IH]; intros w Hh Hw; simpl in *; [done|]. apply andb_true_iff in Hh as [H1 H2].
  by apply IH, handle_world_ok.
Qed.

Lemma fresh_world_ok srv : world_ok (fresh srv).
Proof. split; simpl; [exact (fresh_ok srv)|..]; intros; by simplify_map_eq. Qed.

(** When another session has changed an issue since the version an
    edit was made on, the server refuses the edit and nothing changes, whatever writes of this tab
    are queued, merged, answered, lost or in flight: the queue never replaces an expected version
    with one that hides a change it did not make.  (The answers to requests without a version
    report versions those requests produced.) *)
Theorem foreign_changes_refused l srv n d id path b sent e k :
  let w := run l (fresh srv) in
  honest_run l (fresh srv) = true ->
  tasks (queue w) !! n = Some (mkTask d (OpUpdate id path b) (Running sent)) -> responses w !! n = None ->
  expectedVersion b = Some e -> e <= k -> log (server w) id !! Z.to_nat k = Some false ->
  forall effects,
  responses (serve n effects w) !! n = Some (Rejected (ApiError 409 (Some (version (server w) id))))
  /\ server (serve n effects w) = server w.
Proof.
  intros w Hh Hn Hr He Hk Hlog effects. assert (Hw : world_ok w) by (apply run_world_ok; [done | apply fresh_world_ok]).
  pose proof (wo_tasks _ Hw _ _ Hn) as [Hs _]. simpl in Hs. rewrite He in Hs. destruct Hs as (v & -> & Hle & Ho).
  unfold serve. rewrite Hn, Hr. simpl. destruct (v =? version (server w) id) eqn:Hv; [|simpl; by rewrite lookup_insert_eq].
  breflect. exfalso. assert (Hlt : (Z.to_nat k < length (log (server w) id))%nat) by (by eapply lookup_lt_Some).
  destruct (decide (0 <= k)); [|by rewrite (Ho k) in Hlog by (unfold version in Hv; lia)].
  rewrite (Ho k) in Hlog; [done|]. unfold version in Hv. lia.
Qed.

Lemma foreign_changes_refused_witness :
  let edit := mkInput (Some 1) None None ∅ in
  let l := [EUpdate "i" "p" edit; EServe 0 [mkEffect "i" true []]; EAnswer 0; ECleanup 0; EForeign "i"; EUpdate "i" "p" edit] in
  let w := run l (fresh {["i" := [false]]}) in
  map status (tasks (queue w)) = [Settled (Resolved [mkWritten "i" (Some 2) None]); Running (Some 2)]
  /\ responses (serve 1 [mkEffect "i" true []] w) !! 1%nat = Some (Rejected (ApiError 409 (Some 3))).
Proof.
  intros edit l w. split; [vm_compute; reflexivity|].
  refine (proj1 (foreign_changes_refused l {["i" := [false]]} 1 [] "i" "p" edit (Some 2) 1 2 _ _ _ _ _ _ _));
    first [lia | vm_compute; reflexivity].
Defined.

(** A batch write that repeats the stored values answers with a version another session made.
    It is recorded as this tab's, and an edit made before that change is then accepted. *)
Lemma unchanged_write_hides_change :
  let l := [EBatch ["i"]; EServe 0 [mkEffect "i" false []]; EAnswer 0; ECleanup 0; EUpdate "i" "p" (mkInput (Some 1) None None ∅)] in
  let w := run l (fresh {["i" := [false; false]]}) in
  map status (tasks (queue w)) = [Settled (Resolved [mkWritten "i" (Some 2) None]); Running (Some 2)]
  /\ accepted (server w) "i" (Some 2) = true /\ log (server w) "i" !! 1%nat = Some false.
Proof. vm_compute. done. Qed.

(** The answer to a write of [i] that also raised [p] arrives before the answer to an earlier
    write of [p]: the version recorded for [p] goes back, and the next edit is refused although no
    other session wrote. *)
Lemma late_answer_forgets_version :
  let edit := mkInput (Some 1) None None ∅ in
  let l := [EUpdate "p" "p" edit; EUpdate "i" "p" edit; EServe 0 [mkEffect "p" true []]; EServe 1 [mkEffect "i" true ["p"]];
            EAnswer 1; EAnswer 0; ECleanup 0; EUpdate "p" "p" edit] in
  let w := run l (fresh {["p" := [false]; "i" := [false]]}) in
  lineages (queue w) !! "p" = Some (mkLineage 1 2) /\ version (server w) "p" = 3 /\ accepted (server w) "p" (Some 2) = false
  /\ log (server w) "p" = [false; true; true].
Proof. vm_compute. done. Qed.

(** ** Edits over this tab's own changes are accepted *)

(** No request in flight other than task [n] writes the issue. *)
Definition idle_except (q : Queue) (n : nat) (id : string) : bool :=
  forallb (fun '(m, t) => (m =? n)%nat || match status t with Running _ => negb (bool_decide (id ∈ op_ids (op t))) | _ => true end)
    (imap pair (tasks q)).

(** The issues a write changes besides its own have no other request in flight. *)
Definition clear_effects (q : Queue) (n : nat) (l : list Effect) : bool :=
  match tasks q !! n with
  | Some (mkTask _ o (Running sent)) =>
      forallb (fun x => negb (bool_decide (eff_id x ∈ eff_affects x)) && forallb (fun id => truthy id && idle_except q n id) (eff_affects x)
                 && match o with OpBatch _ => truthy (eff_id x) && idle_except q n (eff_id x) | _ => true end)
        (effects_of o l)
  | _ => true
  end.

(** Only this tab writes, each request is answered when the server has processed it, and edits
    are made on versions of the issue since the start. *)
Fixpoint orderly (srv0 : Server) (l : list Event) (w : World) : bool :=
  match l with
  | [] => true
  | EServe n x :: EAnswer m :: r =>
      (n =? m)%nat && honest_event w (EServe n x) && clear_effects (queue w) n x && orderly srv0 r (handle (EAnswer n) (handle (EServe n x) w))
  | e :: r =>
      match e with
      | EServe _ _ | EAnswer _ | ELost _ | EForeign _ => false
      | EUpdate id _ i => match expectedVersion i with Some v => (version srv0 id <=? v) && (v <=? version (server w) id) | None => true end
      | _ => true
      end && orderly srv0 r (handle e w)
  end.

(** The recorded run reaches from the first version to the current one. *)
Definition tracked (srv0 srv : Server) (L : gmap string Lineage) (id : string) : Prop :=
  match L !! id with
  | Some l => lineage_from l = version srv0 id /\ lineage_to l = version srv id
  | None => version srv id = version srv0 id
  end.

Lemma recordVersion_ne L id sent v id' : id' <> id -> recordVersion L id sent v !! id' = L !! id'.
Proof.
  intros Hne. unfold recordVersion. destruct v as [v|]; [|done]. destruct sent as [s|].
  - destruct (v <=? s); [done | by rewrite lookup_insert_ne].
  - destruct (L !! id); [destruct (v <=? _); [done|]|]; by rewrite lookup_insert_ne.
Qed.

Lemma version_mono srv srv' id : grows srv srv' -> version srv id <= version srv' id.
Proof. intros Hg. unfold version. apply inj_le. apply prefix_length, Hg. Qed.

(** Recording the version a write of this tab produced. *)
Lemma record_raised srv0 srv srv' L L' id sent : tracked srv0 srv L id -> L' !! id = L !! id -> version srv' id = version srv id + 1 ->
  (sent = None \/ sent = Some (version srv id)) -> tracked srv0 srv' (recordVersion L' id sent (Some (version srv' id))) id.
Proof.
  unfold tracked, recordVersion. intros Ht HL Hv Hs. rewrite HL. destruct Hs as [-> | ->].
  - destruct (L !! id) as [l|].
    + destruct Ht as [Hf Hto]. destruct (_ <=? _) eqn:E1; breflect; [lia|]. rewrite lookup_insert_eq.
      destruct (_ =? _) eqn:E2; breflect; [done | lia].
    + rewrite lookup_insert_eq. simpl. lia.
  - destruct (_ <=? _) eqn:E1; breflect; [lia|]. rewrite lookup_insert_eq. destruct (L !! id) as [l|]; [|simpl; lia].
    destruct Ht as [Hf Hto]. destruct (_ =? _) eqn:E2; breflect; [done | lia].
Qed.

Lemma recordWrite_affected L id sent i v ws : recordWrite L id sent (mkWritten i v (Some ws)) =
  recordVersion (fold_left (fun L a => if truthy (w_id a) then recordWrite L (w_id a) None a else L) ws L) id sent v.
Proof. simpl. f_equal. revert L. induction ws as [|a ws IH]; intros L; simpl; [done|]. apply IH. Qed.

Lemma affects_tracked srv0 ids srv ws L : forallb truthy ids = true ->
  let '(srv', ws') := fold_left (fun '(srv, ws) id => (raise true id srv, ws ++ [mkWritten id (Some (version (raise true id srv) id)) None])) ids (srv, ws) in
  exists new, ws' = ws ++ new /\
    let L' := fold_left (fun L a => if truthy (w_id a) then recordWrite L (w_id a) None a else L) new L in
    (forall id, id ∉ ids -> version srv' id = version srv id /\ L' !! id = L !! id)
    /\ (forall id, tracked srv0 srv L id -> tracked srv0 srv' L' id).
Proof.
  revert srv ws L. induction ids as [|x ids IH]; intros srv ws L Ht; simpl in *; [exists []; by rewrite app_nil_r|].
  apply andb_true_iff in Ht as [Hx Ht]. set (a := mkWritten x (Some (version (raise true x srv) x)) None).
  assert (Ha : recordWrite L x None a = recordVersion L x None (Some (version (raise true x srv) x))) by done.
  specialize (IH (raise true x srv) (ws ++ [a]) (recordWrite L x None a) Ht).
  destruct (fold_left _ ids _) as [srv' ws']. destruct IH as (new & -> & Hout & Htr). exists (a :: new). rewrite <- app_assoc.
  split; [done|]. cbn [fold_left w_id a]. rewrite Hx. split.
  - intros id [Hne Hni]%not_elem_of_cons. destruct (Hout id Hni) as [-> ->]. rewrite Ha, recordVersion_ne by done.
    split; [|done]. unfold version. by rewrite log_raise, decide_False.
  - intros id Hid. apply Htr. destruct (decide (id = x)) as [->|Hne].
    + rewrite Ha. eapply record_raised; [exact Hid | done | apply version_raise | by left].
    + revert Hid. unfold tracked, version. rewrite Ha, recordVersion_ne by done. by rewrite log_raise, decide_False.
Qed.

(** Recording an answer keeps track of every issue the write raised. *)
Lemma effect_tracked srv0 srv x L sent : eff_id x ∉ eff_affects x -> forallb truthy (eff_affects x) = true ->
  (sent = None /\ eff_changes x = true \/ sent = Some (version srv (eff_id x))) ->
  let '(srv', w) := apply_effect srv x in
  (forall id, tracked srv0 srv L id -> tracked srv0 srv' (recordWrite L (eff_id x) sent w) id)
  /\ (forall id, id <> eff_id x -> id ∉ eff_affects x -> version srv' id = version srv id).
Proof.
  intros Hni Ht Hs. unfold apply_effect. set (srv1 := if eff_changes x then raise true (eff_id x) srv else srv).
  pose proof (affects_tracked srv0 (eff_affects x) srv1 [] L Ht) as Ha. destruct (fold_left _ _ _) as [srv2 ws].
  destruct Ha as (new & -> & Hout & Htr). rewrite app_nil_l. destruct (Hout _ Hni) as [Hv2 HL2].
  assert (Hother : forall id, id <> eff_id x -> version srv1 id = version srv id).
  { intros id Hne. subst srv1. destruct (eff_changes x); [|done]. unfold version. by rewrite log_raise, decide_False. }
  split; [|intros id Hne Hid; rewrite <- (Hother id Hne); by apply Hout].
  intros id Hid. rewrite recordWrite_affected. destruct (decide (id = eff_id x)) as [->|Hne].
  - rewrite <- Hv2. subst srv1. destruct (eff_changes x).
    + eapply record_raised; [exact Hid | exact HL2 | rewrite Hv2; apply version_raise | destruct Hs as [[-> _]| ->]; auto].
    + destruct Hs as [[_ ?]| ->]; [done|]. rewrite Hv2. unfold recordVersion. rewrite Z.leb_refl.
      unfold tracked in *. by rewrite HL2, Hv2.
  - unfold tracked. rewrite recordVersion_ne by done. apply Htr. unfold tracked. by rewrite (Hother id Hne).
Qed.

Lemma effects_tracked srv0 l srv L :
  Forall (fun x => (eff_id x ∉ eff_affects x) /\ forallb truthy (eff_affects x) = true /\ eff_changes x = true /\ truthy (eff_id x) = true) l ->
  let '(srv', ws) := apply_effects srv l in
  (forall id, tracked srv0 srv L id ->
     tracked srv0 srv' (fold_left (fun L w => if truthy (w_id w) then recordWrite L (w_id w) None w else L) ws L) id)
  /\ (forall id, Forall (fun x => id <> eff_id x /\ id ∉ eff_affects x) l -> version srv' id = version srv id).
Proof.
  intros Hl. revert srv L. induction Hl as [|x l (H1 & H2 & H3 & H4) _ IH]; intros srv L; simpl; [done|].
  pose proof (effect_tracked srv0 srv x L None H1 H2 (or_introl (conj eq_refl H3))) as He.
  assert (Hwid : w_id (snd (apply_effect srv x)) = eff_id x) by (unfold apply_effect; by destruct (fold_left _ _ _)).
  destruct (apply_effect srv x) as [srv1 w]. simpl in Hwid. specialize (IH srv1 (recordWrite L (w_id w) None w)).
  destruct (apply_effects srv1 l) as [srv2 ws]. destruct He as [He1 He2], IH as [IH1 IH2]. rewrite Hwid in *. simpl. rewrite Hwid, H4.
  split; [auto|]. intros id Hid. inversion Hid as [|? ? [? ?] ?]; subst. rewrite IH2 by done. by apply He2.
Qed.

(** *** The invariant of undisturbed runs *)

Definition smooth_task (srv0 srv : Server) (R : gmap nat Outcome) (n : nat) (t : Task) : Prop :=
  match op t with
  | OpUpdate id _ b => forall e, expectedVersion b = Some e -> version srv0 id <= e <= version srv id
  | _ => True
  end
  /\ match status t with
     | Queued => True
     | Running sent => R !! n = None /\ match op t with OpUpdate id _ _ => accepted srv id sent = true | _ => True end
     | Settled r => exists ws, r = Resolved ws
     end.

Record smooth (srv0 : Server) (w : World) : Prop := {
  sm_world : world_ok w;
  sm_conflicts : conflicts (queue w) = ∅;
  sm_tracked : forall id, tracked srv0 (server w) (lineages (queue w)) id;
  sm_tasks : forall n t, tasks (queue w) !! n = Some t -> smooth_task srv0 (server w) (responses w) n t }.

Lemma sent_for_accepted srv0 srv L id b : tracked srv0 srv L id ->
  (forall e, expectedVersion b = Some e -> version srv0 id <= e <= version srv id) ->
  accepted srv id (versionToSend L id (expectedVersion b)) = true.
Proof.
  unfold tracked, versionToSend. intros Ht Hb. destruct (expectedVersion b) as [e|]; [|done]. specialize (Hb e eq_refl). simpl.
  destruct (L !! id) as [l|]; [|apply Z.eqb_eq; lia]. destruct Ht as [Hf Hto].
  destruct (lineage_from l <=? e) eqn:E1, (e <? lineage_to l) eqn:E2; breflect; simpl; apply Z.eqb_eq; lia.
Qed.

Lemma smooth_run_task srv0 n q srv R : smooth srv0 (mkWorld q srv R) -> world_ok (mkWorld (run_task n q) srv R) ->
  (forall t, tasks q !! n = Some t -> status t = Queued) -> smooth srv0 (mkWorld (run_task n q) srv R).
Proof.
  intros [H1 H2 H3 H4] Hw Hn. destruct (run_task_shape n q) as (st & W & _ & Heq & _ & _ & Hst). rewrite Heq in *.
  split; simpl in *; try done. intros m t' (t & Ht & ->)%alter_lookup_inv. destruct (decide (m = n)) as [->|]; [|by apply H4].
  destruct (H4 _ _ Ht) as [Hb _]. split; [done|]. simpl. destruct (Hst _ Ht) as [-> |(id & path & b & c & e & _ & Hc & _)].
  - split; [|destruct (op t) as [|id path b|]; simpl; try done; by apply (sent_for_accepted srv0)].
    pose proof (wo_tasks _ H1 _ _ Ht) as H. unfold task_ok in H. by rewrite (Hn _ Ht) in H.
  - rewrite H2 in Hc. by rewrite lookup_empty in Hc.
Qed.

(** A step that leaves versions and conflicts alone and at most replaces queued edits. *)
Lemma smooth_tasks srv0 q q' srv R : smooth srv0 (mkWorld q srv R) -> world_ok (mkWorld q' srv R) ->
  lineages q' = lineages q -> conflicts q' ⊆ conflicts q ->
  (forall n t', tasks q' !! n = Some t' -> tasks q !! n = Some t' \/ smooth_task srv0 srv R n t') ->
  smooth srv0 (mkWorld q' srv R).
Proof.
  intros [H1 H2 H3 H4] Hw HL HC Ht. split; simpl in *; [done | | by rewrite HL|].
  - rewrite H2 in HC. apply map_empty. intros id. destruct (conflicts q' !! id) eqn:E; [|done].
    by apply (lookup_weaken _ _ _ _ E) in HC.
  - intros n t' Ht'. destruct (Ht _ _ Ht'); [by apply H4 | done].
Qed.

Lemma smooth_enqueue srv0 o q srv R : smooth srv0 (mkWorld q srv R) ->
  match o with OpUpdate id _ b => forall e, expectedVersion b = Some e -> version srv0 id <= e <= version srv id | _ => True end ->
  smooth srv0 (mkWorld (fst (enqueue o q)) srv R).
Proof.
  intros Hs Ho. pose proof (world_enqueue o _ _ _ (sm_world _ _ Hs)) as Hw. pose proof (world_append o _ _ _ (sm_world _ _ Hs)) as Ha.
  assert (Hsa : smooth srv0 (mkWorld (appended o q) srv R)).
  { apply (smooth_tasks _ q); try done. intros n t [Ht|[_ ->]]%append_lookup_inv; [by left | by right]. }
  rewrite enqueue_eq in *. cbn [fst] in *. destruct (bool_decide _); [|done]. apply smooth_run_task; [done..|].
  intros t [Ht%lookup_lt_Some|[_ ->]]%append_lookup_inv; [lia | done].
Qed.

Lemma idle_except_spec q n id m t : idle_except q n id = true -> tasks q !! m = Some t -> m <> n ->
  forall sent, status t = Running sent -> id ∉ op_ids (op t).
Proof.
  intros Hi Hm Hne sent Hst. unfold idle_except in Hi. rewrite forallb_forall in Hi.
  assert (Hin : In (m, t) (imap pair (tasks q))).
  { apply list_elem_of_In, list_elem_of_lookup. exists m. by rewrite list_lookup_imap, Hm. }
  specialize (Hi _ Hin). simpl in Hi. rewrite Hst in Hi. apply orb_true_iff in Hi as [Hi|Hi]; breflect; [done|].
  by case_bool_decide.
Qed.

(** The answer to a request that carries the current version. *)
Lemma answer_tracked srv0 n d o sent l q srv R : smooth srv0 (mkWorld q srv R) ->
  tasks q !! n = Some (mkTask d o (Running sent)) -> honest_event (mkWorld q srv R) (EServe n l) = true -> clear_effects q n l = true ->
  let '(srv', ws) := apply_effects srv (effects_of o l) in
  let L := match o with
           | OpWrite id => match ws with w :: _ => recordWrite (lineages q) id None w | [] => lineages q end
           | OpUpdate id _ _ => match ws with w :: _ => recordWrite (lineages q) id sent w | [] => lineages q end
           | OpBatch _ => fold_left (fun L w => if truthy (w_id w) then recordWrite L (w_id w) None w else L) ws (lineages q)
           end in
  (forall id, tracked srv0 srv' L id)
  /\ (forall id, id ∉ op_ids o -> (forall x, x ∈ effects_of o l -> (id ∉ eff_affects x) /\ (match o with OpBatch _ => id <> eff_id x | _ => True end)) ->
        version srv' id = version srv id).
Proof.
  intros Hs Hn Hh Hc. unfold clear_effects in Hc. simpl in Hh. rewrite Hn in Hc, Hh. destruct (sm_tasks _ _ Hs _ _ Hn) as [_ [_ Hacc]].
  simpl in Hacc. pose proof (wo_tasks _ (sm_world _ _ Hs) _ _ Hn) as [Hsent _]. simpl in Hsent. pose proof (sm_tracked _ _ Hs) as Htr. simpl in Htr.
  assert (Hsingle : forall id, effects_of o l = map (fun x => mkEffect id (eff_changes x) (eff_affects x)) (take 1 l) ->
    (sent = None \/ sent = Some (version srv id)) ->
    let '(srv', ws) := apply_effects srv (effects_of o l) in
    (forall id', tracked srv0 srv' (match ws with w :: _ => recordWrite (lineages q) id sent w | [] => lineages q end) id')
    /\ (forall id', id' <> id -> (forall x, x ∈ effects_of o l -> id' ∉ eff_affects x) -> version srv' id' = version srv id')).
  { intros id Heq Hor. rewrite Heq in *. destruct l as [|x l]; [done|]. cbn [take map] in *. set (y := mkEffect id _ _) in *.
    cbn [forallb] in Hc. apply andb_true_iff in Hc as [Hc _]. apply andb_true_iff in Hc as [Hc _]. apply andb_true_iff in Hc as [Hc1 Hc2].
    apply negb_true_iff, bool_decide_eq_false in Hc1.
    assert (Hc2' : forallb truthy (eff_affects y) = true).
    { rewrite forallb_forall in Hc2 |- *. intros z Hz. by apply Hc2, andb_true_iff in Hz as [? _]. }
    pose proof (effect_tracked srv0 srv y (lineages q) sent Hc1 Hc2') as He. cbn [apply_effects]. destruct (apply_effect srv y) as [srv' w].
    destruct He as [He1 He2].
    { destruct Hor as [->|Hor]; [left; split; [done|] | by right]. cbn [forallb] in Hh. by apply andb_true_iff in Hh as [? _]. }
    split; [intros id'; apply He1, Htr|]. intros id' Hne Hx. apply He2; [done|]. apply Hx. left. }
  destruct o as [id|id path b|ids]; cbn [op_ids] in *.
  - simpl in Hsent. subst sent. specialize (Hsingle id eq_refl (or_introl eq_refl)).
    destruct (apply_effects srv _) as [srv' ws]. destruct Hsingle as [H1 H2]. split; [done|].
    intros id' Hid Hx. apply H2; [by intros ->; apply Hid; left|]. intros x ?%Hx. tauto.
  - specialize (Hsingle id eq_refl). destruct (apply_effects srv _) as [srv' ws]. destruct Hsingle as [H1 H2].
    { unfold accepted in Hacc. destruct sent; breflect; [right; congruence | by left]. }
    split; [done|]. intros id' Hid Hx. apply H2; [by intros ->; apply Hid; left|]. intros x ?%Hx. tauto.
  - simpl in Hsent. subst sent. cbn [effects_of] in *. pose proof (effects_tracked srv0 l srv (lineages q)) as He.
    destruct (apply_effects srv l) as [srv' ws]. destruct He as [H1 H2].
    { apply Forall_forall. intros x Hx. rewrite forallb_forall in Hc, Hh. apply list_elem_of_In in Hx. specialize (Hc _ Hx). specialize (Hh _ Hx).
      apply andb_true_iff in Hc as [Hc Hb]. apply andb_true_iff in Hc as [Hc1 Hc2]. apply negb_true_iff, bool_decide_eq_false in Hc1.
      split; [done|]. split; [|by apply andb_true_iff in Hb as [? _]]. apply forallb_forall. rewrite forallb_forall in Hc2.
      intros z Hz. by apply Hc2, andb_true_iff in Hz as [? _]. }
    split; [intros id; apply H1, Htr|]. intros id _ Hx. apply H2. apply Forall_forall. intros x [? ?]%Hx. done.
Qed.

Lemma two_running q n m tn tm sn sm id : queue_ok q -> tasks q !! n = Some tn -> tasks q !! m = Some tm -> n <> m ->
  status tn = Running sn -> status tm = Running sm -> id ∈ op_ids (op tn) -> id ∉ op_ids (op tm).
Proof.
  intros Hq Hn Hm Hne Hsn Hsm Hin Him. destruct (decide (n < m)%nat) as [Hlt|Hlt].
  - destruct (queue_serial _ Hq m tm n tn id) as [r Hr]; try done; congruence.
  - destruct (queue_serial _ Hq n tn m tm id) as [r Hr]; try done; try congruence; lia.
Qed.

Lemma serve_accepted n l d o sent w : tasks (queue w) !! n = Some (mkTask d o (Running sent)) -> responses w !! n = None ->
  match o with OpUpdate id _ _ => accepted (server w) id sent = true | _ => True end ->
  serve n l w = let '(srv', ws) := apply_effects (server w) (effects_of o l) in mkWorld (queue w) srv' (<[n := Resolved ws]> (responses w)).
Proof. intros Hn Hr Ho. unfold serve. rewrite Hn, Hr. destruct o; [done | by rewrite Ho | done]. Qed.

Lemma idle_round n l w : (forall d o sent, tasks (queue w) !! n <> Some (mkTask d o (Running sent))) ->
  handle (EAnswer n) (handle (EServe n l) w) = w.
Proof.
  intros Hn. cbn [handle]. assert (Hs : serve n l w = w).
  { unfold serve. destruct (tasks (queue w) !! n) as [[d o [|sent|]]|]; try done. by destruct (Hn d o sent). }
  rewrite Hs. destruct (responses w !! n) as [r|]; [|done]. unfold settle. destruct w as [q srv R]. simpl in *.
  destruct (tasks q !! n) as [[d o [|sent|]]|]; try done. by destruct (Hn d o sent).
Qed.

Lemma round_trip_smooth srv0 n l w : smooth srv0 w -> honest_event w (EServe n l) = true -> clear_effects (queue w) n l = true ->
  smooth srv0 (handle (EAnswer n) (handle (EServe n l) w)).
Proof.
  intros Hs Hh Hc. destruct w as [q srv R].
  assert (Hw1 : world_ok (handle (EServe n l) (mkWorld q srv R))) by (apply handle_world_ok; [done | apply Hs]).
  assert (Hw2 : world_ok (handle (EAnswer n) (handle (EServe n l) (mkWorld q srv R)))) by (by apply handle_world_ok).
  cbn [handle] in *. destruct (tasks q !! n) as [[d o st]|] eqn:Hn.
  2:{ change (smooth srv0 (handle (EAnswer n) (handle (EServe n l) (mkWorld q srv R)))). rewrite idle_round; [done|]. simpl. congruence. }
  destruct st as [|sent|r].
  1,3: change (smooth srv0 (handle (EAnswer n) (handle (EServe n l) (mkWorld q srv R)))); (rewrite idle_round; [done|]); simpl; congruence.
  destruct (sm_tasks _ _ Hs _ _ Hn) as [_ [HR Hacc]]. simpl in HR, Hacc.
  rewrite (serve_accepted n l d o sent) in * by done. cbn [server queue responses] in *.
  pose proof (answer_tracked srv0 n d o sent l q srv R Hs Hn Hh Hc) as Ha.
  assert (Hg : grows srv (fst (apply_effects srv (effects_of o l)))).
  { pose proof (apply_effects_ok (effects_of o l) srv) as H. destruct (apply_effects srv (effects_of o l)). apply H. }
  destruct (apply_effects srv (effects_of o l)) as [srv' ws]. destruct Ha as [Htr Hsame]. simpl in Hg. simpl responses in *.
  rewrite lookup_insert_eq in *. unfold settle in *. simpl in *. rewrite Hn in *. split; simpl; [done | apply Hs | done|].
  intros m t' (t & Hm & ->)%alter_lookup_inv. destruct (sm_tasks _ _ Hs _ _ Hm) as [Hb Hst]. simpl in Hb, Hst. split.
  - assert (op (if decide (m = n) then mkTask (deps t) (op t) (Settled (Resolved (map strip ws))) else t) = op t) as -> by (by destruct (decide (m = n))).
    destruct (op t) as [|id path b|]; try done. intros e He. specialize (Hb e He). pose proof (version_mono _ _ id Hg). lia.
  - destruct (decide (m = n)) as [->|Hne]; [simpl; eauto|]. destruct (status t) as [|sm|] eqn:Hstm; try done.
    rewrite lookup_insert_ne by done. destruct Hst as [HRm Hacm]. split; [done|]. destruct (op t) as [|id path b|] eqn:Hop; try done.
    unfold accepted in *. destruct sm as [v|]; [|done]. rewrite Hsame; [done|..].
    + intros Hin. eapply (two_running q n m _ t _ _ id (wo_queue _ (sm_world _ _ Hs)) Hn Hm); [done | done | done | exact Hin | rewrite Hop; left].
    + intros x Hx. unfold clear_effects in Hc. rewrite Hn, forallb_forall in Hc. apply list_elem_of_In in Hx. specialize (Hc _ Hx).
      apply andb_true_iff in Hc as [Hc Hbatch]. apply andb_true_iff in Hc as [_ Hc]. rewrite forallb_forall in Hc.
      assert (Hidle : forall i, idle_except q n i = true -> i <> id).
      { intros i Hi ->. apply (idle_except_spec _ _ _ _ _ Hi Hm Hne _ Hstm). rewrite Hop. left. }
      split; [intros Hin%list_elem_of_In; apply Hc, andb_true_iff in Hin as [_ Hin]; by apply Hidle in Hin|].
      destruct o; try done. apply andb_true_iff in Hbatch as [_ Hbatch]. apply Hidle in Hbatch. congruence.
Qed.

Lemma handle_smooth srv0 e w : smooth srv0 w ->
  match e with
  | EServe _ _ | EAnswer _ | ELost _ | EForeign _ => false
  | EUpdate id _ i => match expectedVersion i with Some v => (version srv0 id <=? v) && (v <=? version (server w) id) | None => true end
  | _ => true
  end = true -> smooth srv0 (handle e w).
Proof.
  intros Hs He. assert (Hh : honest_event w e = true) by (by destruct e). pose proof (handle_world_ok e w Hh (sm_world _ _ Hs)) as Hw.
  destruct w as [q srv R].
  assert (Hdel : forall ids, smooth srv0 (mkWorld (set_waiting (fold_left (fun w id => delete id w) ids (waiting q)) q) srv R)).
  { intros ids. apply (smooth_tasks _ q); try done; [|by left]. apply (world_tasks q); try done; [apply Hs| |eauto].
    apply drop_waiting_ok; [|apply Hs]. generalize (waiting q). induction ids as [|x ids IH]; intros W id v; simpl; [done|].
    intros H%IH. by apply lookup_delete_Some in H as [? ?]. }
  destruct e as [id|id path input|ids|n|n|n l|n|n|id]; try done; cbn [handle with_queue queue server responses] in *.
  - by apply (smooth_enqueue _ (OpWrite id)); [apply (Hdel [id])|].
  - assert (Hrange : forall v, expectedVersion input = Some v -> version srv0 id <= v <= version srv id).
    { intros v Hv. rewrite Hv in He. breflect. lia. }
    unfold queueIssueUpdate in *. destruct (merges q id path input) as [[n b]|] eqn:Hm.
    + destruct (merges_Some _ _ _ _ _ _ (wo_queue _ (sm_world _ _ Hs)) Hm) as ((d & Hn) & _ & _ & Hv). simpl in Hn.
      apply (smooth_tasks _ q); try done. intros m t' (t & Ht & ->)%alter_lookup_inv.
      destruct (decide (m = n)) as [->|]; [|by left]. right. rewrite Hn in Ht. injection Ht as <-. split; [|done]. simpl.
      intros e. rewrite Hv. destruct (expectedVersion input) as [v|] eqn:E; simpl; intros [= <-]. by apply Hrange.
    + pose proof (smooth_enqueue _ (OpUpdate id path input) _ _ _ (Hdel [id]) Hrange) as Hen. simpl fold_left in Hen. cbv zeta in Hw |- *.
      destruct (enqueue _ (set_waiting _ q)) as [q' n]. simpl in Hen |- *. destruct (isSome _); [|done].
      apply (smooth_tasks _ q'); try done. by left.
  - by apply (smooth_enqueue _ (OpBatch (unique ids))); [apply Hdel|].
  - unfold start_task in *. destruct (tasks q !! n) as [[d o [| |]]|] eqn:Hn; try done. destruct (forallb _ _); [|done].
    apply smooth_run_task; [done..|]. intros t. rewrite Hn. by intros [= <-].
  - destruct (cleanup_shape n q) as [Ht HL]. apply (smooth_tasks _ q); try done; [|rewrite Ht; by left].
    unfold cleanup. destruct (tasks q !! n) as [[d o [| |r]]|]; try done. clear. generalize (op_ids o). intros ids.
    revert q. induction ids as [|id ids IH]; intros q; simpl; [done|]. case_bool_decide; [|apply IH]. etransitivity; [apply IH|].
    apply delete_subseteq.
Qed.

Lemma orderly_smooth srv0 l w : smooth srv0 w -> orderly srv0 l w = true -> smooth srv0 (run l w).
Proof.
  remember (length l) as k eqn:Hk. revert l Hk w. induction k as [k IH] using lt_wf_ind. intros l -> w Hs Ho.
  destruct l as [|e l]; [done|]. cbn [run fold_left]. change (smooth srv0 (run l (handle e w))).
  assert (Hplain : match e with EServe _ _ => False | _ => True end -> smooth srv0 (run l (handle e w))).
  { intros Hne. apply (IH (length l)); [simpl; lia | done | |]; destruct e; try done; cbn [orderly] in Ho;
      apply andb_true_iff in Ho as [H1 H2]; try done; by apply handle_smooth. }
  destruct e as [| | | | |n x| | |]; try by apply Hplain. clear Hplain.
  destruct l as [|e2 l]; [done|]. cbn [orderly] in Ho. destruct e2 as [| | | | | |m| |]; try done.
  apply andb_true_iff in Ho as [Ho Hr]. apply andb_true_iff in Ho as [Ho Hc]. apply andb_true_iff in Ho as [Hm Hh]. breflect. subst m.
  cbn [run fold_left]. apply (IH (length l)); [simpl; lia | done | by apply round_trip_smooth | done].
Qed.

Lemma fresh_smooth srv : smooth srv (fresh srv).
Proof. split; [apply fresh_world_ok | done | intros id; unfold tracked; simpl; by rewrite lookup_empty | by intros]. Qed.

(** While no other session writes, every answer arrives once the server
    has processed its request, and the issues a write changes besides its own have no request in
    flight: no edit is ever refused, whichever version since the start it was made on and however
    many writes of this tab have changed the issue since.  Every promise that settled resolved,
    and every request in flight carries the version the server has. *)
Theorem own_edits_accepted l srv : orderly srv l (fresh srv) = true ->
  let w := run l (fresh srv) in
  forall n d o st, tasks (queue w) !! n = Some (mkTask d o st) ->
  match st with
  | Settled r => exists ws, r = Resolved ws
  | Running sent => match o with OpUpdate id _ _ => accepted (server w) id sent = true | _ => True end
  | Queued => True
  end.
Proof.
  intros Ho w n d o st Hn. pose proof (orderly_smooth srv l _ (fresh_smooth srv) Ho) as Hs.
  destruct (sm_tasks _ _ Hs _ _ Hn) as [_ Hst]. simpl in Hst. destruct st; [done | by destruct Hst | done].
Qed.

Lemma own_edits_accepted_witness :
  let edit f v := mkInput (Some 1) None None {[f := JStr v]} in
  let l := [EUpdate "i" "p" (edit "status" "done"); EUpdate "i" "p" (edit "priority" "low"); EUpdate "i" "p" (edit "title" "x"); EWrite "i";
            EServe 0 [mkEffect "i" true ["p"]]; EAnswer 0; EStart 1; EServe 1 [mkEffect "i" true []]; EAnswer 1;
            EStart 2; EServe 2 [mkEffect "i" true []]; EAnswer 2; ECleanup 2; EUpdate "p" "p" (edit "status" "open");
            EUpdate "i" "p" (edit "status" "open")] in
  let srv := {["i" := [false]; "p" := [false]]} in
  let w := run l (fresh srv) in
  map status (tasks (queue w)) =
    [Settled (Resolved [mkWritten "i" (Some 2) None]); Settled (Resolved [mkWritten "i" (Some 3) None]);
     Settled (Resolved [mkWritten "i" (Some 4) None]); Running (Some 2); Running (Some 4)]
  /\ accepted (server w) "i" (Some 4) = true.
Proof.
  intros edit l srv w. split; [vm_compute; reflexivity|].
  assert (Ho : orderly srv l (fresh srv) = true) by (vm_compute; reflexivity).
  assert (Hn : tasks (queue w) !! 4%nat = Some (mkTask [] (OpUpdate "i" "p" (edit "status" "open")) (Running (Some 4)))) by (vm_compute; reflexivity).
  exact (own_edits_accepted l srv Ho 4%nat _ _ _ Hn).
Defined.
