(* ===== verification/JsDate.v ===== *)
(** * Calendar dates of JavaScript

    A [Date] at local midnight is the number of its day, counted from 1 January 1970 in the
    proleptic Gregorian calendar.  [makeDate] is [new Date(year, month, day)], with its carrying of
    months and days that are out of range and its reading of the years 0 to 99; the getters are the
    inverse.  Years are counted from March, so that the leap day is the last of its year. *)

From Stdlib Require Import ZArith Lia Bool List.
From stdpp Require Import base tactics.
From S2P Require Import Prelude.

Open Scope Z_scope.

Abbreviation Date := Z.

(** The days before 1 March of a year, and before a month of the year that starts in March. *)
Definition march_year (y : Z) : Z := 365 * y + y / 4 - y / 100 + y / 400.
Definition march_month (mp : Z) : Z := (153 * mp + 2) / 5.

(** The first day of month [k], counted from January of the year 0. *)
Definition monthStart (k : Z) : Date := march_year ((k - 2) / 12) + march_month ((k - 2) mod 12) - 719468.

(** The days into the 400 years of a date as the year among them and the day of that year. *)
Definition year_of_era (doe : Z) : Z * Z :=
  let c := Z.min 3 (doe / 36524) in
  let r := doe - 36524 * c in
  let q := r / 1461 in
  let s := r - 1461 * q in
  let a := Z.min 3 (s / 365) in
  (100 * c + 4 * q + a, s - 365 * a).

(** The month of a date, counted like [monthStart], and its day of the month. *)
Definition monthIndex (t : Date) : Z :=
  let z := t + 719468 in
  let '(yoe, doy) := year_of_era (z mod 146097) in
  12 * (400 * (z / 146097) + yoe) + (5 * doy + 2) / 153 + 2.

Definition getFullYear (t : Date) : Z := monthIndex t / 12.
Definition getMonth (t : Date) : Z := monthIndex t mod 12.
Definition getDate (t : Date) : Z := t - monthStart (monthIndex t) + 1.
Definition getDay (t : Date) : Z := (t + 4) mod 7.

Definition makeDate (year month day : Z) : Date :=
  let y := if (0 <=? year) && (year <=? 99) then 1900 + year else year in
  monthStart (12 * y + month) + day - 1.

(** [lia] with division by constants. *)
Ltac dlia := Z.to_euclidean_division_equations; lia.

(** ** Correctness *)

Lemma date_examples :
  makeDate 1970 0 1 = 0 /\ makeDate 2024 1 29 = 19782 /\ makeDate 2023 1 29 = makeDate 2023 2 1
  /\ (getFullYear 19782, getMonth 19782, getDate 19782, getDay 19782) = (2024, 1, 29, 4)
  /\ getDate (makeDate 2100 2 0) = 28 /\ getDate (makeDate 2000 2 0) = 29 /\ getFullYear (-1) = 1969.
Proof. vm_compute. done. Qed.

Lemma year_of_era_spec doe : 0 <= doe < 146097 ->
  let '(y, doy) := year_of_era doe in
  0 <= y < 400 /\ 0 <= doy /\ doe = march_year y + doy /\ march_year y + doy < march_year (y + 1).
Proof.
  intros H. unfold year_of_era, march_year. cbv zeta. remember (Z.min 3 (doe / 36524)) as c eqn:Ec.
  assert (Hc : 0 <= c <= 3 /\ 0 <= doe - 36524 * c /\ (c < 3 -> doe - 36524 * c < 36524)) by dlia. clear Ec.
  remember ((doe - 36524 * c) / 1461) as q eqn:Eq. assert (Hq : 0 <= q <= 24 /\ 0 <= doe - 36524 * c - 1461 * q < 1461) by dlia. clear Eq.
  remember (Z.min 3 ((doe - 36524 * c - 1461 * q) / 365)) as a eqn:Ea.
  assert (Ha : 0 <= a <= 3 /\ 0 <= doe - 36524 * c - 1461 * q - 365 * a /\ (a < 3 -> doe - 36524 * c - 1461 * q - 365 * a < 365)) by dlia. clear Ea.
  assert (Hd : (100 * c + 4 * q + a) / 4 = 25 * c + q /\ (100 * c + 4 * q + a) / 100 = c /\ (100 * c + 4 * q + a) / 400 = 0) by dlia.
  destruct Hd as (-> & -> & ->). dlia.
Qed.

Lemma march_year_era e y : march_year (400 * e + y) = 146097 * e + march_year y.
Proof. unfold march_year. dlia. Qed.

Lemma march_month_spec doy : 0 <= doy <= 365 ->
  let mp := (5 * doy + 2) / 153 in 0 <= mp <= 11 /\ march_month mp <= doy /\ (mp < 11 -> doy < march_month (mp + 1)).
Proof. unfold march_month. intros H. cbv zeta. dlia. Qed.

Lemma march_year_step y : 365 <= march_year (y + 1) - march_year y <= 366.
Proof. unfold march_year. dlia. Qed.

(** Month [k] of a year that starts in March. *)
Lemma monthStart_march y mp : 0 <= mp <= 11 -> monthStart (12 * y + mp + 2) = march_year y + march_month mp - 719468.
Proof.
  intros H. unfold monthStart. assert (Hy : (12 * y + mp + 2 - 2) / 12 = y) by dlia.
  assert (Hm : (12 * y + mp + 2 - 2) mod 12 = mp) by dlia. by rewrite Hy, Hm.
Qed.

Lemma march_split k : exists y mp, 0 <= mp <= 11 /\ k = 12 * y + mp + 2.
Proof. exists ((k - 2) / 12), ((k - 2) mod 12). dlia. Qed.

Lemma monthStart_next y mp : 0 <= mp <= 11 ->
  monthStart (12 * y + mp + 2 + 1) = (if mp <? 11 then march_year y + march_month (mp + 1) else march_year (y + 1)) - 719468.
Proof.
  intros H. destruct (mp <? 11) eqn:E; breflect.
  - replace (12 * y + mp + 2 + 1) with (12 * y + (mp + 1) + 2) by lia. by rewrite monthStart_march by lia.
  - replace (12 * y + mp + 2 + 1) with (12 * (y + 1) + 0 + 2) by lia. rewrite monthStart_march by lia. change (march_month 0) with 0. lia.
Qed.

(** Months have 28 to 31 days. *)
Lemma month_length k : 28 <= monthStart (k + 1) - monthStart k <= 31.
Proof.
  destruct (march_split k) as (y & mp & Hmp & ->). rewrite monthStart_next, monthStart_march by done.
  pose proof (march_year_step y). destruct (mp <? 11) eqn:E; breflect; unfold march_month in *; dlia.
Qed.

(** A date lies in its month. *)
Lemma monthIndex_spec t : monthStart (monthIndex t) <= t < monthStart (monthIndex t + 1).
Proof.
  unfold monthIndex. set (z := t + 719468). pose proof (year_of_era_spec (z mod 146097)) as H.
  destruct (year_of_era (z mod 146097)) as [yoe doy]. destruct H as (Hy & Hd & He & Hlt); [dlia|].
  pose proof (march_year_step yoe). destruct (march_month_spec doy) as (Hmp & Hle & Hnext); [lia|].
  cbv zeta in *. set (mp := (5 * doy + 2) / 153) in *. rewrite monthStart_next, monthStart_march by done.
  rewrite march_year_era. replace (400 * (z / 146097) + yoe + 1) with (400 * (z / 146097) + (yoe + 1)) by lia. rewrite march_year_era.
  pose proof (Z.div_mod z 146097 ltac:(lia)). destruct (mp <? 11) eqn:E; breflect; lia.
Qed.

Lemma monthStart_mono j k : j <= k -> monthStart j + 28 * (k - j) <= monthStart k.
Proof.
  intros H. replace k with (j + Z.of_nat (Z.to_nat (k - j))) by lia. generalize (Z.to_nat (k - j)). intros n. clear H.
  induction n as [|n IH]; [replace (j + Z.of_nat 0) with j by lia; lia|]. pose proof (month_length (j + Z.of_nat n)).
  replace (j + Z.of_nat (S n)) with (j + Z.of_nat n + 1) by lia. lia.
Qed.

Lemma monthStart_le_iff j k : monthStart j <= monthStart k <-> j <= k.
Proof. split; intros H; [pose proof (monthStart_mono (k + 1) j) | pose proof (monthStart_mono j k)]; pose proof (month_length k); lia. Qed.

Lemma monthIndex_unique t k : monthStart k <= t < monthStart (k + 1) -> monthIndex t = k.
Proof.
  intros H. pose proof (monthIndex_spec t) as Ht. destruct (Z.lt_trichotomy (monthIndex t) k) as [Hlt|[?|Hlt]]; [|done|].
  - pose proof (monthStart_mono (monthIndex t + 1) k). lia.
  - pose proof (monthStart_mono (k + 1) (monthIndex t)). lia.
Qed.

Lemma monthIndex_mono t u : t <= u -> monthIndex t <= monthIndex u.
Proof.
  intros H. pose proof (monthIndex_spec t). pose proof (monthIndex_spec u).
  destruct (Z.le_gt_cases (monthIndex t) (monthIndex u)); [done|]. pose proof (monthStart_mono (monthIndex u + 1) (monthIndex t)). lia.
Qed.

Lemma monthIndex_fields t : monthIndex t = 12 * getFullYear t + getMonth t /\ 0 <= getMonth t < 12.
Proof. unfold getFullYear, getMonth. dlia. Qed.

Lemma getDate_range t : 1 <= getDate t <= monthStart (monthIndex t + 1) - monthStart (monthIndex t).
Proof. unfold getDate. pose proof (monthIndex_spec t). lia. Qed.

(** [makeDate] on a year it takes as it is. *)
Definition plain_year (y : Z) : Prop := y < 0 \/ 99 < y.

Lemma makeDate_plain y m d : plain_year y -> makeDate y m d = monthStart (12 * y + m) + d - 1.
Proof. intros H. unfold makeDate. destruct (0 <=? y) eqn:E1, (y <=? 99) eqn:E2; breflect; try done. destruct H; lia. Qed.

(** The last day of a month: day 0 of the next one. *)
Lemma last_day y m : plain_year y -> getDate (makeDate y (m + 1) 0) = monthStart (12 * y + m + 1) - monthStart (12 * y + m).
Proof.
  intros H. rewrite makeDate_plain by done. replace (12 * y + (m + 1)) with (12 * y + m + 1) by lia. unfold getDate.
  pose proof (month_length (12 * y + m)). rewrite (monthIndex_unique _ (12 * y + m)) by lia. lia.
Qed.

Lemma makeDate_getters t : plain_year (getFullYear t) -> makeDate (getFullYear t) (getMonth t) (getDate t) = t.
Proof. intros H. rewrite makeDate_plain by done. destruct (monthIndex_fields t) as [<- _]. unfold getDate. lia. Qed.
