(* ===== verification/Recurrence.v ===== *)
(** * Recurring issue schedules (web/src/lib/recurrence.ts)

    Schedules, their stored text and the dates they fall on.  Dates are calendar days
    ([JsDate]); numbers read from the stored text are exact rationals, which the date constructor
    truncates.  The texts of [describeRecurrence] and [describeRepeats] are built from a translation
    and from the names of weekdays and months, which the runtime's formatter provides: they are
    arguments of the definitions. *)

From Stdlib Require Import ZArith Lia Bool List Ascii QArith Qround Sorting.Sorted.
From stdpp Require Import base list strings.
From S2P Require Import Prelude JsString JsMap JsNumber JsDate.

Open Scope Z_scope.

(** ** Data *)

Inductive RecurrenceFrequency := daily | weekly | monthly | yearly.
Inductive RecurrenceMonthMode := day | weekday_mode.

Record RecurrenceSchedule := mkSchedule {
  frequency : RecurrenceFrequency; interval : Q; weekdays : list Z; monthMode : RecurrenceMonthMode;
  monthDay : Q; ordinal : Z; weekday : Z; month : Q }.

#[export] Instance frequency_eq_dec : EqDecision RecurrenceFrequency.
Proof. solve_decision. Defined.
#[export] Instance monthMode_eq_dec : EqDecision RecurrenceMonthMode.
Proof. solve_decision. Defined.

Definition MAX_RECURRENCE_INTERVAL : Z := 99.
Definition CODES : list string := ["SU"; "MO"; "TU"; "WE"; "TH"; "FR"; "SA"].
Definition WORKDAYS : list Z := [1; 2; 3; 4; 5].

(** [Array.prototype.sort] with a comparison of keys, which is stable. *)
Fixpoint insert_by (key : Z -> Z) (x : Z) (l : list Z) : list Z :=
  match l with
  | [] => [x]
  | y :: r => if key x <=? key y then x :: l else y :: insert_by key x r
  end.
Definition sort_by (key : Z -> Z) (l : list Z) : list Z := foldr (insert_by key) [] l.

(** [byMonday] compares [(day + 6) % 7]. *)
Definition byMonday (d : Z) : Z := Z.rem (d + 6) 7.

Definition freq_upper (f : RecurrenceFrequency) : string :=
  match f with daily => "DAILY" | weekly => "WEEKLY" | monthly => "MONTHLY" | yearly => "YEARLY" end.

(** [n || d] for a number. *)
Definition num_or (n : option Q) (d : Q) : Q :=
  match n with Some q => if Qeq_bool q 0 then d else q | None => d end.

(** [Math.min] and [Math.max] *)
Definition q_min (a b : Q) : Q := if Qle_bool a b then a else b.
Definition q_max (a b : Q) : Q := if Qle_bool a b then b else a.

(** [Math.min(MAX_RECURRENCE_INTERVAL, Math.max(1, x))] *)
Definition clamp_interval (x : Q) : Q := q_min (inject_Z MAX_RECURRENCE_INTERVAL) (q_max 1 x).

(** [new Date(y, m, d)] truncates its arguments; [setDate] keeps the month. *)
Definition trunc (q : Q) : Z := if Qle_bool 0 q then Qfloor q else Qceiling q.
Definition newDate (y m d : Q) : Date := makeDate (trunc y) (trunc m) (trunc d).
Definition setDate (t : Date) (d : Z) : Date := monthStart (monthIndex t) + d - 1.

(** [recurrenceDate] of a date: its calendar day. *)
Definition recurrenceDate (t : Date) : Date := makeDate (getFullYear t) (getMonth t) (getDate t).

Definition weekdayOrdinal (t : Date) : Z :=
  let ord := - (- getDate t / 7) in
  let lastDay := getDate (makeDate (getFullYear t) (getMonth t + 1) 0) in
  if lastDay <? getDate t + 7 then -1 else Z.min ord 4.

Definition defaultRecurrence (anchor : Date) (f : RecurrenceFrequency) : RecurrenceSchedule :=
  mkSchedule f 1 [getDay anchor] day (inject_Z (getDate anchor)) (weekdayOrdinal anchor) (getDay anchor) (inject_Z (getMonth anchor + 1)).

(** ** Stored text *)

(** [CODES.indexOf] *)
Definition code_index (s : string) : Z := match findIndex (fun c => c =s s) CODES with Some i => Z.of_nat i | None => -1 end.

(** [/^(-?\d)([A-Z]{2})$/.exec] *)
Definition is_upper (c : ascii) : bool := let n := nat_of_ascii c in (65 <=? n)%nat && (n <=? 90)%nat.
Definition digit_of (c : ascii) : Z := Z.of_nat (nat_of_ascii c) - 48.
Definition ordinal_day (s : string) : option (Z * string) :=
  match s with
  | String d (String a (String b EmptyString)) =>
      if is_digit d && is_upper a && is_upper b then Some (digit_of d, String a (String b "")) else None
  | String m (String d (String a (String b EmptyString))) =>
      if Ascii.eqb m "-" && is_digit d && is_upper a && is_upper b then Some (- digit_of d, String a (String b "")) else None
  | _ => None
  end.

Definition strip_rrule (s : string) : string := if startsWith "RRULE:" s then slice_from 6 s else s.

(** [part.split('=') as [string, string]]: a part without a value has none. *)
Definition field (part : string) : string * option string :=
  match split "=" part with k :: v :: _ => (k, Some v) | [k] => (k, None) | [] => ("", None) end.

Definition to_fields (parts : list string) : list (string * option string) :=
  fold_left (fun m p => let '(k, v) := field p in map_set k v m) parts [].

Definition field_value (k : string) (m : list (string * option string)) : option string :=
  match map_get k m with Some v => v | None => None end.

Definition parse_frequency (s : string) : option RecurrenceFrequency :=
  if s =s "daily" then Some daily else if s =s "weekly" then Some weekly
  else if s =s "monthly" then Some monthly else if s =s "yearly" then Some yearly else None.

(** The schedule of the fields of a rule, over the schedule of the anchor. *)
Definition parse_fields (fields : list (string * option string)) (base : RecurrenceSchedule) : option RecurrenceSchedule :=
  match (toLowerCase <$> field_value "FREQ" fields) ≫= parse_frequency with
  | None => None
  | Some f =>
      let n := clamp_interval (num_or (match field_value "INTERVAL" fields with Some v => Number v | None => Some 1%Q end) 1) in
      let days := List.filter truthy (split "," (field_value "BYDAY" fields ?? "")) in
      let schedule := mkSchedule f n (weekdays base) (monthMode base) (monthDay base) (ordinal base) (weekday base) (month base) in
      let schedule := match omap ordinal_day days with
        | (o, code) :: _ => mkSchedule f n (weekdays schedule) weekday_mode (monthDay schedule) o (Z.max 0 (code_index code)) (month schedule)
        | [] => match days with
                | [] => schedule
                | _ => mkSchedule f n (sort_by byMonday (List.filter (fun d => 0 <=? d) (map code_index days)))
                         (monthMode schedule) (monthDay schedule) (ordinal schedule) (weekday schedule) (month schedule)
                end
        end in
      let schedule := if map_has "BYMONTHDAY" fields
        then mkSchedule f n (weekdays schedule) day (num_or (field_value "BYMONTHDAY" fields ≫= Number) (monthDay base))
               (ordinal schedule) (weekday schedule) (month schedule)
        else schedule in
      Some (if map_has "BYMONTH" fields
        then mkSchedule f n (weekdays schedule) (monthMode schedule) (monthDay schedule) (ordinal schedule) (weekday schedule)
               (num_or (field_value "BYMONTH" fields ≫= Number) (month base))
        else schedule)
  end.

Definition with_frequency (s : RecurrenceSchedule) (f : RecurrenceFrequency) (n : Q) (days : list Z) : RecurrenceSchedule :=
  mkSchedule f n days (monthMode s) (monthDay s) (ordinal s) (weekday s) (month s).

Definition parseRecurrence (value : option string) (anchor : Date) : option RecurrenceSchedule :=
  let raw := trim (value ?? "") in
  if negb (truthy raw) then None
  else
    let base := defaultRecurrence anchor weekly in
    let name := toLowerCase raw in
    if name =s "daily" then Some (with_frequency base daily 1 (weekdays base))
    else if name =s "weekdays" then Some (with_frequency base weekly 1 WORKDAYS)
    else if name =s "weekly" then Some (with_frequency base weekly 1 (weekdays base))
    else if name =s "biweekly" then Some (with_frequency base weekly 2 (weekdays base))
    else if name =s "monthly" then Some (with_frequency base monthly 1 (weekdays base))
    else if name =s "yearly" then Some (with_frequency base yearly 1 (weekdays base))
    else parse_fields (to_fields (split ";" (strip_rrule (toUpperCase raw)))) base.

(** [Math.min(MAX_RECURRENCE_INTERVAL, Math.max(1, Math.round(x) || 1))] *)
Definition whole_interval (x : Q) : Z :=
  let r := Qfloor (x + (1 # 2)) in Z.min MAX_RECURRENCE_INTERVAL (Z.max 1 (if r =? 0 then 1 else r)).

(** [CODES[day]], which is undefined outside the week. *)
Definition code_at (d : Z) : option string := if d <? 0 then None else CODES !! Z.to_nat d.

Definition serializeRecurrence (s : RecurrenceSchedule) : string :=
  let n := whole_interval (interval s) in
  let parts := ["FREQ=" +:+ freq_upper (frequency s)] ++ (if 1 <? n then ["INTERVAL=" +:+ showZ n] else []) in
  let byMonth := "BYMONTH=" +:+ show_number (month s) in
  let byDay := match monthMode s with
    | weekday_mode => "BYDAY=" +:+ showZ (ordinal s) +:+ (code_at (weekday s) ?? "undefined")
    | day => "BYMONTHDAY=" +:+ show_number (monthDay s)
    end in
  match frequency s with
  | daily => if n =? 1 then "daily" else "FREQ=DAILY;INTERVAL=" +:+ showZ n
  | weekly =>
      let days := sort_by byMonday (unique (weekdays s)) in
      if (n =? 1) && bool_decide (days = WORKDAYS) then "weekdays"
      else join ";" (parts ++ ["BYDAY=" +:+ join "," (map (fun d => code_at d ?? "") (match days with [] => [1] | _ => days end))])
  | monthly => join ";" (parts ++ [byDay])
  | yearly => join ";" (parts ++ [byMonth; byDay])
  end.

Definition simpleRecurrence (f : RecurrenceFrequency) (n : Q) : string :=
  let n := whole_interval n in
  "FREQ=" +:+ freq_upper f +:+ (if 1 <? n then ";INTERVAL=" +:+ showZ n else "").

Definition anchorRecurrence (s : RecurrenceSchedule) (anchor : Date) : RecurrenceSchedule :=
  let d := defaultRecurrence anchor (frequency s) in with_frequency d (frequency s) (interval s) (weekdays d).

Definition isAnchoredRecurrence (s : RecurrenceSchedule) (anchor : Date) : bool :=
  let dayMatches := bool_decide (monthMode s = day) && Qeq_bool (monthDay s) (inject_Z (getDate anchor)) in
  match frequency s with
  | daily => true
  | weekly => bool_decide (weekdays s = [getDay anchor])
  | monthly => dayMatches
  | yearly => dayMatches && Qeq_bool (month s) (inject_Z (getMonth anchor + 1))
  end.

Definition serializeRecurrenceFrom (s : RecurrenceSchedule) (firstDue : Date) : string :=
  if isAnchoredRecurrence s firstDue then simpleRecurrence (frequency s) (interval s) else serializeRecurrence s.

(** ** Dates *)

Definition monthOccurrence (s : RecurrenceSchedule) (year mon : Q) : Date :=
  let last := getDate (newDate year (mon + 1) 0) in
  match monthMode s with
  | weekday_mode =>
      if ordinal s <? 0 then
        let date := newDate year mon (inject_Z last) in
        setDate date (last - Z.rem (getDay date - weekday s + 7) 7)
      else
        let first := newDate year mon 1 in
        newDate year mon (inject_Z (1 + Z.rem (weekday s - getDay first + 7) 7 + 7 * (ordinal s - 1)))
  | day => newDate year mon (if Qltb (monthDay s) 0 || Qltb (inject_Z last) (monthDay s) then inject_Z last else monthDay s)
  end.

(** The loop over offsets or years: the first date that qualifies. *)
Fixpoint first_date (candidate : Z -> Date) (ok : Date -> bool) (from : Z) (count : nat) : option Date :=
  match count with
  | O => None
  | S c => let date := candidate from in if ok date then Some date else first_date candidate ok (from + 1) c
  end.

Definition firstRecurrenceOnOrAfter (s : RecurrenceSchedule) (from : Date) : Date :=
  let start := recurrenceDate from in
  let year := getFullYear start in
  match frequency s with
  | daily => start
  | weekly =>
      let days := match weekdays s with [] => [getDay start] | l => l end in
      first_date (fun offset => makeDate year (getMonth start) (getDate start + offset)) (fun d => bool_decide (getDay d ∈ days)) 0 7 ?? start
  | monthly =>
      let date := monthOccurrence s (inject_Z year) (inject_Z (getMonth start)) in
      if start <=? date then date else monthOccurrence s (inject_Z year) (inject_Z (getMonth start) + 1)
  | yearly => first_date (fun y => monthOccurrence s (inject_Z y) (month s - 1)) (fun d => start <=? d) year 9 ?? start
  end.

Definition addDays (t : Date) (days : Q) : Date :=
  newDate (inject_Z (getFullYear t)) (inject_Z (getMonth t)) (inject_Z (getDate t) + days).

Definition defaultFirstDue (today : Date) : Date := addDays (recurrenceDate today) 7.

Definition nextRecurrenceDue (s : RecurrenceSchedule) (due : Date) : Date :=
  let n := q_max 1 (interval s) in
  let year := inject_Z (getFullYear due) in
  match frequency s with
  | daily => addDays due n
  | weekly =>
      let days := sort_by id (map byMonday (match weekdays s with [] => [getDay due] | l => l end)) in
      let offset := byMonday (getDay due) in
      match List.find (fun d => offset <? d) days with
      | Some later => addDays due (inject_Z (later - offset))
      | None => addDays due (7 * n - inject_Z offset + inject_Z (hd 0 days))
      end
  | monthly =>
      let same := monthOccurrence s year (inject_Z (getMonth due)) in
      if due <? same then same else monthOccurrence s year (inject_Z (getMonth due) + n)
  | yearly =>
      let same := monthOccurrence s year (month s - 1) in
      if due <? same then same else monthOccurrence s (year + n) (month s - 1)
  end.

Definition defaultRecurrenceFirstDue (value : option string) (today : Date) : option Date :=
  let start := recurrenceDate today in
  match parseRecurrence value start with
  | None => None
  | Some s =>
      let raw := strip_rrule (toUpperCase (trim (value ?? ""))) in
      let fields := map (fun part => fst (field part)) (split ";" raw) in
      let has k := bool_decide (k ∈ fields) in
      let needsAnchor := match frequency s with
        | weekly => negb (raw =s "WEEKDAYS") && negb (has "BYDAY")
        | monthly => negb (has "BYDAY") && negb (has "BYMONTHDAY")
        | yearly => negb (has "BYMONTH") || (negb (has "BYDAY") && negb (has "BYMONTHDAY"))
        | daily => false
        end in
      Some (if needsAnchor then nextRecurrenceDue s start else firstRecurrenceOnOrAfter s (addDays start 1))
  end.

(** ** Texts *)

(** A character of [\w]. *)
Definition is_word (c : ascii) : bool :=
  let n := nat_of_ascii c in is_digit c || is_upper c || ((97 <=? n)%nat && (n <=? 122)%nat) || (n =? 95)%nat.

Fixpoint take_word (s : string) : string * string :=
  match s with
  | String c r => if is_word c then let '(w, rest) := take_word r in (String c w, rest) else ("", s)
  | EmptyString => ("", "")
  end.

(** [replace(/\{(\w+)\}/g, ...)]: [skip] characters belong to a placeholder already replaced. *)
Fixpoint fill (values : list (string * string)) (skip : nat) (s : string) : string :=
  match s with
  | EmptyString => ""
  | String c r =>
      match skip with
      | S k => fill values k r
      | O =>
          match (if Ascii.eqb c "{" then let '(w, rest) := take_word r in
                   if truthy w && startsWith "}" rest then Some w else None else None) with
          | Some w => (map_get w values ?? "") +:+ fill values (S (String.length w)) r
          | None => String c (fill values 0 r)
          end
      end
  end.

Section Texts.
Context (t : string -> string) (weekdayName : bool -> Z -> string) (monthName : Q -> string).

Definition phrase (template : string) (values : list (string * string)) : string := fill values 0 (t template).

Definition ordinalLabel (o : Z) : string :=
  if o =? 1 then "first" else if o =? 2 then "second" else if o =? 3 then "third" else if o =? 4 then "fourth"
  else if o =? -1 then "last" else "first".

Definition describe_schedule (s : RecurrenceSchedule) : string :=
  let n := show_number (interval s) in
  let one := Qeq_bool (interval s) 1 in
  let when_ := match monthMode s with
    | weekday_mode => phrase ("on the " +:+ ordinalLabel (ordinal s) +:+ " {weekday}") [("weekday", weekdayName true (weekday s))]
    | day => if Qltb (monthDay s) 0 then t "on the last day" else phrase "on day {day}" [("day", show_number (monthDay s))]
    end in
  match frequency s with
  | daily => if one then t "Every day" else phrase "Every {n} days" [("n", n)]
  | weekly =>
      let days := sort_by byMonday (weekdays s) in
      if one && bool_decide (days = WORKDAYS) then t "Every weekday"
      else let l := join ", " (map (weekdayName false) days) in
           if one then phrase "Weekly on {days}" [("days", l)] else phrase "Every {n} weeks on {days}" [("n", n); ("days", l)]
  | monthly => if one then phrase "Monthly {when}" [("when", when_)] else phrase "Every {n} months {when}" [("n", n); ("when", when_)]
  | yearly =>
      let y := match monthMode s with
        | weekday_mode => phrase "{when} of {month}" [("when", when_); ("month", monthName (month s))]
        | day => if Qltb (monthDay s) 0 then phrase "on the last day of {month}" [("month", monthName (month s))]
                 else phrase "on {month} {day}" [("month", monthName (month s)); ("day", show_number (monthDay s))]
        end in
      if one then phrase "Yearly {when}" [("when", y)] else phrase "Every {n} years {when}" [("n", n); ("when", y)]
  end.

Definition describeRecurrence (value : option string) (anchor : Date) : string :=
  match parseRecurrence value anchor with Some s => describe_schedule s | None => "" end.

Definition recurrencePresetOptions (anchor : Date) : list (string * string) :=
  let wd := weekdayName true (getDay anchor) in
  [("daily", t "Daily"); ("weekdays", t "Every weekday (Mon–Fri)");
   (simpleRecurrence weekly 1, phrase "Weekly on {weekday}" [("weekday", wd)]);
   (simpleRecurrence weekly 2, phrase "Every 2 weeks on {weekday}" [("weekday", wd)]);
   (simpleRecurrence monthly 1, describeRecurrence (Some (simpleRecurrence monthly 1)) anchor);
   (simpleRecurrence yearly 1, describeRecurrence (Some (simpleRecurrence yearly 1)) anchor)].

Definition UNIT_PHRASES (f : RecurrenceFrequency) : string * string :=
  match f with
  | daily => ("Repeats every day", "Repeats every {n} days")
  | weekly => ("Repeats every week", "Repeats every {n} weeks")
  | monthly => ("Repeats every month", "Repeats every {n} months")
  | yearly => ("Repeats every year", "Repeats every {n} years")
  end.

Definition describeRepeats (value : option string) (anchor : Date) : string :=
  match parseRecurrence value anchor with
  | None => ""
  | Some s =>
      if isAnchoredRecurrence s anchor then
        let '(one, many) := UNIT_PHRASES (frequency s) in
        if Qeq_bool (interval s) 1 then t one else phrase many [("n", show_number (interval s))]
      else describeRecurrence value anchor
  end.
End Texts.

Lemma recurrence_examples :
  let anchor := makeDate 2024 0 31 in
  let names := (fun (long : bool) d => if long then "day" +:+ showZ d else "d" +:+ showZ d) in
  serializeRecurrence <$> parseRecurrence (Some "rrule:FREQ=weekly;BYDAY=FR,MO;INTERVAL=2") anchor = Some "FREQ=WEEKLY;INTERVAL=2;BYDAY=MO,FR"
  /\ describeRecurrence id names (fun m => "m" +:+ show_number m) (Some "FREQ=MONTHLY;BYDAY=-1FR;INTERVAL=3") anchor = "Every 3 months on the last day5"
  /\ describeRecurrence id names (fun m => "m" +:+ show_number m) (Some "yearly") anchor = "Yearly on m1 31"
  /\ nextRecurrenceDue (defaultRecurrence anchor monthly) anchor = makeDate 2024 1 29
  /\ defaultRecurrenceFirstDue (Some "monthly") anchor = Some (makeDate 2024 1 29)
  /\ show_number (5 # 2) = "2.5".
Proof. vm_compute. done. Qed.

(** ** The dates of a schedule *)

(** Schedules of whole numbers in the ranges the data model documents. *)
Record well_formed (s : RecurrenceSchedule) (n d m : Z) : Prop := {
  wf_interval : interval s = inject_Z n /\ 1 <= n <= 99;
  wf_weekdays : Forall (fun x => 0 <= x <= 6) (weekdays s);
  wf_monthDay : monthDay s = inject_Z d /\ (d = -1 \/ 1 <= d <= 31);
  wf_ordinal : ordinal s = -1 \/ 1 <= ordinal s <= 4;
  wf_weekday : 0 <= weekday s <= 6;
  wf_month : month s = inject_Z m /\ 1 <= m <= 12 }.

(** The weekday or day the schedule picks in month [k]. *)
Definition occurrence (s : RecurrenceSchedule) (d k : Z) : Date :=
  match monthMode s with
  | weekday_mode =>
      if ordinal s <? 0 then monthStart (k + 1) - 1 - Z.rem (getDay (monthStart (k + 1) - 1) - weekday s + 7) 7
      else monthStart k + Z.rem (weekday s - getDay (monthStart k) + 7) 7 + 7 * (ordinal s - 1)
  | day =>
      let last := monthStart (k + 1) - monthStart k in
      monthStart k + (if (d <? 0) || (last <? d) then last else d) - 1
  end.

Lemma trunc_Z z : trunc (inject_Z z) = z.
Proof. unfold trunc. destruct (Qle_bool _ _); [apply Qfloor_Z | apply Qceiling_Z]. Qed.

Lemma Qltb_Z a b : Qltb (inject_Z a) (inject_Z b) = (a <? b).
Proof. unfold Qltb, Qle_bool. simpl. rewrite !Z.mul_1_r. by rewrite Z.ltb_antisym. Qed.

Lemma q_max_Z a b : q_max (inject_Z a) (inject_Z b) = inject_Z (Z.max a b).
Proof. unfold q_max, Qle_bool. simpl. rewrite !Z.mul_1_r. destruct (Z.leb_spec a b); f_equal; lia. Qed.

Lemma q_max_one n : 1 <= n -> q_max 1 (inject_Z n) = inject_Z n.
Proof. intros H. change 1%Q with (inject_Z 1). rewrite q_max_Z. f_equal. lia. Qed.

Lemma q_min_Z a b : q_min (inject_Z a) (inject_Z b) = inject_Z (Z.min a b).
Proof. unfold q_min, Qle_bool. simpl. rewrite !Z.mul_1_r. destruct (Z.leb_spec a b); f_equal; lia. Qed.

Lemma newDate_Z y m d : plain_year y -> newDate (inject_Z y) (inject_Z m) (inject_Z d) = monthStart (12 * y + m) + d - 1.
Proof. intros H. unfold newDate. rewrite !trunc_Z. by apply makeDate_plain. Qed.

Lemma getDay_range t : 0 <= getDay t < 7.
Proof. unfold getDay. apply Z.mod_pos_bound. lia. Qed.

Lemma month_day_index k d : 1 <= d <= monthStart (k + 1) - monthStart k -> monthIndex (monthStart k + d - 1) = k.
Proof. intros H. apply monthIndex_unique. lia. Qed.

Lemma occurrence_in_month s n d m k : well_formed s n d m -> monthStart k <= occurrence s d k < monthStart (k + 1).
Proof.
  intros [_ _ [_ Hd] Ho Hw _]. unfold occurrence. pose proof (month_length k) as Hlen. destruct (monthMode s).
  - destruct (d <? 0) eqn:E1, (_ <? d) eqn:E2; breflect; simpl; lia.
  - pose proof (getDay_range (monthStart (k + 1) - 1)). pose proof (getDay_range (monthStart k)).
    destruct (ordinal s <? 0) eqn:E; breflect.
    + pose proof (Z.rem_bound_pos (getDay (monthStart (k + 1) - 1) - weekday s + 7) 7). lia.
    + pose proof (Z.rem_bound_pos (weekday s - getDay (monthStart k) + 7) 7). lia.
Qed.

Lemma monthOccurrence_eq s n d m y mon : well_formed s n d m -> plain_year y ->
  monthOccurrence s (inject_Z y) (inject_Z mon) = occurrence s d (12 * y + mon).
Proof.
  intros Hwf Hy. unfold monthOccurrence, occurrence. set (k := 12 * y + mon).
  assert (Hlast : getDate (newDate (inject_Z y) (inject_Z mon + 1) 0) = monthStart (k + 1) - monthStart k).
  { change 1%Q with (inject_Z 1). change 0%Q with (inject_Z 0). rewrite <- inject_Z_plus. unfold newDate. rewrite !trunc_Z. by apply last_day. }
  rewrite Hlast. pose proof (month_length k) as Hlen. destruct (monthMode s).
  - destruct (wf_monthDay _ _ _ _ Hwf) as [-> _]. change 0%Q with (inject_Z 0). rewrite !Qltb_Z.
    destruct (_ || _); by rewrite newDate_Z.
  - destruct (ordinal s <? 0).
    + rewrite newDate_Z by done. fold k. unfold setDate. rewrite month_day_index by lia.
      replace (monthStart k + (monthStart (k + 1) - monthStart k) - 1) with (monthStart (k + 1) - 1) by lia. lia.
    + change 1%Q with (inject_Z 1). rewrite !newDate_Z by done. fold k. replace (monthStart k + 1 - 1) with (monthStart k) by lia. lia.
Qed.

(** A date of the schedule's pattern, and the period of the schedule it belongs to. *)
Definition falls_on (s : RecurrenceSchedule) (from x : Date) : Prop :=
  match frequency s with
  | daily => True
  | weekly => getDay x ∈ (match weekdays s with [] => [getDay from] | l => l end)
  | monthly => x = monthOccurrence s (inject_Z (getFullYear x)) (inject_Z (getMonth x))
  | yearly => inject_Z (getMonth x) = (month s - 1)%Q /\ x = monthOccurrence s (inject_Z (getFullYear x)) (month s - 1)
  end.

Definition period (s : RecurrenceSchedule) (x : Date) : Z :=
  match frequency s with daily => x | weekly => (x + 3) / 7 | monthly => monthIndex x | yearly => getFullYear x end.

(** The dates strictly between two are skipped by the interval. *)
Definition next_on (s : RecurrenceSchedule) (n : Z) (due r : Date) : Prop :=
  due < r /\ falls_on s due r /\ (period s r - period s due) mod n = 0
  /\ forall x, due < x < r -> falls_on s due x -> (period s x - period s due) mod n <> 0.

Lemma year_mono t u : t <= u -> getFullYear t <= getFullYear u.
Proof. intros H. unfold getFullYear. apply Z.div_le_mono; [lia|]. by apply monthIndex_mono. Qed.

Lemma addDays_Z t k : plain_year (getFullYear t) -> addDays t (inject_Z k) = t + k.
Proof.
  intros H. unfold addDays. rewrite <- inject_Z_plus, newDate_Z by done. destruct (monthIndex_fields t) as [<- _]. unfold getDate. lia.
Qed.

Lemma skipped n a x : 0 < x - a < n -> (x - a) mod n <> 0.
Proof. intros H. rewrite Z.mod_small; lia. Qed.

(** Schedules by month. *)
Lemma falls_on_monthly s n d m from x : well_formed s n d m -> frequency s = monthly -> 100 <= getFullYear x ->
  falls_on s from x <-> x = occurrence s d (monthIndex x).
Proof.
  intros Hwf Hf Hx. unfold falls_on. rewrite Hf, (monthOccurrence_eq s n d m) by (done || (right; lia)).
  destruct (monthIndex_fields x) as [<- _]. done.
Qed.

Lemma next_monthly s n d m due : well_formed s n d m -> frequency s = monthly -> 100 <= getFullYear due ->
  next_on s n due (nextRecurrenceDue s due).
Proof.
  intros Hwf Hf Hy. destruct (wf_interval _ _ _ _ Hwf) as [Hi Hn]. destruct (monthIndex_fields due) as [Hk _].
  set (k := monthIndex due) in *. pose proof (monthIndex_spec due) as Hdue. fold k in Hdue.
  pose proof (occurrence_in_month s n d m k Hwf) as Hocc. pose proof (occurrence_in_month s n d m (k + n) Hwf) as Hocc'.
  pose proof (monthStart_mono (k + 1) (k + n)) as Hlater.
  assert (Hr : nextRecurrenceDue s due = if due <? occurrence s d k then occurrence s d k else occurrence s d (k + n)).
  { unfold nextRecurrenceDue. rewrite Hf, Hi. rewrite q_max_one by lia.
    rewrite <- inject_Z_plus, !(monthOccurrence_eq s n d m) by (done || (right; lia)). rewrite Z.add_assoc, <- Hk. done. }
  rewrite Hr. unfold next_on, period. rewrite Hf. fold k. destruct (due <? occurrence s d k) eqn:E; breflect.
  - assert (Hm : monthIndex (occurrence s d k) = k) by (apply monthIndex_unique; lia).
    split; [done|]. split; [apply (falls_on_monthly s n d m due); [done.. | pose proof (year_mono due (occurrence s d k)); lia | by rewrite Hm]|].
    rewrite Hm, Z.sub_diag. split; [apply Zmod_0_l|]. intros x Hx Hon.
    apply (falls_on_monthly s n d m due) in Hon; [|done.. | pose proof (year_mono due x); lia].
    assert (monthIndex x = k) by (apply monthIndex_unique; lia). rewrite H in Hon. lia.
  - set (r := occurrence s d (k + n)) in *. assert (Hm : monthIndex r = k + n) by (apply monthIndex_unique; lia).
    split; [lia|]. split; [apply (falls_on_monthly s n d m due); [done.. | pose proof (year_mono due r); lia | by rewrite Hm]|].
    rewrite Hm. replace (k + n - k) with n by lia. split; [apply Z_mod_same_full|]. intros x Hx Hon.
    apply (falls_on_monthly s n d m due) in Hon; [|done.. | pose proof (year_mono due x); lia].
    pose proof (monthIndex_mono due x) as Hm1. pose proof (monthIndex_mono x r) as Hm2. rewrite Hm in Hm2. fold k in Hm1.
    apply skipped. destruct (decide (monthIndex x = k)) as [Hx1|]; [rewrite Hx1 in Hon; lia|].
    destruct (decide (monthIndex x = k + n)) as [Hx2|]; [rewrite Hx2 in Hon; fold r in Hon; lia | lia].
Qed.

(** Schedules by year. *)
Lemma falls_on_yearly s n d m from x : well_formed s n d m -> frequency s = yearly -> 100 <= getFullYear x ->
  falls_on s from x <-> getMonth x = m - 1 /\ x = occurrence s d (monthIndex x).
Proof.
  intros Hwf Hf Hx. unfold falls_on. destruct (wf_month _ _ _ _ Hwf) as [Hm _]. rewrite Hf, Hm.
  change (inject_Z m - 1)%Q with (inject_Z m + inject_Z (-1))%Q. rewrite <- inject_Z_plus, (monthOccurrence_eq s n d m) by (done || (right; lia)).
  destruct (monthIndex_fields x) as [Hk _]. split; intros [H1 H2].
  - assert (Hmon : getMonth x = m - 1) by (injection H1; lia). split; [done|]. rewrite Hk, Hmon. exact H2.
  - split; [f_equal; lia|]. rewrite Hk, H1 in H2. exact H2.
Qed.

Lemma occurrence_of_year s n d m y : well_formed s n d m -> 100 <= y ->
  let r := occurrence s d (12 * y + (m - 1)) in
  monthOccurrence s (inject_Z y) (month s - 1) = r /\ monthIndex r = 12 * y + (m - 1) /\ getFullYear r = y /\ getMonth r = m - 1
  /\ forall from, frequency s = yearly -> falls_on s from r.
Proof.
  intros Hwf Hy r. destruct (wf_month _ _ _ _ Hwf) as [Hm Hm12]. pose proof (occurrence_in_month s n d m (12 * y + (m - 1)) Hwf) as Hocc.
  assert (Hk : monthIndex r = 12 * y + (m - 1)) by (by apply monthIndex_unique). destruct (monthIndex_fields r) as [Hf Hr].
  split; [|split; [done|]].
  - rewrite Hm. change (inject_Z m - 1)%Q with (inject_Z m + inject_Z (-1))%Q. rewrite <- inject_Z_plus, (monthOccurrence_eq s n d m) by (done || (right; lia)).
    done.
  - assert (Hyr : getFullYear r = y) by lia. assert (Hmr : getMonth r = m - 1) by lia. split; [done|]. split; [done|].
    intros from Hfreq. apply (falls_on_yearly s n d m); [done | done | lia|]. split; [done|]. by rewrite Hk.
Qed.

Lemma next_yearly s n d m due : well_formed s n d m -> frequency s = yearly -> 100 <= getFullYear due ->
  next_on s n due (nextRecurrenceDue s due).
Proof.
  intros Hwf Hf Hy. destruct (wf_interval _ _ _ _ Hwf) as [Hi Hn]. set (y := getFullYear due) in *.
  destruct (occurrence_of_year s n d m y Hwf Hy) as (E1 & Hk1 & Hy1 & Hm1 & Hon1).
  destruct (occurrence_of_year s n d m (y + n) Hwf ltac:(lia)) as (E2 & Hk2 & Hy2 & Hm2 & Hon2).
  set (r1 := occurrence s d (12 * y + (m - 1))) in *. set (r2 := occurrence s d (12 * (y + n) + (m - 1))) in *.
  assert (Hr : nextRecurrenceDue s due = if due <? r1 then r1 else r2).
  { unfold nextRecurrenceDue. rewrite Hf, Hi. fold y. rewrite q_max_one by lia.
    rewrite <- inject_Z_plus. by rewrite E1, E2. }
  assert (Hsame : forall x, 100 <= getFullYear x -> falls_on s due x -> x = occurrence s d (12 * getFullYear x + (m - 1))).
  { intros x Hx (Hmx & Hox)%(falls_on_yearly s n d m); [|done..]. destruct (monthIndex_fields x) as [Hkx _]. rewrite Hkx, Hmx in Hox. done. }
  rewrite Hr. unfold next_on, period. rewrite Hf. fold y. destruct (due <? r1) eqn:E; breflect.
  - split; [done|]. split; [auto|]. rewrite Hy1, Z.sub_diag. split; [apply Zmod_0_l|]. intros x Hx Hon.
    pose proof (year_mono due x). pose proof (year_mono x r1). assert (Hyx : getFullYear x = y) by lia.
    apply Hsame in Hon; [|lia]. rewrite Hyx in Hon. fold r1 in Hon. lia.
  - assert (Hlt : due < r2). { destruct (Z.lt_ge_cases due r2) as [|Hge]; [done|]. pose proof (year_mono r2 due). lia. }
    split; [done|]. split; [auto|]. rewrite Hy2. replace (y + n - y) with n by lia. split; [apply Z_mod_same_full|]. intros x Hx Hon.
    pose proof (year_mono due x). pose proof (year_mono x r2). apply Hsame in Hon; [|lia]. apply skipped. fold y in H.
    destruct (decide (getFullYear x = y)) as [Hx1|]; [rewrite Hx1 in Hon; fold r1 in Hon; lia|].
    destruct (decide (getFullYear x = y + n)) as [Hx2|]; [rewrite Hx2 in Hon; fold r2 in Hon; lia | lia].
Qed.

(** Schedules by week. *)
Lemma insert_by_elem key x y l : y ∈ insert_by key x l <-> y = x \/ y ∈ l.
Proof.
  induction l as [|z l IH]; simpl; [by rewrite elem_of_cons|]. destruct (_ <=? _); [by rewrite elem_of_cons|].
  rewrite !elem_of_cons, IH. tauto.
Qed.

Lemma sort_by_elem key x l : x ∈ sort_by key l <-> x ∈ l.
Proof. induction l as [|y l IH]; simpl; [done|]. by rewrite insert_by_elem, elem_of_cons, IH. Qed.

Lemma sort_by_sorted key l : StronglySorted (fun a b => key a <= key b) (sort_by key l).
Proof.
  induction l as [|x l IH]; simpl; [constructor|]. induction IH as [|y r Hr IH Hall]; simpl; [repeat constructor|].
  destruct (key x <=? key y) eqn:E; breflect.
  - constructor; [by constructor|]. constructor; [done|]. eapply Forall_impl; [exact Hall|]. simpl. lia.
  - constructor; [done|]. apply Forall_forall. intros z [->|Hz]%insert_by_elem; [lia|]. rewrite Forall_forall in Hall. auto.
Qed.

Lemma find_sorted o l : StronglySorted (fun a b => id a <= id b) l ->
  match List.find (fun d => o <? d) l with
  | Some x => x ∈ l /\ o < x /\ forall y, y ∈ l -> o < y -> x <= y
  | None => forall y, y ∈ l -> y <= o
  end.
Proof.
  induction 1 as [|x l Hs IH Hall]; simpl; [by intros y ?%not_elem_of_nil|]. rewrite Forall_forall in Hall. unfold id in Hall.
  destruct (o <? x) eqn:E; breflect.
  - split; [left|]. split; [done|]. intros y [->|Hy]%elem_of_cons Hoy; [lia | auto].
  - destruct (List.find _ l) as [z|].
    + destruct IH as (H1 & H2 & H3). split; [by right|]. split; [done|]. intros y [->|Hy]%elem_of_cons Hoy; [lia | auto].
    + intros y [->|Hy]%elem_of_cons; [lia | auto].
Qed.

(** The day of the week counted from Monday. *)
Lemma byMonday_day t : byMonday (getDay t) = (t + 3) mod 7.
Proof. unfold byMonday, getDay. rewrite Z.rem_mod_nonneg by dlia. dlia. Qed.

Lemma byMonday_inj a b : 0 <= a <= 6 -> 0 <= b <= 6 -> byMonday a = byMonday b -> a = b.
Proof. unfold byMonday. intros Ha Hb. rewrite !Z.rem_mod_nonneg by lia. dlia. Qed.

Lemma next_weekly s n d m due : well_formed s n d m -> frequency s = weekly -> 100 <= getFullYear due ->
  next_on s n due (nextRecurrenceDue s due).
Proof.
  intros Hwf Hf Hy. destruct (wf_interval _ _ _ _ Hwf) as [Hi Hn]. pose proof (wf_weekdays _ _ _ _ Hwf) as Hw.
  set (ds := match weekdays s with [] => [getDay due] | l => l end).
  assert (Hds : Forall (fun x => 0 <= x <= 6) ds /\ ds <> []).
  { subst ds. pose proof (getDay_range due). destruct (weekdays s); [split; [repeat constructor; lia | done] | done]. }
  destruct Hds as [Hds Hne]. rewrite Forall_forall in Hds. set (D := sort_by id (map byMonday ds)).
  assert (HD : forall x, getDay x ∈ ds <-> (x + 3) mod 7 ∈ D).
  { intros x. unfold D. rewrite sort_by_elem, list_elem_of_fmap, <- byMonday_day. split; [by eauto|].
    intros (y & Heq & Hin). apply byMonday_inj in Heq as ->; [done | pose proof (getDay_range x); lia | auto]. }
  assert (HDr : forall h, h ∈ D -> 0 <= h <= 6).
  { intros h. unfold D. rewrite sort_by_elem, list_elem_of_fmap. intros (y & -> & Hin%Hds). unfold byMonday. rewrite Z.rem_mod_nonneg by lia. dlia. }
  pose proof (sort_by_sorted id (map byMonday ds)) as Hs. fold D in Hs.
  assert (Hr : nextRecurrenceDue s due = due + match List.find (fun x => (due + 3) mod 7 <? x) D with
    | Some later => later - (due + 3) mod 7 | None => 7 * n - (due + 3) mod 7 + hd 0 D end).
  { unfold nextRecurrenceDue. rewrite Hf, Hi. fold ds D. rewrite byMonday_day. rewrite q_max_one by lia.
    destruct (List.find _ D); [by rewrite addDays_Z by (right; lia)|].
    change 7%Q with (inject_Z 7). unfold Qminus. rewrite <- inject_Z_mult, <- inject_Z_opp, <- !inject_Z_plus, addDays_Z by (right; lia). lia. }
  pose proof (find_sorted ((due + 3) mod 7) D Hs) as Hfind.
  assert (Hon : forall x, falls_on s due x <-> (x + 3) mod 7 ∈ D) by (intros x; unfold falls_on; rewrite Hf; apply HD).
  rewrite Hr. unfold next_on, period. rewrite Hf. setoid_rewrite Hon. destruct (List.find _ D) as [later|].
  - destruct Hfind as (Hin & Hlt & Hmin). pose proof (HDr _ Hin). set (r := due + _).
    assert (Hr7 : (r + 3) mod 7 = later /\ (r + 3) / 7 = (due + 3) / 7) by (subst r; dlia). destruct Hr7 as [Hr1 Hr2].
    rewrite Hr1, Hr2, Z.sub_diag. split; [subst r; lia|]. split; [done|]. split; [apply Zmod_0_l|]. intros x Hx Hxin.
    assert (later <= (x + 3) mod 7) by (apply Hmin; [done | subst r; dlia]). subst r. dlia.
  - assert (Hh : hd 0 D ∈ D /\ forall y, y ∈ D -> hd 0 D <= y).
    { destruct D as [|h D'] eqn:ED; [exfalso; destruct ds as [|x ds']; [done|]|].
      - assert (Hin : byMonday x ∈ D) by (unfold D; rewrite sort_by_elem; left). rewrite ED in Hin. by apply not_elem_of_nil in Hin.
      - simpl. split; [left|]. inversion Hs as [|? ? _ Hall]; subst. rewrite Forall_forall in Hall. intros y [->|Hyin]%elem_of_cons; [lia|].
        by apply Hall. }
    destruct Hh as [Hh Hmin]. pose proof (HDr _ Hh). set (h := hd 0 D) in *. set (r := due + _).
    assert (Hr7 : (r + 3) mod 7 = h /\ (r + 3) / 7 = (due + 3) / 7 + n) by (subst r; dlia). destruct Hr7 as [Hr1 Hr2].
    rewrite Hr1, Hr2. replace ((due + 3) / 7 + n - (due + 3) / 7) with n by lia. split; [subst r; dlia|]. split; [done|].
    split; [apply Z_mod_same_full|]. intros x Hx Hxin. apply skipped. pose proof (Hfind _ Hxin). pose proof (Hmin _ Hxin). subst r. dlia.
Qed.

(** The date after [due] is the first date later than [due] that falls on
    the schedule's weekdays, day of the month or weekday of the month, in a period (day, week from
    Monday, month, year) a multiple of the interval after the period of [due]; for every well-formed
    schedule and every date from the year 100 on, across month ends, leap years and new years. *)
Theorem next_due_correct s n d m due : well_formed s n d m -> 100 <= getFullYear due ->
  next_on s n due (nextRecurrenceDue s due).
Proof.
  intros Hwf Hy. destruct (frequency s) eqn:Hf; [|by eapply next_weekly | by eapply next_monthly | by eapply next_yearly].
  destruct (wf_interval _ _ _ _ Hwf) as [Hi Hn]. unfold next_on, period, falls_on. rewrite Hf.
  assert (Hr : nextRecurrenceDue s due = due + n).
  { unfold nextRecurrenceDue. rewrite Hf, Hi. rewrite q_max_one by lia. apply addDays_Z. right. lia. }
  rewrite Hr. split; [lia|]. split; [done|]. replace (due + n - due) with n by lia. split; [apply Z_mod_same_full|].
  intros x Hx _. apply skipped. lia.
Qed.

Lemma next_due_correct_witness :
  let s := mkSchedule monthly 1 [] day 31 1 0 1 in
  nextRecurrenceDue s (makeDate 2024 0 31) = makeDate 2024 1 29
  /\ next_on s 1 (makeDate 2024 0 31) (nextRecurrenceDue s (makeDate 2024 0 31)).
Proof.
  intros s. split; [vm_compute; reflexivity|]. apply (next_due_correct s 1 31 1); [|vm_compute; discriminate].
  split; simpl; first [by split; [reflexivity | lia] | lia | constructor].
Defined.

(** *** The first date *)

Lemma recurrenceDate_id t : 100 <= getFullYear t -> recurrenceDate t = t.
Proof. intros H. unfold recurrenceDate. rewrite makeDate_getters; [done|]. right. lia. Qed.

Lemma first_date_spec candidate ok from count :
  match first_date candidate ok from count with
  | Some r => exists i, 0 <= i < Z.of_nat count /\ r = candidate (from + i) /\ ok r = true
      /\ forall j, 0 <= j < i -> ok (candidate (from + j)) = false
  | None => forall j, 0 <= j < Z.of_nat count -> ok (candidate (from + j)) = false
  end.
Proof.
  revert from. induction count as [|c IH]; intros from; cbn [first_date]; [lia|]. cbv zeta. destruct (ok (candidate from)) eqn:E.
  - exists 0. rewrite Z.add_0_r. split; [lia|]. split; [done|]. split; [done|]. lia.
  - specialize (IH (from + 1)). assert (Hj : forall j, j <> 0 -> candidate (from + j) = candidate (from + 1 + (j - 1))) by (intros; f_equal; lia).
    destruct (first_date _ _ _ _) as [r|].
    + destruct IH as (i & Hi & -> & Hok & Hno). exists (i + 1). split; [lia|]. split; [f_equal; lia|]. split; [done|]. intros j Hj'.
      destruct (decide (j = 0)) as [->|]; [by rewrite Z.add_0_r|]. rewrite Hj by done. apply Hno. lia.
    + intros j Hj'. destruct (decide (j = 0)) as [->|]; [by rewrite Z.add_0_r|]. rewrite Hj by done. apply IH. lia.
Qed.

(** The first date from [from] on that falls on the schedule. *)
Definition first_on (s : RecurrenceSchedule) (from r : Date) : Prop :=
  from <= r /\ falls_on s from r /\ forall x, from <= x < r -> ~ falls_on s from x.

Lemma getDay_shift t a : 0 <= a <= 6 -> getDay (t + (a - getDay t) mod 7) = a.
Proof.
  intros Ha. unfold getDay. pose proof (Z.div_mod (t + 4) 7 ltac:(lia)) as Hd. set (q := (t + 4) / 7) in *. set (g := (t + 4) mod 7) in *.
  replace (t + (a - g) mod 7 + 4) with (t + 4 + (a - g) mod 7) by lia. rewrite Zplus_mod_idemp_r.
  replace (t + 4 + (a - g)) with (a + q * 7) by lia. rewrite Z_mod_plus_full. apply Z.mod_small. lia.
Qed.

Lemma first_weekly s n d m from : well_formed s n d m -> frequency s = weekly -> 100 <= getFullYear from ->
  first_on s from (firstRecurrenceOnOrAfter s from).
Proof.
  intros Hwf Hf Hy. unfold firstRecurrenceOnOrAfter, first_on, falls_on. rewrite Hf, recurrenceDate_id by done.
  set (ds := match weekdays s with [] => [getDay from] | l => l end).
  assert (Hds : exists a, a ∈ ds /\ 0 <= a <= 6).
  { subst ds. pose proof (wf_weekdays _ _ _ _ Hwf) as Hw. pose proof (getDay_range from). destruct (weekdays s) as [|a l].
    - exists (getDay from). split; [left | lia].
    - inversion Hw; subst. exists a. split; [left | done]. }
  assert (Hcand : forall o, makeDate (getFullYear from) (getMonth from) (getDate from + o) = from + o).
  { intros o. rewrite makeDate_plain by (right; lia). destruct (monthIndex_fields from) as [<- _]. unfold getDate. lia. }
  pose proof (first_date_spec (fun o => makeDate (getFullYear from) (getMonth from) (getDate from + o)) (fun x => bool_decide (getDay x ∈ ds)) 0 7) as H.
  destruct (first_date _ _ 0 7) as [r|]; simpl default.
  - destruct H as (i & Hi & -> & Hok & Hno). simpl in *. rewrite Hcand in *. apply bool_decide_eq_true in Hok.
    split; [lia|]. split; [done|]. intros x Hx. specialize (Hno (x - from) ltac:(lia)). rewrite Hcand in Hno.
    apply bool_decide_eq_false in Hno. replace (from + (0 + (x - from))) with x in Hno by lia. done.
  - exfalso. destruct Hds as (a & Ha & Har). specialize (H ((a - getDay from) mod 7) ltac:(dlia)). simpl in H. rewrite Hcand in H.
    apply bool_decide_eq_false in H. apply H. rewrite Z.add_0_l, getDay_shift by done. done.
Qed.

Lemma first_monthly s n d m from : well_formed s n d m -> frequency s = monthly -> 100 <= getFullYear from ->
  first_on s from (firstRecurrenceOnOrAfter s from).
Proof.
  intros Hwf Hf Hy. destruct (monthIndex_fields from) as [Hk _]. set (k := monthIndex from) in *. pose proof (monthIndex_spec from) as Hfrom.
  fold k in Hfrom. pose proof (occurrence_in_month s n d m k Hwf) as Hocc. pose proof (occurrence_in_month s n d m (k + 1) Hwf) as Hocc'.
  assert (Hr : firstRecurrenceOnOrAfter s from = if from <=? occurrence s d k then occurrence s d k else occurrence s d (k + 1)).
  { unfold firstRecurrenceOnOrAfter. rewrite Hf, recurrenceDate_id by done. change 1%Q with (inject_Z 1).
    rewrite <- inject_Z_plus, !(monthOccurrence_eq s n d m) by (done || (right; lia)). rewrite Z.add_assoc, <- Hk. done. }
  assert (Hon : forall x, from <= x -> falls_on s from x <-> x = occurrence s d (monthIndex x)).
  { intros x Hx. apply (falls_on_monthly s n d m); [done..|]. pose proof (year_mono from x). lia. }
  rewrite Hr. unfold first_on. destruct (from <=? occurrence s d k) eqn:E; breflect.
  - assert (Hm : monthIndex (occurrence s d k) = k) by (apply monthIndex_unique; lia). split; [done|]. rewrite Hon, Hm by done.
    split; [done|]. intros x Hx Hx'. apply Hon in Hx'; [|lia]. assert (Hmx : monthIndex x = k) by (apply monthIndex_unique; lia).
    rewrite Hmx in Hx'. lia.
  - set (r := occurrence s d (k + 1)) in *. assert (Hm : monthIndex r = k + 1) by (apply monthIndex_unique; lia). split; [lia|].
    rewrite Hon, Hm by lia. split; [done|]. intros x Hx Hx'. apply Hon in Hx'; [|lia].
    pose proof (monthIndex_mono from x). pose proof (monthIndex_mono x r). fold k in H. rewrite Hm in H0.
    destruct (decide (monthIndex x = k)) as [Hx1|]; [rewrite Hx1 in Hx'; lia|].
    assert (Hx2 : monthIndex x = k + 1) by lia. rewrite Hx2 in Hx'. fold r in Hx'. lia.
Qed.

Lemma first_yearly s n d m from : well_formed s n d m -> frequency s = yearly -> 100 <= getFullYear from ->
  first_on s from (firstRecurrenceOnOrAfter s from).
Proof.
  intros Hwf Hf Hy. unfold firstRecurrenceOnOrAfter, first_on. rewrite Hf, recurrenceDate_id by done. set (y := getFullYear from) in *.
  assert (Hc : forall i, 0 <= i -> monthOccurrence s (inject_Z (y + i)) (month s - 1) = occurrence s d (12 * (y + i) + (m - 1))
    /\ getFullYear (occurrence s d (12 * (y + i) + (m - 1))) = y + i /\ falls_on s from (occurrence s d (12 * (y + i) + (m - 1)))).
  { intros i Hi. destruct (occurrence_of_year s n d m (y + i) Hwf ltac:(lia)) as (E & _ & Hyr & _ & Hon). auto. }
  assert (Hsame : forall x, from <= x -> falls_on s from x -> x = occurrence s d (12 * getFullYear x + (m - 1))).
  { intros x Hx (Hmx & Hox)%(falls_on_yearly s n d m); [|done | done | pose proof (year_mono from x); lia].
    destruct (monthIndex_fields x) as [Hkx _]. rewrite Hkx, Hmx in Hox. done. }
  pose proof (first_date_spec (fun y => monthOccurrence s (inject_Z y) (month s - 1)) (fun x => from <=? x) y 9) as H.
  destruct (first_date _ _ y 9) as [r|]; simpl default.
  - destruct H as (i & Hi & -> & Hok & Hno). destruct (Hc i ltac:(lia)) as (E & Hyr & Hon). simpl in *. rewrite E in *. breflect.
    split; [done|]. split; [done|]. intros x Hx Hx'. apply Hsame in Hx'; [|lia]. pose proof (year_mono from x).
    pose proof (year_mono x (occurrence s d (12 * (y + i) + (m - 1)))). rewrite Hyr in *. fold y in H.
    destruct (decide (getFullYear x = y + i)) as [Hx1|]; [rewrite Hx1 in Hx'; lia|].
    specialize (Hno (getFullYear x - y) ltac:(lia)). destruct (Hc (getFullYear x - y) ltac:(lia)) as (E' & _). rewrite E' in Hno.
    replace (y + (getFullYear x - y)) with (getFullYear x) in Hno by lia. rewrite <- Hx' in Hno. breflect. lia.
  - exfalso. specialize (H 1 ltac:(lia)). destruct (Hc 1 ltac:(lia)) as (E & Hyr & _). simpl in H. rewrite E in H. breflect.
    pose proof (year_mono (occurrence s d (12 * (y + 1) + (m - 1))) from ltac:(lia)). rewrite Hyr in *. fold y in H0. lia.
Qed.

(** The first date of a schedule is the earliest date on or after the
    given one that falls on its weekdays, day of the month or weekday of the month. *)
Theorem first_due_correct s n d m from : well_formed s n d m -> 100 <= getFullYear from ->
  first_on s from (firstRecurrenceOnOrAfter s from).
Proof.
  intros Hwf Hy. destruct (frequency s) eqn:Hf; [|by eapply first_weekly | by eapply first_monthly | by eapply first_yearly].
  unfold firstRecurrenceOnOrAfter, first_on, falls_on. rewrite Hf, recurrenceDate_id by done. split; [lia|]. split; [done|]. lia.
Qed.

Lemma first_due_correct_witness :
  let s := mkSchedule yearly 1 [] day 29 1 0 2 in
  firstRecurrenceOnOrAfter s (makeDate 2023 2 1) = makeDate 2024 1 29
  /\ first_on s (makeDate 2023 2 1) (firstRecurrenceOnOrAfter s (makeDate 2023 2 1)).
Proof.
  intros s. split; [vm_compute; reflexivity|]. apply (first_due_correct s 1 29 2); [|vm_compute; discriminate].
  split; simpl; first [by split; [reflexivity | lia] | lia | constructor].
Defined.

(** ** Stored text and back *)

(** Characters of a value that the parser takes as they are. *)
Fixpoint all_chars (p : ascii -> bool) (s : string) : bool :=
  match s with EmptyString => true | String c r => p c && all_chars p r end.

Definition plain_char (c : ascii) : bool :=
  negb (is_space c) && Ascii.eqb (upper_char c) c && negb (Ascii.eqb c ";") && negb (Ascii.eqb c "=").

Definition text_char (c : ascii) : bool := negb (is_space c) && Ascii.eqb (upper_char c) c.

Lemma all_chars_app p a b : all_chars p (a +:+ b) = all_chars p a && all_chars p b.
Proof. induction a as [|c a IH]; simpl; [done|]. by rewrite IH, andb_assoc. Qed.

Lemma all_chars_impl (p q : ascii -> bool) s : (forall c, p c = true -> q c = true) -> all_chars p s = true -> all_chars q s = true.
Proof. intros H. induction s as [|c s IH]; simpl; [done|]. intros [H1 H2]%andb_true_iff. by rewrite H, IH. Qed.

Lemma text_upper s : all_chars text_char s = true -> toUpperCase s = s.
Proof.
  induction s as [|c s IH]; simpl; [done|]. intros [Hc Hs]%andb_true_iff. unfold text_char in Hc. apply andb_true_iff in Hc as [_ Hc].
  apply Ascii.eqb_eq in Hc. change (String (upper_char c) (toUpperCase s) = String c s). by rewrite Hc, IH.
Qed.

Lemma text_trim s : all_chars text_char s = true -> trim s = s.
Proof.
  assert (He : forall s, all_chars text_char s = true -> trim_end s = s).
  { clear s. induction s as [|c r IH]; simpl; [done|]. intros [Hc Hr]%andb_true_iff. rewrite (IH Hr). unfold text_char in Hc.
    apply andb_true_iff in Hc as [Hc _]. apply negb_true_iff in Hc. rewrite Hc. by destruct r. }
  intros H. unfold trim. destruct s as [|c r]; [done|]. simpl trim_start. simpl in H. pose proof H as H'.
  apply andb_true_iff in H' as [Hc _]. unfold text_char in Hc. apply andb_true_iff in Hc as [Hc _]. apply negb_true_iff in Hc. rewrite Hc. by apply He.
Qed.

Lemma plain_text c : plain_char c = true -> text_char c = true.
Proof. unfold plain_char, text_char. by intros [[? _]%andb_true_iff _]%andb_true_iff. Qed.

Lemma plain_lacks s : all_chars plain_char s = true -> lacks ";" s = true /\ lacks "=" s = true.
Proof.
  induction s as [|c s IH]; simpl; [done|]. intros [Hc [H1 H2]%IH]%andb_true_iff. rewrite H1, H2. unfold plain_char in Hc.
  apply andb_true_iff in Hc as [Hc He]. apply andb_true_iff in Hc as [_ Hs]. by rewrite !andb_true_r.
Qed.

Definition part_of (kv : string * string) : string := fst kv +:+ "=" +:+ snd kv.
Definition plain_pair (kv : string * string) : Prop := all_chars plain_char (fst kv) = true /\ all_chars plain_char (snd kv) = true.

Lemma field_part k v : plain_pair (k, v) -> field (part_of (k, v)) = (k, Some v).
Proof.
  intros [Hk Hv]. apply plain_lacks in Hk as [_ Hk], Hv as [_ Hv]. unfold field, part_of. simpl fst. simpl snd.
  change ("=" +:+ v) with (String "=" v). by rewrite (split_char_app "=" k v Hk), split_char_none.
Qed.

Lemma parts_text kvs : Forall plain_pair kvs -> all_chars text_char (join ";" (map part_of kvs)) = true.
Proof.
  intros H. assert (Hp : forall kv, plain_pair kv -> all_chars text_char (part_of kv) = true).
  { intros [k v] [Hk Hv]. unfold part_of. rewrite !all_chars_app. simpl in *.
    by rewrite (all_chars_impl _ _ _ plain_text Hk), (all_chars_impl _ _ _ plain_text Hv). }
  induction H as [|kv l Hkv Hl IH]; [done|]. destruct l as [|kv' l]; [by apply Hp|].
  change (join ";" (map part_of (kv :: kv' :: l))) with (part_of kv +:+ ";" +:+ join ";" (map part_of (kv' :: l))).
  rewrite !all_chars_app, Hp by done. by rewrite IH.
Qed.

(** Parsing the text of a rule is parsing its fields. *)
Lemma parse_rule f rest anchor : Forall plain_pair (("FREQ", f) :: rest) ->
  parseRecurrence (Some (join ";" (map part_of (("FREQ", f) :: rest)))) anchor
  = parse_fields (fold_left (fun m kv => map_set (fst kv) (Some (snd kv)) m) (("FREQ", f) :: rest) []) (defaultRecurrence anchor weekly).
Proof.
  intros H. set (kvs := ("FREQ", f) :: rest) in *. set (raw := join ";" (map part_of kvs)).
  assert (Hhead : exists r, raw = String "F" r).
  { subst raw kvs. destruct rest as [|kv rest]; [by eexists|].
    change (join ";" (map part_of (("FREQ", f) :: kv :: rest))) with (part_of ("FREQ", f) +:+ ";" +:+ join ";" (map part_of (kv :: rest))). by eexists. }
  assert (Hfields : to_fields (split ";" raw) = fold_left (fun m kv => map_set (fst kv) (Some (snd kv)) m) kvs []).
  { subst raw. rewrite split_join_char; [|done|].
    - unfold to_fields. clear Hhead. generalize (@nil (string * option string)). clearbody kvs.
      induction H as [|[k v] l Hkv Hl IH]; intros m; [done|]. cbn [map fold_left]. rewrite field_part by done. apply IH.
    - clear Hhead. clearbody kvs. induction H as [|[k v] l [Hk Hv] Hl IH]; constructor; [|done]. unfold part_of. rewrite !lacks_app. simpl in *.
      apply plain_lacks in Hk as [-> _], Hv as [-> _]. done. }
  unfold parseRecurrence. change (default "" (Some raw)) with raw. pose proof (parts_text kvs H) as Ht. fold raw in Ht.
  rewrite (text_trim raw Ht), (text_upper raw Ht), <- Hfields. destruct Hhead as [r ->]. reflexivity.
Qed.

(** The numbers a schedule can hold, printed and read. *)
Lemma small_number z : -1 <= z <= 99 ->
  all_chars plain_char (showZ z) = true /\ Number (showZ z) = Some (inject_Z z) /\ show_number (inject_Z z) = showZ z.
Proof.
  intros Hz. assert (H : forallb (fun z => all_chars plain_char (showZ z) && bool_decide (Number (showZ z) = Some (inject_Z z))
    && (show_number (inject_Z z) =s showZ z)) (seqZ (-1) 101) = true) by (vm_compute; reflexivity).
  rewrite forallb_forall in H. specialize (H z). rewrite <- list_elem_of_In, elem_of_seqZ in H. specialize (H ltac:(lia)).
  apply andb_true_iff in H as [H H3]. apply andb_true_iff in H as [H1 H2]. apply bool_decide_eq_true in H2. breflect. done.
Qed.

Lemma whole_interval_Z n : 1 <= n <= 99 -> whole_interval (inject_Z n) = n.
Proof.
  intros H. unfold whole_interval. assert (Hr : Qfloor (inject_Z n + (1 # 2)) = n).
  { unfold Qfloor, inject_Z, Qplus. cbn [Qnum Qden]. dlia. }
  rewrite Hr. destruct (n =? 0) eqn:E; breflect; unfold MAX_RECURRENCE_INTERVAL; lia.
Qed.

(** The interval a rule reads back. *)
Lemma interval_back n : 1 <= n <= 99 -> clamp_interval (num_or (Number (showZ n)) 1) = inject_Z n.
Proof.
  intros H. destruct (small_number n ltac:(lia)) as (_ & -> & _). unfold num_or, clamp_interval.
  assert (E : Qeq_bool (inject_Z n) 0 = false) by (unfold Qeq_bool; simpl; rewrite Z.mul_1_r; apply Z.eqb_neq; lia).
  rewrite E, q_max_one by lia. rewrite q_min_Z. f_equal. unfold MAX_RECURRENCE_INTERVAL. lia.
Qed.

Lemma number_back z d : -1 <= z <= 99 -> z <> 0 -> num_or (Number (showZ z)) d = inject_Z z.
Proof.
  intros H Hz. destruct (small_number z H) as (_ & -> & _). unfold num_or.
  assert (E : Qeq_bool (inject_Z z) 0 = false) by (unfold Qeq_bool; simpl; rewrite Z.mul_1_r; by apply Z.eqb_neq). by rewrite E.
Qed.

(** The days of a week from Monday, in the order [byMonday] sorts them. *)
Definition week : list Z := [1; 2; 3; 4; 5; 6; 0].

Lemma insert_week x (p : Z -> bool) : 0 <= x <= 6 -> p x = false ->
  insert_by byMonday x (List.filter p week) = List.filter (fun y => (y =? x) || p y) week.
Proof.
  intros Hx. assert (Hc : x = 0 \/ x = 1 \/ x = 2 \/ x = 3 \/ x = 4 \/ x = 5 \/ x = 6) by lia. unfold week. simpl.
  destruct Hc as [->|[->|[->|[->|[->|[->| ->]]]]]]; intros ->; simpl;
    repeat match goal with |- context [p ?y] => destruct (p y) end; reflexivity.
Qed.

Lemma sort_week l : NoDup l -> Forall (fun x => 0 <= x <= 6) l -> sort_by byMonday l = List.filter (fun y => bool_decide (y ∈ l)) week.
Proof.
  intros Hnd Hl. induction Hnd as [|x l Hx Hnd IH]; [done|]. inversion Hl; subst. simpl sort_by. rewrite IH by done.
  rewrite insert_week; [|done | by rewrite bool_decide_false]. apply List.filter_ext. intros y. destruct (decide (y = x)) as [->|Hne].
  - rewrite Z.eqb_refl. simpl. symmetry. apply bool_decide_true. left.
  - assert (E : (y =? x) = false) by (by apply Z.eqb_neq). rewrite E. simpl. apply bool_decide_ext. rewrite elem_of_cons. by intuition.
Qed.

(** The text of a set of weekdays, and the set it is read as. *)
Definition week_text (days : list Z) : string := join "," (map (fun d => code_at d ?? "") days).
Definition week_read (v : string) : list Z :=
  sort_by byMonday (List.filter (fun d => 0 <=? d) (map code_index (List.filter truthy (split "," v)))).

Fixpoint sublists {A} (l : list A) : list (list A) :=
  match l with [] => [[]] | x :: r => map (cons x) (sublists r) ++ sublists r end.

Lemma filter_sublists {A} (p : A -> bool) l : List.filter p l ∈ sublists l.
Proof.
  induction l as [|x l IH]; simpl; [left|]. apply elem_of_app. destruct (p x); [left; by apply list_elem_of_fmap_2 | by right].
Qed.

Lemma week_back days : days ∈ sublists week -> days <> [] ->
  all_chars plain_char (week_text days) = true /\ week_read (week_text days) = days
  /\ omap ordinal_day (List.filter truthy (split "," (week_text days))) = [] /\ List.filter truthy (split "," (week_text days)) <> [].
Proof.
  intros Hin Hne. assert (H : forallb (fun days => bool_decide (days = []) || (all_chars plain_char (week_text days)
    && bool_decide (week_read (week_text days) = days) && bool_decide (omap ordinal_day (List.filter truthy (split "," (week_text days))) = [])
    && negb (bool_decide (List.filter truthy (split "," (week_text days)) = [])))) (sublists week) = true) by (vm_compute; reflexivity).
  rewrite forallb_forall in H. apply list_elem_of_In in Hin. specialize (H _ Hin). rewrite bool_decide_false in H by done. simpl in H.
  apply andb_true_iff in H as [H H4]. apply andb_true_iff in H as [H H3]. apply andb_true_iff in H as [H1 H2].
  apply negb_true_iff, bool_decide_eq_false in H4. apply bool_decide_eq_true in H2, H3. done.
Qed.

Lemma ordinal_back o w : (o = -1 \/ 1 <= o <= 4) -> 0 <= w <= 6 ->
  exists code, code_at w = Some code /\ all_chars plain_char (showZ o +:+ code) = true
  /\ List.filter truthy (split "," (showZ o +:+ code)) = [showZ o +:+ code]
  /\ ordinal_day (showZ o +:+ code) = Some (o, code) /\ Z.max 0 (code_index code) = w.
Proof.
  intros Ho Hw. assert (H : forallb (fun o => forallb (fun w => match code_at w with
      | Some code => all_chars plain_char (showZ o +:+ code) && bool_decide (List.filter truthy (split "," (showZ o +:+ code)) = [showZ o +:+ code])
                     && bool_decide (ordinal_day (showZ o +:+ code) = Some (o, code)) && (Z.max 0 (code_index code) =? w)
      | None => false end) week) [-1; 1; 2; 3; 4] = true) by (vm_compute; reflexivity).
  rewrite forallb_forall in H. specialize (H o ltac:(simpl; lia)). rewrite forallb_forall in H. specialize (H w ltac:(simpl; lia)).
  destruct (code_at w) as [code|]; [|done]. exists code. apply andb_true_iff in H as [H H4]. apply andb_true_iff in H as [H H3].
  apply andb_true_iff in H as [H1 H2]. apply bool_decide_eq_true in H2, H3. breflect. done.
Qed.

(** What a schedule means: the fields its frequency and its mode use, the weekdays as a set. *)
Definition same_mode (s t : RecurrenceSchedule) : Prop :=
  monthMode t = monthMode s
  /\ match monthMode s with day => monthDay t = monthDay s | weekday_mode => ordinal t = ordinal s /\ weekday t = weekday s end.

Definition same_schedule (s t : RecurrenceSchedule) : Prop :=
  frequency t = frequency s /\ interval t = interval s
  /\ match frequency s with
     | daily => True
     | weekly => weekdays t = sort_by byMonday (unique (weekdays s))
     | monthly => same_mode s t
     | yearly => same_mode s t /\ month t = month s
     end.

(** The fields of a serialised rule: its frequency, its interval above one, and [tail]. *)
Definition rule_fields (f : RecurrenceFrequency) (n : Z) (tail : list (string * string)) : list (string * string) :=
  ("FREQ", freq_upper f) :: (if 1 <? n then [("INTERVAL", showZ n)] else []) ++ tail.

Lemma rule_plain f n tail : 1 <= n <= 99 -> Forall plain_pair tail -> Forall plain_pair (rule_fields f n tail).
Proof.
  intros Hn Ht. constructor; [by destruct f|]. apply Forall_app. split; [|done]. destruct (1 <? n); [|done].
  constructor; [|done]. split; [done|]. by destruct (small_number n ltac:(lia)).
Qed.

(** The schedule of a rule, from the fields that are left. *)
Lemma rule_back f n tail anchor : 1 <= n <= 99 -> Forall plain_pair tail ->
  Forall (fun kv => fst kv <> "FREQ" /\ fst kv <> "INTERVAL") tail ->
  exists fields, parseRecurrence (Some (join ";" (map part_of (rule_fields f n tail)))) anchor = parse_fields fields (defaultRecurrence anchor weekly)
  /\ field_value "FREQ" fields = Some (freq_upper f)
  /\ clamp_interval (num_or (match field_value "INTERVAL" fields with Some v => Number v | None => Some 1%Q end) 1) = inject_Z n
  /\ forall k, k <> "FREQ" -> k <> "INTERVAL" ->
       map_get k fields = map_get k (fold_left (fun m kv => map_set (fst kv) (Some (snd kv)) m) tail []).
Proof.
  intros Hn Ht Hk. eexists. split; [apply (parse_rule (freq_upper f)); by apply rule_plain|]. cbn [fold_left fst snd map_set].
  rewrite fold_left_app.
  assert (Hframe : forall k (tail : list (string * string)) (m : list (string * option string)), Forall (fun kv => fst kv <> k) tail ->
    map_get k (fold_left (fun m kv => map_set (fst kv) (Some (snd kv)) m) tail m) = map_get k m).
  { clear. intros k tail m H. revert m. induction H as [|kv l Hkv Hl IH]; intros m; simpl; [done|]. rewrite IH. by apply map_get_set_ne. }
  assert (Hsame : forall k (tail : list (string * string)) (m m' : list (string * option string)), map_get k m = map_get k m' ->
    map_get k (fold_left (fun m kv => map_set (fst kv) (Some (snd kv)) m) tail m)
    = map_get k (fold_left (fun m kv => map_set (fst kv) (Some (snd kv)) m) tail m')).
  { clear. intros k tail. induction tail as [|kv l IH]; intros m m' H; simpl; [done|]. apply IH.
    destruct (decide (k = fst kv)) as [->|Hne]; [by rewrite !map_get_set_eq | by rewrite !map_get_set_ne]. }
  set (M := fold_left _ _ [("FREQ", Some (freq_upper f))]).
  assert (HM : M = ("FREQ", Some (freq_upper f)) :: (if 1 <? n then [("INTERVAL", Some (showZ n))] else [])) by (subst M; by destruct (1 <? n)).
  clearbody M. subst M. unfold field_value. split; [|split].
  - rewrite Hframe by (eapply Forall_impl; [exact Hk|]; simpl; tauto). by destruct (1 <? n).
  - rewrite Hframe by (eapply Forall_impl; [exact Hk|]; simpl; tauto). destruct (1 <? n) eqn:E; breflect.
    + change (map_get "INTERVAL" _) with (Some (Some (showZ n))). by apply interval_back.
    + assert (n = 1) as -> by lia. reflexivity.
  - intros k H1 H2. apply Hsame. destruct (1 <? n); simpl; repeat (rewrite decide_False by done); done.
Qed.

Lemma parse_freq f : (toLowerCase <$> Some (freq_upper f)) ≫= parse_frequency = Some f.
Proof. by destruct f. Qed.

Lemma roundtrip_weekly s n d m anchor : well_formed s n d m -> weekdays s <> [] -> frequency s = weekly ->
  exists t, parseRecurrence (Some (serializeRecurrence s)) anchor = Some t /\ same_schedule s t.
Proof.
  intros Hwf Hne Hf. destruct (wf_interval _ _ _ _ Hwf) as [Hi Hn]. unfold serializeRecurrence, same_schedule. rewrite Hf, Hi, whole_interval_Z by done.
  set (days := sort_by byMonday (unique (weekdays s))). destruct (unique_spec (weekdays s)) as [Hnd Hin].
  assert (Hdays : days ∈ sublists week /\ days <> []).
  { split.
    - subst days. rewrite sort_week; [apply filter_sublists | done|]. apply Forall_forall. intros x Hx%Hin.
      pose proof (wf_weekdays _ _ _ _ Hwf) as Hw. rewrite Forall_forall in Hw. auto.
    - intros E. destruct (weekdays s) as [|x l] eqn:Ew; [done|]. assert (Hx : x ∈ days) by (subst days; rewrite sort_by_elem, Hin; left).
      rewrite E in Hx. by apply not_elem_of_nil in Hx. }
  destruct Hdays as [Hsub Hdne]. cbv zeta. destruct ((n =? 1) && bool_decide (days = WORKDAYS)) eqn:E.
  - apply andb_true_iff in E as [E1 E2]. apply bool_decide_eq_true in E2. breflect. subst n. eexists. split; [reflexivity|]. simpl. by rewrite E2.
  - clear E. assert (Hd : match days with [] => [1] | _ => days end = days) by (by destruct days). rewrite Hd.
    destruct (week_back days Hsub Hdne) as (Hp & Hr & Hom & Hnil). clear Hd.
    destruct (rule_back weekly n [("BYDAY", week_text days)] anchor Hn) as (fields & Hparse & Hfreq & Hint & Hget);
      [by constructor; [split; [reflexivity|]|] | by repeat constructor |].
    assert (Hjoin : join ";" (["FREQ=" +:+ freq_upper weekly] ++ (if 1 <? n then ["INTERVAL=" +:+ showZ n] else []) ++ ["BYDAY=" +:+ week_text days])
      = join ";" (map part_of (rule_fields weekly n [("BYDAY", week_text days)]))) by (unfold rule_fields; by destruct (1 <? n)).
    fold (week_text days). rewrite <- app_assoc, Hjoin, Hparse. unfold parse_fields. rewrite Hfreq, parse_freq, Hint. unfold map_has, field_value. rewrite !Hget by done.
    set (M := fold_left _ [("BYDAY", week_text days)] []). assert (G1 : map_get "BYDAY" M = Some (Some (week_text days))) by reflexivity.
    assert (G2 : map_get "BYMONTHDAY" M = None) by reflexivity. assert (G3 : map_get "BYMONTH" M = None) by reflexivity. clearbody M.
    rewrite G1, G2, G3. change (Some (week_text days) ?? "") with (week_text days). rewrite Hom. eexists. split; [reflexivity|].
    unfold week_read in Hr. destruct (List.filter truthy (split "," (week_text days))) eqn:E; [done|]. by split; [|split].
Qed.

(** The field that holds the day of the month or the weekday of the month. *)
Definition mode_field (s : RecurrenceSchedule) : string * string :=
  match monthMode s with
  | weekday_mode => ("BYDAY", showZ (ordinal s) +:+ (code_at (weekday s) ?? "undefined"))
  | day => ("BYMONTHDAY", show_number (monthDay s))
  end.

Lemma mode_plain s n d m : well_formed s n d m -> plain_pair (mode_field s).
Proof.
  intros Hwf. unfold mode_field. destruct (monthMode s).
  - destruct (wf_monthDay _ _ _ _ Hwf) as [-> Hd]. destruct (small_number d ltac:(lia)) as (Hp & _ & Hs). split; [done|]. simpl snd. by rewrite Hs.
  - destruct (ordinal_back (ordinal s) (weekday s)) as (code & Hc & Hp & _); [apply Hwf..|]. split; [done|]. simpl snd. by rewrite Hc.
Qed.

(** The schedule read from fields that hold the mode of [s]. *)
Lemma mode_back s n d m f fields base : well_formed s n d m ->
  field_value "FREQ" fields = Some (freq_upper f) ->
  clamp_interval (num_or (match field_value "INTERVAL" fields with Some v => Number v | None => Some 1%Q end) 1) = inject_Z n ->
  map_get (fst (mode_field s)) fields = Some (Some (snd (mode_field s))) ->
  map_get (match monthMode s with day => "BYDAY" | weekday_mode => "BYMONTHDAY" end) fields = None ->
  monthMode base = day ->
  exists t, parse_fields fields base = Some t /\ frequency t = f /\ interval t = interval s /\ same_mode s t
    /\ month t = match map_get "BYMONTH" fields with Some v => num_or (v ≫= Number) (month base) | None => month base end.
Proof.
  intros Hwf Hf Hi Hmode Hother Hbase. destruct (wf_interval _ _ _ _ Hwf) as [Hn _]. unfold parse_fields, same_mode. rewrite Hf, parse_freq, Hi, Hn.
  unfold map_has, field_value. unfold mode_field in Hmode. destruct (monthMode s).
  - destruct (wf_monthDay _ _ _ _ Hwf) as [Hd Hrange]. destruct (small_number d ltac:(lia)) as (_ & _ & Hs).
    rewrite Hd, Hs in Hmode. simpl in Hmode. rewrite Hmode, Hother. cbv zeta.
    change (List.filter truthy (split "," (None ?? ""))) with (@nil string). cbn [omap list_omap isSome].
    change (Some (showZ d) ≫= Number) with (Number (showZ d)). rewrite number_back by lia.
    eexists. split; [reflexivity|]. destruct (map_get "BYMONTH" fields) as [v|]; by rewrite Hd.
  - destruct (ordinal_back (ordinal s) (weekday s)) as (code & Hc & _ & Hsplit & Hord & Hw); [apply Hwf..|].
    rewrite Hc in Hmode. simpl in Hmode. rewrite Hmode, Hother. cbv zeta.
    change (Some (showZ (ordinal s) +:+ code) ?? "") with (showZ (ordinal s) +:+ code). rewrite Hsplit. cbn [omap list_omap]. rewrite Hord. cbn [isSome].
    eexists. split; [reflexivity|]. destruct (map_get "BYMONTH" fields) as [v|]; by rewrite Hw.
Qed.

Lemma byDay_part s : (match monthMode s with
    | weekday_mode => "BYDAY=" +:+ showZ (ordinal s) +:+ (code_at (weekday s) ?? "undefined")
    | day => "BYMONTHDAY=" +:+ show_number (monthDay s) end) = part_of (mode_field s).
Proof. unfold mode_field, part_of. by destruct (monthMode s). Qed.

Lemma rule_join f n tail : join ";" (["FREQ=" +:+ freq_upper f] ++ (if 1 <? n then ["INTERVAL=" +:+ showZ n] else []) ++ map part_of tail)
  = join ";" (map part_of (rule_fields f n tail)).
Proof. unfold rule_fields. by destruct (1 <? n). Qed.

(** A well-formed schedule that is stored and parsed again, with any
    anchor, has the same meaning: the same frequency and interval, the same set of weekdays sorted
    from Monday, the same day or weekday of the month and the same month of the year. *)
Theorem recurrence_roundtrip s n d m anchor : well_formed s n d m -> weekdays s <> [] ->
  exists t, parseRecurrence (Some (serializeRecurrence s)) anchor = Some t /\ same_schedule s t.
Proof.
  intros Hwf Hne. destruct (frequency s) eqn:Hf; [| by eapply roundtrip_weekly |..];
    destruct (wf_interval _ _ _ _ Hwf) as [Hi Hn]; pose proof (mode_plain _ _ _ _ Hwf) as Hp;
    unfold serializeRecurrence, same_schedule; rewrite Hf, Hi, whole_interval_Z by done.
  - destruct (n =? 1) eqn:E; breflect; [subst n; eexists; split; [reflexivity|]; by repeat split|].
    destruct (rule_back daily n [] anchor Hn) as (fields & Hparse & Hfreq & Hint & Hget); [done..|].
    assert (Hj : "FREQ=DAILY;INTERVAL=" +:+ showZ n = join ";" (map part_of (rule_fields daily n []))).
    { unfold rule_fields. assert ((1 <? n) = true) as -> by (apply Z.ltb_lt; lia). reflexivity. }
    rewrite Hj, Hparse. unfold parse_fields. rewrite Hfreq, parse_freq, Hint. cbv zeta. eexists. split; [reflexivity|]. by repeat case_match.
  - rewrite byDay_part, <- app_assoc. change [part_of (mode_field s)] with (map part_of [mode_field s]). rewrite rule_join.
    destruct (rule_back monthly n [mode_field s] anchor Hn) as (fields & -> & Hfreq & Hint & Hget);
      [by constructor | by constructor; [unfold mode_field; destruct (monthMode s)|]|].
    destruct (mode_back s n d m monthly fields (defaultRecurrence anchor weekly) Hwf Hfreq Hint) as (t & -> & Hft & Hit & Hm & _);
      [| | done | by exists t; rewrite <- Hi].
    + rewrite Hget; [|by unfold mode_field; destruct (monthMode s)..]. by unfold mode_field; destruct (monthMode s).
    + rewrite Hget; [|by destruct (monthMode s)..]. by unfold mode_field; destruct (monthMode s).
  - destruct (wf_month _ _ _ _ Hwf) as [Hmo Hmr]. destruct (small_number m ltac:(lia)) as (Hpm & _ & Hsm).
    rewrite byDay_part, Hmo, Hsm, <- app_assoc.
    change ["BYMONTH=" +:+ showZ m; part_of (mode_field s)] with (map part_of [("BYMONTH", showZ m); mode_field s]). rewrite rule_join.
    destruct (rule_back yearly n [("BYMONTH", showZ m); mode_field s] anchor Hn) as (fields & -> & Hfreq & Hint & Hget);
      [by constructor; [split|constructor] | by constructor; [|constructor; [unfold mode_field; destruct (monthMode s)|]]|].
    destruct (mode_back s n d m yearly fields (defaultRecurrence anchor weekly) Hwf Hfreq Hint) as (t & -> & Hft & Hit & Hm & Hmt); [| | done |].
    + rewrite Hget; [|by unfold mode_field; destruct (monthMode s)..]. by unfold mode_field; destruct (monthMode s).
    + rewrite Hget; [|by destruct (monthMode s)..]. by unfold mode_field; destruct (monthMode s).
    + exists t. rewrite <- Hi. repeat (split; [done|]). rewrite Hmt, Hget by done.
      assert (map_get "BYMONTH" (fold_left (fun m kv => map_set (fst kv) (Some (snd kv)) m) [("BYMONTH", showZ m); mode_field s] []) = Some (Some (showZ m))) as ->
        by (unfold mode_field; by destruct (monthMode s)).
      apply number_back; lia.
Qed.

Lemma recurrence_roundtrip_witness :
  let s := mkSchedule yearly 3 [5; 1; 5] weekday_mode 31 (-1) 5 11 in
  serializeRecurrence s = "FREQ=YEARLY;INTERVAL=3;BYMONTH=11;BYDAY=-1FR"
  /\ exists t, parseRecurrence (Some (serializeRecurrence s)) 0 = Some t /\ same_schedule s t.
Proof.
  intros s. split; [vm_compute; reflexivity|]. apply (recurrence_roundtrip s 3 31 11 0); [|discriminate].
  split; simpl; first [by split; [reflexivity | lia] | lia | repeat constructor; lia].
Defined.
