(* ===== verification/Mapping.v ===== *)
(** * From harness streams to runner events: the shared part (sandbox-runner/src/mapping/common.ts)

    A harness (Claude Code, Codex, OpenCode, Pi) writes one JSON record per line; a mapper turns
    the records into the events Flow shows and keeps the outcome of the turn.  Here are the
    event factory, the helpers, and the interface of a mapper, [StreamMapper], with the laws every
    mapper keeps: [MapperLaws].  The theorems about whole streams are proved once, against the
    laws.

    A mapper produces drafts; [stamp] is the part of [make] that gives an event its id, its turn
    and its time.  Events are created in the order they are returned, so the n-th draft of a stream
    gets the n-th id.  [relative] of node:path is an argument.  Strings are code units below 256. *)

From Stdlib Require Import ZArith Lia Bool List Ascii QArith.
From stdpp Require Import base list strings.
From S2P Require Import Prelude JsString JsMap JsNumber Json Regex Protocol.

Open Scope Z_scope.

(** ** Values of records *)

Definition js_truthy (v : option json) : bool :=
  match v with
  | None | Some JNull => false
  | Some (JBool b) => b
  | Some (JNum n) => negb (Qeq_bool n 0)
  | Some (JStr s) => truthy s
  | Some _ => true
  end.

(** [a ?? b] *)
Definition nullish (a b : option json) : option json := match a with None | Some JNull => b | _ => a end.

(** [v === s] for a string literal. *)
Definition is_str (v : option json) (s : string) : bool := match v with Some (JStr t) => t =s s | _ => false end.
Definition is_true (v : option json) : bool := match v with Some (JBool true) => true | _ => false end.
Definition is_false (v : option json) : bool := match v with Some (JBool false) => true | _ => false end.

(** The properties of a record; [asRecord] is [Some] of them, and an absent record has none. *)
Abbreviation fields := (list (string * json)).
Definition asRecord (v : option json) : option fields := match v with Some (JObj fs) => Some fs | _ => None end.
Definition get (k : string) (r : fields) : option json := map_get k r.
Definition or_record (r : option fields) : fields := r ?? [].

Definition asString (v : option json) : string := match v with Some j => join_text j | None => "" end.
Definition asNumber (v : option json) : Q := match v with Some (JNum n) => n | _ => 0%Q end.
Definition asArray (v : option json) : list json := match v with Some (JArr l) => l | _ => [] end.

(** ** Text *)

(** Characters above 255 are written in the bytes of their UTF-8 encoding. *)
Definition ellipsis : string := "…".
Definition replacement_character : string := "�".

(** [Buffer.from(s, 'utf8')] and [toString('utf8')] for code units below 256. *)
Definition code (c : ascii) : Z := Z.of_nat (nat_of_ascii c).
Definition utf8_char (c : ascii) : list Z :=
  if code c <? 128 then [code c] else [Z.lor 192 (Z.shiftr (code c) 6); Z.lor 128 (Z.land (code c) 63)].
Fixpoint utf8 (s : string) : list Z := match s with EmptyString => [] | String c r => utf8_char c ++ utf8 r end.

Definition char_of (n : Z) : ascii := ascii_of_nat (Z.to_nat n).
Definition continuation (b : Z) : bool := Z.land b 192 =? 128.

Fixpoint from_utf8 (l : list Z) : string :=
  match l with
  | [] => ""
  | b :: r =>
      if b <? 128 then String (char_of b) (from_utf8 r)
      else match r with
           | b2 :: r2 => if continuation b2 then String (char_of (Z.lor (Z.shiftl (Z.land b 31) 6) (Z.land b2 63))) (from_utf8 r2)
                         else replacement_character +:+ from_utf8 r
           | [] => replacement_character
           end
  end.

(** The loop that moves [start] to the next character. *)
Fixpoint skip_continuations (l : list Z) : list Z :=
  match l with b :: r => if continuation b then skip_continuations r else l | [] => [] end.

Definition RESULT_TAIL_BYTES : Z := 4096.
Definition tail (s : string) (bytes : Z) : string :=
  let buffer := utf8 s in
  let n := Z.of_nat (length buffer) in
  if n <=? bytes then s else ellipsis +:+ from_utf8 (skip_continuations (drop (Z.to_nat (n - bytes)) buffer)).

(** [text.replace(/\s+/g, ' ')] *)
Fixpoint collapse (after_space : bool) (s : string) : string :=
  match s with
  | EmptyString => ""
  | String c r => if is_space c then (if after_space then collapse true r else String " " (collapse true r)) else String c (collapse false r)
  end.

Definition truncate (s : string) (max : nat) : string :=
  let single := trim (collapse false s) in
  if (String.length single <=? max)%nat then single else slice 0 (max - 1) single +:+ ellipsis.

Definition ends_with (s suffix : string) : bool :=
  (String.length suffix <=? String.length s)%nat && (slice_from (String.length s - String.length suffix) s =s suffix).

Definition countLines (v : option json) : Z :=
  match v with
  | Some (JStr s) =>
      if s =s "" then 0
      else let n := Z.of_nat (length (split newline s)) in if ends_with s newline then n - 1 else n
  | _ => 0
  end.

(** The names of the properties every object has, such as [toString], are not statuses of a harness
    and are left out. *)
Definition planStatus (v : option json) : PlanStatus :=
  match v with
  | Some (JStr s) =>
      if (s =s "in_progress") || (s =s "inprogress") || (s =s "inProgress") then pl_inProgress
      else if (s =s "completed") || (s =s "done") then pl_completed
      else if (s =s "cancelled") || (s =s "canceled") then pl_canceled else pl_pending
  | _ => pl_pending
  end.

(** ** Errors *)

Definition quota_pattern : regex :=
  alts [lit "quota_exceeded"; Seq Bound (Seq (lit "402") Bound); lit "spend limit"; lit "payment required"].
Definition model_pattern : regex :=
  alts [Seq (lit "model") (Seq (Upto 80 (fun x => negb (x =? 10)))
          (alts [Seq (lit "not") (Seq (one_of " _") (lit "found")); lit "does not exist"; lit "unavailable"; lit "not supported"]));
        lit "model_not_found"; lit "unknown model"; lit "invalid model"].

Definition classifyError (message : string) : CodingErrorCode :=
  if regex_test quota_pattern (units message) then quotaExceeded
  else if regex_test model_pattern (units message) then modelUnavailable else harnessFailed.

Definition harnessError (message : string) : ErrorDetail :=
  let clean := if truthy (trim message) then trim message else "the agent failed" in
  {| err_code := classifyError clean; err_message := truncate clean 2000 |}.

(** ** Tools *)

(** [inherited] stands for the properties every object has, which the table of kinds yields for
    the names [constructor] and [__proto__]. *)
Inductive ToolKind :=
  | k_command | k_edit | k_read | k_search | k_fetch | k_websearch | k_task | k_plan | k_askUser | k_flow | k_other | k_inherited.

(** [.] does not match a line terminator. *)
Fixpoint one_line (s : string) : bool :=
  match s with EmptyString => true | String c r => negb ((nat_of_ascii c =? 10)%nat || (nat_of_ascii c =? 13)%nat) && one_line r end.

(** [/^(?:mcp__flow__|flow_|flow__)(.+)$/] *)
Definition flowToolName (name : string) : option string :=
  let rest p := if startsWith p name
                then let r := slice_from (String.length p) name in if truthy r && one_line r then Some r else None
                else None in
  match rest "mcp__flow__" with
  | Some r => Some r
  | None => match rest "flow_" with Some r => Some r | None => rest "flow__" end
  end.

Definition toolKinds (name : string) : ToolKind :=
  let any l := existsb (String.eqb name) l in
  if any ["bash"; "shell"] then k_command
  else if any ["edit"; "write"; "multiedit"; "notebookedit"; "patch"; "apply_patch"] then k_edit
  else if any ["read"; "notebookread"; "ls"; "list"] then k_read
  else if any ["grep"; "glob"] then k_search
  else if any ["webfetch"] then k_fetch
  else if any ["websearch"] then k_websearch
  else if any ["task"; "agent"] then k_task
  else if any ["todowrite"] then k_plan
  else if any ["constructor"; "__proto__"] then k_inherited else k_other.

Definition toolKind (name : string) : ToolKind :=
  match flowToolName name with
  | Some t => if t =s "ask_user" then k_askUser else k_flow
  | None => toolKinds (toLowerCase name)
  end.

Definition readActionLabel (k : ToolKind) : string := match k with k_search => "Searched" | _ => "Read" end.

Definition askUserBody (input : option json) : string :=
  let args := or_record (asRecord input) in
  let q := trim (asString (get "question" args)) in
  let question := if truthy q then q else "The agent needs your input." in
  let options := List.filter truthy (map (fun o => asString (Some o)) (asArray (get "options" args))) in
  match options with
  | [] => question
  | _ => question +:+ newline +:+ newline +:+ join newline (map (fun o => "- " +:+ o) options)
  end.

Definition flowToolLabel (tool : string) : string :=
  match trim (map_string (fun c => if Ascii.eqb c "_" then " "%char else c) tool) with
  | EmptyString => ""
  | String c r => String (upper_char c) r
  end.

(** ** Changed lines *)

Definition count_line (skip_headers : bool) (acc : Z * Z) (line : string) : Z * Z :=
  let '(a, d) := acc in
  if skip_headers && (startsWith "+++" line || startsWith "---" line) then acc
  else if startsWith "+" line then (a + 1, d) else if startsWith "-" line then (a, d + 1) else acc.

Definition strings_of (l : list json) : list string := omap (fun v => match v with JStr s => Some s | _ => None end) l.

Definition countPatchLines (v : option json) : option (Z * Z) :=
  match v with
  | Some (JArr hunks) =>
      Some (fold_left (count_line false) (hunks ≫= fun h => strings_of (asArray (get "lines" (or_record (asRecord (Some h)))))) (0, 0))
  | _ => None
  end.

Definition countUnifiedDiff (v : option json) : option (Z * Z) :=
  match v with
  | Some (JStr d) => if truthy d then Some (fold_left (count_line true) (split newline d) (0, 0)) else None
  | _ => None
  end.

(** ** Events *)

(** The fields of an event without its id, turn and time. *)
Record Draft := mkDraft {
  d_type : RunnerEventType; d_ephemeral : option bool; d_body : option string; d_action : option ActionDetail;
  d_plan : option (list AgentPlanStep); d_diff : option (list CodingDiffSummary); d_error : option ErrorDetail;
  d_usage : option UsageDetail; d_phase : option string }.

Definition empty_draft (t : RunnerEventType) : Draft := mkDraft t None None None None None None None None.

(** [ephemeral || undefined] *)
Definition flag (b : bool) : option bool := if b then Some true else None.

Definition compactAction (a : ActionDetail) : ActionDetail :=
  let keep (o : option string) := match o with Some s => if truthy s then Some s else None | None => None end in
  {| act_action := act_action a; act_parameter := keep (act_parameter a); act_result := keep (act_result a);
     act_tool := keep (act_tool a); act_exitCode := act_exitCode a |}.

Definition thought (body : string) (ephemeral : bool) : Draft := mkDraft ev_thought (flag ephemeral) (Some body) None None None None None None.
Definition action (a : ActionDetail) (ephemeral : bool) : Draft :=
  mkDraft ev_action (flag ephemeral) None (Some (compactAction a)) None None None None None.
Definition response (body : string) : Draft := mkDraft ev_response None (Some body) None None None None None None.
Definition elicitation (body : string) : Draft := mkDraft ev_elicitation None (Some body) None None None None None None.
Definition error (e : ErrorDetail) : Draft := mkDraft ev_error None (Some (err_message e)) None None None (Some e) None None.
Definition plan (p : list AgentPlanStep) : Draft := mkDraft ev_plan None None None (Some p) None None None None.
Definition diff (d : list CodingDiffSummary) : Draft := mkDraft ev_diff None None None None (Some d) None None None.
Definition usage (u : UsageDetail) : Draft := mkDraft ev_usage None None None None None None (Some u) None.
Definition status (phase : string) (body : option string) : Draft := mkDraft ev_status None body None None None None None (Some phase).

(** [MapperOptions] with the generators of the factory: the n-th id and the n-th time. *)
Record MapperOptions := mkOptions {
  o_turnId : option string; o_cwd : option string; o_model : option string; o_newId : nat -> string; o_now : nat -> string }.

(** [make] *)
Definition stamp (o : MapperOptions) (n : nat) (d : Draft) : RunnerEvent :=
  {| ev_id := o_newId o n; ev_turnId := match o_turnId o with Some t => if truthy t then Some t else None | None => None end;
     ev_type := d_type d; ev_ephemeral := d_ephemeral d; ev_body := d_body d; ev_actionDetail := d_action d; ev_planSteps := d_plan d;
     ev_diffs := d_diff d; ev_errorDetail := d_error d; ev_usageDetail := d_usage d; ev_phase := d_phase d; ev_createdAt := o_now o n |}.

(** The parts of an action that most tools fill. *)
Definition act (label parameter : string) (result tool : option string) (exit : option Q) : ActionDetail :=
  {| act_action := label; act_parameter := Some parameter; act_result := result; act_tool := tool; act_exitCode := exit |}.

(** [JSON.stringify(input)], shortened. *)
Definition input_text (input : fields) : string := truncate (stringify_json (JObj input)) 200.

Definition todo_plan (todos : list json) : list AgentPlanStep :=
  map (fun todo => let item := or_record (asRecord (Some todo)) in
    {| step_content := asString (get "content" item); step_status := planStatus (get "status" item) |}) todos.

(** ** The outcome of a turn *)

Record TurnOutcome := mkOutcome {
  harnessSessionId : option string; model : option string; finalText : option string; t_error : option ErrorDetail;
  t_usage : option UsageDetail; elicited : bool; completed : bool }.

Definition initial_outcome (o : MapperOptions) : TurnOutcome :=
  mkOutcome None (match o_model o with Some m => if truthy m then Some m else None | None => None end) None None None false false.

Definition with_session (v : option string) (t : TurnOutcome) := mkOutcome v (model t) (finalText t) (t_error t) (t_usage t) (elicited t) (completed t).
Definition with_model (v : option string) (t : TurnOutcome) := mkOutcome (harnessSessionId t) v (finalText t) (t_error t) (t_usage t) (elicited t) (completed t).
Definition with_text (v : option string) (t : TurnOutcome) := mkOutcome (harnessSessionId t) (model t) v (t_error t) (t_usage t) (elicited t) (completed t).
Definition with_error (v : ErrorDetail) (t : TurnOutcome) := mkOutcome (harnessSessionId t) (model t) (finalText t) (Some v) (t_usage t) (elicited t) (completed t).
Definition with_usage (v : UsageDetail) (t : TurnOutcome) := mkOutcome (harnessSessionId t) (model t) (finalText t) (t_error t) (Some v) (elicited t) (completed t).
Definition with_elicited (t : TurnOutcome) := mkOutcome (harnessSessionId t) (model t) (finalText t) (t_error t) (t_usage t) true (completed t).
Definition with_completed (b : bool) (t : TurnOutcome) := mkOutcome (harnessSessionId t) (model t) (finalText t) (t_error t) (t_usage t) (elicited t) b.

(** ** Paths and lines *)

Definition isAbsolute (p : string) : bool := startsWith "/" p.

Definition relativePath (relative : string -> string -> string) (v : option json) (cwd : option string) : string :=
  match v with
  | Some (JStr path) =>
      match cwd with
      | Some c =>
          if truthy c && isAbsolute path then
            let rel := relative c path in
            if truthy rel && negb (startsWith ".." rel) && negb (isAbsolute rel) then rel else path
          else path
      | None => path
      end
  | _ => ""
  end.

Definition parseJsonl (JSON_parse : string -> option json) (s : string) : list json :=
  omap (fun line => let t := trim line in if startsWith "{" t then JSON_parse t else None) (split newline s).

(** ** Held-back text *)

(** [flushText]: the text held back becomes a thought. *)
Definition flushText (pending : option string) : list Draft :=
  match pending with Some p => if truthy (trim p) then [thought (trim p) false] else [] | None => [] end.

(** The text held back, as it will be said. *)
Definition held (pending : option string) : list string :=
  match pending with Some p => if truthy (trim p) then [trim p] else [] | None => [] end.

(** ** The interface of a mapper *)

Class StreamMapper := {
  MState : Type;
  m_init : MapperOptions -> MState;
  m_map : MapperOptions -> json -> MState -> MState * list Draft;
  m_finish : MState -> MState * list Draft;
  m_outcome : MState -> TurnOutcome }.

Fixpoint m_records `{StreamMapper} (o : MapperOptions) (l : list json) (s : MState) : MState * list Draft :=
  match l with
  | [] => (s, [])
  | r :: l' => let '(s1, d1) := m_map o r s in let '(s2, d2) := m_records o l' s1 in (s2, d1 ++ d2)
  end.

(** A whole stream: every record, then the end of the harness. *)
Definition m_stream `{StreamMapper} (o : MapperOptions) (l : list json) : MState * list Draft :=
  let '(s1, d1) := m_records o l (m_init o) in let '(s2, d2) := m_finish s1 in (s2, d1 ++ d2).

Definition m_events `{StreamMapper} (o : MapperOptions) (l : list json) : list RunnerEvent := imap (stamp o) (snd (m_stream o l)).

(** ** What events show of a turn *)

(** What the agent said for good: responses, and thoughts that are not ephemeral. *)
Definition said_one (d : Draft) : option string :=
  match d_type d, d_ephemeral d with ev_response, _ | ev_thought, None => d_body d | _, _ => None end.
Definition said (l : list Draft) : list string := omap said_one l.

(** The question, error, usage and answer last shown. *)
Record Seen := mkSeen { seen_elicited : bool; seen_error : option ErrorDetail; seen_usage : option UsageDetail; seen_answer : option string }.

Definition see (s : Seen) (d : Draft) : Seen :=
  match d_type d with
  | ev_elicitation => mkSeen true (seen_error s) (seen_usage s) (seen_answer s)
  | ev_error => mkSeen (seen_elicited s) (d_error d) (seen_usage s) (seen_answer s)
  | ev_usage => mkSeen (seen_elicited s) (seen_error s) (d_usage d) (seen_answer s)
  | ev_response => mkSeen (seen_elicited s) (seen_error s) (seen_usage s) (d_body d)
  | _ => s
  end.
Definition sees (s : Seen) (l : list Draft) : Seen := fold_left see l s.
Definition nothing_seen : Seen := mkSeen false None None None.

(** The outcome says what was shown: a text in it that is not empty is the last answer. *)
Definition shows (t : TurnOutcome) (s : Seen) : Prop :=
  elicited t = seen_elicited s /\ t_error t = seen_error s /\ t_usage t = seen_usage s
  /\ (finalText t = seen_answer s \/ finalText t = Some "").

(** ** The laws of a mapper *)

(** [held_text] is what a state holds back, [texts] what a record says, and [answer] the text a
    record gives in place of what is held back. *)
Class MapperLaws (M : StreamMapper) := {
  held_text : MState -> list string;
  texts : json -> list string;
  answer : json -> option string;
  law_init : forall o, held_text (m_init o) = [] /\ shows (m_outcome (m_init o)) nothing_seen;
  law_held : forall s, (length (held_text s) <= 1)%nat;
  law_said : forall o r s, let '(s', ds) := m_map o r s in
    said ds ++ held_text s' = match answer r with Some a => [a] | None => held_text s ++ texts r end;
  law_finish : forall s, let '(s', ds) := m_finish s in said ds = held_text s /\ held_text s' = [];
  law_shows : forall o r s v, let '(s', ds) := m_map o r s in shows (m_outcome s) v -> shows (m_outcome s') (sees v ds);
  law_finish_shows : forall s v, let '(s', ds) := m_finish s in shows (m_outcome s) v -> shows (m_outcome s') (sees v ds) }.

(** [told before l all]: a stream that has said or holds [before] and goes on with [l] says [all] in
    total: every text of the records in order, an answer replacing at most the text held back. *)
Inductive told `{MapperLaws} : list string -> list json -> list string -> Prop :=
  | told_end before : told before [] before
  | told_texts before r l all : answer r = None -> told (before ++ texts r) l all -> told before (r :: l) all
  | told_answer before kept r l a all : answer r = Some a -> (before = kept \/ exists x, before = kept ++ [x]) ->
      told (kept ++ [a]) l all -> told before (r :: l) all.

Lemma said_app a b : said (a ++ b) = said a ++ said b.
Proof. apply omap_app. Qed.

Lemma sees_app v a b : sees v (a ++ b) = sees (sees v a) b.
Proof. apply fold_left_app. Qed.

Section Streams.
Context `{ML : MapperLaws}.

Lemma records_shows o l s v : let '(s', ds) := m_records o l s in shows (m_outcome s) v -> shows (m_outcome s') (sees v ds).
Proof.
  revert s v. induction l as [|r l IH]; intros s v; simpl; [done|]. pose proof (law_shows o r s v) as H.
  destruct (m_map o r s) as [s1 d1]. specialize (IH s1 (sees v d1)). destruct (m_records o l s1) as [s2 d2]. rewrite sees_app. auto.
Qed.

Lemma records_told o l s before : let '(s', ds) := m_records o l s in
  told (before ++ held_text s) l (before ++ said ds ++ held_text s').
Proof.
  revert s before. induction l as [|r l IH]; intros s before; simpl; [constructor|]. pose proof (law_said o r s) as H.
  destruct (m_map o r s) as [s1 d1]. specialize (IH s1 (before ++ said d1)). destruct (m_records o l s1) as [s2 d2].
  rewrite said_app, <- app_assoc. rewrite <- !app_assoc in IH. rewrite H in IH. destruct (answer r) as [a|] eqn:Ha.
  - eapply told_answer; [exact Ha | | exact IH]. pose proof (law_held s) as Hl. destruct (held_text s) as [|x [|y k]]; simpl in Hl; [|eauto | lia].
    left. apply app_nil_r.
  - apply told_texts; [done|]. by rewrite <- app_assoc.
Qed.

(** The events of a whole stream say everything its records said, and show what its outcome says. *)
Lemma stream_faithful o l : let '(s, ds) := m_stream o l in told [] l (said ds) /\ shows (m_outcome s) (sees nothing_seen ds).
Proof.
  unfold m_stream. destruct (law_init o) as [Hheld Hshow]. pose proof (records_told o l (m_init o) []) as Ht.
  pose proof (records_shows o l (m_init o) nothing_seen) as Hs. destruct (m_records o l (m_init o)) as [s1 d1].
  pose proof (law_finish s1) as Hf. pose proof (law_finish_shows s1 (sees nothing_seen d1)) as Hfs. destruct (m_finish s1) as [s2 d2].
  destruct Hf as [Hf _]. rewrite said_app, sees_app, Hf. rewrite Hheld in Ht. simpl in Ht. auto.
Qed.
End Streams.

(** ** Drafts that neither speak nor decide the outcome *)

Definition quiet (d : Draft) : bool :=
  match d_type d, d_ephemeral d with
  | ev_action, _ | ev_plan, _ | ev_diff, _ | ev_status, _ | ev_thought, Some _ => true
  | _, _ => false
  end.

Lemma quiet_said l : forallb quiet l = true -> said l = [].
Proof.
  induction l as [|d l IH]; simpl; [done|]. intros [Hd Hl]%andb_true_iff.
  change (said (d :: l)) with (match said_one d with Some y => y :: said l | None => said l end). unfold quiet in Hd. unfold said_one.
  destruct (d_type d), (d_ephemeral d); try done; auto.
Qed.

Lemma quiet_sees v l : forallb quiet l = true -> sees v l = v.
Proof.
  revert v. induction l as [|d l IH]; intros v; simpl; [done|]. intros [Hd Hl]%andb_true_iff. unfold quiet in Hd. unfold see.
  destruct (d_type d), (d_ephemeral d); try done; auto.
Qed.

Lemma flush_said p : said (flushText p) = held p.
Proof. unfold flushText, held. destruct p as [p|]; [|done]. by destruct (truthy (trim p)). Qed.

Lemma flush_sees v p : sees v (flushText p) = v.
Proof. unfold flushText. destruct p as [p|]; [|done]. by destruct (truthy (trim p)). Qed.

Lemma held_short p : (length (held p) <= 1)%nat.
Proof. unfold held. destruct p as [p|]; simpl; [|lia]. destruct (truthy (trim p)); simpl; lia. Qed.

Create Rewrite HintDb mapping.
#[export] Hint Rewrite said_app sees_app flush_said flush_sees : mapping.
Ltac msimpl := autorewrite with mapping; simpl.

Lemma is_str_other v a b : is_str v a = true -> a <> b -> is_str v b = false.
Proof. unfold is_str. destruct v as [[]|]; try done. intros ->%String.eqb_eq Hne. by apply String.eqb_neq. Qed.


(** The usage event at the end of a turn. *)
Lemma used_sees t v : sees v (match t_usage t with Some u => [usage u] | None => [] end)
  = mkSeen (seen_elicited v) (seen_error v) (match t_usage t with Some u => Some u | None => seen_usage v end) (seen_answer v).
Proof. by destruct (t_usage t), v. Qed.

Lemma used_said t : said (match t_usage t with Some u => [usage u] | None => [] end) = [].
Proof. by destruct (t_usage t). Qed.


(** ** The end of a text *)

(** The longest end of a text of at most [bytes] bytes. *)
Fixpoint fit (bytes : Z) (s : string) : string :=
  if byteLength s <=? bytes then s else match s with String _ r => fit bytes r | EmptyString => "" end.

Lemma utf8_char_cases c :
  (utf8_char c = [code c] /\ code c < 128 /\ continuation (code c) = false /\ char_of (code c) = c /\ byteLength (String c "") = 1)
  \/ (exists a b, utf8_char c = [a; b] /\ 128 <= a /\ continuation a = false /\ continuation b = true
       /\ char_of (Z.lor (Z.shiftl (Z.land a 31) 6) (Z.land b 63)) = c /\ byteLength (String c "") = 2).
Proof.
  destruct (code c <? 128) eqn:E; [left | right; exists (Z.lor 192 (Z.shiftr (code c) 6)), (Z.lor 128 (Z.land (code c) 63))];
    revert E; destruct c as [[] [] [] [] [] [] [] []]; vm_compute; try discriminate; repeat split; done.
Qed.

Lemma byteLength_cons c r : byteLength (String c r) = byteLength (String c "") + byteLength r.
Proof. simpl. lia. Qed.

Lemma utf8_length s : Z.of_nat (length (utf8 s)) = byteLength s.
Proof.
  induction s as [|c r IH]; [done|]. cbn [utf8]. rewrite byteLength_cons, length_app.
  destruct (utf8_char_cases c) as [(-> & _ & _ & _ & ->) | (a & b & -> & _ & _ & _ & _ & ->)]; cbn [length]; lia.
Qed.

Lemma from_utf8_utf8 s : from_utf8 (utf8 s) = s.
Proof.
  induction s as [|c r IH]; [done|]. cbn [utf8].
  destruct (utf8_char_cases c) as [(-> & H & _ & Hc & _) | (a & b & -> & H & _ & Hb & Hc & _)]; cbn [app from_utf8].
  - rewrite (proj2 (Z.ltb_lt _ _) H). by rewrite Hc, IH.
  - rewrite (proj2 (Z.ltb_ge _ _) H), Hb. by rewrite Hc, IH.
Qed.

Lemma skip_utf8 s : skip_continuations (utf8 s) = utf8 s.
Proof.
  destruct s as [|c r]; [done|]. cbn [utf8].
  destruct (utf8_char_cases c) as [(-> & _ & H & _) | (a & b & -> & _ & H & _)]; cbn [app skip_continuations]; by rewrite H.
Qed.

Lemma fit_all bytes s : byteLength s <= bytes -> fit bytes s = s.
Proof. intros H%Z.leb_le. destruct s; cbn [fit]; by rewrite H. Qed.

Lemma fit_cons bytes c r : bytes < byteLength (String c r) -> fit bytes (String c r) = fit bytes r.
Proof. intros H%Z.leb_gt. cbn [fit]. by rewrite H. Qed.

Lemma cut_fit s n : (n <= length (utf8 s))%nat -> from_utf8 (skip_continuations (drop n (utf8 s))) = fit (byteLength s - Z.of_nat n) s.
Proof.
  revert n. induction s as [|c r IH]; intros n Hn; [destruct n; [done | simpl in Hn; lia]|].
  destruct n as [|n]; [rewrite drop_0, skip_utf8, from_utf8_utf8, fit_all; [done | lia]|].
  rewrite fit_cons by lia. cbn [utf8] in *. rewrite byteLength_cons. pose proof (utf8_length r) as Hr.
  destruct (utf8_char_cases c) as [(E & _ & _ & _ & Hl) | (a & b & E & _ & _ & Hb & _ & Hl)]; rewrite E, Hl in *; cbn [app length] in *.
  - cbn [drop]. rewrite IH by lia. f_equal. lia.
  - destruct n as [|n]; cbn [drop].
    + cbn [skip_continuations]. rewrite Hb, skip_utf8, from_utf8_utf8, fit_all; [done | lia].
    + rewrite IH by lia. f_equal. lia.
Qed.

Lemma tail_fit s bytes : 0 <= bytes -> tail s bytes = if byteLength s <=? bytes then s else ellipsis +:+ fit bytes s.
Proof.
  intros H. unfold tail. rewrite utf8_length. destruct (Z.leb_spec (byteLength s) bytes) as [|E]; [done|]. f_equal.
  pose proof (utf8_length s). rewrite cut_fit by lia. f_equal. lia.
Qed.

(** [kept] is the longest end of [s] of at most [bytes] bytes. *)
Definition longest_end (s : string) (bytes : Z) (kept : string) : Prop :=
  (exists cut, s = cut +:+ kept) /\ byteLength kept <= bytes
  /\ forall a b, s = a +:+ b -> byteLength b <= bytes -> (String.length b <= String.length kept)%nat.

Lemma fit_longest s bytes : 0 <= bytes -> longest_end s bytes (fit bytes s).
Proof.
  intros H. induction s as [|c r (Hcut & Hlen & Hmax)].
  - rewrite fit_all by done. split; [by exists ""|]. split; [done|]. intros [|? ?] b [=]; subst; simpl; lia.
  - destruct (decide (byteLength (String c r) <= bytes)) as [E|E].
    + rewrite fit_all by done. split; [by exists ""|]. split; [done|]. intros a b Hab _. rewrite Hab.
      clear. induction a; simpl; lia.
    + rewrite fit_cons by lia. split; [destruct Hcut as [cut Hcut]; exists (String c cut); simpl; by rewrite <- Hcut|]. split; [done|].
      intros [|c' a] b Hab Hb; [simpl in Hab; subst; lia|]. injection Hab as -> Hab. by eapply Hmax.
Qed.

(** The part of an output kept in an event is the output itself when it fits, and
    otherwise a mark followed by its longest end of whole characters within the limit. *)
Theorem tail_correct (s : string) (bytes : Z) (H : 0 <= bytes) :
  (byteLength s <= bytes -> tail s bytes = s)
  /\ (bytes < byteLength s -> exists kept, tail s bytes = ellipsis +:+ kept /\ longest_end s bytes kept).
Proof.
  rewrite (tail_fit _ _ H). destruct (Z.leb_spec (byteLength s) bytes); (split; intros ?); try lia; [done|].
  exists (fit bytes s). split; [done | by apply fit_longest].
Qed.

(** An é is two bytes: three bytes from the end are inside the first one, which is left out. *)
Lemma tail_correct_witness : exists s, byteLength s = 4 /\ tail s 3 = ellipsis +:+ slice_from 1 s
  /\ exists kept, tail s 3 = ellipsis +:+ kept /\ longest_end s 3 kept.
Proof.
  exists (String (ascii_of_nat 233) (String (ascii_of_nat 233) "")). split; [reflexivity|]. split; [vm_compute; reflexivity|].
  apply (tail_correct (String (ascii_of_nat 233) (String (ascii_of_nat 233) "")) 3); [lia | reflexivity].
Defined.
