(* ===== verification/MapClaude.v ===== *)
(** * Claude Code's stream (sandbox-runner/src/mapping/claude.ts)

    The mapper as a step function on records.  [relative] is node:path's. *)

From Stdlib Require Import ZArith Lia Bool List Ascii QArith.
From stdpp Require Import base list strings.
From S2P Require Import Prelude JsString JsMap JsNumber Json Regex Protocol Mapping.

Open Scope Z_scope.

Record ToolUse := mkUse { u_name : string; u_kind : ToolKind; u_input : fields }.

Record ClaudeState := mkClaude { c_outcome : TurnOutcome; c_tools : list (string * ToolUse); c_pending : option string }.

Definition new_ClaudeMapper (o : MapperOptions) : ClaudeState := mkClaude (initial_outcome o) [] None.

Definition set_outcome (t : TurnOutcome) (s : ClaudeState) : ClaudeState := mkClaude t (c_tools s) (c_pending s).
Definition set_pending (p : option string) (s : ClaudeState) : ClaudeState := mkClaude (c_outcome s) (c_tools s) p.

Definition resultText (content : option json) : string :=
  match content with
  | Some (JStr s) => s
  | _ => join newline (List.filter truthy (map (fun part =>
           match asRecord (Some part) with Some b => if is_str (get "type" b) "text" then asString (get "text" b) else "" | None => "" end)
           (asArray content)))
  end.

(** [/^(?:Error: )?Exit code (\d+)/m]: the number at the first line that starts so. *)
Definition exit_here (s : string) : option Q :=
  let s := if startsWith "Error: " s then slice_from 7 s else s in
  if startsWith "Exit code " s then inject_Z <$> digits_value (fst (take_digits (slice_from 10 s))) else None.

Fixpoint exit_code (line_start : bool) (s : string) : option Q :=
  match (if line_start then exit_here s else None) with
  | Some n => Some n
  | None => match s with
            | EmptyString => None
            | String c r => exit_code ((nat_of_ascii c =? 10)%nat || (nat_of_ascii c =? 13)%nat) r
            end
  end.

Section Claude.
Context (relative : string -> string -> string) (cwd : option string).

Definition editPath (input : fields) : string :=
  relativePath relative (nullish (nullish (get "file_path" input) (get "notebook_path" input)) (get "path" input)) cwd.

Definition readParameter (input : fields) : string :=
  if js_truthy (get "file_path" input) || js_truthy (get "path" input) then
    let path := relativePath relative (nullish (get "file_path" input) (get "path" input)) cwd in
    if js_truthy (get "pattern" input) then asString (get "pattern" input) +:+ " in " +:+ path else path
  else asString (nullish (get "pattern" input) (get "query" input)).

Definition editDiff (name : string) (input : fields) (path : string) (extra : option fields) : CodingDiffSummary :=
  let created := is_str (extra ≫= get "type") "create" in
  let st := if created then df_added else df_modified in
  let summary a d st := {| diff_path := path; diff_additions := a; diff_deletions := d; diff_status := st |} in
  let counted := match countPatchLines (extra ≫= get "structuredPatch") with
    | Some (a, d) => if (0 <? a) || (0 <? d) then Some (summary a d st) else None
    | None => None
    end in
  match counted with
  | Some r => r
  | None =>
      if name =s "Write" then summary (countLines (get "content" input)) 0 st
      else if name =s "MultiEdit" then
        let '(a, d) := fold_left (fun '(a, d) edit => let e := or_record (asRecord (Some edit)) in
            (a + countLines (get "new_string" e), d + countLines (get "old_string" e))) (asArray (get "edits" input)) (0, 0) in
        summary a d df_modified
      else if name =s "NotebookEdit" then summary (countLines (get "new_source" input)) 0 df_modified
      else summary (countLines (get "new_string" input)) (countLines (get "old_string" input)) df_modified
  end.

Definition toolUse (id name : string) (input : fields) (s : ClaudeState) : ClaudeState * list Draft :=
  let kind := toolKind name in
  let s := mkClaude (c_outcome s) (map_set id (mkUse name kind input) (c_tools s)) (c_pending s) in
  let shown label parameter := (s, [action (act label parameter None (Some name) None) true]) in
  match kind with
  | k_command => shown "Ran command" (asString (get "command" input))
  | k_edit => shown "Editing" (editPath input)
  | k_read | k_search => shown (readActionLabel kind) (readParameter input)
  | k_fetch => shown "Fetched" (asString (get "url" input))
  | k_websearch => shown "Searched the web" (asString (get "query" input))
  | k_task => shown "Delegated to subagent" (asString (get "description" input))
  | k_plan => (s, [plan (todo_plan (asArray (get "todos" input)))])
  | k_askUser => (set_outcome (with_elicited (c_outcome s)) s, [elicitation (askUserBody (Some (JObj input)))])
  | k_flow => let tool := flowToolName name ?? name in (s, [action (act (flowToolLabel tool) (input_text input) None (Some tool) None) true])
  | k_other | k_inherited => shown name (input_text input)
  end.

Definition toolResult (use : ToolUse) (t : string) (isError : bool) (extra : option fields) : list Draft :=
  let '(mkUse name kind input) := use in
  let shown label parameter result exit := [action (act label parameter result (Some name) exit) false] in
  match kind with
  | k_command =>
      let exit := match exit_code true t with Some n => n | None => if isError then 1%Q else 0%Q end in
      shown "Ran command" (asString (get "command" input)) (Some (tail t RESULT_TAIL_BYTES)) (Some exit)
  | k_edit =>
      let path := editPath input in
      if isError then shown "Edit failed" path (Some (tail t 1024)) None
      else shown "Edited" path None None ++ [diff [editDiff name input path extra]]
  | k_fetch => shown "Fetched" (asString (get "url" input)) (if isError then Some (tail t 1024) else None) None
  | k_websearch => shown "Searched the web" (asString (get "query" input)) None None
  | k_task => shown "Delegated to subagent" (asString (get "description" input)) (Some (tail t 2048)) None
  | k_flow => let tool := flowToolName name ?? name in [action (act (flowToolLabel tool) (input_text input) (Some (tail t 1024)) (Some tool) None) false]
  | k_other => shown name (input_text input) (Some (tail t 1024)) None
  | _ => []
  end.

Definition toolResults (message : option fields) (extra : option fields) (s : ClaudeState) : list Draft :=
  asArray (message ≫= get "content") ≫= fun raw =>
    match asRecord (Some raw) with
    | Some block =>
        if is_str (get "type" block) "tool_result" then
          match map_get (asString (get "tool_use_id" block)) (c_tools s) with
          | Some use => toolResult use (resultText (get "content" block)) (is_true (get "is_error" block)) extra
          | None => []
          end
        else []
    | None => []
    end.

(** One block of an assistant message. *)
Definition assistant_block (raw : json) (s : ClaudeState) : ClaudeState * list Draft :=
  match asRecord (Some raw) with
  | None => (s, [])
  | Some block =>
      let flushed := flushText (c_pending s) in
      if is_str (get "type" block) "thinking" then
        let t := trim (asString (get "thinking" block)) in
        (set_pending None s, flushed ++ (if truthy t then [thought t true] else []))
      else if is_str (get "type" block) "text" then (set_pending (Some (asString (get "text" block))) s, flushed)
      else if is_str (get "type" block) "tool_use" then
        let '(s', ds) := toolUse (asString (get "id" block)) (asString (get "name" block)) (or_record (asRecord (get "input" block))) (set_pending None s) in
        (s', flushed ++ ds)
      else (s, [])
  end.

Fixpoint assistant (content : list json) (s : ClaudeState) : ClaudeState * list Draft :=
  match content with
  | [] => (s, [])
  | raw :: r => let '(s1, d1) := assistant_block raw s in let '(s2, d2) := assistant r s1 in (s2, d1 ++ d2)
  end.

Definition result (rec : fields) (s : ClaudeState) : ClaudeState * list Draft :=
  let t := with_completed true (c_outcome s) in
  let t := match asRecord (get "usage" rec) with
    | Some u => with_usage {| us_model := model t ?? "";
        us_inputTokens := (asNumber (get "input_tokens" u) + asNumber (get "cache_creation_input_tokens" u) + asNumber (get "cache_read_input_tokens" u))%Q;
        us_outputTokens := asNumber (get "output_tokens" u);
        us_costUsd := match get "total_cost_usd" rec with Some (JNum n) => Some n | _ => None end |} t
    | None => t
    end in
  let r := trim (asString (get "result" rec)) in
  let used t := match t_usage t with Some u => [usage u] | None => [] end in
  if is_str (get "subtype" rec) "success" && negb (is_true (get "is_error" rec)) then
    let final := if truthy r then r else match c_pending s with Some p => trim p | None => "" end in
    let t := with_text (Some final) t in
    (mkClaude t (c_tools s) None, (if truthy final then [response final] else []) ++ used t)
  else
    let errors := match get "errors" rec with Some (JArr l) => join newline (map (fun e => asString (Some e)) l) | _ => "" end in
    let subtype := asString (get "subtype" rec) in
    let message := if truthy r then r else if truthy errors then errors
      else if is_str (get "subtype" rec) "error_max_turns" then "The agent reached its maximum number of turns."
      else "The agent stopped with " +:+ (if truthy subtype then subtype else "an error") +:+ "." in
    let t := with_error (harnessError message) t in
    (mkClaude t (c_tools s) None, flushText (c_pending s) ++ [error (harnessError message)] ++ used t).

Definition claude_map (record : json) (s : ClaudeState) : ClaudeState * list Draft :=
  match asRecord (Some record) with
  | None => (s, [])
  | Some rec =>
      let sessionId := asString (get "session_id" rec) in
      let s := if truthy sessionId then set_outcome (with_session (Some sessionId) (c_outcome s)) s else s in
      let type := get "type" rec in
      if is_str type "system" then
        (if is_str (get "subtype" rec) "init" && js_truthy (get "model" rec)
         then set_outcome (with_model (Some (asString (get "model" rec))) (c_outcome s)) s else s, [])
      else if is_str type "assistant" then
        if js_truthy (get "parent_tool_use_id" rec) then (s, []) else assistant (asArray (asRecord (get "message" rec) ≫= get "content")) s
      else if is_str type "user" then
        if js_truthy (get "parent_tool_use_id" rec) then (s, [])
        else (s, toolResults (asRecord (get "message" rec)) (asRecord (get "tool_use_result" rec)) s)
      else if is_str type "result" then result rec s
      else (s, [])
  end.

Definition claude_finish (s : ClaudeState) : ClaudeState * list Draft := (set_pending None s, flushText (c_pending s)).
End Claude.

#[export] Instance ClaudeMapper (relative : string -> string -> string) : StreamMapper :=
  {| MState := ClaudeState; m_init := new_ClaudeMapper; m_map o := claude_map relative (o_cwd o); m_finish := claude_finish; m_outcome := c_outcome |}.

(** ** The laws *)

Definition block_texts (raw : json) : list string :=
  match asRecord (Some raw) with Some b => if is_str (get "type" b) "text" then held (Some (asString (get "text" b))) else [] | None => [] end.

Definition claude_texts (record : json) : list string :=
  match asRecord (Some record) with
  | Some rec =>
      if is_str (get "type" rec) "assistant" && negb (js_truthy (get "parent_tool_use_id" rec))
      then asArray (asRecord (get "message" rec) ≫= get "content") ≫= block_texts else []
  | None => []
  end.

(** The text of a successful result. *)
Definition result_answer (rec : fields) : option string :=
  let r := trim (asString (get "result" rec)) in
  if is_str (get "subtype" rec) "success" && negb (is_true (get "is_error" rec)) && truthy r then Some r else None.

Definition claude_answer (record : json) : option string :=
  match asRecord (Some record) with
  | Some rec => if is_str (get "type" rec) "result" then result_answer rec else None
  | None => None
  end.

Section Laws.
Context (relative : string -> string -> string) (cwd : option string).

Lemma toolUse_ok id name input s : let '(s', ds) := toolUse relative cwd id name input s in
  said ds = [] /\ c_pending s' = c_pending s /\ forall v, shows (c_outcome s) v -> shows (c_outcome s') (sees v ds).
Proof. unfold toolUse. destruct (toolKind name); (split; [done|]; split; [done|]; intros v (H1 & H2 & H3 & H4); by repeat split). Qed.

Lemma toolResult_quiet use t isError extra : forallb quiet (toolResult relative cwd use t isError extra) = true.
Proof. destruct use as [name kind input]. simpl. by destruct kind; try destruct isError. Qed.

Lemma toolResults_quiet m extra s : forallb quiet (toolResults relative cwd m extra s) = true.
Proof.
  unfold toolResults. induction (asArray (m ≫= get "content")) as [|raw l IH]; [done|]. cbn [mbind list_bind]. rewrite forallb_app.
  apply andb_true_iff. split; [|exact IH]. destruct (asRecord (Some raw)) as [b|]; [|done]. destruct (is_str _ _); [|done].
  destruct (map_get _ _); [apply toolResult_quiet | done].
Qed.

Lemma assistant_block_ok raw s : let '(s', ds) := assistant_block relative cwd raw s in
  said ds ++ held (c_pending s') = held (c_pending s) ++ block_texts raw /\ forall v, shows (c_outcome s) v -> shows (c_outcome s') (sees v ds).
Proof.
  unfold assistant_block, block_texts. destruct (asRecord (Some raw)) as [b|]; [|by rewrite app_nil_r].
  destruct (is_str (get "type" b) "thinking") eqn:E1.
  { rewrite (is_str_other _ _ "text" E1) by done. destruct (truthy (trim (asString (get "thinking" b))));
      (split; [autorewrite with mapping; simpl; by rewrite ?app_nil_r | intros v Hv; by autorewrite with mapping]). }
  destruct (is_str (get "type" b) "text") eqn:E2; [split; [by autorewrite with mapping | intros v Hv; by autorewrite with mapping]|].
  destruct (is_str (get "type" b) "tool_use") eqn:E3; [|by rewrite app_nil_r].
  pose proof (toolUse_ok (asString (get "id" b)) (asString (get "name" b)) (or_record (asRecord (get "input" b))) (set_pending None s)) as H.
  destruct (toolUse relative cwd _ _ _ _) as [s' ds]. destruct H as (Hs & Hp & Hv). autorewrite with mapping. rewrite Hs, Hp. simpl.
  split; [by rewrite !app_nil_r|]. intros v Hsh. autorewrite with mapping. by apply Hv.
Qed.

Lemma assistant_ok content s : let '(s', ds) := assistant relative cwd content s in
  said ds ++ held (c_pending s') = held (c_pending s) ++ (content ≫= block_texts) /\ forall v, shows (c_outcome s) v -> shows (c_outcome s') (sees v ds).
Proof.
  revert s. induction content as [|raw r IH]; intros s; simpl; [by rewrite app_nil_r|]. pose proof (assistant_block_ok raw s) as H.
  destruct (assistant_block relative cwd raw s) as [s1 d1]. specialize (IH s1). destruct (assistant relative cwd r s1) as [s2 d2].
  destruct H as [H1 H2], IH as [IH1 IH2]. autorewrite with mapping. split.
  - rewrite <- app_assoc, IH1, app_assoc, H1. by rewrite <- app_assoc.
  - intros v Hv. autorewrite with mapping. auto.
Qed.

Lemma result_ok rec s : let '(s', ds) := result rec s in
  said ds ++ held (c_pending s') = match result_answer rec with Some a => [a] | None => held (c_pending s) end
  /\ forall v, shows (c_outcome s) v -> shows (c_outcome s') (sees v ds).
Proof.
  unfold result, result_answer. set (t0 := match asRecord (get "usage" rec) with Some _ => _ | None => _ end).
  assert (Ht0 : elicited t0 = elicited (c_outcome s) /\ t_error t0 = t_error (c_outcome s) /\ finalText t0 = finalText (c_outcome s)
    /\ (t_usage t0 = None -> t_usage (c_outcome s) = None)) by (subst t0; by destruct (asRecord (get "usage" rec))).
  clearbody t0. destruct Ht0 as (He & Hr & Hf & Hu). set (r := trim (asString (get "result" rec))).
  assert (Husage : forall v, shows (c_outcome s) v -> t_usage t0 = match t_usage t0 with Some u => Some u | None => seen_usage v end).
  { intros v (_ & _ & H & _). destruct (t_usage t0); [done|]. rewrite <- H. symmetry. auto. }
  destruct (is_str _ "success" && negb _); cbn [andb].
  - set (final := if truthy r then r else _). split.
    + rewrite said_app, used_said, app_nil_r. subst final. destruct (truthy r) eqn:Er; [rewrite Er; done|].
      unfold held. destruct (c_pending s) as [p|]; [|done]. by destruct (truthy (trim p)).
    + intros v Hv. specialize (Husage v Hv). destruct Hv as (V1 & V2 & V3 & V4). rewrite sees_app, used_sees. unfold shows. simpl.
      destruct (truthy final) eqn:Efin; simpl.
      * rewrite He, Hr. auto.
      * rewrite He, Hr. repeat (split; [done|]). right. destruct final; [done | discriminate].
  - split.
    + rewrite !said_app, used_said, flush_said. simpl. by rewrite !app_nil_r.
    + intros v Hv. specialize (Husage v Hv). destruct Hv as (V1 & V2 & V3 & V4). rewrite !sees_app, used_sees, flush_sees. unfold shows. simpl.
      rewrite He, Hf. auto.
Qed.

Lemma claude_map_ok record s : let '(s', ds) := claude_map relative cwd record s in
  said ds ++ held (c_pending s') = match claude_answer record with Some a => [a] | None => held (c_pending s) ++ claude_texts record end
  /\ forall v, shows (c_outcome s) v -> shows (c_outcome s') (sees v ds).
Proof.
  unfold claude_map, claude_answer, claude_texts. destruct (asRecord (Some record)) as [rec|]; [|by rewrite app_nil_r].
  set (s0 := if truthy (asString (get "session_id" rec)) then _ else s).
  assert (Hs0 : c_pending s0 = c_pending s /\ forall v, shows (c_outcome s) v -> shows (c_outcome s0) v)
    by (subst s0; by destruct (truthy _)). clearbody s0. destruct Hs0 as [<- Hs0].
  destruct (is_str (get "type" rec) "system") eqn:E1.
  { rewrite (is_str_other _ _ "assistant" E1), (is_str_other _ _ "result" E1) by done. simpl. rewrite app_nil_r.
    destruct (_ && _); (split; [done|]); intros v Hv; by apply Hs0. }
  destruct (is_str (get "type" rec) "assistant") eqn:E2.
  { rewrite (is_str_other _ _ "result" E2) by done. simpl. destruct (js_truthy _); simpl; [rewrite app_nil_r; by split; [|apply Hs0]|].
    pose proof (assistant_ok (asArray (asRecord (get "message" rec) ≫= get "content")) s0) as H.
    destruct (assistant relative cwd _ s0) as [s' ds]. destruct H as [H1 H2]. split; [done|]. auto. }
  simpl. rewrite app_nil_r. destruct (is_str (get "type" rec) "user") eqn:E3.
  { rewrite (is_str_other _ _ "result" E3) by done. destruct (js_truthy _); [by split; [|apply Hs0]|].
    rewrite quiet_said by apply toolResults_quiet. split; [done|]. intros v Hv. rewrite quiet_sees by apply toolResults_quiet. by apply Hs0. }
  destruct (is_str (get "type" rec) "result"); [|by split; [|apply Hs0]].
  pose proof (result_ok rec s0) as H. destruct (result rec s0) as [s' ds]. destruct H as [H1 H2]. split; [done|]. auto.
Qed.
End Laws.

#[export] Instance ClaudeLaws relative : MapperLaws (ClaudeMapper relative).
Proof.
  refine {| held_text := fun s : @MState (ClaudeMapper relative) => held (c_pending s); texts := claude_texts; answer := claude_answer |}.
  - intros o. by repeat split; left.
  - intros s. apply held_short.
  - intros o r s. pose proof (claude_map_ok relative (o_cwd o) r s) as H. simpl. destruct (claude_map _ _ r s). by destruct H.
  - intros s. simpl. split; [apply flush_said | done].
  - intros o r s v. pose proof (claude_map_ok relative (o_cwd o) r s) as H. simpl. destruct (claude_map _ _ r s). by apply H.
  - intros s v. simpl. by rewrite flush_sees.
Defined.
