(* ===== verification/MapCodex.v ===== *)
(** * Codex's stream (sandbox-runner/src/mapping/codex.ts) *)

From Stdlib Require Import ZArith Lia Bool List Ascii QArith.
From stdpp Require Import base list strings.
From S2P Require Import Prelude JsString JsMap JsNumber Json Regex Protocol Mapping.

Open Scope Z_scope.

Record CodexState := mkCodex {
  x_outcome : TurnOutcome; startedItems : list string; elicitedItems : list string; x_pending : option string; lastErrorMessage : string }.

Definition new_CodexMapper (o : MapperOptions) : CodexState := mkCodex (initial_outcome o) [] [] None "".

Definition set_outcome (t : TurnOutcome) (s : CodexState) := mkCodex t (startedItems s) (elicitedItems s) (x_pending s) (lastErrorMessage s).
Definition set_pending (p : option string) (s : CodexState) := mkCodex (x_outcome s) (startedItems s) (elicitedItems s) p (lastErrorMessage s).

(** A [Set] keeps one copy of an element. *)
Definition add_item (id : string) (l : list string) : list string := if bool_decide (id ∈ l) then l else l ++ [id].

Definition RETRY_NOTICE : regex := alts [lit "retrying"; lit "reconnecting"; lit "re-connecting"].

(** [s.replace(/from/g, to)] for a literal pattern. *)
Definition replace_all (from to s : string) : string := join to (split from s).

Definition strip_prefix (p s : string) : option string := if startsWith p s then Some (slice_from (String.length p) s) else None.

(** The pattern: an optional [/bin/] or [/usr/bin/], [bash], [zsh] or [sh], [-c] or [-lc], and the
    rest in one pair of single or double quotes. *)
Definition unwrapShell (command : string) : string :=
  let c := trim command in
  let c := match strip_prefix "/usr/bin/" c with Some r => r | None => strip_prefix "/bin/" c ?? c end in
  let c := match strip_prefix "ba" c with Some r => r | None => strip_prefix "z" c ?? c end in
  match strip_prefix "sh -" c with
  | None => command
  | Some c =>
      match strip_prefix "c " (strip_prefix "l" c ?? c) with
      | Some (String q r) =>
          let quote := String q "" in
          if (Ascii.eqb q "'" || (nat_of_ascii q =? 34)%nat) && ends_with r quote then
            let inner := slice 0 (String.length r - 1) r in
            if Ascii.eqb q "'" then replace_all ("'" +:+ backslash +:+ "''") "'" inner else replace_all (backslash +:+ dquote) dquote inner
          else command
      | _ => command
      end
  end.

Definition todoPlan (items : option json) : list AgentPlanStep :=
  let l := map (fun raw => or_record (asRecord (Some raw))) (asArray items) in
  let firstOpen := findIndex (fun item => negb (is_true (get "completed" item))) l in
  imap (fun index item =>
    {| step_content := asString (get "text" item);
       step_status := if is_true (get "completed" item) then pl_completed
                      else if bool_decide (firstOpen = Some index) then pl_inProgress else pl_pending |}) l.

Definition mcpResultText (result : option json) : string :=
  let content := asArray (asRecord result ≫= get "content") in
  let t := join newline (List.filter truthy (map (fun part =>
    match asRecord (Some part) with Some b => if is_str (get "type" b) "text" then asString (get "text" b) else "" | None => "" end) content)) in
  if truthy t then t else match result with None | Some JNull => "" | Some v => stringify_json v end.

Section Codex.
Context (relative : string -> string -> string) (cwd : option string).

Definition command (item : fields) (started completed : bool) (s : CodexState) : CodexState * list Draft :=
  let c := unwrapShell (asString (get "command" item)) in
  if started then (set_pending None s, flushText (x_pending s) ++ [action (act "Ran command" c None (Some "shell") None) true])
  else if negb completed then (s, [])
  else
    let exit := match get "exit_code" item with Some (JNum n) => Some n | _ => if is_str (get "status" item) "failed" then Some 1%Q else None end in
    (set_pending None s, flushText (x_pending s)
       ++ [action (act "Ran command" c (Some (tail (asString (get "aggregated_output" item)) RESULT_TAIL_BYTES)) (Some "shell") exit) false]).

Definition fileChange (item : fields) : list Draft :=
  let changes := map (fun raw => let change := or_record (asRecord (Some raw)) in
    let kind := asString (get "kind" change) in
    {| diff_path := relativePath relative (get "path" change) cwd; diff_additions := 0; diff_deletions := 0;
       diff_status := if kind =s "add" then df_added else if kind =s "delete" then df_deleted else df_modified |}) (asArray (get "changes" item)) in
  let paths := join ", " (map diff_path changes) in
  if is_str (get "status" item) "failed" then [action (act "Edit failed" paths None (Some "apply_patch") None) false]
  else action (act "Edited" paths None (Some "apply_patch") None) false :: match changes with [] => [] | _ => [diff changes] end.

Definition mcpToolCall (id : string) (item : fields) (started completed : bool) (s : CodexState) : CodexState * list Draft :=
  let server := asString (get "server" item) in
  let tool := asString (get "tool" item) in
  let args := get "arguments" item in
  if (server =s "flow") && (tool =s "ask_user") then
    if bool_decide (id ∈ elicitedItems s) then (s, [])
    else (mkCodex (with_elicited (x_outcome s)) (startedItems s) (add_item id (elicitedItems s)) None (lastErrorMessage s),
          flushText (x_pending s) ++ [elicitation (askUserBody args)])
  else
    let label := if server =s "flow" then flowToolLabel tool else server +:+ "." +:+ tool in
    let parameter := truncate (match args with Some (JStr a) => a | _ => stringify_json (nullish args None ?? JObj []) end) 200 in
    if started then (set_pending None s, flushText (x_pending s) ++ [action (act label parameter None (Some tool) None) true])
    else if negb completed then (s, [])
    else
      let e := asString (nullish (asRecord (get "error" item) ≫= get "message") (get "error" item)) in
      let r := if truthy e then e else mcpResultText (get "result" item) in
      (s, [action (act label parameter (Some (tail r 1024)) (Some tool) None) false]).

Definition item (phase : string) (it : option fields) (s : CodexState) : CodexState * list Draft :=
  match it with
  | None => (s, [])
  | Some item =>
      let id := asString (get "id" item) in
      let started := phase =s "item.started" in
      let completed := phase =s "item.completed" in
      let s := if started then mkCodex (x_outcome s) (add_item id (startedItems s)) (elicitedItems s) (x_pending s) (lastErrorMessage s) else s in
      let type := get "type" item in
      if is_str type "reasoning" then
        let t := trim (asString (get "text" item)) in (s, if completed && truthy t then [thought t true] else [])
      else if is_str type "agent_message" then
        if negb completed then (s, []) else (set_pending (Some (asString (get "text" item))) s, flushText (x_pending s))
      else if is_str type "command_execution" then command item started completed s
      else if is_str type "file_change" then
        if completed then (set_pending None s, flushText (x_pending s) ++ fileChange item) else (s, [])
      else if is_str type "mcp_tool_call" then mcpToolCall id item started completed s
      else if is_str type "web_search" then
        let a := act "Searched the web" (asString (get "query" item)) None (Some "web_search") None in
        if started then (set_pending None s, flushText (x_pending s) ++ [action a true])
        else (s, if completed then [action a false] else [])
      else if is_str type "todo_list" then (s, [plan (todoPlan (get "items" item))])
      else if is_str type "error" then
        let m := asString (get "message" item) in (s, if completed && truthy m then [thought (truncate m 1000) true] else [])
      else (s, [])
  end.

Definition turnCompleted (u : option fields) (s : CodexState) : CodexState * list Draft :=
  let final := match x_pending s with Some p => trim p | None => "" end in
  let t := with_completed true (x_outcome s) in
  let t := if truthy final then with_text (Some final) t else t in
  let out := if truthy final then [response final] else [] in
  match u with
  | Some u =>
      let d := {| us_model := model t ?? ""; us_inputTokens := asNumber (get "input_tokens" u);
                  us_outputTokens := asNumber (get "output_tokens" u); us_costUsd := None |} in
      (set_outcome (with_usage d t) (set_pending None s), out ++ [usage d])
  | None => (set_outcome t (set_pending None s), out)
  end.

Definition failed (message : string) (s : CodexState) : CodexState * list Draft :=
  let out := flushText (x_pending s) in
  let s := set_pending None s in
  if message =s lastErrorMessage s then (s, out)
  else
    let e := harnessError message in
    (mkCodex (with_error e (x_outcome s)) (startedItems s) (elicitedItems s) None message, out ++ [error e]).

(** [a || b] on strings. *)
Definition or_text (a b : string) : string := if truthy a then a else b.

Definition codex_map (record : json) (s : CodexState) : CodexState * list Draft :=
  match asRecord (Some record) with
  | None => (s, [])
  | Some rec =>
      let type := get "type" rec in
      if is_str type "thread.started" then
        let id := asString (get "thread_id" rec) in
        (set_outcome (with_session (if truthy id then Some id else harnessSessionId (x_outcome s)) (x_outcome s)) s, [])
      else if is_str type "item.started" then item "item.started" (asRecord (get "item" rec)) s
      else if is_str type "item.updated" then item "item.updated" (asRecord (get "item" rec)) s
      else if is_str type "item.completed" then item "item.completed" (asRecord (get "item" rec)) s
      else if is_str type "turn.completed" then turnCompleted (asRecord (get "usage" rec)) s
      else if is_str type "turn.failed" then failed (or_text (asString (asRecord (get "error" rec) ≫= get "message")) "The turn failed.") s
      else if is_str type "error" then
        let m := asString (get "message" rec) in
        if regex_test RETRY_NOTICE (units m) then (s, [thought (truncate m 500) true])
        else failed (or_text m "Codex reported an error.") s
      else (s, [])
  end.

Definition codex_finish (s : CodexState) : CodexState * list Draft := (set_pending None s, flushText (x_pending s)).
End Codex.

#[export] Instance CodexMapper (relative : string -> string -> string) : StreamMapper :=
  {| MState := CodexState; m_init := new_CodexMapper; m_map o := codex_map relative (o_cwd o); m_finish := codex_finish; m_outcome := x_outcome |}.

Lemma unwrapShell_examples :
  unwrapShell "bash -lc 'ls -la'" = "ls -la" /\ unwrapShell "/bin/zsh -c 'it'\''s'" = "it's" /\ unwrapShell "sh -x 'a'" = "sh -x 'a'".
Proof. vm_compute. done. Qed.

(** ** The laws *)

Definition codex_texts (record : json) : list string :=
  match asRecord (Some record) with
  | Some rec =>
      if is_str (get "type" rec) "item.completed" then
        match asRecord (get "item" rec) with
        | Some item => if is_str (get "type" item) "agent_message" then held (Some (asString (get "text" item))) else []
        | None => []
        end
      else []
  | None => []
  end.

Section Laws.
Context (relative : string -> string -> string) (cwd : option string).

(** A step that says what was held back and holds [t] back, or leaves the text alone. *)
Definition codex_ok (s : CodexState) (t : list string) (r : CodexState * list Draft) : Prop :=
  said (snd r) ++ held (x_pending (fst r)) = held (x_pending s) ++ t
  /\ forall v, shows (x_outcome s) v -> shows (x_outcome (fst r)) (sees v (snd r)).

Lemma codex_same s l : forallb quiet l = true -> codex_ok s [] (s, l).
Proof. intros H. split; simpl; [by rewrite quiet_said, app_nil_r | intros v Hv; by rewrite quiet_sees]. Qed.

Lemma codex_flush s l t p : forallb quiet l = true -> held p = t -> codex_ok s t (set_pending p s, flushText (x_pending s) ++ l).
Proof.
  intros Hl Hp. split; simpl; [by rewrite said_app, flush_said, quiet_said, app_nil_r, Hp | intros v Hv; by rewrite sees_app, flush_sees, quiet_sees].
Qed.

Lemma fileChange_quiet it : forallb quiet (fileChange relative cwd it) = true.
Proof. unfold fileChange. destruct (is_str _ _); [done|]. by case_match. Qed.

Lemma mcpToolCall_ok id it started completed s : codex_ok s [] (mcpToolCall id it started completed s).
Proof.
  unfold mcpToolCall. destruct (_ && _).
  - destruct (bool_decide _); [by apply codex_same|]. split; simpl; [by rewrite said_app, flush_said, app_nil_r|].
    intros v (H1 & H2 & H3 & H4). rewrite sees_app, flush_sees. by repeat split.
  - destruct started; [by apply codex_flush|]. destruct completed; by apply codex_same.
Qed.

Lemma item_ok phase it s : codex_ok s
  (match it with Some item => if (phase =s "item.completed") && is_str (get "type" item) "agent_message" then held (Some (asString (get "text" item))) else [] | None => [] end)
  (item relative cwd phase it s).
Proof.
  unfold item. destruct it as [it|]; [|by apply codex_same]. set (started := phase =s "item.started"). set (completed := phase =s "item.completed").
  set (s0 := if started then _ else s). assert (Hs0 : forall t r, codex_ok s0 t r -> codex_ok s t r) by (subst s0; by destruct started).
  clearbody s0. apply Hs0. clear Hs0. destruct (is_str (get "type" it) "reasoning") eqn:E1.
  { rewrite (is_str_other _ _ "agent_message" E1), andb_false_r by done. apply codex_same. by destruct (completed && _). }
  destruct (is_str (get "type" it) "agent_message") eqn:E2.
  { rewrite andb_true_r. destruct completed; simpl; [|by apply codex_same]. rewrite <- (app_nil_r (flushText _)). by apply codex_flush. }
  rewrite andb_false_r. destruct (is_str (get "type" it) "command_execution").
  { unfold command. destruct started; [by apply codex_flush|]. destruct completed; [by apply codex_flush | by apply codex_same]. }
  destruct (is_str (get "type" it) "file_change"). { destruct completed; [apply codex_flush; [apply fileChange_quiet | done] | by apply codex_same]. }
  destruct (is_str (get "type" it) "mcp_tool_call"); [apply mcpToolCall_ok|].
  destruct (is_str (get "type" it) "web_search"). { destruct started; [by apply codex_flush|]. apply codex_same. by destruct completed. }
  destruct (is_str (get "type" it) "todo_list"); [by apply codex_same|].
  destruct (is_str (get "type" it) "error"); apply codex_same; [by destruct (completed && _) | done].
Qed.

Lemma turnCompleted_ok u s : codex_ok s [] (turnCompleted u s).
Proof.
  unfold turnCompleted, codex_ok, held. set (final := match x_pending s with Some p => trim p | None => "" end).
  assert (Hh : (match x_pending s with Some p => if truthy (trim p) then [trim p] else [] | None => [] end) = if truthy final then [final] else [])
    by (subst final; by destruct (x_pending s)).
  rewrite Hh. clearbody final. destruct u as [u|], (truthy final); simpl; (split; [done|]); intros v (H1 & H2 & H3 & H4); repeat split; simpl; auto.
Qed.

Lemma failed_ok m s : codex_ok s [] (failed m s).
Proof.
  unfold failed. destruct (_ =s _); [rewrite <- (app_nil_r (flushText _)); by apply codex_flush|].
  split; simpl; [by rewrite said_app, flush_said, !app_nil_r|]. intros v (H1 & H2 & H3 & H4). rewrite sees_app, flush_sees. by repeat split.
Qed.

Lemma codex_map_ok record s : codex_ok s (codex_texts record) (codex_map relative cwd record s).
Proof.
  unfold codex_map, codex_texts. destruct (asRecord (Some record)) as [rec|]; [|by apply codex_same].
  destruct (is_str (get "type" rec) "thread.started") eqn:E1. { rewrite (is_str_other _ _ "item.completed" E1) by done. by split; [rewrite app_nil_r|]. }
  assert (Hitem : forall phase, is_str (get "type" rec) phase = true -> phase <> "item.completed" ->
    codex_ok s [] (item relative cwd phase (asRecord (get "item" rec)) s)).
  { intros phase _ Hne. pose proof (item_ok phase (asRecord (get "item" rec)) s) as H. apply String.eqb_neq in Hne. rewrite Hne in H.
    by destruct (asRecord (get "item" rec)). }
  destruct (is_str (get "type" rec) "item.started") eqn:E2; [rewrite (is_str_other _ _ "item.completed" E2) by done; by apply Hitem|].
  destruct (is_str (get "type" rec) "item.updated") eqn:E3; [rewrite (is_str_other _ _ "item.completed" E3) by done; by apply Hitem|].
  destruct (is_str (get "type" rec) "item.completed"); [apply item_ok|]. clear Hitem.
  destruct (is_str (get "type" rec) "turn.completed"); [apply turnCompleted_ok|].
  destruct (is_str (get "type" rec) "turn.failed"); [apply failed_ok|].
  destruct (is_str (get "type" rec) "error"); [|by apply codex_same].
  destruct (regex_test _ _); [by apply codex_same | apply failed_ok].
Qed.
End Laws.

#[export] Instance CodexLaws relative : MapperLaws (CodexMapper relative).
Proof.
  refine {| held_text := fun s : @MState (CodexMapper relative) => held (x_pending s); texts := codex_texts; answer := fun _ => None |}.
  - intros o. by repeat split; left.
  - intros s. apply held_short.
  - intros o r s. destruct (codex_map_ok relative (o_cwd o) r s) as [H _]. simpl. by destruct (codex_map _ _ r s).
  - intros s. simpl. split; [apply flush_said | done].
  - intros o r s v. destruct (codex_map_ok relative (o_cwd o) r s) as [_ H]. simpl. destruct (codex_map _ _ r s). by apply H.
  - intros s v. simpl. by rewrite flush_sees.
Defined.
