(* ===== verification/MapOpenCode.v ===== *)
(** * OpenCode's stream (sandbox-runner/src/mapping/opencode.ts) *)

From Stdlib Require Import ZArith Lia Bool List Ascii QArith.
From stdpp Require Import base list strings.
From S2P Require Import Prelude JsString JsMap JsNumber Json Regex Protocol Mapping.

Open Scope Z_scope.

Record OpenCodeState := mkOpenCode {
  p_outcome : TurnOutcome; p_pending : option string; inputTokens : Q; outputTokens : Q; cost : Q; sawStep : bool }.

Definition new_OpenCodeMapper (o : MapperOptions) : OpenCodeState := mkOpenCode (initial_outcome o) None 0 0 0 false.

Definition set_outcome (t : TurnOutcome) (s : OpenCodeState) := mkOpenCode t (p_pending s) (inputTokens s) (outputTokens s) (cost s) (sawStep s).
Definition set_pending (p : option string) (s : OpenCodeState) := mkOpenCode (p_outcome s) p (inputTokens s) (outputTokens s) (cost s) (sawStep s).

Section OpenCode.
Context (relative : string -> string -> string) (cwd : option string).

Definition editDiff (name : string) (input metadata : fields) (path : string) : CodingDiffSummary :=
  let created := if is_false (get "exists" metadata) then df_added else df_modified in
  let summary a d st := {| diff_path := path; diff_additions := a; diff_deletions := d; diff_status := st |} in
  match countUnifiedDiff (get "diff" metadata) with
  | Some (a, d) => summary a d (if name =s "write" then created else df_modified)
  | None => if name =s "write" then summary (countLines (get "content" input)) 0 created
            else summary (countLines (get "newString" input)) (countLines (get "oldString" input)) df_modified
  end.

Definition tool (part : fields) (s : OpenCodeState) : OpenCodeState * list Draft :=
  let name := asString (get "tool" part) in
  let state := or_record (asRecord (get "state" part)) in
  let input := or_record (asRecord (get "input" state)) in
  let metadata := or_record (asRecord (get "metadata" state)) in
  let failed := is_str (get "status" state) "error" in
  let output := if failed then asString (get "error" state) else asString (get "output" state) in
  let kind := toolKind name in
  let shown label parameter result exit := (s, [action (act label parameter result (Some name) exit) false]) in
  match kind with
  | k_command =>
      let exit := match get "exit" metadata with Some (JNum n) => n | _ => if failed then 1%Q else 0%Q end in
      shown "Ran command" (asString (get "command" input)) (Some (tail output RESULT_TAIL_BYTES)) (Some exit)
  | k_edit =>
      let path := relativePath relative (nullish (nullish (get "filePath" input) (get "file_path" input)) (get "path" input)) cwd in
      if failed then shown "Edit failed" path (Some (tail output 1024)) None
      else (s, [action (act "Edited" path None (Some name) None) false; diff [editDiff name input metadata path]])
  | k_read | k_search =>
      let target := nullish (nullish (get "filePath" input) (get "path" input)) (get "pattern" input) in
      let path := relativePath relative target cwd in
      (s, [action (act (readActionLabel kind) (if truthy path then path else asString target) None (Some name) None) true])
  | k_fetch => shown "Fetched" (asString (get "url" input)) None None
  | k_websearch => shown "Searched the web" (asString (get "query" input)) None None
  | k_task => shown "Delegated to subagent" (asString (get "description" input)) (Some (tail output 2048)) None
  | k_plan => (s, [plan (todo_plan (asArray (get "todos" input)))])
  | k_askUser => (set_outcome (with_elicited (p_outcome s)) s, [elicitation (askUserBody (Some (JObj input)))])
  | k_flow => let t := flowToolName name ?? name in (s, [action (act (flowToolLabel t) (input_text input) (Some (tail output 1024)) (Some t) None) false])
  | k_other | k_inherited => shown name (input_text input) (Some (tail output 1024)) None
  end.

Definition stepFinish (part : fields) (s : OpenCodeState) : OpenCodeState :=
  let tokens := or_record (asRecord (get "tokens" part)) in
  let cache := or_record (asRecord (get "cache" tokens)) in
  mkOpenCode (p_outcome s) (p_pending s)
    (inputTokens s + (asNumber (get "input" tokens) + asNumber (get "read" cache) + asNumber (get "write" cache)))
    (outputTokens s + (asNumber (get "output" tokens) + asNumber (get "reasoning" tokens)))
    (cost s + asNumber (get "cost" part)) true.

Definition report_error (e : option fields) (s : OpenCodeState) : OpenCodeState * list Draft :=
  let m := asString (e ≫= fun e => asRecord (get "data" e) ≫= get "message") in
  let n := asString (e ≫= get "name") in
  let d := harnessError (if truthy m then m else if truthy n then n else "OpenCode reported an error.") in
  (set_outcome (with_error d (p_outcome s)) (set_pending None s), flushText (p_pending s) ++ [error d]).

Definition opencode_map (record : json) (s : OpenCodeState) : OpenCodeState * list Draft :=
  match asRecord (Some record) with
  | None => (s, [])
  | Some rec =>
      let sessionId := asString (get "sessionID" rec) in
      let s := if truthy sessionId then set_outcome (with_session (Some sessionId) (p_outcome s)) s else s in
      let part := or_record (asRecord (get "part" rec)) in
      let type := get "type" rec in
      if is_str type "text" then (set_pending (Some (asString (get "text" part))) s, flushText (p_pending s))
      else if is_str type "reasoning" then
        let t := trim (asString (get "text" part)) in
        if truthy t then (set_pending None s, flushText (p_pending s) ++ [thought t true]) else (s, [])
      else if is_str type "tool_use" then
        let '(s', ds) := tool part (set_pending None s) in (s', flushText (p_pending s) ++ ds)
      else if is_str type "step_finish" then (stepFinish part s, [])
      else if is_str type "error" then report_error (asRecord (get "error" rec)) s
      else (s, [])
  end.

(** The usage of the turn. *)
Definition turn_usage (t : TurnOutcome) (s : OpenCodeState) : UsageDetail :=
  {| us_model := model t ?? ""; us_inputTokens := inputTokens s; us_outputTokens := outputTokens s;
     us_costUsd := if Qeq_bool (cost s) 0 then None else Some (cost s) |}.

Definition opencode_finish (s : OpenCodeState) : OpenCodeState * list Draft :=
  let t := p_outcome s in
  let '(t, out) :=
    match t_error t with
    | Some _ => (t, flushText (p_pending s))
    | None =>
        match p_pending s with
        | Some p => let final := trim p in
            (with_completed (sawStep s) (if truthy final then with_text (Some final) t else t), if truthy final then [response final] else [])
        | None => (with_completed (sawStep s) t, [])
        end
    end in
  let '(t, used) := if sawStep s then (with_usage (turn_usage t s) t, [usage (turn_usage t s)]) else (t, []) in
  (set_outcome t (set_pending None s), out ++ used).
End OpenCode.

#[export] Instance OpenCodeMapper (relative : string -> string -> string) : StreamMapper :=
  {| MState := OpenCodeState; m_init := new_OpenCodeMapper; m_map o := opencode_map relative (o_cwd o); m_finish := opencode_finish; m_outcome := p_outcome |}.

(** ** The laws *)

Definition opencode_texts (record : json) : list string :=
  match asRecord (Some record) with
  | Some rec => if is_str (get "type" rec) "text" then held (Some (asString (get "text" (or_record (asRecord (get "part" rec)))))) else []
  | None => []
  end.

Section Laws.
Context (relative : string -> string -> string) (cwd : option string).

Definition opencode_ok (s : OpenCodeState) (t : list string) (r : OpenCodeState * list Draft) : Prop :=
  said (snd r) ++ held (p_pending (fst r)) = held (p_pending s) ++ t
  /\ forall v, shows (p_outcome s) v -> shows (p_outcome (fst r)) (sees v (snd r)).

Lemma tool_ok part s : said (snd (tool relative cwd part s)) = [] /\ p_pending (fst (tool relative cwd part s)) = p_pending s
  /\ forall v, shows (p_outcome s) v -> shows (p_outcome (fst (tool relative cwd part s))) (sees v (snd (tool relative cwd part s))).
Proof.
  unfold tool. destruct (toolKind _); try destruct (is_str _ "error");
    (split; [done|]; split; [done|]; intros v (H1 & H2 & H3 & H4); by repeat split).
Qed.

Lemma opencode_flush s l t p : forallb quiet l = true -> held p = t -> opencode_ok s t (set_pending p s, flushText (p_pending s) ++ l).
Proof.
  intros Hl Hp. split; simpl; [by rewrite said_app, flush_said, quiet_said, app_nil_r, Hp | intros v Hv; by rewrite sees_app, flush_sees, quiet_sees].
Qed.

Lemma opencode_same s s' : p_pending s' = p_pending s -> (forall v, shows (p_outcome s) v -> shows (p_outcome s') v) -> opencode_ok s [] (s', []).
Proof. intros Hp Hv. split; simpl; [by rewrite Hp, app_nil_r | done]. Qed.

Lemma opencode_map_ok record s : opencode_ok s (opencode_texts record) (opencode_map relative cwd record s).
Proof.
  unfold opencode_map, opencode_texts. destruct (asRecord (Some record)) as [rec|]; [|by apply opencode_same].
  set (s0 := if truthy (asString (get "sessionID" rec)) then _ else s).
  assert (Hs0 : forall t r, opencode_ok s0 t r -> opencode_ok s t r) by (subst s0; by destruct (truthy _)). clearbody s0. apply Hs0. clear Hs0 s.
  destruct (is_str (get "type" rec) "text"); [rewrite <- (app_nil_r (flushText _)); by apply opencode_flush|].
  destruct (is_str (get "type" rec) "reasoning"). { destruct (truthy _); [by apply opencode_flush | by apply opencode_same]. }
  destruct (is_str (get "type" rec) "tool_use").
  { pose proof (tool_ok (or_record (asRecord (get "part" rec))) (set_pending None s0)) as H. destruct (tool _ _ _ _) as [s' ds]. simpl in H.
    destruct H as (Hs & Hp & Hv). split; simpl; [by rewrite said_app, flush_said, Hs, Hp, !app_nil_r|].
    intros v Hsh. rewrite sees_app, flush_sees. by apply Hv. }
  destruct (is_str (get "type" rec) "step_finish"); [by apply opencode_same|].
  destruct (is_str (get "type" rec) "error"); [|by apply opencode_same].
  unfold report_error. split; simpl; [by rewrite said_app, flush_said, !app_nil_r|]. intros v (H1 & H2 & H3 & H4).
  rewrite sees_app, flush_sees. by repeat split.
Qed.

Lemma opencode_finish_ok s : let '(s', ds) := opencode_finish s in
  said ds = held (p_pending s) /\ held (p_pending s') = [] /\ forall v, shows (p_outcome s) v -> shows (p_outcome s') (sees v ds).
Proof.
  unfold opencode_finish. destruct (t_error (p_outcome s)) as [e|] eqn:He; [|destruct (p_pending s) as [p|] eqn:Hp].
  - destruct (sawStep s); (split; [by rewrite said_app, flush_said, app_nil_r|]; split; [done|]; intros v (H1 & H2 & H3 & H4);
      rewrite sees_app, flush_sees; by repeat split).
  - unfold held. destruct (sawStep s), (truthy (trim p)); (split; [done|]; split; [done|]; intros v (H1 & H2 & H3 & H4); repeat split; simpl; auto).
  - destruct (sawStep s); (split; [done|]; split; [done|]; intros v (H1 & H2 & H3 & H4); by repeat split).
Qed.
End Laws.

#[export] Instance OpenCodeLaws relative : MapperLaws (OpenCodeMapper relative).
Proof.
  refine {| held_text := fun s : @MState (OpenCodeMapper relative) => held (p_pending s); texts := opencode_texts; answer := fun _ => None |}.
  - intros o. by repeat split; left.
  - intros s. apply held_short.
  - intros o r s. destruct (opencode_map_ok relative (o_cwd o) r s) as [H _]. simpl. by destruct (opencode_map _ _ r s).
  - intros s. simpl. pose proof (opencode_finish_ok s) as H. destruct (opencode_finish s). tauto.
  - intros o r s v. destruct (opencode_map_ok relative (o_cwd o) r s) as [_ H]. simpl. destruct (opencode_map _ _ r s). by apply H.
  - intros s v. simpl. pose proof (opencode_finish_ok s) as H. destruct (opencode_finish s). by apply H.
Defined.
