(* ===== verification/MapPi.v ===== *)
(** * Pi's stream (sandbox-runner/src/mapping/pi.ts) *)

From Stdlib Require Import ZArith Lia Bool List Ascii QArith.
From stdpp Require Import base list strings.
From S2P Require Import Prelude JsString JsMap JsNumber Json Regex Protocol Mapping.

Open Scope Z_scope.

Record PiState := mkPi {
  i_outcome : TurnOutcome; toolArgs : list (string * fields); i_pending : option string; lastError : option string;
  settled : bool; aborted : bool; inputTokens : Q; outputTokens : Q; cost : Q; sawModelCall : bool }.

Definition new_PiMapper (o : MapperOptions) : PiState := mkPi (initial_outcome o) [] None None false false 0 0 0 false.

Definition set_outcome (t : TurnOutcome) (s : PiState) :=
  mkPi t (toolArgs s) (i_pending s) (lastError s) (settled s) (aborted s) (inputTokens s) (outputTokens s) (cost s) (sawModelCall s).
Definition set_args (a : list (string * fields)) (s : PiState) :=
  mkPi (i_outcome s) a (i_pending s) (lastError s) (settled s) (aborted s) (inputTokens s) (outputTokens s) (cost s) (sawModelCall s).
Definition set_pending (p : option string) (s : PiState) :=
  mkPi (i_outcome s) (toolArgs s) p (lastError s) (settled s) (aborted s) (inputTokens s) (outputTokens s) (cost s) (sawModelCall s).
Definition set_lastError (e : option string) (s : PiState) :=
  mkPi (i_outcome s) (toolArgs s) (i_pending s) e (settled s) (aborted s) (inputTokens s) (outputTokens s) (cost s) (sawModelCall s).
Definition set_settled (b : bool) (s : PiState) :=
  mkPi (i_outcome s) (toolArgs s) (i_pending s) (lastError s) true b (inputTokens s) (outputTokens s) (cost s) (sawModelCall s).
Definition set_saw (s : PiState) :=
  mkPi (i_outcome s) (toolArgs s) (i_pending s) (lastError s) (settled s) (aborted s) (inputTokens s) (outputTokens s) (cost s) true.

Definition resultText (result : fields) : string :=
  join newline (List.filter truthy (map (fun item =>
    match asRecord (Some item) with Some b => if is_str (get "type" b) "text" then asString (get "text" b) else "" | None => "" end)
    (asArray (get "content" result)))).

(** [/Command exited with code (\d+)\s*$/] *)
Fixpoint exitFromText (s : string) : option Q :=
  let here :=
    if startsWith "Command exited with code " s then
      let '(ds, rest) := take_digits (slice_from 25 s) in
      match digits_value ds with Some n => if truthy (trim rest) then None else Some (inject_Z n) | None => None end
    else None in
  match here with
  | Some n => Some n
  | None => match s with EmptyString => None | String _ r => exitFromText r end
  end.

(** [piToolKinds[name] ?? toolKind(name)] *)
Definition piToolKind (name : string) : ToolKind :=
  if name =s "find" then k_search else if name =s "powershell" then k_command else toolKind name.

(** [/^mcp__(.+?)__(.+)$/]: the shortest server name. *)
Fixpoint split_server (server s : string) : option (string * string) :=
  match s with
  | EmptyString => None
  | String c r =>
      if truthy server && startsWith "__" s && truthy (slice_from 2 s) then Some (server, slice_from 2 s)
      else split_server (server +:+ String c "") r
  end.
Definition mcp_name (name : string) : option (string * string) :=
  if startsWith "mcp__" name && one_line name then split_server "" (slice_from 5 name) else None.

Definition addUsage (u : option fields) (s : PiState) : PiState :=
  match u with
  | None => s
  | Some u =>
      mkPi (i_outcome s) (toolArgs s) (i_pending s) (lastError s) (settled s) (aborted s)
        (inputTokens s + (asNumber (get "input" u) + asNumber (get "cacheRead" u) + asNumber (get "cacheWrite" u)))
        (outputTokens s + asNumber (get "output" u)) (cost s + asNumber (asRecord (get "cost" u) ≫= get "total")) (sawModelCall s)
  end.

Section Pi.
Context (relative : string -> string -> string) (cwd : option string).

Definition editDiff (name : string) (input details : fields) (path : string) : CodingDiffSummary :=
  let summary a d := {| diff_path := path; diff_additions := a; diff_deletions := d; diff_status := df_modified |} in
  match countUnifiedDiff (get "patch" details) with
  | Some (a, d) => summary a d
  | None =>
      if name =s "write" then summary (countLines (get "content" input)) 0
      else let '(a, d) := fold_left (fun '(a, d) item => let edit := or_record (asRecord (Some item)) in
               (a + countLines (get "newText" edit), d + countLines (get "oldText" edit))) (asArray (get "edits" input)) (0, 0) in
           summary a d
  end.

Definition tool (rec : fields) (s : PiState) : PiState * list Draft :=
  let name := asString (get "toolName" rec) in
  let id := asString (get "toolCallId" rec) in
  let input := match map_get id (toolArgs s) with Some a => a | None => or_record (asRecord (get "args" rec)) end in
  let s := set_args (map_delete id (toolArgs s)) s in
  let result := or_record (asRecord (get "result" rec)) in
  let details := or_record (asRecord (get "details" result)) in
  let structured := or_record (asRecord (get "structuredContent" result)) in
  let failed := is_true (get "isError" rec) in
  let output := resultText result in
  let kind := piToolKind name in
  match kind with
  | k_command =>
      let exit := match nullish (get "exit_code" structured) (JNum <$> exitFromText output) with Some (JNum n) => n | _ => if failed then 1%Q else 0%Q end in
      let t := match get "output" structured with Some (JStr t) => t | _ => output end in
      (s, [action (act "Ran command" (asString (get "command" input)) (Some (tail t RESULT_TAIL_BYTES)) (Some name) (Some exit)) false])
  | k_edit =>
      let path := relativePath relative (nullish (get "path" input) (get "file_path" input)) cwd in
      if failed then (s, [action (act "Edit failed" path (Some (tail output 1024)) (Some name) None) false])
      else (s, [action (act "Edited" path None (Some name) None) false; diff [editDiff name input details path]])
  | k_read | k_search =>
      let p := match kind with k_search => asString (get "pattern" input) | _ => relativePath relative (get "path" input) cwd end in
      (s, [action (act (readActionLabel kind) (if truthy p then p else ".") None (Some name) None) true])
  | k_askUser => (set_outcome (with_elicited (i_outcome s)) s, [elicitation (askUserBody (Some (JObj input)))])
  | k_flow => let t := flowToolName name ?? name in (s, [action (act (flowToolLabel t) (input_text input) (Some (tail output 1024)) (Some t) None) false])
  | _ =>
      if name =s "tool_search" then (s, [action (act "Searched tools" (asString (get "query" input)) (Some (tail output 1024)) (Some name) None) true])
      else
        let '(label, t) := match mcp_name name with Some (server, t) => (server +:+ "." +:+ t, t) | None => (name, name) end in
        (s, [action (act label (input_text input) (Some (tail output 1024)) (Some t) None) false])
  end.

(** The loop over the content of a message: the thoughts shown, the texts collected and the
    arguments of tool calls noted. *)
Definition content_block (acc : PiState * list Draft * list string) (raw : json) : PiState * list Draft * list string :=
  let '(s, out, collected) := acc in
  let block := or_record (asRecord (Some raw)) in
  let type := get "type" block in
  if is_str type "thinking" then
    let t := trim (asString (get "thinking" block)) in
    if truthy t then (set_pending None s, out ++ flushText (i_pending s) ++ [thought t true], collected) else acc
  else if is_str type "text" then
    let t := asString (get "text" block) in if truthy (trim t) then (s, out, collected ++ [t]) else acc
  else if is_str type "toolCall" then
    let id := asString (get "id" block) in
    match asRecord (get "arguments" block) with
    | Some args => if truthy id && negb (map_has id (toolArgs s)) then (set_args (map_set id args (toolArgs s)) s, out, collected) else acc
    | None => acc
    end
  else acc.

Definition messageEnd (message : option fields) (s : PiState) : PiState * list Draft :=
  match message with
  | None => (s, [])
  | Some m =>
      if negb (is_str (get "role" m) "assistant") then (s, [])
      else
        let s := set_saw s in
        let mo := asString (get "model" m) in
        let s := if truthy mo then set_outcome (with_model (Some mo) (i_outcome s)) s else s in
        let s := addUsage (asRecord (get "usage" m)) s in
        if is_str (get "stopReason" m) "error" then
          let e := asString (get "errorMessage" m) in (set_lastError (Some (if truthy e then e else "Pi reported an error.")) s, [])
        else if is_str (get "stopReason" m) "aborted" then (s, [])
        else
          let '(s, out, collected) := fold_left content_block (asArray (get "content" m)) (set_lastError None s, [], []) in
          match collected with
          | [] => (s, out)
          | _ => (set_pending (Some (join (newline +:+ newline) collected)) s, out ++ flushText (i_pending s))
          end
  end.

Definition pi_map (record : json) (s : PiState) : PiState * list Draft :=
  match asRecord (Some record) with
  | None => (s, [])
  | Some rec =>
      let type := get "type" rec in
      if is_str type "session" then
        let id := asString (get "id" rec) in
        (if truthy id then set_outcome (with_session (Some id) (i_outcome s)) s else s, [])
      else if is_str type "message_end" then messageEnd (asRecord (get "message" rec)) s
      else if is_str type "tool_execution_start" then
        let id := asString (get "toolCallId" rec) in
        match asRecord (get "args" rec) with
        | Some args => (if truthy id then set_args (map_set id args (toolArgs s)) s else s, [])
        | None => (s, [])
        end
      else if is_str type "tool_execution_end" then
        let '(s', ds) := tool rec (set_pending None s) in (s', flushText (i_pending s) ++ ds)
      else if is_str type "auto_retry_end" then
        let e := asString (get "finalError" rec) in
        (if is_false (get "success" rec)
         then set_lastError (Some (if truthy e then e else match lastError s with Some l => if truthy l then l else "Pi gave up after retrying." | None => "Pi gave up after retrying." end)) s
         else s, [])
      else if is_str type "compaction_end" then (addUsage (asRecord (get "result" rec) ≫= fun r => asRecord (get "usage" r)) s, [])
      else if is_str type "agent_settled" then (set_settled (is_true (get "aborted" rec)) s, [])
      else (s, [])
  end.

Definition turn_usage (t : TurnOutcome) (s : PiState) : UsageDetail :=
  {| us_model := model t ?? ""; us_inputTokens := inputTokens s; us_outputTokens := outputTokens s;
     us_costUsd := if Qeq_bool (cost s) 0 then None else Some (cost s) |}.

Definition pi_finish (s : PiState) : PiState * list Draft :=
  let t := i_outcome s in
  let failure := match lastError s with Some e => if truthy e then Some e else None | None => None end in
  let '(t, out) :=
    match failure with
    | Some e => (with_error (harnessError e) t, flushText (i_pending s) ++ [error (harnessError e)])
    | None =>
        let final := match i_pending s with Some p => trim p | None => "" end in
        (with_completed (settled s && negb (aborted s)) (if truthy final then with_text (Some final) t else t),
         if truthy final then [response final] else [])
    end in
  let '(t, used) := if sawModelCall s then (with_usage (turn_usage t s) t, [usage (turn_usage t s)]) else (t, []) in
  (set_outcome t (set_pending None s), out ++ used).
End Pi.

#[export] Instance PiMapper (relative : string -> string -> string) : StreamMapper :=
  {| MState := PiState; m_init := new_PiMapper; m_map o := pi_map relative (o_cwd o); m_finish := pi_finish; m_outcome := i_outcome |}.

Lemma pi_examples :
  exitFromText ("boom" +:+ newline +:+ "Command exited with code 137" +:+ newline) = Some 137%Q
  /\ exitFromText "Command exited with code 1 or so" = None
  /\ mcp_name "mcp__git__hub__search" = Some ("git", "hub__search") /\ mcp_name "mcp____x" = None.
Proof. vm_compute. done. Qed.

(** ** The laws *)

(** The texts of an assistant's message that ended well, joined. *)
Definition block_text (raw : json) : list string :=
  let block := or_record (asRecord (Some raw)) in
  let type := get "type" block in
  if is_str type "thinking" then [] else
  if is_str type "text" then let t := asString (get "text" block) in if truthy (trim t) then [t] else [] else [].

Definition joined (collected : list string) : list string :=
  match collected with [] => [] | _ => held (Some (join (newline +:+ newline) collected)) end.

Definition pi_texts (record : json) : list string :=
  match asRecord (Some record) with
  | Some rec =>
      if is_str (get "type" rec) "message_end" then
        match asRecord (get "message" rec) with
        | Some m =>
            if is_str (get "role" m) "assistant" && negb (is_str (get "stopReason" m) "error") && negb (is_str (get "stopReason" m) "aborted")
            then joined (asArray (get "content" m) ≫= block_text) else []
        | None => []
        end
      else []
  | None => []
  end.

Section Laws.
Context (relative : string -> string -> string) (cwd : option string).

Definition pi_ok (s : PiState) (t : list string) (r : PiState * list Draft) : Prop :=
  said (snd r) ++ held (i_pending (fst r)) = held (i_pending s) ++ t
  /\ forall v, shows (i_outcome s) v -> shows (i_outcome (fst r)) (sees v (snd r)).

Lemma pi_same s s' : i_pending s' = i_pending s -> (forall v, shows (i_outcome s) v -> shows (i_outcome s') v) -> pi_ok s [] (s', []).
Proof. intros Hp Hv. split; simpl; [by rewrite Hp, app_nil_r | done]. Qed.

Lemma pi_tool_ok rec s : said (snd (tool relative cwd rec s)) = [] /\ i_pending (fst (tool relative cwd rec s)) = i_pending s
  /\ forall v, shows (i_outcome s) v -> shows (i_outcome (fst (tool relative cwd rec s))) (sees v (snd (tool relative cwd rec s))).
Proof.
  unfold tool. destruct (piToolKind _); try destruct (is_true _); try destruct (_ =s "tool_search"); try destruct (mcp_name _) as [[? ?]|];
    (split; [done|]; split; [done|]; intros v (H1 & H2 & H3 & H4); by repeat split).
Qed.

(** The loop keeps the outcome, collects the texts of the blocks, and shows what was held back. *)
Lemma content_ok blocks s out collected :
  let '(s', out', collected') := fold_left content_block blocks (s, out, collected) in
  collected' = collected ++ (blocks ≫= block_text) /\ i_outcome s' = i_outcome s
  /\ said out' ++ held (i_pending s') = said out ++ held (i_pending s) /\ forall v, sees v out' = sees v out.
Proof.
  revert s out collected. induction blocks as [|raw blocks IH]; intros s out collected; [simpl; by rewrite app_nil_r|]. cbn [fold_left].
  destruct (content_block (s, out, collected) raw) as [[s1 out1] col1] eqn:E. specialize (IH s1 out1 col1).
  assert (H : col1 = collected ++ block_text raw /\ i_outcome s1 = i_outcome s
    /\ said out1 ++ held (i_pending s1) = said out ++ held (i_pending s) /\ forall v, sees v out1 = sees v out).
  { revert E. unfold content_block, block_text. repeat case_match; intros [= <- <- <-]; simpl; rewrite ?app_nil_r; repeat split; try done.
    - by rewrite !said_app, flush_said, !app_nil_r.
    - intros v. by rewrite !sees_app, flush_sees. }
  destruct H as (-> & H2 & H3 & H4). destruct (fold_left _ blocks _) as [[s2 out2] col2]. destruct IH as (-> & I2 & I3 & I4).
  change ((raw :: blocks) ≫= block_text) with (block_text raw ++ (blocks ≫= block_text)). rewrite <- app_assoc. repeat split; [congruence..|]. intros v. by rewrite I4, H4.
Qed.

Lemma messageEnd_ok m s : pi_ok s
  (if is_str (get "role" m) "assistant" && negb (is_str (get "stopReason" m) "error") && negb (is_str (get "stopReason" m) "aborted")
   then joined (asArray (get "content" m) ≫= block_text) else []) (messageEnd (Some m) s).
Proof.
  unfold messageEnd. destruct (is_str (get "role" m) "assistant"); cbn [negb andb]; [|by apply pi_same].
  set (s0 := addUsage _ _).
  assert (Hs0 : forall t r, pi_ok s0 t r -> pi_ok s t r).
  { intros t r. subst s0. unfold addUsage. destruct (asRecord _), (truthy _); done. }
  clearbody s0. apply Hs0. clear Hs0 s. destruct (is_str _ "error"); cbn [negb andb]; [by apply pi_same|].
  destruct (is_str _ "aborted"); cbn [negb andb]; [by apply pi_same|].
  pose proof (content_ok (asArray (get "content" m)) (set_lastError None s0) [] []) as H.
  destruct (fold_left _ _ _) as [[s out] collected]. destruct H as (-> & H2 & H3 & H4). simpl in *.
  destruct (asArray (get "content" m) ≫= block_text) as [|t l]; unfold joined; (split; [|intros v Hv]); cbn [fst snd].
  - by rewrite H3, app_nil_r.
  - rewrite H2, H4. done.
  - rewrite said_app, flush_said. cbn [set_pending i_pending]. by rewrite H3.
  - rewrite sees_app, flush_sees, H4. cbn [set_pending i_outcome]. by rewrite H2.
Qed.

Lemma pi_map_ok record s : pi_ok s (pi_texts record) (pi_map relative cwd record s).
Proof.
  unfold pi_map, pi_texts. destruct (asRecord (Some record)) as [rec|]; [|by apply pi_same].
  destruct (is_str (get "type" rec) "session") eqn:Hse.
  { rewrite (is_str_other _ _ _ Hse) by done. destruct (truthy _); by apply pi_same. }
  destruct (is_str (get "type" rec) "message_end").
  { destruct (asRecord (get "message" rec)) as [m|]; [apply messageEnd_ok | by apply pi_same]. }
  destruct (is_str _ "tool_execution_start"). { destruct (asRecord _); [destruct (truthy _)|]; by apply pi_same. }
  destruct (is_str _ "tool_execution_end").
  { pose proof (pi_tool_ok rec (set_pending None s)) as H. destruct (tool _ _ _ _) as [s' ds]. simpl in H. destruct H as (Hs & Hp & Hv).
    split; simpl; [by rewrite said_app, flush_said, Hs, Hp, !app_nil_r|]. intros v Hsh. rewrite sees_app, flush_sees. by apply Hv. }
  destruct (is_str _ "auto_retry_end"). { destruct (is_false _); by apply pi_same. }
  destruct (is_str _ "compaction_end"). { apply pi_same; unfold addUsage; by destruct (_ ≫= _). }
  destruct (is_str _ "agent_settled"); by apply pi_same.
Qed.

Lemma pi_finish_ok s : let '(s', ds) := pi_finish s in
  said ds = held (i_pending s) /\ held (i_pending s') = [] /\ forall v, shows (i_outcome s) v -> shows (i_outcome s') (sees v ds).
Proof.
  unfold pi_finish. set (failure := match lastError s with Some _ => _ | None => _ end). destruct failure as [e|]; [|unfold held].
  - destruct (sawModelCall s); (split; [by rewrite !said_app, flush_said, !app_nil_r|]; split; [done|]; intros v (H1 & H2 & H3 & H4);
      rewrite !sees_app, flush_sees; by repeat split).
  - destruct (i_pending s) as [p|]; [destruct (truthy (trim p))|]; destruct (sawModelCall s);
      (split; [done|]; split; [done|]; intros v (H1 & H2 & H3 & H4); repeat split; simpl; auto).
Qed.
End Laws.

#[export] Instance PiLaws relative : MapperLaws (PiMapper relative).
Proof.
  refine {| held_text := fun s : @MState (PiMapper relative) => held (i_pending s); texts := pi_texts; answer := fun _ => None |}.
  - intros o. by repeat split; left.
  - intros s. apply held_short.
  - intros o r s. destruct (pi_map_ok relative (o_cwd o) r s) as [H _]. simpl. by destruct (pi_map _ _ r s).
  - intros s. simpl. pose proof (pi_finish_ok s) as H. destruct (pi_finish s). tauto.
  - intros o r s v. destruct (pi_map_ok relative (o_cwd o) r s) as [_ H]. simpl. destruct (pi_map _ _ r s). by apply H.
  - intros s v. simpl. pose proof (pi_finish_ok s) as H. destruct (pi_finish s). by apply H.
Defined.
