(* ===== verification/Base64.v ===== *)
(** * Base64 (sdk/typescript/src/crypto.ts)

    [btoa] on bytes, the variant for URLs, and a reader of both; bytes are numbers below 256. *)

From Stdlib Require Import ZArith Lia Bool List Ascii.
From stdpp Require Import base list strings.
From S2P Require Import Prelude JsString JsMap Json JsNumber Mapping.

Open Scope Z_scope.
Local Set Warnings "-register-all".

Definition is_byte_value (b : Z) : Prop := 0 <= b < 256.

(** ** Base64 *)

Definition b64_alphabet : string := "ABCDEFGHIJKLMNOPQRSTUVWXYZabcdefghijklmnopqrstuvwxyz0123456789+/".
Definition b64_char (i : Z) : ascii := default "A"%char (String.get (Z.to_nat i) b64_alphabet).

(** [btoa] of the bytes. *)
Fixpoint btoa (l : list Z) : string :=
  match l with
  | a :: b :: c :: r =>
      String (b64_char (a / 4)) (String (b64_char (a mod 4 * 16 + b / 16)) (String (b64_char (b mod 16 * 4 + c / 64)) (String (b64_char (c mod 64)) (btoa r))))
  | [a; b] => String (b64_char (a / 4)) (String (b64_char (a mod 4 * 16 + b / 16)) (String (b64_char (b mod 16 * 4)) "="))
  | [a] => String (b64_char (a / 4)) (String (b64_char (a mod 4 * 16)) "==")
  | [] => ""
  end.

(** [.replace(/=+$/, '')] *)
Fixpoint strip_equals (s : string) : string :=
  match s with
  | EmptyString => ""
  | String c r => match strip_equals r with
                  | EmptyString => if Ascii.eqb c "=" then "" else String c ""
                  | r' => String c r'
                  end
  end.

Definition url_char (c : ascii) : ascii := if Ascii.eqb c "+" then "-"%char else if Ascii.eqb c "/" then "_"%char else c.

Definition base64Url (l : list Z) : string := strip_equals (map_string url_char (btoa l)).

(** What a reader makes of the text; [None] when it is not base64. *)
Fixpoint index_of (c : ascii) (s : string) (i : Z) : option Z :=
  match s with EmptyString => None | String d r => if Ascii.eqb c d then Some i else index_of c r (i + 1) end.
Definition b64_value (c : ascii) : option Z :=
  index_of (if Ascii.eqb c "-" then "+"%char else if Ascii.eqb c "_" then "/"%char else c) b64_alphabet 0.

Fixpoint b64_read (s : string) : option (list Z) :=
  match s with
  | EmptyString => Some []
  | String p (String q rest) =>
      match b64_value p, b64_value q with
      | Some i, Some j =>
          let a := i * 4 + j / 16 in
          match rest with
          | EmptyString => Some [a]
          | String t rest2 =>
              if Ascii.eqb t "=" then Some [a]
              else match b64_value t with
              | Some k =>
                  let b := j mod 16 * 16 + k / 4 in
                  match rest2 with
                  | EmptyString => Some [a; b]
                  | String u rest3 =>
                      if Ascii.eqb u "=" then Some [a; b]
                      else match b64_value u, b64_read rest3 with
                      | Some m, Some l => Some (a :: b :: (k mod 4 * 64 + m) :: l)
                      | _, _ => None
                      end
                  end
              | None => None
              end
          end
      | _, _ => None
      end
  | _ => None
  end.

Lemma b64_value_char i : 0 <= i < 64 ->
  b64_value (b64_char i) = Some i /\ b64_value (url_char (b64_char i)) = Some i
  /\ b64_char i <> "="%char /\ url_char (b64_char i) <> "="%char /\ unreserved (nat_of_ascii (url_char (b64_char i))) = true.
Proof.
  intros Hi. assert (H : forallb (fun i => bool_decide (b64_value (b64_char i) = Some i /\ b64_value (url_char (b64_char i)) = Some i
    /\ b64_char i <> "="%char /\ url_char (b64_char i) <> "="%char /\ unreserved (nat_of_ascii (url_char (b64_char i))) = true)) (map Z.of_nat (seq 0 64)) = true) by (vm_compute; reflexivity).
  rewrite forallb_forall in H. apply (bool_decide_eq_true_1 _), H, in_map_iff. exists (Z.to_nat i). split; [lia|]. apply in_seq. lia.
Qed.

(** Induction in steps of three bytes. *)
Lemma triples_ind (P : list Z -> Prop) :
  P [] -> (forall a, P [a]) -> (forall a b, P [a; b]) -> (forall a b c r, P r -> P (a :: b :: c :: r)) -> forall l, P l.
Proof.
  intros H0 H1 H2 H3. assert (G : forall n l, (length l <= n)%nat -> P l); [|intros l; by apply (G (length l))].
  induction n as [|n IH]; intros [|a [|b [|c r]]] Hl; cbn in Hl; try lia; auto. apply H3, IH. lia.
Qed.

Lemma b64_groups a b c : is_byte_value a -> is_byte_value b -> is_byte_value c ->
  (0 <= a / 4 < 64 /\ 0 <= a mod 4 * 16 < 64 /\ 0 <= a mod 4 * 16 + b / 16 < 64 /\ 0 <= b mod 16 * 4 < 64 /\ 0 <= b mod 16 * 4 + c / 64 < 64 /\ 0 <= c mod 64 < 64)
  /\ a / 4 * 4 + (a mod 4 * 16) / 16 = a /\ a / 4 * 4 + (a mod 4 * 16 + b / 16) / 16 = a
  /\ (a mod 4 * 16 + b / 16) mod 16 * 16 + (b mod 16 * 4) / 4 = b /\ (a mod 4 * 16 + b / 16) mod 16 * 16 + (b mod 16 * 4 + c / 64) / 4 = b
  /\ (b mod 16 * 4 + c / 64) mod 4 * 64 + c mod 64 = c.
Proof. unfold is_byte_value. intros. Z.to_euclidean_division_equations. lia. Qed.

(** A group of four characters that are no padding is read as three bytes. *)
Lemma b64_read_group p q t u rest i j k m : b64_value p = Some i -> b64_value q = Some j -> b64_value t = Some k -> b64_value u = Some m ->
  t <> "="%char -> u <> "="%char ->
  b64_read (String p (String q (String t (String u rest))))
    = match b64_read rest with Some l => Some (i * 4 + j / 16 :: j mod 16 * 16 + k / 4 :: k mod 4 * 64 + m :: l) | None => None end.
Proof.
  intros Hp Hq Ht Hu Nt%Ascii.eqb_neq Nu%Ascii.eqb_neq. cbn [b64_read]. rewrite Hp, Hq, Nt, Ht, Nu, Hu. by destruct (b64_read rest).
Qed.

Lemma btoa_read l : Forall is_byte_value l -> b64_read (btoa l) = Some l.
Proof.
  induction l as [|a|a b|a b c r IH] using triples_ind; intros Hl; [done | | |].
  - apply Forall_cons in Hl as [Ha _]. destruct (b64_groups a 0 0 Ha) as [(R1 & R2 & _) (E1 & _)]; [split; lia | split; lia|].
    cbn [btoa b64_read]. rewrite (proj1 (b64_value_char _ R1)), (proj1 (b64_value_char _ R2)). cbn [Ascii.eqb Bool.eqb]. by rewrite E1.
  - apply Forall_cons in Hl as [Ha [Hb _]%Forall_cons]. destruct (b64_groups a b 0 Ha Hb) as [(R1 & _ & R3 & R4 & _) (_ & E2 & E3 & _)]; [split; lia|].
    cbn [btoa b64_read]. rewrite (proj1 (b64_value_char _ R1)), (proj1 (b64_value_char _ R3)).
    destruct (b64_value_char _ R4) as (V & _ & N%Ascii.eqb_neq & _). rewrite N, V. cbn [Ascii.eqb Bool.eqb]. by rewrite E2, E3.
  - apply Forall_cons in Hl as [Ha [Hb [Hc Hr]%Forall_cons]%Forall_cons]. destruct (b64_groups a b c Ha Hb Hc) as [(R1 & _ & R3 & _ & R5 & R6) (_ & E2 & _ & E4 & E5)].
    cbn [btoa]. rewrite (b64_read_group _ _ _ _ _ _ _ _ _ (proj1 (b64_value_char _ R1)) (proj1 (b64_value_char _ R3)) (proj1 (b64_value_char _ R5)) (proj1 (b64_value_char _ R6)));
      [|by apply (b64_value_char _ R5) | by apply (b64_value_char _ R6)]. rewrite IH by done. by rewrite E2, E4, E5.
Qed.

Fixpoint all_unreserved (s : string) : bool := match s with EmptyString => true | String c r => unreserved (nat_of_ascii c) && all_unreserved r end.

Lemma strip_equals_cons c s : c <> "="%char -> strip_equals (String c s) = String c (strip_equals s).
Proof. intros N%Ascii.eqb_neq. cbn [strip_equals]. destruct (strip_equals s); [by rewrite N | done]. Qed.

(** The text for a URL: read back as the bytes, made of unreserved characters, four for three bytes. *)
Lemma base64Url_read l : Forall is_byte_value l ->
  b64_read (base64Url l) = Some l /\ all_unreserved (base64Url l) = true /\ Z.of_nat (String.length (base64Url l)) = (4 * Z.of_nat (length l) + 2) / 3.
Proof.
  unfold base64Url. induction l as [|a|a b|a b c r IH] using triples_ind; intros Hl; [done | | |].
  - apply Forall_cons in Hl as [Ha _]. destruct (b64_groups a 0 0 Ha) as [(R1 & R2 & _) (E1 & _)]; [split; lia | split; lia|].
    destruct (b64_value_char _ R1) as (_ & V1 & _ & N1 & U1). destruct (b64_value_char _ R2) as (_ & V2 & _ & N2 & U2).
    cbn [btoa map_string]. rewrite !strip_equals_cons by done. change (strip_equals (map_string url_char "==")) with "". cbn [b64_read all_unreserved]. rewrite V1, V2, U1, U2, E1. done.
  - apply Forall_cons in Hl as [Ha [Hb _]%Forall_cons]. destruct (b64_groups a b 0 Ha Hb) as [(R1 & _ & R3 & R4 & _) (_ & E2 & E3 & _)]; [split; lia|].
    destruct (b64_value_char _ R1) as (_ & V1 & _ & N1 & U1). destruct (b64_value_char _ R3) as (_ & V2 & _ & N2 & U2). destruct (b64_value_char _ R4) as (_ & V3 & _ & N3 & U3).
    cbn [btoa map_string]. rewrite !strip_equals_cons by done. change (strip_equals (map_string url_char "=")) with "". cbn [b64_read all_unreserved].
    rewrite V1, V2, V3, U1, U2, U3, E2, E3, (proj2 (Ascii.eqb_neq _ _) N3). done.
  - apply Forall_cons in Hl as [Ha [Hb [Hc Hr]%Forall_cons]%Forall_cons]. destruct (b64_groups a b c Ha Hb Hc) as [(R1 & _ & R3 & _ & R5 & R6) (_ & E2 & _ & E4 & E5)].
    destruct (b64_value_char _ R1) as (_ & V1 & _ & N1 & U1). destruct (b64_value_char _ R3) as (_ & V2 & _ & N2 & U2).
    destruct (b64_value_char _ R5) as (_ & V3 & _ & N3 & U3). destruct (b64_value_char _ R6) as (_ & V4 & _ & N4 & U4).
    destruct (IH Hr) as (I1 & I2 & I3). cbn [btoa map_string]. rewrite !strip_equals_cons by done. split; [|split].
    + rewrite (b64_read_group _ _ _ _ _ _ _ _ _ V1 V2 V3 V4 N3 N4), I1. by rewrite E2, E4, E5.
    + cbn [all_unreserved]. by rewrite U1, U2, U3, U4, I2.
    + cbn [String.length length]. replace (4 * Z.of_nat (S (S (S (length r)))) + 2) with (4 * Z.of_nat (length r) + 2 + 4 * 3) by lia.
      rewrite Z.div_add by lia. lia.
Qed.

Lemma utf8_bytes s : Forall is_byte_value (utf8 s).
Proof.
  induction s as [|c s IH]; [constructor|]. cbn [utf8]. apply Forall_app. split; [|done]. unfold utf8_char, is_byte_value.
  destruct c as [[] [] [] [] [] [] [] []]; vm_compute; repeat constructor; discriminate.
Qed.

(** ** [atob] *)

Fixpoint keep_chars (p : ascii -> bool) (s : string) : string :=
  match s with EmptyString => "" | String c r => if p c then String c (keep_chars p r) else keep_chars p r end.
Fixpoint all_chars (p : ascii -> bool) (s : string) : bool := match s with EmptyString => true | String c r => p c && all_chars p r end.

Definition ascii_white (c : ascii) : bool := existsb (Nat.eqb (nat_of_ascii c)) [9; 10; 12; 13; 32]%nat.
Definition std_digit (c : ascii) : bool := isSome (index_of c b64_alphabet 0).

(** One or two padding characters at the end. *)
Fixpoint drop_padding (s : string) : string :=
  match s with
  | "==" | "=" => ""
  | String c r => String c (drop_padding r)
  | EmptyString => ""
  end.

(** Spaces are skipped; padding is optional, but a text of whole groups may have it; [None] is an exception. *)
Definition atob (s : string) : option (list Z) :=
  let s := keep_chars (fun c => negb (ascii_white c)) s in
  let s := if (String.length s mod 4 =? 0)%nat then drop_padding s else s in
  if (String.length s mod 4 =? 1)%nat || negb (all_chars std_digit s) then None else b64_read s.

(** [.replace(/-/g, '+').replace(/_/g, '/')] *)
Definition std_char (c : ascii) : ascii := if Ascii.eqb c "-" then "+"%char else if Ascii.eqb c "_" then "/"%char else c.

Definition url_digit (c : ascii) : bool := isSome (b64_value c) && negb (Ascii.eqb c "=").

Lemma base64Url_digits l : Forall is_byte_value l -> all_chars url_digit (base64Url l) = true.
Proof.
  assert (V : forall i, 0 <= i < 64 -> url_digit (url_char (b64_char i)) = true).
  { intros i Hi. destruct (b64_value_char i Hi) as (_ & H1 & _ & H2%Ascii.eqb_neq & _). unfold url_digit. by rewrite H1, H2. }
  assert (N : forall i, 0 <= i < 64 -> url_char (b64_char i) <> "="%char) by (intros i Hi; apply (b64_value_char i Hi)).
  unfold base64Url. induction l as [|a|a b|a b c r IH] using triples_ind; intros Hl; [done | | |].
  - apply Forall_cons in Hl as [Ha _]. destruct (b64_groups a 0 0 Ha) as [(R1 & R2 & _) _]; [split; lia | split; lia|].
    cbn [btoa map_string]. rewrite !strip_equals_cons by auto. cbn [all_chars]. by rewrite !V.
  - apply Forall_cons in Hl as [Ha [Hb _]%Forall_cons]. destruct (b64_groups a b 0 Ha Hb) as [(R1 & _ & R3 & R4 & _) _]; [split; lia|].
    cbn [btoa map_string]. rewrite !strip_equals_cons by auto. cbn [all_chars]. by rewrite !V.
  - apply Forall_cons in Hl as [Ha [Hb [Hc Hr]%Forall_cons]%Forall_cons]. destruct (b64_groups a b c Ha Hb Hc) as [(R1 & _ & R3 & _ & R5 & R6) _].
    cbn [btoa map_string]. rewrite !strip_equals_cons by auto. cbn [all_chars]. by rewrite !V, IH.
Qed.

Lemma url_digit_std c : url_digit c = true ->
  b64_value (std_char c) = b64_value c /\ ascii_white (std_char c) = false /\ std_digit (std_char c) = true /\ std_char c <> "="%char /\ c <> "="%char.
Proof. destruct c as [[] [] [] [] [] [] [] []]; vm_compute; intros H; try discriminate H; repeat split; discriminate. Qed.

Lemma std_keeps s : all_chars url_digit s = true ->
  keep_chars (fun c => negb (ascii_white c)) (map_string std_char s) = map_string std_char s /\ all_chars std_digit (map_string std_char s) = true
  /\ drop_padding (map_string std_char s) = map_string std_char s /\ String.length (map_string std_char s) = String.length s.
Proof.
  induction s as [|c s IH]; [done|]. cbn [all_chars]. intros [Hc Hs]%andb_true_iff. destruct (IH Hs) as (I1 & I2 & I3 & I4). destruct (url_digit_std c Hc) as (_ & H2 & H3 & H4 & _).
  cbn [map_string keep_chars all_chars String.length]. rewrite H2, H3, I1, I2, I4. split; [done|]. split; [done|]. split; [|done]. cbn [drop_padding]. rewrite I3.
  clear -H4. destruct (std_char c) as [[] [] [] [] [] [] [] []]; done.
Qed.

Lemma std_read s : all_chars url_digit s = true -> b64_read (map_string std_char s) = b64_read s.
Proof.
  assert (G : forall n s, (String.length s <= n)%nat -> all_chars url_digit s = true -> b64_read (map_string std_char s) = b64_read s); [|intros H; by apply (G (String.length s))].
  clear s. induction n as [|n IH]; intros [|p [|q [|t [|u s]]]] Hl; cbn [String.length] in Hl; try lia; try done; cbn [all_chars]; rewrite ?andb_true_iff; intros H; destruct_and?;
    repeat match goal with H : url_digit _ = true |- _ => apply url_digit_std in H as (? & _ & _ & ?%Ascii.eqb_neq & ?%Ascii.eqb_neq) end; cbn [map_string b64_read];
    repeat match goal with H : b64_value (std_char _) = _ |- _ => rewrite H; clear H | H : (_ =? _)%char = false |- _ => rewrite H; clear H end; try done. rewrite IH by (done || lia). done.
Qed.

(** What [base64Url] writes, [atob] reads. *)
Lemma atob_base64Url l : Forall is_byte_value l -> atob (map_string std_char (base64Url l)) = Some l.
Proof.
  intros Hl. pose proof (base64Url_digits l Hl) as Hd. destruct (std_keeps _ Hd) as (H1 & H2 & H3 & H4). destruct (base64Url_read l Hl) as (R1 & _ & R3).
  unfold atob. rewrite H1, H3, Tauto.if_same, H2, H4, std_read, R1 by done.
  destruct (Nat.eqb_spec (String.length (base64Url l) mod 4) 1) as [E|]; [exfalso | done].
  assert (E' : (Z.of_nat (String.length (base64Url l)) mod 4 = 1)) by (change 4 with (Z.of_nat 4); rewrite <- Nat2Z.inj_mod; lia). rewrite R3 in E'. Z.to_euclidean_division_equations. lia.
Qed.
