(* ===== verification/SdkOauth.v ===== *)
(** * The OAuth client of the SDK (sdk/typescript/src/oauth.ts, crypto.ts)

    Texts for the wire (base64, form encoding) with the readers the server uses, the authorization
    URL, the callback, and the calls of the token endpoint.  The network is an argument: what [fetch] does for a
    request and whether the caller's signal or the timer had fired.  Random bytes and the hash
    are arguments; bytes are numbers below 256. *)

From Stdlib Require Import ZArith Lia Bool List Ascii QArith.
From stdpp Require Import base list strings.
From S2P Require Import Prelude JsString JsMap Json JsNumber Mapping SdkHttp Base64.

Open Scope Z_scope.
Local Set Warnings "-register-all".

(** ** Form encoding *)

Definition hex_digit (c : ascii) : option Z :=
  let n := code c in
  if (48 <=? n) && (n <=? 57) then Some (n - 48)
  else if (65 <=? n) && (n <=? 70) then Some (n - 55)
  else if (97 <=? n) && (n <=? 102) then Some (n - 87) else None.

(** The bytes of a percent-encoded text; a plus is a space in a form. *)
Fixpoint percent_bytes (plus : bool) (s : string) : list Z :=
  match s with
  | EmptyString => []
  | String c r =>
      if plus && Ascii.eqb c "+" then 32 :: percent_bytes plus r
      else if Ascii.eqb c "%" then
        match r with
        | String a (String b r2) =>
            match hex_digit a, hex_digit b with
            | Some x, Some y => (16 * x + y) :: percent_bytes plus r2
            | _, _ => 37 :: percent_bytes plus r
            end
        | _ => 37 :: percent_bytes plus r
        end
      else utf8_char c ++ percent_bytes plus r
  end.

Definition form_decode (s : string) : string := from_utf8 (percent_bytes true s).
(** [decodeURIComponent] on well-formed text. *)
Definition uri_decode (s : string) : string := from_utf8 (percent_bytes false s).

Fixpoint cut_at (c : ascii) (s : string) : string * option string :=
  match s with
  | EmptyString => ("", None)
  | String d r => if Ascii.eqb d c then ("", Some r) else let (a, b) := cut_at c r in (String d a, b)
  end.

(** [new URLSearchParams(entries).toString()] and [new URLSearchParams(text)]. *)
Definition params_text (l : list (string * string)) : string := join "&" (map (fun p => form_encode p.1 +:+ "=" +:+ form_encode p.2) l).

Definition parse_params (s : string) : list (string * string) :=
  map (fun part => let (k, v) := cut_at "=" part in (form_decode k, form_decode (v ?? ""))) (List.filter truthy (split "&" s)).

Lemma encode_unit_bytes plus c r : 
  percent_bytes plus ((if unreserved (nat_of_ascii c) then String c "" else percent_unit (nat_of_ascii c)) +:+ r) = utf8_char c ++ percent_bytes plus r.
Proof. destruct plus, c as [[] [] [] [] [] [] [] []]; reflexivity. Qed.

Lemma form_unit_bytes c r :
  percent_bytes true ((if alnum (nat_of_ascii c) || existsb (Nat.eqb (nat_of_ascii c)) [42; 45; 46; 95]%nat then String c ""
     else if (nat_of_ascii c =? 32)%nat then "+" else percent_unit (nat_of_ascii c)) +:+ r) = utf8_char c ++ percent_bytes true r.
Proof. destruct c as [[] [] [] [] [] [] [] []]; reflexivity. Qed.

Lemma uri_decode_encode s : uri_decode (encodeURIComponent s) = s.
Proof.
  unfold uri_decode. rewrite <- (from_utf8_utf8 s) at 2. f_equal. induction s as [|c s IH]; [done|]. cbn [encodeURIComponent utf8]. by rewrite encode_unit_bytes, IH.
Qed.

Lemma form_decode_encode s : form_decode (form_encode s) = s.
Proof.
  unfold form_decode. rewrite <- (from_utf8_utf8 s) at 2. f_equal. induction s as [|c s IH]; [done|]. cbn [form_encode utf8]. by rewrite form_unit_bytes, IH.
Qed.

Lemma form_unit_lacks c d : (d = "&" \/ d = "=")%char ->
  lacks d (if alnum (nat_of_ascii c) || existsb (Nat.eqb (nat_of_ascii c)) [42; 45; 46; 95]%nat then String c ""
     else if (nat_of_ascii c =? 32)%nat then "+" else percent_unit (nat_of_ascii c)) = true.
Proof. intros [-> | ->]; destruct c as [[] [] [] [] [] [] [] []]; reflexivity. Qed.

Lemma form_encode_lacks d s : (d = "&" \/ d = "=")%char -> lacks d (form_encode s) = true.
Proof. intros Hd. induction s as [|c s IH]; [done|]. cbn [form_encode]. by rewrite lacks_app, form_unit_lacks, IH. Qed.

Lemma uri_unit_lacks c : lacks ":" (if unreserved (nat_of_ascii c) then String c "" else percent_unit (nat_of_ascii c)) = true.
Proof. destruct c as [[] [] [] [] [] [] [] []]; reflexivity. Qed.

Lemma encode_lacks_colon s : lacks ":" (encodeURIComponent s) = true.
Proof. induction s as [|c s IH]; [done|]. cbn [encodeURIComponent]. by rewrite lacks_app, uri_unit_lacks, IH. Qed.

Lemma cut_at_app c k v : lacks c k = true -> cut_at c (k +:+ String c v) = (k, Some v).
Proof.
  induction k as [|a k IH]; cbn [lacks]; [intros _; cbn; by rewrite Ascii.eqb_refl|]. rewrite andb_true_iff, negb_true_iff. intros [Ha Hk].
  change (String a k +:+ String c v) with (String a (k +:+ String c v)). cbn [cut_at]. rewrite Ascii.eqb_sym, Ha, (IH Hk). done.
Qed.

(** A form is read back as it was written. *)
Lemma params_roundtrip l : parse_params (params_text l) = l.
Proof.
  destruct l as [|p l]; [done|]. unfold parse_params, params_text.
  rewrite split_join_char; [|done|].
  - set (q := p :: l). clearbody q. clear p l. induction q as [|[k v] q IH]; [done|]. cbn [map List.filter fst snd].
    assert (Ht : truthy (form_encode k +:+ "=" +:+ form_encode v) = true) by (by destruct (form_encode k)).
    rewrite Ht. cbn [map]. rewrite IH. change ("=" +:+ form_encode v) with (String "=" (form_encode v)). rewrite cut_at_app by (apply form_encode_lacks; auto).
    cbn [default from_option]. unfold id. by rewrite !form_decode_encode.
  - apply Forall_map, List.Forall_forall. intros [k v] _. cbn. change ("=" +:+ form_encode v) with (String "=" (form_encode v)). rewrite lacks_app, form_encode_lacks by auto.
    cbn [lacks]. rewrite form_encode_lacks by auto. reflexivity.
Qed.

(** ** The client *)

Inductive OAuthActor := actor_user | actor_app.
Inductive ClientAuthentication := auth_basic | auth_post | auth_none.

Definition show_actor (a : OAuthActor) : string := match a with actor_user => "user" | actor_app => "app" end.
Definition show_auth (a : ClientAuthentication) : string := match a with auth_basic => "basic" | auth_post => "post" | auth_none => "none" end.

Record FlowOAuthClientOptions := mkOAuthOptions {
  o_apiUrl : option string; o_clientId : string; o_clientSecret : option string; o_redirectUri : option string;
  o_clientAuthentication : option ClientAuthentication; o_timeout : option Z }.

Record FlowOAuthClient := mkOAuthClient { oauth_apiUrl : string; options : FlowOAuthClientOptions }.

(** A configuration error or an error of the SDK. *)
Inductive OAuthFailure := ConfigError (message : string) | Failed (e : FlowError).

(** [.replace(/\/+$/, '')] *)
Fixpoint strip_slashes (s : string) : string :=
  match s with
  | EmptyString => ""
  | String c r => match strip_slashes r with
                  | EmptyString => if Ascii.eqb c "/" then "" else String c ""
                  | r' => String c r'
                  end
  end.

(** [.replace(/\/api$/, '')] *)
Fixpoint strip_api (s : string) : string :=
  if s =s "/api" then "" else match s with EmptyString => "" | String c r => String c (strip_api r) end.

(** [URL_parse] gives the origin and the path of a URL; [env] is FLOW_BASE_URL. *)
Definition new_FlowOAuthClient (URL_parse : string -> option (string * string)) (env : option string) (o : FlowOAuthClientOptions) : OAuthFailure + FlowOAuthClient :=
  if o_clientId o =s "" then inl (ConfigError "FlowOAuthClient needs a clientId")
  else
    let raw := match o_apiUrl o with Some u => u | None => env ?? "" end in
    if raw =s "" then inl (ConfigError "FlowOAuthClient needs the URL of your Flow deployment: pass { apiUrl } or set FLOW_BASE_URL")
    else match URL_parse raw with
         | None => inl (ConfigError ("Invalid Flow API URL: " +:+ raw))
         | Some (origin, pathname) => inr (mkOAuthClient (origin +:+ strip_api (strip_slashes pathname)) o)
         end.

(** A scope as a text or as a list. *)
Inductive Scope := ScopeText (s : string) | ScopeList (l : list string).

(** The words of a text between white space and commas. *)
Fixpoint words (s : string) (w : string) : list string :=
  match s with
  | EmptyString => [w]
  | String c r => if is_space c || Ascii.eqb c "," then w :: words r "" else words r (w +:+ String c "")
  end.

Definition scopeList (scope : option Scope) : list string :=
  match scope with
  | None => []
  | Some (ScopeText s) => List.filter truthy (words s "")
  | Some (ScopeList l) => List.filter truthy l
  end.

Definition basicAuth (clientId clientSecret : string) : string :=
  "Basic " +:+ btoa (utf8 (encodeURIComponent clientId +:+ ":" +:+ encodeURIComponent clientSecret)).

Record PkcePair := mkPkce { codeVerifier : string; codeChallenge : string }.

(** [random] are the 32 bytes drawn, [sha256] the hash. *)
Definition createPkcePair (sha256 : list Z -> list Z) (random : list Z) : PkcePair :=
  let v := base64Url random in mkPkce v (base64Url (sha256 (utf8 v))).

Record AuthorizationUrlOptions := mkAuthorize {
  a_scope : option Scope; a_state : option string; a_actor : option OAuthActor; a_prompt : bool; a_redirectUri : option string; a_codeChallenge : option string }.

(** [if (value) params.set(name, value)] *)
Definition set_if (name : string) (value : option string) (l : list (string * string)) : list (string * string) :=
  match value with Some v => if truthy v then map_set name v l else l | None => l end.

Definition authorization_params (c : FlowOAuthClient) (o : AuthorizationUrlOptions) (redirectUri : string) : list (string * string) :=
  let p0 := [("response_type", "code"); ("client_id", o_clientId (options c)); ("redirect_uri", redirectUri)] in
  let scope := scopeList (a_scope o) in
  let p1 := match scope with [] => p0 | _ => map_set "scope" (join "," scope) p0 end in
  let p2 := set_if "state" (a_state o) p1 in
  let p3 := set_if "actor" (show_actor <$> a_actor o) p2 in
  let p4 := if a_prompt o then map_set "prompt" "consent" p3 else p3 in
  match a_codeChallenge o with
  | Some ch => if truthy ch then map_set "code_challenge_method" "S256" (map_set "code_challenge" ch p4) else p4
  | None => p4
  end.

Definition redirect (c : FlowOAuthClient) (given : option string) : string :=
  match given with Some u => u | None => o_redirectUri (options c) ?? "" end.

Definition authorizationUrl (c : FlowOAuthClient) (o : AuthorizationUrlOptions) : OAuthFailure + string :=
  let redirectUri := redirect c (a_redirectUri o) in
  if redirectUri =s "" then inl (ConfigError "authorizationUrl needs a redirectUri (pass it here or to the constructor)")
  else inr (oauth_apiUrl c +:+ "/oauth/authorize?" +:+ params_text (authorization_params c o redirectUri)).

Record StartedAuthorization := mkStarted { started_url : string; started_state : string; pkce : PkcePair }.

Definition startAuthorization (sha256 : list Z -> list Z) (random random_state : list Z) (c : FlowOAuthClient) (o : AuthorizationUrlOptions) : OAuthFailure + StartedAuthorization :=
  let pair := createPkcePair sha256 random in
  let state := match a_state o with Some s => s | None => base64Url random_state end in
  match authorizationUrl c (mkAuthorize (a_scope o) (Some state) (a_actor o) (a_prompt o) (a_redirectUri o) (Some (codeChallenge pair))) with
  | inl e => inl e
  | inr url => inr (mkStarted url state pair)
  end.

Definition oauth_init (message code : string) (body : option json) : FlowErrorInit :=
  {| i_message := message; i_type := OAUTH_ERROR; i_code := Some code; i_status := Some 400; i_requestId := None;
     i_method := None; i_url := None; i_body := body; i_rateLimit := None |}.

(** [params.get(name)] is the first value of the name. *)
Definition parseCallback (params : list (string * string)) (expectedState : option string) : FlowError + (string * option string) :=
  let state := map_get "state" params in
  match map_get "error" params with
  | Some (String _ _ as error) =>
      let body := JObj (map (fun p => (p.1, JStr p.2)) params) in
      inl (new_FlowError FlowOAuthError (oauth_init (map_get "error_description" params ?? error) error (Some body)))
  | _ =>
      if match expectedState with Some s => negb (bool_decide (state = Some s)) | None => false end
      then inl (new_FlowError FlowOAuthError (oauth_init "The OAuth state does not match: possible cross-site request forgery" "state_mismatch" None))
      else match map_get "code" params with
           | Some (String _ _ as code) => inr (code, state)
           | _ => inl (new_FlowError FlowOAuthError (oauth_init "The callback has no authorization code" "invalid_request" None))
           end
  end.

(** ** The token endpoint *)

(** What the client sends. *)
Record FormRequest := mkForm { form_url : string; form_headers : list (string * string); form_body : string }.

(** What happens to a request: [fetch] rejects with a message or answers; the caller's signal, the timer. *)
Record OAuthEnv := mkOAuthEnv { oe_fetched : string + Response; oe_aborted : bool; oe_timed_out : bool }.

Section Token.
Context (JSON_parse : string -> option json).

Definition authentication (c : FlowOAuthClient) : ClientAuthentication :=
  match o_clientAuthentication (options c) with
  | Some a => a
  | None => match o_clientSecret (options c) with Some s => if truthy s then auth_basic else auth_none | None => auth_none end
  end.

Definition form_request (c : FlowOAuthClient) (path : string) (form : list (string * string)) (secret : string) : FormRequest :=
  let headers := [("Content-Type", "application/x-www-form-urlencoded"); ("Accept", "application/json")] in
  let id := o_clientId (options c) in
  let '(headers, fields) :=
    match authentication c with
    | auth_basic => (map_set "Authorization" (basicAuth id secret) headers, form)
    | auth_post => (headers, map_set "client_secret" secret (map_set "client_id" id form))
    | auth_none => (headers, map_set "client_id" id form)
    end in
  mkForm (oauth_apiUrl c +:+ path) headers (params_text fields).

Definition parse_answer (text : string) : option json :=
  if truthy (trim text) then match JSON_parse text with Some v => Some v | None => Some (JStr text) end else None.

Definition answer (url : string) (r : Response) : OAuthFailure + json :=
  let body := parse_answer (r_text r ?? "") in
  if response_ok r then inr (match body with Some JNull | None => JObj [] | Some v => v end)
  else
    let code := string_field "error" body ?? "invalid_request" in
    let message := match string_field "error_description" body with Some d => if truthy d then code +:+ ": " +:+ d else code | None => code end in
    inl (Failed (new_FlowError FlowOAuthError {|
      i_message := message; i_type := OAUTH_ERROR; i_code := Some code; i_status := Some (r_status r); i_requestId := r_headers r "X-Request-ID";
      i_method := Some "POST"; i_url := Some url; i_body := body; i_rateLimit := None |})).

(** The requests sent, and the result. *)
Definition post (c : FlowOAuthClient) (env : OAuthEnv) (path : string) (form : list (string * string)) : list FormRequest * (OAuthFailure + json) :=
  let secret := o_clientSecret (options c) ?? "" in
  let needs := match authentication c with auth_basic | auth_post => true | auth_none => false end in
  if needs && (secret =s "") then ([], inl (ConfigError ("clientAuthentication " +:+ dquote +:+ show_auth (authentication c) +:+ dquote +:+ " needs a clientSecret")))
  else
    let request := form_request c path form secret in
    let url := form_url request in
    ([request],
     match oe_fetched env with
     | inl detail =>
         inl (Failed (if oe_aborted env then new_FlowError AbortFlowError (simple_init "The request was aborted" ABORTED "POST" url)
                      else if oe_timed_out env then new_FlowError TimeoutFlowError (simple_init ("Request timed out after " +:+ showZ (o_timeout (options c) ?? 30000) +:+ " ms") TIMEOUT "POST" url)
                      else new_FlowError NetworkFlowError (simple_init ("Network request failed: " +:+ detail) NETWORK_ERROR "POST" url)))
     | inr r => answer url r
     end).

Record OAuthTokens := mkTokens {
  accessToken : string; tokenType : string; expiresIn : option Q; expiresAt : option Q; scope : list string; tokens_refreshToken : option string;
  actor : option OAuthActor; raw : json }.

(** [now] is the clock when the answer arrived, in milliseconds. *)
Definition read_tokens (now : Z) (body : json) : OAuthFailure + OAuthTokens :=
  match field "access_token" body with
  | Some (JStr t) =>
      let expires := match field "expires_in" body with Some (JNum n) => Some n | _ => None end in
      inr (mkTokens t (match field "token_type" body with Some (JStr s) => s | _ => "Bearer" end) expires
             ((fun n => inject_Z now + n * 1000)%Q <$> expires)
             (scopeList (match field "scope" body with Some (JStr s) => Some (ScopeText s) | _ => None end))
             (match field "refresh_token" body with Some (JStr s) => Some s | _ => None end)
             (match field "actor" body with Some (JStr s) => if s =s "app" then Some actor_app else if s =s "user" then Some actor_user else None | _ => None end)
             body)
  | _ => inl (Failed (new_FlowError UnknownFlowError {|
           i_message := "The token response has no access_token"; i_type := UNKNOWN; i_code := None; i_status := None; i_requestId := None;
           i_method := None; i_url := None; i_body := Some body; i_rateLimit := None |}))
  end.

Definition token (c : FlowOAuthClient) (env : OAuthEnv) (now : Z) (form : list (string * string)) : list FormRequest * (OAuthFailure + OAuthTokens) :=
  let (sent, r) := post c env "/oauth/token" form in
  (sent, match r with inl e => inl e | inr body => read_tokens now body end).

Definition exchangeCode (c : FlowOAuthClient) (env : OAuthEnv) (now : Z) (code : string) (redirectUri codeVerifier : option string) : list FormRequest * (OAuthFailure + OAuthTokens) :=
  let uri := redirect c redirectUri in
  if uri =s "" then ([], inl (ConfigError "exchangeCode needs a redirectUri (pass it here or to the constructor)"))
  else token c env now (set_if "code_verifier" codeVerifier [("grant_type", "authorization_code"); ("code", code); ("redirect_uri", uri)]).

Definition refreshToken (c : FlowOAuthClient) (env : OAuthEnv) (now : Z) (t : string) : list FormRequest * (OAuthFailure + OAuthTokens) :=
  token c env now [("grant_type", "refresh_token"); ("refresh_token", t)].

Definition clientCredentials (c : FlowOAuthClient) (env : OAuthEnv) (now : Z) (sc : option Scope) : list FormRequest * (OAuthFailure + OAuthTokens) :=
  token c env now ([("grant_type", "client_credentials")] ++ match scopeList sc with [] => [] | l => [("scope", join " " l)] end).

Definition revokeToken (c : FlowOAuthClient) (env : OAuthEnv) (t : string) (hint : option string) : list FormRequest * option OAuthFailure :=
  let (sent, r) := post c env "/oauth/revoke" ([("token", t)] ++ match hint with Some h => if truthy h then [("token_type_hint", h)] else [] | None => [] end) in
  (sent, match r with inl e => Some e | inr _ => None end).

Definition introspectToken (c : FlowOAuthClient) (env : OAuthEnv) (t : string) : list FormRequest * (OAuthFailure + json) :=
  post c env "/oauth/introspect" [("token", t)].

(** ** What the server reads *)

(** The client a request names: by its Authorization header, or by the fields of the form. *)
Definition read_basic (header : string) : option (string * string) :=
  if startsWith "Basic " header then
    match b64_read (slice_from 6 header) with
    | Some l => let (id, rest) := cut_at ":" (from_utf8 l) in (fun s => (uri_decode id, uri_decode s)) <$> rest
    | None => None
    end
  else None.

Lemma basicAuth_read id secret : read_basic (basicAuth id secret) = Some (id, secret).
Proof.
  unfold read_basic, basicAuth. set (t := encodeURIComponent id +:+ ":" +:+ encodeURIComponent secret).
  change (startsWith "Basic " ("Basic " +:+ btoa (utf8 t))) with (String.prefix "" (btoa (utf8 t))).
  assert (Hp : forall s, String.prefix "" s = true) by (by intros []). rewrite Hp. change (slice_from 6 ("Basic " +:+ btoa (utf8 t))) with (slice_from 0 (btoa (utf8 t))).
  assert (Hs : forall s, slice_from 0 s = s) by (by intros []). rewrite Hs, btoa_read by apply utf8_bytes. rewrite from_utf8_utf8.
  unfold t. change (":" +:+ encodeURIComponent secret) with (String ":" (encodeURIComponent secret)). rewrite cut_at_app by apply encode_lacks_colon.
  cbn [fmap option_fmap option_map]. by rewrite !uri_decode_encode.
Qed.

(** A call of the token endpoint sends at most one request, to its path at the client's deployment; without the secret it needs nothing is sent.
    The server reads exactly the fields of the call, and the client's id and secret either from the Authorization header or from the form, as
    the client authenticates; a public client sends its id and no secret. *)
Theorem oauth_requests_faithful c env path form :
  map_get "client_id" form = None -> map_get "client_secret" form = None ->
  let sent := (post c env path form).1 in
  let secret := o_clientSecret (options c) ?? "" in
  (authentication c <> auth_none -> secret = "" -> sent = [])
  /\ Forall (fun r =>
       form_url r = oauth_apiUrl c +:+ path
       /\ match authentication c with
          | auth_basic => parse_params (form_body r) = form /\ (map_get "Authorization" (form_headers r) ≫= read_basic) = Some (o_clientId (options c), secret)
          | auth_post => parse_params (form_body r) = form ++ [("client_id", o_clientId (options c)); ("client_secret", secret)] /\ map_get "Authorization" (form_headers r) = None
          | auth_none => parse_params (form_body r) = form ++ [("client_id", o_clientId (options c))] /\ map_get "Authorization" (form_headers r) = None
          end) sent /\ (length sent <= 1)%nat.
Proof.
  intros Hi Hs sent secret. apply map_get_None in Hi, Hs. unfold sent, post. cbv zeta. fold secret.
  assert (Hone : map_set "client_id" (o_clientId (options c)) form = form ++ [("client_id", o_clientId (options c))]) by (by apply map_set_new).
  destruct (authentication c) eqn:Ea; cbn [andb].
  - destruct (secret =s "") eqn:Es; cbn [fst]; [split; [done|]; split; [constructor | cbn; lia]|]. split; [intros _ E; by rewrite E in Es|].
    split; [|cbn; lia]. constructor; [|constructor]. unfold form_request. rewrite Ea. cbn [form_url form_body form_headers]. split; [done|]. rewrite params_roundtrip. split; [done|].
    cbn. apply basicAuth_read.
  - destruct (secret =s "") eqn:Es; cbn [fst]; [split; [done|]; split; [constructor | cbn; lia]|]. split; [intros _ E; by rewrite E in Es|].
    split; [|cbn; lia]. constructor; [|constructor]. unfold form_request. rewrite Ea. cbn [form_url form_body form_headers]. split; [done|]. rewrite params_roundtrip. split; [|done].
    rewrite Hone, map_set_new; [by rewrite <- app_assoc|]. unfold map_keys. rewrite map_app, not_elem_of_app. split; [done|]. by intros ?%list_elem_of_singleton.
  - split; [done|]. split; [|cbn; lia]. constructor; [|constructor]. unfold form_request. rewrite Ea. cbn [form_url form_body form_headers]. split; [done|]. rewrite params_roundtrip. by split.
Qed.
End Token.

(** A code is taken from a callback only when the callback reports no error, carries a code, and its state is the expected one: whatever a forged callback says, a
    different or missing state is refused.  The callback Flow sends for an authorization, read from its query text, is accepted. *)
Theorem oauth_callback_safe params expected :
  match parseCallback params expected with
  | inr (code, state) =>
      map_get "code" params = Some code /\ code <> "" /\ state = map_get "state" params /\ (map_get "error" params ?? "") = ""
      /\ (forall s, expected = Some s -> state = Some s)
  | inl e => e_class e = FlowOAuthError /\ e_type e = OAUTH_ERROR
  end
  /\ forall code state, code <> "" -> parseCallback (parse_params (params_text [("code", code); ("state", state)])) (Some state) = inr (code, Some state).
Proof.
  split.
  - unfold parseCallback. destruct (map_get "error" params) as [[|e0 e]|]; [| done |]; (destruct expected as [s|]; [destruct (negb _) eqn:En; [done|]|]);
      (destruct (map_get "code" params) as [[|c0 cs]|]; [done | | done]); repeat split; try done; intros s' E; try done; injection E as <-;
      apply negb_false_iff, bool_decide_eq_true_1 in En; done.
  - intros code state Hc. rewrite params_roundtrip. unfold parseCallback. cbn. rewrite bool_decide_eq_true_2 by done. cbn. by destruct code.
Qed.

(** The server reads from the authorization URL's query exactly the parameters that were set. *)
Lemma authorization_url_read c o url : authorizationUrl c o = inr url ->
  exists q, url = oauth_apiUrl c +:+ "/oauth/authorize?" +:+ q /\ parse_params q = authorization_params c o (redirect c (a_redirectUri o))
  /\ map_get "client_id" (parse_params q) = Some (o_clientId (options c)).
Proof.
  unfold authorizationUrl. destruct (_ =s "") eqn:E; [done|]. intros [= <-]. eexists. split; [done|]. rewrite params_roundtrip. split; [done|].
  unfold authorization_params. cbv zeta.
  assert (Hs : forall n (v : string) l, n <> "client_id" -> map_get "client_id" (map_set n v l) = map_get "client_id" l) by (intros; by rewrite map_get_set_ne).
  assert (Hi : forall n v l, n <> "client_id" -> map_get "client_id" (set_if n v l) = map_get "client_id" l) by (intros n [v|] l Hn; [unfold set_if; destruct (truthy v); [by apply Hs | done] | done]).
  repeat match goal with |- context [match ?x with _ => _ end] => destruct x eqn:? end; rewrite ?Hs, ?Hi, ?Hs by done; try done.
Qed.

Definition demo_client : FlowOAuthClient := mkOAuthClient "https://flow.example.com" (mkOAuthOptions None "app:1" (Some "s+c r%t") None None None).

Lemma oauth_requests_faithful_witness :
  read_basic (basicAuth "app:1" "s+c r%t") = Some ("app:1", "s+c r%t")
  /\ Forall (fun r => parse_params (form_body r) = [("grant_type", "refresh_token"); ("refresh_token", "a&b=c")])
       (post (fun _ => None) demo_client (mkOAuthEnv (inl "offline") false false) "/oauth/token" [("grant_type", "refresh_token"); ("refresh_token", "a&b=c")]).1.
Proof.
  split; [vm_compute; reflexivity|].
  destruct (oauth_requests_faithful (fun _ => None) demo_client (mkOAuthEnv (inl "offline") false false) "/oauth/token"
    [("grant_type", "refresh_token"); ("refresh_token", "a&b=c")] eq_refl eq_refl) as (_ & Hf & _).
  eapply Forall_impl; [exact Hf|]. intros r (_ & Hr & _). exact Hr.
Defined.

(** A verifier of 32 random bytes has the 43 unreserved characters that RFC 7636 asks for at least, and tells the bytes apart. *)
Theorem pkce_verifier_sound sha256 random random' : length random = 32%nat -> Forall is_byte_value random -> Forall is_byte_value random' ->
  String.length (codeVerifier (createPkcePair sha256 random)) = 43%nat /\ all_unreserved (codeVerifier (createPkcePair sha256 random)) = true
  /\ (codeVerifier (createPkcePair sha256 random') = codeVerifier (createPkcePair sha256 random) -> random' = random).
Proof.
  intros Hl Hb Hb'. destruct (base64Url_read random Hb) as (H1 & H2 & H3). destruct (base64Url_read random' Hb') as (H4 & _). cbn [createPkcePair codeVerifier].
  split; [rewrite Hl in H3; change ((4 * Z.of_nat 32 + 2) / 3) with 43 in H3; lia|]. split; [done|]. intros E. rewrite E, H1 in H4. congruence.
Qed.
