(* ===== verification/TeamResources.v ===== *)
(** * Team resources, written optimistically (web/src/lib/team-resource-sync.ts)

    The overview of a team lists pinned resources in sections.  A change is shown at once, the request
    runs in the background, and a failed request puts the previous row back.  A resource whose pin is
    still being saved has a temporary id; writes to it wait for the pin.

    [merge] is the function every change goes through.  [Client] is the module's state with the list that is shown; its events
    are the calls of the views and the answers of the server. *)

From Stdlib Require Import ZArith Lia Bool List.
From stdpp Require Import base list strings relations.
From S2P Require Import Prelude JsString JsMap.

Local Set Warnings "-register-all".

(** ** Merging rows *)

Section Merge.
Context {T : Type} (ident : T -> string).

Definition find_row (i : string) (l : list T) : option T := List.find (fun x => ident x =s i) l.

(** [new Map(upsert.map(item => [item.id, item]))] *)
Definition incoming (upsert : list T) : list (string * T) := fold_left (fun m x => map_set (ident x) x m) upsert [].

Fixpoint replace_rows (items : list T) (inc : list (string * T)) : list T * list (string * T) :=
  match items with
  | [] => ([], inc)
  | x :: r =>
      match map_get (ident x) inc with
      | Some y => let (l, inc') := replace_rows r (map_delete (ident x) inc) in (y :: l, inc')
      | None => let (l, inc') := replace_rows r inc in (x :: l, inc')
      end
  end.

Definition merge (items upsert : list T) (remove : list string) : list T :=
  match upsert, remove with
  | [], [] => items
  | _, _ =>
      let inc := incoming upsert in
      let kept := List.filter (fun x => negb (existsb (String.eqb (ident x)) remove) || map_has (ident x) inc) items in
      let (l, inc') := replace_rows kept inc in l ++ map_values inc'
  end.

(** *** What it does *)

(** The last row of a list with an id. *)
Definition last_row (i : string) (l : list T) : option T := find_row i (rev l).

Definition keyed (m : list (string * T)) : Prop := NoDup (map_keys m) /\ Forall (fun e => e.1 = ident e.2) m.

Lemma find_row_cons i x l : find_row i (x :: l) = if ident x =s i then Some x else find_row i l.
Proof. done. Qed.

Lemma find_row_app i a b : find_row i (a ++ b) = match find_row i a with Some x => Some x | None => find_row i b end.
Proof. induction a as [|x a IH]; [done|]. cbn. by destruct (ident x =s i). Qed.

Lemma find_row_ident i l x : find_row i l = Some x -> ident x = i /\ In x l.
Proof. intros [H1 H2%String.eqb_eq]%find_some. done. Qed.

Lemma find_row_None i l : find_row i l = None <-> ~ In i (map ident l).
Proof.
  induction l as [|x l IH]; cbn; [split; [auto | done]|]. destruct (ident x =s i) eqn:E; [apply String.eqb_eq in E; split; [done | intros Hn; exfalso; auto]|].
  apply String.eqb_neq in E. rewrite IH. split; [intros Hn [?|?]; auto | auto].
Qed.

Lemma keyed_set k x m : keyed m -> k = ident x -> keyed (map_set k x m).
Proof. intros [Hn Hf] ->. split; [by apply map_set_NoDup | by apply map_set_Forall]. Qed.

Lemma incoming_spec l : keyed (incoming l) /\ forall i, map_get i (incoming l) = last_row i l.
Proof.
  unfold incoming, last_row. assert (G : forall l m, keyed m -> keyed (fold_left (fun m x => map_set (ident x) x m) l m)
    /\ forall i, map_get i (fold_left (fun m x => map_set (ident x) x m) l m) = match find_row i (rev l) with Some x => Some x | None => map_get i m end).
  { clear l. induction l as [|x l IH]; intros m Hm; [done|]. cbn [fold_left rev]. destruct (IH (map_set (ident x) x m)) as [H1 H2]; [by apply keyed_set|].
    split; [done|]. intros i. rewrite H2, find_row_app. destruct (find_row i (rev l)); [done|]. cbn. destruct (ident x =s i) eqn:E.
    - apply String.eqb_eq in E as <-. by rewrite map_get_set_eq.
    - apply String.eqb_neq in E. by rewrite map_get_set_ne by done. }
  destruct (G l []) as [H1 H2]; [split; constructor|]. split; [done|]. intros i. rewrite H2. by destruct (find_row i (rev l)).
Qed.

Lemma keyed_delete k m : keyed m -> keyed (map_delete k m).
Proof.
  intros [Hn Hf]. split; [by apply map_delete_NoDup|]. apply List.Forall_forall. intros e He. apply map_delete_In in He as [He _]; [|done].
  by apply (proj1 (List.Forall_forall _ _) Hf).
Qed.

Lemma keyed_find m i : keyed m -> find_row i (map_values m) = map_get i m.
Proof.
  intros [_ Hf]. induction m as [|[k x] m IH]; [done|]. apply Forall_cons in Hf as [Hk Hf]. cbn in Hk. change (map_values ((k, x) :: m)) with (x :: map_values m).
  rewrite find_row_cons, <- Hk, (IH Hf). cbn [map_get]. case_decide as E; [subst; by rewrite String.eqb_refl | by rewrite (proj2 (String.eqb_neq _ _)) by congruence].
Qed.

Lemma keyed_ids m : keyed m -> map ident (map_values m) = map_keys m.
Proof. intros [_ Hf]. unfold map_values, map_keys. rewrite map_map. apply map_ext_in. intros e He. symmetry. by apply (proj1 (List.Forall_forall _ _) Hf). Qed.

(** Rows keep their places and ids; the new ones follow. *)
Lemma replace_rows_spec items inc : NoDup (map ident items) -> keyed inc ->
  let (l, inc') := replace_rows items inc in
  map ident l = map ident items /\ keyed inc'
  /\ (forall i, find_row i l = match find_row i items with Some x => Some (map_get i inc ?? x) | None => None end)
  /\ (forall i, map_get i inc' = if bool_decide (i ∈ map ident items) then None else map_get i inc).
Proof.
  revert inc. induction items as [|x r IH]; intros inc Hd Hk; [done|]. apply NoDup_cons in Hd as [Hx Hd]. cbn [replace_rows].
  destruct (map_get (ident x) inc) as [y|] eqn:Eg.
  - assert (Ey : ident y = ident x).
    { destruct Hk as [_ Hf]. clear -Eg Hf. induction inc as [|[k z] inc IH]; [done|]. apply Forall_cons in Hf as [Hz Hf]. cbn in *. case_decide; [|by apply IH]. congruence. }
    specialize (IH (map_delete (ident x) inc) Hd (keyed_delete _ _ Hk)). destruct (replace_rows r (map_delete (ident x) inc)) as [l inc'].
    destruct IH as (I1 & I2 & I3 & I4). split; [cbn; by rewrite I1, Ey|]. split; [done|]. split.
    + intros i. rewrite !find_row_cons, Ey. destruct (ident x =s i) eqn:E; [apply String.eqb_eq in E as <-; by rewrite Eg|]. apply String.eqb_neq in E.
      rewrite I3, map_get_delete_ne by congruence. done.
    + intros i. rewrite I4. destruct (decide (i = ident x)) as [->|Hne].
      * rewrite (bool_decide_eq_true_2 (ident x ∈ map ident (x :: r))) by (cbn; by left). case_bool_decide; [done|]. by apply map_get_delete_eq, Hk.
      * rewrite map_get_delete_ne by done. by rewrite (bool_decide_ext (i ∈ map ident r) (i ∈ map ident (x :: r))) by (cbn; rewrite elem_of_cons; tauto).
  - specialize (IH inc Hd Hk). destruct (replace_rows r inc) as [l inc']. destruct IH as (I1 & I2 & I3 & I4).
    split; [cbn; by rewrite I1|]. split; [done|]. split.
    + intros i. rewrite !find_row_cons. destruct (ident x =s i) eqn:E; [apply String.eqb_eq in E as <-; by rewrite Eg | apply I3].
    + intros i. rewrite I4. destruct (decide (i = ident x)) as [->|Hne].
      * rewrite (bool_decide_eq_true_2 (ident x ∈ map ident (x :: r))) by (cbn; by left). by rewrite Eg; case_bool_decide.
      * by rewrite (bool_decide_ext (i ∈ map ident r) (i ∈ map ident (x :: r))) by (cbn; rewrite elem_of_cons; tauto).
Qed.

Lemma find_row_filter (keep : string -> bool) i l : find_row i (List.filter (fun x => keep (ident x)) l) = if keep i then find_row i l else None.
Proof.
  induction l as [|x l IH]; [by destruct (keep i)|]. cbn [List.filter]. rewrite find_row_cons. destruct (ident x =s i) eqn:E.
  - apply String.eqb_eq in E. rewrite <- E. destruct (keep (ident x)) eqn:Ek; [by rewrite find_row_cons, String.eqb_refl|]. rewrite E in Ek |- *. by rewrite IH, Ek.
  - destruct (keep (ident x)); [by rewrite find_row_cons, E|]. done.
Qed.

Lemma filter_ids (keep : string -> bool) l : map ident (List.filter (fun x => keep (ident x)) l) = List.filter keep (map ident l).
Proof. induction l as [|x l IH]; [done|]. cbn. destruct (keep (ident x)); cbn; by rewrite IH. Qed.

Lemma filter_NoDup {A} (p : A -> bool) (l : list A) : NoDup l -> NoDup (List.filter p l).
Proof.
  induction 1 as [|x l Hx _ IH]; [constructor|]. cbn. destruct (p x); [|done]. constructor; [|done]. rewrite list_elem_of_In, filter_In. intros [Hi _]. by apply Hx, list_elem_of_In.
Qed.

(** What a merge shows: the last incoming row of an id, or else the row that was there unless it is removed; rows that stay keep their order, new ones follow, and
    ids stay distinct. *)
Lemma merge_spec items upsert remove : NoDup (map ident items) ->
  (forall i, find_row i (merge items upsert remove)
     = match last_row i upsert with Some x => Some x | None => if existsb (String.eqb i) remove then None else find_row i items end)
  /\ NoDup (map ident (merge items upsert remove))
  /\ exists new, map ident (merge items upsert remove)
       = List.filter (fun i => negb (existsb (String.eqb i) remove) || isSome (last_row i upsert)) (map ident items) ++ new.
Proof.
  intros Hd. destruct (incoming_spec upsert) as [Hk Hg].
  assert (Hm : upsert = [] /\ remove = [] \/ merge items upsert remove = (let inc := incoming upsert in
      let kept := List.filter (fun x => negb (existsb (String.eqb (ident x)) remove) || map_has (ident x) inc) items in
      let (l, inc') := replace_rows kept inc in l ++ map_values inc')) by (unfold merge; destruct upsert, remove; auto).
  destruct Hm as [[-> ->]|Hm].
  - cbn. split; [done|]. split; [done|]. exists []. rewrite app_nil_r. symmetry. apply filter_all, List.Forall_forall. done.
  - rewrite Hm. cbv zeta. set (keep := fun i => negb (existsb (String.eqb i) remove) || isSome (last_row i upsert)).
    assert (Ek : List.filter (fun x => negb (existsb (String.eqb (ident x)) remove) || map_has (ident x) (incoming upsert)) items = List.filter (fun x => keep (ident x)) items).
    { apply filter_ext. intros x. unfold keep, map_has. by rewrite Hg. }
    rewrite Ek. assert (Hdk : NoDup (map ident (List.filter (fun x => keep (ident x)) items))) by (rewrite (filter_ids keep); by apply filter_NoDup).
    pose proof (replace_rows_spec _ (incoming upsert) Hdk Hk) as Hr. destruct (replace_rows _ _) as [l inc']. destruct Hr as (R1 & R2 & R3 & R4). split; [|split].
    + intros i. rewrite find_row_app, R3, (find_row_filter keep), (keyed_find _ _ R2), R4, Hg. destruct (keep i) eqn:Ei.
      * destruct (find_row i items) as [x|] eqn:Ef.
        -- unfold keep in Ei. destruct (last_row i upsert); [done|]. cbn in Ei. rewrite orb_false_r, negb_true_iff in Ei. by rewrite Ei.
        -- rewrite bool_decide_eq_false_2; [destruct (last_row i upsert) as [y|]; [done|]; by destruct (existsb (String.eqb i) remove)|]. rewrite (filter_ids keep), list_elem_of_In, filter_In.
           intros [Hi _]. by apply find_row_None in Ef.
      * rewrite bool_decide_eq_false_2; [|rewrite (filter_ids keep), list_elem_of_In, filter_In; intros [_ ?]; congruence].
        unfold keep in Ei. apply orb_false_iff in Ei as [E1 E2]. apply negb_false_iff in E1. rewrite E1. by destruct (last_row i upsert).
    + rewrite map_app, (keyed_ids _ R2), R1. apply NoDup_app. split; [done|]. split; [|apply R2]. intros i Hi Hin. specialize (R4 i). rewrite bool_decide_eq_true_2 in R4 by done.
      by apply map_get_None in R4.
    + exists (map_keys inc'). by rewrite map_app, (keyed_ids _ R2), R1, (filter_ids keep).
Qed.
End Merge.

(** ** Rows *)

Record Resource := mkResource { r_id : string; r_team : string; r_section : string; r_type : string; r_resource : string;
  r_url : option string; r_title : string; r_position : Z; r_createdAt : string; r_updatedAt : string }.
Record ResourceSection := mkSection { s_id : string; s_team : string; s_name : string; s_position : Z }.

Record Patch := mkPatch { p_section : option string; p_position : option Z; p_title : option string; p_url : option string }.

(** [{ ...item, ...patch }] *)
Definition patched (x : Resource) (q : Patch) : Resource :=
  mkResource (r_id x) (r_team x) (p_section q ?? r_section x) (r_type x) (r_resource x) (match p_url q with Some u => Some u | None => r_url x end)
    (p_title q ?? r_title x) (p_position q ?? r_position x) (r_createdAt x) (r_updatedAt x).

Record SectionPatch := mkSectionPatch { sp_name : option string; sp_position : option Z }.
Definition patched_section (x : ResourceSection) (q : SectionPatch) : ResourceSection :=
  mkSection (s_id x) (s_team x) (sp_name q ?? s_name x) (sp_position q ?? s_position x).

Definition moved_out (x : Resource) : Resource :=
  mkResource (r_id x) (r_team x) "" (r_type x) (r_resource x) (r_url x) (r_title x) (r_position x) (r_createdAt x) (r_updatedAt x).

Record TeamResourcesChange := mkChange { c_team : string; c_replace : option (list Resource * list ResourceSection);
  c_upsert : list Resource; c_remove : list string; c_upsertSections : list ResourceSection; c_removeSections : list string }.

Record TeamResourceState := mkState { resources : list Resource; sections : list ResourceSection }.

Definition applyTeamResourcesChange (st : TeamResourceState) (c : TeamResourcesChange) : TeamResourceState :=
  let st1 := match c_replace c with
             | Some (rs, ss) => mkState (List.filter (fun x => negb (r_team x =s c_team c)) (resources st) ++ rs)
                                        (List.filter (fun x => negb (s_team x =s c_team c)) (sections st) ++ ss)
             | None => st
             end in
  mkState (merge r_id (resources st1) (c_upsert c) (c_remove c)) (merge s_id (sections st1) (c_upsertSections c) (c_removeSections c)).

(** ** The client *)

(** A pin request by its temporary id. *)
Inductive PinState := PinSaving | PinSaved (item : Resource) | PinFailed.

Inductive What := Unpin | Update (q : Patch).

(** A write under way; [waiting] for the pin of a temporary row. *)
Record Op := mkOp { op_id : nat; op_team : string; op_what : What; op_resource : Resource; op_target : Resource; op_write : Z; op_waiting : bool }.

(** A write of a section: an update with its number, or a deletion with the rows it moved out. *)
Inductive SectionWhat := RenameSection (q : SectionPatch) (write : Z) | DropSection (contained : list Resource).
Record SectionOp := mkSectionOp { so_id : nat; so_team : string; so_what : SectionWhat; so_section : ResourceSection }.

Inductive Request :=
| PinRequest (temporary : Resource) | DeleteRequest (op : nat) (row : string) | UpdateRequest (op : nat) (row : string) (q : Patch)
| UpdateSectionRequest (op : nat) (row : string) (q : SectionPatch) | DeleteSectionRequest (op : nat) (row : string).

(** [shown] is the list on the page; [requests] are the requests sent, in order; ids of writes are drawn from [next]. *)
Record Client := mkClient { shown : TeamResourceState; sequence : Z; pendingPins : list (string * PinState); cancelledPins : list string;
  latestWrite : list (string * Z); ops : list Op; sectionOps : list SectionOp; next : nat; requests : list Request }.

Definition set_shown (v : TeamResourceState) (c : Client) : Client := mkClient v (sequence c) (pendingPins c) (cancelledPins c) (latestWrite c) (ops c) (sectionOps c) (next c) (requests c).
Definition set_sequence (v : Z) (c : Client) : Client := mkClient (shown c) v (pendingPins c) (cancelledPins c) (latestWrite c) (ops c) (sectionOps c) (next c) (requests c).
Definition set_pendingPins (v : list (string * PinState)) (c : Client) : Client := mkClient (shown c) (sequence c) v (cancelledPins c) (latestWrite c) (ops c) (sectionOps c) (next c) (requests c).
Definition set_cancelledPins (v : list string) (c : Client) : Client := mkClient (shown c) (sequence c) (pendingPins c) v (latestWrite c) (ops c) (sectionOps c) (next c) (requests c).
Definition set_latestWrite (v : list (string * Z)) (c : Client) : Client := mkClient (shown c) (sequence c) (pendingPins c) (cancelledPins c) v (ops c) (sectionOps c) (next c) (requests c).
Definition set_ops (v : list Op) (c : Client) : Client := mkClient (shown c) (sequence c) (pendingPins c) (cancelledPins c) (latestWrite c) v (sectionOps c) (next c) (requests c).
Definition set_sectionOps (v : list SectionOp) (c : Client) : Client := mkClient (shown c) (sequence c) (pendingPins c) (cancelledPins c) (latestWrite c) (ops c) v (next c) (requests c).
Definition set_next (v : nat) (c : Client) : Client := mkClient (shown c) (sequence c) (pendingPins c) (cancelledPins c) (latestWrite c) (ops c) (sectionOps c) v (requests c).

Definition request (r : Request) (c : Client) : Client :=
  mkClient (shown c) (sequence c) (pendingPins c) (cancelledPins c) (latestWrite c) (ops c) (sectionOps c) (next c) (requests c ++ [r]).

(** [publishTeamResourcesChange]: the page and the snapshot apply the change. *)
Definition publish (ch : TeamResourcesChange) (c : Client) : Client := set_shown (applyTeamResourcesChange (shown c) ch) c.
Definition upsert_rows (team : string) (l : list Resource) : Client -> Client := publish (mkChange team None l [] [] []).
Definition remove_rows (team : string) (l : list string) : Client -> Client := publish (mkChange team None [] l [] []).

Definition PENDING : string := "pending:".
Definition isPendingTeamResource (i : string) : bool := startsWith PENDING i.

Definition nextPosition (l : list Resource) : Z := fold_left (fun v x => Z.max v (r_position x + 1)) l 0%Z.

(** [latestWrite.get(id) ?? 0) + 1], stored. *)
Definition number_write (i : string) (c : Client) : Z * Client :=
  let w := ((map_get i (latestWrite c) ?? 0) + 1)%Z in (w, set_latestWrite (map_set i w (latestWrite c)) c).

Definition pinResource (now team : string) (current : list Resource) (input : Resource) (c : Client) : Client :=
  let n := (sequence c + 1)%Z in
  let temporary := mkResource (PENDING +:+ showZ n) team (r_section input) (r_type input) (r_resource input) (r_url input) (r_title input)
                     (nextPosition (List.filter (fun x => r_team x =s team) current)) now now in
  upsert_rows team [temporary]
    (set_pendingPins (map_set (r_id temporary) PinSaving (pendingPins c)) (request (PinRequest temporary) (set_sequence n c))).

(** The pin's request is answered: [Some] row, or it failed. *)
Definition pin_answered (temporary : string) (team : string) (answer : option Resource) (c : Client) : Client :=
  let cancelled := existsb (String.eqb temporary) (cancelledPins c) in
  let c1 := set_cancelledPins (List.filter (fun x => negb (x =s temporary)) (cancelledPins c)) c in
  let keep := match answer with Some item => if negb cancelled && truthy (r_id item) then [item] else [] | None => [] end in
  publish (mkChange team None keep [temporary] [] [])
    (set_pendingPins (map_set temporary (match answer with Some item => PinSaved item | None => PinFailed end) (pendingPins c1)) c1).

(** The write itself, against a saved row. *)
Definition write_row (o : Op) (item : Resource) (c : Client) : Client :=
  let swapped := negb (r_id item =s r_id (op_resource o)) in
  let c1 := if swapped then match op_what o with
                            | Unpin => remove_rows (op_team o) [r_id item] c
                            | Update q => upsert_rows (op_team o) [patched item q] c
                            end else c in
  let o' := mkOp (op_id o) (op_team o) (op_what o) (op_resource o) item (op_write o) false in
  request (match op_what o with Unpin => DeleteRequest (op_id o) (r_id item) | Update q => UpdateRequest (op_id o) (r_id item) q end) (set_ops (ops c1 ++ [o']) c1).

(** [withSaved]: at once for a saved row, later for a temporary one. *)
Definition with_saved (o : Op) (c : Client) : Client :=
  match map_get (r_id (op_resource o)) (pendingPins c) with
  | None => write_row o (op_resource o) c
  | Some _ => set_ops (ops c ++ [o]) c
  end.

Definition start_write (team : string) (what : What) (x : Resource) (c : Client) : Client :=
  let (w, c1) := number_write (r_id x) c in
  let c2 := match what with Unpin => if isPendingTeamResource (r_id x) then set_cancelledPins (if existsb (String.eqb (r_id x)) (cancelledPins c1) then cancelledPins c1 else cancelledPins c1 ++ [r_id x]) c1 else c1 | Update _ => c1 end in
  let c3 := with_saved (mkOp (next c2) team what x x w true) (set_next (S (next c2)) c2) in
  match what with Unpin => remove_rows team [r_id x] c3 | Update q => upsert_rows team [patched x q] c3 end.

Definition unpinResource (team : string) (x : Resource) : Client -> Client := start_write team Unpin x.
Definition updateResource (team : string) (x : Resource) (q : Patch) : Client -> Client := start_write team (Update q) x.

Definition without_op (i : nat) (c : Client) : Client := set_ops (List.filter (fun o => negb (Nat.eqb (op_id o) i)) (ops c)) c.

(** The pin a write waits for has settled. *)
Definition wake (o : Op) (c : Client) : Client :=
  match map_get (r_id (op_resource o)) (pendingPins c) with
  | Some (PinSaved item) => write_row o item (without_op (op_id o) c)
  | Some PinFailed => without_op (op_id o) c
  | _ => c
  end.

Definition write_answered (o : Op) (ok : bool) (c : Client) : Client :=
  let c1 := without_op (op_id o) c in
  if negb ok && bool_decide (map_get (r_id (op_resource o)) (latestWrite c) = Some (op_write o)) then upsert_rows (op_team o) [op_target o] c1 else c1.

(** *** Sections *)

Definition section_created (team : string) (s : ResourceSection) (c : Client) : Client :=
  if truthy (s_id s) then publish (mkChange team None [] [] [s] []) c else c.

Definition updateSection (team : string) (s : ResourceSection) (q : SectionPatch) (c : Client) : Client :=
  let (w, c1) := number_write (s_id s) c in
  publish (mkChange team None [] [] [patched_section s q] [])
    (request (UpdateSectionRequest (next c1) (s_id s) q) (set_next (S (next c1)) (set_sectionOps (sectionOps c1 ++ [mkSectionOp (next c1) team (RenameSection q w) s]) c1))).

Definition deleteSection (team : string) (s : ResourceSection) (rows : list Resource) (c : Client) : Client :=
  let contained := List.filter (fun x => (r_team x =s team) && (r_section x =s s_id s)) rows in
  publish (mkChange team None (map moved_out contained) [] [] [s_id s])
    (request (DeleteSectionRequest (next c) (s_id s)) (set_next (S (next c)) (set_sectionOps (sectionOps c ++ [mkSectionOp (next c) team (DropSection contained) s]) c))).

Definition section_answered (o : SectionOp) (ok : bool) (c : Client) : Client :=
  let c1 := set_sectionOps (List.filter (fun x => negb (Nat.eqb (so_id x) (so_id o))) (sectionOps c)) c in
  if ok then c1
  else match so_what o with
       | RenameSection _ w => if bool_decide (map_get (s_id (so_section o)) (latestWrite c) = Some w) then publish (mkChange (so_team o) None [] [] [so_section o] []) c1 else c1
       | DropSection contained => publish (mkChange (so_team o) None contained [] [so_section o] []) c1
       end.

(** *** Another client's change *)

Definition teamResourceEventTeam (teams : list string) (st : TeamResourceState) (aggregateId : option string) (entityTeam : option string) : option string :=
  let i := aggregateId ?? "" in
  if existsb (String.eqb i) teams then Some i
  else match entityTeam with
       | Some t => Some t
       | None => match find_row r_id i (resources st) with
                 | Some x => Some (r_team x)
                 | None => s_team <$> find_row s_id i (sections st)
                 end
       end.

(** The refetched list of a team; [None] when the request failed. *)
Definition refreshed (team : string) (result : option (list Resource * list ResourceSection)) (c : Client) : Client :=
  match result with Some r => publish (mkChange team (Some r) [] [] [] []) c | None => c end.

(** *** Events *)

Inductive Input :=
| IPin (now team : string) (current : list Resource) (input : Resource)
| IPinAnswer (temporary team : string) (answer : option Resource)
| IUnpin (team : string) (x : Resource) | IUpdate (team : string) (x : Resource) (q : Patch)
| IWake (o : Op) | IAnswer (o : Op) (ok : bool)
| ISectionCreated (team : string) (s : ResourceSection) | IUpdateSection (team : string) (s : ResourceSection) (q : SectionPatch)
| IDeleteSection (team : string) (s : ResourceSection) (rows : list Resource) | ISectionAnswer (o : SectionOp) (ok : bool)
| IRefresh (team : string) (result : option (list Resource * list ResourceSection)).

Definition handle (i : Input) (c : Client) : Client :=
  match i with
  | IPin now team current input => pinResource now team current input c
  | IPinAnswer temporary team answer => pin_answered temporary team answer c
  | IUnpin team x => unpinResource team x c
  | IUpdate team x q => updateResource team x q c
  | IWake o => wake o c
  | IAnswer o ok => write_answered o ok c
  | ISectionCreated team s => section_created team s c
  | IUpdateSection team s q => updateSection team s q c
  | IDeleteSection team s rows => deleteSection team s rows c
  | ISectionAnswer o ok => section_answered o ok c
  | IRefresh team result => refreshed team result c
  end.

Definition new_client (st : TeamResourceState) : Client := mkClient st 0 [] [] [] [] [] 0 [].

(** ** What is shown and what was accepted *)

Definition row (i : string) (c : Client) : option Resource := find_row r_id i (resources (shown c)).
Definition distinct (c : Client) : Prop := NoDup (map r_id (resources (shown c))).

Lemma upsert_row team x c : distinct c -> distinct (upsert_rows team [x] c) /\ forall i, row i (upsert_rows team [x] c) = if r_id x =s i then Some x else row i c.
Proof.
  intros Hd. destruct (merge_spec r_id (resources (shown c)) [x] [] Hd) as (H1 & H2 & _). split; [exact H2|]. intros i. change (find_row r_id i (merge r_id (resources (shown c)) [x] []) = if r_id x =s i then Some x else row i c). rewrite H1.
  unfold last_row. cbn. by destruct (r_id x =s i).
Qed.

Lemma change_row team ups i0 c : distinct c ->
  let c' := publish (mkChange team None ups [i0] [] []) c in
  distinct c' /\ forall i, row i c' = match last_row r_id i ups with Some x => Some x | None => if i =s i0 then None else row i c end.
Proof.
  intros Hd. destruct (merge_spec r_id (resources (shown c)) ups [i0] Hd) as (H1 & H2 & _). split; [exact H2|]. intros i.
  change (find_row r_id i (merge r_id (resources (shown c)) ups [i0]) = match last_row r_id i ups with Some x => Some x | None => if i =s i0 then None else row i c end). rewrite H1.
  destruct (last_row r_id i ups); [done|]. cbn. rewrite orb_false_r. done.
Qed.

(** The row a write under way shows. *)
Definition optimistic (o : Op) : option Resource := match op_what o with Unpin => None | Update q => Some (patched (op_target o) q) end.

Definition set_row (i : string) (v : option Resource) (t : string -> option Resource) : string -> option Resource := fun k => if k =s i then v else t k.

(** The specification: the rows with the writes whose requests succeeded, and none of those that failed; a pin that succeeded adds
    the row of its answer. *)
Definition accepted (i : Input) (t : string -> option Resource) : string -> option Resource :=
  match i with
  | IAnswer o true => set_row (r_id (op_target o)) (optimistic o) t
  | IPinAnswer _ _ (Some item) => set_row (r_id item) (Some item) t
  | _ => t
  end.

(** Calm events: pins, answered with a row of a new id; updates and removals of saved rows as they are shown, one at a time for each row; and
    their answers.  Not among them: writes to a row whose pin is still being saved, changes of sections, and refetches. *)
Definition calm (c : Client) (t : string -> option Resource) (i : Input) : Prop :=
  match i with
  | IPin _ _ _ _ => True
  | IPinAnswer temporary _ answer =>
      isPendingTeamResource temporary = true
      /\ match answer with Some item => isPendingTeamResource (r_id item) = false /\ r_id item <> "" /\ row (r_id item) c = None /\ t (r_id item) = None /\ (forall o, In o (ops c) -> r_id (op_target o) <> r_id item) | None => True end
  | IUnpin _ x | IUpdate _ x _ => isPendingTeamResource (r_id x) = false /\ row (r_id x) c = Some x /\ forall o, In o (ops c) -> r_id (op_target o) <> r_id x
  | IAnswer o _ => In o (ops c)
  | _ => False
  end.

Record wf (c : Client) (t : string -> option Resource) : Prop := {
  w_rows : distinct c;
  w_next : forall o, In o (ops c) -> (op_id o < next c)%nat;
  w_ids : NoDup (map op_id (ops c)) /\ NoDup (map (fun o => r_id (op_target o)) (ops c));
  w_pins : Forall (fun e => isPendingTeamResource e.1 = true) (pendingPins c) /\ cancelledPins c = [];
  w_ops : forall o, In o (ops c) -> op_resource o = op_target o /\ isPendingTeamResource (r_id (op_target o)) = false
            /\ map_get (r_id (op_target o)) (latestWrite c) = Some (op_write o)
            /\ t (r_id (op_target o)) = Some (op_target o) /\ row (r_id (op_target o)) c = optimistic o;
  w_quiet : forall i, isPendingTeamResource i = false -> (forall o, In o (ops c) -> r_id (op_target o) <> i) -> row i c = t i }.

Lemma saved_not_pinned c i : Forall (fun e => isPendingTeamResource e.1 = true) (pendingPins c) -> isPendingTeamResource i = false -> map_get i (pendingPins c) = None.
Proof. induction 1 as [|[k v] l Hk _ IH]; intros Hi; [done|]. cbn [fst] in Hk. cbn [map_get]. case_decide; [congruence | auto]. Qed.

Lemma pending_id n : isPendingTeamResource (PENDING +:+ n) = true.
Proof. unfold isPendingTeamResource, startsWith. apply prefix_spec. by exists n. Qed.

Lemma pin_wf now team current input c t : wf c t -> wf (pinResource now team current input c) t.
Proof.
  intros [H1 H2 H3 H4 H5 H6]. unfold pinResource. cbv zeta. set (x := mkResource _ _ _ _ _ _ _ _ _ _).
  set (c1 := set_pendingPins _ _). destruct (upsert_row team x c1 H1) as [U1 U2].
  assert (Hx : forall i, isPendingTeamResource i = false -> row i (upsert_rows team [x] c1) = row i c).
  { intros i Hi. rewrite U2. destruct (r_id x =s i) eqn:E; [|done]. apply String.eqb_eq in E. rewrite <- E in Hi. pose proof (pending_id (showZ (sequence c + 1))) as Hp. cbn [r_id x] in Hi. congruence. }
  split; try done.
  - split; [|apply H4]. apply (map_set_Forall (fun e => isPendingTeamResource e.1 = true)); [intros k <-; apply pending_id | exact (proj1 H4)].
  - intros o Ho. destruct (H5 o Ho) as (E1 & E2 & E3 & E4 & E5). repeat split; try done. by rewrite Hx.
  - intros i Hi Hn. rewrite Hx by done. by apply H6.
Qed.

Lemma pin_answer_wf temporary team answer c t : wf c t -> calm c t (IPinAnswer temporary team answer) -> wf (pin_answered temporary team answer c) (accepted (IPinAnswer temporary team answer) t).
Proof.
  intros [H1 H2 H3 [H4 H4'] H5 H6] [Ht Ha]. unfold pin_answered. rewrite H4'. cbn [existsb List.filter negb andb]. cbv zeta.
  set (c1 := set_pendingPins _ _).
  set (keep := match answer with Some item => if truthy (r_id item) then [item] else [] | None => [] end).
  destruct (change_row team keep temporary c1 H1) as [U1 U2].
  assert (Hne : forall i, isPendingTeamResource i = false -> (i =s temporary) = false) by (intros i Hi; apply String.eqb_neq; intros ->; congruence).
  assert (Hx : forall i, isPendingTeamResource i = false -> row i (publish (mkChange team None keep [temporary] [] []) c1)
     = match answer with Some item => if r_id item =s i then Some item else row i c | None => row i c end).
  { intros i Hi. rewrite U2, (Hne i Hi). subst keep. destruct answer as [item|]; [|done]. destruct Ha as (_ & Hid & _). unfold truthy.
    rewrite (proj2 (String.eqb_neq _ _) Hid). cbn. by destruct (r_id item =s i). }
  split; try done.
  - split; [|done]. apply (map_set_Forall (fun e => isPendingTeamResource e.1 = true)); [by intros k <- | done].
  - intros o Ho. destruct (H5 o Ho) as (E1 & E2 & E3 & E4 & E5). rewrite Hx by done. destruct answer as [item|]; [|done]. destruct Ha as (_ & _ & _ & _ & Hop).
    cbn [accepted]. unfold set_row. specialize (Hop o Ho). rewrite (proj2 (String.eqb_neq (r_id item) _)) by congruence. rewrite (proj2 (String.eqb_neq _ (r_id item))) by congruence. done.
  - intros i Hi Hn. rewrite Hx by done. destruct answer as [item|]; [|by apply H6]. cbn [accepted]. unfold set_row. rewrite String.eqb_sym.
    destruct (i =s r_id item); [done | by apply H6].
Qed.

Lemma write_wf team what x c t : wf c t -> isPendingTeamResource (r_id x) = false -> row (r_id x) c = Some x -> (forall o, In o (ops c) -> r_id (op_target o) <> r_id x) ->
  wf (start_write team what x c) t.
Proof.
  intros [H1 H2 [H3 H3'] H4 H5 H6] Hp Hr Hn. unfold start_write, number_write. set (w := (_ + 1)%Z).
  set (c1 := set_latestWrite _ c).
  assert (Hc2 : match what with Unpin => if isPendingTeamResource (r_id x) then set_cancelledPins (if existsb (String.eqb (r_id x)) (cancelledPins c1) then cancelledPins c1 else cancelledPins c1 ++ [r_id x]) c1 else c1 | Update _ => c1 end = c1)
    by (rewrite Hp; by destruct what).
  rewrite Hc2. clear Hc2. unfold with_saved. cbn [op_resource]. change (pendingPins (set_next (S (next c1)) c1)) with (pendingPins c). rewrite (saved_not_pinned c (r_id x)) by (apply H4 || done).
  set (o := mkOp (next c1) team what x x w false).
  assert (Ew : write_row (mkOp (next c1) team what x x w true) x (set_next (S (next c1)) c1)
     = request (match what with Unpin => DeleteRequest (next c1) (r_id x) | Update q => UpdateRequest (next c1) (r_id x) q end) (set_ops (ops c ++ [o]) (set_next (S (next c1)) c1)))
    by (unfold write_row; cbn [op_resource op_what op_id]; by rewrite String.eqb_refl).
  rewrite Ew. set (c3 := request _ _).
  assert (Hx : distinct (match what with Unpin => remove_rows team [r_id x] c3 | Update q => upsert_rows team [patched x q] c3 end)
    /\ forall i, row i (match what with Unpin => remove_rows team [r_id x] c3 | Update q => upsert_rows team [patched x q] c3 end) = if i =s r_id x then optimistic o else row i c).
  { destruct what as [|q].
    - destruct (change_row team [] (r_id x) c3 H1) as [U1 U2]. split; [exact U1|]. intros i. exact (U2 i).
    - destruct (upsert_row team (patched x q) c3 H1) as [U1 U2]. split; [exact U1|]. intros i. rewrite (U2 i). cbn [r_id patched]. by rewrite String.eqb_sym. }
  destruct Hx as [Hx1 Hx2]. clear Ew. set (c4 := match what with Unpin => remove_rows team [r_id x] c3 | Update q => upsert_rows team [patched x q] c3 end) in *.
  assert (Eo : ops c4 = ops c ++ [o]) by (unfold c4, c3, o; destruct what; reflexivity).
  assert (El : latestWrite c4 = map_set (r_id x) w (latestWrite c)) by (unfold c4, c3, o; destruct what; reflexivity).
  split; rewrite ?Eo, ?El.
  - exact Hx1.
  - assert (En : next c4 = S (next c)) by (unfold c4, c3, o; destruct what; reflexivity). rewrite En. intros o' [Ho|[<-|[]]]%in_app_iff; [specialize (H2 o' Ho); lia | cbn; lia].
  - rewrite !map_app. split; apply NoDup_app; (split; [done|]); (split; [|apply NoDup_singleton]); intros k Hk ->%list_elem_of_singleton;
      apply list_elem_of_In, in_map_iff in Hk as (o' & E & Ho); [specialize (H2 o' Ho); cbn in E; lia | by apply (Hn o' Ho)].
  - unfold c4, c3. destruct what; exact H4.
  - intros o' [Ho|[<-|[]]]%in_app_iff; cbn [op_resource op_target op_write].
    + destruct (H5 o' Ho) as (E1 & E2 & E3 & E4 & E5). pose proof (Hn o' Ho) as Hne. rewrite Hx2, (proj2 (String.eqb_neq _ _) Hne), map_get_set_ne by done. done.
    + rewrite Hx2, String.eqb_refl, map_get_set_eq. repeat split; try done. exact (eq_trans (eq_sym (H6 (r_id x) Hp Hn)) Hr).
  - intros i Hi Hno. rewrite Hx2. rewrite (proj2 (String.eqb_neq _ _)); [apply H6; [done|]; intros o' Ho; apply Hno, in_app_iff; by left|].
    intros ->. apply (Hno o); [apply in_app_iff; right; by left | done].
Qed.

Lemma other_ops l o : NoDup (map op_id l) -> In o l -> NoDup (map (fun o => r_id (op_target o)) l) ->
  let l' := List.filter (fun x => negb (Nat.eqb (op_id x) (op_id o))) l in
  (forall x, In x l' <-> In x l /\ r_id (op_target x) <> r_id (op_target o)) /\ NoDup (map op_id l') /\ NoDup (map (fun o => r_id (op_target o)) l').
Proof.
  intros Hd Ho Hr l'. assert (Hl : forall x, In x l' <-> In x l /\ op_id x <> op_id o) by (intros x; unfold l'; by rewrite filter_In, negb_true_iff, Nat.eqb_neq).
  assert (U : forall (A : Type) (f : Op -> A) x, NoDup (map f l) -> In x l -> f x = f o -> x = o).
  { intros A f x Hn Hx E. clear -Hn Hx Ho E. induction l as [|y l IH]; [done|]. cbn in *. apply NoDup_cons in Hn as [Hy Hn]. destruct Hx as [->|Hx], Ho as [->|Ho]; try done; [| |by apply IH];
      exfalso; apply Hy, list_elem_of_In; [rewrite E | rewrite <- E]; by apply in_map. }
  split; [intros x; rewrite Hl; split; intros [Hx Hne]; split; try done; intros E; apply Hne|].
  - by rewrite (U _ (fun o => r_id (op_target o)) x Hr Hx E).
  - by rewrite (U _ op_id x Hd Hx E).
  - assert (Sub : forall (A : Type) (f : Op -> A), NoDup (map f l) -> NoDup (map f l')); [|by split; apply Sub].
    intros A f. clear. unfold l'. induction l as [|x l IH]; [done|]. cbn. intros [Hx Hn]%NoDup_cons. destruct (negb _); [|by apply IH]. cbn. apply NoDup_cons. split; [|by apply IH].
    rewrite list_elem_of_In, in_map_iff. intros (y & E & [Hy _]%filter_In). apply Hx, list_elem_of_In. rewrite <- E. by apply in_map.
Qed.

Lemma answer_wf o ok c t : wf c t -> In o (ops c) -> wf (write_answered o ok c) (accepted (IAnswer o ok) t).
Proof.
  intros [H1 H2 [H3 H3'] H4 H5 H6] Ho. destruct (H5 o Ho) as (E1 & E2 & E3 & E4 & E5). destruct (other_ops (ops c) o H3 Ho H3') as (L1 & L2 & L3).
  set (l' := List.filter _ (ops c)) in *. unfold write_answered. rewrite E1, E3, bool_decide_eq_true_2, andb_true_r by done.
  set (q := if negb ok then _ else _).
  assert (Hq : distinct q /\ ops q = l' /\ next q = next c /\ pendingPins q = pendingPins c /\ cancelledPins q = cancelledPins c /\ latestWrite q = latestWrite c
     /\ forall i, row i q = if i =s r_id (op_target o) then (if ok then optimistic o else Some (op_target o)) else row i c).
  { subst q. destruct ok; cbn [negb].
    - repeat split; try done. intros i. destruct (i =s r_id (op_target o)) eqn:E; [apply String.eqb_eq in E as ->; exact E5 | done].
    - destruct (upsert_row (op_team o) (op_target o) (without_op (op_id o) c) H1) as [U1 U2]. repeat split; try done. intros i. rewrite U2, String.eqb_sym. done. }
  clearbody q. destruct Hq as (Q1 & Q2 & Q3 & Q4 & Q5 & Q6 & Q7).
  assert (Ht : forall i, accepted (IAnswer o ok) t i = if i =s r_id (op_target o) then (if ok then optimistic o else Some (op_target o)) else t i).
  { intros i. cbn [accepted]. destruct ok; [done|]. destruct (i =s r_id (op_target o)) eqn:E; [apply String.eqb_eq in E as ->; exact E4 | done]. }
  split; rewrite ?Q2, ?Q3, ?Q4, ?Q5, ?Q6; try done.
  - intros x [Hx _]%L1. by apply H2.
  - intros x [Hx Hne]%L1. destruct (H5 x Hx) as (X1 & X2 & X3 & X4 & X5). rewrite Ht, Q7, (proj2 (String.eqb_neq _ _) Hne). done.
  - intros i Hi Hno. rewrite Ht, Q7. destruct (i =s r_id (op_target o)) eqn:E; [done|]. apply String.eqb_neq in E. apply H6; [done|]. intros x Hx Ex.
    apply (Hno x); [apply L1; split; [done | congruence] | done].
Qed.

Definition step (a b : Client * (string -> option Resource)) : Prop := exists i, calm a.1 a.2 i /\ b = (handle i a.1, accepted i a.2).

Lemma step_wf a b : wf a.1 a.2 -> step a b -> wf b.1 b.2.
Proof.
  intros Hw (i & Hc & ->). cbn [fst snd]. destruct i as [now team cur input|tmp team ans|team x|team x q|o|o ok|team s|team s q|team s rows|o ok|team r]; try done; cbn [handle].
  - by apply pin_wf.
  - by apply pin_answer_wf.
  - destruct Hc as (C1 & C2 & C3). by apply (write_wf team Unpin x).
  - destruct Hc as (C1 & C2 & C3). by apply (write_wf team (Update q) x).
  - by apply answer_wf.
Qed.

(** C27 (optimistic_rows_faithful).  In a run of pins and of updates and removals of saved rows, each row having one write under way at a time (no changes of sections, no refetches and no writes to a row whose
    pin is still being saved): a row without a write under way is shown with exactly the changes whose requests succeeded, whatever failed or succeeded before and in whatever order, so that a failure puts the
    row back as it was; a row with a write under way is shown as the write wants it; and no id is shown twice. *)
Theorem optimistic_rows_faithful (st : TeamResourceState) c t :
  NoDup (map r_id (resources st)) ->
  rtc step (new_client st, fun i => find_row r_id i (resources st)) (c, t) ->
  (forall i, isPendingTeamResource i = false -> (forall o, In o (ops c) -> r_id (op_target o) <> i) -> row i c = t i)
  /\ (forall o, In o (ops c) -> row (r_id (op_target o)) c = optimistic o /\ t (r_id (op_target o)) = Some (op_target o))
  /\ NoDup (map r_id (resources (shown c))).
Proof.
  intros Hd Hr. assert (Hw : wf c t).
  { refine (rtc_ind_r (fun a => wf a.1 a.2) (new_client st, fun i => find_row r_id i (resources st)) _ _ (c, t) Hr); [|intros a b _ Hs IH; by eapply step_wf].
    split; cbn; try done; split; constructor. }
  destruct Hw as [H1 _ _ _ H5 H6]. split; [exact H6|]. split; [|exact H1]. intros o Ho. destruct (H5 o Ho) as (_ & _ & _ & E4 & E5). done.
Qed.

(** ** Two writes to one row *)

Module Demo.
Definition row_a : Resource := mkResource "1" "t" "" "link" "" None "a" 0 "" "".
Definition titled (s : string) : Patch := mkPatch None None (Some s) None.
Definition start : Client := new_client (mkState [row_a] []).

Definition c1 : Client := handle (IUpdate "t" row_a (titled "b")) start.
Definition op1 : Op := mkOp 0 "t" (Update (titled "b")) row_a row_a 1 false.

Lemma optimistic_rows_faithful_witness : row "1" (handle (IAnswer op1 false) c1) = Some row_a.
Proof.
  destruct (optimistic_rows_faithful (mkState [row_a] []) (handle (IAnswer op1 false) c1)
    (accepted (IAnswer op1 false) (accepted (IUpdate "t" row_a (titled "b")) (fun i => find_row r_id i [row_a])))) as (Hs & _ & _).
  - apply NoDup_singleton.
  - eapply rtc_l; [exists (IUpdate "t" row_a (titled "b")); split; [|reflexivity]; cbn; repeat split; done|].
    eapply rtc_l; [exists (IAnswer op1 false); split; [cbn; left; reflexivity | reflexivity]|]. apply rtc_refl.
  - rewrite Hs; [reflexivity | reflexivity | intros o []].
Defined.

(** The title is changed to b, then to c before the first answer; both requests fail. *)
Definition c2 : Client := handle (IUpdate "t" (patched row_a (titled "b")) (titled "c")) c1.
Definition op2 : Op := mkOp 1 "t" (Update (titled "c")) (patched row_a (titled "b")) (patched row_a (titled "b")) 2 false.

(** The row is left with the title b, whose request failed; when only the first one fails, the row also keeps what it changed. *)
Theorem overlapping_writes_diverge :
  In op1 (ops c2) /\ In op2 (ops c2)
  /\ row "1" (handle (IAnswer op2 false) (handle (IAnswer op1 false) c2)) = Some (patched row_a (titled "b"))
  /\ ops (handle (IAnswer op2 false) (handle (IAnswer op1 false) c2)) = [].
Proof. repeat split; [left; reflexivity | right; left; reflexivity]. Qed.
End Demo.
