(* ===== verification/Collaboration.v ===== *)
(** * Editing a document together (web/src/lib/issue-collaboration.ts)

    [Frame] is the binary frame of an update or of cursors.  [Provider] is the class that keeps a shared
    document and the server in step: local edits are kept in [pendingUpdates], sent when the socket is
    open and synced, and forgotten when the server sends them back; more than a megabyte of them becomes a
    mark, and the missing part is derived from the document later.  The provider is a machine over the
    events of the browser: sockets, timers, the visibility of the tab, local edits.

    The document (Yjs) and the cursors (y-protocols) are third-party: the class [Yjs] has the calls
    the provider makes, [YjsLaws] what it relies on.  Messages are the parsed ones; the listeners of the
    provider only show what they are told. *)

From Stdlib Require Import ZArith NArith Lia Bool List Ascii.
From stdpp Require Import base list strings relations.
From S2P Require Import Prelude JsString JsMap Mapping.

Open Scope Z_scope.
Local Set Warnings "-register-all".

Abbreviation bytes := (list Z).

Definition size (b : bytes) : Z := Z.of_nat (length b).

(** ** The frame *)

Module Frame.

Definition updateFrame : Z := 1.
Definition awarenessFrame : Z := 2.

(** [DataView.setUint16] and [getUint16]: big endian, the value cut to 16 bits. *)
Definition setUint16 (n : Z) : bytes := [Z.land (Z.shiftr n 8) 255; Z.land n 255].
Definition getUint16 (at_ : nat) (b : bytes) : Z := nth at_ b 0 * 256 + nth (S at_) b 0.

Definition subarray (from to : nat) (b : bytes) : bytes := take (to - from) (drop from b).

Definition encodeFrame (kind : Z) (documentId updateId : string) (payload : bytes) : bytes :=
  let document := utf8 documentId in
  let update := utf8 updateId in
  [Z.land kind 255] ++ setUint16 (size document) ++ document
  ++ (if kind =? updateFrame then setUint16 (size update) ++ update else []) ++ payload.

Record Decoded := mkDecoded { kind : Z; documentId : string; updateId : string; payload : bytes }.

Definition decodeFrame (frame : bytes) : option Decoded :=
  if size frame <? 4 then None
  else
    let kind := nth 0 frame 0 in
    let documentLength := getUint16 1 frame in
    if (documentLength =? 0) || (size frame <? 3 + documentLength + 1) then None
    else
      let offset := (3 + Z.to_nat documentLength)%nat in
      let documentId := from_utf8 (subarray 3 offset frame) in
      let rest :=
        if kind =? updateFrame then
          if size frame <? Z.of_nat offset + 2 then None
          else
            let updateLength := getUint16 offset frame in
            let start := (offset + 2)%nat in
            if size frame <? Z.of_nat start + updateLength + 1 then None
            else let stop := (start + Z.to_nat updateLength)%nat in Some (from_utf8 (subarray start stop frame), stop)
        else Some ("", offset) in
      match rest with
      | None => None
      | Some (updateId, offset) =>
          if negb (kind =? updateFrame) && negb (kind =? awarenessFrame) then None
          else Some (mkDecoded kind documentId updateId (drop offset frame))
      end.

(** *** Lemmas *)

Lemma size_app a b : size (a ++ b) = size a + size b.
Proof. unfold size. rewrite length_app. lia. Qed.

Lemma size_utf8 s : size (utf8 s) = byteLength s.
Proof. apply utf8_length. Qed.

Lemma setUint16_value n : 0 <= n < 65536 ->
  exists hi lo, setUint16 n = [hi; lo] /\ hi * 256 + lo = n.
Proof.
  intros H. exists (Z.land (Z.shiftr n 8) 255), (Z.land n 255). split; [done|].
  rewrite Z.shiftr_div_pow2 by lia. change 255 with (Z.ones 8). rewrite !Z.land_ones by lia. change (2 ^ 8) with 256.
  rewrite (Z.mod_small (n / 256)) by (split; [apply Z.div_pos; lia | apply Z.div_lt_upper_bound; lia]).
  pose proof (Z.div_mod n 256). lia.
Qed.

Lemma get_at (a r : bytes) hi lo : getUint16 (length a) (a ++ hi :: lo :: r) = hi * 256 + lo.
Proof.
  unfold getUint16. rewrite app_nth2 by lia. rewrite Nat.sub_diag. rewrite app_nth2 by lia.
  by replace (S (length a) - length a)%nat with 1%nat by lia.
Qed.

Lemma subarray_mid (a b c : bytes) n m : n = length a -> m = (n + length b)%nat -> subarray n m (a ++ b ++ c) = b.
Proof. intros -> ->. unfold subarray. rewrite drop_app_length. replace (_ + _ - _)%nat with (length b) by lia. apply take_app_length. Qed.

Lemma decode_head k (db rest : bytes) hi lo : hi * 256 + lo = size db -> 0 < size db ->
  let frame := k :: hi :: lo :: db ++ rest in
  (size frame <? 4) = false /\ getUint16 1 frame = size db /\ (size db =? 0) || (size frame <? 3 + size db + 1) = (size rest <? 1)
  /\ subarray 3 (3 + Z.to_nat (size db)) frame = db /\ drop (3 + Z.to_nat (size db)) frame = rest.
Proof.
  intros Hn Hp frame. assert (Hs : size frame = 3 + size db + size rest) by (unfold frame, size in *; cbn [length]; rewrite length_app; lia).
  split; [apply Z.ltb_ge; unfold size in *; lia|]. split; [exact Hn|].
  split; [rewrite (proj2 (Z.eqb_neq _ _)) by lia; cbn [orb]; rewrite Hs; destruct (Z.ltb_spec (size rest) 1), (Z.ltb_spec (3 + size db + size rest) (3 + size db + 1)); lia|].
  replace (Z.to_nat (size db)) with (length db) by (unfold size; lia). unfold frame, subarray. split.
  - replace (3 + length db - 3)%nat with (length db) by lia. cbn [drop]. apply take_app_length.
  - cbn [drop Nat.add]. apply drop_app_length.
Qed.

Lemma ltb_shift a b c : a = c + b -> (a <? c + 1) = (b <? 1).
Proof. intros ->. destruct (Z.ltb_spec b 1), (Z.ltb_spec (c + b) (c + 1)); lia. Qed.

(** The layout of a frame with its texts as bytes. *)
Definition layout (kind : Z) (db ub payload : bytes) : bytes :=
  kind :: setUint16 (size db) ++ db ++ (if kind =? updateFrame then setUint16 (size ub) ++ ub else []) ++ payload.

Lemma encode_layout k d u p : k = updateFrame \/ k = awarenessFrame -> encodeFrame k d u p = layout k (utf8 d) (utf8 u) p.
Proof. intros [-> | ->]; reflexivity. Qed.

Lemma decode_awareness db ub p : 0 < size db < 65536 ->
  decodeFrame (layout awarenessFrame db ub p) = if size p <? 1 then None else Some (mkDecoded awarenessFrame (from_utf8 db) "" p).
Proof.
  intros Hd. unfold layout. destruct (setUint16_value (size db)) as (hi & lo & -> & Hn); [lia|].
  destruct (decode_head awarenessFrame db p hi lo Hn ltac:(lia)) as (H1 & H2 & H3 & H4 & H5). cbv zeta in *.
  change (awarenessFrame =? updateFrame) with false. cbn [app]. unfold decodeFrame. rewrite H1, H2, H3. destruct (size p <? 1); [done|].
  cbv zeta. cbn [nth]. rewrite H4. change (awarenessFrame =? updateFrame) with false. change (awarenessFrame =? awarenessFrame) with true. cbn [negb andb]. by rewrite H5.
Qed.

Lemma decode_update db ub p : 0 < size db < 65536 -> size ub < 65536 ->
  decodeFrame (layout updateFrame db ub p) = if size p <? 1 then None else Some (mkDecoded updateFrame (from_utf8 db) (from_utf8 ub) p).
Proof.
  intros Hd Hu. unfold layout. change (updateFrame =? updateFrame) with true. cbv iota.
  destruct (setUint16_value (size db)) as (hi & lo & -> & Hn); [lia|].
  destruct (setUint16_value (size ub)) as (hi2 & lo2 & -> & Hn2); [unfold size in *; lia|].
  destruct (decode_head updateFrame db (([hi2; lo2] ++ ub) ++ p) hi lo Hn ltac:(lia)) as (H1 & H2 & H3 & H4 & _). cbv zeta in *.
  cbn [app] in *. unfold decodeFrame. rewrite H1, H2, H3. rewrite (proj2 (Z.ltb_ge _ _)) by (unfold size; cbn [length]; lia).
  cbv zeta. cbn [nth]. rewrite H4. change (updateFrame =? updateFrame) with true. cbv iota. clear H1 H2 H3 H4.
  set (head := updateFrame :: hi :: lo :: db). change (updateFrame :: hi :: lo :: db ++ hi2 :: lo2 :: ub ++ p) with (head ++ hi2 :: lo2 :: ub ++ p).
  assert (Hl : (3 + Z.to_nat (size db))%nat = length head) by (unfold head, size; cbn [length]; lia). rewrite Hl, get_at, Hn2.
  assert (Hs : size (head ++ hi2 :: lo2 :: ub ++ p) = (Z.of_nat (length head + 2) + size ub) + size p)
    by (unfold size; rewrite length_app; cbn [length]; rewrite length_app; lia).
  rewrite (proj2 (Z.ltb_ge _ _)) by (rewrite Hs; unfold size; lia). rewrite (ltb_shift _ (size p)) by done. destruct (size p <? 1); [done|].
  replace (Z.to_nat (size ub)) with (length ub) by (unfold size; lia).
  replace (head ++ hi2 :: lo2 :: ub ++ p) with ((head ++ [hi2; lo2]) ++ ub ++ p) by (rewrite <- app_assoc; done).
  rewrite (subarray_mid (head ++ [hi2; lo2]) ub p) by (rewrite ?length_app; cbn [length]; lia).
  replace (length head + 2 + length ub)%nat with (length ((head ++ [hi2; lo2]) ++ ub)) by (rewrite !length_app; cbn [length]; lia).
  rewrite app_assoc, drop_app_length. done.
Qed.

(** A frame is read back as it was written: the kind, the document, the update's id for an update
    (frames with cursors carry none) and the payload, for every document id of 1 to 65535 bytes, every update id of at most
    65535 and every payload but the empty one, which no receiver accepts. *)
Theorem frame_roundtrip k d u p :
  k = updateFrame \/ k = awarenessFrame -> 0 < byteLength d < 65536 -> byteLength u < 65536 ->
  decodeFrame (encodeFrame k d u p) = if size p <? 1 then None else Some (mkDecoded k d (if k =? updateFrame then u else "") p).
Proof.
  intros Hk Hd Hu. rewrite encode_layout by done. destruct Hk as [-> | ->].
  - rewrite decode_update by (rewrite size_utf8; lia). by rewrite !from_utf8_utf8.
  - rewrite decode_awareness by (rewrite size_utf8; lia). by rewrite !from_utf8_utf8.
Qed.

Lemma frame_roundtrip_witness :
  decodeFrame (encodeFrame updateFrame "document-1" "collab_7" [1; 2; 3]) = Some (mkDecoded updateFrame "document-1" "collab_7" [1; 2; 3]).
Proof. rewrite frame_roundtrip; [reflexivity | left; reflexivity | vm_compute; split; reflexivity | vm_compute; reflexivity]. Defined.
End Frame.

(** ** The document and the cursors *)

(** A change of the document: the item a client made at a clock, or its deletion. *)
Inductive Edit := Insert (client : Z) (clock : N) | Delete (client : Z) (clock : N).

(** Clocks per client, a state vector. *)
Abbreviation Clocks := (list (Z * N)).
Definition clock_of (client : Z) (m : Clocks) : N := map_get client m ?? 0%N.

(** The calls of Yjs and y-protocols; [contains] and [covers] say which edits a document and an update hold.  An update that
    Yjs refuses makes [applyUpdate] throw: [None].  Without a state vector [encodeStateAsUpdate] takes the empty one. *)
Class Yjs (Doc Aw : Type) := {
  applyUpdate : Doc -> bytes -> option Doc;
  encodeStateAsUpdate : Doc -> Clocks -> bytes;
  parseUpdateMeta : bytes -> Clocks * Clocks;
  contains : Doc -> Edit -> Prop;
  covers : bytes -> Edit -> Prop;
  clientID : Z;
  getLocalState : Aw -> bool;
  setLocalStateField : Aw -> string -> Aw;
  removeAwarenessStates : Aw -> list Z -> Aw;
  getStates : Aw -> list Z;
  encodeAwarenessUpdate : Aw -> list Z -> bytes;
  applyAwarenessUpdate : Aw -> bytes -> Aw;
  destroyAwareness : Aw -> Aw }.

(** What the provider relies on: applying an update takes nothing out of the document, and a delta against a state vector holds
    every item the vector does not know and every deletion. *)
Class YjsLaws (Doc Aw : Type) `{Yjs Doc Aw} := {
  apply_keeps : forall (d d' : Doc) u e, applyUpdate d u = Some d' -> contains d e -> contains d' e;
  encode_insert : forall (d : Doc) sv c k, contains d (Insert c k) -> (clock_of c sv <= k)%N -> covers (encodeStateAsUpdate d sv) (Insert c k);
  encode_delete : forall (d : Doc) sv c k, contains d (Delete c k) -> covers (encodeStateAsUpdate d sv) (Delete c k) }.

(** ** The provider *)

Definition MAX_COLLABORATION_FRAME_BYTES : Z := Z.shiftl 2 20.
Definition bufferLimit : Z := 2 * 1024 * 1024.

Inductive Status := connecting | connected | disconnected | conflict | oversizedStatus | revokedStatus.

(** What the server says in text. *)
Inductive Message :=
| MConflict (documentId : string)
| MRevoked (documentId : string)
| MAccess (documentId : string) (isReadOnly : bool)
| MReadonly (documentId : string)
| MSync (documentId : string) (contentState : option string) (updates : list (string * string)) (more isReadOnly : bool)
| MOther.

Inductive ReadyState := CONNECTING | OPEN | CLOSING | CLOSED.
Record Socket := mkSocket { readyState : ReadyState; bufferedAmount : Z }.
Inductive Timer := TConnect | TSuspend | THeartbeat (s : nat).

(** What the provider does to the outside, updates apart. *)
Inductive Out := OEmit (status : Status) | OAccess (isReadOnly : bool) | OConnect (s : nat) | OJoin (s : nat) | OAwareness (s : nat) (payload : bytes) | OClose (s : nat).

Record Flags := mkFlags { receivedServerState : bool; seedQueued : bool; readOnly : bool; destroyed : bool; started : bool; synced : bool; conflicted : bool; revoked : bool; suspended : bool; retry : Z }.
Definition set_receivedServerState (v : bool) (x : Flags) : Flags := mkFlags v (seedQueued x) (readOnly x) (destroyed x) (started x) (synced x) (conflicted x) (revoked x) (suspended x) (retry x).
Definition set_seedQueued (v : bool) (x : Flags) : Flags := mkFlags (receivedServerState x) v (readOnly x) (destroyed x) (started x) (synced x) (conflicted x) (revoked x) (suspended x) (retry x).
Definition set_readOnly (v : bool) (x : Flags) : Flags := mkFlags (receivedServerState x) (seedQueued x) v (destroyed x) (started x) (synced x) (conflicted x) (revoked x) (suspended x) (retry x).
Definition set_destroyed (v : bool) (x : Flags) : Flags := mkFlags (receivedServerState x) (seedQueued x) (readOnly x) v (started x) (synced x) (conflicted x) (revoked x) (suspended x) (retry x).
Definition set_started (v : bool) (x : Flags) : Flags := mkFlags (receivedServerState x) (seedQueued x) (readOnly x) (destroyed x) v (synced x) (conflicted x) (revoked x) (suspended x) (retry x).
Definition set_synced (v : bool) (x : Flags) : Flags := mkFlags (receivedServerState x) (seedQueued x) (readOnly x) (destroyed x) (started x) v (conflicted x) (revoked x) (suspended x) (retry x).
Definition set_conflicted (v : bool) (x : Flags) : Flags := mkFlags (receivedServerState x) (seedQueued x) (readOnly x) (destroyed x) (started x) (synced x) v (revoked x) (suspended x) (retry x).
Definition set_revoked (v : bool) (x : Flags) : Flags := mkFlags (receivedServerState x) (seedQueued x) (readOnly x) (destroyed x) (started x) (synced x) (conflicted x) v (suspended x) (retry x).
Definition set_suspended (v : bool) (x : Flags) : Flags := mkFlags (receivedServerState x) (seedQueued x) (readOnly x) (destroyed x) (started x) (synced x) (conflicted x) (revoked x) v (retry x).
Definition set_retry (v : Z) (x : Flags) : Flags := mkFlags (receivedServerState x) (seedQueued x) (readOnly x) (destroyed x) (started x) (synced x) (conflicted x) (revoked x) (suspended x) v.

(** The provider's handles, and the browser's sockets, timers, visibility and its listener. *)
Record Net := mkNet { socket : option nat; reconnectTimer : option nat; heartbeatTimer : option nat; hiddenTimer : option nat; sockets : list (nat * Socket); timers : list (nat * Timer); handles : nat; hidden : bool; listening : bool }.
Definition set_socket (v : option nat) (x : Net) : Net := mkNet v (reconnectTimer x) (heartbeatTimer x) (hiddenTimer x) (sockets x) (timers x) (handles x) (hidden x) (listening x).
Definition set_reconnectTimer (v : option nat) (x : Net) : Net := mkNet (socket x) v (heartbeatTimer x) (hiddenTimer x) (sockets x) (timers x) (handles x) (hidden x) (listening x).
Definition set_heartbeatTimer (v : option nat) (x : Net) : Net := mkNet (socket x) (reconnectTimer x) v (hiddenTimer x) (sockets x) (timers x) (handles x) (hidden x) (listening x).
Definition set_hiddenTimer (v : option nat) (x : Net) : Net := mkNet (socket x) (reconnectTimer x) (heartbeatTimer x) v (sockets x) (timers x) (handles x) (hidden x) (listening x).
Definition set_sockets (v : list (nat * Socket)) (x : Net) : Net := mkNet (socket x) (reconnectTimer x) (heartbeatTimer x) (hiddenTimer x) v (timers x) (handles x) (hidden x) (listening x).
Definition set_timers (v : list (nat * Timer)) (x : Net) : Net := mkNet (socket x) (reconnectTimer x) (heartbeatTimer x) (hiddenTimer x) (sockets x) v (handles x) (hidden x) (listening x).
Definition set_handles (v : nat) (x : Net) : Net := mkNet (socket x) (reconnectTimer x) (heartbeatTimer x) (hiddenTimer x) (sockets x) (timers x) v (hidden x) (listening x).
Definition set_hidden (v : bool) (x : Net) : Net := mkNet (socket x) (reconnectTimer x) (heartbeatTimer x) (hiddenTimer x) (sockets x) (timers x) (handles x) v (listening x).
Definition set_listening (v : bool) (x : Net) : Net := mkNet (socket x) (reconnectTimer x) (heartbeatTimer x) (hiddenTimer x) (sockets x) (timers x) (handles x) (hidden x) v.

Module Provider.
Section Provider.
Context {Doc Aw : Type} `{Yjs Doc Aw}.
Context (docId : string) (seededWithoutServerState : bool) (uuid : nat -> string) (atob : string -> option string).

(** The document and the queue of local edits.  [uuids] counts the ids drawn; [wire] are the update frames sent (the latest
    first), [received] the updates applied for the server, [edited] the local edits: a record of the past that no code reads. *)
Record Store := mkStore { doc : Doc; pendingUpdates : list (string * bytes); sentUpdates : list string; serverClocks : Clocks;
  pendingBytes : Z; deferredUpdate : bool; oversized : bool; uuids : nat;
  wire : list (string * bytes); received : list bytes; edited : list Edit }.

Definition set_doc (v : Doc) (x : Store) : Store := mkStore v (pendingUpdates x) (sentUpdates x) (serverClocks x) (pendingBytes x) (deferredUpdate x) (oversized x) (uuids x) (wire x) (received x) (edited x).
Definition set_pendingUpdates (v : list (string * bytes)) (x : Store) : Store := mkStore (doc x) v (sentUpdates x) (serverClocks x) (pendingBytes x) (deferredUpdate x) (oversized x) (uuids x) (wire x) (received x) (edited x).
Definition set_sentUpdates (v : list string) (x : Store) : Store := mkStore (doc x) (pendingUpdates x) v (serverClocks x) (pendingBytes x) (deferredUpdate x) (oversized x) (uuids x) (wire x) (received x) (edited x).
Definition set_serverClocks (v : Clocks) (x : Store) : Store := mkStore (doc x) (pendingUpdates x) (sentUpdates x) v (pendingBytes x) (deferredUpdate x) (oversized x) (uuids x) (wire x) (received x) (edited x).
Definition set_pendingBytes (v : Z) (x : Store) : Store := mkStore (doc x) (pendingUpdates x) (sentUpdates x) (serverClocks x) v (deferredUpdate x) (oversized x) (uuids x) (wire x) (received x) (edited x).
Definition set_deferredUpdate (v : bool) (x : Store) : Store := mkStore (doc x) (pendingUpdates x) (sentUpdates x) (serverClocks x) (pendingBytes x) v (oversized x) (uuids x) (wire x) (received x) (edited x).
Definition set_oversized (v : bool) (x : Store) : Store := mkStore (doc x) (pendingUpdates x) (sentUpdates x) (serverClocks x) (pendingBytes x) (deferredUpdate x) v (uuids x) (wire x) (received x) (edited x).
Definition set_uuids (v : nat) (x : Store) : Store := mkStore (doc x) (pendingUpdates x) (sentUpdates x) (serverClocks x) (pendingBytes x) (deferredUpdate x) (oversized x) v (wire x) (received x) (edited x).
Definition set_wire (v : list (string * bytes)) (x : Store) : Store := mkStore (doc x) (pendingUpdates x) (sentUpdates x) (serverClocks x) (pendingBytes x) (deferredUpdate x) (oversized x) (uuids x) v (received x) (edited x).
Definition set_received (v : list bytes) (x : Store) : Store := mkStore (doc x) (pendingUpdates x) (sentUpdates x) (serverClocks x) (pendingBytes x) (deferredUpdate x) (oversized x) (uuids x) (wire x) v (edited x).
Definition set_edited (v : list Edit) (x : Store) : Store := mkStore (doc x) (pendingUpdates x) (sentUpdates x) (serverClocks x) (pendingBytes x) (deferredUpdate x) (oversized x) (uuids x) (wire x) (received x) v.

Record Provider := mkProvider { store : Store; flags : Flags; appliedUpdateIds : list string; aw : Aw; net : Net; out : list Out }.

Definition on_store (f : Store -> Store) (p : Provider) : Provider := mkProvider (f (store p)) (flags p) (appliedUpdateIds p) (aw p) (net p) (out p).
Definition on_flags (f : Flags -> Flags) (p : Provider) : Provider := mkProvider (store p) (f (flags p)) (appliedUpdateIds p) (aw p) (net p) (out p).
Definition on_applied (f : list string -> list string) (p : Provider) : Provider := mkProvider (store p) (flags p) (f (appliedUpdateIds p)) (aw p) (net p) (out p).
Definition on_aw (f : Aw -> Aw) (p : Provider) : Provider := mkProvider (store p) (flags p) (appliedUpdateIds p) (f (aw p)) (net p) (out p).
Definition on_net (f : Net -> Net) (p : Provider) : Provider := mkProvider (store p) (flags p) (appliedUpdateIds p) (aw p) (f (net p)) (out p).
Definition act (o : Out) (p : Provider) : Provider := mkProvider (store p) (flags p) (appliedUpdateIds p) (aw p) (net p) (out p ++ [o]).

Definition emit (status : Status) : Provider -> Provider := act (OEmit status).

(** *** The browser *)

Definition is_state (r : ReadyState) (s : nat) (p : Provider) : bool :=
  match map_get s (sockets (net p)) with
  | Some k => match readyState k, r with CONNECTING, CONNECTING | OPEN, OPEN | CLOSING, CLOSING | CLOSED, CLOSED => true | _, _ => false end
  | None => false
  end.

Definition buffered (s : nat) (p : Provider) : Z := (bufferedAmount <$> map_get s (sockets (net p))) ?? 0.

Definition update_socket (s : nat) (f : Socket -> Socket) (p : Provider) : Provider :=
  match map_get s (sockets (net p)) with
  | Some k => on_net (fun n => set_sockets (map_set s (f k) (sockets n)) n) p
  | None => p
  end.

Definition to_state (r : ReadyState) (s : nat) : Provider -> Provider := update_socket s (fun k => mkSocket r (bufferedAmount k)).

(** [socket.send]: the bytes count as buffered until the browser has written them. *)
Definition transmit (s : nat) (n : Z) : Provider -> Provider := update_socket s (fun k => mkSocket (readyState k) (bufferedAmount k + n)).

Definition close (s : nat) (p : Provider) : Provider :=
  act (OClose s) (if is_state CONNECTING s p || is_state OPEN s p then to_state CLOSING s p else p).

Definition clear (h : option nat) (p : Provider) : Provider :=
  match h with Some h => on_net (fun n => set_timers (map_delete h (timers n)) n) p | None => p end.

(** [setTimeout] and [setInterval]; [keep] stores the handle. *)
Definition arm (t : Timer) (keep : option nat -> Net -> Net) : Provider -> Provider :=
  on_net (fun n => keep (Some (handles n)) (set_handles (S (handles n)) (set_timers (timers n ++ [(handles n, t)]) n))).

Definition live_open (p : Provider) : option nat :=
  match socket (net p) with Some s => if is_state OPEN s p then Some s else None | None => None end.

(** *** Cursors *)

Definition send_cursors (s : nat) (clients : list Z) (p : Provider) : Provider :=
  let payload := encodeAwarenessUpdate (aw p) clients in
  transmit s (size (Frame.encodeFrame Frame.awarenessFrame docId "" payload)) (act (OAwareness s payload) p).

Definition sendAwarenessUpdate (clients : list Z) (p : Provider) : Provider :=
  match clients, live_open p with
  | _ :: _, Some s => send_cursors s clients p
  | _, _ => p
  end.

(** [setLocalStateField]: the change comes back as an update event of the provider's own client; a destroyed provider does not listen. *)
Definition set_local (field : string) (p : Provider) : Provider :=
  let p1 := on_aw (fun a => setLocalStateField a field) p in
  if destroyed (flags p) then p1 else sendAwarenessUpdate [clientID] p1.

Definition forget_others (p : Provider) : Provider :=
  on_aw (fun a => removeAwarenessStates a (List.filter (fun id => negb (id =? clientID)) (getStates a))) p.
Definition forget_self (p : Provider) : Provider := on_aw (fun a => removeAwarenessStates a [clientID]) p.

(** *** The queue of local edits *)

Definition has (id : string) (l : list string) : bool := existsb (String.eqb id) l.
Definition remove (id : string) (l : list string) : list string := List.filter (fun x => negb (x =s id)) l.

Definition total (l : list (string * bytes)) : Z := foldr (fun e n => size (e.2) + n) 0 l.

(** [pendingUpdates.set('collab_' + crypto.randomUUID(), update)] *)
Definition update_id (n : nat) : string := "collab_" +:+ uuid n.
Definition enqueue (update : bytes) (x : Store) : Store :=
  set_uuids (S (uuids x)) (set_pendingUpdates (map_set (update_id (uuids x)) update (pendingUpdates x)) x).

Definition drop_pending (x : Store) : Store := set_pendingBytes 0 (set_pendingUpdates [] x).

Definition update_frame (id : string) (u : bytes) : bytes := Frame.encodeFrame Frame.updateFrame docId id u.

Definition send_update (s : nat) (id : string) (u : bytes) (p : Provider) : Provider :=
  transmit s (size (update_frame id u)) (on_store (fun x => set_sentUpdates (sentUpdates x ++ [id]) (set_wire ((id, u) :: wire x) x)) p).

(** An edit that no frame can carry: the queue becomes the mark. *)
Definition defer_oversized (p : Provider) : Provider :=
  let p1 := on_store (fun x => set_deferredUpdate true (set_sentUpdates [] (drop_pending x))) p in
  if oversized (store p) then p1 else emit oversizedStatus (on_store (set_oversized true) p1).

Fixpoint flush_loop (s : nat) (l : list (string * bytes)) (p : Provider) : Provider :=
  match l with
  | [] => if oversized (store p) then emit connected (on_store (set_oversized false) p) else p
  | (id, u) :: r =>
      if has id (sentUpdates (store p)) then flush_loop s r p
      else if bufferLimit <? buffered s p then p
      else if MAX_COLLABORATION_FRAME_BYTES <? size (update_frame id u) then defer_oversized p
      else flush_loop s r (send_update s id u p)
  end.

(** The delta against what the server has acknowledged. *)
Definition derive (x : Store) : Store :=
  if deferredUpdate x && match pendingUpdates x with [] => true | _ => false end then
    let update := encodeStateAsUpdate (doc x) (serverClocks x) in
    set_deferredUpdate false (set_pendingBytes (size update) (enqueue update x))
  else x.

Definition flushPendingUpdates (p : Provider) : Provider :=
  match live_open p with
  | Some s =>
      if negb (synced (flags p)) || readOnly (flags p) then p
      else if bufferLimit <? buffered s p then p
      else let p1 := on_store derive p in flush_loop s (pendingUpdates (store p1)) p1
  | None => p
  end.

Definition queueDocumentUpdate (update : bytes) (p : Provider) : Provider :=
  let x := store p in
  if deferredUpdate x || (128 <=? Z.of_nat (length (pendingUpdates x))) || (1024 * 1024 <? pendingBytes x + size update)
  then flushPendingUpdates (on_store (set_deferredUpdate true) p)
  else flushPendingUpdates (on_store (fun x => set_pendingBytes (pendingBytes x + size update) (enqueue update x)) p).

Definition acknowledgeUpdate (id : string) (x : Store) : Store :=
  set_pendingUpdates (map_delete id (pendingUpdates x)) (set_pendingBytes (pendingBytes x - ((size <$> map_get id (pendingUpdates x)) ?? 0)) x).

Definition recordAppliedUpdate (id : string) (l : list string) : list string :=
  let l1 := if has id l then l else l ++ [id] in
  if (10000 <? Z.of_nat (length l1)) then List.tl l1 else l1.

Definition acknowledgeSnapshot (ids : list string) (p : Provider) : Provider :=
  on_applied (fun l => fold_left (fun l id => remove id l) ids l) p.

Definition setReadOnly (b : bool) (p : Provider) : Provider :=
  if Bool.eqb (readOnly (flags p)) b then p
  else
    let p1 := on_flags (set_readOnly b) p in
    let p2 := if b then p1 else on_store (set_sentUpdates []) p1 in
    let p3 := act (OAccess b) p2 in
    if b then p3 else flushPendingUpdates p3.

(** *** What the server sends *)

Definition advance (from : Clocks) (m : Clocks) (entry : Z * N) : Clocks :=
  let known := clock_of entry.1 m in
  if (clock_of entry.1 from <=? known)%N then map_set entry.1 (N.max known entry.2) m else m.

(** The boolean says that the call threw. *)
Definition applyServerUpdate (update : bytes) (p : Provider) : Provider * bool :=
  match applyUpdate (doc (store p)) update with
  | None => (p, true)
  | Some d =>
      let (from, to) := parseUpdateMeta update in
      (on_store (fun x => set_received (update :: received x) (set_serverClocks (fold_left (advance from) to (serverClocks x)) (set_doc d x))) p, false)
  end.

(** The three calls that follow an update with an id. *)
Definition settle (id : string) (p : Provider) : Provider :=
  on_applied (recordAppliedUpdate id) (on_store (fun x => set_sentUpdates (remove id (sentUpdates x)) (acknowledgeUpdate id x)) p).

Definition base64ToBytes (value : string) : option bytes := (fun b => map code (String.list_ascii_of_string b)) <$> atob value.

Definition apply_text (data : string) (p : Provider) : Provider * bool :=
  match base64ToBytes data with Some u => applyServerUpdate u p | None => (p, true) end.

Fixpoint sync_updates (l : list (string * string)) (p : Provider) : Provider * bool :=
  match l with
  | [] => (p, false)
  | (id, data) :: r =>
      match apply_text data p with
      | (p1, true) => (p1, true)
      | (p1, false) => sync_updates r (settle id p1)
      end
  end.

Definition handle_sync (contentState : option string) (updates : list (string * string)) (more ro : bool) (p : Provider) : Provider :=
  let p1 := setReadOnly ro p in
  let state := match contentState with Some c => truthy c | None => false end in
  let p2 := on_flags (fun f => set_receivedServerState (receivedServerState f || state || negb (Nat.eqb (length updates) 0)) f) p1 in
  let applied := match contentState with Some c => if truthy c then apply_text c p2 else (p2, false) | None => (p2, false) end in
  match applied with
  | (p3, true) => p3
  | (p3, false) =>
      match sync_updates updates p3 with
      | (p4, true) => p4
      | (p4, false) =>
          if more then p4
          else emit connected (sendAwarenessUpdate [clientID] (flushPendingUpdates (on_flags (set_synced true) p4)))
      end
  end.

(** *** Starting, stopping, connecting *)

(** The fields that a lost connection resets. *)
Definition unsync (p : Provider) : Provider :=
  on_flags (fun f => set_receivedServerState false (set_synced false f)) (on_store (set_sentUpdates []) p).

Definition clear_timer (get : Net -> option nat) (p : Provider) : Provider := clear (get (net p)) p.

(** [this.socket?.close(...)] *)
Definition close_socket (p : Provider) : Provider := match socket (net p) with Some s => close s p | None => p end.

(** Other clients are told that this one leaves. *)
Definition say_goodbye (p : Provider) : Provider :=
  match live_open p with Some s => send_cursors s [clientID] (forget_self p) | None => p end.

Definition stop (p : Provider) : Provider :=
  if negb (started (flags p)) then p
  else
    let p1 := on_flags (fun f => set_suspended false (set_started false f)) p in
    let p2 := clear_timer hiddenTimer (on_net (set_listening false) p1) in
    let p3 := clear_timer heartbeatTimer (clear_timer reconnectTimer (unsync p2)) in
    let p4 := close_socket (say_goodbye p3) in
    emit disconnected (on_net (set_socket None) p4).

Definition connect (p : Provider) : Provider :=
  if destroyed (flags p) || negb (started (flags p)) then p
  else
    let s := handles (net p) in
    let p1 := on_net (fun n => set_socket (Some s) (set_handles (S s) (set_sockets (sockets n ++ [(s, mkSocket CONNECTING 0)]) n))) (emit connecting p) in
    arm (THeartbeat s) set_heartbeatTimer (clear_timer heartbeatTimer (act (OConnect s) p1)).

Definition start (p : Provider) : Provider :=
  let f := flags p in
  if destroyed f || started f || conflicted f || revoked f then p
  else
    let p1 := on_flags (set_started true) p in
    let p2 := if getLocalState (aw p1) then p1 else set_local "user" p1 in
    let p3 := on_net (set_listening true) p2 in
    if hidden (net p3) then on_flags (set_suspended true) p3 else connect p3.

Definition destroy (p : Provider) : Provider :=
  if destroyed (flags p) then p
  else
    let p1 := forget_self (on_flags (set_destroyed true) (stop p)) in
    let p2 := on_aw destroyAwareness p1 in
    let p3 := close_socket p2 in
    let p4 := on_store (fun x => set_sentUpdates [] (set_serverClocks [] (set_deferredUpdate false (drop_pending x)))) p3 in
    emit disconnected (on_applied (fun _ => []) p4).

Definition reconnect_delay (retry : Z) : Z := Z.min 10000 (400 * 2 ^ retry).

Definition onopen (s : nat) (p : Provider) : Provider := act (OJoin s) (on_flags (set_retry 0) p).

Definition onclose (s : nat) (p : Provider) : Provider :=
  let mine := match socket (net p) with Some s' => Nat.eqb s' s | None => false end in
  if isSome (socket (net p)) && negb mine then p
  else
    let p1 := emit disconnected (forget_others (unsync (if mine then on_net (set_socket None) p else p))) in
    let f := flags p1 in
    if negb (destroyed f) && started f && negb (suspended f)
    then arm TConnect set_reconnectTimer (on_flags (set_retry (retry f + 1)) p1)
    else p1.

Definition heartbeat (s : nat) (p : Provider) : Provider :=
  if is_state OPEN s p then flushPendingUpdates (set_local "heartbeat" p) else p.

Definition onVisibilityChange (p : Provider) : Provider :=
  if destroyed (flags p) || negb (started (flags p)) then p
  else
    let p1 := clear_timer hiddenTimer p in
    if hidden (net p1) then arm TSuspend set_hiddenTimer p1
    else if negb (suspended (flags p1)) then p1
    else connect (on_flags (fun f => set_retry 0 (set_suspended false f)) p1).

Definition unsent (p : Provider) : bool :=
  negb (readOnly (flags p)) && (negb (Nat.eqb (length (pendingUpdates (store p))) 0) || deferredUpdate (store p)).

Definition suspendWhenHidden (p : Provider) : Provider :=
  let f := flags p in
  if destroyed f || negb (started f) || suspended f || negb (hidden (net p)) then p
  else if unsent p then arm TSuspend set_hiddenTimer p
  else
    let p1 := on_flags (set_suspended true) p in
    let p2 := unsync (clear_timer heartbeatTimer (clear_timer reconnectTimer p1)) in
    let socket_ := socket (net p2) in
    let p3 := say_goodbye p2 in
    let p4 := on_net (set_socket None) p3 in
    emit disconnected (match socket_ with Some s => close s p4 | None => p4 end).

(** *** Events *)

Definition handleTextMessage (m : Message) (p : Provider) : Provider :=
  match m with
  | MConflict d => if d =s docId then emit conflict (stop (on_flags (set_conflicted true) p)) else p
  | MRevoked d =>
      if d =s docId then
        let p1 := on_store (fun x => set_deferredUpdate false (drop_pending x)) (on_flags (set_revoked true) p) in
        emit revokedStatus (forget_others (stop p1))
      else p
  | MAccess d ro => if d =s docId then setReadOnly ro p else p
  | MReadonly d => if d =s docId then setReadOnly true p else p
  | MSync d contentState updates more ro => if d =s docId then handle_sync contentState updates more ro p else p
  | MOther => p
  end.

Definition handleBinaryMessage (raw : bytes) (p : Provider) : Provider :=
  match Frame.decodeFrame raw with
  | None => p
  | Some frame =>
      if negb (Frame.documentId frame =s docId) then p
      else if Frame.kind frame =? Frame.updateFrame then
        match applyServerUpdate (Frame.payload frame) p with
        | (p1, true) => p1
        | (p1, false) => flushPendingUpdates (if truthy (Frame.updateId frame) then settle (Frame.updateId frame) p1 else p1)
        end
      else if Frame.kind frame =? Frame.awarenessFrame then on_aw (fun a => applyAwarenessUpdate a (Frame.payload frame)) p
      else p
  end.

(** A local transaction: the document became [d], Yjs reports [update]; [edits] is what the user did. *)
Definition onDocumentUpdate (update : bytes) (p : Provider) : Provider :=
  let f := flags p in
  let includeSeed := seededWithoutServerState && negb (receivedServerState f) && negb (seedQueued f) in
  let p1 := on_flags (set_seedQueued (seedQueued f || includeSeed)) p in
  queueDocumentUpdate (if includeSeed then encodeStateAsUpdate (doc (store p1)) [] else update) p1.

Definition isSynced (p : Provider) : bool :=
  synced (flags p) && negb (conflicted (flags p)) && negb (oversized (store p)) && negb (revoked (flags p)).

Inductive Input :=
| IStart | IStop | IDestroy | ISnapshot (ids : list string)
| IOpen (s : nat) | IText (s : nat) (m : Message) | IBinary (s : nat) (raw : bytes) | IError (s : nat) | IClosed (s : nat) | IDrain (s : nat) (n : Z)
| ITimer (h : nat) | IVisible (hidden_ : bool)
| ILocal (d : Doc) (update : bytes) (edits : list Edit) | ICursors (a : Aw) (clients : list Z).

Definition fire (h : nat) (p : Provider) : Provider :=
  match map_get h (timers (net p)) with
  | Some TConnect => connect (clear (Some h) p)
  | Some TSuspend => suspendWhenHidden (clear (Some h) p)
  | Some (THeartbeat s) => heartbeat s p
  | None => p
  end.

(** A closed or closing socket brings no messages; each closes once. *)
Definition handle (i : Input) (p : Provider) : Provider :=
  match i with
  | IStart => start p
  | IStop => stop p
  | IDestroy => destroy p
  | ISnapshot ids => acknowledgeSnapshot ids p
  | IOpen s => if is_state CONNECTING s p then onopen s (to_state OPEN s p) else p
  | IText s m => if is_state OPEN s p then handleTextMessage m p else p
  | IBinary s raw => if is_state OPEN s p then handleBinaryMessage raw p else p
  | IError s => close s p
  | IClosed s => if is_state CLOSED s p then p else onclose s (to_state CLOSED s p)
  | IDrain s n => update_socket s (fun k => mkSocket (readyState k) (Z.max 0 (bufferedAmount k - n))) p
  | ITimer h => fire h p
  | IVisible b =>
      let p1 := on_net (set_hidden b) p in
      if listening (net p1) then onVisibilityChange p1 else p1
  | ILocal d update edits =>
      let p1 := on_store (fun x => set_edited (edits ++ edited x) (set_doc d x)) p in
      if destroyed (flags p1) then p1 else onDocumentUpdate update p1
  | ICursors a clients =>
      let p1 := on_aw (fun _ => a) p in
      if destroyed (flags p1) then p1 else sendAwarenessUpdate clients p1
  end.

Definition new_provider (d : Doc) (a : Aw) (hidden_ : bool) : Provider :=
  mkProvider (mkStore d [] [] [] 0 false false 0 [] [] []) (mkFlags false false false false false false false false false 0) []
    (setLocalStateField a "user") (mkNet None None None None [] [] 0 hidden_ false) [].

(** *** The invariant of the store *)

Definition id_drawn (n : nat) (id : string) : Prop := exists i, (i < n)%nat /\ id = update_id i.
Definition known (rec : list bytes) (e : Edit) : Prop := exists u, In u rec /\ covers u e.
Definition kept (pend : list (string * bytes)) (e : Edit) : Prop := exists id u, In (id, u) pend /\ covers u e.

(** The invariant, of the fields it speaks of.  [gone] says that the provider was destroyed or refused; [ok] are edits that are
    about to be queued. *)
Record wf_core (gone : bool) (ok : Edit -> Prop) (d : Doc) (pend : list (string * bytes)) (clocks : Clocks) (pb : Z) (deferred : bool)
  (n : nat) (w : list (string * bytes)) (rec : list bytes) (ed : list Edit) (sent : list string) : Prop := {
  wf_sent : forall id, In id sent -> exists u, In (id, u) w;
  wf_bytes : pb = total pend;
  wf_room : (length pend <= 128)%nat /\ (pb <= 1024 * 1024 \/ (length pend <= 1)%nat);
  wf_nodup : NoDup (map_keys pend);
  wf_ids : forall id u, In (id, u) pend -> id_drawn n id;
  wf_wire : forall id u, In (id, u) w -> id_drawn n id /\ size (update_frame id u) <= MAX_COLLABORATION_FRAME_BYTES;
  wf_same : forall id u u', In (id, u) pend -> In (id, u') w -> u = u';
  wf_clocks : forall c k, (k < clock_of c clocks)%N -> known rec (Insert c k);
  wf_edits : forall e, In e ed -> contains d e /\ (gone = true \/ known rec e \/ kept pend e \/ deferred = true \/ ok e) }.

Definition wf_store (gone : bool) (ok : Edit -> Prop) (x : Store) : Prop :=
  wf_core gone ok (doc x) (pendingUpdates x) (serverClocks x) (pendingBytes x) (deferredUpdate x) (uuids x) (wire x) (received x) (edited x) (sentUpdates x).

Definition none (_ : Edit) : Prop := False.
Definition gone (p : Provider) : bool := destroyed (flags p) || revoked (flags p).
Definition wf (p : Provider) : Prop := wf_store (gone p) none (store p).

Context (uuid_inj : forall i j, uuid i = uuid j -> i = j) `{!YjsLaws Doc Aw}.

#[local] Hint Resolve incl_refl incl_nil_l : core.

Lemma update_id_inj i j : update_id i = update_id j -> i = j.
Proof. intros E. apply uuid_inj. unfold update_id in E. cbn in E. congruence. Qed.

Lemma id_drawn_mono n m id : (n <= m)%nat -> id_drawn n id -> id_drawn m id.
Proof. intros Hl (i & Hi & ->). exists i. split; [lia | done]. Qed.

Lemma id_fresh n : ~ id_drawn n (update_id n).
Proof. intros (i & Hi & E%update_id_inj). lia. Qed.

Lemma total_app a b : total (a ++ b) = total a + total b.
Proof. induction a as [|e a IH]; cbn; [done|]. fold (total (a ++ b)) (total a). lia. Qed.

Lemma total_nonneg l : 0 <= total l.
Proof. induction l as [|e l IH]; cbn; [lia|]. fold (total l). unfold size. lia. Qed.

Lemma total_delete k m : total (map_delete k m) = total m - ((size <$> map_get k m) ?? 0).
Proof. induction m as [|[k' v'] m IH]; cbn; [done|]. case_decide; cbn; fold (total m) (total (map_delete k m)); [lia|]. rewrite IH. destruct (map_get k m); cbn; lia. Qed.

(** A new update joins the queue, under a fresh id. *)
Lemma collab_enqueue_wf g ok (x : Store) u b def' :
  wf_store g ok x -> def' = deferredUpdate x \/ (def' = false /\ forall e, In e (edited x) -> known (received x) e \/ covers u e) ->
  (forall e, ok e -> covers u e) -> b = total (pendingUpdates x) + size u ->
  (length (pendingUpdates x) < 128)%nat -> b <= 1024 * 1024 \/ pendingUpdates x = [] ->
  wf_store g none (set_deferredUpdate def' (set_pendingBytes b (enqueue u x))).
Proof.
  intros [H0 H1 H2 H3 H4 H5 H6 H7 H8] Hdef Hok Hb Hl Hr.
  assert (Hf : update_id (uuids x) ∉ map_keys (pendingUpdates x)).
  { intros Hin. apply list_elem_of_In, in_map_iff in Hin as ([id u'] & E & Hin). cbn in E. subst id. by apply (id_fresh (uuids x)), (H4 _ u'). }
  unfold wf_store, enqueue. cbn [doc sentUpdates pendingUpdates serverClocks pendingBytes deferredUpdate uuids wire received edited set_deferredUpdate set_pendingBytes set_uuids set_pendingUpdates].
  rewrite map_set_new by done. split; [exact H0 | | | | | | | |].
  - rewrite total_app. cbn. lia.
  - rewrite length_app. cbn [length]. split; [lia|]. destruct Hr as [Hr | ->]; [by left | right; cbn; lia].
  - unfold map_keys. rewrite map_app. apply NoDup_app. split; [done|]. split; [|apply NoDup_singleton]. cbn.
    intros id Hid ->%list_elem_of_singleton. done.
  - intros id u' [Hi|[[= <- <-]|[]]]%in_app_iff; [eapply id_drawn_mono; [|by eapply H4]; lia | exists (uuids x); split; [lia | done]].
  - intros id u' Hi. destruct (H5 _ _ Hi) as [Hd Hs]. split; [eapply id_drawn_mono; [|done]; lia | done].
  - intros id u' u'' [Hi|[[= <- <-]|[]]]%in_app_iff Hw; [by eapply H6|]. exfalso. by apply (id_fresh (uuids x)), (H5 _ u'').
  - done.
  - intros e He. destruct (H8 e He) as [Hc Ho]. split; [done|].
    assert (Hu : covers u e -> kept (pendingUpdates x ++ [(update_id (uuids x), u)]) e) by (intros; exists (update_id (uuids x)), u; split; [apply in_app_iff; right; by left | done]).
    assert (Hk : kept (pendingUpdates x) e -> kept (pendingUpdates x ++ [(update_id (uuids x), u)]) e) by (intros (id & u' & Hi & Hcov); exists id, u'; split; [apply in_app_iff; by left | done]).
    destruct Hdef as [-> | [-> Hall]]; [|destruct (Hall e He); auto]. destruct Ho as [?|[?|[?|[?|?]]]]; auto 6.
Qed.

Lemma derive_wf g x : wf_store g none x -> wf_store g none (derive x).
Proof.
  intros Hw. unfold derive. destruct (deferredUpdate x) eqn:Ed; [|done]. destruct (pendingUpdates x) as [|e l] eqn:Ep; [|done]. cbn [andb].
  apply (collab_enqueue_wf g none x); try done; [|rewrite Ep; cbn; lia | rewrite Ep; cbn; lia | by right].
  right. split; [done|]. intros [c k|c k] He; destruct (wf_edits _ _ _ _ _ _ _ _ _ _ _ _ Hw _ He) as [Hc _].
  - destruct (N.lt_ge_cases k (clock_of c (serverClocks x))) as [Hlt|Hge]; [left; by eapply wf_clocks | right; by apply encode_insert].
  - right. by apply encode_delete.
Qed.

Lemma deferred_wf g ok ok' x : wf_store g ok x -> wf_store g ok' (set_deferredUpdate true x).
Proof. intros [H0 H1 H2 H3 H4 H5 H6 H7 H8]. split; try done. intros e He. destruct (H8 e He). split; auto. Qed.

(** Forgetting what was sent only means that it is sent again. *)
Lemma unsent_wf g ok x l : wf_store g ok x -> incl l (sentUpdates x) -> wf_store g ok (set_sentUpdates l x).
Proof. intros [H0 H1 H2 H3 H4 H5 H6 H7 H8] Hl. split; try done. intros id Hi. by apply H0, Hl. Qed.

Lemma drop_wf g ok x def : wf_store g ok x -> g = true \/ def = true -> wf_store g none (set_deferredUpdate def (drop_pending x)).
Proof.
  intros [H0 H1 H2 H3 H4 H5 H6 H7 H8] Hg. split; try done; cbn; [split; [lia | left; lia] | constructor |].
  intros e He. destruct (H8 e He). split; [done|]. destruct Hg; auto.
Qed.

(** *** Flushing *)

Lemma wf_update_socket s g p : wf (update_socket s g p) <-> wf p.
Proof. unfold update_socket. by destruct (map_get s (sockets (net p))). Qed.

Lemma sent_wf g x id u : wf_store g none x -> In (id, u) (pendingUpdates x) -> size (update_frame id u) <= MAX_COLLABORATION_FRAME_BYTES ->
  wf_store g none (set_sentUpdates (sentUpdates x ++ [id]) (set_wire ((id, u) :: wire x) x)).
Proof.
  intros [H0 H1 H2 H3 H4 H5 H6 H7 H8] Hi Hs. split; try done; cbn.
  - intros id' [Hin|[<-|[]]]%in_app_iff; [destruct (H0 id' Hin) as (u' & Hu'); exists u'; by right | exists u; by left].
  - intros id' u' [[= <- <-]|Hw]; [split; [by eapply H4 | done] | by apply H5].
  - intros id' u' u'' Hp [[= <- <-]|Hw]; [|by eapply H6].
    assert (E : forall l, NoDup (map_keys l) -> In (id, u') l -> In (id, u) l -> u' = u); [|by eapply E].
    clear. induction l as [|[k v] l IH]; [done|]. cbn. intros [Hn Hd]%NoDup_cons [[= -> ->]|Ha] [[= E]|Hb]; subst; try done; try (by apply IH);
      exfalso; apply Hn, list_elem_of_In; [by apply (in_map fst) in Hb | by apply (in_map fst) in Ha].
Qed.

Lemma transmit_parts s n p : store (transmit s n p) = store p /\ flags (transmit s n p) = flags p.
Proof. unfold transmit, update_socket. by destruct (map_get s (sockets (net p))). Qed.

Lemma defer_oversized_wf p : wf p -> wf (defer_oversized p).
Proof.
  intros Hw. unfold defer_oversized. assert (Hd : wf_store (gone p) none (set_deferredUpdate true (set_sentUpdates [] (drop_pending (store p))))) by (apply (unsent_wf _ _ (set_deferredUpdate true (drop_pending (store p)))); [apply (drop_wf _ none); auto | done]).
  destruct (oversized (store p)); exact Hd.
Qed.

Lemma flush_loop_wf s l p : wf p -> (forall e, In e l -> In e (pendingUpdates (store p))) -> wf (flush_loop s l p).
Proof.
  revert p. induction l as [|[id u] l IH]; intros p Hw Hl; cbn [flush_loop]; [by destruct (oversized (store p))|].
  destruct (has _ _); [apply IH; [done | intros; apply Hl; by right]|]. destruct (_ <? _); [done|].
  destruct (Z.ltb_spec MAX_COLLABORATION_FRAME_BYTES (size (update_frame id u))) as [_|Hs]; [by apply defer_oversized_wf|].
  apply IH; [unfold send_update, transmit; rewrite wf_update_socket; apply sent_wf; [done | apply Hl; by left | done]|].
  intros e He. unfold send_update. rewrite (proj1 (transmit_parts _ _ _)). apply Hl. by right.
Qed.

Lemma collab_flush_wf p : wf p -> wf (flushPendingUpdates p).
Proof.
  intros Hw. unfold flushPendingUpdates. destruct (live_open p) as [s|]; [|done]. destruct (_ || _); [done|]. destruct (_ <? _); [done|].
  apply flush_loop_wf; [|done]. by apply derive_wf.
Qed.

Lemma queue_wf u p : wf_store (gone p) (covers u) (store p) -> wf (queueDocumentUpdate u p).
Proof.
  intros Hw. unfold queueDocumentUpdate. destruct (_ || _) eqn:E; apply collab_flush_wf.
  - by apply (deferred_wf _ (covers u)).
  - apply orb_false_iff in E as [[Ed El]%orb_false_iff Eb]. apply Z.leb_gt in El. apply Z.ltb_ge in Eb.
    pose proof (wf_bytes _ _ _ _ _ _ _ _ _ _ _ _ Hw) as Hb.
    apply (collab_enqueue_wf (gone p) (covers u) (store p) u (pendingBytes (store p) + size u) (deferredUpdate (store p))); try done; [by left | lia | lia | by left].
Qed.

(** *** What the server sends *)

(** An update Yjs made without a gap: it holds all items between its first and last clock. *)
Definition gapfree (u : bytes) : Prop :=
  forall c hi k, In (c, hi) (parseUpdateMeta u).2 -> (clock_of c (parseUpdateMeta u).1 <= k < hi)%N -> covers u (Insert c k).

Lemma clock_of_set c c' n m : clock_of c (map_set c' n m) = if decide (c = c') then n else clock_of c m.
Proof. unfold clock_of. case_decide as E; [subst; by rewrite map_get_set_eq | by rewrite map_get_set_ne]. Qed.

Lemma advance_known u to m : gapfree u -> (forall e, In e to -> In e (parseUpdateMeta u).2) ->
  forall rec, In u rec -> (forall c k, (k < clock_of c m)%N -> known rec (Insert c k)) ->
  forall c k, (k < clock_of c (fold_left (advance (parseUpdateMeta u).1) to m))%N -> known rec (Insert c k).
Proof.
  intros Hg. revert m. induction to as [|[c' hi] to IH]; intros m Hto rec Hu Hm; [done|]. cbn [fold_left].
  apply IH; [intros e He; apply Hto; by right | done |]. unfold advance. cbn [fst snd].
  destruct (N.leb_spec (clock_of c' (parseUpdateMeta u).1) (clock_of c' m)) as [Hle|_]; [|done].
  intros c k. rewrite clock_of_set. case_decide as E; [subst c'|by apply Hm]. intros Hk.
  destruct (N.lt_ge_cases k (clock_of c m)) as [Hlt|Hge]; [by apply Hm|].
  exists u. split; [done|]. apply (Hg c hi k); [apply Hto; by left | lia].
Qed.

Lemma known_mono u rec e : known rec e -> known (u :: rec) e.
Proof. intros (v & Hv & Hc). exists v. split; [by right | done]. Qed.

Lemma server_update_wf u p q t : wf p -> gapfree u -> applyServerUpdate u p = (q, t) ->
  wf q /\ wire (store q) = wire (store p) /\ (t = false -> In u (received (store q))).
Proof.
  intros Hw Hg. unfold applyServerUpdate. destruct (applyUpdate _ u) as [d|] eqn:Ea; [|intros [= <- <-]; done].
  destruct (parseUpdateMeta u) as [from to] eqn:Em. intros [= <- <-]. split; [|split; [done | intros _; by left]].
  destruct Hw as [H0 H1 H2 H3 H4 H5 H6 H7 H8]. split; try done; cbn.
  - replace from with (parseUpdateMeta u).1 by (by rewrite Em). apply (advance_known u); [done | by rewrite Em | by left |].
    intros c k Hk. by apply known_mono, H7.
  - intros e He. destruct (H8 e He) as [Hc Ho]. split; [by eapply apply_keeps|]. destruct Ho as [?|[?|?]]; auto. right. left. by apply known_mono.
Qed.

(** The server gives back, under an id made here, the update that was sent under it. *)
Definition echoes (w : list (string * bytes)) (id : string) (u : bytes) : Prop := forall n, id = update_id n -> In (id, u) w.

Lemma settle_wf id u p : wf p -> In u (received (store p)) -> echoes (wire (store p)) id u -> wf (settle id p).
Proof.
  intros [H0 H1 H2 H3 H4 H5 H6 H7 H8] Hu He. pose proof (total_nonneg (map_delete id (pendingUpdates (store p)))) as Hn.
  pose proof (total_delete id (pendingUpdates (store p))) as Ht.
  assert (Hlen : (length (map_delete id (pendingUpdates (store p))) <= length (pendingUpdates (store p)))%nat).
  { pose proof (sublist_length _ _ (map_delete_sublist id (pendingUpdates (store p)))) as Hl. unfold map_keys in Hl. rewrite !length_map in Hl. exact Hl. }
  assert (Hg : 0 <= (size <$> map_get id (pendingUpdates (store p))) ?? 0) by (destruct (map_get id (pendingUpdates (store p))); cbn; unfold size; lia).
  assert (Hb : pendingBytes (store (settle id p)) = pendingBytes (store p) - ((size <$> map_get id (pendingUpdates (store p))) ?? 0)) by done.
  split; try done.
  - intros id' Hi. apply H0. by apply filter_In in Hi as [? _].
  - rewrite Hb. change (pendingUpdates (store (settle id p))) with (map_delete id (pendingUpdates (store p))). lia.
  - rewrite Hb. change (pendingUpdates (store (settle id p))) with (map_delete id (pendingUpdates (store p))). split; [lia|]. destruct H2 as [_ [H2|H2]]; [left | right]; lia.
  - by apply map_delete_NoDup.
  - intros id' u' [Hi _]%map_delete_In; [|done]. by eapply H4.
  - intros id' u' u'' [Hi _]%map_delete_In; [|done]. by apply H6.
  - intros e Hed. destruct (H8 e Hed) as [Hc Ho]. split; [done|]. destruct Ho as [?|[?|[(id' & u' & Hi & Hcov)|?]]]; auto.
    right. destruct (decide (id' = id)) as [->|Hne].
    + left. exists u. split; [done|]. destruct (H4 _ _ Hi) as (n & _ & En). by rewrite <- (H6 _ _ _ Hi (He n En)).
    + right. left. exists id', u'. split; [|done]. apply map_delete_In; [done | split; done].
Qed.

(** *** The events keep the invariant *)

Lemma flush_loop_wire s l p : incl (wire (store p)) (wire (store (flush_loop s l p))).
Proof.
  revert p. induction l as [|[id u] l IH]; intros p; cbn [flush_loop]; [by destruct (oversized (store p))|].
  destruct (has _ _); [apply IH|]. destruct (_ <? _); [done|]. destruct (_ <? _); [unfold defer_oversized; by destruct (oversized (store p))|].
  intros e He. apply IH. unfold send_update. rewrite (proj1 (transmit_parts _ _ _)). by right.
Qed.

Lemma flush_wire p : incl (wire (store p)) (wire (store (flushPendingUpdates p))).
Proof.
  unfold flushPendingUpdates. destruct (live_open p) as [s|]; [|done]. destruct (_ || _); [done|]. destruct (_ <? _); [done|].
  intros e He. apply flush_loop_wire. cbn. unfold derive. by destruct (deferredUpdate _ && _).
Qed.

Lemma flush_loop_edited s l p : edited (store (flush_loop s l p)) = edited (store p).
Proof.
  revert p. induction l as [|[id u] l IH]; intros p; cbn [flush_loop]; [by destruct (oversized (store p))|].
  destruct (has _ _); [apply IH|]. destruct (_ <? _); [done|]. destruct (_ <? _); [unfold defer_oversized; by destruct (oversized (store p))|].
  rewrite IH. unfold send_update. by rewrite (proj1 (transmit_parts _ _ _)).
Qed.

Lemma flush_edited p : edited (store (flushPendingUpdates p)) = edited (store p).
Proof.
  unfold flushPendingUpdates. destruct (live_open p) as [s|]; [|done]. destruct (_ || _); [done|]. destruct (_ <? _); [done|].
  rewrite flush_loop_edited. cbn. unfold derive. by destruct (deferredUpdate _ && _).
Qed.

Lemma setReadOnly_wf b p : wf p -> wf (setReadOnly b p) /\ incl (wire (store p)) (wire (store (setReadOnly b p))).
Proof.
  intros Hw. unfold setReadOnly. destruct (Bool.eqb _ b); [done|]. destruct b; [done|]. split; [by apply collab_flush_wf, (unsent_wf _ _ (store p))|].
  exact (flush_wire (act (OAccess false) (on_store (set_sentUpdates []) (on_flags (set_readOnly false) p)))).
Qed.

Definition honest_text (w : list (string * bytes)) (id data : string) : Prop :=
  match base64ToBytes data with Some u => gapfree u /\ echoes w id u | None => True end.
Definition honest_state (data : string) : Prop := match base64ToBytes data with Some u => gapfree u | None => True end.

Lemma apply_text_wf data p q t : wf p -> honest_state data -> apply_text data p = (q, t) ->
  wf q /\ wire (store q) = wire (store p) /\ (t = false -> exists u, base64ToBytes data = Some u /\ In u (received (store q))).
Proof.
  unfold apply_text, honest_state. intros Hw Hg. destruct (base64ToBytes data) as [u|]; [|intros [= <- <-]; done].
  intros Ha. destruct (server_update_wf u p q t Hw Hg Ha) as (H1 & H2 & H3). split; [done|]. split; [done|]. intros Ht. exists u. auto.
Qed.

Lemma sync_updates_wf l p q t : wf p -> Forall (fun e => honest_text (wire (store p)) e.1 e.2) l -> sync_updates l p = (q, t) -> wf q.
Proof.
  revert p. induction l as [|[id data] l IH]; intros p Hw Hl; cbn [sync_updates]; [by intros [= <- <-]|].
  apply Forall_cons in Hl as [Hd Hl]. destruct (apply_text data p) as [p1 t1] eqn:Ea.
  assert (Hst : honest_state data) by (unfold honest_text, honest_state in *; cbn in Hd; destruct (base64ToBytes data); [apply Hd | done]).
  destruct (apply_text_wf data p p1 t1 Hw Hst Ea) as (H1 & H2 & H3).
  destruct t1; [intros [= <- <-]; done|]. destruct (H3 eq_refl) as (u & Eu & Hu). apply IH.
  - apply (settle_wf id u); [done | done |]. unfold honest_text in Hd. cbn in Hd. rewrite Eu in Hd. rewrite H2. apply Hd.
  - change (wire (store (settle id p1))) with (wire (store p1)). by rewrite H2.
Qed.

Lemma sendAwareness_parts l p : store (sendAwarenessUpdate l p) = store p /\ flags (sendAwarenessUpdate l p) = flags p.
Proof. unfold sendAwarenessUpdate, send_cursors. destruct l; [done|]. destruct (live_open p); [|done]. by rewrite !(proj1 (transmit_parts _ _ _)), !(proj2 (transmit_parts _ _ _)). Qed.

Lemma sendAwareness_wf l p : wf (sendAwarenessUpdate l p) <-> wf p.
Proof. unfold wf, gone. destruct (sendAwareness_parts l p) as [-> ->]. done. Qed.

Lemma set_local_wf field p : wf (set_local field p) <-> wf p.
Proof. unfold set_local. destruct (destroyed (flags p)); [done|]. by rewrite sendAwareness_wf. Qed.

Lemma handle_sync_wf cs l more ro p :
  wf p -> (forall c, cs = Some c -> honest_state c) -> Forall (fun e => honest_text (wire (store p)) e.1 e.2) l -> wf (handle_sync cs l more ro p).
Proof.
  intros Hw Hc Hl. destruct (setReadOnly_wf ro p Hw) as [Hw1 Hi]. unfold handle_sync. cbv zeta.
  set (p2 := on_flags _ (setReadOnly ro p)). assert (Hw2 : wf p2) by exact Hw1.
  assert (Hl2 : Forall (fun e => honest_text (wire (store p2)) e.1 e.2) l).
  { eapply Forall_impl; [exact Hl|]. intros [id d]. unfold honest_text. cbn. destruct (base64ToBytes d); [|done]. intros [Hg He]. split; [done|]. intros n En. by apply Hi, (He n). }
  match goal with |- context [match ?a with (_, _) => _ end] => destruct a as [p3 t3] eqn:Ea end.
  assert (H3 : wf p3 /\ wire (store p3) = wire (store p2)).
  { destruct cs as [c|]; [|injection Ea as <- <-; done]. destruct (truthy c); [|injection Ea as <- <-; done].
    destruct (apply_text_wf c p2 p3 t3 Hw2 (Hc c eq_refl) Ea) as (? & ? & _). done. }
  destruct H3 as [Hw3 E3]. destruct t3; [done|]. destruct (sync_updates l p3) as [p4 t4] eqn:Es.
  assert (Hw4 : wf p4) by (eapply sync_updates_wf; [done | by rewrite E3 | done]). destruct t4; [done|]. destruct more; [done|].
  change (wf (sendAwarenessUpdate [clientID] (flushPendingUpdates (on_flags (set_synced true) p4)))). rewrite sendAwareness_wf. by apply collab_flush_wf.
Qed.

Lemma clear_wf h p : wf (clear h p) <-> wf p.
Proof. by destruct h. Qed.

Lemma close_wf s p : wf (close s p) <-> wf p.
Proof. unfold close. destruct (_ || _); [|done]. apply (wf_update_socket s _ p). Qed.

Lemma close_socket_wf p : wf (close_socket p) <-> wf p.
Proof. unfold close_socket. destruct (socket (net p)); [apply close_wf | done]. Qed.

Lemma goodbye_wf p : wf (say_goodbye p) <-> wf p.
Proof. unfold say_goodbye, send_cursors. destruct (live_open p); [|done]. unfold transmit. rewrite wf_update_socket. done. Qed.

Lemma unsync_wf p : wf p -> wf (unsync p).
Proof. intros Hw. by apply (unsent_wf (gone p) none (store p)). Qed.

Lemma stop_wf p : wf p -> wf (stop p).
Proof.
  intros Hw. unfold stop. destruct (started (flags p)); [|done]. cbn [negb]. cbv zeta.
  match goal with |- wf (emit _ (on_net _ ?q)) => change (wf q) end.
  rewrite close_socket_wf, goodbye_wf. unfold clear_timer. rewrite !clear_wf. apply unsync_wf. by rewrite clear_wf.
Qed.

Lemma connect_wf p : wf (connect p) <-> wf p.
Proof.
  unfold connect. destruct (_ || _); [done|]. cbv zeta. unfold clear_timer.
  match goal with |- wf (arm _ _ ?q) <-> _ => change (wf q <-> wf p) end. by rewrite clear_wf.
Qed.

Lemma gone_wf g ok x : wf_store g ok x -> wf_store true none x.
Proof. intros [H0 H1 H2 H3 H4 H5 H6 H7 H8]. split; try done. intros e He. destruct (H8 e He). auto. Qed.

Lemma ok_wf g (ok ok' : Edit -> Prop) x : wf_store g ok x -> (forall e, ok e -> ok' e) -> wf_store g ok' x.
Proof. intros [H0 H1 H2 H3 H4 H5 H6 H7 H8] Hi. split; try done. intros e He. destruct (H8 e He) as [Hc [?|[?|[?|[?|?]]]]]; split; auto 6. Qed.

Lemma start_wf p : wf p -> wf (start p).
Proof.
  intros Hw. unfold start. destruct (_ || revoked (flags p)); [done|]. cbv zeta.
  set (p2 := if getLocalState _ then _ else _). assert (Hw2 : wf p2) by (subst p2; destruct (getLocalState _); [|rewrite set_local_wf]; exact Hw).
  destruct (hidden _); [done|]. by rewrite connect_wf.
Qed.

Lemma destroy_wf p : wf p -> wf (destroy p).
Proof.
  intros Hw. unfold destroy. destruct (destroyed (flags p)) eqn:Ed; [done|]. cbv zeta.
  set (p2 := on_aw destroyAwareness _).
  assert (Hw2 : wf p2) by (apply (gone_wf (gone (stop p)) none (store (stop p))); by apply stop_wf).
  assert (Hg : gone (close_socket p2) = true).
  { unfold close_socket, close, to_state, update_socket. by repeat case_match. }
  apply close_socket_wf in Hw2. unfold wf in *. change (wf_store (gone (close_socket p2)) none
    (set_sentUpdates [] (set_serverClocks [] (set_deferredUpdate false (drop_pending (store (close_socket p2))))))).
  rewrite Hg in *. destruct (drop_wf true none _ false Hw2 (or_introl eq_refl)) as [H0 H1 H2 H3 H4 H5 H6 H7 H8]. split; try done.
  intros c k Hk. unfold clock_of in Hk. cbn in Hk. lia.
Qed.

Lemma onclose_wf s p : wf p -> wf (onclose s p).
Proof.
  intros Hw. unfold onclose. destruct (_ && negb _); [done|]. cbv zeta.
  match goal with |- context [unsync ?q] => assert (Hw1 : wf q) by (by destruct (socket (net p)) as [s'|]; [destruct (Nat.eqb s' s)|]) end.
  apply unsync_wf in Hw1. destruct (_ && _); exact Hw1.
Qed.

Lemma visibility_wf p : wf p -> wf (onVisibilityChange p).
Proof.
  intros Hw. unfold onVisibilityChange. destruct (_ || _); [done|]. cbv zeta. unfold clear_timer.
  assert (Hw1 : wf (clear (hiddenTimer (net p)) p)) by (by rewrite clear_wf). destruct (hidden _); [exact Hw1|]. destruct (negb _); [done|]. by rewrite connect_wf.
Qed.

Lemma suspend_wf p : wf p -> wf (suspendWhenHidden p).
Proof.
  intros Hw. unfold suspendWhenHidden. destruct (_ || negb (hidden _)); [done|]. destruct (unsent p); [done|]. cbv zeta.
  set (p2 := unsync _). assert (Hw2 : wf p2) by (subst p2; apply unsync_wf; unfold clear_timer; by rewrite !clear_wf).
  destruct (socket (net p2)); [change (wf (close n (on_net (set_socket None) (say_goodbye p2)))); rewrite close_wf|]; by apply goodbye_wf.
Qed.

(** What is asked of the environment: the server sends updates without gaps and gives back what it got; a local transaction only
    adds to the document and its update holds it. *)
Definition honest (p : Provider) (i : Input) : Prop :=
  match i with
  | IText _ (MSync _ cs l _ _) => (forall c, cs = Some c -> honest_state c) /\ Forall (fun e => honest_text (wire (store p)) e.1 e.2) l
  | IBinary _ raw =>
      match Frame.decodeFrame raw with
      | Some frame => Frame.kind frame = Frame.updateFrame -> gapfree (Frame.payload frame) /\ echoes (wire (store p)) (Frame.updateId frame) (Frame.payload frame)
      | None => True
      end
  | ILocal d update edits => (forall e, contains (doc (store p)) e -> contains d e) /\ Forall (fun e => contains d e /\ covers update e) edits
  | _ => True
  end.

Lemma text_wf s m p : wf p -> honest p (IText s m) -> wf (handleTextMessage m p).
Proof.
  intros Hw Hh. destruct m as [d|d|d b|d|d cs l more ro|]; cbn [handleTextMessage]; try (destruct (d =s docId); [|done]).
  - change (wf (stop (on_flags (set_conflicted true) p))). by apply stop_wf.
  - match goal with |- wf (emit _ (forget_others ?q)) => change (wf q) end. apply stop_wf. unfold wf, gone. cbn. rewrite orb_true_r.
    apply (drop_wf true none (store p) false); [by apply (gone_wf (gone p) none) | by left].
  - by apply setReadOnly_wf.
  - by apply setReadOnly_wf.
  - destruct Hh as [Hc Hl]. by apply handle_sync_wf.
  - done.
Qed.

Lemma binary_wf s raw p : wf p -> honest p (IBinary s raw) -> wf (handleBinaryMessage raw p).
Proof.
  intros Hw Hh. unfold handleBinaryMessage. cbn [honest] in Hh. destruct (Frame.decodeFrame raw) as [fr|]; [|done]. destruct (negb _); [done|].
  destruct (Frame.kind fr =? Frame.updateFrame) eqn:Ek; [|destruct (Frame.kind fr =? Frame.awarenessFrame); exact Hw]. apply Z.eqb_eq in Ek. destruct (Hh Ek) as [Hg He].
  destruct (applyServerUpdate _ p) as [p1 t] eqn:Ea. destruct (server_update_wf _ _ _ _ Hw Hg Ea) as (H1 & H2 & H3). destruct t; [done|].
  apply collab_flush_wf. destruct (truthy _); [|done]. eapply settle_wf; [done | by apply H3 | by rewrite H2].
Qed.

Lemma local_wf d u edits p : wf p -> honest p (ILocal d u edits) -> wf (handle (ILocal d u edits) p).
Proof.
  intros Hw [Hd He]. cbn [handle]. cbv zeta. set (p1 := on_store _ p).
  assert (Hw1 : wf_store (gone p1) (fun e => In e edits) (store p1)).
  { destruct Hw as [H0 H1 H2 H3 H4 H5 H6 H7 H8]. split; try done. cbn. intros e [Hn|Ho]%in_app_iff.
    - split; [|auto 6]. by apply (proj1 (List.Forall_forall _ _) He e Hn).
    - destruct (H8 e Ho) as [Hc Hs]. split; [by apply Hd|]. destruct Hs as [?|[?|[?|[?|[]]]]]; auto. }
  destruct (destroyed (flags p1)) eqn:Ed; [unfold wf, gone in *; rewrite Ed in *; by eapply gone_wf|].
  unfold onDocumentUpdate. apply queue_wf. eapply ok_wf; [exact Hw1|]. intros e Hn.
  destruct (proj1 (List.Forall_forall _ _) He e Hn) as [Hc Hcov]. destruct (_ && _); [|done].
  destruct e; [apply encode_insert | apply encode_delete]; try done. unfold clock_of. cbn. lia.
Qed.

Lemma collab_handle_wf i p : wf p -> honest p i -> wf (handle i p).
Proof.
  intros Hw Hh. destruct i as [| | |ids|s|s m|s raw|s|s|s n|h|b|d u edits|a l]; cbn [handle].
  - by apply start_wf.
  - by apply stop_wf.
  - by apply destroy_wf.
  - exact Hw.
  - destruct (is_state _ _ _); [|done]. apply (wf_update_socket s _ p). exact Hw.
  - destruct (is_state _ _ _); [by apply (text_wf s) | done].
  - destruct (is_state _ _ _); [by apply (binary_wf s) | done].
  - by apply close_wf.
  - destruct (is_state _ _ _); [done|]. apply onclose_wf. by apply wf_update_socket.
  - by apply wf_update_socket.
  - unfold fire. destruct (map_get h (timers (net p))) as [[| |s]|]; [| | |done].
    + by apply connect_wf, clear_wf.
    + by apply suspend_wf, clear_wf.
    + unfold heartbeat. destruct (is_state _ _ _); [|done]. by apply collab_flush_wf, set_local_wf.
  - destruct (listening _); [by apply visibility_wf | exact Hw].
  - by apply local_wf.
  - destruct (destroyed _); [exact Hw|]. by apply sendAwareness_wf.
Qed.

Definition step (p q : Provider) : Prop := exists i, honest p i /\ q = handle i p.
Definition reachable (d : Doc) (a : Aw) (hidden_ : bool) : Provider -> Prop := rtc step (new_provider d a hidden_).

Lemma collab_reachable_wf d a h p : reachable d a h p -> wf p.
Proof.
  intros Hr. refine (rtc_ind_r wf (new_provider d a h) _ _ p Hr); [|intros q q' _ (i & Hh & ->) IH; by apply collab_handle_wf].
  split; cbn; try done; [split; [lia | left; lia] | constructor | intros c k Hk; unfold clock_of in Hk; cbn in Hk; lia].
Qed.
Lemma reconnect_delay_bounds n : 0 <= n -> 400 <= reconnect_delay n <= 10000.
Proof. intros Hn. unfold reconnect_delay. pose proof (Z.pow_pos_nonneg 2 n ltac:(lia) Hn). lia. Qed.

(** *** A refused provider is silent *)

(** The fields that decide whether anything is sent. *)
Definition shape (p : Provider) : (bool * bool * bool * bool) * option nat :=
  (started (flags p), destroyed (flags p), conflicted (flags p), revoked (flags p), socket (net p)).

Definition refused (p : Provider) : bool := destroyed (flags p) || conflicted (flags p) || revoked (flags p).

Record wf_shape (p : Provider) : Prop := {
  ws_socket : started (flags p) = false -> socket (net p) = None;
  ws_refused : refused p = true -> started (flags p) = false }.

Lemma wf_shape_eq p q : shape q = shape p -> wf_shape p -> wf_shape q.
Proof. unfold shape. intros [= E1 E2 E3 E4 E5] [H1 H2]. unfold refused in *. split; unfold refused; rewrite ?E1, ?E2, ?E3, ?E4, ?E5; done. Qed.

Lemma update_socket_shape s g p : shape (update_socket s g p) = shape p.
Proof. unfold update_socket. by destruct (map_get s (sockets (net p))). Qed.

Lemma flush_loop_shape s l p : shape (flush_loop s l p) = shape p.
Proof.
  revert p. induction l as [|[id u] l IH]; intros p; cbn [flush_loop]; [by destruct (oversized (store p))|].
  destruct (has _ _); [apply IH|]. destruct (_ <? _); [done|]. destruct (_ <? _); [unfold defer_oversized; by destruct (oversized (store p))|].
  rewrite IH. unfold send_update, transmit. by rewrite update_socket_shape.
Qed.

Lemma flush_shape p : shape (flushPendingUpdates p) = shape p.
Proof.
  unfold flushPendingUpdates. destruct (live_open p) as [s|]; [|done]. destruct (_ || _); [done|]. destruct (_ <? _); [done|]. by rewrite flush_loop_shape.
Qed.

Lemma sendAwareness_shape l p : shape (sendAwarenessUpdate l p) = shape p.
Proof. unfold sendAwarenessUpdate, send_cursors. destruct l; [done|]. destruct (live_open p); [|done]. unfold transmit. by rewrite update_socket_shape. Qed.

Lemma set_local_shape field p : shape (set_local field p) = shape p.
Proof. unfold set_local. destruct (destroyed _); [done|]. by rewrite sendAwareness_shape. Qed.

Lemma clear_shape h p : shape (clear h p) = shape p.
Proof. by destruct h. Qed.

Lemma close_shape s p : shape (close s p) = shape p.
Proof. unfold close. destruct (_ || _); [|done]. exact (update_socket_shape s _ p). Qed.

Lemma close_socket_shape p : shape (close_socket p) = shape p.
Proof. unfold close_socket. destruct (socket (net p)); [apply close_shape | done]. Qed.

Lemma goodbye_shape p : shape (say_goodbye p) = shape p.
Proof. unfold say_goodbye, send_cursors. destruct (live_open p); [|done]. unfold transmit. by rewrite update_socket_shape. Qed.

Lemma apply_shape u p : shape (applyServerUpdate u p).1 = shape p.
Proof. unfold applyServerUpdate. destruct (applyUpdate _ _); [|done]. by destruct (parseUpdateMeta u). Qed.

Lemma apply_text_shape data p : shape (apply_text data p).1 = shape p.
Proof. unfold apply_text. destruct (base64ToBytes data); [apply apply_shape | done]. Qed.

Lemma sync_updates_shape l p : shape (sync_updates l p).1 = shape p.
Proof.
  revert p. induction l as [|[id data] l IH]; intros p; cbn [sync_updates]; [done|]. pose proof (apply_text_shape data p) as Ha.
  destruct (apply_text data p) as [p1 []]; [done|]. by rewrite IH.
Qed.

Lemma setReadOnly_shape b p : shape (setReadOnly b p) = shape p.
Proof. unfold setReadOnly. destruct (Bool.eqb _ b); [done|]. destruct b; [done|]. by rewrite flush_shape. Qed.

Lemma handle_sync_shape cs l more ro p : shape (handle_sync cs l more ro p) = shape p.
Proof.
  unfold handle_sync. cbv zeta. rewrite <- (setReadOnly_shape ro p). set (p2 := on_flags _ (setReadOnly ro p)).
  change (shape (setReadOnly ro p)) with (shape p2).
  match goal with |- context [match ?a with (_, _) => _ end] => assert (Ha : shape a.1 = shape p2) end.
  { destruct cs as [c|]; [|done]. destruct (truthy c); [apply apply_text_shape | done]. }
  match goal with |- context [match ?a with (_, _) => _ end] => destruct a as [p3 []]; [done|] end.
  pose proof (sync_updates_shape l p3) as Hs. destruct (sync_updates l p3) as [p4 []]; [by rewrite <- Ha|]. rewrite <- Ha. cbn [fst] in *. rewrite <- Hs.
  destruct more; [done|]. change (shape (sendAwarenessUpdate [clientID] (flushPendingUpdates (on_flags (set_synced true) p4))) = shape p4).
  by rewrite sendAwareness_shape, flush_shape.
Qed.

(** [stop] leaves the provider stopped, without a socket. *)
Lemma stop_shape p : (started (flags p) = false -> socket (net p) = None) ->
  shape (stop p) = (false, destroyed (flags p), conflicted (flags p), revoked (flags p), None).
Proof.
  intros Hw. unfold stop. destruct (started (flags p)) eqn:Es; cbn [negb]; [|unfold shape; by rewrite Es, Hw].
  cbv zeta. unfold clear_timer. set (p1 := on_flags (fun f => set_suspended false (set_started false f)) p).
  match goal with |- shape (emit _ (on_net _ ?q)) = _ => assert (E : shape q = shape p1) end.
  { rewrite close_socket_shape, goodbye_shape, !clear_shape. match goal with |- shape (unsync ?q) = _ => change (shape q = shape p1) end. by rewrite clear_shape. }
  match goal with |- shape (emit _ (on_net _ ?q)) = _ => generalize dependent q end. intros q E. unfold shape in E |- *. cbn in *. congruence.
Qed.

Lemma arm_shape t keep p : (forall h n, socket (keep h n) = socket n) -> shape (arm t keep p) = shape p.
Proof. intros Hk. unfold shape, arm. cbn. by rewrite Hk. Qed.

Lemma connect_shape p : wf_shape p -> wf_shape (connect p) /\ (started (flags p) = false -> connect p = p).
Proof.
  intros Hw. split; [|intros E; unfold connect; rewrite E; by rewrite orb_true_r].
  unfold connect. destruct (destroyed (flags p)) eqn:Ed; [done|]. destruct (started (flags p)) eqn:Es; [|done]. cbn [orb negb]. cbv zeta.
  unfold clear_timer. match goal with |- wf_shape (arm _ _ (clear ?h ?q)) => assert (E : shape (arm (THeartbeat (handles (net p))) set_heartbeatTimer (clear h q)) = shape q) end.
  { rewrite arm_shape by done. by rewrite clear_shape. }
  apply (wf_shape_eq _ _ E). split; cbn; [by rewrite Es | by apply (ws_refused p)].
Qed.

(** After an event the invariant holds and a refusal stays one. *)
Definition follows (p q : Provider) : Prop := wf_shape q /\ (refused p = true -> refused q = true).

Lemma follows_same p q : wf_shape p -> shape q = shape p -> follows p q.
Proof. intros Hw E. split; [by apply (wf_shape_eq p)|]. unfold shape in E. injection E as E1 E2 E3 E4 E5. unfold refused. by rewrite E2, E3, E4. Qed.

Lemma follows_connect p q : wf_shape p -> shape q = shape p -> follows p (connect q).
Proof.
  intros Hw E. destruct (follows_same p q Hw E) as [Hq Hr]. destruct (connect_shape q Hq) as [H1 H2]. split; [done|].
  intros Hp. rewrite H2; [by apply Hr|]. by apply ws_refused, Hr.
Qed.

Lemma follows_stopped p q b1 b2 b3 : shape q = (false, b1, b2, b3, None) -> (refused p = true -> b1 || b2 || b3 = true) -> follows p q.
Proof. unfold shape. intros [= E1 E2 E3 E4 E5] Hr. split; [by split|]. unfold refused at 2. by rewrite E2, E3, E4. Qed.

Lemma start_follows p : wf_shape p -> follows p (start p).
Proof.
  intros Hw. unfold start. destruct (destroyed (flags p)) eqn:Ed; [by apply follows_same|]. destruct (started (flags p)) eqn:Es; [by apply follows_same|].
  destruct (conflicted (flags p)) eqn:Ec; [by apply follows_same|]. destruct (revoked (flags p)) eqn:Er; [by apply follows_same|]. cbn [orb]. cbv zeta.
  set (p2 := if getLocalState _ then _ else _).
  assert (E2 : shape p2 = (true, false, false, false, socket (net p))).
  { subst p2. transitivity (shape (on_flags (set_started true) p)); [destruct (getLocalState _); [done | by rewrite set_local_shape]|]. unfold shape. cbn. by rewrite Ed, Ec, Er. }
  generalize dependent p2. intros p2 E2. assert (Hn : refused p = false) by (unfold refused; by rewrite Ed, Ec, Er).
  assert (Hp2 : wf_shape p2) by (unfold shape in E2; injection E2 as E1 E3 E4 E5 E6; split; [by rewrite E1 | unfold refused; by rewrite E3, E4, E5]).
  split; [|by rewrite Hn]. destruct (hidden _); [|apply connect_shape]; by apply (wf_shape_eq p2).
Qed.

Lemma destroy_follows p : wf_shape p -> follows p (destroy p).
Proof.
  intros Hw. unfold destroy. destruct (destroyed (flags p)) eqn:Ed; [by apply follows_same|]. cbv zeta.
  match goal with |- follows _ (emit _ (on_applied _ (on_store _ ?q))) =>
    assert (E : shape q = (false, true, conflicted (flags p), revoked (flags p), None)); [|apply (follows_stopped p _ true (conflicted (flags p)) (revoked (flags p))); [exact E | done]] end.
  rewrite close_socket_shape. pose proof (stop_shape p (ws_socket _ Hw)) as E. unfold shape in E |- *. cbn in *. injection E as -> _ -> -> ->. done.
Qed.

Lemma text_follows m p : wf_shape p -> follows p (handleTextMessage m p).
Proof.
  intros Hw. pose proof (ws_socket p Hw) as Hs.
  destruct m as [d|d|d b|d|d cs l more ro|]; cbn [handleTextMessage]; try (destruct (d =s docId); [|by apply follows_same]).
  - apply (follows_stopped p _ (destroyed (flags p)) true (revoked (flags p))); [exact (stop_shape (on_flags (set_conflicted true) p) Hs) | intros _; by rewrite orb_true_r].
  - apply (follows_stopped p _ (destroyed (flags p)) (conflicted (flags p)) true); [|intros _; by rewrite orb_true_r].
    exact (stop_shape (on_store (fun x => set_deferredUpdate false (drop_pending x)) (on_flags (set_revoked true) p)) Hs).
  - by apply follows_same, setReadOnly_shape.
  - by apply follows_same, setReadOnly_shape.
  - by apply follows_same, handle_sync_shape.
  - by apply follows_same.
Qed.

Lemma binary_shape raw p : shape (handleBinaryMessage raw p) = shape p.
Proof.
  unfold handleBinaryMessage. destruct (Frame.decodeFrame raw) as [fr|]; [|done]. destruct (negb _); [done|].
  destruct (Frame.kind fr =? Frame.updateFrame); [|by destruct (Frame.kind fr =? Frame.awarenessFrame)].
  pose proof (apply_shape (Frame.payload fr) p) as E. destruct (applyServerUpdate _ p) as [p1 []]; [done|]. rewrite flush_shape. by destruct (truthy _).
Qed.

(** A lost, hidden or closed socket: the handle goes, nothing else. *)
Lemma follows_unset p q : wf_shape p -> shape q = (started (flags p), destroyed (flags p), conflicted (flags p), revoked (flags p), None) -> follows p q.
Proof.
  intros Hw. unfold shape. intros [= E1 E2 E3 E4 E5]. split; [split; [done|]|]; unfold refused in *; rewrite ?E1, ?E2, ?E3, ?E4; [by apply ws_refused | done].
Qed.

Lemma onclose_follows s p : wf_shape p -> follows p (onclose s p).
Proof.
  intros Hw. unfold onclose. destruct (socket (net p)) as [s'|] eqn:Es; cbn [isSome andb negb].
  - destruct (Nat.eqb s' s); cbn [negb]; [|by apply follows_same]. destruct (_ && negb _); by apply follows_unset.
  - cbv zeta. destruct (_ && negb _); (apply follows_unset; [done|]); unfold shape; cbn; by rewrite Es.
Qed.

Lemma suspend_follows p : wf_shape p -> follows p (suspendWhenHidden p).
Proof.
  intros Hw. unfold suspendWhenHidden. destruct (_ || negb (hidden _)); [by apply follows_same|]. destruct (unsent p); [by apply follows_same|]. cbv zeta.
  apply follows_unset; [done|]. unfold clear_timer. set (p2 := unsync _).
  assert (E2 : shape p2 = shape p).
  { subst p2. match goal with |- shape (unsync ?q) = _ => change (shape q = shape p) end. by rewrite !clear_shape. }
  assert (E : shape (on_net (set_socket None) (say_goodbye p2)) = (started (flags p), destroyed (flags p), conflicted (flags p), revoked (flags p), None)).
  { pose proof (goodbye_shape p2) as E. rewrite E2 in E. unfold shape in E |- *. cbn in *. congruence. }
  destruct (socket (net p2)); [rewrite <- E; exact (close_shape n (on_net (set_socket None) (say_goodbye p2))) | exact E].
Qed.

Lemma queue_shape u p : shape (queueDocumentUpdate u p) = shape p.
Proof. unfold queueDocumentUpdate. destruct (_ || _); by rewrite flush_shape. Qed.

Lemma handle_follows i p : wf_shape p -> follows p (handle i p).
Proof.
  intros Hw. destruct i as [| | |ids|s|s m|s raw|s|s|s n|h|b|d u edits|a l]; cbn [handle].
  - by apply start_follows.
  - apply (follows_stopped _ _ _ _ _ (stop_shape p (ws_socket _ Hw))). done.
  - by apply destroy_follows.
  - by apply follows_same.
  - destruct (is_state _ _ _); apply follows_same; try done. exact (update_socket_shape s _ p).
  - destruct (is_state _ _ _); [by apply text_follows | by apply follows_same].
  - destruct (is_state _ _ _); apply follows_same; try done. apply binary_shape.
  - apply follows_same, close_shape; done.
  - destruct (is_state _ _ _); [by apply follows_same|].
    pose proof (update_socket_shape s (fun k => mkSocket CLOSED (bufferedAmount k)) p) as E. fold (to_state CLOSED s p) in E.
    destruct (onclose_follows s (to_state CLOSED s p)) as [H1 H2]; [by apply (wf_shape_eq p)|]. split; [done|]. intros Hr. apply H2.
    by apply (proj2 (follows_same p _ Hw E)).
  - apply follows_same, update_socket_shape; done.
  - unfold fire. destruct (map_get h (timers (net p))) as [[| |s]|]; [by apply follows_connect | | |by apply follows_same].
    + apply (suspend_follows (clear (Some h) p)). by apply (wf_shape_eq p).
    + apply follows_same; [done|]. unfold heartbeat. destruct (is_state _ _ _); [|done]. by rewrite flush_shape, set_local_shape.
  - unfold onVisibilityChange. cbv zeta. destruct (listening _); [|by apply follows_same]. destruct (_ || _); [by apply follows_same|]. unfold clear_timer.
    assert (E : shape (clear (hiddenTimer (net (on_net (set_hidden b) p))) (on_net (set_hidden b) p)) = shape p) by (by rewrite clear_shape).
    destruct (hidden _); [by apply follows_same; [|rewrite arm_shape]|]. destruct (negb _); [by apply follows_same|]. by apply follows_connect.
  - cbv zeta. apply follows_same; [done|]. destruct (destroyed _); [done|]. unfold onDocumentUpdate. by rewrite queue_shape.
  - cbv zeta. apply follows_same; [done|]. destruct (destroyed _); [done|]. by rewrite sendAwareness_shape.
Qed.

(** *** What goes over the wire *)

Lemma flush_idle p : socket (net p) = None -> flushPendingUpdates p = p.
Proof. intros E. unfold flushPendingUpdates, live_open. by rewrite E. Qed.

Lemma shape_socket p q : shape q = shape p -> socket (net q) = socket (net p).
Proof. unfold shape. congruence. Qed.

Lemma update_socket_wire s g p : wire (store (update_socket s g p)) = wire (store p).
Proof. unfold update_socket. by destruct (map_get s (sockets (net p))). Qed.

Lemma set_local_wire field p : wire (store (set_local field p)) = wire (store p).
Proof. unfold set_local. destruct (destroyed _); [done|]. by rewrite (proj1 (sendAwareness_parts _ _)). Qed.

Lemma close_wire s p : wire (store (close s p)) = wire (store p).
Proof. unfold close. destruct (_ || _); [|done]. apply (update_socket_wire s _ p). Qed.

Lemma close_socket_wire p : wire (store (close_socket p)) = wire (store p).
Proof. unfold close_socket. destruct (socket (net p)); [apply close_wire | done]. Qed.

Lemma goodbye_wire p : wire (store (say_goodbye p)) = wire (store p).
Proof. unfold say_goodbye, send_cursors. destruct (live_open p); [|done]. by rewrite (proj1 (transmit_parts _ _ _)). Qed.

Lemma clear_wire h p : wire (store (clear h p)) = wire (store p).
Proof. by destruct h. Qed.

Lemma stop_wire p : wire (store (stop p)) = wire (store p).
Proof.
  unfold stop. destruct (negb _); [done|]. cbv zeta. unfold clear_timer.
  match goal with |- wire (store (emit _ (on_net _ ?q))) = _ => change (wire (store q) = wire (store p)) end.
  rewrite close_socket_wire, goodbye_wire, !clear_wire.
  match goal with |- wire (store (unsync ?q)) = _ => change (wire (store q) = wire (store p)) end. by rewrite clear_wire.
Qed.

Lemma connect_wire p : wire (store (connect p)) = wire (store p).
Proof.
  unfold connect. destruct (_ || _); [done|]. cbv zeta. unfold clear_timer.
  match goal with |- wire (store (arm _ _ ?q)) = _ => change (wire (store q) = wire (store p)) end. by rewrite clear_wire.
Qed.

Lemma suspend_wire p : wire (store (suspendWhenHidden p)) = wire (store p).
Proof.
  unfold suspendWhenHidden. destruct (_ || negb (hidden _)); [done|]. destruct (unsent p); [done|]. cbv zeta. unfold clear_timer.
  set (p2 := unsync _). assert (E : wire (store (say_goodbye p2)) = wire (store p)).
  { rewrite goodbye_wire. subst p2. match goal with |- wire (store (unsync ?q)) = _ => change (wire (store q) = wire (store p)) end. by rewrite !clear_wire. }
  destruct (socket (net p2)); [rewrite <- E; exact (close_wire n (on_net (set_socket None) (say_goodbye p2))) | exact E].
Qed.

Lemma onclose_wire s p : wire (store (onclose s p)) = wire (store p).
Proof.
  unfold onclose. destruct (_ && negb _); [done|]. cbv zeta.
  destruct (negb (destroyed _) && _ && _); by destruct (match socket (net p) with Some _ => _ | None => _ end).
Qed.

Lemma apply_wire u p : wire (store (applyServerUpdate u p).1) = wire (store p).
Proof. unfold applyServerUpdate. destruct (applyUpdate _ _); [|done]. by destruct (parseUpdateMeta u). Qed.

Lemma apply_text_wire data p : wire (store (apply_text data p).1) = wire (store p).
Proof. unfold apply_text. destruct (base64ToBytes data); [apply apply_wire | done]. Qed.

Lemma sync_updates_wire l p : wire (store (sync_updates l p).1) = wire (store p).
Proof.
  revert p. induction l as [|[id data] l IH]; intros p; cbn [sync_updates]; [done|]. pose proof (apply_text_wire data p) as Ha.
  destruct (apply_text data p) as [p1 []]; [done|]. by rewrite IH.
Qed.

Lemma setReadOnly_quiet b p : socket (net p) = None -> wire (store (setReadOnly b p)) = wire (store p).
Proof. intros E. unfold setReadOnly. destruct (Bool.eqb _ b); [done|]. destruct b; [done|]. by rewrite flush_idle. Qed.

Lemma handle_sync_quiet cs l more ro p : socket (net p) = None -> wire (store (handle_sync cs l more ro p)) = wire (store p).
Proof.
  intros Hs. unfold handle_sync. cbv zeta. rewrite <- (setReadOnly_quiet ro p Hs). set (p2 := on_flags _ (setReadOnly ro p)).
  assert (H2 : socket (net p2) = None) by (rewrite <- Hs; exact (shape_socket _ _ (setReadOnly_shape ro p))).
  change (wire (store (setReadOnly ro p))) with (wire (store p2)).
  match goal with |- context [match ?a with (_, _) => _ end] => assert (Ha : shape a.1 = shape p2 /\ wire (store a.1) = wire (store p2)) end.
  { destruct cs as [c|]; [|done]. destruct (truthy c); [split; [apply apply_text_shape | apply apply_text_wire] | done]. }
  match goal with |- context [match ?a with (_, _) => _ end] => destruct a as [p3 []]; [apply Ha|] end. destruct Ha as [Sa Wa]. cbn [fst] in *.
  pose proof (sync_updates_shape l p3) as Ss. pose proof (sync_updates_wire l p3) as Ws. destruct (sync_updates l p3) as [p4 []]; cbn [fst] in *; [by rewrite Ws|].
  rewrite <- Wa, <- Ws. destruct more; [done|].
  change (wire (store (sendAwarenessUpdate [clientID] (flushPendingUpdates (on_flags (set_synced true) p4)))) = wire (store p4)).
  rewrite (proj1 (sendAwareness_parts _ _)), flush_idle; [done|]. change (socket (net p4) = None). rewrite (shape_socket _ _ Ss), (shape_socket _ _ Sa). done.
Qed.

(** Without a socket no event puts an update on the wire. *)
Lemma handle_quiet i p : socket (net p) = None -> wire (store (handle i p)) = wire (store p).
Proof.
  intros Hs. destruct i as [| | |ids|s|s m|s raw|s|s|s n|h|b|d u edits|a l]; cbn [handle].
  - unfold start. destruct (_ || revoked _); [done|]. cbv zeta. set (p2 := if getLocalState _ then _ else _).
    assert (E : wire (store p2) = wire (store p)) by (subst p2; destruct (getLocalState _); [|rewrite set_local_wire]; done).
    destruct (hidden _); [done|]. by rewrite connect_wire.
  - apply stop_wire.
  - unfold destroy. destruct (destroyed _); [done|]. cbv zeta.
    match goal with |- wire (store (emit _ (on_applied _ (on_store _ ?q)))) = _ => change (wire (store q) = wire (store p)) end.
    rewrite close_socket_wire. apply stop_wire.
  - done.
  - destruct (is_state _ _ _); [|done]. apply (update_socket_wire s _ p).
  - destruct (is_state _ _ _); [|done]. destruct m as [d|d|d b|d|d cs l more ro|]; cbn [handleTextMessage]; try (destruct (d =s docId); [|done]).
    + apply (stop_wire (on_flags (set_conflicted true) p)).
    + exact (stop_wire (on_store (fun x => set_deferredUpdate false (drop_pending x)) (on_flags (set_revoked true) p))).
    + by apply setReadOnly_quiet.
    + by apply setReadOnly_quiet.
    + by apply handle_sync_quiet.
    + done.
  - destruct (is_state _ _ _); [|done]. unfold handleBinaryMessage. destruct (Frame.decodeFrame raw) as [fr|]; [|done]. destruct (negb _); [done|].
    destruct (Frame.kind fr =? Frame.updateFrame); [|by destruct (Frame.kind fr =? Frame.awarenessFrame)].
    pose proof (apply_shape (Frame.payload fr) p) as E. pose proof (apply_wire (Frame.payload fr) p) as W.
    destruct (applyServerUpdate _ p) as [p1 []]; [done|]. cbn [fst] in *. apply shape_socket in E. rewrite flush_idle; destruct (truthy _); try done; cbn; congruence.
  - apply close_wire.
  - destruct (is_state _ _ _); [done|]. rewrite onclose_wire. apply update_socket_wire.
  - apply update_socket_wire.
  - unfold fire. destruct (map_get h (timers (net p))) as [[| |s]|]; [by rewrite connect_wire | by rewrite suspend_wire | |done].
    unfold heartbeat. destruct (is_state _ _ _); [|done]. rewrite flush_idle, set_local_wire; [done|]. by rewrite (shape_socket _ _ (set_local_shape _ _)).
  - cbv zeta. destruct (listening _); [|done]. unfold onVisibilityChange. destruct (_ || _); [done|]. cbv zeta. unfold clear_timer. destruct (hidden _).
    + match goal with |- wire (store (arm _ _ ?q)) = _ => change (wire (store q) = wire (store p)) end. by rewrite clear_wire.
    + destruct (negb _); [by rewrite clear_wire|]. rewrite connect_wire. cbn. by rewrite clear_wire.
  - cbv zeta. destruct (destroyed _); [done|]. unfold onDocumentUpdate, queueDocumentUpdate. destruct (_ || _ || _); by rewrite flush_idle.
  - cbv zeta. destruct (destroyed _); [done|]. by rewrite (proj1 (sendAwareness_parts _ _)).
Qed.

Lemma reachable_shape d a h p : reachable d a h p -> wf_shape p.
Proof. intros Hr. refine (rtc_ind_r wf_shape (new_provider d a h) _ _ p Hr); [by split | intros q q' _ (i & _ & ->) IH; by apply handle_follows]. Qed.

(** *** A flush delivers *)

Definition frames (l : list (string * bytes)) : Z := foldr (fun e n => size (update_frame e.1 e.2) + n) 0 l.

(** The socket has room for the frames of [l], and each fits. *)
Definition room (s : nat) (l : list (string * bytes)) (p : Provider) : Prop :=
  buffered s p + frames l <= bufferLimit /\ Forall (fun e => size (update_frame e.1 e.2) <= MAX_COLLABORATION_FRAME_BYTES) l.

Lemma frames_nonneg l : 0 <= frames l.
Proof. induction l as [|e l IH]; [done|]. change (frames (e :: l)) with (size (update_frame e.1 e.2) + frames l). unfold size. lia. Qed.

Lemma has_sent_In id l : has id l = true <-> In id l.
Proof. unfold has. rewrite existsb_exists. split; [intros (x & Hx & ->%String.eqb_eq); done | intros Hi; exists id; split; [done | apply String.eqb_refl]]. Qed.

Lemma send_buffered s id u p : isSome (map_get s (sockets (net p))) = true ->
  buffered s (send_update s id u p) = buffered s p + size (update_frame id u) /\ isSome (map_get s (sockets (net (send_update s id u p)))) = true.
Proof.
  unfold buffered, send_update, transmit, update_socket. cbn [net on_store]. destruct (map_get s (sockets (net p))) as [k|] eqn:E; [|done]. intros _. cbn. by rewrite map_get_set_eq.
Qed.

Lemma flush_loop_sends s l p : isSome (map_get s (sockets (net p))) = true -> room s l p ->
  let q := flush_loop s l p in
  incl (sentUpdates (store p)) (sentUpdates (store q)) /\ (forall id u, In (id, u) l -> In id (sentUpdates (store q)))
  /\ pendingUpdates (store q) = pendingUpdates (store p) /\ deferredUpdate (store q) = deferredUpdate (store p) /\ oversized (store q) = false.
Proof.
  revert p. induction l as [|[id u] l IH]; intros p Hs [Hb Hf]; cbn [flush_loop].
  - destruct (oversized (store p)) eqn:E; cbn; repeat split; done.
  - change (frames ((id, u) :: l)) with (size (update_frame id u) + frames l) in Hb. pose proof (frames_nonneg l) as Hn. assert (Hu : 0 <= size (update_frame id u)) by (unfold size; lia).
    apply Forall_cons in Hf as [Hu2 Hf]. cbn [fst snd] in Hu2. destruct (has id (sentUpdates (store p))) eqn:Eh.
    + destruct (IH p Hs ltac:(split; [lia | done])) as (H1 & H2 & H3). split; [done|]. split; [|done].
      intros id' u' [[= <- <-]|Hi]; [by apply H1, has_sent_In | by eapply H2].
    + rewrite (proj2 (Z.ltb_ge bufferLimit _)) by lia. rewrite (proj2 (Z.ltb_ge MAX_COLLABORATION_FRAME_BYTES _)) by lia.
      destruct (send_buffered s id u p Hs) as [Eb Es]. destruct (IH (send_update s id u p) Es ltac:(split; [rewrite Eb; lia | done])) as (H1 & H2 & H3 & H4 & H5).
      unfold send_update in H1, H3, H4. rewrite (proj1 (transmit_parts _ _ _)) in H1, H3, H4.
      split; [intros x Hx; apply H1; cbn; apply in_app_iff; by left|]. split; [|done].
      intros id' u' [[= <- <-]|Hi]; [apply H1; cbn; apply in_app_iff; right; by left | by eapply H2].
Qed.

Lemma derive_deferred x : deferredUpdate (derive x) = true -> pendingUpdates (derive x) <> [].
Proof. unfold derive. destruct (deferredUpdate x) eqn:Ed; cbn [andb]; [|congruence]. destruct (pendingUpdates x) eqn:Ep; cbn; [done|]. by rewrite Ep. Qed.

(** C6 (local_edits_survive).  Whatever the order of edits, messages, lost connections, restarts, hidden tabs and refusals: as long as the provider is neither
    destroyed nor revoked, each local edit is in the document and is known to the server, or waits in an update of the queue, or the mark says that
    the document holds unsent edits; the acknowledged clocks never pass an item the server has not sent; the queue holds at most 128 updates and a
    megabyte (or one derived update), its byte count is exact, and no frame is larger than the server accepts. *)
Theorem local_edits_survive d a h p :
  reachable d a h p -> gone p = false ->
  let x := store p in
  (forall e, In e (edited x) -> contains (doc x) e /\ (known (received x) e \/ kept (pendingUpdates x) e \/ deferredUpdate x = true))
  /\ (forall c k, (k < clock_of c (serverClocks x))%N -> known (received x) (Insert c k))
  /\ pendingBytes x = total (pendingUpdates x) /\ (length (pendingUpdates x) <= 128)%nat
  /\ (pendingBytes x <= 1024 * 1024 \/ (length (pendingUpdates x) <= 1)%nat)
  /\ (forall id u, In (id, u) (wire x) -> size (update_frame id u) <= MAX_COLLABORATION_FRAME_BYTES).
Proof.
  intros [H0 H1 H2 H3 H4 H5 H6 H7 H8]%collab_reachable_wf Hg x. rewrite Hg in H8.
  split; [intros e He; destruct (H8 e He) as [Hc [?|[?|[?|[?|[]]]]]]; auto; done|].
  split; [done|]. split; [done|]. split; [apply H2|]. split; [apply H2|]. intros id u Hi. by apply (H5 id u).
Qed.

(** Without an open socket, before the document is synced or while the server refuses edits, a flush sends nothing.  Otherwise, when the
    socket has room, a flush sends every update of the queue, and each local edit is then known to the server or on the wire, or it is part of a
    delta that is derived when the updates before it are acknowledged. *)
Theorem flush_delivers d a h p :
  reachable d a h p ->
  let q := flushPendingUpdates p in
  (live_open p = None \/ synced (flags p) = false \/ readOnly (flags p) = true -> q = p)
  /\ forall s, gone p = false -> live_open p = Some s -> synced (flags p) = true -> readOnly (flags p) = false ->
       room s (pendingUpdates (derive (store p))) p ->
       Forall (fun e => In (e.1, e.2) (wire (store q))) (pendingUpdates (store q)) /\ oversized (store q) = false
       /\ (forall e, In e (edited (store p)) ->
             known (received (store q)) e \/ (exists id u, In (id, u) (wire (store q)) /\ covers u e)
             \/ (deferredUpdate (store q) = true /\ pendingUpdates (store q) <> [])).
Proof.
  intros Hr q. pose proof (collab_flush_wf p (collab_reachable_wf _ _ _ _ Hr)) as Hw. fold q in Hw. split.
  { unfold q, flushPendingUpdates. destruct (live_open p); [|done]. intros [?|[-> | ->]]; [done | done | by rewrite orb_true_r]. }
  intros s Hg Hl Hsy Hro [Hb Hf].
  assert (Hs : isSome (map_get s (sockets (net p))) = true).
  { unfold live_open in Hl. destruct (socket (net p)) as [s'|]; [|done]. destruct (is_state OPEN s' p) eqn:Ei; [injection Hl as -> | done].
    unfold is_state in Ei. by destruct (map_get s (sockets (net p))). }
  assert (Eq : q = flush_loop s (pendingUpdates (derive (store p))) (on_store derive p)).
  { unfold q, flushPendingUpdates. rewrite Hl, Hsy, Hro. cbn [negb orb]. rewrite (proj2 (Z.ltb_ge bufferLimit _)); [done|]. pose proof (frames_nonneg (pendingUpdates (derive (store p)))). lia. }
  destruct (flush_loop_sends s (pendingUpdates (derive (store p))) (on_store derive p) Hs (conj Hb Hf)) as (_ & H2 & H3 & H4 & H5).
  rewrite <- Eq in H2, H3, H4, H5. change (store (on_store derive p)) with (derive (store p)) in *.
  assert (Hg' : gone q = false) by (pose proof (flush_shape p) as E; fold q in E; unfold shape in E; injection E as _ E2 _ E4 _; unfold gone in *; by rewrite E2, E4).
  destruct Hw as [W0 W1 W2 W3 W4 W5 W6 W7 W8].
  assert (Hall : forall id u, In (id, u) (pendingUpdates (store q)) -> In (id, u) (wire (store q))).
  { intros id u Hi. destruct (W0 id) as (u' & Hu'); [rewrite H3 in Hi; by eapply H2|]. by rewrite (W6 id u u' Hi Hu'). }
  split; [apply List.Forall_forall; intros [id u] Hi; by apply Hall|]. split; [done|]. intros e He.
  assert (Hed : edited (store q) = edited (store p)) by apply flush_edited.
  rewrite <- Hed in He. destruct (W8 e He) as [_ [?|[?|[(id & u & Hi & Hc)|[Hd|[]]]]]]; [congruence | by left | |].
  - right. left. exists id, u. split; [by apply Hall | done].
  - right. right. split; [done|]. rewrite H3. apply derive_deferred. by rewrite <- H4.
Qed.

(** A provider that was destroyed, whose document conflicts with the server's or whose viewer lost access is stopped, has no socket and stays so:
    whatever happens later, starting again included, it never sends another update. *)
Theorem refused_is_silent d a h p q :
  reachable d a h p -> refused p = true -> rtc step p q ->
  refused q = true /\ started (flags q) = false /\ socket (net q) = None /\ wire (store q) = wire (store p).
Proof.
  intros Hr Hp Hq. pose proof (reachable_shape _ _ _ _ Hr) as Hw. clear Hr.
  assert (G : wf_shape q /\ refused q = true /\ wire (store q) = wire (store p)); [|destruct G as (Hwq & Hrq & Ew); pose proof (ws_refused q Hwq Hrq); split; [done|]; split; [done|]; split; [by apply ws_socket | done]].
  refine (rtc_ind_r (fun q => wf_shape q /\ refused q = true /\ wire (store q) = wire (store p)) p _ _ q Hq); [done|].
  intros r r' _ (i & _ & ->) (Hwr & Hrr & Er). destruct (handle_follows i r Hwr) as [H1 H2]. split; [done|]. split; [by apply H2|].
  rewrite handle_quiet; [done|]. by apply ws_socket, ws_refused.
Qed.

(** Runs of events. *)
Definition run (l : list Input) (p : Provider) : Provider := fold_left (fun p i => handle i p) l p.
Fixpoint honest_run (l : list Input) (p : Provider) : Prop := match l with [] => True | i :: r => honest p i /\ honest_run r (handle i p) end.

Lemma run_steps l p : honest_run l p -> rtc step p (run l p).
Proof. revert p. induction l as [|i l IH]; intros p; cbn; [constructor|]. intros [Hh Hr]. eapply rtc_l; [exists i; split; [exact Hh | reflexivity]|]. by apply IH. Qed.

End Provider.
End Provider.

(** ** A small document

    A document is the list of its edits and an update lists edits in triples of numbers: enough to run the provider. *)

Module Demo.
Import Provider.

Definition enc (e : Edit) : bytes := match e with Insert c k => [0; c; Z.of_N k] | Delete c k => [1; c; Z.of_N k] end.
Fixpoint dec (b : bytes) : list Edit :=
  match b with
  | t :: c :: k :: r => (if t =? 0 then Insert c (Z.to_N k) else Delete c (Z.to_N k)) :: dec r
  | _ => []
  end.

Definition unknown (sv : Clocks) (e : Edit) : bool := match e with Insert c k => (clock_of c sv <=? k)%N | Delete _ _ => true end.

Definition bound (f : N -> N -> N) (shift : N) (l : list Edit) : Clocks :=
  fold_left (fun m e => match e with Insert c k => map_set c (f (k + shift)%N (map_get c m ?? (k + shift)%N)) m | Delete _ _ => m end) l [].

#[export] Instance demo_yjs : Yjs (list Edit) (list Z) := {|
  applyUpdate d u := Some (d ++ dec u);
  encodeStateAsUpdate d sv := flat_map enc (List.filter (unknown sv) d);
  parseUpdateMeta u := (bound N.min 0 (dec u), bound N.max 1 (dec u));
  contains d e := In e d;
  covers u e := In e (dec u);
  clientID := 7;
  getLocalState a := existsb (Z.eqb 7) a;
  setLocalStateField a _ := if existsb (Z.eqb 7) a then a else 7 :: a;
  removeAwarenessStates a l := List.filter (fun c => negb (existsb (Z.eqb c) l)) a;
  getStates a := a;
  encodeAwarenessUpdate _ l := 0 :: l;
  applyAwarenessUpdate a b := a ++ tl b;
  destroyAwareness _ := [] |}.

Lemma dec_enc l : dec (flat_map enc l) = l.
Proof. induction l as [|[c k|c k] l IH]; cbn; [done | |]; by rewrite N2Z.id, IH. Qed.

#[export] Instance demo_laws : YjsLaws (list Edit) (list Z).
Proof.
  split.
  - intros d d' u e [= <-] Hi. apply in_app_iff. by left.
  - intros d sv c k Hi Hk. cbn. rewrite dec_enc. apply filter_In. split; [done|]. by apply N.leb_le.
  - intros d sv c k Hi. cbn. rewrite dec_enc. apply filter_In. by split.
Qed.

Definition uuid (n : nat) : string := Nat.iter n (String "1") "".

Lemma uuid_inj i j : uuid i = uuid j -> i = j.
Proof.
  intros E. assert (L : forall n, String.length (uuid n) = n) by (induction n as [|n IH]; [done | cbn; f_equal; exact IH]). rewrite <- (L i), <- (L j). by rewrite E.
Qed.

Definition Event : Type := @Input (list Edit) (list Z).
Definition first : @Provider (list Edit) (list Z) := new_provider [] [] false.
Definition go : list Event -> @Provider (list Edit) (list Z) := fun l => run "doc" false uuid (fun _ => None) l first.

(** An edit made offline, then the connection and the answer to the join. *)
Definition offline_edit : list Event :=
  [IStart; ILocal [Insert 7 0] [0; 7; 0] [Insert 7 0]; IOpen 0; IText 0 (MSync "doc" None [] false false)].

Lemma offline_honest : honest_run "doc" false uuid (fun _ => None) offline_edit first.
Proof.
  cbn [honest_run offline_edit honest]. split; [done|]. split; [split; [by intros e [] | repeat constructor]|]. split; [done|]. split; [|done]. split; [done | constructor].
Qed.

Lemma local_edits_survive_witness :
  contains (doc (store (go offline_edit))) (Insert 7 0)
  /\ (known (received (store (go offline_edit))) (Insert 7 0) \/ kept (pendingUpdates (store (go offline_edit))) (Insert 7 0)
      \/ deferredUpdate (store (go offline_edit)) = true).
Proof.
  destruct (local_edits_survive "doc" false uuid (fun _ => None) uuid_inj [] [] false (go offline_edit)) as [He _].
  - apply run_steps. exact offline_honest.
  - reflexivity.
  - apply He. vm_compute. left. reflexivity.
Defined.

(** The same run, before the last message was answered by the flush: the state after the document is synced. *)
Lemma flush_delivers_witness :
  Forall (fun e => In (e.1, e.2) (wire (store (flushPendingUpdates "doc" uuid (go offline_edit))))) (pendingUpdates (store (flushPendingUpdates "doc" uuid (go offline_edit))))
  /\ wire (store (flushPendingUpdates "doc" uuid (go offline_edit))) = [("collab_", [0; 7; 0])].
Proof.
  destruct (flush_delivers "doc" false uuid (fun _ => None) uuid_inj [] [] false (go offline_edit)) as [_ Hd]; [apply run_steps; exact offline_honest|].
  split; [|vm_compute; reflexivity]. apply (Hd 0%nat); [vm_compute; reflexivity | vm_compute; reflexivity | vm_compute; reflexivity | vm_compute; reflexivity |].
  split; [vm_compute; discriminate|]. constructor; [vm_compute; discriminate | constructor].
Defined.

(** The viewer loses access; a local edit and a new start follow. *)
Definition lost_access : list Event := offline_edit ++ [IText 0 (MRevoked "doc")].
Definition later : list Event := [ILocal [Insert 7 0; Insert 7 1] [0; 7; 1] [Insert 7 1]; IStart].

Lemma lost_access_honest : honest_run "doc" false uuid (fun _ => None) lost_access first.
Proof.
  cbn [honest_run lost_access offline_edit honest app]. split; [done|]. split; [split; [by intros e [] | repeat constructor]|]. split; [done|].
  split; [split; [done | constructor] | done].
Qed.

Lemma later_honest : honest_run "doc" false uuid (fun _ => None) later (go lost_access).
Proof.
  split; [|done]. cbn [honest]. split; [vm_compute; intros e [<-|[]]; by left|]. constructor; [split; [right; left; done | left; done] | constructor].
Qed.

Lemma refused_is_silent_witness :
  wire (store (run "doc" false uuid (fun _ => None) later (go lost_access))) = wire (store (go lost_access))
  /\ wire (store (go lost_access)) = [("collab_", [0; 7; 0])].
Proof.
  split; [|vm_compute; reflexivity].
  apply (refused_is_silent "doc" false uuid (fun _ => None) [] [] false (go lost_access));
    [exact (run_steps _ _ _ _ _ _ lost_access_honest) | vm_compute; reflexivity | exact (run_steps _ _ _ _ _ _ later_honest)].
Defined.

(** A socket that is slow to close.  The editor is restarted while its old socket is closing; the new connection fails, and then
    the old socket closes: each of them arms a reconnect. *)
Definition slow_close : list Event := [IStart; IOpen 0; IStop; IStart; IClosed 2; IClosed 0; ITimer 4; ITimer 5; IOpen 6; IOpen 8].

(** Both reconnects fire, two sockets join the document, and the first one is lost: it is still open after the provider is destroyed. *)
Theorem socket_leaks :
  is_state OPEN 6 (go slow_close) = true /\ is_state OPEN 8 (go slow_close) = true /\ socket (net (go slow_close)) = Some 8%nat
  /\ is_state OPEN 6 (go (slow_close ++ [IDestroy])) = true /\ destroyed (flags (go (slow_close ++ [IDestroy]))) = true.
Proof. repeat split; reflexivity. Qed.
End Demo.

(** ** The colour of a viewer *)

Definition colors : list string := ["#5e6ad2"; "#d15f64"; "#2f9e76"; "#d78b35"; "#8b5fbf"; "#3388aa"].

Fixpoint color_hash (value : string) (hash : Z) : Z :=
  match value with EmptyString => hash | String c r => color_hash r ((hash * 31 + code c) mod 2 ^ 32) end.

Definition collaborationColor (value : string) : string := nth (Z.to_nat (color_hash value 0 mod 6)) colors "".

(** Every viewer has one of the six colours: the hash stays in 32 bits. *)
Lemma collaborationColor_in value : In (collaborationColor value) colors /\ 0 <= color_hash value 0 < 2 ^ 32.
Proof.
  assert (Hb : forall h, 0 <= h < 2 ^ 32 -> 0 <= color_hash value h < 2 ^ 32).
  { induction value as [|c r IH]; intros h Hh; cbn [color_hash]; [done|]. apply IH, Z.mod_pos_bound. lia. }
  split; [|apply Hb; lia]. unfold collaborationColor. apply nth_In. pose proof (Z.mod_pos_bound (color_hash value 0) 6). unfold colors. cbn [length]. lia.
Qed.
