(* ===== verification/RealtimeCaches.v ===== *)
(** * What the web application does with the stream of events
      (web/src/lib/realtime-event-queue.ts, issue-detail-cache.ts)

    [EventQueue] holds the events that wait to be applied; a newer full replacement of an issue
    takes the place of an older one, and an overflow asks for one fresh snapshot.  [IssueCache.mergeIssueRecords] folds
    incoming issue records into the held ones. *)

From Stdlib Require Import ZArith Lia Bool List.
From stdpp Require Import base gmap list strings relations.
From S2P Require Import Prelude JsString JsMap Json.

Open Scope Z_scope.
Local Set Warnings "-register-all".

(** ** The event queue *)

Module EventQueue.

Record Event := mkEvent { e_id : string; e_type : string; aggregateId : option string; createdAt : string; payload : option json }.

Definition maxEvents : Z := 256.
Definition maxBytes : Z := 4 * 1024 * 1024.

(** [payload?.issue ?? payload?.entity], an object with an identifier and a state. *)
Definition fullIssueReplacement (e : Event) : bool :=
  let get k := match payload e with Some p => match field k p with Some JNull => None | v => v end | None => None end in
  let entity := match get "issue" with Some v => Some v | None => get "entity" end in
  (e_type e =s "issue.updated") && match entity with Some v => isSome (field "identifier" v) && isSome (field "state" v) | None => false end.

Record Queue := mkQueue { items : list (Event * Z); bytes : Z }.

Definition ignored (e : Event) : bool := existsb (String.eqb (e_type e)) ["oauth_token.created"; "api_key.used"; "oauth_authorization.reused"].
Definition is_resync (e : Event) : bool := e_type e =s "resync".
Definition resync (e : Event) : Event := mkEvent (e_id e) "resync" None (createdAt e) None.

(** [findLastIndex]: the items before the last match, the match, and the items behind it. *)
Fixpoint last_match (p : Event * Z -> bool) (l : list (Event * Z)) : option (list (Event * Z) * (Event * Z) * list (Event * Z)) :=
  match l with
  | [] => None
  | x :: r => match last_match p r with
              | Some (a, y, b) => Some (x :: a, y, b)
              | None => if p x then Some ([], x, r) else None
              end
  end.

Definition same_aggregate (a : string) (x : Event * Z) : bool := match aggregateId x.1 with Some b => b =s a | None => false end.

(** A full replacement takes the place of the one before it. *)
Definition collapse (e : Event) (q : Queue) : Queue :=
  match aggregateId e with
  | Some a =>
      if truthy a && fullIssueReplacement e then
        match last_match (same_aggregate a) (items q) with
        | Some (before, prev, after) => if fullIssueReplacement prev.1 then mkQueue (before ++ after) (bytes q - prev.2) else q
        | None => q
        end
      else q
  | None => q
  end.

Definition push (e : Event) (wireLength : Z) (q : Queue) : Queue :=
  if ignored e then q
  else
    let n := wireLength * 4 + 256 in
    let q1 := collapse e q in
    if is_resync e || existsb (fun x => is_resync x.1) (items q1) || (maxEvents <=? Z.of_nat (length (items q1))) || (maxBytes <? bytes q1 + n)
    then mkQueue [(resync e, 256)] 256
    else mkQueue (items q1 ++ [(e, n)]) (bytes q1 + n).

Definition peek (q : Queue) : option Event := match items q with [] => None | x :: _ => Some x.1 end.
Definition shift (q : Queue) : option Event * Queue := match items q with [] => (None, q) | x :: r => (Some x.1, mkQueue r (bytes q - x.2)) end.

Definition total (l : list (Event * Z)) : Z := foldr (fun x n => x.2 + n) 0 l.

(** The queue's account is exact and bounded; a resync stands alone. *)
Record wf (q : Queue) : Prop := {
  q_bytes : bytes q = total (items q);
  q_small : (length (items q) <= 256)%nat /\ bytes q <= maxBytes;
  q_sizes : Forall (fun x => 0 <= x.2) (items q);
  q_alone : forall x, In x (items q) -> is_resync x.1 = true -> items q = [x] }.

Lemma last_match_Some p l a y b : last_match p l = Some (a, y, b) -> l = a ++ y :: b /\ p y = true /\ Forall (fun x => p x = false) b.
Proof.
  revert a. induction l as [|x l IH]; intros a; [done|]. cbn. destruct (last_match p l) as [[[a' y'] b']|] eqn:E.
  - intros [= <- <- <-]. destruct (IH a' eq_refl) as (-> & H2 & H3). done.
  - destruct (p x) eqn:Ex; [|done]. intros [= <- <- <-]. split; [done|]. split; [done|]. clear -E. induction l as [|z l IH]; [constructor|]. cbn in E.
    destruct (last_match p l) as [[[? ?] ?]|]; [done|]. destruct (p z) eqn:Ez; [done|]. constructor; [done | by apply IH].
Qed.

Lemma item_total_app a b : total (a ++ b) = total a + total b.
Proof. induction a as [|x a IH]; cbn; [done|]. fold (total (a ++ b)) (total a). lia. Qed.

Lemma total_one x : total [x] = x.2.
Proof. apply Z.add_0_r. Qed.

Lemma total_sizes l : Forall (fun x => 0 <= x.2) l -> 0 <= total l.
Proof. induction 1; cbn; [lia|]. fold (total l). lia. Qed.

Lemma full_not_resync e : fullIssueReplacement e = true -> is_resync e = false.
Proof. unfold fullIssueReplacement, is_resync. rewrite andb_true_iff, String.eqb_eq. intros [-> _]. done. Qed.

Lemma collapse_cases e q : collapse e q = q \/ exists a before prev after,
  aggregateId e = Some a /\ fullIssueReplacement e = true /\ fullIssueReplacement prev.1 = true /\ aggregateId prev.1 = Some a
  /\ items q = before ++ prev :: after /\ Forall (fun x => aggregateId x.1 <> Some a) after
  /\ collapse e q = mkQueue (before ++ after) (bytes q - prev.2).
Proof.
  unfold collapse. destruct (aggregateId e) as [a|] eqn:Ea; [|by left]. destruct (truthy a && fullIssueReplacement e) eqn:Ef; [|by left].
  destruct (last_match _ (items q)) as [[[before prev] after]|] eqn:El; [|by left]. destruct (fullIssueReplacement prev.1) eqn:Ep; [|by left].
  apply last_match_Some in El as (E1 & E2 & E3). apply andb_true_iff in Ef as [_ Ef]. right. exists a, before, prev, after.
  assert (Hp : forall x, same_aggregate a x = true <-> aggregateId x.1 = Some a).
  { intros x. unfold same_aggregate. destruct (aggregateId x.1) as [b|]; [rewrite String.eqb_eq; split; congruence | done]. }
  repeat split; try done; [by apply Hp|]. eapply Forall_impl; [exact E3|]. cbn. intros x Hx Hc. apply Hp in Hc. congruence.
Qed.

Lemma collapse_wf e q : wf q -> wf (collapse e q).
Proof.
  intros [H1 H2 H3 H4]. destruct (collapse_cases e q) as [->|(a & before & prev & after & _ & _ & Hf & _ & Eq & _ & ->)]; [done|]. rewrite Eq in *.
  apply Forall_app in H3 as [Ha [Hp Hb]%Forall_cons]. rewrite item_total_app in H1. cbn in H1. fold (total after) in H1. split; cbn.
  - rewrite item_total_app. lia.
  - rewrite length_app in *. cbn in H2. split; lia.
  - apply Forall_app. done.
  - intros x Hx Hr. specialize (H4 x). rewrite in_app_iff in *. cbn in H4. exfalso.
    assert (E : before ++ prev :: after = [x]) by (apply H4; [destruct Hx; auto | done]). destruct before as [|z before]; cbn in E; [|by destruct before].
    injection E as -> ->. rewrite (full_not_resync _ Hf) in Hr. done.
Qed.

Lemma event_push_wf e n q : 0 <= n -> wf q -> wf (push e n q).
Proof.
  intros Hn Hw. unfold push. destruct (ignored e); [done|]. cbv zeta. pose proof (collapse_wf e q Hw) as [H1 H2 H3 H4]. destruct (_ || _) eqn:E.
  - split; cbn; [done | split; [lia | done] | by repeat constructor | by intros x [<-|[]]].
  - rewrite !orb_false_iff in E. destruct E as [[[E1 E2] E3%Z.leb_gt] E4%Z.ltb_ge]. unfold maxEvents in E3. split; cbn [items bytes].
    + rewrite item_total_app, total_one. cbn [snd]. lia.
    + rewrite length_app. split; [cbn [length]; lia | done].
    + apply Forall_app. split; [done|]. constructor; [|constructor]. cbn [snd]. lia.
    + intros x [Hx|[<-|[]]]%in_app_iff Hr; [|cbn in Hr; congruence]. exfalso. apply Bool.not_true_iff_false in E2. apply E2, existsb_exists. by exists x.
Qed.

Lemma shift_wf q : wf q -> wf (shift q).2.
Proof.
  intros [H1 H2 H3 H4]. unfold shift. destruct (items q) as [|x r] eqn:E; cbn; [by split; rewrite ?E|]. apply Forall_cons in H3 as [Hx H3].
  cbn in H1. fold (total r) in H1. pose proof (total_sizes r H3). split; cbn [items bytes]; [lia | cbn [length] in H2; split; lia | done |].
  intros y Hy Hr. specialize (H4 y (or_intror Hy) Hr). by destruct r; [|injection H4 as _ H4].
Qed.

(** *** The consumer *)

(** What happens around the queue: an event is received for it, one is handed to the handler. *)
Inductive Mark := Received (e : Event) | Handed (e : Event).

(** [busy] is the event whose handler runs. *)
Record Reader := mkReader { queue : Queue; busy : option Event; trace : list Mark }.

(** An event arrives; [drain] takes the next one; the handler of the event taken is done, or has thrown.  Events may arrive
    while a handler runs. *)
Inductive Input := IPush (e : Event) (wireLength : Z) | ITake | IDone | IFail.

Definition handle (i : Input) (r : Reader) : Reader :=
  match i with
  | IPush e n => mkReader (push e n (queue r)) (busy r) (if ignored e then trace r else trace r ++ [Received e])
  | ITake =>
      match busy r, shift (queue r) with
      | None, (Some e, q) => mkReader q (Some e) (trace r ++ [Handed e])
      | _, _ => r
      end
  | IDone => mkReader (queue r) None (trace r)
  | IFail => match busy r with Some e => mkReader (push (resync e) 0 (queue r)) None (trace r) | None => r end
  end.

Definition run (l : list Input) : Reader := fold_left (fun r i => handle i r) l (mkReader (mkQueue [] 0) None []).

Definition events (q : Queue) : list Event := map fst (items q).

(** One resync waits, and nothing else. *)
Definition pending (q : Queue) : Prop := exists e n, items q = [(e, n)] /\ is_resync e = true.

(** What was received, and handed on, since the last resync was handed to the handler, whose snapshot has all that came before. *)
Fixpoint since (l : list Mark) : list Event * list Event :=
  match l with
  | [] => ([], [])
  | m :: r => let '(received, given) := since r in
              if existsb (fun m => match m with Handed e => is_resync e | _ => false end) r then (received, given)
              else match m with
                   | Received e => (e :: received, given)
                   | Handed e => if is_resync e then (received, given) else (received, e :: given)
                   end
  end.

(** A full replacement is left out in front of a later one of the same issue, with no event of that issue in between. *)
Inductive superseded : list Event -> list Event -> Prop :=
  Superseded a e1 e2 l1 l2 l3 :
    fullIssueReplacement e1 = true -> fullIssueReplacement e2 = true -> aggregateId e1 = Some a -> aggregateId e2 = Some a ->
    Forall (fun e => aggregateId e <> Some a) l2 -> superseded (l1 ++ e1 :: l2 ++ e2 :: l3) (l1 ++ l2 ++ e2 :: l3).

Definition collapses : list Event -> list Event -> Prop := rtc superseded.

Lemma collapses_snoc l l' e : collapses l l' -> collapses (l ++ [e]) (l' ++ [e]).
Proof.
  induction 1 as [|l l1 l2 Hs _ IH]; [constructor|]. econstructor; [|exact IH]. destruct Hs as [a e1 e2 x y z H1 H2 H3 H4 H5].
  repeat rewrite <- ?app_assoc, <- ?app_comm_cons. by apply (Superseded a).
Qed.

Lemma collapse_superseded e q given : collapses (given ++ events q ++ [e]) (given ++ events (collapse e q) ++ [e]).
Proof.
  destruct (collapse_cases e q) as [->|(a & before & prev & after & Ea & Ef & Epf & Epa & Eq & Hn & ->)]; [constructor|]. unfold events. cbn [items].
  rewrite Eq, !map_app. cbn [map]. apply rtc_once. rewrite <- !app_assoc, !(app_assoc given). cbn [app].
  apply (Superseded a); try done. by apply Forall_map.
Qed.

Lemma since_received l e : is_resync e = false -> since (l ++ [Received e]) = (fst (since l) ++ [e], snd (since l)).
Proof.
  intros He. induction l as [|m l IH]; [done|]. cbn [app since]. rewrite IH, existsb_app. cbn [existsb]. rewrite orb_false_r.
  destruct (since l) as [received given]. destruct (existsb _ l); [done|]. destruct m as [x|x]; [done|]. by destruct (is_resync x).
Qed.

Lemma since_handed l e : since (l ++ [Handed e]) = if is_resync e then ([], []) else (fst (since l), snd (since l) ++ [e]).
Proof.
  induction l as [|m l IH]; [by cbn; destruct (is_resync e)|]. cbn [app since]. rewrite IH, existsb_app. cbn [existsb]. rewrite orb_false_r.
  destruct (is_resync e); [by rewrite orb_true_r|]. rewrite orb_false_r. destruct (since l) as [received given]. destruct (existsb _ l); [done|].
  destruct m as [x|x]; [done|]. by destruct (is_resync x).
Qed.

(** A resync waits, or what was handed on and what waits are what was received. *)
Definition complete (r : Reader) : Prop :=
  pending (queue r) \/ collapses (fst (since (trace r))) (snd (since (trace r)) ++ events (queue r)).

Lemma pending_no_full e q : pending q -> collapse e q = q.
Proof.
  intros (x & n & Hi & Hr). destruct (collapse_cases e q) as [->|(a & before & prev & after & _ & _ & Hf & _ & Eq & _ & _)]; [done|]. exfalso.
  rewrite Hi in Eq. destruct before as [|y before]; [|by destruct before]. injection Eq as <- <-. cbn in Hf. rewrite (full_not_resync _ Hf) in Hr. done.
Qed.

(** A push onto a queue in which a resync waits, or of a resync, leaves one resync. *)
Lemma push_pending e n q : pending q \/ is_resync e = true -> ignored e = false -> pending (push e n q).
Proof.
  intros Hp Hi. unfold push. rewrite Hi. cbv zeta.
  assert (E : is_resync e || existsb (fun x => is_resync x.1) (items (collapse e q)) = true).
  { destruct Hp as [Hp|Hp]; [|by rewrite Hp]. rewrite pending_no_full by done. destruct Hp as (x & m & -> & Hr). cbn. by rewrite Hr, orb_true_r. }
  rewrite E. cbn [orb]. by exists (resync e), 256.
Qed.

(** A resync waits only for a reason. *)
Lemma pending_reason e n q : 0 <= n -> wf q -> pending (push e n q) ->
  pending q \/ is_resync e = true \/ 256 <= Z.of_nat (length (items q)) \/ maxBytes < bytes q + (n * 4 + 256).
Proof.
  intros Hn Hw. unfold push. destruct (ignored e); [by left|]. cbv zeta.
  assert (Hle : Z.of_nat (length (items (collapse e q))) <= Z.of_nat (length (items q)) /\ bytes (collapse e q) <= bytes q).
  { destruct (collapse_cases e q) as [->|(a & before & prev & after & _ & _ & _ & _ & Eq & _ & ->)]; [lia|]. cbn. pose proof (q_sizes _ Hw) as Hs.
    rewrite Eq in *. apply Forall_app in Hs as [_ [Hs _]%Forall_cons]. rewrite !length_app. cbn. lia. }
  destruct (is_resync e || _ || _ || _) eqn:E.
  - intros _. rewrite !orb_true_iff in E. destruct E as [[[E|E]|E]|E].
    + by right; left.
    + left. apply existsb_exists in E as (x & Hx & Hr). pose proof (q_alone _ (collapse_wf e q Hw) x Hx Hr) as Ea.
      destruct (collapse_cases e q) as [Ec|(a & before & prev & after & _ & _ & Hf & _ & Eq & _ & Ec)]; rewrite Ec in *; [exists x.1, x.2; by destruct x|].
      exfalso. cbn in Hx. pose proof (q_alone _ Hw x) as Hal. rewrite Eq in Hal. specialize (Hal ltac:(rewrite in_app_iff in *; destruct Hx; cbn; auto) Hr).
      destruct before; [|by destruct before]. injection Hal as -> ->. done.
    + right; right; left. apply Z.leb_le in E. unfold maxEvents in E. lia.
    + right; right; right. apply Z.ltb_lt in E. lia.
  - intros (x & m & Hi & Hr). rewrite !orb_false_iff in E. destruct E as [[[E1 E2] _] _]. cbn in Hi. right; left.
    destruct (items (collapse e q)) as [|y l]; [|by destruct l]. injection Hi as -> _. done.
Qed.

Lemma handle_complete i r : wf (queue r) -> complete r -> complete (handle i r).
Proof.
  intros Hw Hc. destruct i as [e n| | |]; cbn [handle].
  - destruct (ignored e) eqn:Hi; [unfold push; rewrite Hi; exact Hc|].
    destruct Hc as [Hp|Hc]; [left; apply push_pending; auto|]. destruct (is_resync e) eqn:Hr; [left; apply push_pending; auto|].
    unfold complete. cbn [queue trace]. rewrite since_received by done. cbn [fst snd]. unfold push. rewrite Hi, Hr. cbv zeta.
    destruct (_ || _ || _ || _) eqn:E; [left; by exists (resync e), 256|]. right. unfold events at 1. cbn [items]. rewrite map_app. cbn [map fst].
    etransitivity; [apply collapses_snoc, Hc|]. rewrite <- app_assoc. apply collapse_superseded.
  - destruct (busy r); [done|]. unfold shift. destruct (items (queue r)) as [|x l] eqn:Ei; [done|]. unfold complete. cbn [queue trace]. rewrite since_handed.
    destruct (is_resync x.1) eqn:Er.
    + right. assert (El : items (queue r) = [x]) by (apply (q_alone _ Hw); [rewrite Ei; by left | done]). rewrite Ei in El. injection El as ->. constructor.
    + right. destruct Hc as [(e & n & Hp & Hr)|Hc]; [rewrite Ei in Hp; injection Hp as -> _; cbn in Er; congruence|].
      cbn [fst snd]. unfold events in *. rewrite Ei in Hc. cbn [items]. cbn [map] in Hc. by rewrite <- app_assoc.
  - exact Hc.
  - destruct (busy r) as [e|]; [|done]. left. apply push_pending; [by right | done].
Qed.

Lemma queue_handle_wf i r : match i with IPush _ n => 0 <= n | _ => True end -> wf (queue r) -> wf (queue (handle i r)).
Proof.
  intros Hi Hw. destruct i as [e n| | |]; cbn [handle]; [by apply event_push_wf | | done |].
  - pose proof (shift_wf _ Hw) as Hs. destruct (busy r), (shift (queue r)) as [[x|] q]; done.
  - destruct (busy r); [by apply event_push_wf | done].
Qed.

Lemma run_reader l : Forall (fun i => match i with IPush _ n => 0 <= n | _ => True end) l -> wf (queue (run l)) /\ complete (run l).
Proof.
  intros Hl. unfold run. assert (H0 : wf (queue (mkReader (mkQueue [] 0) None [])) /\ complete (mkReader (mkQueue [] 0) None [])).
  { split; [split; cbn; [done | split; [lia | done] | constructor | done] | right; constructor]. }
  revert H0. generalize (mkReader (mkQueue [] 0) None []). induction Hl as [|i l Hi _ IH]; intros r [Hw Hc]; [done|]. cbn [fold_left]. apply IH.
  split; [by apply queue_handle_wf | by apply handle_complete].
Qed.

End EventQueue.

(** A store of the last event of each issue, and an overflow of it. *)
Module StoreDemo.
Import EventQueue.

Definition full (i a : string) : Event := mkEvent i "issue.updated" (Some a) "t" (Some (JObj [("issue", JObj [("identifier", JStr a); ("state", JStr "todo")])])).
Definition plain (i a : string) : Event := mkEvent i "comment.created" (Some a) "t" None.

(** Two replacements of one issue, the second takes the first one's place; an ignored event; two events are handed on. *)
Definition inputs : list Input :=
  [IPush (full "e1" "A") 10; IPush (plain "e2" "B") 10; IPush (full "e3" "A") 10; IPush (mkEvent "e4" "api_key.used" None "t" None) 5; ITake; IDone; ITake].


(** An event too large for the queue leaves a resync, which its handler's snapshot answers. *)
Lemma overflow_resyncs :
  pending (queue (run [IPush (plain "e1" "B") 10; IPush (plain "e2" "C") 2000000]))
  /\ since (trace (run [IPush (plain "e1" "B") 10; IPush (plain "e2" "C") 2000000; ITake; IPush (plain "e3" "B") 10])) = ([plain "e3" "B"], []).
Proof. split; [vm_compute; eexists _, _; split; reflexivity | vm_compute; reflexivity]. Qed.
End StoreDemo.

(** ** The issues a client holds *)

Module IssueCache.

(** The fields a summary leaves out have fields of their own; [rest] are the others. *)
Record Issue := mkIssue {
  id : string; version : option Z; isSummary : option bool; needsDetailRefresh : option bool;
  description : option json; descriptionState : option json; documentContent : option json; reactions : option json; subscriberIds : option json;
  rest : list (string * json) }.

Definition vers (i : Issue) : Z := default 0 (version i).
Definition summary (i : Issue) : bool := default false (isSummary i).
Definition stale (i : Issue) : bool := default false (needsDetailRefresh i).

(** [{ ...previous, ...issue, isSummary: false, ... }] *)
Definition with_details (previous issue : Issue) : Issue :=
  mkIssue (id issue) (match version issue with Some v => Some v | None => version previous end) (Some false)
    (Some (stale previous || (vers previous <? vers issue)))
    (description previous) (descriptionState previous) (documentContent previous) (reactions previous) (subscriberIds previous)
    (fold_left (fun o kv => obj_set kv.1 kv.2 o) (rest issue) (rest previous)).

Definition fresh (i : Issue) : Issue :=
  if negb (summary i) && stale i
  then mkIssue (id i) (version i) (isSummary i) (Some false) (description i) (descriptionState i) (documentContent i) (reactions i) (subscriberIds i) (rest i)
  else i.

Definition merge_issue (previous : option Issue) (issue : Issue) : Issue :=
  match previous with
  | Some p => if vers issue <? vers p then p else if summary issue && negb (summary p) then with_details p issue else fresh issue
  | None => fresh issue
  end.

Definition index (l : list Issue) : list (string * Issue) := index_by id (fun i => i) l.

(** The first loop, over the incoming records. *)
Definition take_in (existing : list (string * Issue)) (limit : Z) (result : list (string * Issue)) (issue : Issue) : list (string * Issue) :=
  if negb (map_has (id issue) result) && (limit <=? Z.of_nat (length result)) then result
  else
    let previous := match map_get (id issue) result with Some p => Some p | None => map_get (id issue) existing end in
    map_set (id issue) (merge_issue previous issue) result.

(** The second loop, over the held records, until the limit is reached. *)
Fixpoint fill (limit : Z) (current : list Issue) (result : list (string * Issue)) : list (string * Issue) :=
  match current with
  | [] => result
  | i :: r => if limit <=? Z.of_nat (length result) then result
              else fill limit r (if map_has (id i) result then result else map_set (id i) i result)
  end.

Definition clamp (limit : Z) : Z := Z.max 0 (Z.min 2000 limit).

Definition mergeIssueRecords (current incoming : list Issue) (limit : Z) : list Issue :=
  let limit := clamp limit in
  if limit =? 0 then []
  else map_values (fill limit current (fold_left (take_in (index current) limit) incoming [])).

(** *** One record *)

Definition body (i : Issue) := (description i, descriptionState i, documentContent i, reactions i, subscriberIds i).

(** What a client may show for [x], of the records [known]: a complete record shows the details of a complete record, of its own version unless it is marked to be refreshed. *)
Definition coherent (known : list Issue) (x : Issue) : Prop :=
  summary x = false -> exists y, In y known /\ id y = id x /\ summary y = false /\ body y = body x /\ (stale x = false -> vers y = vers x).

(** [x] is no step back from [p]. *)
Definition onward (p x : Issue) : Prop := vers p <= vers x /\ (summary p = false -> summary x = false).

Lemma onward_refl p : onward p p.
Proof. split; [lia | done]. Qed.

Lemma onward_trans a b c : onward a b -> onward b c -> onward a c.
Proof. intros [? ?] [? ?]. split; [lia | auto]. Qed.

Lemma fresh_same i : id (fresh i) = id i /\ vers (fresh i) = vers i /\ summary (fresh i) = summary i /\ body (fresh i) = body i.
Proof. unfold fresh. by destruct (_ && _). Qed.

Lemma coherent_self known i : In i known -> coherent known i.
Proof. intros H Hs. by exists i. Qed.

Lemma coherent_fresh known i : In i known -> coherent known (fresh i).
Proof. destruct (fresh_same i) as (E1 & E2 & E3 & E4). intros H Hs. exists i. rewrite E1, E2, E3, E4 in *. done. Qed.

Lemma merge_issue_id p i : (forall q, p = Some q -> id q = id i) -> id (merge_issue p i) = id i.
Proof. intros H. unfold merge_issue. destruct p as [q|]; [|apply fresh_same]. destruct (_ <? _); [by apply H|]. destruct (_ && _); [done | apply fresh_same]. Qed.

Lemma with_details_vers p i : 0 <= vers p <= vers i -> vers (with_details p i) = vers i.
Proof. unfold vers. cbn. destruct (version i); [done|]. cbn. lia. Qed.

(** The merged record is as new as both, complete when the held one is, and coherent. *)
Lemma merge_issue_sound known p i : In i known -> 0 <= vers i -> (forall q, p = Some q -> id q = id i /\ 0 <= vers q /\ coherent known q) ->
  let m := merge_issue p i in vers i <= vers m /\ (forall q, p = Some q -> onward q m) /\ coherent known m.
Proof.
  intros Hi Hv Hp. unfold merge_issue. pose proof (fresh_same i) as (E1 & E2 & E3 & E4). destruct p as [q|]; [|split; [lia | split; [done | by apply coherent_fresh]]].
  destruct (Hp q eq_refl) as (Hid & Hq & Hc). destruct (Z.ltb_spec (vers i) (vers q)).
  - split; [lia|]. split; [|done]. intros ? [= <-]. apply onward_refl.
  - destruct (summary i) eqn:Es, (summary q) eqn:Eq; cbn [andb negb];
      try (split; [lia|]; split; [intros ? [= <-]; split; [lia | intros; congruence] | by apply coherent_fresh]).
    assert (Ev : vers (with_details q i) = vers i) by (apply with_details_vers; lia).
    split; [lia|]. split; [intros ? [= <-]; split; [lia | done]|].
    intros _. destruct (Hc Eq) as (y & H1 & H2 & H3 & H4 & H5). exists y. split; [done|]. split; [rewrite H2; exact Hid|]. split; [done|]. split; [rewrite H4; done|].
    rewrite Ev. cbn. rewrite orb_false_iff, Z.ltb_ge. intros [H6 H7]. rewrite H5 by done. lia.
Qed.

(** *** The collection *)

Section Collection.
Context (current incoming : list Issue) (limit : Z).
Context (Hcur : NoDup (map id current)) (Hvers : Forall (fun i => 0 <= vers i) (current ++ incoming)).

Definition keyed (m : list (string * Issue)) : Prop := NoDup (map_keys m) /\ Forall (fun e => e.1 = id e.2) m.

Lemma keyed_nil : keyed [].
Proof. split; constructor. Qed.

Lemma issue_keyed_set i m x : keyed m -> id x = i -> keyed (map_set i x m).
Proof. intros [H1 H2] Hx. split; [by apply map_set_NoDup|]. apply map_set_Forall; [|done]. intros k' ->. done. Qed.

Lemma keyed_get m i x : keyed m -> map_get i m = Some x -> id x = i.
Proof. intros [_ H] Hg. induction H as [|[k v] m Hk _ IH]; [done|]. cbn in *. case_decide; [injection Hg as ->; congruence | auto]. Qed.

Lemma index_get l i x : NoDup (map id l) -> map_get i (index l) = Some x <-> In x l /\ id x = i.
Proof. intros Hn. unfold index. rewrite index_by_get by done. split; [by intros (y & ? & ? & ->) | intros [? ?]; by exists x]. Qed.

Definition all : list Issue := current ++ incoming.

(** A row of the result. *)
Definition row_ok (seen : list Issue) (e : string * Issue) : Prop :=
  e.1 ∈ map id all /\ 0 <= vers e.2 /\ coherent all e.2
  /\ (forall p, In p current -> id p = e.1 -> onward p e.2) /\ (forall y, In y seen -> id y = e.1 -> vers y <= vers e.2).

(** After the records [seen] of the incoming ones: an id that was left out met a full result. *)
Record inv (lim : Z) (seen : list Issue) (m : list (string * Issue)) : Prop := {
  i_keyed : keyed m;
  i_size : Z.of_nat (length m) <= lim;
  i_rows : Forall (row_ok seen) m;
  i_left : forall y, In y seen -> id y ∉ map_keys m -> lim <= Z.of_nat (length m) }.

Lemma map_get_In {V} k (v : V) (m : list (string * V)) : map_get k m = Some v -> In (k, v) m.
Proof. induction m as [|[k' v'] m IH]; [done|]. cbn. case_decide; [intros [= ->]; subst; by left | auto]. Qed.

Lemma In_vers i : In i all -> 0 <= vers i.
Proof. intros H. by apply (proj1 (List.Forall_forall _ _) Hvers). Qed.

Lemma map_set_In {V} k (v : V) (m : list (string * V)) e : NoDup (map_keys m) -> In e (map_set k v m) -> e = (k, v) \/ (In e m /\ e.1 <> k).
Proof.
  induction m as [|[k' v'] m IH]; cbn; [intros _ [<-|[]]; auto|]. intros [Hk Hn]%NoDup_cons. case_decide; subst.
  - intros [<-|H]; [auto|]. right. split; [auto|]. intros <-. apply Hk, list_elem_of_In, in_map, H.
  - intros [<-|H0]; [right; auto|]. destruct (IH Hn H0) as [->|[? ?]]; auto.
Qed.

(** A record is put in its row. *)
Lemma set_inv lim seen m i x : inv lim seen m -> id x = id i -> row_ok (seen ++ [i]) (id i, x) ->
  (id i ∉ map_keys m -> Z.of_nat (length m) < lim) -> inv lim (seen ++ [i]) (map_set (id i) x m).
Proof.
  intros [H1 H2 H3 H4] Hx Hr Hs. assert (Hin : id i ∈ map_keys (map_set (id i) x m)) by (eapply map_get_elem, map_get_set_eq). split.
  - by apply issue_keyed_set.
  - destruct (decide (id i ∈ map_keys m)); [by rewrite map_set_length_known|]. rewrite map_set_length_new by done. specialize (Hs n). lia.
  - apply List.Forall_forall. intros e [->|[He Hne]]%map_set_In; [done | | apply H1]. apply (proj1 (List.Forall_forall _ _) H3) in He as (R1 & R2 & R3 & R4 & R5).
    repeat split; try done; try apply R4; try done. intros y [Hy|[<-|[]]]%in_app_iff E; [auto | congruence].
  - intros y [Hy|[<-|[]]]%in_app_iff Hn; [|done]. destruct (decide (id i ∈ map_keys m)) as [Hk|Hk].
    + rewrite map_set_keys_known in Hn by done. rewrite map_set_length_known by done. by apply (H4 y).
    + rewrite map_set_keys_new in Hn by done. specialize (Hs Hk). assert (lim <= Z.of_nat (length m)); [apply (H4 y); [done | intros ?; apply Hn, elem_of_app; auto] | lia].
Qed.

Lemma take_in_inv lim seen m i : 0 < lim -> In i incoming -> inv lim seen m -> inv lim (seen ++ [i]) (take_in (index current) lim m i).
Proof.
  intros Hl Hi HI. pose proof HI as [H1 H2 H3 H4]. assert (Hall : In i all) by (apply in_app_iff; by right). pose proof (In_vers _ Hall) as Hv.
  assert (Hid : id i ∈ map id all) by (apply list_elem_of_In, in_map, Hall).
  unfold take_in, map_has. destruct (map_get (id i) m) as [p|] eqn:Eg; cbn [isSome negb andb].
  - assert (Hk : id i ∈ map_keys m) by (by eapply map_get_elem). pose proof (map_get_In _ _ _ Eg) as Hin.
    destruct (proj1 (List.Forall_forall _ _) H3 _ Hin) as (R1 & R2 & R3 & R4 & R5). cbn [fst snd] in *.
    assert (Hpi : id p = id i) by (by eapply keyed_get).
    destruct (merge_issue_sound all (Some p) i Hall Hv) as (S1 & S2 & S3); [by intros ? [= <-]|]. specialize (S2 p eq_refl).
    apply set_inv; [done | apply merge_issue_id; by intros ? [= <-] | | done]. split; [done|]. cbn [fst snd]. split; [lia|]. split; [done|]. split.
    + intros q Hq E. eapply onward_trans; [by apply R4 | done].
    + intros y [Hy|[<-|[]]]%in_app_iff E; [|done]. specialize (R5 y Hy E). destruct S2. lia.
  - apply map_get_None in Eg. destruct (Z.leb_spec lim (Z.of_nat (length m))).
    + split; try done.
      * eapply List.Forall_impl; [|apply List.Forall_forall; intros e He; exact (conj He (proj1 (List.Forall_forall _ _) H3 e He))].
        intros e (He & R1 & R2 & R3 & R4 & R5). repeat split; try done; try apply R4; try done. intros y [Hy|[<-|[]]]%in_app_iff E; [auto|].
        exfalso. apply Eg. rewrite E. apply list_elem_of_In, in_map, He.
    + assert (Hex : forall q, map_get (id i) (index current) = Some q -> id q = id i /\ 0 <= vers q /\ coherent all q).
      { intros q [Hq E]%index_get; [|done]. assert (In q all) by (apply in_app_iff; by left). split; [done|]. split; [by apply In_vers | by apply coherent_self]. }
      destruct (merge_issue_sound all (map_get (id i) (index current)) i Hall Hv Hex) as (S1 & S2 & S3).
      apply set_inv; [done | apply merge_issue_id; intros q Hq; by apply Hex | | done]. split; [done|]. cbn [fst snd]. split; [lia|]. split; [done|]. split.
      * intros q Hq E. apply S2. by apply index_get.
      * intros y [Hy|[<-|[]]]%in_app_iff E; [|done]. exfalso. assert (lim <= Z.of_nat (length m)); [apply (H4 y); [done | by rewrite E] | lia].
Qed.

Lemma take_all_inv lim l : 0 < lim -> incl l incoming -> forall seen m, inv lim seen m -> inv lim (seen ++ l) (fold_left (take_in (index current) lim) l m).
Proof.
  intros Hl. induction l as [|i l IH]; intros Hin seen m H; [by rewrite app_nil_r|]. cbn [fold_left].
  replace (seen ++ i :: l) with ((seen ++ [i]) ++ l) by by rewrite <- app_assoc. apply IH; [intros x Hx; apply Hin; by right|]. apply take_in_inv; [done | apply Hin; by left | done].
Qed.

Lemma fill_inv lim l : incl l current -> forall m, inv lim incoming m -> inv lim incoming (fill lim l m).
Proof.
  induction l as [|i l IH]; intros Hin m H; [done|]. cbn [fill]. destruct (Z.leb_spec lim (Z.of_nat (length m))); [done|]. apply IH; [intros x Hx; apply Hin; by right|].
  unfold map_has. destruct (map_get (id i) m) as [p|] eqn:Eg; cbn [isSome]; [done|]. apply map_get_None in Eg. pose proof H as [H1 H2 H3 H4].
  assert (Hc : In i current) by (apply Hin; by left). assert (Hall : In i all) by (apply in_app_iff; by left).
  assert (Hno : forall y, In y incoming -> id y <> id i) by (intros y Hy E; specialize (H4 y Hy); rewrite E in H4; specialize (H4 Eg); lia).
  split.
  - by apply issue_keyed_set.
  - rewrite map_set_length_new by done. lia.
  - rewrite map_set_new by done. apply Forall_app. split; [done|]. constructor; [|constructor]. split; [cbn [fst]; apply list_elem_of_In, in_map, Hall|]. cbn [fst snd].
    split; [by apply In_vers|]. split; [by apply coherent_self|]. split; [|intros y Hy E; by destruct (Hno y Hy)].
    intros q Hq E. replace q with i; [apply onward_refl|]. assert (A1 : map_get (id i) (index current) = Some i) by by apply index_get.
    assert (A2 : map_get (id i) (index current) = Some q) by by apply index_get. congruence.
  - intros y Hy Hn. rewrite map_set_keys_new in Hn by done. assert (lim <= Z.of_nat (length m)); [apply (H4 y); [done | intros ?; apply Hn, elem_of_app; auto] | lia].
Qed.

Lemma merged_inv : 0 < clamp limit -> inv (clamp limit) incoming (fill (clamp limit) current (fold_left (take_in (index current) (clamp limit)) incoming [])).
Proof.
  intros Hl. apply fill_inv; [by intros x|]. apply (take_all_inv (clamp limit) incoming Hl (fun _ H => H) []). split; [apply keyed_nil | cbn; lia | constructor | done].
Qed.

Lemma issue_keyed_ids m : keyed m -> map id (map_values m) = map_keys m.
Proof. intros [_ H]. unfold map_values, map_keys. rewrite map_map. induction H as [|e m He _ IH]; [done|]. cbn. by rewrite IH, He. Qed.

(** *** Nothing is left out below the limit *)

Lemma fill_keys lim l m k : k ∈ map_keys m \/ k ∈ map id l -> k ∈ map_keys (fill lim l m) \/ lim <= Z.of_nat (length (fill lim l m)).
Proof.
  revert m. induction l as [|i l IH]; intros m Hk; cbn [fill]; [destruct Hk as [?|H]; [auto | by apply elem_of_nil in H]|].
  destruct (Z.leb_spec lim (Z.of_nat (length m))); [auto|]. unfold map_has. destruct (map_get (id i) m) as [p|] eqn:Eg; cbn [isSome].
  - apply IH. destruct Hk as [?|[->|?]%elem_of_cons]; [auto | left; by eapply map_get_elem | auto].
  - apply map_get_None in Eg. apply IH. rewrite map_set_keys_new, elem_of_app, list_elem_of_singleton by done. destruct Hk as [?|[->|?]%elem_of_cons]; auto.
Qed.

Lemma room m k : keyed m -> Forall (row_ok incoming) m -> k ∈ map id all -> k ∉ map_keys m -> (S (length m) <= length (unique (map id all)))%nat.
Proof.
  intros [H1 _] H2 Hk Hn. destruct (unique_spec (map id all)) as [U1 U2].
  replace (S (length m)) with (length (k :: map_keys m)) by (cbn; unfold map_keys; by rewrite length_map). apply submseteq_length, NoDup_submseteq; [by constructor|].
  intros x [->|Hx]%elem_of_cons; apply U2; [done|]. apply list_elem_of_In, in_map_iff in Hx as (e & <- & He). by apply (proj1 (List.Forall_forall _ _) H2 e He).
Qed.

(** The rows of the result. *)
Lemma merge_rows : let out := mergeIssueRecords current incoming limit in NoDup (map id out) /\ Z.of_nat (length out) <= clamp limit /\ Forall (fun x => row_ok incoming (id x, x)) out.
Proof.
  unfold mergeIssueRecords. cbv zeta. destruct (Z.eqb_spec (clamp limit) 0) as [E|E]; [rewrite E; split; [constructor|]; split; [done | constructor]|].
  assert (Hl : 0 < clamp limit) by (unfold clamp in *; lia). pose proof (merged_inv Hl) as Hinv. revert Hinv. set (m := fill _ _ _). intros [H1 H2 H3 H4]. rewrite issue_keyed_ids by done.
  split; [apply H1|]. split; [unfold map_values; by rewrite length_map|]. unfold map_values. apply Forall_map. destruct H1 as [_ Hk]. apply List.Forall_forall. intros e He.
  pose proof (proj1 (List.Forall_forall _ _) Hk e He) as Ek. cbn. rewrite <- Ek, <- surjective_pairing. exact (proj1 (List.Forall_forall _ _) H3 e He).
Qed.

Lemma merge_complete : Z.of_nat (length (unique (map id all))) <= clamp limit -> forall i, In i all -> id i ∈ map id (mergeIssueRecords current incoming limit).
Proof.
  intros Hu i Hi. unfold mergeIssueRecords. destruct (Z.eqb_spec (clamp limit) 0) as [E|E].
  - exfalso. rewrite E in Hu. destruct (unique_spec (map id all)) as [_ U].
    assert (H : id i ∈ unique (map id all)) by (apply U, list_elem_of_In, in_map, Hi). destruct (unique (map id all)); [by apply elem_of_nil in H | cbn in Hu; lia].
  - assert (Hl : 0 < clamp limit) by (unfold clamp in *; lia). pose proof (merged_inv Hl) as Hinv. revert Hinv. set (m := fill _ _ _). intros [H1 H2 H3 H4]. rewrite issue_keyed_ids by done.
    destruct (decide (id i ∈ map_keys m)) as [|Hn]; [done|]. exfalso.
    assert (Hr : (S (length m) <= length (unique (map id all)))%nat) by (apply (room m (id i)); [done | done | apply list_elem_of_In, in_map, Hi | done]).
    apply in_app_iff in Hi as [Hi|Hi]; [|specialize (H4 i Hi Hn); lia].
    destruct (fill_keys (clamp limit) current (fold_left (take_in (index current) (clamp limit)) incoming []) (id i)) as [Hc|Hc]; [right; apply list_elem_of_In, in_map, Hi | done | fold m in Hc; lia].
Qed.

(** C28 (issue_merge_sound).  Folding incoming issue records into the held ones: the result has each issue once and at most the limit (2000 at most) of them; a record in it is as new as every record of the issue that was held or came
    in, complete when the held one was, and the details it shows are those of a complete record, of its own version unless it is marked to be refreshed; when the issues fit the limit, all are in the result. *)
Theorem issue_merge_sound :
  let out := mergeIssueRecords current incoming limit in
  NoDup (map id out) /\ Z.of_nat (length out) <= clamp limit
  /\ Forall (fun x => (forall p, In p current -> id p = id x -> onward p x) /\ (forall y, In y incoming -> id y = id x -> vers y <= vers x) /\ coherent all x) out
  /\ (Z.of_nat (length (unique (map id all))) <= clamp limit -> forall i, In i all -> id i ∈ map id out).
Proof.
  destruct merge_rows as (H1 & H2 & H3). intros out. split; [exact H1|]. split; [exact H2|]. split; [|exact merge_complete].
  eapply List.Forall_impl; [|exact H3]. intros x (_ & _ & R3 & R4 & R5). done.
Qed.
End Collection.

(** A newer summary of a complete record, an older record, and a new issue. *)
Module MergeDemo.
Definition issue (i : string) (v : Z) (s : bool) (d : option json) : Issue := mkIssue i (Some v) (Some s) None d None None None None [].
Definition held : list Issue := [issue "a" 3 false (Some (JStr "text")); issue "b" 5 true None].
Definition coming : list Issue := [issue "a" 4 true None; issue "b" 2 false (Some (JStr "old")); issue "c" 1 true None].

Lemma issue_merge_sound_witness :
  map (fun x => (id x, vers x, summary x, stale x, description x)) (mergeIssueRecords held coming 2000) =
    [("a", 4, false, true, Some (JStr "text")); ("b", 5, true, false, None); ("c", 1, true, false, None)]
  /\ NoDup (map id (mergeIssueRecords held coming 2000)).
Proof.
  split; [vm_compute; reflexivity|]. apply (issue_merge_sound held coming 2000).
  - apply NoDup_cons. split; [|apply NoDup_singleton]. intros [=]%list_elem_of_singleton.
  - unfold held, coming. cbn [app]. repeat (apply Forall_cons_2; [cbn; lia|]). apply Forall_nil_2.
Defined.
End MergeDemo.
End IssueCache.
