(* ===== verification/EntityUpdates.v ===== *)
(** * Updates of projects and initiatives, loaded on demand (web/src/lib/entity-updates.ts)

    A view asks for the updates of the entities it shows; the application fetches them, four at a time, and folds the answers
    into its data.  The effect of a React component holds the listeners; it starts anew whenever the workspace or
    the viewer changes, while the state it works on ([useRef]) and the requests under way remain.

    [Loader] is that state with the requests under way.  An input is a change of the application's data, a request of a view, an event of
    the stream, or an answer. *)

From Stdlib Require Import ZArith Lia Bool List.
From stdpp Require Import base list strings relations.
From S2P Require Import Prelude JsString JsMap Json.

Local Set Warnings "-register-all".

(** ** Requests and events *)

Inductive EntityUpdatesKind := project | initiative.

Definition kind_name (k : EntityUpdatesKind) : string := match k with project => "project" | initiative => "initiative" end.

Definition entity_key (k : EntityUpdatesKind) (i : string) : string := kind_name k +:+ ":" +:+ i.

Record Request := mkRequest { kind : EntityUpdatesKind; ids : list string }.

(** [[...new Set(ids.filter(Boolean))]]; no event is sent for an empty list. *)
Definition requestEntityUpdates (k : EntityUpdatesKind) (l : list (option string)) : option Request :=
  match unique (List.filter truthy (omap (fun x => x) l)) with
  | [] => None
  | u => Some (mkRequest k u)
  end.

Record RealtimeEvent := mkEvent { e_type : string; aggregateId : option string; payload : option json }.

(** [/^(project|initiative)\.update_|^(project|initiative)_update\./] *)
Definition event_kind (t : string) : option EntityUpdatesKind :=
  if startsWith "project.update_" t || startsWith "project_update." t then Some project
  else if startsWith "initiative.update_" t || startsWith "initiative_update." t then Some initiative
  else None.

(** The payload's id of the kind, [null] and absent skipped, before the aggregate's; only a text that is not empty. *)
Definition entityUpdatesEventTarget (e : RealtimeEvent) : option (EntityUpdatesKind * string) :=
  match event_kind (e_type e) with
  | None => None
  | Some k =>
      let f := match k with project => "projectId" | initiative => "initiativeId" end in
      let own := match payload e with Some p => match field f p with Some JNull => None | v => v end | None => None end in
      let i := match own with Some v => Some v | None => option_map JStr (aggregateId e) end in
      match i with Some (JStr s) => if truthy s then Some (k, s) else None | _ => None end
  end.

(** ** The loader *)

Definition MAX_CONCURRENT : nat := 4.
Definition MAX_PER_REQUEST : nat := 60.

Record Data := mkData { urlKey : string; viewer : string; paged : bool; projectUpdates : list (string * list json); initiativeUpdates : list (string * list json) }.

Definition updates_of (k : EntityUpdatesKind) (d : Data) : list (string * list json) := match k with project => projectUpdates d | initiative => initiativeUpdates d end.

Definition mergeEntityUpdates (d : Data) (k : EntityUpdatesKind) (i : string) (u : list json) : Data :=
  match k with
  | project => mkData (urlKey d) (viewer d) (paged d) (map_set i u (projectUpdates d)) (initiativeUpdates d)
  | initiative => mkData (urlKey d) (viewer d) (paged d) (projectUpdates d) (map_set i u (initiativeUpdates d))
  end.

(** A request under way: the run of the effect that sent it, with the workspace and the viewer of that run. *)
Record Load := mkLoad { l_gen : nat; l_ws : string; l_viewer : string; l_kind : EntityUpdatesKind; l_id : string }.

Definition l_key (l : Load) : string := entity_key (l_kind l) (l_id l).

Record Loader := mkLoader {
  data : option Data;
  gen : nat;                                       (* how often the effect ran *)
  loaded : list string; inflight : list string; queue : list (EntityUpdatesKind * string); active : nat;
  loads : list Load }.

Definition new_loader : Loader := mkLoader None 0 [] [] [] 0 [].

(** The effect's dependencies, and the workspace and the viewer when it listens. *)
Definition deps (d : option Data) : bool * option string * option string :=
  match d with Some d => (paged d, Some (urlKey d), Some (viewer d)) | None => (false, None, None) end.
Definition listens (d : option Data) : option (string * string) :=
  match d with Some d => if paged d && truthy (urlKey d) && truthy (viewer d) then Some (urlKey d, viewer d) else None | None => None end.

(** [pump] of the current run of the effect: the loop ends as the queue shrinks. *)
Fixpoint pump_loop (g : nat) (ws v : string) (q : list (EntityUpdatesKind * string)) (n : nat) (ls : list Load) : list (EntityUpdatesKind * string) * nat * list Load :=
  match q with
  | [] => ([], n, ls)
  | (k, i) :: r => if (n <? MAX_CONCURRENT)%nat then pump_loop g ws v r (S n) (ls ++ [mkLoad g ws v k i]) else (q, n, ls)
  end.

Definition pump (s : Loader) : Loader :=
  match listens (data s) with
  | Some (ws, v) => let '(q, n, ls) := pump_loop (gen s) ws v (queue s) (active s) (loads s) in mkLoader (data s) (gen s) (loaded s) (inflight s) q n ls
  | None => s
  end.

Definition has (k : string) (l : list string) : bool := existsb (String.eqb k) l.
Definition add (k : string) (l : list string) : list string := if has k l then l else l ++ [k].
Definition drop_key (k : string) (l : list string) : list string := List.filter (fun x => negb (x =s k)) l.

Definition enqueue (force : bool) (s : Loader) (e : EntityUpdatesKind * string) : Loader :=
  let key := entity_key e.1 e.2 in
  if has key (inflight s) || (negb force && has key (loaded s)) then s
  else mkLoader (data s) (gen s) (loaded s) (add key (inflight s)) (queue s ++ [e]) (active s) (loads s).

Definition onRequest (r : Request) (s : Loader) : Loader :=
  match listens (data s) with
  | Some _ => pump (fold_left (enqueue false) (map (pair (kind r)) (take MAX_PER_REQUEST (ids r))) s)
  | None => s
  end.

Definition onActivity (e : RealtimeEvent) (s : Loader) : Loader :=
  match listens (data s), entityUpdatesEventTarget e with
  | Some _, Some t => if has (entity_key t.1 t.2) (loaded s) then pump (enqueue true s t) else s
  | _, _ => s
  end.

(** The data changes; when a dependency does, the run of the effect is disposed and a new one starts. *)
Definition set_data (d : option Data) (s : Loader) : Loader :=
  if decide (deps d = deps (data s)) then mkLoader d (gen s) (loaded s) (inflight s) (queue s) (active s) (loads s)
  else mkLoader d (S (gen s)) [] [] [] (active s) (loads s).

Inductive Answer := AList (u : list json) | AOther | AFail.
Definition answer_list (a : Answer) : option (list json) := match a with AList u => Some u | AOther => Some [] | AFail => None end.

Definition current (s : Loader) (l : Load) : bool := (l_gen l =? gen s)%nat && isSome (listens (data s)).

(** [then]: the answer is folded in unless the run is disposed or the data is another one's. *)
Definition received (l : Load) (a : Answer) (s : Loader) : Loader :=
  match answer_list a with
  | Some u =>
      if current s l then
        mkLoader (match data s with
                  | Some d => Some (if (urlKey d =s l_ws l) && (viewer d =s l_viewer l) then mergeEntityUpdates d (l_kind l) (l_id l) u else d)
                  | None => None
                  end) (gen s) (add (l_key l) (loaded s)) (inflight s) (queue s) (active s) (loads s)
      else s
  | None => s
  end.

(** [finally]: the [pump] is the one of the run that sent the request, which does nothing once disposed. *)
Definition settle (l : Load) (s : Loader) : Loader :=
  let s' := mkLoader (data s) (gen s) (loaded s) (drop_key (l_key l) (inflight s)) (queue s) (Nat.pred (active s)) (loads s) in
  if current s l then pump s' else s'.

Definition answered (i : nat) (a : Answer) (s : Loader) : Loader :=
  match loads s !! i with
  | Some l => settle l (received l a (mkLoader (data s) (gen s) (loaded s) (inflight s) (queue s) (active s) (delete i (loads s))))
  | None => s
  end.

Inductive Input := IData (d : option Data) | IRequest (k : EntityUpdatesKind) (l : list (option string)) | IActivity (e : RealtimeEvent) | IAnswer (i : nat) (a : Answer).

Definition handle (s : Loader) (i : Input) : Loader :=
  match i with
  | IData d => set_data d s
  | IRequest k l => match requestEntityUpdates k l with Some r => onRequest r s | None => s end
  | IActivity e => onActivity e s
  | IAnswer i a => answered i a s
  end.

Definition run (l : list Input) : Loader := fold_left handle l new_loader.

(** ** The invariant of a run whose workspace changes only while nothing is under way *)

Definition q_key (e : EntityUpdatesKind * string) : string := entity_key e.1 e.2.

Lemma entity_key_inj k k' i i' : entity_key k i = entity_key k' i' -> k = k' /\ i = i'.
Proof. unfold entity_key. destruct k, k'; cbn; intros [= ->]; done. Qed.

(** The keys under way are those that wait and those that are loading, each once. *)
Record tracked (s : Loader) : Prop := {
  t_active : active s = length (loads s);
  t_max : (active s <= MAX_CONCURRENT)%nat;
  t_own : Forall (fun l => l_gen l = gen s /\ listens (data s) = Some (l_ws l, l_viewer l)) (loads s);
  t_listen : queue s <> [] -> is_Some (listens (data s));
  t_keys : inflight s ≡ₚ map q_key (queue s) ++ map l_key (loads s);
  t_once : NoDup (inflight s) }.

(** Nothing waits while there is room. *)
Definition pumped (s : Loader) : Prop := queue s <> [] -> active s = MAX_CONCURRENT.

Lemma has_spec k l : has k l = true <-> k ∈ l.
Proof. unfold has. rewrite existsb_exists, list_elem_of_In. split; [intros (x & Hx & ->%String.eqb_eq); done | intros H; exists k; split; [done | apply String.eqb_refl]]. Qed.

Lemma has_false k l : has k l = false <-> k ∉ l.
Proof. rewrite <- not_true_iff_false, has_spec. done. Qed.

Lemma add_in k x l : x ∈ add k l <-> x = k \/ x ∈ l.
Proof. unfold add. destruct (has k l) eqn:E; [apply has_spec in E; split; [auto | by intros [->|?]] | rewrite elem_of_app, list_elem_of_singleton; tauto]. Qed.

Lemma pump_loop_spec g ws v q n ls : let '(q', n', ls') := pump_loop g ws v q n ls in
  exists t, q = t ++ q' /\ ls' = ls ++ map (fun e => mkLoad g ws v e.1 e.2) t /\ n' = (n + length t)%nat /\ ((n <= MAX_CONCURRENT)%nat -> (n' <= MAX_CONCURRENT)%nat) /\ (q' <> [] -> (MAX_CONCURRENT <= n')%nat).
Proof.
  revert n ls. induction q as [|[k i] q IH]; intros n ls; cbn [pump_loop].
  - exists []. cbn. rewrite app_nil_r. repeat split; try done; lia.
  - destruct (Nat.ltb_spec n MAX_CONCURRENT).
    + specialize (IH (S n) (ls ++ [mkLoad g ws v k i])). destruct (pump_loop _ _ _ _ _ _) as [[q' n'] ls']. destruct IH as (t & -> & -> & -> & H1 & H2).
      exists ((k, i) :: t). cbn. rewrite <- app_assoc. repeat split; try done; lia.
    + exists []. cbn. rewrite app_nil_r. repeat split; try done; lia.
Qed.

Lemma pump_same s : data (pump s) = data s /\ gen (pump s) = gen s /\ loaded (pump s) = loaded s /\ inflight (pump s) = inflight s.
Proof. unfold pump. destruct (listens (data s)) as [[ws v]|]; [|done]. by destruct (pump_loop _ _ _ _ _ _) as [[q n] ls]. Qed.

Lemma pump_work s : (length (queue (pump s)) + length (loads (pump s)) = length (queue s) + length (loads s))%nat.
Proof.
  unfold pump. destruct (listens (data s)) as [[ws v]|]; [|done]. pose proof (pump_loop_spec (gen s) ws v (queue s) (active s) (loads s)) as H.
  destruct (pump_loop _ _ _ _ _ _) as [[q n] ls]. destruct H as (t & -> & -> & _). cbn [queue loads]. rewrite !length_app, length_map. lia.
Qed.

Lemma pump_tracked s : tracked s -> tracked (pump s) /\ pumped (pump s).
Proof.
  intros [H1 H2 H3 H4 H5 H6]. unfold pump. destruct (listens (data s)) as [[ws v]|] eqn:El.
  - pose proof (pump_loop_spec (gen s) ws v (queue s) (active s) (loads s)) as H. destruct (pump_loop _ _ _ _ _ _) as [[q n] ls]. destruct H as (t & Eq & -> & -> & H7 & H8).
    specialize (H7 H2). split; [|intros Hq; cbn in *; specialize (H8 Hq); lia]. split; cbn [active loads gen data queue inflight].
    + rewrite length_app, length_map. lia.
    + done.
    + rewrite El. apply Forall_app. split; [done|]. apply Forall_map, List.Forall_forall. done.
    + by rewrite El.
    + rewrite H5, Eq, !map_app, map_map. cbn. rewrite <- !app_assoc. rewrite (Permutation_app_comm (map q_key t)). rewrite <- app_assoc. done.
    + done.
  - assert (queue s = []) as Eq by (destruct (queue s); [done|]; by destruct H4). split; [by split; rewrite ?El|]. by intros [].
Qed.

Lemma enqueue_tracked f s e : is_Some (listens (data s)) -> tracked s -> tracked (enqueue f s e).
Proof.
  intros Hl [H1 H2 H3 H4 H5 H6]. unfold enqueue. destruct (has _ (inflight s)) eqn:Eh; [by split|]. cbn [orb]. destruct (_ && _); [by split|].
  apply has_false in Eh. split; cbn; try done; unfold add; rewrite (proj2 (has_false _ _) Eh).
  - rewrite H5, map_app. cbn. rewrite <- !app_assoc. apply Permutation_app_head. symmetry. apply Permutation_cons_append.
  - apply NoDup_app. split; [done|]. split; [|apply NoDup_singleton]. intros x Hx ->%list_elem_of_singleton. done.
Qed.

Lemma enqueue_data f s e : data (enqueue f s e) = data s.
Proof. unfold enqueue. by destruct (_ || _). Qed.

Lemma enqueue_all_tracked f l s : is_Some (listens (data s)) -> tracked s -> let s' := fold_left (enqueue f) l s in tracked s' /\ data s' = data s.
Proof.
  revert s. induction l as [|e l IH]; intros s Hl Ht; [done|]. cbn [fold_left]. destruct (IH (enqueue f s e)) as [H1 H2].
  - by rewrite enqueue_data.
  - by apply enqueue_tracked.
  - split; [done|]. by rewrite H2, enqueue_data.
Qed.

Lemma listens_deps d d' : deps d = deps d' -> listens d = listens d'.
Proof. destruct d as [[]|], d' as [[]|]; cbn; intros [=]; subst; done. Qed.

Lemma merge_deps d k i u : deps (Some (mergeEntityUpdates d k i u)) = deps (Some d).
Proof. by destruct k. Qed.

Lemma drop_key_perm k l : NoDup l -> k ∈ l -> l ≡ₚ k :: drop_key k l.
Proof.
  intros Hn Hk. unfold drop_key. induction l as [|x l IH]; [by apply elem_of_nil in Hk|]. apply NoDup_cons in Hn as [Hx Hn]. cbn. destruct (String.eqb_spec x k) as [->|Hne]; cbn [negb].
  - constructor. rewrite filter_all; [done|]. apply List.Forall_forall. intros y Hy. apply negb_true_iff, String.eqb_neq. intros ->. apply Hx, list_elem_of_In, Hy.
  - apply elem_of_cons in Hk as [->|Hk]; [done|]. rewrite perm_swap. constructor. by apply IH.
Qed.

Lemma drop_key_NoDup k l : NoDup l -> NoDup (drop_key k l).
Proof. intros H. unfold drop_key. induction H as [|x l Hx _ IH]; cbn; [constructor|]. destruct (negb _); [|done]. constructor; [|done]. rewrite list_elem_of_In, filter_In. intros [? _]. by apply Hx, list_elem_of_In. Qed.

(** The state after [then] of a request of the current run. *)
Lemma received_frame l a s : let s' := received l a s in
  deps (data s') = deps (data s) /\ gen s' = gen s /\ inflight s' = inflight s /\ queue s' = queue s /\ active s' = active s /\ loads s' = loads s.
Proof.
  unfold received. destruct (answer_list a); [|done]. destruct (current s l); [|done]. cbn. repeat split; try done. destruct (data s) as [d|]; [|done].
  destruct (_ && _); [apply merge_deps | done].
Qed.

Lemma current_deps s s' l : deps (data s') = deps (data s) -> gen s' = gen s -> current s' l = current s l.
Proof. intros H1 H2. unfold current. by rewrite H2, (listens_deps _ _ H1). Qed.

Lemma answered_tracked i a s : tracked s -> pumped s -> tracked (answered i a s) /\ pumped (answered i a s).
Proof.
  intros Ht Hp. unfold answered. destruct (loads s !! i) as [l|] eqn:El; [|done]. destruct Ht as [H1 H2 H3 H4 H5 H6].
  destruct (proj1 (Forall_lookup _ _) H3 i l El) as [Hg Hl]. set (s0 := mkLoader _ _ _ _ _ _ _).
  destruct (received_frame l a s0) as (R1 & R2 & R3 & R4 & R5 & R6). set (s1 := received l a s0) in *. change (deps (data s0)) with (deps (data s)) in R1.
  assert (Hc : current s1 l = true) by (rewrite (current_deps s0 s1 l) by done; unfold current; cbn; by rewrite Hl, Hg, Nat.eqb_refl).
  unfold settle. rewrite Hc. apply pump_tracked. pose proof (listens_deps _ _ R1) as RL. pose proof (delete_Permutation _ _ _ El) as Hd.
  assert (Hlen : length (loads s) = S (length (delete i (loads s)))) by (by rewrite Hd at 1).
  assert (Hin : l_key l ∈ inflight s) by (rewrite H5; apply elem_of_app; right; apply list_elem_of_In, in_map, list_elem_of_In; by eapply list_elem_of_lookup_2).
  split; cbn [active loads gen data queue inflight]; rewrite ?R2, ?R3, ?R4, ?R5, ?R6, ?RL; cbn [s0 active loads gen data queue inflight].
  - rewrite H1, Hlen. done.
  - lia.
  - by apply Forall_delete.
  - done.
  - apply (Permutation_cons_inv (a := l_key l)). rewrite <- drop_key_perm by done. rewrite H5, Hd at 1. cbn [map]. symmetry. apply Permutation_middle.
  - by apply drop_key_NoDup.
Qed.

(** ** What the loader promises *)

(** The states of a run in which the workspace changes only while nothing is under way. *)
Inductive calm : Loader -> Prop :=
  | calm_new : calm new_loader
  | calm_step s i : calm s -> match i with IData d => deps d = deps (data s) \/ loads s = [] | _ => True end -> calm (handle s i).

Lemma calm_tracked s : calm s -> tracked s /\ pumped s.
Proof.
  induction 1 as [|s i _ [Ht Hp] Hi].
  - split; [|by intros []]. split; cbn; try done; try (unfold MAX_CONCURRENT; lia); constructor.
  - destruct i as [d|k l|e|i a]; cbn [handle].
    + unfold set_data. destruct (decide _) as [E|E]; [|destruct Hi as [?|El]; [done|]].
      * split; [|exact Hp]. destruct Ht as [H1 H2 H3 H4 H5 H6]. split; cbn [active loads gen data queue inflight]; rewrite ?(listens_deps _ _ E); done.
      * split; [|by intros []]. destruct Ht as [H1 H2 H3 H4 H5 H6]. split; cbn [active loads gen data queue inflight]; rewrite ?El; try done; [by rewrite <- El | constructor].
    + destruct (requestEntityUpdates k l) as [r|]; [|done]. unfold onRequest. destruct (listens (data s)) as [w|] eqn:El; [|done].
      apply pump_tracked. apply enqueue_all_tracked; [by rewrite El | done].
    + unfold onActivity. destruct (listens (data s)) as [w|] eqn:El; [|done]. destruct (entityUpdatesEventTarget e) as [t|]; [|done]. destruct (has _ _); [|done].
      apply pump_tracked, enqueue_tracked; [by rewrite El | done].
    + by apply answered_tracked.
Qed.

(** An enqueued key is loaded or under way, and stays so while others are enqueued. *)
Definition served (s : Loader) (k : string) : Prop := k ∈ loaded s \/ k ∈ inflight s.

Lemma enqueue_served f s e k : served s k \/ k = q_key e -> served (enqueue f s e) k.
Proof.
  unfold enqueue, served. destruct (has (q_key e) (inflight s)) eqn:E1; unfold q_key in E1; rewrite E1; cbn [orb].
  - apply has_spec in E1. intros [?| ->]; auto.
  - destruct (has (entity_key e.1 e.2) (loaded s)) eqn:E2.
    + apply has_spec in E2. destruct f; cbn [negb andb]; [|by intros [?| ->]; auto]. cbn. rewrite add_in. unfold q_key. intros [[?|?]| ->]; auto.
    + rewrite andb_false_r. cbn. rewrite add_in. unfold q_key. intros [[?|?]| ->]; auto.
Qed.

Lemma enqueue_all_served f l s k : served s k \/ k ∈ map q_key l -> served (fold_left (enqueue f) l s) k.
Proof.
  revert s. induction l as [|e l IH]; intros s H; cbn [fold_left]; [destruct H as [?|H]; [done | by apply elem_of_nil in H]|].
  apply IH. cbn [map] in H. rewrite elem_of_cons in H. destruct H as [?|[?|?]]; [left; apply enqueue_served; auto | left; apply enqueue_served; auto | auto].
Qed.

Lemma onRequest_served r s k : is_Some (listens (data s)) -> k ∈ map (entity_key (kind r)) (take MAX_PER_REQUEST (ids r)) -> served (onRequest r s) k.
Proof.
  intros [w Hw] Hk. unfold onRequest. rewrite Hw. unfold served. destruct (pump_same (fold_left (enqueue false) (map (pair (kind r)) (take MAX_PER_REQUEST (ids r))) s)) as (_ & _ & -> & ->).
  apply enqueue_all_served. right. rewrite map_map. exact Hk.
Qed.

Lemma merge_get d k i u : map_get i (updates_of k (mergeEntityUpdates d k i u)) = Some u.
Proof. destruct k; cbn; apply map_get_set_eq. Qed.

(** The answer to a request of the current run is in the data. *)
Lemma answered_data s i l a u : tracked s -> loads s !! i = Some l -> answer_list a = Some u ->
  exists d, data (answered i a s) = Some d /\ map_get (l_id l) (updates_of (l_kind l) d) = Some u /\ l_key l ∈ loaded (answered i a s).
Proof.
  intros [H1 H2 H3 H4 H5 H6] El Ea. destruct (proj1 (Forall_lookup _ _) H3 i l El) as [Hg Hl]. unfold answered. rewrite El.
  set (s0 := mkLoader _ _ _ _ _ _ _). assert (Hc : current s0 l = true) by (unfold current; cbn; by rewrite Hl, Hg, Nat.eqb_refl).
  assert (Hs : forall x, data (settle l x) = data x /\ loaded (settle l x) = loaded x).
  { intros x. unfold settle. destruct (current x l); [|done]. by destruct (pump_same (mkLoader (data x) (gen x) (loaded x) (drop_key (l_key l) (inflight x)) (queue x) (Nat.pred (active x)) (loads x))) as (-> & _ & -> & _). }
  destruct (Hs (received l a s0)) as [-> ->]. unfold received. rewrite Ea, Hc. cbn [data loaded]. unfold listens in Hl. change (data s0) with (data s).
  destruct (data s) as [d|]; [|done]. destruct (_ && _); [|done]. injection Hl as <- <-. rewrite !String.eqb_refl. cbn [andb].
  eexists. split; [reflexivity|]. split; [apply merge_get|]. apply add_in. auto.
Qed.

(** Each answer leaves one request less to do. *)
Lemma answered_work s i l a : loads s !! i = Some l -> let s' := answered i a s in (S (length (queue s') + length (loads s')) = length (queue s) + length (loads s))%nat.
Proof.
  intros El. unfold answered. rewrite El. pose proof (delete_Permutation _ _ _ El) as Hd. assert (Hlen : length (loads s) = S (length (delete i (loads s)))) by (by rewrite Hd at 1).
  set (s0 := mkLoader _ _ _ _ _ _ _). destruct (received_frame l a s0) as (_ & _ & _ & R4 & _ & R6). unfold settle.
  destruct (current _ l); [rewrite pump_work|]; cbn [queue loads]; rewrite R4, R6; cbn [s0 queue loads]; lia.
Qed.

(** C40 (entity_updates_sound).  As long as the workspace changes only while no load is under way (the last examples show what happens otherwise): at most four requests run at once, never two for one entity; nothing waits while there is room, so every request is sent
    once enough answers have come (each answer leaves one less); every entity of a request (the first 60) is loaded, waiting or loading; and an answer is shown in the data. *)
Theorem entity_updates_sound s : calm s ->
  (length (loads s) <= MAX_CONCURRENT)%nat /\ NoDup (map l_key (loads s))
  /\ ((length (loads s) < MAX_CONCURRENT)%nat -> queue s = []) /\ (loads s = [] -> inflight s = [])
  /\ (forall i l a, loads s !! i = Some l -> let s' := answered i a s in (S (length (queue s') + length (loads s')) = length (queue s) + length (loads s))%nat)
  /\ (forall r k, is_Some (listens (data s)) -> k ∈ map (entity_key (kind r)) (take MAX_PER_REQUEST (ids r)) -> served (onRequest r s) k)
  /\ (forall i l a u, loads s !! i = Some l -> answer_list a = Some u ->
        exists d, data (answered i a s) = Some d /\ map_get (l_id l) (updates_of (l_kind l) d) = Some u /\ l_key l ∈ loaded (answered i a s)).
Proof.
  intros [Ht Hp]%calm_tracked. pose proof Ht as [H1 H2 H3 H4 H5 H6].
  assert (Hq : (length (loads s) < MAX_CONCURRENT)%nat -> queue s = []).
  { intros Hlt. destruct (queue s) as [|e q] eqn:E; [done|]. exfalso. assert (active s = MAX_CONCURRENT) by (apply Hp; by rewrite E). lia. }
  split; [lia|]. split; [rewrite H5 in H6; by apply NoDup_app in H6 as (_ & _ & ?)|]. split; [done|]. split.
  { intros E. rewrite E in Hq. assert (Eq : queue s = []) by (apply Hq; cbn; unfold MAX_CONCURRENT; lia). rewrite Eq, E in H5. cbn in H5. by apply Permutation_nil_r in H5. }
  split; [intros; by eapply answered_work|]. split; [intros; by apply onRequest_served|]. intros i l a u. by apply answered_data.
Qed.

(** ** Runs *)

Module Demo.
Definition acme (ws : string) : Data := mkData ws "me" true [] [].
Definition five : Input := IRequest project (map Some ["a"; "b"; "c"; "d"; "e"; "a"]).

(** Five requests, four of them at once; the fifth is sent when the first is answered. *)
Definition s1 : Loader := run [IData (Some (acme "acme")); five].

(** Four requests at a time at five entities; the fifth is sent when the first is answered. *)
Lemma entity_updates_sound_witness :
  map l_id (loads s1) = ["a"; "b"; "c"; "d"] /\ queue s1 = [(project, "e")] /\ NoDup (map l_key (loads s1))
  /\ map l_id (loads (handle s1 (IAnswer 0 (AList [JStr "u"])))) = ["b"; "c"; "d"; "e"].
Proof.
  split; [vm_compute; reflexivity|]. split; [vm_compute; reflexivity|]. split; [|vm_compute; reflexivity].
  apply (entity_updates_sound s1). apply (calm_step (run [IData (Some (acme "acme"))]) five); [|exact I].
  apply (calm_step new_loader (IData (Some (acme "acme")))); [apply calm_new | right; reflexivity].
Defined.

(** The workspace changes while four requests are under way.  A request for the new workspace waits; once the old ones are answered nothing is
    under way, and it still waits: the [pump] of a disposed run does nothing, and [active] counted its requests. *)
Lemma switched_requests_wait :
  let s := run ([IData (Some (acme "acme")); five; IData (Some (acme "other")); IRequest project [Some "x"]] ++ repeat (IAnswer 0 (AList [])) 4) in
  loads s = [] /\ active s = 0%nat /\ queue s = [(project, "x")] /\ listens (data s) = Some ("other", "me").
Proof. vm_compute. done. Qed.

(** An answer to a request of the old workspace takes the key out of the new one's: two requests for one entity run at once. *)
Lemma switched_requests_twice :
  let s := run [IData (Some (acme "acme")); IRequest project [Some "a"]; IData (Some (acme "other")); IRequest project [Some "a"]; IAnswer 0 AFail; IRequest project [Some "a"]] in
  map (fun l => (l_ws l, l_id l)) (loads s) = [("other", "a"); ("other", "a")].
Proof. vm_compute. done. Qed.
End Demo.
