(* ===== verification/NavigationCache.v ===== *)
(** * The cached directory of a workspace (web/src/lib/navigation-cache.ts)

    The application paints the navigation from a snapshot of the workspace's directory before the server answers.  Snapshots are held in memory and in the
    browser's storage, one per viewer and workspace; they hold no issue bodies, a snapshot that came
    from the cache is never written back, and signing out clears them, the writes that still wait for an idle moment included.

    [Cache] is the module's state.  The storage outlives the page: a run starts with whatever it holds, records of older builds
    included, and a reload loses everything but the storage.  The storage may be missing, and a call may fail: an input says whether
    the browser accepts the access. *)

From Stdlib Require Import ZArith Lia Bool List.
From stdpp Require Import base list strings.
From S2P Require Import Prelude JsString JsMap Json RealtimeCaches.
Import IssueCache.

Local Set Warnings "-register-all".

(** ** Snapshots *)

(** The object [ref] with the parts that are rewritten; [rest] are the other fields. *)
Record Data := mkData { ref : nat; viewer : string; urlKey : string; issues : list Issue; documents : list (list (string * json)); agentSessions : list (list (string * json)); rest : list (string * json) }.

(** [delete preview.description] and the like: the field is absent. *)
Definition stripIssue (i : Issue) : Issue :=
  mkIssue (id i) (version i) (Some true) (Some true) None None None (reactions i) (subscriberIds i) (IssueCache.rest i).

(** A field that is [undefined] does not reach the storage. *)
Definition strip_document (d : list (string * json)) : list (string * json) := map_delete "contentData" (map_delete "contentState" (map_set "content" (JStr "") d)).
Definition strip_session (d : list (string * json)) : list (string * json) := map_set "messages" (JArr []) d.

Definition emptied : list (string * json) :=
  [("comments", JObj []); ("activities", JObj []); ("issueHistoryCursors", JObj []); ("documentContentDrafts", JArr []); ("projectUpdates", JObj []); ("initiativeUpdates", JObj []);
   ("aiConversations", JArr []); ("aiPromptProgress", JArr []); ("agentActivities", JArr []); ("notifications", JArr []); ("notificationDeliveries", JArr []);
   ("integrationDeliveries", JArr []); ("auditLog", JArr []); ("trash", JArr []); ("importJobs", JArr []); ("exportJobs", JArr []); ("migrationJobs", JArr [])].

Definition set_fields (l : list (string * json)) (o : list (string * json)) : list (string * json) := fold_left (fun o kv => map_set kv.1 kv.2 o) l o.

(** A new object [r]. *)
Definition toNavigationSnapshot (r : nat) (d : Data) : Data :=
  mkData r (viewer d) (urlKey d) (map stripIssue (issues d)) (map strip_document (documents d)) (map strip_session (agentSessions d)) (set_fields emptied (rest d)).

(** The same contents in another object. *)
Definition copy (r : nat) (d : Data) : Data := mkData r (viewer d) (urlKey d) (issues d) (documents d) (agentSessions d) (rest d).

(** ** The cache *)

Record NavRecord := mkRecord { viewerId : string; workspaceKey : string; content : Data }.

(** What [JSON.parse] makes of a stored text. *)
Inductive Stored := SRecord (r : NavRecord) | SCorrupt.

Record Pending := mkPending { p_viewer : string; p_ws : string; p_data : Data }.

Record Cache := mkCache {
  memory : list (string * NavRecord);
  storage : option (list (string * Stored));
  pendingWrites : list (string * Pending);
  hydratedSnapshots : list nat;
  next_ref : nat;
  last_workspace : option (string * string) }.

Definition storagePrefix : string := "flow:navigation:".
Definition storageKey (v w : string) : string := storagePrefix +:+ v +:+ ":" +:+ w.

Definition set_memory (m : list (string * NavRecord)) (c : Cache) : Cache := mkCache m (storage c) (pendingWrites c) (hydratedSnapshots c) (next_ref c) (last_workspace c).
Definition set_storage (s : option (list (string * Stored))) (c : Cache) : Cache := mkCache (memory c) s (pendingWrites c) (hydratedSnapshots c) (next_ref c) (last_workspace c).
Definition set_pending (p : list (string * Pending)) (c : Cache) : Cache := mkCache (memory c) (storage c) p (hydratedSnapshots c) (next_ref c) (last_workspace c).
Definition set_last (l : option (string * string)) (c : Cache) : Cache := mkCache (memory c) (storage c) (pendingWrites c) (hydratedSnapshots c) (next_ref c) l.

Definition alloc (c : Cache) : nat * Cache := (next_ref c, mkCache (memory c) (storage c) (pendingWrites c) (hydratedSnapshots c) (S (next_ref c)) (last_workspace c)).

Definition markNavigationHydrated (d : Data) (c : Cache) : Cache := mkCache (memory c) (storage c) (pendingWrites c) (ref d :: hydratedSnapshots c) (next_ref c) (last_workspace c).
Definition isNavigationHydrated (d : Data) (c : Cache) : bool := existsb (Nat.eqb (ref d)) (hydratedSnapshots c).
Definition carryNavigationHydration (from : option Data) (to : Data) (c : Cache) : Cache :=
  match from with Some f => if isNavigationHydrated f c then markNavigationHydrated to c else c | None => c end.

Definition isAuthorizedRecord (r : option NavRecord) (v w : string) : bool :=
  match r with
  | Some r => (viewerId r =s v) && (workspaceKey r =s w) && (viewer (content r) =s v) && (urlKey (content r) =s w)
  | None => false
  end.

Definition remembered (v w : string) (c : Cache) : option Data :=
  let r := map_get (storageKey v w) (memory c) in if isAuthorizedRecord r v w then option_map content r else None.

Definition readNavigationCache (ok : bool) (v w : string) (c : Cache) : option Data * Cache :=
  if negb (truthy v) || negb (truthy w) then (None, c)
  else
    let key := storageKey v w in
    let forget := set_memory (map_delete key (memory c)) c in
    match storage c with
    | None => (remembered v w c, c)
    | Some s =>
        if negb ok then (None, forget)
        else match map_get key s with
             | None => (remembered v w c, c)
             | Some SCorrupt => (None, forget)
             | Some (SRecord r) =>
                 if isAuthorizedRecord (Some r) v w then
                   let (i, c1) := alloc c in
                   let r' := mkRecord (viewerId r) (workspaceKey r) (copy i (content r)) in
                   (Some (content r'), set_memory (map_set key r' (memory c1)) c1)
                 else (None, forget)
             end
    end.

Definition writeNavigationCache (ok : bool) (v w : string) (d : Data) (c : Cache) : Cache :=
  if negb (truthy v) || negb (truthy w) || negb (viewer d =s v) || negb (urlKey d =s w) then c
  else if isNavigationHydrated d c then c
  else
    let (i, c1) := alloc c in
    let r := mkRecord v w (toNavigationSnapshot i d) in
    let c2 := set_memory (map_set (storageKey v w) r (memory c1)) c1 in
    match storage c2 with
    | None => c2
    | Some s => if ok then set_storage (Some (map_set (storageKey v w) (SRecord r) s)) c2 else c2
    end.

Definition writeNavigationCacheWhenIdle (v w : string) (d : Data) (c : Cache) : Cache :=
  if isNavigationHydrated d c then c else set_pending (map_set (storageKey v w) (mkPending v w d) (pendingWrites c)) c.

(** The idle callback of a key. *)
Definition idle (ok : bool) (key : string) (c : Cache) : Cache :=
  match map_get key (pendingWrites c) with
  | Some p => writeNavigationCache ok (p_viewer p) (p_ws p) (p_data p) (set_pending (map_delete key (pendingWrites c)) c)
  | None => c
  end.

Definition without {V} (prefix : string) (m : list (string * V)) : list (string * V) := List.filter (fun e => negb (startsWith prefix e.1)) m.

Definition cancelPendingWrites (prefix : string) (c : Cache) : Cache := set_pending (without prefix (pendingWrites c)) c.

Definition readRememberedWorkspace (ok : bool) (c : Cache) : option (string * string) :=
  match storage c, last_workspace c with
  | Some _, Some (v, w) => if ok && truthy v && truthy w then Some (v, w) else None
  | _, _ => None
  end.

Definition rememberWorkspace (ok : bool) (v w : string) (c : Cache) : Cache :=
  if decide (readRememberedWorkspace ok c = Some (v, w)) then c
  else match storage c with Some _ => if ok then set_last (Some (v, w)) c else c | None => c end.

(** An argument that is not given is the empty text. *)
Definition clearNavigationCache (ok : bool) (v w : string) (c : Cache) : Cache :=
  let both := truthy v && truthy w in
  let prefix := if truthy v then storagePrefix +:+ v +:+ ":" else storagePrefix in
  let c1 := cancelPendingWrites (if both then storageKey v w else prefix) c in
  let c2 := if negb (truthy v) && ok then set_last None c1 else c1 in
  let c3 := set_memory (if both then map_delete (storageKey v w) (memory c2) else without prefix (memory c2)) c2 in
  match storage c3 with
  | Some s => if ok then set_storage (Some (if both then map_delete (storageKey v w) s else without prefix s)) c3 else c3
  | None => c3
  end.

Record Preview := mkPreview { pv_viewer : string; pv_key : string; pv_issue : Issue }.

(** The snapshot that is shown while the workspace loads, and the cache with its mark. *)
Definition hydrateWorkspaceNavigation (current cached : option Data) (requested v : string) (preview : option Preview) (c : Cache) : option Data * Cache :=
  let fresh :=
    match cached with
    | Some d =>
        if negb (viewer d =s v) || negb (urlKey d =s requested) then (None, c)
        else
          let (i, c1) := alloc c in
          let shown := match preview with
                       | Some p => if (pv_viewer p =s v) && startsWith (requested +:+ ":") (pv_key p) && negb (summary (pv_issue p))
                                   then mergeIssueRecords (issues d) [pv_issue p] 2000 else issues d
                       | None => issues d
                       end in
          let h := mkData i (viewer d) (urlKey d) shown (documents d) (agentSessions d) (map_set "notifications" (JArr []) (rest d)) in
          (Some h, markNavigationHydrated h c1)
    | None => (None, c)
    end in
  match current with
  | Some d => if urlKey d =s requested then (Some d, c) else fresh
  | None => fresh
  end.

Definition workspaceBootstrapPhase (loadedKey : option string) (requested : string) (inFlight : option string) (requestKey : string) : string :=
  if negb (bool_decide (loadedKey = Some requested)) then "continue" else if bool_decide (inFlight = Some requestKey) then "continue" else "skip".

(** ** Runs *)

Inductive Input :=
  | IRead (ok : bool) (v w : string)
  | IWrite (ok : bool) (v w : string) (d : Data)
  | IWriteIdle (v w : string) (d : Data)
  | IIdle (ok : bool) (key : string)
  | IClear (ok : bool) (v w : string)
  | IRemember (ok : bool) (v w : string)
  | IHydrate (current cached : option Data) (requested v : string) (preview : option Preview)
  | ICarry (from : option Data) (to : Data)
  | IReload.

(** The snapshots that were handed in for a viewer and a workspace, and those that were found in the storage. *)
Inductive Source := Handed (d : Data) | Found (d : Data).
Definition Offer : Type := string * string * Source.

Definition covers (v w : string) (o : Offer) : bool := if truthy v then (o.1.1 =s v) && (negb (truthy w) || (o.1.2 =s w)) else true.

Definition step (s : Cache * list Offer) (i : Input) : Cache * list Offer :=
  let (c, os) := s in
  match i with
  | IRead ok v w => ((readNavigationCache ok v w c).2, os)
  | IWrite ok v w d => (writeNavigationCache ok v w d c, (v, w, Handed d) :: os)
  | IWriteIdle v w d => (writeNavigationCacheWhenIdle v w d c, (v, w, Handed d) :: os)
  | IIdle ok key => (idle ok key c, os)
  | IClear ok v w => (clearNavigationCache ok v w c, if ok then List.filter (fun o => negb (covers v w o)) os else os)
  | IRemember ok v w => (rememberWorkspace ok v w c, os)
  | IHydrate cur cached r v p => ((hydrateWorkspaceNavigation cur cached r v p c).2, os)
  | ICarry from to => (carryNavigationHydration from to c, os)
  | IReload => (mkCache [] (storage c) [] [] (next_ref c) (last_workspace c), os)
  end.

(** A page with the records the browser's storage holds, or without a storage. *)
Definition new_cache (stored : option (list (string * Stored))) : Cache := mkCache [] stored [] [] 0 None.
Definition found (stored : option (list (string * Stored))) : list Offer :=
  omap (fun e => match e.2 with SRecord r => Some (viewerId r, workspaceKey r, Found (content r)) | SCorrupt => None end) (stored ?? []).
Definition run (stored : option (list (string * Stored))) (l : list Input) : Cache * list Offer := fold_left step l (new_cache stored, found stored).

(** ** The invariant *)

Definition snapshot_of (os : list Offer) (v w : string) (d : Data) : Prop :=
  exists d0 i, viewer d0 = v /\ urlKey d0 = w
    /\ (In (v, w, Handed d0) os /\ d = toNavigationSnapshot i d0 \/ In (v, w, Found d0) os /\ d = copy i d0).

Definition rec_ok (os : list Offer) (e : string * NavRecord) : Prop := e.1 = storageKey (viewerId e.2) (workspaceKey e.2) /\ snapshot_of os (viewerId e.2) (workspaceKey e.2) (content e.2).
(** A stored record that a read would accept. *)
Definition stored_ok (os : list Offer) (e : string * Stored) : Prop :=
  match e.2 with
  | SRecord r => e.1 = storageKey (viewerId r) (workspaceKey r) -> viewer (content r) = viewerId r -> urlKey (content r) = workspaceKey r ->
      snapshot_of os (viewerId r) (workspaceKey r) (content r)
  | SCorrupt => True
  end.
Definition pending_ok (os : list Offer) (e : string * Pending) : Prop := e.1 = storageKey (p_viewer e.2) (p_ws e.2) /\ In (p_viewer e.2, p_ws e.2, Handed (p_data e.2)) os.

Definition rows {V} (P : string * V -> Prop) (m : list (string * V)) : Prop := NoDup (map_keys m) /\ Forall P m.

Record inv (s : Cache * list Offer) : Prop := {
  v_memory : rows (rec_ok s.2) (memory s.1);
  v_storage : forall m, storage s.1 = Some m -> rows (stored_ok s.2) m;
  v_pending : rows (pending_ok s.2) (pendingWrites s.1) }.

Lemma rows_set {V} (P : string * V -> Prop) k x m : P (k, x) -> rows P m -> rows P (map_set k x m).
Proof. intros Hx [H1 H2]. split; [by apply map_set_NoDup|]. apply map_set_Forall; [by intros ? <- | done]. Qed.

Lemma rows_delete {V} (P Q : string * V -> Prop) k m : rows P m -> (forall e, e.1 <> k -> P e -> Q e) -> rows Q (map_delete k m).
Proof.
  intros [H1 H2] HQ. split; [by apply map_delete_NoDup|]. apply List.Forall_forall. intros e [He Hk]%map_delete_In; [|done]. apply HQ; [done|]. by apply (proj1 (List.Forall_forall _ _) H2).
Qed.

Lemma rows_without {V} (P Q : string * V -> Prop) p m : rows P m -> (forall e, startsWith p e.1 = false -> P e -> Q e) -> rows Q (without p m).
Proof.
  intros [H1 H2] HQ. unfold without. split.
  - clear H2. unfold map_keys in *. induction m as [|e m IH]; [done|]. cbn in *. apply NoDup_cons in H1 as [Hn H1]. destruct (negb _); [|by apply IH]. cbn. constructor; [|by apply IH].
    rewrite list_elem_of_In, in_map_iff. intros (e' & E & [He _]%filter_In). apply Hn, list_elem_of_In. rewrite <- E. by apply in_map.
  - apply List.Forall_forall. intros e [He Hk%negb_true_iff]%filter_In. apply HQ; [done|]. by apply (proj1 (List.Forall_forall _ _) H2).
Qed.

Lemma rows_impl {V} (P Q : string * V -> Prop) m : rows P m -> (forall e, P e -> Q e) -> rows Q m.
Proof. intros [H1 H2] HQ. split; [done|]. eapply List.Forall_impl; [|exact H2]. apply HQ. Qed.

Lemma rows_get {V} (P : string * V -> Prop) k x m : rows P m -> map_get k m = Some x -> P (k, x).
Proof. intros [_ H] Hg. apply (proj1 (List.Forall_forall _ _) H). by apply map_get_In. Qed.

(** What is known of the rows outlives a change of the offers that keeps theirs. *)
Lemma snapshot_keep os os' v w d : (forall x, In (v, w, x) os -> In (v, w, x) os') -> snapshot_of os v w d -> snapshot_of os' v w d.
Proof. intros H (d0 & i & H1 & H2 & [[H3 ->]|[H3 ->]]); exists d0, i; auto 6. Qed.

Lemma rec_ok_keep os os' e : (forall d, In (viewerId e.2, workspaceKey e.2, d) os -> In (viewerId e.2, workspaceKey e.2, d) os') -> rec_ok os e -> rec_ok os' e.
Proof. intros H [H1 H2]. split; [done|]. by eapply snapshot_keep. Qed.

Lemma stored_ok_keep os os' e : (forall r d, e.2 = SRecord r -> In (viewerId r, workspaceKey r, d) os -> In (viewerId r, workspaceKey r, d) os') -> stored_ok os e -> stored_ok os' e.
Proof. unfold stored_ok. destruct e as [k [r|]]; [|done]. cbn. intros H Hs E1 E2 E3. eapply snapshot_keep; [|by apply Hs]. intros x. by apply H. Qed.

Lemma inv_offer c os o : inv (c, os) -> inv (c, o :: os).
Proof.
  intros [H1 H2 H3]. split; cbn in *.
  - eapply rows_impl; [exact H1|]. intros e. apply rec_ok_keep. intros d ?. by right.
  - intros m Hm. eapply rows_impl; [exact (H2 m Hm)|]. intros e. apply stored_ok_keep. intros r d _ ?. by right.
  - eapply rows_impl; [exact H3|]. intros e [E H]. split; [done | by right].
Qed.

Lemma write_inv ok v w d c os : inv (c, os) -> In (v, w, Handed d) os -> inv (writeNavigationCache ok v w d c, os).
Proof.
  intros [H1 H2 H3] Ho. unfold writeNavigationCache. destruct (negb (truthy v) || negb (truthy w)) eqn:Ev; cbn [orb]; [by split|].
  destruct (String.eqb_spec (viewer d) v) as [Ev'|]; cbn [negb orb]; [|by split]. destruct (String.eqb_spec (urlKey d) w) as [Ew|]; cbn [negb orb]; [|by split].
  destruct (isNavigationHydrated d c); [by split|]. cbn [alloc].
  assert (Hr : rec_ok os (storageKey v w, mkRecord v w (toNavigationSnapshot (next_ref c) d))) by (split; [done|]; exists d, (next_ref c); auto).
  assert (Hm : rows (rec_ok os) (map_set (storageKey v w) (mkRecord v w (toNavigationSnapshot (next_ref c) d)) (memory c))) by (by apply rows_set).
  cbn. destruct (storage c) as [m|] eqn:Es; [|by split]. destruct ok; split; cbn; try done.
  - intros m' [= <-]. apply rows_set; [intros _ _ _; apply Hr | by apply H2].
  - intros m' [= <-]. by apply H2.
Qed.

Lemma copy_snapshot os v w d i : snapshot_of os v w d -> snapshot_of os v w (copy i d).
Proof. intros (d0 & j & H1 & H2 & [[H3 ->]|[H3 ->]]); exists d0, i; auto. Qed.

Lemma forget_inv k c os : inv (c, os) -> inv (set_memory (map_delete k (memory c)) c, os).
Proof. intros [H1 H2 H3]. split; cbn in *; [|done|done]. by eapply rows_delete. Qed.

Lemma read_inv ok v w c os : inv (c, os) -> inv ((readNavigationCache ok v w c).2, os).
Proof.
  intros HI. pose proof HI as [H1 H2 H3]. unfold readNavigationCache. destruct (_ || _); [done|]. destruct (storage c) as [m|] eqn:Es; [|done]. destruct ok; cbn [negb]; [|by apply forget_inv].
  destruct (map_get (storageKey v w) m) as [[r|]|] eqn:Eg; [|by apply forget_inv | done]. destruct (isAuthorizedRecord (Some r) v w) eqn:Ea; [|by apply forget_inv].
  cbn in Ea. rewrite !andb_true_iff, !String.eqb_eq in Ea. destruct Ea as [[[<- <-] E3] E4].
  pose proof (rows_get _ _ _ _ (H2 m Es) Eg eq_refl E3 E4) as Hs. cbn in Hs. split; cbn; [|intros m' Em; apply H2; cbn; congruence | done].
  apply rows_set; [|exact H1]. split; [done|]. cbn. by apply copy_snapshot.
Qed.

(** A key that a cleared record or write would have. *)
Lemma prefix_refl a b : startsWith a (a +:+ b) = true.
Proof. unfold startsWith. apply prefix_spec. by exists b. Qed.

Lemma storageKey_viewer v w : startsWith (storagePrefix +:+ v +:+ ":") (storageKey v w) = true.
Proof. replace (storageKey v w) with ((storagePrefix +:+ v +:+ ":") +:+ w); [apply prefix_refl|]. unfold storageKey. by rewrite !string_app_assoc. Qed.

Lemma clear_prefix v w v' w' : truthy v && truthy w = false -> covers v w (v', w', Handed (mkData 0 "" "" [] [] [] [])) = true ->
  startsWith (if truthy v then storagePrefix +:+ v +:+ ":" else storagePrefix) (storageKey v' w') = true.
Proof.
  unfold covers. destruct (truthy v); cbn [andb fst snd]; [|intros _ _; apply prefix_refl]. intros ->. cbn [negb orb]. rewrite andb_true_r. intros ->%String.eqb_eq. apply storageKey_viewer.
Qed.

(** What a clear leaves keeps its offers. *)
Lemma kept_offer v w v' w' d (os : list Offer) : covers v w (v', w', d) = false -> In (v', w', d) os -> In (v', w', d) (List.filter (fun o => negb (covers v w o)) os).
Proof. intros Hc Hi. apply filter_In. by rewrite Hc. Qed.

Definition clear_prefix_of (v : string) : string := if truthy v then storagePrefix +:+ v +:+ ":" else storagePrefix.

(** The keys that a clear leaves. *)
Definition left_over (v w k : string) : Prop := if truthy v && truthy w then k <> storageKey v w else startsWith (clear_prefix_of v) k = false.

Lemma left_over_offer v w v' w' d (os : list Offer) : left_over v w (storageKey v' w') -> In (v', w', d) os -> In (v', w', d) (List.filter (fun o => negb (covers v w o)) os).
Proof.
  intros Hk. apply kept_offer. unfold left_over in Hk. destruct (truthy v && truthy w) eqn:Eb.
  - apply andb_true_iff in Eb as [Hv Hw]. unfold covers. rewrite Hv, Hw. cbn [negb orb fst snd]. destruct (String.eqb_spec v' v) as [->|]; [|done].
    by destruct (String.eqb_spec w' w) as [->|].
  - apply not_true_iff_false. intros Hc. unfold clear_prefix_of in Hk. rewrite (clear_prefix v w v' w' Eb) in Hk; done.
Qed.

Lemma rows_cleared {V} (P Q : string * V -> Prop) v w m : rows P m -> (forall e, left_over v w e.1 -> P e -> Q e) ->
  rows Q (if truthy v && truthy w then map_delete (storageKey v w) m else without (clear_prefix_of v) m).
Proof. intros Hr HQ. unfold left_over in HQ. destruct (_ && _); [by eapply rows_delete | by eapply rows_without]. Qed.

Lemma rows_cancelled {V} (P Q : string * V -> Prop) v w m : rows P m -> (forall e, left_over v w e.1 -> P e -> Q e) ->
  rows Q (without (if truthy v && truthy w then storageKey v w else clear_prefix_of v) m).
Proof.
  intros Hr HQ. eapply rows_without; [exact Hr|]. intros e He. apply HQ. unfold left_over. destruct (_ && _); [|done]. intros E. rewrite E in He.
  assert (startsWith (storageKey v w) (storageKey v w) = true) by (apply prefix_spec; exists ""; by rewrite append_empty_r). congruence.
Qed.

Lemma clear_inv v w c os : inv (c, os) -> inv (clearNavigationCache true v w c, List.filter (fun o => negb (covers v w o)) os).
Proof.
  intros [H1 H2 H3]. unfold clearNavigationCache. fold (clear_prefix_of v). rewrite andb_true_r. set (os' := List.filter _ os).
  assert (Hrec : forall e, left_over v w e.1 -> rec_ok os e -> rec_ok os' e).
  { intros e He Hr. pose proof Hr as [E _]. rewrite E in He. eapply rec_ok_keep; [|exact Hr]. intros d. by apply left_over_offer. }
  assert (Hmem := rows_cleared _ (rec_ok os') v w _ H1 Hrec).
  assert (Hpen : rows (pending_ok os') (without (if truthy v && truthy w then storageKey v w else clear_prefix_of v) (pendingWrites c))).
  { eapply rows_cancelled; [exact H3|]. intros e He [E Ho]. rewrite E in He. split; [done | by apply left_over_offer]. }
  assert (Hsto : forall m, storage c = Some m -> rows (stored_ok os') (if truthy v && truthy w then map_delete (storageKey v w) m else without (clear_prefix_of v) m)).
  { intros m Hm. eapply rows_cleared; [exact (H2 m Hm)|]. intros [k [r|]] He Hr; [|done].
    intros E1 E2 E3. cbn in E1. cbn [fst] in He. rewrite E1 in He. eapply snapshot_keep; [|by apply Hr]. intros x. by apply left_over_offer. }
  destruct (negb (truthy v)); cbn [set_last cancelPendingWrites set_pending set_memory storage memory pendingWrites];
    (destruct (storage c) as [m|] eqn:Es; split; [exact Hmem | intros m' [= <-]; exact (Hsto m eq_refl) | exact Hpen | exact Hmem | intros m' Em; cbn in Em; congruence | exact Hpen]).
Qed.

(** A clear that the browser refuses removes no more than what it could. *)
Lemma clear_failed_inv v w c os : inv (c, os) -> inv (clearNavigationCache false v w c, os).
Proof.
  intros [H1 H2 H3]. unfold clearNavigationCache. fold (clear_prefix_of v). rewrite andb_false_r. assert (Hmem := rows_cleared _ (rec_ok os) v w _ H1 (fun _ _ H => H)).
  assert (Hpen := rows_cancelled _ (pending_ok os) v w _ H3 (fun _ _ H => H)). cbn [set_last cancelPendingWrites set_pending set_memory storage memory pendingWrites].
  destruct (storage c) as [m|] eqn:Es; split; cbn; try done; intros m' E; apply H2; cbn; congruence.
Qed.

Lemma step_inv s i : inv s -> inv (step s i).
Proof.
  destruct s as [c os]. intros HI. destruct i as [ok v w|ok v w d|v w d|ok key|ok v w|ok v w|cur cached r v p|from to|]; cbn [step].
  - by apply read_inv.
  - apply write_inv; [by apply inv_offer | by left].
  - unfold writeNavigationCacheWhenIdle. apply (inv_offer _ _ (v, w, Handed d)) in HI as [H1 H2 H3]. destruct (isNavigationHydrated d c); [by split|]. split; cbn in *; [done | done|].
    apply rows_set; [|done]. split; [done | by left].
  - unfold idle. destruct (map_get key (pendingWrites c)) as [p|] eqn:Eg; [|done]. destruct HI as [H1 H2 H3]. destruct (rows_get _ _ _ _ H3 Eg) as [_ Ho].
    apply write_inv; [|done]. split; cbn in *; [done | done|]. by eapply rows_delete.
  - destruct ok; [by apply clear_inv | by apply clear_failed_inv].
  - unfold rememberWorkspace. destruct (decide _); [done|]. destruct (storage c) eqn:Es; [|done]. destruct ok; [|done]. destruct HI as [H1 H2 H3]. by split.
  - destruct HI as [H1 H2 H3].
    unfold hydrateWorkspaceNavigation. destruct cur as [dc|]; [destruct (urlKey dc =s r); [by split|]|]; (destruct cached as [d|]; [|by split]; destruct (_ || _); by split).
  - unfold carryNavigationHydration. destruct from as [f|]; [|done]. destruct (isNavigationHydrated f c); [|done]. destruct HI as [H1 H2 H3]. by split.
  - destruct HI as [H1 H2 H3]. split; cbn; [by split; constructor | done | by split; constructor].
Qed.

(** The keys of a storage are distinct. *)
Definition storage_ok (stored : option (list (string * Stored))) : Prop := NoDup (map_keys (stored ?? [])).

Lemma run_inv stored l : storage_ok stored -> inv (run stored l).
Proof.
  intros Hd. unfold run. assert (H0 : inv (new_cache stored, found stored)).
  { split; cbn; [by split; constructor | | by split; constructor]. intros m ->. unfold storage_ok in Hd. cbn in Hd. split; [done|].
    apply List.Forall_forall. intros [k [r|]] He; [|done]. intros E1 E2 E3. exists (content r), (ref (content r)). split; [done|]. split; [done|]. right.
    split; [|by destruct (content r)]. apply list_elem_of_In, list_elem_of_omap. exists (k, SRecord r). split; [by apply list_elem_of_In | done]. }
  revert H0. generalize (new_cache stored, found stored). induction l as [|i l IH]; intros s H; [done|]. cbn [fold_left]. apply IH, step_inv, H.
Qed.

(** ** What the cache promises *)

(** No body, no pending detail: what a snapshot shows of an issue. *)
Definition bare (i : Issue) : Prop := summary i = true /\ stale i = true /\ description i = None /\ descriptionState i = None /\ documentContent i = None.

Lemma read_snapshot ok v w s d : inv s -> (readNavigationCache ok v w s.1).1 = Some d -> snapshot_of s.2 v w d.
Proof.
  destruct s as [c os]. intros [H1 H2 H3]. cbn [fst snd] in *.
  assert (Hr : remembered v w c = Some d -> snapshot_of os v w d).
  { unfold remembered. destruct (map_get (storageKey v w) (memory c)) as [r|] eqn:Eg; [|done]. destruct (isAuthorizedRecord (Some r) v w) eqn:Ea; [|done]. intros [= <-].
    cbn in Ea. rewrite !andb_true_iff, !String.eqb_eq in Ea. destruct Ea as [[[<- <-] _] _]. apply (rows_get _ _ _ _ H1 Eg). }
  unfold readNavigationCache. destruct (_ || _); [done|]. destruct (storage c) as [m|] eqn:Es; [|exact Hr]. destruct ok; cbn [negb]; [|done].
  destruct (map_get (storageKey v w) m) as [[r|]|] eqn:Eg; [|done | exact Hr]. destruct (isAuthorizedRecord (Some r) v w) eqn:Ea; [|done]. cbn. intros [= <-].
  cbn in Ea. rewrite !andb_true_iff, !String.eqb_eq in Ea. destruct Ea as [[[<- <-] E3] E4]. apply copy_snapshot. by apply (rows_get _ _ _ _ (H2 m eq_refl) Eg).
Qed.

Lemma set_fields_get l o k x : NoDup (map_keys l) -> In (k, x) l -> map_get k (set_fields l o) = Some x.
Proof.
  unfold set_fields. revert o. induction l as [|[k' x'] l IH]; intros o Hn Hi; [done|]. cbn in *. apply NoDup_cons in Hn as [Hk Hn]. destruct Hi as [[= -> ->]|Hi]; [|by apply IH].
  clear IH. assert (G : forall o, map_get k o = Some x -> map_get k (fold_left (fun o kv => map_set kv.1 kv.2 o) l o) = Some x); [|apply G, map_get_set_eq].
  clear Hn o. induction l as [|[k2 x2] l IH]; intros o Ho; [done|]. cbn in *. apply not_elem_of_cons in Hk as [Hk1 Hk2]. apply IH; [done|]. by rewrite map_get_set_ne.
Qed.

Lemma emptied_distinct : NoDup (map_keys emptied).
Proof. apply (bool_decide_eq_true_1 (NoDup (map_keys emptied))). vm_compute. reflexivity. Qed.

(** After a clear no offer it covers is left, until one is made. *)
Definition offers_to (v : string) (i : Input) : bool := match i with IWrite _ v' _ _ | IWriteIdle v' _ _ => v' =s v | _ => false end.

Lemma offers_none v s l : Forall (fun i => offers_to v i = false) l -> Forall (fun o : Offer => o.1.1 <> v) s.2 -> Forall (fun o : Offer => o.1.1 <> v) (fold_left step l s).2.
Proof.
  intros H. revert s. induction H as [|i l Hi _ IH]; intros [c os] Ho; [done|]. cbn [fold_left]. apply IH. cbn [snd] in Ho.
  destruct i as [ok v' w|ok v' w d|v' w d|ok key|ok v' w|ok v' w|cur cached r v' p|from to|]; cbn [step snd]; try done.
  - constructor; [by apply String.eqb_neq | done].
  - constructor; [by apply String.eqb_neq | done].
  - destruct ok; [|done]. apply List.Forall_forall. intros o [Hin _]%filter_In. by apply (proj1 (List.Forall_forall _ _) Ho).
Qed.

(** A snapshot for the directory only: every issue a summary without its body, no comments, notifications and the like, no contents of documents. *)
Definition directory_only (d : Data) : Prop :=
  Forall bare (issues d) /\ (forall k x, In (k, x) emptied -> map_get k (rest d) = Some x) /\ Forall (fun o => map_get "content" o = Some (JStr "")) (documents d).

Lemma snapshot_directory i d : directory_only (toNavigationSnapshot i d).
Proof.
  split; [|split]; cbn [toNavigationSnapshot issues rest documents].
  - apply Forall_map, List.Forall_forall. done.
  - intros k x. apply set_fields_get, emptied_distinct.
  - apply Forall_map, List.Forall_forall. intros o _. cbn. unfold strip_document. rewrite !map_get_delete_ne by done. apply map_get_set_eq.
Qed.

(** C30 (navigation_cache_private).  Whatever the storage held at first, whatever the application does, reloads included, and whichever accesses the browser refuses: a snapshot that is read for a viewer and a workspace
    is theirs, and comes from one that was handed in for just them, or from a record that was found in the storage for them, since the last clear of them that the storage accepted.  One that was handed in is read
    with every issue reduced to a summary without its body, and without comments, notifications or documents' contents; what is shown of any of them, a found record of an older build included, has no notifications.
    Once a viewer is cleared and the storage accepts it, nothing is read for that viewer until a new snapshot is handed in: a write that waited for an idle moment does not bring one back. *)
Theorem navigation_cache_private stored l ok v w :
  storage_ok stored ->
  (forall d, (readNavigationCache ok v w (run stored l).1).1 = Some d ->
     viewer d = v /\ urlKey d = w
     /\ ((exists d0 i, In (v, w, Handed d0) (run stored l).2 /\ d = toNavigationSnapshot i d0 /\ directory_only d)
         \/ exists d0 i, In (v, w, Found d0) (run stored l).2 /\ d = copy i d0)
     /\ (forall preview c h c', hydrateWorkspaceNavigation None (Some d) w v preview c = (Some h, c') -> map_get "notifications" (rest h) = Some (JArr [])))
  /\ (forall l', Forall (fun i => offers_to v i = false) l' -> truthy v = true -> (readNavigationCache ok v w (run stored (l ++ IClear true v "" :: l')).1).1 = None).
Proof.
  intros Hst. split.
  - intros d Hd. destruct (read_snapshot ok v w _ d (run_inv stored l Hst) Hd) as (d0 & i & E1 & E2 & Hs).
    assert (Hv : viewer d = v /\ urlKey d = w) by (destruct Hs as [[_ ->]|[_ ->]]; done). split; [apply Hv|]. split; [apply Hv|]. split.
    + destruct Hs as [[Hi ->]|[Hi ->]]; [left | right]; exists d0, i; auto using snapshot_directory.
    + intros preview c h c'. unfold hydrateWorkspaceNavigation. destruct (_ || _); [done|]. cbn. intros [= <- _]. cbn [rest]. apply map_get_set_eq.
  - intros l' Hl Hv. destruct (readNavigationCache _ _ _ _).1 as [d|] eqn:Er; [|done]. exfalso.
    destruct (read_snapshot ok v w _ d (run_inv stored (l ++ IClear true v "" :: l') Hst) Er) as (d0 & i & _ & _ & Hs).
    assert (Hn : Forall (fun o : Offer => o.1.1 <> v) (run stored (l ++ IClear true v "" :: l')).2).
    { unfold run. rewrite fold_left_app. cbn [fold_left]. apply offers_none; [exact Hl|]. destruct (fold_left step l _) as [c os]. cbn [step snd]. apply List.Forall_forall.
      intros o [_ Hc%negb_true_iff]%filter_In E. unfold covers in Hc. rewrite Hv, E, String.eqb_refl in Hc. done. }
    destruct Hs as [[Hin _]|[Hin _]]; apply (proj1 (List.Forall_forall _ _) Hn) in Hin; done.
Qed.

(** A snapshot that was made from a cached one is marked, and a marked one is never written, now or later. *)
Lemma hydrated_marked cached requested v preview c h c' : hydrateWorkspaceNavigation None cached requested v preview c = (Some h, c') ->
  isNavigationHydrated h c' = true /\ viewer h = v /\ urlKey h = requested.
Proof.
  unfold hydrateWorkspaceNavigation. destruct cached as [d|]; [|done]. destruct (String.eqb_spec (viewer d) v) as [Ev|]; cbn [negb orb]; [|done].
  destruct (String.eqb_spec (urlKey d) requested) as [Ew|]; cbn [negb]; [|done]. cbn. intros [= <- <-]. unfold isNavigationHydrated. cbn. by rewrite Nat.eqb_refl.
Qed.

Lemma marks_stay s i d : i <> IReload -> isNavigationHydrated d s.1 = true -> isNavigationHydrated d (step s i).1 = true.
Proof.
  assert (Hw : forall ok v w x c, hydratedSnapshots (writeNavigationCache ok v w x c) = hydratedSnapshots c).
  { intros. unfold writeNavigationCache. destruct (_ || _); [done|]. destruct (isNavigationHydrated _ _); [done|]. cbn. destruct (storage c); [|done]. by destruct ok. }
  assert (Hm : forall x c, isNavigationHydrated d c = true -> isNavigationHydrated d (markNavigationHydrated x c) = true) by (intros x c H; unfold isNavigationHydrated in *; cbn; by rewrite H, orb_true_r).
  destruct s as [c os]. cbn [fst]. intros Hre H. destruct i as [ok v w|ok v w x|v w x|ok key|ok v w|ok v w|cur cached r v p|from to|]; cbn [step fst]; [..|done].
  - unfold readNavigationCache. destruct (_ || _); [done|]. destruct (storage c) as [m|]; [|done]. destruct ok; [|done]. destruct (map_get _ m) as [[r|]|]; [|done|done]. by destruct (isAuthorizedRecord _ _ _).
  - unfold isNavigationHydrated in *. by rewrite Hw.
  - unfold writeNavigationCacheWhenIdle. by destruct (isNavigationHydrated x c).
  - unfold idle. destruct (map_get _ _); [|done]. unfold isNavigationHydrated in *. by rewrite Hw.
  - unfold clearNavigationCache. destruct (negb (truthy v) && ok); cbn; (destruct (storage c); [by destruct ok | done]).
  - unfold rememberWorkspace. destruct (decide _); [done|]. destruct (storage c); [|done]. by destruct ok.
  - unfold hydrateWorkspaceNavigation. destruct cur as [y|]; [destruct (urlKey y =s r); [done|]|]; (destruct cached as [z|]; [|done]; destruct (_ || _); [done|]; by apply Hm).
  - unfold carryNavigationHydration. destruct from as [f|]; [|done]. destruct (isNavigationHydrated f c); [by apply Hm | done].
Qed.

Theorem hydrated_never_written cached requested v preview s h l ok v' w' :
  hydrateWorkspaceNavigation None cached requested v preview s.1 = (Some h, (step s (IHydrate None cached requested v preview)).1) -> ~ In IReload l ->
  let c := (fold_left step l (step s (IHydrate None cached requested v preview))).1 in
  writeNavigationCache ok v' w' h c = c /\ writeNavigationCacheWhenIdle v' w' h c = c.
Proof.
  intros Hh Hl c. apply hydrated_marked in Hh as [Hm _]. assert (Hc : isNavigationHydrated h c = true).
  { unfold c. revert Hm. generalize (step s (IHydrate None cached requested v preview)). clear -Hl. induction l as [|i l IH]; intros s Hm; [done|]. cbn [fold_left].
    apply IH; [intros Hi; apply Hl; by right|]. apply marks_stay; [intros ->; apply Hl; by left | exact Hm]. }
  unfold writeNavigationCache, writeNavigationCacheWhenIdle. rewrite Hc. split; [by destruct (_ || _) | done].
Qed.

Module Demo.
Definition board (r : nat) (w : string) : Data := mkData r "me" w [MergeDemo.issue "a" 3 false (Some (JStr "text"))] [[("id", JStr "d"); ("content", JStr "secret")]] [] [("notifications", JArr [JStr "n"])].

(** A write, and one that still waits when the viewer signs out. *)
Definition before : list Input := [IWrite true "me" "acme" (board 100 "acme"); IWriteIdle "me" "acme" (board 101 "acme")].

(** A record of an older build, with a body and notifications, and a text that does not parse. *)
Definition older : option (list (string * Stored)) := Some [(storageKey "me" "old", SRecord (mkRecord "me" "old" (board 7 "old"))); ("other", SCorrupt)].

Lemma navigation_cache_private_witness :
  (exists d, (readNavigationCache true "me" "acme" (run older before).1).1 = Some d /\ Forall bare (issues d))
  /\ (exists d, (readNavigationCache true "me" "old" (run older (before ++ [IReload])).1).1 = Some d /\ map_get "notifications" (rest d) = Some (JArr [JStr "n"]))
  /\ (readNavigationCache true "me" "acme" (run older (before ++ [IClear true "me" ""; IIdle true (storageKey "me" "acme")])).1).1 = None.
Proof.
  assert (Hs : storage_ok older) by (apply (bool_decide_eq_true_1 (NoDup (map_keys (older ?? [])))); vm_compute; reflexivity).
  split; [|split; [eexists; vm_compute; split; reflexivity|]].
  - destruct ((readNavigationCache true "me" "acme" (run older before).1).1) as [d|] eqn:E; [|vm_compute in E; discriminate]. exists d. split; [done|].
    destruct (proj1 (navigation_cache_private older before true "me" "acme" Hs) d E) as (_ & _ & [(d0 & i & _ & _ & Hd & _)|(d0 & i & Hi & _)] & _); [exact Hd|].
    vm_compute in Hi. repeat destruct Hi as [Hi|Hi]; done.
  - apply (proj2 (navigation_cache_private older before true "me" "acme" Hs) [IIdle true (storageKey "me" "acme")]); [by repeat constructor | done].
Defined.

(** A clear that the storage refuses leaves the record in it, and it is read again. *)
Lemma refused_clear_remains :
  isSome (readNavigationCache true "me" "acme" (run (Some []) (before ++ [IClear false "me" ""])).1).1 = true.
Proof. vm_compute. reflexivity. Qed.

(** Clearing one workspace cancels the waiting write of another whose key extends its key. *)
Lemma clear_cancels_other :
  let s := run (Some []) [IWriteIdle "me" "acme2" (board 100 "acme2"); IClear true "me" "acme"; IIdle true (storageKey "me" "acme2")] in
  (readNavigationCache true "me" "acme2" s.1).1 = None /\ map (fun o : Offer => o.1) s.2 = [("me", "acme2")].
Proof. vm_compute. done. Qed.
End Demo.
