(* ===== verification/WorkspaceSync.v ===== *)
(** * What an event of the stream does to the workspace a client holds
      (web/src/lib/realtime-dispatch.ts, web/src/store/apply-realtime-patch.ts, web/src/lib/resource-counts.ts,
      workspace-metadata-refresh.ts, issue-detail-cache.ts)

    An event is applied as a patch when it carries what it changes, answered by a refetch of the issues it names, by a reload of
    the small metadata, or by a fresh snapshot.  After each change of the issues the counts of labels and projects are
    derived again.  When the viewer's rights may have changed, the held issues are merged with the ids that are still visible.

    Issues are the records of [RealtimeCaches.IssueCache]; what is nested in them and the other entities are JSON objects.  The
    value [undefined] of a property is its absence.  The code returns the same array when nothing changed, which is the same value. *)

From Stdlib Require Import ZArith QArith Qround Lia Bool List Ascii.
From stdpp Require Import base list strings sets.
From S2P Require Import Prelude JsString JsMap Json Mapping RealtimeCaches.

Import EventQueue(Event, e_type, aggregateId, payload).
Import IssueCache.

Local Set Warnings "-register-all,-notation-for-abbreviation,-clear-no-such-hyp".
Open Scope Z_scope.

(** ** Objects *)

Definition nonempty {A} (l : list A) : bool := match l with [] => false | _ => true end.

Definition id_of (v : json) : string := match field "id" v with Some (JStr s) => s | _ => "" end.
Definition set_field (k : string) (x : json) (v : json) : json := match v with JObj fs => JObj (obj_set k x fs) | _ => v end.
Definition set_optional (k : string) (x : option json) (fs : list (string * json)) : list (string * json) :=
  match x with Some y => obj_set k y fs | None => List.filter (fun kv => negb (kv.1 =s k)) fs end.
(** [{ ...a, ...b }] *)
Definition spread (a b : json) : json :=
  match a, b with JObj fs, JObj gs => JObj (fold_left (fun o kv => obj_set kv.1 kv.2 o) gs fs) | _, _ => a end.

(** The ids of an array that are strings. *)
Definition stringIds (v : option json) : list string :=
  match v with Some (JArr l) => omap (fun x => match x with JStr s => Some s | _ => None end) l | _ => [] end.

Definition elements (v : option json) : option (list json) := match v with Some (JArr l) => Some l | _ => None end.
Definition part (k : string) (i : Issue) : option json := map_get k (rest i).
Definition set_rest (fs : list (string * json)) (i : Issue) : Issue :=
  mkIssue (id i) (version i) (isSummary i) (needsDetailRefresh i) (description i) (descriptionState i) (documentContent i) (reactions i) (subscriberIds i) fs.
Definition set_part (k : string) (x : option json) (i : Issue) : Issue := set_rest (set_optional k x (rest i)) i.
Definition set_refresh (b : option bool) (i : Issue) : Issue :=
  mkIssue (id i) (version i) (isSummary i) b (description i) (descriptionState i) (documentContent i) (reactions i) (subscriberIds i) (rest i).

Definition labels_of (i : Issue) : option (list json) := elements (part "labels" i).
Definition label_ids (i : Issue) : list string := map id_of (labels_of i ?? []).
(** [issue.project?.id] *)
Definition project_of (i : Issue) : option json := match part "project" i with Some (JObj fs) => Some (JObj fs) | _ => None end.
Definition project_id (i : Issue) : option string := id_of <$> project_of i.

(** The record of an issue in a payload. *)
Definition own_fields : list string := ["id"; "version"; "isSummary"; "needsDetailRefresh"; "description"; "descriptionState"; "documentContent"; "reactions"; "subscriberIds"].
Definition as_bool (v : option json) : option bool := match v with Some (JBool b) => Some b | _ => None end.
Definition issue_of (v : json) : Issue :=
  mkIssue (id_of v) (match field "version" v with Some (JNum q) => Some (Qfloor q) | _ => None end) (as_bool (field "isSummary" v)) (as_bool (field "needsDetailRefresh" v))
    (field "description" v) (field "descriptionState" v) (field "documentContent" v) (field "reactions" v) (field "subscriberIds" v)
    (match v with JObj fs => List.filter (fun kv => negb (existsb (String.eqb kv.1) own_fields)) fs | _ => [] end).

(** ** The workspace *)

Record Data := mkData {
  workspaceId : string; viewerId : string; issueCollectionPaged : bool; issueCollectionRevision : option json;
  issues : list Issue; projects : list json; labels : list json; states : list json; initiatives : list json; notifications : list json;
  comments : list (string * json); activities : list (string * json); issueHistoryCursors : list (string * json);
  projectUpdates : list (string * json); initiativeUpdates : list (string * json); more : list (string * json) }.

Definition set_collections (l : list Issue) (ps ls ss ns : list json) (d : Data) : Data :=
  mkData (workspaceId d) (viewerId d) (issueCollectionPaged d) (issueCollectionRevision d) l ps ls ss (initiatives d) ns
    (comments d) (activities d) (issueHistoryCursors d) (projectUpdates d) (initiativeUpdates d) (more d).
Definition set_issues (l : list Issue) (d : Data) : Data := set_collections l (projects d) (labels d) (states d) (notifications d) d.

(** ** Counts *)

Definition increment (ids : list string) (m : list (string * Z)) : list (string * Z) :=
  fold_left (fun m i => map_set i ((map_get i m ?? 0) + 1) m) (unique (List.filter truthy ids)) m.

Definition count_issue (m : list (string * Z)) (i : Issue) : list (string * Z) := if js_truthy (part "archivedAt" i) then m else increment (label_ids i) m.
Definition count_project (m : list (string * Z)) (p : json) : list (string * Z) := if js_truthy (field "archivedAt" p) then m else increment (stringIds (field "labelIds" p)) m.
Definition count_initiative (m : list (string * Z)) (p : json) : list (string * Z) := increment (stringIds (field "labelIds" p)) m.
Definition labelCounts (d : Data) : list (string * Z) :=
  fold_left count_initiative (initiatives d) (fold_left count_project (projects d) (fold_left count_issue (issues d) [])).

Definition projectIssueCounts (d : Data) : list (string * Z) :=
  fold_left (fun m i => if js_truthy (part "archivedAt" i) then m
                        else match project_id i with Some p => map_set p ((map_get p m ?? 0) + 1) m | None => m end) (issues d) [].

Definition with_count (counts : list (string * Z)) (v : json) : json :=
  let count := map_get (id_of v) counts ?? 0 in
  if match field "issueCount" v with Some (JNum q) => Qeq_bool q (inject_Z count) | _ => false end then v else set_field "issueCount" (JNum (inject_Z count)) v.

(** The labels of an issue are those of the directory; a slim record may have none. *)
Definition relabel (byId : list (string * json)) (i : Issue) : Issue :=
  match labels_of i with
  | None => i
  | Some l => set_part "labels" (Some (JArr (map (fun x => map_get (id_of x) byId ?? x) l))) i
  end.

Definition deriveResourceCounts (d : Data) : Data :=
  if issueCollectionPaged d then set_issues (take 2000 (issues d)) d
  else
    let ls := map (with_count (labelCounts d)) (labels d) in
    set_collections (map (relabel (index_by id_of (fun l => l) ls)) (issues d)) (map (with_count (projectIssueCounts d)) (projects d)) ls (states d) (notifications d) d.

(** ** Patches *)

Definition payload_field (k : string) (e : Event) : option json := match payload e with Some p => field k p | None => None end.

Definition isIssueLike (v : json) : bool := match v with JObj fs => map_has "identifier" fs && map_has "id" fs | _ => false end.
Definition isProjectLike (v : json) : bool :=
  match v with JObj fs => map_has "id" fs && map_has "name" fs && (map_has "slugId" fs || map_has "status" fs) | _ => false end.

(** [/^(issue\.|attachment\.)/] *)
Definition issue_event (t : string) : bool := startsWith "issue." t || startsWith "attachment." t.

Definition eventIssues (e : Event) : list Issue :=
  let t := e_type e in
  if t =s "issue.batch_updated" then map issue_of (List.filter isIssueLike (elements (payload_field "issues" e) ?? []))
  else if startsWith "comment." t then []
  else
    let trusted := (t =s "issue.updated") || (t =s "issue.created") in
    let issue := payload_field "issue" e in
    if trusted && js_truthy issue then match issue with Some v => [issue_of v] | None => [] end
    else match nullish issue (payload_field "entity" e) with
         | Some entity =>
             if negb (isIssueLike entity) then []
             else if trusted then [issue_of entity]
             else if issue_event t && match aggregateId e, field "id" entity with Some a, Some (JStr i) => a =s i | _, _ => false end then [issue_of entity]
             else []
         | None => []
         end.

Definition aggregate (e : Event) : list string := match aggregateId e with Some a => if truthy a then [a] else [] | None => [] end.

Definition removedIssueIds (e : Event) : list string :=
  stringIds (payload_field "removedIssueIds" e)
  ++ (if e_type e =s "issue.deleted" then aggregate e ++ stringIds (payload_field "issueIds" e) else []).

Definition upsertById {A} (key : A -> string) (items : list A) (next : A) : list A :=
  if existsb (fun x => key x =s key next) items then map (fun x => if key x =s key next then next else x) items else next :: items.
Definition removeById (items : list json) (i : string) : list json := List.filter (fun x => negb (id_of x =s i)) items.

(** [syncIssueProjectSummaries]: the copy of a project's name, icon and colour. *)
Definition summary_fields : list string := ["name"; "icon"; "color"].
Definition same_field (k : string) (a b : json) : bool :=
  match field k a, field k b with Some (JStr x), Some (JStr y) => x =s y | Some JNull, Some JNull => true | None, None => true | _, _ => false end.
Definition copy_summary (project summary : json) : json :=
  match summary with JObj fs => JObj (fold_left (fun o k => set_optional k (field k project) o) summary_fields fs) | _ => summary end.
Definition sync_summary (project : json) (i : Issue) : Issue :=
  match project_of i with
  | Some s => if negb (id_of s =s id_of project) || forallb (fun k => same_field k s project) summary_fields then i else set_part "project" (Some (copy_summary project s)) i
  | None => i
  end.
Definition syncIssueProjectSummaries (l : list Issue) (project : json) : list Issue := map (sync_summary project) l.

Definition notice (e : Event) : option json :=
  match payload_field "entity" e with
  | Some (JObj fs) => if startsWith "notification." (e_type e) && map_has "recipientId" fs then Some (JObj fs) else None
  | _ => None
  end.

Definition patch_issues (e : Event) (d : Data) : list Issue :=
  let drop := removedIssueIds e in
  fold_left (fun next i => if issueCollectionPaged d then mergeIssueRecords next [i] 2000 else upsertById id next i) (eventIssues e)
    (List.filter (fun i => negb (existsb (String.eqb (id i)) drop)) (issues d)).

(** [None] stands for [{ handled: false }]. *)
Definition applyRealtimePatch (d : Data) (e : Event) : option Data :=
  match notice e with
  | Some n =>
      if is_str (field "recipientId" n) (viewerId d)
      then Some (set_collections (issues d) (projects d) (labels d) (states d) (upsertById id_of (notifications d) n) d)
      else Some d
  | None =>
      match eventIssues e, removedIssueIds e with
      | [], [] =>
          let t := e_type e in
          let entity := payload_field "entity" e in
          match (if (t =s "project.updated") || (t =s "project.created") then match entity with Some p => if isProjectLike p then Some p else None | None => None end else None) with
          | Some p => Some (deriveResourceCounts (set_collections (syncIssueProjectSummaries (issues d) p) (upsertById id_of (projects d) p) (labels d) (states d) (notifications d) d))
          | None =>
              match aggregate e with
              | a :: _ => if t =s "project.deleted" then Some (deriveResourceCounts (set_collections (issues d) (removeById (projects d) a) (labels d) (states d) (notifications d) d)) else None
              | [] => None
              end
          end
      | _, _ => Some (deriveResourceCounts (set_issues (patch_issues e d) d))
      end
  end.

Definition canApplyRealtimePatch (e : Event) : bool :=
  let t := e_type e in
  let ids := stringIds (payload_field "issueIds" e) in
  let removed := stringIds (payload_field "removedIssueIds" e) in
  if startsWith "notification." t && js_truthy (payload_field "entity" e) then true
  else if t =s "issue.deleted" then nonempty (aggregate e)
  else if t =s "issue.batch_updated" then
    match elements (payload_field "issues" e) with
    | Some l => (length l =? length ids)%nat && (length (eventIssues e) =? length l)%nat
    | None => false
    end
  else if nonempty (eventIssues e) then true
  else if nonempty removed && negb (existsb (fun i => negb (existsb (String.eqb i) removed)) ids) then true
  else if (t =s "project.updated") || (t =s "project.created") then match payload_field "entity" e with Some p => isProjectLike p | None => false end
  else if t =s "project.deleted" then nonempty (aggregate e)
  else false.

(** ** Renames of labels and states *)

Definition isLabelStateRenameEvent (t : string) : bool := (t =s "label.updated") || (t =s "label.merged") || (t =s "workflow_state.updated").

Definition entityWithId (v : option json) : option json :=
  match v with Some (JObj fs) => match map_get "id" fs with Some (JStr _) => Some (JObj fs) | _ => None end | _ => None end.

Definition text (k : string) (v : json) : string := match field k v with Some (JStr s) => s | _ => "" end.

(** A state of the directory, and the state of an issue. *)
Definition matches_state (state item : json) : bool :=
  (id_of item =s id_of state) && (negb (truthy (text "teamId" state)) || negb (truthy (text "teamId" item)) || (text "teamId" item =s text "teamId" state)).
Definition rename_state (state : json) (i : Issue) : Issue :=
  match part "state" i with
  | Some s =>
      if (id_of s =s id_of state) && (negb (truthy (text "teamId" state)) || match part "team" i with Some t => id_of t =s text "teamId" state | None => false end)
      then set_part "state" (Some (spread s state)) i else i
  | None => i
  end.

Definition set_labels (l : list json) (i : Issue) : Issue := set_part "labels" (Some (JArr l)) i.
Definition carries (p : string -> bool) (i : Issue) : bool := existsb p (label_ids i).

(** One round of the loop in [retarget]. *)
Definition retarget_step (from : list string) (target : json) (next : list json) (label : json) : list json :=
  let mapped := if existsb (String.eqb (id_of label)) from || (id_of label =s id_of target) then spread label target else label in
  if existsb (fun x => id_of x =s id_of mapped) next then next else next ++ [mapped].
Definition retarget (from : list string) (target : json) (l : list json) : list json := fold_left (retarget_step from target) l [].

Definition merge_labels (from : list string) (target : json) (d : Data) : Data :=
  let gone i := existsb (String.eqb i) from in
  set_collections (map (fun i => if carries gone i then set_labels (retarget from target (labels_of i ?? [])) i else i) (issues d)) (projects d)
    (map (fun l => if id_of l =s id_of target then spread l target else l) (List.filter (fun l => negb (gone (id_of l))) (labels d))) (states d) (notifications d) d.

Definition rename_label (label : json) (l : json) : json := if id_of l =s id_of label then spread l label else l.

Definition applyLabelStateRename (d : Data) (e : Event) : Data :=
  if e_type e =s "workflow_state.updated" then
    match entityWithId (payload_field "state" e) with
    | None => d
    | Some state =>
        set_collections (map (rename_state state) (issues d)) (projects d) (labels d)
          (map (fun s => if matches_state state s then spread s state else s) (states d)) (notifications d) d
    end
  else if e_type e =s "label.merged" then
    let toId := match payload_field "toLabelId" e with Some (JStr s) => Some s | _ => aggregateId e end in
    let from := stringIds (payload_field "fromLabelIds" e) in
    let target := match entityWithId (payload_field "label" e) with
                  | Some l => Some l
                  | None => match toId with Some i => List.find (fun l => id_of l =s i) (labels d) | None => None end
                  end in
    match target with Some t => if nonempty from then merge_labels from t d else d | None => d end
  else match entityWithId (payload_field "label" e) with
       | None => d
       | Some label =>
           set_collections (map (fun i => if carries (String.eqb (id_of label)) i then set_labels (map (rename_label label) (labels_of i ?? [])) i else i) (issues d)) (projects d)
             (map (rename_label label) (labels d)) (states d) (notifications d) d
       end.

(** ** The answer to an event *)

(** The patterns of event types: a prefix with one of some endings, with a word of [[a-z_]], or with two words around a dot. *)
Inductive TypePattern := Ends (prefix : string) (l : list string) | Word (prefix : string) | Words (prefix : string).

Definition lower_char (c : ascii) : bool := let n := nat_of_ascii c in ((97 <=? n)%nat && (n <=? 122)%nat) || (n =? 95)%nat.
Definition lower_word (s : string) : bool := truthy s && forallb lower_char (String.list_ascii_of_string s).
Definition without (p t : string) : option string := if startsWith p t then Some (slice_from (String.length p) t) else None.

Definition has_type (t : string) (p : TypePattern) : bool :=
  match p with
  | Ends q l => match without q t with Some s => existsb (String.eqb s) l | None => false end
  | Word q => match without q t with Some s => lower_word s | None => false end
  | Words q => match without q t with Some s => match split "." s with [a; b] => lower_word a && lower_word b | _ => false end | None => false end
  end.

Definition METADATA_EVENT : list TypePattern :=
  [Ends "project." ["updated"; "milestone_created"; "milestone_updated"; "milestone_deleted"; "milestones_reordered"; "resource_created"; "resource_updated"; "resource_deleted"; "commented";
                    "comment_updated"; "comment_resolved"; "comment_unresolved"; "comment_deleted"; "comment_reaction_toggled"; "comment_thread_subscription"; "comment_attachment_created";
                    "update_created"; "update_updated"; "update_deleted"; "update_commented"; "update_reaction_toggled"; "update_attachment_created"; "update_attachment_deleted";
                    "relation_created"; "relation_updated"; "relation_deleted"];
   Ends "initiative." ["created"; "updated"; "deleted"; "commented"; "comment_updated"; "comment_deleted"; "comment_reaction_toggled";
                       "update_created"; "update_updated"; "update_deleted"; "update_commented"; "update_reaction_toggled"; "update_attachment_created"; "update_attachment_deleted";
                       "relation_created"; "relation_updated"; "relation_deleted"; "resource_created"; "resource_updated"; "resource_deleted"];
   Ends "cycle." ["updated"; "capacity_updated"; "resource_created"; "resource_deleted"; "calendar_token_requested"];
   Ends "document." ["created"; "updated"; "deleted"; "revision_restored"; "revision_imported"; "permissions_updated"; "permission_updated"; "permission_deleted";
                     "draft_created"; "draft_updated"; "draft_deleted"; "draft_published"];
   Word "document_template."; Word "issue_template."; Word "project_status."; Ends "project_template." ["deleted"]; Ends "project_update_settings." ["updated"];
   Ends "release." ["created"; "updated"; "deleted"; "reordered"; "ci_event"; "note_created"; "note_updated"; "note_deleted"; "timestamps_updated"]; Word "release_pipeline.";
   Word "customer."; Word "customer_taxonomy."; Ends "customer_need." ["archive_toggled"];
   Ends "customer_request." ["created"; "updated"; "deleted"; "attachment_created"; "attachment_deleted"];
   Word "view."; Ends "label." ["created"]; Ends "label_group." ["created"]; Ends "issue_label." ["created"];
   Ends "team." ["resource_pinned"; "resource_updated"; "resource_deleted"; "resource_section_created"; "resource_section_updated"; "resource_section_deleted"]].
Definition metadataOnlyRealtimeEvent (t : string) : bool := existsb (has_type t) METADATA_EVENT.

Definition PAGED_METADATA_EVENT (t : string) : bool :=
  existsb (has_type t)
    [Word "user."; Word "workspace_member."; Word "membership."; Word "team."; Word "team_member."; Word "workflow_state."; Word "label."; Word "label_group."; Word "issue_label.";
     Ends "cycle." ["started"; "completed"]; Words "sla_"; Words "triage_"; Word "custom_emoji."; Word "issue_permission."]
  || (has_type t (Word "workspace.") && negb (t =s "workspace.resync_required")).

Definition requiresIssueVisibilityCheck (t : string) : bool :=
  (t =s "resync") || (t =s "workspace.resync_required")
  || existsb (fun p => startsWith p t) ["team."; "team_"; "workspace_member."; "workspace_member_"; "membership."; "issue_permission."]
  || has_type t (Ends "issue." ["permissions_updated"; "permission_updated"; "permission_deleted"; "shared"; "unshared"]).

Definition COSMETIC_TEAM_FIELDS : list string := ["name"; "icon"; "color"; "description"; "timezone"; "showInitiatives"].
Definition ACCESS_TEAM_FIELDS : list string := ["access"; "private"; "retired"; "parentTeamId"; "membershipRestriction"].

Definition cosmeticTeamChange (e : Event) : bool :=
  ((e_type e =s "team.updated") || (e_type e =s "team.settings_updated"))
  && match payload e with
     | Some p => existsb (fun k => isSome (field k p)) COSMETIC_TEAM_FIELDS && negb (existsb (fun k => isSome (field k p)) ACCESS_TEAM_FIELDS)
     | None => false
     end.

Inductive RealtimeAction := Patch | Refetch (issueIds removed : list string) | Metadata (visibility : bool) | Resync.

Definition classifyRealtimeEvent (e : Event) (paged : bool) : RealtimeAction :=
  let t := e_type e in
  let removed := stringIds (payload_field "removedIssueIds" e) in
  let ids := stringIds (payload_field "issueIds" e) in
  if (t =s "resync") || (t =s "workspace.resync_required") then Resync
  else if canApplyRealtimePatch e then Patch
  else if nonempty ids && issue_event t then Refetch ids removed
  else if isLabelStateRenameEvent t then Metadata false
  else if metadataOnlyRealtimeEvent t then Metadata false
  else if paged && PAGED_METADATA_EVENT t then Metadata (requiresIssueVisibilityCheck t && negb (cosmeticTeamChange e))
  else Resync.

(** ** Refreshed issues *)

(** The details a summary leaves out are kept; the mark for a refresh is that of the spread. *)
Definition keep_details (previous issue : Issue) : Issue :=
  mkIssue (id issue) (match version issue with Some v => Some v | None => version previous end) (Some false)
    (match needsDetailRefresh issue with Some b => Some b | None => needsDetailRefresh previous end)
    (description previous) (descriptionState previous) (documentContent previous) (reactions previous) (subscriberIds previous)
    (fold_left (fun o kv => obj_set kv.1 kv.2 o) (rest issue) (rest previous)).

Definition refresh_issue (incoming : list (string * Issue)) (previous : Issue) : Issue :=
  match map_get (id previous) incoming with
  | Some issue =>
      if vers issue <? vers previous then previous
      else if summary issue && negb (summary previous) then keep_details previous issue
      else issue
  | None => previous
  end.

Definition mergeRefreshedIssues (d : Data) (refreshed : list Issue) : Data :=
  match refreshed with
  | [] => d
  | _ => deriveResourceCounts (set_issues (map (refresh_issue (index refreshed)) (issues d)) d)
  end.

Definition has_id (i : string) (l : list Issue) : bool := existsb (fun x => id x =s i) l.

Definition mergeScopedIssues (d : Data) (refreshed : list Issue) (owns : option (Issue -> bool)) : Data :=
  let kept := match owns with Some f => List.filter (fun i => has_id (id i) refreshed || negb (f i)) (issues d) | None => issues d end in
  let base := set_issues kept d in
  let merged := mergeRefreshedIssues base refreshed in
  match List.filter (fun i => negb (has_id (id i) (issues merged))) refreshed with
  | [] => if negb (nonempty refreshed) && negb (length kept =? length (issues d))%nat then deriveResourceCounts base else merged
  | added => deriveResourceCounts (set_issues (issues merged ++ added) merged)
  end.

(** The issues of releases that became released. *)
Definition newlyReleasedIssueIds (current next : list json) : list string :=
  let previousStatus := index_by id_of (field "status") current in
  unique (flat_map (fun r => stringIds (field "issueIds" r))
    (List.filter (fun r => is_str (field "status" r) "released" && negb (is_str (match map_get (id_of r) previousStatus with Some s => s | None => None end) "released")) next)).

Definition archive_reminder (projectId now : string) (n : json) : json :=
  if negb (text "projectId" n =s projectId) || negb (startsWith "projectUpdate" (text "type" n)) || js_truthy (field "archivedAt" n) then n
  else set_field "updatedAt" (JStr now) (set_field "readAt" (JStr now) (set_field "archivedAt" (JStr now) n)).
Definition archiveProjectUpdateReminders (d : Data) (projectId now : string) : Data :=
  set_collections (issues d) (projects d) (labels d) (states d) (map (archive_reminder projectId now) (notifications d)) d.

(** ** A fresh directory *)

Definition mem (i : string) (l : list string) : bool := existsb (String.eqb i) l.

(** The entries of [fresh] and, over them, of [previous]; the order of the keys of such an object is not read. *)
Definition overlay (fresh previous : list (string * json)) : list (string * json) := fold_left (fun o kv => map_set kv.1 kv.2 o) previous fresh.

Definition retainHistory (issueIds keep : list string) (previous fresh : list (string * json)) : list (string * json) :=
  overlay (List.filter (fun kv => negb (mem kv.1 issueIds) || mem kv.1 keep) fresh) (List.filter (fun kv => mem kv.1 keep) previous).

Definition retainUpdates (previous fresh : list (string * json)) (alive : list json) : list (string * json) :=
  overlay (List.filter (fun kv => mem kv.1 (map id_of alive)) previous) (List.filter (fun kv => match kv.2 with JArr (_ :: _) => true | _ => false end) fresh).

(** What an issue shows of issues, projects and labels that are no longer visible. *)
Definition filter_part (k : string) (p : json -> bool) (i : Issue) : Issue :=
  match part k i with Some (JArr l) => set_part k (Some (JArr (List.filter p l))) i | _ => i end.
Definition known_project (next : Data) (i : Issue) : bool := match project_id i with Some p => mem p (map id_of (projects next)) | None => false end.

Definition restrict_issue (revoked : string -> bool) (next : Data) (i : Issue) : Issue :=
  let i := if known_project next i then i else set_part "projectMilestoneId" None (set_part "project" None i) in
  let i := filter_part "labels" (fun l => mem (id_of l) (map id_of (labels next))) i in
  let i := match part "parentId" i with Some (JStr p) => if truthy p && revoked p then set_part "parentId" None i else i | _ => i end in
  let i := filter_part "subIssueIds" (fun v => match v with JStr s => negb (revoked s) | _ => true end) i in
  let i := filter_part "relations" (fun r => match field "relatedIssueId" r with Some (JStr s) => negb (revoked s) | _ => true end) i in
  set_refresh (if summary i then needsDetailRefresh i else Some true) i.

(** [None]: an issue without labels is an error of the code when ids are given. *)
Definition mergeWorkspaceDirectory (current : option Data) (next : Data) (visibleIds : option (list string)) : option Data :=
  match current with
  | None => Some next
  | Some cur =>
      if negb (workspaceId cur =s workspaceId next) || negb (viewerId cur =s viewerId next) || negb (issueCollectionPaged next) then Some next
      else
        let visible i := match visibleIds with Some v => mem i v | None => true end in
        let merged := mergeIssueRecords (List.filter (fun i => visible (id i)) (issues cur)) (List.filter (fun i => visible (id i)) (issues next)) 2000 in
        let issueIds := map id (issues cur ++ issues next) in
        let revoked i := mem i issueIds && negb (visible i) in
        if isSome visibleIds && negb (forallb (fun i => isSome (labels_of i)) merged) then None
        else
          let out := match visibleIds with Some _ => map (restrict_issue revoked next) merged | None => merged end in
          let keep := map id out in
          Some (mkData (workspaceId next) (viewerId next) (issueCollectionPaged next) (issueCollectionRevision cur) out (projects next) (labels next) (states next) (initiatives next) (notifications next)
                  (retainHistory issueIds keep (comments cur) (comments next)) (retainHistory issueIds keep (activities cur) (activities next))
                  (retainHistory issueIds keep (issueHistoryCursors cur) (issueHistoryCursors next))
                  (retainUpdates (projectUpdates cur) (projectUpdates next) (projects next)) (retainUpdates (initiativeUpdates cur) (initiativeUpdates next) (initiatives next)) (more next))
  end.

(** ** Parts of records *)

Lemma obj_set_plain k v fs : k <> "__proto__" -> array_index k = None -> obj_set k v fs = map_set k v fs.
Proof. intros H1 H2. unfold obj_set. rewrite (proj2 (String.eqb_neq _ _) H1), H2. done. Qed.

Lemma get_without k k' (fs : list (string * json)) : map_get k (List.filter (fun kv => negb (kv.1 =s k')) fs) = if k =s k' then None else map_get k fs.
Proof.
  induction fs as [|[j v] fs IH]; cbn; [by destruct (k =s k')|]. destruct (String.eqb_spec j k') as [->|Hj]; cbn; rewrite IH; destruct (String.eqb_spec k k') as [->|Hk]; try done; repeat case_decide; congruence.
Qed.

Lemma part_set_eq k x i : k <> "__proto__" -> array_index k = None -> part k (set_part k (Some x) i) = Some x.
Proof. intros H1 H2. unfold part, set_part. cbn. rewrite obj_set_plain by done. apply map_get_set_eq. Qed.

Lemma part_unset k i : part k (set_part k None i) = None.
Proof. unfold part, set_part. cbn. by rewrite get_without, String.eqb_refl. Qed.

Lemma part_set_ne k k' x i : k <> k' -> k' <> "__proto__" -> array_index k' = None -> part k (set_part k' x i) = part k i.
Proof. intros H1 H2 H3. unfold part, set_part. cbn. destruct x as [x|]; cbn; [rewrite obj_set_plain by done; by apply map_get_set_ne | by rewrite get_without, (proj2 (String.eqb_neq _ _) H1)]. Qed.

Lemma field_set_eq k x fs : k <> "__proto__" -> array_index k = None -> field k (set_field k x (JObj fs)) = Some x.
Proof. intros H1 H2. cbn. rewrite obj_set_plain by done. apply map_get_set_eq. Qed.

Lemma field_set_ne k k' x v : k <> k' -> k' <> "__proto__" -> array_index k' = None -> field k (set_field k' x v) = field k v.
Proof. intros H1 H2 H3. destruct v; try done. cbn. rewrite obj_set_plain by done. by apply map_get_set_ne. Qed.

Lemma mem_spec i l : mem i l = true <-> i ∈ l.
Proof. unfold mem. rewrite existsb_exists, list_elem_of_In. split; [intros (x & Hx & ->%String.eqb_eq); done | intros H; exists i; by rewrite String.eqb_refl]. Qed.

Lemma mem_false i l : mem i l = false <-> i ∉ l.
Proof. rewrite <- mem_spec. by destruct (mem i l). Qed.

(** ** Looking an issue up *)

Definition held (k : string) (l : list Issue) : option Issue := List.find (fun i => id i =s k) l.

Lemma held_None k l : held k l = None <-> k ∉ map id l.
Proof.
  unfold held. induction l as [|x l IH]; cbn; [split; [intros _; apply not_elem_of_nil | done]|]. rewrite not_elem_of_cons. destruct (String.eqb_spec (id x) k) as [->|Hx]; [split; [done | by intros []]|].
  rewrite IH. split; [intros H; split; [congruence | done] | by intros []].
Qed.

Lemma held_map f k l : (forall i, id (f i) = id i) -> held k (map f l) = f <$> held k l.
Proof. intros H. unfold held. induction l as [|x l IH]; [done|]. cbn. rewrite H. by destruct (id x =s k). Qed.

Lemma held_app k a b : held k (a ++ b) = match held k a with Some i => Some i | None => held k b end.
Proof. unfold held. induction a as [|x a IH]; [done|]. cbn. by destruct (id x =s k). Qed.

Lemma held_filter k l p : held k (List.filter (fun i => p (id i)) l) = if p k then held k l else None.
Proof.
  unfold held. induction l as [|x l IH]; cbn; [by destruct (p k)|]. destruct (String.eqb_spec (id x) k) as [<-|Hx]; destruct (p (id x)) eqn:Ep; cbn; rewrite ?String.eqb_refl; try done.
  by rewrite (proj2 (String.eqb_neq _ _) Hx).
Qed.

Lemma existsb_held i l : existsb (fun x => id x =s i) l = isSome (held i l).
Proof. unfold held. induction l as [|x l IH]; [done|]. cbn. by destruct (id x =s i). Qed.

Lemma held_upsert k l x : held k (upsertById id l x) = if id x =s k then Some x else held k l.
Proof.
  unfold upsertById. destruct (existsb _ _) eqn:E; [|done]. rewrite existsb_held in E. unfold held in *. clear - E. induction l as [|y l IH]; [done|]. cbn in *.
  destruct (String.eqb_spec (id y) (id x)) as [Ey|Ey].
  - rewrite Ey. destruct (String.eqb_spec (id x) k) as [Ek|Ek]; [done|]. clear IH. induction l as [|z l IH]; [done|]. cbn. destruct (String.eqb_spec (id z) (id x)) as [Ez|Ez]; [|destruct (_ =s _); done].
    rewrite Ez, (proj2 (String.eqb_neq _ _) Ek). done.
  - rewrite IH by done. destruct (String.eqb_spec (id y) k) as [Ek|Ek]; [|done]. destruct (String.eqb_spec (id x) k); [congruence | done].
Qed.

Lemma upsert_NoDup l x : NoDup (map id l) -> NoDup (map id (upsertById id l x)).
Proof.
  intros H. unfold upsertById. destruct (existsb _ _) eqn:E.
  - replace (map id (map _ l)) with (map id l); [done|]. rewrite map_map. apply map_ext. intros y. destruct (String.eqb_spec (id y) (id x)); done.
  - cbn. apply NoDup_cons. split; [|done]. apply held_None. rewrite existsb_held in E. by destruct (held _ l).
Qed.

Lemma held_upserts k evs l : held k (fold_left (upsertById id) evs l) = match held k (rev evs) with Some i => Some i | None => held k l end.
Proof.
  revert l. induction evs as [|x evs IH]; intros l; [done|]. cbn [fold_left rev]. rewrite IH, held_app, held_upsert. destruct (held k (rev evs)); [done|]. cbn. by destruct (id x =s k).
Qed.

(** ** Counts *)

Lemma increment_rounds k l m : NoDup l -> map_get k (fold_left (fun m i => map_set i ((map_get i m ?? 0) + 1) m) l m) ?? 0 = (map_get k m ?? 0) + (if mem k l then 1 else 0).
Proof.
  intros Hn. revert m. induction Hn as [|x l Hx Hn IH]; intros m; cbn [fold_left]; [cbn; lia|]. rewrite IH. cbn [mem existsb]. destruct (String.eqb_spec k x) as [->|Hk].
  - rewrite map_get_set_eq. cbn [orb default]. rewrite (proj2 (mem_false x l) Hx). cbn. lia.
  - rewrite map_get_set_ne by done. done.
Qed.

Lemma increment_get k ids m : truthy k = true -> map_get k (increment ids m) ?? 0 = (map_get k m ?? 0) + (if mem k ids then 1 else 0).
Proof.
  intros Hk. unfold increment. destruct (unique_spec (List.filter truthy ids)) as [Hn Hu]. rewrite increment_rounds by done. f_equal.
  replace (mem k (unique (List.filter truthy ids))) with (mem k ids); [done|]. apply eq_true_iff_eq. rewrite !mem_spec, Hu, !list_elem_of_In, filter_In. tauto.
Qed.

Definition uses {A} (p : A -> bool) (l : list A) : Z := Z.of_nat (length (List.filter p l)).

Lemma count_uses {A} (step : list (string * Z) -> A -> list (string * Z)) (p : A -> bool) k : (forall m x, map_get k (step m x) ?? 0 = (map_get k m ?? 0) + (if p x then 1 else 0)) ->
  forall l m, map_get k (fold_left step l m) ?? 0 = (map_get k m ?? 0) + uses p l.
Proof. intros H. induction l as [|x l IH]; intros m; cbn [fold_left]; [unfold uses; cbn; lia|]. rewrite IH, H. unfold uses. cbn [List.filter]. destruct (p x); cbn [length]; lia. Qed.

(** The issues, projects and initiatives that use a label, and the issues of a project; archived ones do not count. *)
Definition issue_uses (k : string) (i : Issue) : bool := negb (js_truthy (part "archivedAt" i)) && mem k (label_ids i).
Definition project_uses (k : string) (p : json) : bool := negb (js_truthy (field "archivedAt" p)) && mem k (stringIds (field "labelIds" p)).
Definition initiative_uses (k : string) (p : json) : bool := mem k (stringIds (field "labelIds" p)).
Definition issue_in (k : string) (i : Issue) : bool := negb (js_truthy (part "archivedAt" i)) && match project_id i with Some p => p =s k | None => false end.
Definition label_total (k : string) (d : Data) : Z := uses (issue_uses k) (issues d) + uses (project_uses k) (projects d) + uses (initiative_uses k) (initiatives d).

Lemma labelCounts_total k d : truthy k = true -> map_get k (labelCounts d) ?? 0 = label_total k d.
Proof.
  intros Hk. unfold labelCounts, label_total.
  rewrite (count_uses count_initiative (initiative_uses k) k), (count_uses count_project (project_uses k) k), (count_uses count_issue (issue_uses k) k); [cbn; lia | | |]; intros m x.
  - unfold count_issue, issue_uses. destruct (js_truthy _); cbn [negb andb]; [lia | by apply increment_get].
  - unfold count_project, project_uses. destruct (js_truthy _); cbn [negb andb]; [lia | by apply increment_get].
  - by apply increment_get.
Qed.

Lemma projectCounts_total k d : map_get k (projectIssueCounts d) ?? 0 = uses (issue_in k) (issues d).
Proof.
  unfold projectIssueCounts. rewrite (count_uses _ (issue_in k) k); [cbn; lia|]. intros m x. unfold issue_in. destruct (js_truthy _); cbn [negb andb]; [lia|].
  destruct (project_id x) as [p|]; [|lia]. destruct (String.eqb_spec p k) as [->|Hp]; [rewrite map_get_set_eq; done | rewrite map_get_set_ne by congruence; lia].
Qed.

Definition is_object (v : json) : Prop := exists fs, v = JObj fs.
(** The count an entity shows. *)
Definition shows (v : json) (n : Z) : Prop := exists q, field "issueCount" v = Some (JNum q) /\ (q == inject_Z n)%Q.

Lemma with_count_field counts k v : k <> "issueCount" -> field k (with_count counts v) = field k v.
Proof. intros H. unfold with_count. cbv zeta. destruct (match field "issueCount" v with Some _ => _ | None => _ end); [done|]. by apply field_set_ne. Qed.

Lemma with_count_id counts v : id_of (with_count counts v) = id_of v.
Proof. unfold id_of. by rewrite with_count_field. Qed.

Lemma with_count_shows counts v : is_object v -> shows (with_count counts v) (map_get (id_of v) counts ?? 0).
Proof.
  intros [fs ->]. unfold with_count. cbv zeta. destruct (field "issueCount" (JObj fs)) as [[| |q| | |]|] eqn:E; try (eexists; split; [by apply field_set_eq | done]).
  destruct (Qeq_bool q _) eqn:Eq; [exists q; split; [done | by apply Qeq_bool_iff] | eexists; split; [by apply field_set_eq | done]].
Qed.

Definition directory (l : list json) : list (string * json) := index_by id_of (fun x => x) l.

Lemma directory_get l k x : map_get k (directory l) = Some x -> id_of x = k /\ In x l.
Proof.
  assert (G : forall l m, Forall (fun e => id_of e.2 = e.1 /\ In e.2 l) m -> forall r, incl r l -> Forall (fun e : string * json => id_of e.2 = e.1 /\ In e.2 l) (fold_left (fun m x => map_set (id_of x) x m) r m)).
  { clear. intros l m Hm r. revert m Hm. induction r as [|y r IH]; intros m Hm Hr; [done|]. cbn. apply IH; [|intros z Hz; apply Hr; by right]. apply map_set_Forall; [intros k' Hk'; cbn in *; subst; split; [done | apply Hr; by left] | done]. }
  intros H%map_get_In. apply (proj1 (List.Forall_forall _ _) (G l [] (List.Forall_nil _) l (fun _ H => H)) _ H).
Qed.

Lemma directory_has l k : k ∈ map id_of l -> exists x, map_get k (directory l) = Some x.
Proof.
  unfold directory, index_by. assert (G : forall m, k ∈ map_keys m \/ k ∈ map id_of l -> exists x, map_get k (fold_left (fun m x => map_set (id_of x) x m) l m) = Some x); [|eauto].
  induction l as [|y l IH]; intros m H; cbn in *; [destruct H as [H|H]; [|by apply elem_of_nil in H]; destruct (map_get k m) eqn:E; [eauto | by apply map_get_None in E]|].
  apply IH. destruct H as [H|[Hk|H]%elem_of_cons]; [|left; rewrite Hk; eapply map_get_elem, map_get_set_eq | auto].
  left. destruct (decide (id_of y ∈ map_keys m)); [by rewrite map_set_keys_known | rewrite map_set_keys_new by done; apply elem_of_app; auto].
Qed.

Lemma relabel_part l k i : k <> "labels" -> part k (relabel l i) = part k i.
Proof. intros H. unfold relabel. destruct (labels_of i); [by apply part_set_ne | done]. Qed.

Lemma relabel_id l i : id (relabel l i) = id i.
Proof. unfold relabel. by destruct (labels_of i). Qed.

Lemma relabel_labels l i : labels_of (relabel l i) = map (fun x => map_get (id_of x) l ?? x) <$> labels_of i.
Proof. unfold relabel. destruct (labels_of i) as [ls|] eqn:E; [|by rewrite E]. unfold labels_of. by rewrite part_set_eq. Qed.

Lemma relabel_label_ids l i : label_ids (relabel (directory l) i) = label_ids i.
Proof.
  unfold label_ids. rewrite relabel_labels. destruct (labels_of i) as [ls|]; [|done]. cbn. rewrite map_map. apply map_ext. intros x.
  destruct (map_get (id_of x) (directory l)) as [y|] eqn:E; [|done]. by apply directory_get in E as [E _].
Qed.

Lemma relabel_project l i : project_id (relabel l i) = project_id i.
Proof. unfold project_id, project_of. by rewrite relabel_part. Qed.

Lemma uses_map {A} (f : A -> A) p l : (forall x, p (f x) = p x) -> uses p (map f l) = uses p l.
Proof. intros H. unfold uses. f_equal. induction l as [|x l IH]; [done|]. cbn. rewrite H. destruct (p x); cbn; congruence. Qed.

(** Every count is the number of its uses, and the labels of issues are those of the directory. *)
Record counted (d : Data) : Prop := {
  c_labels : forall l, In l (labels d) -> truthy (id_of l) = true -> shows l (label_total (id_of l) d);
  c_projects : forall p, In p (projects d) -> shows p (uses (issue_in (id_of p)) (issues d));
  c_copies : forall i x, In i (issues d) -> In x (labels_of i ?? []) -> id_of x ∈ map id_of (labels d) -> In x (labels d) }.

Lemma derive_total k d : issueCollectionPaged d = false -> label_total k (deriveResourceCounts d) = label_total k d.
Proof.
  intros Hp. unfold deriveResourceCounts, label_total. rewrite Hp. cbn. rewrite !uses_map; [done | |].
  - intros p. unfold project_uses. by rewrite !with_count_field.
  - intros i. unfold issue_uses. rewrite relabel_part by done. fold (directory (map (with_count (labelCounts d)) (labels d))). by rewrite relabel_label_ids.
Qed.

Lemma derive_counted d : issueCollectionPaged d = false -> Forall is_object (labels d) -> Forall is_object (projects d) -> counted (deriveResourceCounts d).
Proof.
  intros Hp Hl Hj. split.
  - intros l Hin Ht. rewrite derive_total by done. unfold deriveResourceCounts in Hin. rewrite Hp in Hin. cbn in Hin. apply in_map_iff in Hin as (v & <- & Hv).
    rewrite with_count_id in *. rewrite <- labelCounts_total by done. apply with_count_shows. by apply (proj1 (List.Forall_forall _ _) Hl).
  - intros p Hin. unfold deriveResourceCounts in *. rewrite Hp in *. cbn in *. apply in_map_iff in Hin as (v & <- & Hv). rewrite with_count_id, uses_map, <- projectCounts_total.
    + apply with_count_shows. by apply (proj1 (List.Forall_forall _ _) Hj).
    + intros i. unfold issue_in. by rewrite relabel_part, relabel_project.
  - intros i x Hi Hx Hk. unfold deriveResourceCounts in *. rewrite Hp in *. cbn in *. apply in_map_iff in Hi as (j & <- & Hj'). rewrite relabel_labels in Hx.
    destruct (labels_of j) as [ls|]; [|done]. cbn in Hx. apply in_map_iff in Hx as (y & <- & Hy). fold (directory (map (with_count (labelCounts d)) (labels d))) in *.
    destruct (map_get (id_of y) _) as [z|] eqn:E; cbn in *; [by apply directory_get in E as [_ E]|]. destruct (directory_has _ _ Hk) as [z Hz]. congruence.
Qed.

(** ** Which events are applied *)

Definition project_event (e : Event) : bool :=
  let t := e_type e in
  (((t =s "project.updated") || (t =s "project.created")) && match payload_field "entity" e with Some p => isProjectLike p | None => false end)
  || ((t =s "project.deleted") && nonempty (aggregate e)).

Lemma patch_refused d e : isSome (applyRealtimePatch d e) = isSome (notice e) || nonempty (eventIssues e) || nonempty (removedIssueIds e) || project_event e.
Proof.
  unfold applyRealtimePatch, project_event. destruct (notice e); [by destruct (is_str _ _)|]. destruct (eventIssues e), (removedIssueIds e); try done. cbn [nonempty isSome orb].
  destruct ((e_type e =s "project.updated") || _) eqn:Ep; cbn [andb].
  - destruct (payload_field "entity" e) as [p|]; [destruct (isProjectLike p); [done|]|]; destruct (aggregate e); cbn [orb nonempty isSome]; rewrite ?andb_false_r, ?andb_true_r; try done; by destruct (e_type e =s "project.deleted").
  - destruct (aggregate e); cbn [orb nonempty isSome]; rewrite ?andb_false_r, ?andb_true_r; [done|]. by destruct (e_type e =s "project.deleted").
Qed.

(** Events that count as patches but change nothing: a notification without a recipient, and a batch without issues. *)
Definition dropped (e : Event) : bool :=
  negb (nonempty (removedIssueIds e))
  && ((startsWith "notification." (e_type e) && js_truthy (payload_field "entity" e) && negb (isSome (notice e)))
      || ((e_type e =s "issue.batch_updated") && match payload_field "issues" e with Some (JArr []) => true | _ => false end)).

Lemma prefix_other p t u : startsWith p t = true -> startsWith p u = false -> (t =s u) = false.
Proof. intros H1 H2. apply String.eqb_neq. intros ->. congruence. Qed.

Lemma notification_prefix t : startsWith "notification." t = true -> startsWith "comment." t = false /\ startsWith "issue." t = false /\ startsWith "attachment." t = false.
Proof. destruct t as [|c t]; [done|]. unfold startsWith. cbn [String.prefix]. destruct (ascii_dec "n" c) as [<-|]; [intros _; repeat split; reflexivity | done]. Qed.

Lemma notification_issues e : startsWith "notification." (e_type e) = true -> eventIssues e = [] /\ project_event e = false.
Proof.
  intros H. destruct (notification_prefix _ H) as (H1 & H2 & H3).
  assert (O : forall u, startsWith "notification." u = false -> (e_type e =s u) = false) by (intros u; by apply prefix_other). split.
  - unfold eventIssues, issue_event. cbv zeta. rewrite !O, H1, H2, H3 by done. cbn [orb andb]. destruct (nullish _ _) as [v|]; [|done]. by destruct (isIssueLike v).
  - unfold project_event. cbv zeta. by rewrite !O.
Qed.

(** Of the events that count as patches exactly the dropped ones are not applied. *)
Lemma patch_handled d e : canApplyRealtimePatch e = true -> isSome (applyRealtimePatch d e) = negb (dropped e).
Proof.
  rewrite patch_refused. unfold canApplyRealtimePatch, dropped. cbv zeta. destruct (startsWith "notification." (e_type e) && _) eqn:En.
  - intros _. apply andb_true_iff in En as [En _]. destruct (notification_issues e En) as [-> ->]. rewrite (prefix_other _ _ "issue.batch_updated" En) by done. cbn [nonempty andb]. rewrite !orb_false_r.
    by destruct (isSome (notice e)), (removedIssueIds e).
  - cbn [andb orb]. destruct (String.eqb_spec (e_type e) "issue.deleted") as [Et|Et].
    + intros Ha. assert (Er : nonempty (removedIssueIds e) = true) by (unfold removedIssueIds; rewrite Et; cbn; destruct (stringIds _), (aggregate e); done). rewrite Er. cbn. by rewrite orb_true_r.
    + destruct (String.eqb_spec (e_type e) "issue.batch_updated") as [Eb|Eb].
      * destruct (elements _) as [l|] eqn:El; [|done]. intros [_ Hl%Nat.eqb_eq]%andb_true_iff. unfold elements in El.
        destruct (payload_field "issues" e) as [[| | | |l'|]|]; try done. injection El as ->.
        assert (Ep : project_event e = false) by (unfold project_event; rewrite Eb; done).
        assert (Eo : notice e = None) by (unfold notice; rewrite Eb; destruct (payload_field "entity" e) as [[]|]; done).
        rewrite Ep, Eo. cbn [isSome orb andb negb]. destruct (eventIssues e), l; try done; cbn [nonempty]; by destruct (removedIssueIds e).
      * cbn [andb orb]. rewrite andb_false_r. cbn [negb]. destruct (nonempty (eventIssues e)); [intros _; by rewrite orb_true_r|]. destruct (nonempty (stringIds _) && _) eqn:Er.
        { intros _. apply andb_true_iff in Er as [Er _]. unfold removedIssueIds. destruct (stringIds (payload_field "removedIssueIds" e)); [done|]. cbn. by rewrite orb_true_r. }
        unfold project_event. cbv zeta. destruct ((_ =s "project.updated") || _); [intros ->; by rewrite orb_true_r|].
        destruct (_ =s "project.deleted"); [|done]. intros ->. by rewrite orb_true_r.
Qed.

(** ** What a patch does *)

(** The fields of a record itself. *)
Definition own (i : Issue) := (id i, version i, isSummary i, needsDetailRefresh i, body i).

(** The same issue, but for the copies of labels and projects it embeds. *)
Record same_issue (i j : Issue) : Prop := {
  s_own : own i = own j;
  s_parts : forall k, k <> "labels" -> k <> "project" -> part k i = part k j;
  s_labels : label_ids i = label_ids j;
  s_project : project_id i = project_id j }.

#[export] Instance same_issue_preorder : PreOrder same_issue.
Proof. split; [done|]. intros a b c [] []. split; [congruence | intros k H1 H2; etransitivity; auto | congruence | congruence]. Qed.

Lemma relabel_same l i : same_issue (relabel (directory l) i) i.
Proof. split; [unfold relabel; by destruct (labels_of i) | intros k H _; by apply relabel_part | apply relabel_label_ids | apply relabel_project]. Qed.

Lemma copy_summary_id p s : id_of (copy_summary p s) = id_of s.
Proof.
  destruct s; try done. unfold copy_summary, id_of. cbn [field fold_left summary_fields].
  assert (G : forall k x fs, k <> "id" -> k <> "__proto__" -> array_index k = None -> map_get "id" (set_optional k x fs) = map_get "id" fs).
  { intros k [x|] fs' H1 H2 H3; cbn; [rewrite obj_set_plain by done; by apply map_get_set_ne | rewrite get_without; by rewrite (proj2 (String.eqb_neq _ _) (not_eq_sym H1))]. }
  by rewrite !G.
Qed.

Lemma sync_summary_same p i : same_issue (sync_summary p i) i.
Proof.
  unfold sync_summary. destruct (project_of i) as [s|] eqn:Es; [|reflexivity]. destruct (_ || _); [reflexivity|]. split; [done | intros k _ H; by apply part_set_ne | |].
  - unfold label_ids, labels_of. by rewrite part_set_ne.
  - unfold project_id, project_of in *. rewrite part_set_eq by done. destruct (part "project" i) as [[]|]; try done. injection Es as <-. cbn [copy_summary fmap option_fmap option_map].
    f_equal. apply (copy_summary_id p (JObj fields)).
Qed.

Lemma held_same f k l : (forall i, same_issue (f i) i) -> option_Forall2 same_issue (held k (map f l)) (held k l).
Proof. intros H. rewrite held_map; [destruct (held k l); constructor; auto|]. intros i. destruct (H i) as [E _ _ _]. unfold own in E. congruence. Qed.

(** The issue [k] after the event: the last record the event brings, or the held one unless it is removed; a notification touches no issue. *)
Definition expected (k : string) (e : Event) (d : Data) : option Issue :=
  match notice e, held k (rev (eventIssues e)) with
  | Some _, _ => held k (issues d)
  | None, Some i => Some i
  | None, None => if mem k (removedIssueIds e) then None else held k (issues d)
  end.

Lemma removed_held k e d : held k (List.filter (fun i => negb (mem (id i) (removedIssueIds e))) (issues d)) = if mem k (removedIssueIds e) then None else held k (issues d).
Proof. rewrite (held_filter k (issues d) (fun i => negb (mem i (removedIssueIds e)))). by destruct (mem k _). Qed.

Lemma upserts_NoDup evs l : NoDup (map id l) -> NoDup (map id (fold_left (upsertById id) evs l)).
Proof. revert l. induction evs as [|x evs IH]; intros l H; [done|]. cbn [fold_left]. by apply IH, upsert_NoDup. Qed.

Lemma filter_NoDup_ids p (l : list Issue) : NoDup (map id l) -> NoDup (map id (List.filter p l)).
Proof.
  induction l as [|x l IH]; [done|]. cbn. intros [Hx Hn]%NoDup_cons. destruct (p x); [|auto]. cbn. apply NoDup_cons. split; [|auto].
  intros H. apply Hx. rewrite list_elem_of_In, in_map_iff in *. destruct H as (y & Hy & Hy2). exists y. split; [done|]. by apply filter_In in Hy2 as [? _].
Qed.

Definition ranked (l : list Issue) : Prop := Forall (fun i => 0 <= vers i) l.

Lemma merge_pages evs l : NoDup (map id l) -> ranked l -> ranked evs ->
  let out := fold_left (fun next i => mergeIssueRecords next [i] 2000) evs l in
  NoDup (map id out) /\ ranked out /\ forall k, k ∈ map id out -> k ∈ map id (rev evs) \/ k ∈ map id l.
Proof.
  revert l. induction evs as [|x evs IH]; intros l Hn Hl He; [cbn; auto|]. cbv zeta. cbn [fold_left]. apply Forall_cons in He as [Hx He].
  assert (Hr : ranked (l ++ [x])) by (apply Forall_app; split; [done | by repeat constructor]).
  destruct (merge_rows l [x] 2000 Hn Hr) as (M1 & _ & M3). destruct (IH _ M1) as (I1 & I2 & I3); [by eapply List.Forall_impl; [|exact M3]; intros y (_ & Hy & _) | done|].
  split; [done|]. split; [done|]. intros k [Hk|Hk]%I3; cbn; rewrite map_app, elem_of_app; [auto|]. apply list_elem_of_In, in_map_iff in Hk as (y & <- & Hy).
  apply (proj1 (List.Forall_forall _ _) M3) in Hy as [Hy _]. cbn in Hy. unfold all in Hy. rewrite map_app, elem_of_app in Hy. cbn. tauto.
Qed.

(** A workspace whose issues have different ids and versions from zero; what is an entity is an object. *)
Record sound (d : Data) : Prop := {
  d_ids : NoDup (map id (issues d));
  d_ranked : ranked (issues d);
  d_labels : Forall is_object (labels d);
  d_projects : Forall is_object (projects d) }.

Lemma derive_objects counts l : Forall is_object l -> Forall is_object (map (with_count counts) l).
Proof. intros H. apply Forall_map. eapply List.Forall_impl; [|exact H]. intros v [fs ->]. unfold with_count. cbv zeta. destruct (match field _ _ with Some _ => _ | None => _ end); eexists; done. Qed.

Lemma derive_sound d : sound d -> sound (deriveResourceCounts d).
Proof.
  intros [H1 H2 H3 H4]. unfold deriveResourceCounts. destruct (issueCollectionPaged d); cbn; split; cbn; try done; try by apply derive_objects.
  - apply (sublist_NoDup _ (map id (issues d))); [done|]. rewrite <- firstn_map. apply sublist_take.
  - by apply Forall_take.
  - rewrite map_map. by rewrite (map_ext _ id (relabel_id _)).
  - apply Forall_map. eapply List.Forall_impl; [|exact H2]. intros i Hi. unfold relabel. by destruct (labels_of i).
Qed.

Lemma derive_held k d : issueCollectionPaged d = false -> option_Forall2 same_issue (held k (issues (deriveResourceCounts d))) (held k (issues d)).
Proof. intros Hp. unfold deriveResourceCounts. rewrite Hp. cbn. apply held_same. apply relabel_same. Qed.

Lemma sound_issues l d : NoDup (map id l) -> ranked l -> sound d -> sound (set_issues l d).
Proof. intros H1 H2 [_ _ H3 H4]. by split. Qed.

Lemma patch_issues_sound e d : notice e = None -> sound d -> ranked (eventIssues e) ->
  NoDup (map id (patch_issues e d)) /\ ranked (patch_issues e d) /\ forall k, k ∈ map id (patch_issues e d) -> expected k e d <> None.
Proof.
  intros Hno Hd He. unfold patch_issues. set (kept := List.filter _ (issues d)). change kept with (List.filter (fun i => negb (mem (id i) (removedIssueIds e))) (issues d)) in *.
  set (kept' := List.filter _ (issues d)). assert (Hn : NoDup (map id kept')) by apply filter_NoDup_ids, Hd.
  assert (Hr : ranked kept') by (apply List.Forall_forall; intros i [Hi _]%filter_In; by apply (proj1 (List.Forall_forall _ _) (d_ranked _ Hd))).
  assert (Hx : forall k, held k (rev (eventIssues e)) <> None \/ held k kept' <> None -> expected k e d <> None).
  { intros k Hk. unfold expected. rewrite Hno. destruct (held k (rev _)); [done|]. destruct Hk as [?|Hk]; [done|]. unfold kept' in Hk. by rewrite removed_held in Hk. }
  assert (Hin : forall k l, k ∈ map id l -> held k l <> None) by (intros k l Hk E; by apply held_None in E).
  destruct (issueCollectionPaged d).
  - destruct (merge_pages (eventIssues e) kept' Hn Hr He) as (M1 & M2 & M3). split; [done|]. split; [done|]. intros k Hk. apply Hx. destruct (M3 k Hk); auto.
  - split; [by apply upserts_NoDup|]. split.
    + clear Hx. revert Hr. generalize kept'. induction He as [|i evs Hi He IH]; intros l Hl; [done|]. cbn [fold_left]. apply IH. unfold upsertById. destruct (existsb _ _); [|by constructor].
      apply Forall_map. eapply List.Forall_impl; [|exact Hl]. intros j Hj. by destruct (_ =s _).
    + intros k Hk%Hin. rewrite held_upserts in Hk. apply Hx. destruct (held k (rev _)); [by left | by right].
Qed.

Lemma patch_issues_held e d k : notice e = None -> issueCollectionPaged d = false -> held k (patch_issues e d) = expected k e d.
Proof. intros Hno Hp. unfold patch_issues. rewrite Hp. rewrite held_upserts. unfold expected. rewrite Hno. destruct (held k (rev _)); [done|]. apply removed_held. Qed.

(** *** A workspace in pages *)

Lemma fill_room lim l m : NoDup (map id l) -> Z.of_nat (length m + length (List.filter (fun j => negb (map_has (id j) m)) l)) <= lim ->
  map_values (fill lim l m) = map_values m ++ List.filter (fun j => negb (map_has (id j) m)) l.
Proof.
  revert m. induction l as [|i l IH]; intros m Hn Hl; [cbn; by rewrite app_nil_r|]. cbn [map] in Hn. apply NoDup_cons in Hn as [Hi Hn]. cbn [fill].
  destruct (Z.leb_spec lim (Z.of_nat (length m))).
  { destruct (List.filter _ (i :: l)); [by rewrite app_nil_r | cbn in Hl; lia]. }
  cbn [List.filter] in *. destruct (map_has (id i) m) eqn:Eh; cbn [negb] in *; [by apply IH|].
  assert (Hk : id i ∉ map_keys m) by (apply map_get_None; unfold map_has in Eh; by destruct (map_get (id i) m)).
  assert (Hf : List.filter (fun j => negb (map_has (id j) (map_set (id i) i m))) l = List.filter (fun j => negb (map_has (id j) m)) l).
  { apply filter_ext_in. intros j Hj. f_equal. unfold map_has. rewrite map_get_set_ne; [done|]. intros E. apply Hi. rewrite <- E. apply list_elem_of_In, in_map, Hj. }
  rewrite IH, Hf; [|done | rewrite Hf, map_set_length_new by done; cbn in Hl; lia].
  rewrite map_set_new by done. unfold map_values. rewrite map_app, <- app_assoc. done.
Qed.

Lemma index_held k l : NoDup (map id l) -> map_get k (index l) = held k l.
Proof.
  intros Hn. destruct (held k l) as [x|] eqn:E.
  - apply index_get; [done|]. apply find_some in E as [H1 H2%String.eqb_eq]. done.
  - destruct (map_get k (index l)) as [y|] eqn:Eg; [|done]. apply index_get in Eg as [H1 <-]; [|done]. apply held_None in E. by destruct E; apply list_elem_of_In, in_map.
Qed.

(** One record merged into a page, when the issues fit: it is merged with the held one, the others stay. *)
Lemma merge_one l i u k : NoDup (map id l) -> (length u <= 2000)%nat -> id i ∈ u -> (forall j, In j l -> id j ∈ u) ->
  held k (mergeIssueRecords l [i] 2000) = if id i =s k then Some (merge_issue (held k l) i) else held k l.
Proof.
  intros Hn Hu Hi Hl. unfold mergeIssueRecords. change (clamp 2000) with 2000. cbn [Z.eqb fold_left]. unfold take_in at 1. cbn [map_has map_get isSome negb andb length].
  change (2000 <=? Z.of_nat 0) with false. cbv iota. cbn [map_set]. rewrite index_held by done. set (x := merge_issue (held (id i) l) i).
  assert (Hx : id x = id i) by (apply merge_issue_id; intros q Hq; by apply find_some in Hq as [_ Hq%String.eqb_eq]).
  assert (Hh : forall j, map_has j [(id i, x)] = (j =s id i)).
  { intros j. unfold map_has. cbn. destruct (String.eqb_spec j (id i)); by destruct (decide _). }
  rewrite fill_room; [|done|].
  - cbn [map_values map snd app]. rewrite (filter_ext _ (fun j => negb (id j =s id i))) by (intros j; by rewrite Hh).
    unfold held at 1. cbn [List.find]. rewrite Hx. destruct (String.eqb_spec (id i) k) as [<-|Hk]; [done|].
    change (List.find _ _) with (held k (List.filter (fun j => negb (id j =s id i)) l)). rewrite (held_filter k l (fun j => negb (j =s id i))).
    destruct (String.eqb_spec k (id i)); [congruence | done].
  - rewrite (filter_ext _ (fun j => negb (id j =s id i))) by (intros j; by rewrite Hh).
    assert (Hle : (length (id i :: map id (List.filter (fun j => negb (id j =s id i)) l)) <= length u)%nat).
    { apply submseteq_length, NoDup_submseteq.
      - apply NoDup_cons. split; [|by apply filter_NoDup_ids]. rewrite list_elem_of_In, in_map_iff. intros (j & Ej & [_ Hj]%filter_In).
        rewrite Ej, String.eqb_refl in Hj. done.
      - intros y [->|Hy]%elem_of_cons; [done|]. apply list_elem_of_In, in_map_iff in Hy as (j & <- & [Hj _]%filter_In). auto. }
    cbn [length] in *. rewrite length_map in Hle. lia.
Qed.

(** What a page holds of the issue [k] after the event: its records are merged, one after the other, into the one held unless it is removed. *)
Definition merged (k : string) (e : Event) (d : Data) : option Issue :=
  match notice e with
  | Some _ => held k (issues d)
  | None => fold_left (fun p i => if id i =s k then Some (merge_issue p i) else p) (eventIssues e)
              (if mem k (removedIssueIds e) then None else held k (issues d))
  end.

Lemma merge_records u evs k : (length u <= 2000)%nat -> ranked evs -> (forall i, In i evs -> id i ∈ u) -> forall l, NoDup (map id l) -> ranked l -> (forall j, In j l -> id j ∈ u) ->
  held k (fold_left (fun next i => mergeIssueRecords next [i] 2000) evs l) = fold_left (fun p i => if id i =s k then Some (merge_issue p i) else p) evs (held k l).
Proof.
  intros Hu He. induction He as [|i evs Hi He IH]; intros Hin l Hn Hl Hj; [done|]. cbn [fold_left].
  assert (Hr : ranked (l ++ [i])) by (apply Forall_app; split; [done | by repeat constructor]).
  destruct (merge_rows l [i] 2000 Hn Hr) as (M1 & _ & M3). rewrite IH.
  - f_equal. apply (merge_one l i u); auto. apply Hin. by left.
  - intros j H. apply Hin. by right.
  - done.
  - eapply List.Forall_impl; [|exact M3]. by intros y (_ & Hy & _).
  - intros j Hy. apply (proj1 (List.Forall_forall _ _) M3) in Hy as [Hy _]. cbn in Hy. unfold all in Hy. apply list_elem_of_In, in_map_iff in Hy as (z & <- & [Hz|[<-|[]]]%in_app_iff); [auto | apply Hin; by left].
Qed.

Definition fits (e : Event) (d : Data) : Prop := (length (unique (map id (issues d ++ eventIssues e))) <= 2000)%nat.

Lemma patch_merged e d k : notice e = None -> sound d -> ranked (eventIssues e) -> issueCollectionPaged d = true -> fits e d ->
  held k (patch_issues e d) = merged k e d /\ (length (patch_issues e d) <= 2000)%nat.
Proof.
  intros Hno Hd He Hp Hf. unfold fits in Hf. destruct (unique_spec (map id (issues d ++ eventIssues e))) as [_ U]. set (u := unique _) in *.
  assert (Hin : forall i, In i (issues d ++ eventIssues e) -> id i ∈ u) by (intros i Hi; apply U, list_elem_of_In, in_map, Hi).
  split.
  - unfold patch_issues, merged. rewrite Hp, Hno, <- removed_held.
    apply (merge_records u); try done.
    + intros i Hi. apply Hin, in_app_iff. by right.
    + apply filter_NoDup_ids, Hd.
    + apply List.Forall_forall. intros i [Hi _]%filter_In. by apply (proj1 (List.Forall_forall _ _) (d_ranked _ Hd)).
    + intros j [Hj _]%filter_In. apply Hin, in_app_iff. by left.
  - destruct (patch_issues_sound e d Hno Hd He) as (H1 & _ & H3). rewrite <- (length_map id). etransitivity; [|exact Hf].
    apply submseteq_length, NoDup_submseteq; [done|]. intros x Hx. specialize (H3 x Hx). unfold expected in H3. rewrite Hno in H3. apply U.
    rewrite map_app, elem_of_app. destruct (held x (rev (eventIssues e))) as [y|] eqn:Ey.
    + right. apply find_some in Ey as [Hy <-%String.eqb_eq]. apply list_elem_of_In, in_map, in_rev, Hy.
    + left. destruct (held x (issues d)) as [y|] eqn:Ez; [|by destruct (mem x (removedIssueIds e))]. apply find_some in Ez as [Hy <-%String.eqb_eq]. apply list_elem_of_In, in_map, Hy.
Qed.

(** Applied patches keep the order of things. *)
Record patched (e : Event) (d d' : Data) : Prop := {
  p_sound : sound d';
  p_whole : issueCollectionPaged d' = issueCollectionPaged d;
  p_issues : issueCollectionPaged d = false -> forall k, option_Forall2 same_issue (held k (issues d')) (expected k e d);
  p_counted : issueCollectionPaged d = false -> counted d -> counted d';
  p_paged : issueCollectionPaged d = true -> (length (issues d) <= 2000)%nat -> (length (issues d') <= 2000)%nat /\ forall k, k ∈ map id (issues d') -> expected k e d <> None;
  p_merged : issueCollectionPaged d = true -> fits e d -> forall k, option_Forall2 same_issue (held k (issues d')) (merged k e d) }.

Lemma derived_patch e d l ps :
  sound d -> NoDup (map id l) -> ranked l -> Forall is_object ps -> (issueCollectionPaged d = false -> forall k, option_Forall2 same_issue (held k l) (expected k e d)) ->
  (forall k, k ∈ map id l -> expected k e d <> None) ->
  (issueCollectionPaged d = true -> fits e d -> (length l <= 2000)%nat /\ forall k, option_Forall2 same_issue (held k l) (merged k e d)) ->
  patched e d (deriveResourceCounts (set_collections l ps (labels d) (states d) (notifications d) d)).
Proof.
  intros Hd Hn Hr Ho Hs Hk Hm. set (s := set_collections _ _ _ _ _ _). assert (Hss : sound s) by (split; try done; apply Hd). split.
  - by apply derive_sound.
  - unfold deriveResourceCounts. destruct (issueCollectionPaged s) eqn:E; done.
  - intros Hp k. assert (H1 := derive_held k s Hp). specialize (Hs Hp k). change (issues s) with l in H1. destruct H1 as [a b Hab|]; inversion Hs; subst; constructor. by transitivity b.
  - intros Hp _. apply derive_counted; [done | apply Hd | done].
  - intros Hp _. unfold deriveResourceCounts. change (issueCollectionPaged s) with (issueCollectionPaged d). rewrite Hp. cbn. split; [rewrite length_take; lia|].
    intros k H. apply Hk. rewrite <- firstn_map in H. rewrite <- (take_drop 2000 (map id l)). apply elem_of_app. by left.
  - intros Hp Hf k. destruct (Hm Hp Hf) as [Hle Hm']. unfold deriveResourceCounts. change (issueCollectionPaged s) with (issueCollectionPaged d). rewrite Hp. cbn. rewrite take_ge by lia. apply Hm'.
Qed.

Lemma object_project p : isProjectLike p = true -> is_object p.
Proof. destruct p; try done. by eexists. Qed.

Lemma upsert_objects l p : Forall is_object l -> is_object p -> Forall is_object (upsertById id_of l p).
Proof. intros H Hp. unfold upsertById. destruct (existsb _ _); [|by constructor]. apply Forall_map. eapply List.Forall_impl; [|exact H]. intros v Hv. by destruct (_ =s _). Qed.

Lemma unchanged_expected e d k : eventIssues e = [] -> removedIssueIds e = [] -> expected k e d = held k (issues d).
Proof. intros E1 E2. unfold expected. rewrite E1, E2. by destruct (notice e). Qed.

Lemma held_self k l : option_Forall2 same_issue (held k l) (held k l).
Proof. destruct (held k l); constructor. reflexivity. Qed.

Lemma same_ids f (l : list Issue) : (forall i, same_issue (f i) i) -> map id (map f l) = map id l.
Proof. intros H. rewrite map_map. apply map_ext. intros i. destruct (H i) as [E _ _ _]. unfold own in E. congruence. Qed.

Lemma same_ranked f l : (forall i, same_issue (f i) i) -> ranked l -> ranked (map f l).
Proof. intros H Hl. apply Forall_map. eapply List.Forall_impl; [|exact Hl]. intros i Hi. destruct (H i) as [E _ _ _]. unfold own in E. unfold vers in *. replace (version (f i)) with (version i) by congruence. done. Qed.

Lemma applied_patch d e d' : sound d -> ranked (eventIssues e) -> applyRealtimePatch d e = Some d' -> patched e d d'.
Proof.
  intros Hd He. unfold applyRealtimePatch. destruct (notice e) as [n|] eqn:En.
  - assert (Hx : forall k, expected k e d = held k (issues d)) by (intros k; unfold expected; by rewrite En).
    assert (G : forall ns, patched e d (set_collections (issues d) (projects d) (labels d) (states d) ns d)).
    { intros ns. split; try done; [by destruct Hd | intros _ k; rewrite Hx; apply held_self | by intros _ [] | intros _ Hl; split; [done|] | intros _ _ k; unfold merged; rewrite En; apply held_self].
      intros k Hk E. rewrite Hx in E. by apply held_None in E. }
    destruct (is_str _ _); intros [= <-]; [apply G|]. specialize (G (notifications d)). by destruct d.
  - assert (G : patched e d (deriveResourceCounts (set_issues (patch_issues e d) d))).
    { destruct (patch_issues_sound e d En Hd He) as (H1 & H2 & H3).
      apply derived_patch; [done | done | done | apply Hd | intros Hp k; rewrite patch_issues_held by done; destruct (expected k e d); constructor; reflexivity | done |].
      intros Hp Hf. split; [by apply (patch_merged e d "") | intros k; destruct (patch_merged e d k En Hd He Hp Hf) as [-> _]; destruct (merged k e d); constructor; reflexivity]. }
    destruct (eventIssues e) as [|i evs] eqn:Ei; [destruct (removedIssueIds e) as [|r rs] eqn:Er|]; [|by intros [= <-]|by intros [= <-]]. clear G.
    assert (Hx : forall k, expected k e d = held k (issues d)) by (intros k; by apply unchanged_expected).
    assert (Hin : forall k l, k ∈ map id l -> held k l <> None) by (intros k l Hk E; by apply held_None in E).
    assert (Hmx : forall k, merged k e d = held k (issues d)) by (intros k; unfold merged; by rewrite En, Ei, Er).
    assert (Hsz : fits e d -> (length (issues d) <= 2000)%nat).
    { unfold fits. rewrite Ei, app_nil_r. intros Hf. rewrite <- (length_map id). etransitivity; [|exact Hf]. destruct (unique_spec (map id (issues d))) as [_ U].
      apply submseteq_length, NoDup_submseteq; [apply Hd | intros x Hx'; by apply U]. }
    destruct (if (_ =s "project.updated") || _ then _ else None) as [p|] eqn:Ep.
    + intros [= <-]. assert (Hp : isProjectLike p = true) by (destruct (_ || _); [|done]; destruct (payload_field "entity" e) as [q|]; [|done]; destruct (isProjectLike q) eqn:Eq; congruence).
      unfold syncIssueProjectSummaries. apply derived_patch; [done | rewrite same_ids; [apply Hd | apply sync_summary_same] | apply same_ranked; [apply sync_summary_same | apply Hd] | | | |].
      * apply upsert_objects; [apply Hd | by apply object_project].
      * intros _ k. rewrite Hx. apply held_same, sync_summary_same.
      * intros k Hk. rewrite Hx. apply Hin. by rewrite same_ids in Hk by apply sync_summary_same.
      * intros _ Hf. split; [rewrite length_map; auto | intros k; rewrite Hmx; apply held_same, sync_summary_same].
    + destruct (aggregate e) as [|a _]; [done|]. destruct (_ =s "project.deleted"); [|done]. intros [= <-].
        apply derived_patch; [done | apply Hd | apply Hd | | intros _ k; rewrite Hx; apply held_self | intros k Hk; rewrite Hx; auto | intros _ Hf; split; [auto | intros k; rewrite Hmx; apply held_self]].
        apply List.Forall_forall. intros v [Hv _]%filter_In. by apply (proj1 (List.Forall_forall _ _) (d_projects _ Hd)).
Qed.

(** C24 (realtime_patch_sound).  In a workspace with distinct issues and no negative versions: an event that counts as a patch is applied, unless it is one of the two kinds that carry nothing to apply.  In a workspace that holds all issues (one that is not paged), each issue is
    then the last record the event brings, or the held one, or gone when the event removes it, up to the copies of labels and projects, and the counts are the numbers of uses and the labels of issues those of the directory
    if they were before.  A paged workspace of at most 2000 issues keeps to that bound and holds only issues it held or the event brings, none that the event removes and does not bring; when the held issues and those of the event are at most
    2000, each issue is the held one (gone when the event removes it) with the event's records of it merged in one after the other, so that an older record changes nothing. *)
Theorem realtime_patch_sound d e : sound d -> ranked (eventIssues e) -> canApplyRealtimePatch e = true ->
  (dropped e = true /\ applyRealtimePatch d e = None) \/ (dropped e = false /\ exists d', applyRealtimePatch d e = Some d' /\ patched e d d').
Proof.
  intros Hd He Hc. pose proof (patch_handled d e Hc) as Hh. destruct (dropped e); [left; split; [done|]; by destruct (applyRealtimePatch d e)|]. right. split; [done|].
  destruct (applyRealtimePatch d e) as [d'|] eqn:Ea; [|done]. exists d'. split; [done|]. clear Hh Hc. by apply (applied_patch d e d').
Qed.

(** ** Refreshed issues *)

Lemma derive_ids d : issueCollectionPaged d = false -> map id (issues (deriveResourceCounts d)) = map id (issues d).
Proof. intros Hp. unfold deriveResourceCounts. rewrite Hp. cbn. rewrite map_map. apply map_ext, relabel_id. Qed.

Lemma refresh_id refreshed i : NoDup (map id refreshed) -> id (refresh_issue (index refreshed) i) = id i.
Proof.
  intros Hn. unfold refresh_issue. destruct (map_get (id i) (index refreshed)) as [x|] eqn:E; [|done]. apply index_get in E as [_ E]; [|done].
  destruct (_ <? _); [done|]. by destruct (_ && _).
Qed.

Lemma refreshed_ids d refreshed : NoDup (map id refreshed) -> issueCollectionPaged d = false ->
  map id (issues (mergeRefreshedIssues d refreshed)) = map id (issues d) /\ issueCollectionPaged (mergeRefreshedIssues d refreshed) = false.
Proof.
  intros Hn Hp. unfold mergeRefreshedIssues. destruct refreshed as [|x r]; [done|]. split; [|unfold deriveResourceCounts; cbn [issueCollectionPaged set_issues set_collections]; by rewrite Hp].
  rewrite derive_ids by done. cbn [issues set_issues set_collections]. rewrite map_map. apply map_ext. intros i. by apply refresh_id.
Qed.

Lemma has_id_spec i l : has_id i l = true <-> i ∈ map id l.
Proof. unfold has_id. rewrite existsb_exists, list_elem_of_In, in_map_iff. split; [intros (x & H & E%String.eqb_eq); eauto | intros (x & <- & H); exists x; by rewrite String.eqb_refl]. Qed.

(** The complete answer to a query of issues: afterwards the workspace holds each issue once, and exactly the returned ones and the held ones that the query does not own. *)
Theorem scoped_merge_sound d refreshed owns : NoDup (map id (issues d)) -> NoDup (map id refreshed) -> issueCollectionPaged d = false ->
  let d' := mergeScopedIssues d refreshed owns in
  NoDup (map id (issues d')) /\ forall k, k ∈ map id (issues d') <-> k ∈ map id refreshed \/ exists i, In i (issues d) /\ id i = k /\ match owns with Some f => f i = false | None => True end.
Proof.
  intros Hd Hr Hp. unfold mergeScopedIssues. cbv zeta. set (kept := match owns with Some f => _ | None => _ end). set (base := set_issues kept d).
  assert (Hk : NoDup (map id kept)) by (unfold kept; destruct owns; [by apply filter_NoDup_ids | done]).
  destruct (refreshed_ids base refreshed Hr Hp) as [E1 E2]. change (issues base) with kept in E1.
  assert (Hin : forall k, (k ∈ map id kept \/ k ∈ map id refreshed) <-> k ∈ map id refreshed \/ exists i, In i (issues d) /\ id i = k /\ match owns with Some f => f i = false | None => True end).
  { intros k. unfold kept. destruct owns as [f|]; rewrite !list_elem_of_In, !in_map_iff.
    - split; intros [H|H]; auto.
      + destruct H as (i & <- & [Hi [Hh|Hf]%orb_true_iff]%filter_In); [left; by apply in_map_iff, list_elem_of_In, has_id_spec | right; exists i; by apply negb_true_iff in Hf].
      + destruct H as (i & Hi & <- & Hf). left. exists i. split; [done|]. apply filter_In. split; [done|]. by rewrite Hf, orb_true_r.
    - split; intros [H|H]; auto; [right; destruct H as (i & ? & ?); by exists i | left; destruct H as (i & ? & ? & _); by exists i]. }
  set (merged := mergeRefreshedIssues base refreshed) in *. destruct (List.filter _ refreshed) as [|x added] eqn:Ef.
  - assert (Hall : forall k, k ∈ map id refreshed -> k ∈ map id kept).
    { intros k H. apply list_elem_of_In, in_map_iff in H as (i & <- & Hi). destruct (has_id (id i) (issues merged)) eqn:E; [rewrite <- E1; by apply has_id_spec|].
      assert (H : In i []) by (rewrite <- Ef; apply filter_In; by rewrite E). done. }
    assert (Er : map id (issues (if negb (nonempty refreshed) && negb (length kept =? length (issues d))%nat then deriveResourceCounts base else merged)) = map id kept) by (destruct (_ && _); [by apply derive_ids | done]).
    rewrite Er. split; [done|]. intros k. rewrite <- Hin. split; [auto|]. intros [?|?]; auto.
  - rewrite derive_ids by done. cbn [issues set_issues set_collections]. rewrite <- Ef, map_app, E1. split.
    + apply NoDup_app. split; [done|]. split; [|by apply filter_NoDup_ids]. intros k Hk1 Hk2. apply list_elem_of_In, in_map_iff in Hk2 as (i & <- & [_ Hi%negb_true_iff]%filter_In).
      rewrite <- E1 in Hk1. apply has_id_spec in Hk1. congruence.
    + intros k. rewrite <- Hin, elem_of_app. split; (intros [H|H]; [auto|]).
      * right. apply list_elem_of_In, in_map_iff in H as (i & <- & [Hi _]%filter_In). by apply list_elem_of_In, in_map.
      * apply list_elem_of_In, in_map_iff in H as (i & <- & Hi). destruct (has_id (id i) (issues merged)) eqn:E; [left; rewrite <- E1; by apply has_id_spec|].
        right. apply list_elem_of_In, in_map, filter_In. by rewrite E.
Qed.

(** ** Merged labels *)

Lemma get_insert_index j n k v o : array_index j = None -> array_index k = Some n -> map_get j (insert_index n k v o) = map_get j o.
Proof.
  intros Hj Hk. assert (Hkj : k <> j) by congruence. induction o as [|[k' v'] o IH]; cbn; [by case_decide|]. destruct (array_index k') as [m|] eqn:Ek; [|cbn; by rewrite decide_False].
  destruct (m <? n); [cbn; by rewrite IH|]. destruct (m =? n); cbn; rewrite !decide_False by congruence; done.
Qed.

Lemma get_obj_set j k v o : array_index j = None -> j <> "__proto__" -> map_get j (obj_set k v o) = if k =s j then Some v else map_get j o.
Proof.
  intros Hj Hp. unfold obj_set. destruct (String.eqb_spec k "__proto__") as [->|Hk]; [by rewrite (proj2 (String.eqb_neq _ _) (not_eq_sym Hp))|]. destruct (array_index k) as [n|] eqn:Ek.
  - rewrite get_insert_index by done. destruct (String.eqb_spec k j); [congruence | done].
  - destruct (String.eqb_spec k j) as [->|Hkj]; [apply map_get_set_eq | apply map_get_set_ne; congruence].
Qed.

Lemma get_spread j gs fs : array_index j = None -> j <> "__proto__" -> NoDup (map_keys gs) ->
  map_get j (fold_left (fun o kv => obj_set kv.1 kv.2 o) gs fs) = match map_get j gs with Some v => Some v | None => map_get j fs end.
Proof.
  intros Hj Hp. revert fs. induction gs as [|[k v] gs IH]; intros fs Hn; [done|]. cbn [fold_left]. apply NoDup_cons in Hn as [Hk Hn]. rewrite IH, get_obj_set by done. cbn.
  destruct (String.eqb_spec k j) as [->|Hkj]; [rewrite decide_True by done; by rewrite (proj2 (map_get_None j gs) Hk) | by rewrite decide_False by congruence].
Qed.

(** An entity: an object with an id of its own and different keys. *)
Definition entity (v : json) : Prop := match v with JObj fs => NoDup (map_keys fs) /\ exists i, map_get "id" fs = Some (JStr i) | _ => False end.

Lemma spread_id a b : is_object a -> entity b -> id_of (spread a b) = id_of b.
Proof. intros [fs ->]. destruct b; try done. intros [Hn [i Hi]]. unfold id_of. cbn. by rewrite get_spread, Hi. Qed.

Section Merge.
Context (from : list string) (target : json) (Htarget : entity target) (Hapart : id_of target ∉ from).

(** The id a label has after the merge. *)
Definition merged_id (k : string) : string := if mem k from then id_of target else k.

Lemma merged_not_gone k : merged_id k ∉ from.
Proof. unfold merged_id. destruct (mem k from) eqn:E; [done | by apply mem_false]. Qed.

Lemma retarget_step_ids next label : is_object label -> NoDup (map id_of next) ->
  let next' := retarget_step from target next label in
  NoDup (map id_of next') /\ forall k, k ∈ map id_of next' <-> k ∈ map id_of next \/ k = merged_id (id_of label).
Proof.
  intros Ho Hn. unfold retarget_step. cbv zeta. fold (mem (id_of label) from). set (mapped := if mem (id_of label) from || (id_of label =s id_of target) then spread label target else label).
  assert (Em : id_of mapped = merged_id (id_of label)).
  { unfold mapped, merged_id. destruct (mem (id_of label) from); cbn [orb]; [by apply spread_id|]. destruct (String.eqb_spec (id_of label) (id_of target)); [rewrite spread_id by done; done | done]. }
  rewrite <- Em. destruct (existsb _ next) eqn:E.
  - split; [done|]. intros k. split; [auto|]. intros [?| ->]; [done|]. apply existsb_exists in E as (x & Hx & Ex%String.eqb_eq). rewrite <- Ex. by apply list_elem_of_In, in_map.
  - rewrite map_app. cbn. assert (Hm : id_of mapped ∉ map id_of next).
    { intros Hm. apply list_elem_of_In, in_map_iff in Hm as (x & Ex & Hx). apply not_true_iff_false in E. apply E, existsb_exists. exists x. split; [done|]. by apply String.eqb_eq. }
    split; [apply NoDup_app; split; [done|]; split; [intros x Hx ->%list_elem_of_singleton; done | apply NoDup_singleton]|]. intros k. by rewrite elem_of_app, list_elem_of_singleton.
Qed.

Lemma retarget_ids l : Forall is_object l -> NoDup (map id_of (retarget from target l)) /\ forall k, k ∈ map id_of (retarget from target l) <-> exists j, j ∈ map id_of l /\ k = merged_id j.
Proof.
  intros Hl. unfold retarget. assert (G : forall next, NoDup (map id_of next) -> NoDup (map id_of (fold_left (retarget_step from target) l next))
    /\ forall k, k ∈ map id_of (fold_left (retarget_step from target) l next) <-> k ∈ map id_of next \/ exists j, j ∈ map id_of l /\ k = merged_id j).
  { induction Hl as [|x l Hx _ IH]; intros next Hn; cbn [fold_left map]; [split; [done|]; intros k; set_solver|]. destruct (retarget_step_ids next x Hx Hn) as [S1 S2]. destruct (IH _ S1) as [I1 I2].
    split; [done|]. intros k. rewrite I2, S2. set_solver. }
  destruct (G [] (NoDup_nil_2)) as [H1 H2]. split; [done|]. intros k. rewrite H2. set_solver.
Qed.

(** A merge of labels: the merged ones are gone from the directory and from every issue, which carries the target in their place and no label twice. *)
Theorem label_merge_sound d i : Forall is_object (labels_of i ?? []) -> NoDup (label_ids i) -> In i (issues d) ->
  exists i', In i' (issues (merge_labels from target d)) /\ id i' = id i /\ NoDup (label_ids i') /\ (forall k, k ∈ label_ids i' <-> exists j, j ∈ label_ids i /\ k = merged_id j)
  /\ forall k, k ∈ label_ids i' -> k ∉ from.
Proof.
  intros Ho Hn Hi. set (f := fun i => if carries (fun k => mem k from) i then set_labels (retarget from target (labels_of i ?? [])) i else i).
  assert (H : NoDup (label_ids (f i)) /\ forall k, k ∈ label_ids (f i) <-> exists j, j ∈ label_ids i /\ k = merged_id j).
  { unfold f. destruct (carries _ i) eqn:E.
    - unfold label_ids at 1 2, set_labels, labels_of at 1 3. rewrite part_set_eq by done. by apply retarget_ids.
    - split; [done|]. intros k. assert (G : forall j, j ∈ label_ids i -> merged_id j = j).
      { intros j Hj. unfold merged_id. destruct (mem j from) eqn:Em; [|done]. apply not_true_iff_false in E. exfalso. apply E. unfold carries. apply existsb_exists. exists j. by rewrite <- list_elem_of_In. }
      split; [intros Hk; exists k; by rewrite G | intros (j & Hj & ->); by rewrite G]. }
  destruct H as [H1 H2]. exists (f i). split; [apply (in_map f), Hi|]. split; [unfold f; by destruct (carries _ i)|]. split; [done|]. split; [done|].
  intros k (j & _ & ->)%H2. apply merged_not_gone.
Qed.
End Merge.

(** ** A fresh directory and what is no longer visible *)

Lemma overlay_keys fresh previous k : k ∈ map_keys (overlay fresh previous) -> k ∈ map_keys fresh \/ k ∈ map_keys previous.
Proof.
  unfold overlay. revert fresh. induction previous as [|[j v] previous IH]; intros fresh H; cbn in *; [auto|]. apply IH in H as [H|H]; [|right; by apply elem_of_cons; right].
  destruct (decide (j ∈ map_keys fresh)); [rewrite map_set_keys_known in H by done; auto|]. rewrite map_set_keys_new, elem_of_app, list_elem_of_singleton in H by done.
  destruct H as [H| ->]; [auto | right; apply elem_of_cons; auto].
Qed.

Lemma filter_keys (p : string * json -> bool) m k : k ∈ map_keys (List.filter p m) -> exists v, p (k, v) = true.
Proof. intros H. apply list_elem_of_In, in_map_iff in H as ([j v] & <- & [_ H]%filter_In). by exists v. Qed.

Lemma retainHistory_keys issueIds keep previous fresh k : k ∈ map_keys (retainHistory issueIds keep previous fresh) -> k ∈ issueIds -> k ∈ keep.
Proof.
  intros H Hk. apply overlay_keys in H as [[v H]%filter_keys|[v H]%filter_keys]; cbn in H; [|by apply mem_spec in H].
  rewrite (proj2 (mem_spec _ _) Hk) in H. cbn in H. by apply mem_spec in H.
Qed.

Lemma filter_part_eq k p i : k <> "__proto__" -> array_index k = None -> elements (part k (filter_part k p i)) = List.filter p <$> elements (part k i).
Proof. intros H1 H2. unfold filter_part. destruct (part k i) as [[]|] eqn:E; rewrite ?part_set_eq, ?E by done; done. Qed.

Lemma filter_part_ne k k' p i : k <> k' -> k' <> "__proto__" -> array_index k' = None -> part k (filter_part k' p i) = part k i.
Proof. intros H1 H2 H3. unfold filter_part. destruct (part k' i) as [[]|]; try done. by apply part_set_ne. Qed.

(** The issues an issue points to. *)
Definition related (r : json) : option string := match field "relatedIssueId" r with Some (JStr s) => Some s | _ => None end.
Definition mentions (i : Issue) : list string :=
  match part "parentId" i with Some (JStr p) => [p] | _ => [] end ++ stringIds (part "subIssueIds" i) ++ omap related (elements (part "relations" i) ?? []).

Section Restrict.
Context (revoked : string -> bool) (next : Data).

(** The steps of [restrict_issue]. *)
Definition hide_project (i : Issue) : Issue := if known_project next i then i else set_part "projectMilestoneId" None (set_part "project" None i).
Definition hide_parent (i : Issue) : Issue := match part "parentId" i with Some (JStr p) => if truthy p && revoked p then set_part "parentId" None i else i | _ => i end.

Lemma hide_project_part k i : k <> "project" -> k <> "projectMilestoneId" -> part k (hide_project i) = part k i.
Proof. intros H1 H2. unfold hide_project. destruct (known_project next i); [done|]. by rewrite !part_set_ne. Qed.

Lemma hide_parent_part k i : k <> "parentId" -> part k (hide_parent i) = part k i.
Proof. intros H. unfold hide_parent. destruct (part "parentId" i) as [[]|]; try done. destruct (_ && _); [by apply part_set_ne | done]. Qed.

Definition steps (i : Issue) : Issue :=
  filter_part "relations" (fun r => match field "relatedIssueId" r with Some (JStr s) => negb (revoked s) | _ => true end)
    (filter_part "subIssueIds" (fun v => match v with JStr s => negb (revoked s) | _ => true end)
      (hide_parent (filter_part "labels" (fun l => mem (id_of l) (map id_of (labels next))) (hide_project i)))).

Lemma restrict_steps i : restrict_issue revoked next i = set_refresh (if summary (steps i) then needsDetailRefresh (steps i) else Some true) (steps i).
Proof. done. Qed.

Lemma filter_part_own k p i : own (filter_part k p i) = own i.
Proof. unfold filter_part. by destruct (part k i) as [[]|]. Qed.

Lemma steps_own i : own (steps i) = own i.
Proof.
  unfold steps. rewrite !filter_part_own. transitivity (own (filter_part "labels" (fun l => mem (id_of l) (map id_of (labels next))) (hide_project i))).
  - unfold hide_parent. destruct (part "parentId" _) as [[]|]; try done. by destruct (_ && _).
  - rewrite filter_part_own. unfold hide_project. by destruct (known_project next i).
Qed.

Lemma restrict_id i : id (restrict_issue revoked next i) = id i.
Proof. rewrite restrict_steps. pose proof (steps_own i) as E. unfold own in E. cbn. congruence. Qed.

Lemma restrict_vers i : vers (restrict_issue revoked next i) = vers i /\ summary (restrict_issue revoked next i) = summary i.
Proof. rewrite restrict_steps. pose proof (steps_own i) as E. unfold own in E. injection E as _ E1 E2 _ _. unfold vers, summary. cbn. by rewrite E1, E2. Qed.

Lemma restrict_mentions i k : truthy k = true -> revoked k = true -> k ∉ mentions (restrict_issue revoked next i).
Proof.
  intros Ht Hk. rewrite restrict_steps. generalize (if summary (steps i) then needsDetailRefresh (steps i) else Some true). intros b. unfold mentions. change (part ?x (set_refresh b (steps i))) with (part x (steps i)). rewrite !elem_of_app. intros [H|[H|H]].
  - unfold steps in H. rewrite !filter_part_ne in H by done. set (j := filter_part "labels" _ _) in H. unfold hide_parent in H. destruct (part "parentId" j) as [[| | |p| |]|] eqn:Ep; rewrite ?Ep in H; try by apply elem_of_nil in H.
    destruct (truthy p && revoked p) eqn:E; [rewrite part_unset in H; by apply elem_of_nil in H|]. rewrite Ep in H. apply list_elem_of_singleton in H as ->. by rewrite Ht, Hk in E.
  - unfold steps in H. rewrite filter_part_ne in H by done. set (j := hide_parent _) in H. pose proof (filter_part_eq "subIssueIds" (fun v => match v with JStr s => negb (revoked s) | _ => true end) j) as E. specialize (E ltac:(done) eq_refl).
    unfold stringIds, elements in *. destruct (part "subIssueIds" (filter_part "subIssueIds" _ j)) as [[| | | |l|]|]; try by apply elem_of_nil in H. destruct (part "subIssueIds" j) as [[| | | |l'|]|]; try done. injection E as ->.
    apply list_elem_of_omap in H as (v & Hv & Ev). destruct v as [| | |s| |]; try done. injection Ev as ->. apply list_elem_of_In, filter_In in Hv as [_ Hv]. by rewrite Hk in Hv.
  - unfold steps in H. rewrite filter_part_eq in H by done. destruct (elements _) as [l|]; [|by apply elem_of_nil in H]. cbn in H.
    apply list_elem_of_omap in H as (r & Hr & Er). apply list_elem_of_In, filter_In in Hr as [_ Hr]. unfold related in Er. destruct (field "relatedIssueId" r) as [[| | |s| |]|]; try done. injection Er as ->. by rewrite Hk in Hr.
Qed.

Lemma restrict_labels i k : k ∈ label_ids (restrict_issue revoked next i) -> k ∈ map id_of (labels next) /\ k ∈ label_ids i.
Proof.
  rewrite restrict_steps. generalize (if summary (steps i) then needsDetailRefresh (steps i) else Some true). intros b. unfold label_ids, labels_of. change (part ?x (set_refresh b (steps i))) with (part x (steps i)). unfold steps.
  rewrite !filter_part_ne, hide_parent_part, filter_part_eq, hide_project_part by done. destruct (elements _) as [l|]; [|intros H; by apply elem_of_nil in H]. cbn. intros H. apply list_elem_of_In, in_map_iff in H as (x & <- & [Hx Hm%mem_spec]%filter_In).
  split; [done|]. by apply list_elem_of_In, in_map.
Qed.

Lemma restrict_project i p : project_id (restrict_issue revoked next i) = Some p -> p ∈ map id_of (projects next).
Proof.
  rewrite restrict_steps. generalize (if summary (steps i) then needsDetailRefresh (steps i) else Some true). intros b. unfold project_id, project_of. change (part ?x (set_refresh b (steps i))) with (part x (steps i)). unfold steps.
  rewrite !filter_part_ne, hide_parent_part, filter_part_ne by done. unfold hide_project. destruct (known_project next i) eqn:E; [|by rewrite part_set_ne, part_unset]. intros H. unfold known_project, project_id, project_of in E. rewrite H in E. by apply mem_spec.
Qed.
End Restrict.

Definition visible_in (v : list string) (l : list Issue) : list Issue := List.filter (fun i => mem (id i) v) l.

(** C29 (visibility_enforced).  A fresh directory with the ids that are still visible: an issue that is not among them is gone, with its comments, activities and history, and no issue that stays points to it as its parent, a
    sub-issue or a relation; labels and projects of issues are those of the directory; and every visible issue stays, as new as it was held or came in, when there are at most 2000 of them. *)
Theorem visibility_enforced cur next v d' :
  NoDup (map id (issues cur)) -> ranked (issues cur ++ issues next) ->
  workspaceId cur = workspaceId next -> viewerId cur = viewerId next -> issueCollectionPaged next = true ->
  mergeWorkspaceDirectory (Some cur) next (Some v) = Some d' ->
  (forall k, truthy k = true -> k ∈ map id (issues cur ++ issues next) -> k ∉ v ->
     (k ∉ map id (issues d') ++ map_keys (comments d') ++ map_keys (activities d') ++ map_keys (issueHistoryCursors d')) /\ Forall (fun i => k ∉ mentions i) (issues d'))
  /\ Forall (fun i => (forall k, k ∈ label_ids i -> k ∈ map id_of (labels next)) /\ (forall p, project_id i = Some p -> p ∈ map id_of (projects next))) (issues d')
  /\ ((length (unique (map id (visible_in v (issues cur) ++ visible_in v (issues next)))) <= 2000)%nat ->
      forall i, In i (issues cur ++ issues next) -> id i ∈ v -> exists j, In j (issues d') /\ id j = id i /\ vers i <= vers j).
Proof.
  intros Hn Hr Ew Ev Ep. unfold mergeWorkspaceDirectory. rewrite Ew, Ev, Ep, !String.eqb_refl. cbn [negb orb isSome andb]. fold (visible_in v (issues cur)) (visible_in v (issues next)).
  set (a := visible_in v (issues cur)). set (b := visible_in v (issues next)). set (revoked := fun i : string => _). destruct (negb _); [done|]. intros [= <-]. cbn [issues comments activities issueHistoryCursors].
  set (merged := mergeIssueRecords a b 2000). set (out := map (restrict_issue revoked next) merged).
  apply Forall_app in Hr as [Hrc Hrn].
  assert (Hrank : forall l, ranked l -> ranked (visible_in v l)) by (intros l Hl; apply List.Forall_forall; intros i [Hi _]%filter_In; by apply (proj1 (List.Forall_forall _ _) Hl)).
  assert (Hab : ranked (a ++ b)) by (apply Forall_app; split; by apply Hrank). assert (Hna : NoDup (map id a)) by by apply filter_NoDup_ids.
  destruct (merge_rows a b 2000 Hna Hab) as (M1 & _ & M3). fold merged in M1, M3. pose proof (merge_complete a b 2000 Hna Hab) as M4. fold merged in M4.
  assert (Eo : map id out = map id merged) by (unfold out; rewrite map_map; apply map_ext, restrict_id).
  assert (Hout : forall k, k ∈ map id out -> k ∈ v).
  { intros k Hk. rewrite Eo in Hk. apply list_elem_of_In, in_map_iff in Hk as (i & <- & Hi). apply (proj1 (List.Forall_forall _ _) M3) in Hi as [Hi _]. cbn in Hi. unfold all in Hi.
    apply list_elem_of_In, in_map_iff in Hi as (j & <- & [Hj|Hj]%in_app_iff); apply filter_In in Hj as [_ Hj]; by apply mem_spec. }
  split; [|split].
  - intros k Ht Hk Hv. split.
    + rewrite !elem_of_app. intros [H|[H|[H|H]]]; [by apply Hv, Hout| | |]; apply Hv, Hout; by eapply retainHistory_keys.
    + apply Forall_map, Forall_true. intros i. apply restrict_mentions; [done|]. unfold revoked. by rewrite (proj2 (mem_spec _ _) Hk), (proj2 (mem_false _ _) Hv).
  - apply Forall_map, Forall_true. intros i. split; [intros k Hk; by apply (restrict_labels revoked next i) | intros p; apply restrict_project].
  - intros Hf i Hi Hv. assert (Hi' : In i (a ++ b)) by (apply in_app_iff; apply in_app_iff in Hi as [?|?]; [left|right]; apply filter_In; (split; [done | by apply mem_spec])).
    assert (Hin : id i ∈ map id merged) by (apply M4; [unfold all, clamp; lia | done]). apply list_elem_of_In, in_map_iff in Hin as (x & Ex & Hx).
    exists (restrict_issue revoked next x). rewrite restrict_id. split; [by apply in_map|]. split; [done|]. destruct (restrict_vers revoked next x) as [-> _].
    apply (proj1 (List.Forall_forall _ _) M3) in Hx as (_ & _ & _ & R4 & R5). cbn in R4, R5. apply in_app_iff in Hi' as [H|H]; [by apply R4 | by apply R5].
Qed.

(** ** A workspace of three issues *)

Module Demo.

Definition label (i : string) : json := JObj [("id", JStr i); ("name", JStr i)].
Definition row (i : string) (v : Z) (fs : list (string * json)) : Issue := mkIssue i (Some v) None None None None None None None fs.
Definition rows : list Issue :=
  [row "a" 3 [("labels", JArr [label "bug"]); ("project", JObj [("id", JStr "p")])];
   row "b" 1 [("labels", JArr [label "bug"; label "old"]); ("parentId", JStr "a"); ("relations", JArr [JObj [("relatedIssueId", JStr "c")]])];
   row "c" 2 [("labels", JArr [label "old"]); ("subIssueIds", JArr [JStr "a"; JStr "b"])]].
Definition workspace (paged : bool) (l : list Issue) : Data :=
  mkData "w" "me" paged None l [JObj [("id", JStr "p"); ("name", JStr "P")]] [label "bug"; label "old"] [] [] [] [("a", JArr []); ("c", JArr [])] [] [] [] [] [].

(** A batch that rewrites an issue, brings a new one and removes another. *)
Definition record (i : string) (l : string) : json := JObj [("id", JStr i); ("identifier", JStr i); ("version", JNum 4); ("labels", JArr [label l])].
Definition batch : Event :=
  EventQueue.mkEvent "e" "issue.batch_updated" None "t"
    (Some (JObj [("issueIds", JArr [JStr "b"; JStr "d"]); ("issues", JArr [record "b" "old"; record "d" "bug"]); ("removedIssueIds", JArr [JStr "c"])])).

Definition counts (l : list json) : list (string * option json) := map (fun v => (id_of v, field "issueCount" v)) l.

Lemma sound_workspace paged : sound (workspace paged rows).
Proof. split; cbn; [apply (bool_decide_unpack _); by vm_compute | repeat constructor; cbn; lia | repeat constructor; by eexists | repeat constructor; by eexists]. Qed.

(** The patch of the batch: the new issue in front, the removed one gone, the counts of what is left. *)
Lemma realtime_patch_sound_witness :
  (exists d', applyRealtimePatch (workspace false rows) batch = Some d' /\ map id (issues d') = ["d"; "a"; "b"]
    /\ counts (labels d') = [("bug", Some (JNum 2)); ("old", Some (JNum 1))] /\ counts (projects d') = [("p", Some (JNum 1))])
  /\ (forall paged, exists d', applyRealtimePatch (workspace paged rows) batch = Some d' /\ patched batch (workspace paged rows) d')
  /\ fits batch (workspace true rows) /\ (option_map (fun i => (vers i, part "labels" i)) (merged "b" batch (workspace true rows))
      = Some (4, Some (JArr [label "old"]))) /\ merged "c" batch (workspace true rows) = None.
Proof.
  split; [eexists; vm_compute; repeat split; reflexivity|]. split; [|repeat split; vm_compute; try reflexivity; lia].
  intros paged. destruct (realtime_patch_sound (workspace paged rows) batch (sound_workspace paged)) as [[H _]|[_ H]];
    [repeat constructor; vm_compute; discriminate | vm_compute; reflexivity | vm_compute in H; discriminate | exact H].
Defined.

(** Issue [c] is no longer visible: it is gone with its comments, and [b] no longer points to it. *)
Definition fresh_directory : Data := workspace true [row "b" 2 [("labels", JArr [label "bug"; label "gone"])]].

Lemma visibility_enforced_witness :
  (exists d', mergeWorkspaceDirectory (Some (workspace true rows)) fresh_directory (Some ["a"; "b"]) = Some d' /\ map id (issues d') = ["b"; "a"] /\ map label_ids (issues d') = [["bug"]; ["bug"]] /\ map_keys (comments d') = ["a"])
  /\ forall d', mergeWorkspaceDirectory (Some (workspace true rows)) fresh_directory (Some ["a"; "b"]) = Some d' -> ("c" ∉ map id (issues d')) /\ Forall (fun i => "c" ∉ mentions i) (issues d').
Proof.
  split; [eexists; vm_compute; repeat split; reflexivity|]. intros d' Hd.
  destruct (visibility_enforced (workspace true rows) fresh_directory ["a"; "b"] d' (d_ids _ (sound_workspace true))) as [H _]; try reflexivity; [repeat constructor; cbn; lia | exact Hd|].
  destruct (H "c") as [H1 H2]; [reflexivity | apply (bool_decide_unpack _); by vm_compute | apply (bool_decide_unpack _); by vm_compute|]. split; [|exact H2]. intros Hc. apply H1, elem_of_app. by left.
Defined.

(** A notification without a recipient counts as a patch, but no patch is made of it. *)
Definition anonymous : Event := EventQueue.mkEvent "e" "notification.updated" None "t" (Some (JObj [("entity", JObj [("id", JStr "n")])])).
Lemma anonymous_dropped : canApplyRealtimePatch anonymous = true /\ classifyRealtimeEvent anonymous true = Patch /\ forall d, applyRealtimePatch d anonymous = None.
Proof. by split; [vm_compute|]. Qed.

(** The answers to some events. *)
Lemma classified :
  map (fun t => classifyRealtimeEvent (EventQueue.mkEvent "e" t None "t" (Some (JObj [("name", JStr "x"); ("issueIds", JArr [JStr "a"])]))) true)
    ["issue.permissions_updated"; "team.updated"; "team.member_added"; "sla_rule.updated"; "release.note_created"; "label.merged"; "workspace.resync_required"; "loop.started"]
  = [Refetch ["a"] []; Metadata false; Metadata true; Metadata false; Metadata false; Metadata false; Resync; Resync].
Proof. by vm_compute. Qed.
End Demo.
