(* ===== verification/TeamHierarchy.v ===== *)
(** * The hierarchy of teams (web/src/lib/team-hierarchy.ts)

    A team names its parent; the parents come from settings that a client may edit and from a list that the server projects, and old data
    may hold cycles.  [teamHierarchy] computes the ancestors, children and heights of all teams, [parentError] says why
    a team may not move below another, and [rows] lists the teams as a tree.

    The loops over parents and over the stack of the traversal carry fuel; [chain_ends] and [visit_ends] show that it is enough. *)

From Stdlib Require Import ZArith Lia Bool List Sorting.Sorted.
From stdpp Require Import base list strings.
From S2P Require Import Prelude JsString JsMap.

Local Set Warnings "-register-all,-notation-for-abbreviation".

(** ** Settings that are inherited *)

Record Estimation := mkEstimation { estimateType : string; estimateAllowZero : bool; estimateExtended : bool; estimateCountUnestimated : bool }.

(** [other] are the settings that are never inherited. *)
Record TeamSettings := mkSettings { parentTeamId : option string; inheritIssueEstimation : bool; estimation : Estimation; other : string }.

Definition has (k : string) (l : list string) : bool := existsb (String.eqb k) l.

(** The recursion ends at a team it has seen; [fuel] bounds its depth. *)
Fixpoint resolve (fuel : nat) (settings : list (string * TeamSettings)) (teamId : string) (seen : list string) : option TeamSettings :=
  match fuel with
  | O => None
  | S fuel =>
      match map_get teamId settings with
      | None => None
      | Some current =>
          if has teamId seen then Some current
          else if negb (inheritIssueEstimation current) || negb (truthy (parentTeamId current ?? "")) then Some current
          else match resolve fuel settings (parentTeamId current ?? "") (teamId :: seen) with
               | Some parent => Some (mkSettings (parentTeamId current) (inheritIssueEstimation current) (estimation parent) (other current))
               | None => Some current
               end
      end
  end.

Definition resolvedTeamSettings (settings : list (string * TeamSettings)) (teamId : string) : option TeamSettings :=
  resolve (S (S (length settings))) settings teamId [].

(** ** The hierarchy *)

Record Team := mkTeam { id : string; name : string; retiredAt : option string }.

Definition MAX_TEAM_DEPTH : nat := 4.

Section Hierarchy.
Context (teams : list Team) (settings : list (string * option string)) (projectedParents : list (string * string)).

Definition byId : list (string * Team) := index_by id (fun t => t) teams.

(** [settings[id]?.parentTeamId ?? projectedParents[id]] *)
Definition parentOf (i : string) : option string :=
  match map_get i settings with
  | Some (Some p) => Some p
  | _ => map_get i projectedParents
  end.

Definition parent_team (i : string) : option Team := map_get (parentOf i ?? "") byId.

(** The loop from a team towards its root; [chain] has the topmost ancestor first. *)
Fixpoint chain_loop (fuel : nat) (seen : list string) (chain : list Team) (parent : option Team) : option (list Team) :=
  match parent with
  | None => Some chain
  | Some p =>
      if has (id p) seen then Some chain
      else match fuel with
           | O => None
           | S fuel => chain_loop fuel (id p :: seen) (p :: chain) (parent_team (id p))
           end
  end.

Definition chain_of (i : string) : list Team := default [] (chain_loop (length teams) [i] [] (parent_team i)).

Definition ancestors : list (string * list Team) := index_by id (fun t => chain_of (id t)) teams.

Definition ancestors_of (i : string) : list Team := map_get i ancestors ?? [].

(** [chain.forEach((ancestor, index) => heights.set(ancestor.id, Math.max(...)))] *)
Fixpoint raise (chain : list Team) (h : list (string * nat)) : list (string * nat) :=
  match chain with
  | [] => h
  | a :: r => raise r (map_set (id a) (Nat.max (map_get (id a) h ?? 0%nat) (length chain)) h)
  end.

Definition heights : list (string * nat) := fold_left (fun h t => raise (chain_of (id t)) h) teams [].

Definition children : list (string * list Team) :=
  fold_left (fun m t =>
    match parentOf (id t) with
    | Some p => if truthy p && map_has p byId && negb (p =s id t) then map_set p ((map_get p m ?? []) ++ [t]) m else m
    | None => m
    end) teams [].

Definition path (i : string) : string :=
  join " › " (map name (ancestors_of i ++ match map_get i byId with Some t => [t] | None => [] end)).

Definition retired (t : Team) : bool := truthy (retiredAt t ?? "").

Definition parentError (teamId parentId : string) : option string :=
  if negb (truthy parentId) then None
  else match map_get parentId byId with
       | None => Some "Parent team is unavailable"
       | Some parent =>
           if retired parent then Some "Parent team is unavailable"
           else if (parentId =s teamId) || existsb (fun t => id t =s teamId) (ancestors_of parentId) then Some "A team cannot be its own ancestor"
           else if (MAX_TEAM_DEPTH <? length (ancestors_of parentId) + 1 + (map_get teamId heights ?? 0%nat))%nat then Some "Teams can only be nested five levels deep"
           else None
       end.

Definition subtree (i : string) : list string :=
  unique (i :: map id (List.filter (fun t => negb (retired t) && existsb (fun a => id a =s i) (ancestors_of (id t))) teams)).

(** ** The teams as a tree *)

Record Row := mkRow { r_team : Team; r_depth : nat; r_hasChildren : bool }.

Section Rows.
Context (items : list Team) (collapsed : list string).

(** The nearest ancestor that is listed. *)
Definition listed_parent (t : Team) : option Team := List.find (fun a => has (id a) (map id items)) (rev (ancestors_of (id t))).

Definition nested : list (string * list Team) :=
  fold_left (fun m t => match listed_parent t with Some p => map_set (id p) ((map_get (id p) m ?? []) ++ [t]) m | None => m end) items [].
Definition roots : list Team := List.filter (fun t => negb (isSome (listed_parent t))) items.

Definition nested_of (i : string) : list Team := map_get i nested ?? [].

(** The stack, its top first: the children are pushed in reverse, so the first child is on top. *)
Fixpoint visit_loop (fuel : nat) (stack : list (Team * nat)) (seen : list string) (result : list Row) : option (list string * list Row) :=
  match stack with
  | [] => Some (seen, result)
  | (t, d) :: stack =>
      match fuel with
      | O => None
      | S fuel =>
          if has (id t) seen then visit_loop fuel stack seen result
          else
            let kids := if has (id t) collapsed then [] else map (fun c => (c, S d)) (nested_of (id t)) in
            visit_loop fuel (kids ++ stack) (id t :: seen) (result ++ [mkRow t d (negb (bool_decide (nested_of (id t) = [])))])
      end
  end.

Definition visit (s : list string * list Row) (root : Team) : list string * list Row :=
  default s (visit_loop (S (length items)) [(root, 0%nat)] s.1 s.2).

Definition rows : list Row :=
  let s := fold_left visit roots ([], []) in
  (fold_left visit (List.filter (fun t => negb (has (id t) s.1) && negb (existsb (fun a => has (id a) collapsed) (ancestors_of (id t)))) items) s).2.
End Rows.
End Hierarchy.

(** ** Climbing to the root *)

Lemma listed_spec k l : has k l = true <-> k ∈ l.
Proof. unfold has. rewrite existsb_exists, list_elem_of_In. split; [intros (x & Hx & ->%String.eqb_eq); done | intros H; exists k; split; [done | apply String.eqb_refl]]. Qed.

Lemma listed_false k l : has k l = false <-> k ∉ l.
Proof. rewrite <- not_true_iff_false, listed_spec. done. Qed.

(** Filtering by a stronger test that drops an element of the list. *)
Lemma filter_shrinks {A} (f g : A -> bool) l x : (forall y, g y = true -> f y = true) -> In x l -> f x = true -> g x = false ->
  (length (List.filter g l) < length (List.filter f l))%nat.
Proof.
  intros Hfg Hx Hf Hg. assert (Hle : forall l, (length (List.filter g l) <= length (List.filter f l))%nat).
  { clear -Hfg. induction l as [|y l IH]; [done|]. cbn. destruct (g y) eqn:E; [rewrite (Hfg y E); cbn; lia|]. destruct (f y); cbn; lia. }
  induction l as [|y l IH]; [done|]. cbn. destruct Hx as [->|Hx].
  - rewrite Hf, Hg. cbn. specialize (Hle l). lia.
  - specialize (IH Hx). destruct (g y) eqn:E; [rewrite (Hfg y E); cbn; lia|]. destruct (f y); cbn; lia.
Qed.

(** The ancestors of a team, the nearest first, by the parents alone. *)
Inductive climb (parent : string -> option Team) : string -> list Team -> Prop :=
  | climb_root i : parent i = None -> climb parent i []
  | climb_step i p l : parent i = Some p -> climb parent (id p) l -> climb parent i (p :: l).

Section Climb.
Context (parent : string -> option Team).

Lemma climb_det i l l' : climb parent i l -> climb parent i l' -> l = l'.
Proof. intros H. revert l'. induction H as [i H|i p l H _ IH]; intros l' H'; inversion H' as [? E|? p' l2 E Hc]; subst; [done | congruence | congruence|]. assert (p' = p) as -> by congruence. f_equal. by apply IH. Qed.

Lemma climb_suffix i l1 p l2 : climb parent i (l1 ++ p :: l2) -> climb parent (id p) l2.
Proof. revert i. induction l1 as [|q l1 IH]; intros i H; inversion H; subst; [done | by eapply IH]. Qed.

(** Who reaches a root meets nobody twice. *)
Lemma climb_NoDup i l : climb parent i l -> NoDup (i :: map id l).
Proof.
  intros H. assert (Hi : forall i l, climb parent i l -> i ∉ map id l).
  { clear. intros i l H. rewrite list_elem_of_In, in_map_iff. intros (p & <- & (l1 & l2 & ->)%in_split). pose proof (climb_suffix _ _ _ _ H) as H2.
    pose proof (climb_det _ _ _ H H2) as E. apply (f_equal length) in E. rewrite length_app in E. cbn in E. lia. }
  induction H as [i H|i p l H H2 IH]; [cbn; constructor; [apply not_elem_of_nil | constructor]|]. cbn [map] in *. constructor; [|done]. apply (Hi i (p :: l)). by constructor.
Qed.

Lemma climb_split i l k : climb parent i l -> k ∈ map id l -> exists l1 p l2, l = l1 ++ p :: l2 /\ id p = k /\ k ∉ map id l1.
Proof.
  intros _ Hk. apply list_elem_of_In, in_map_iff in Hk as (p & Ep & Hp). induction l as [|q l IH]; [done|].
  destruct (decide (id q = k)) as [E|E]; [exists [], q, l; split; [done|]; split; [done|]; apply not_elem_of_nil|].
  destruct Hp as [->|Hp]; [done|]. destruct (IH Hp) as (l1 & p' & l2 & -> & E' & Hn). exists (q :: l1), p', l2. split; [done|]. split; [done|]. cbn. apply not_elem_of_cons. split; congruence.
Qed.

(** Parents that agree below [k]. *)
Lemma climb_agree parent' i l1 p l2 : (forall x, x <> id p -> parent' x = parent x) -> climb parent i (l1 ++ p :: l2) -> i <> id p -> id p ∉ map id l1 ->
  forall l', climb parent' (id p) l' -> climb parent' i (l1 ++ p :: l').
Proof.
  intros Hag. revert i. induction l1 as [|q l1 IH]; intros i H Hi Hn l' Hp; inversion H; subst; cbn [app].
  - constructor; [by rewrite Hag | done].
  - cbn in Hn. apply not_elem_of_cons in Hn as [Hq Hn]. constructor; [by rewrite Hag|]. apply IH; [done | congruence | done | done].
Qed.

Lemma climb_avoid parent' k i l : (forall x, x <> k -> parent' x = parent x) -> climb parent i l -> k ∉ i :: map id l -> climb parent' i l.
Proof.
  intros Hag H. induction H as [i H|i p l H _ IH]; intros Hk; apply not_elem_of_cons in Hk as [Hi Hk].
  - constructor. by rewrite Hag.
  - constructor; [by rewrite Hag|]. apply IH. exact Hk.
Qed.
End Climb.

(** ** What the loops compute *)

Section Computed.
Context (teams : list Team) (settings : list (string * option string)) (projectedParents : list (string * string)).
Context (Hids : NoDup (map id teams)).

Notation parent_team' := (parent_team teams settings projectedParents).
Notation chain_of' := (chain_of teams settings projectedParents).
Notation ancestors_of' := (ancestors_of teams settings projectedParents).
Notation heights' := (heights teams settings projectedParents).

Lemma byId_get i t : map_get i (byId teams) = Some t <-> In t teams /\ id t = i.
Proof. unfold byId. rewrite index_by_get by done. split; [by intros (x & ? & ? & ->) | intros [? ?]; by exists t]. Qed.

Lemma parent_in i p : parent_team' i = Some p -> In p teams.
Proof. intros H%byId_get. apply H. Qed.

Definition unseen (seen : list string) : nat := length (List.filter (fun t => negb (has (id t) seen)) teams).

(** The loop ends on any data, cycles included. *)
Lemma chain_loop_ends fuel seen chain p : (forall q, p = Some q -> In q teams) -> (unseen seen <= fuel)%nat ->
  is_Some (chain_loop teams settings projectedParents fuel seen chain p).
Proof.
  revert seen chain p. induction fuel as [|fuel IH]; intros seen chain [p|] Hp Hf; cbn [chain_loop]; try done; specialize (Hp p eq_refl);
    destruct (has (id p) seen) eqn:E; try done;
    assert (Hlt : (unseen (id p :: seen) < unseen seen)%nat) by
      (apply (filter_shrinks _ _ teams p); [intros y; rewrite !negb_true_iff, !listed_false; intros H Hc; apply H; by right | done | by rewrite E | apply negb_false_iff, listed_spec; left]).
  - lia.
  - apply IH; [intros q; apply parent_in | lia].
Qed.

Lemma chain_ends i : is_Some (chain_loop teams settings projectedParents (length teams) [i] [] (parent_team' i)).
Proof. apply chain_loop_ends; [intros q; apply parent_in|]. apply List.filter_length_le. Qed.

Lemma chain_loop_climb fuel l : forall seen chain i, climb parent_team' i l -> (forall k, k ∈ map id l -> k ∉ seen) -> NoDup (map id l) ->
  is_Some (chain_loop teams settings projectedParents fuel seen chain (parent_team' i)) ->
  chain_loop teams settings projectedParents fuel seen chain (parent_team' i) = Some (rev l ++ chain).
Proof.
  revert fuel. induction l as [|p l IH]; intros fuel seen chain i H Hs Hn Hf; inversion H as [? E|? ? ? E Hc]; subst; rewrite E in *.
  - by destruct fuel.
  - cbn [map] in Hn. apply NoDup_cons in Hn as [Hp Hn]. assert (Hps : has (id p) seen = false) by (apply listed_false, Hs; left).
    destruct fuel as [|fuel]; cbn [chain_loop] in *; rewrite Hps in *; [by destruct Hf|]. rewrite IH; [cbn; by rewrite <- app_assoc | done | | done | done].
    intros k Hk. apply not_elem_of_cons. split; [intros ->; done | apply Hs; by right].
Qed.

(** On sound data the loop yields the ancestors, the topmost first. *)
Lemma chain_climb i l : climb parent_team' i l -> chain_of' i = rev l.
Proof.
  intros H. pose proof (climb_NoDup _ _ _ H) as [Hi Hn]%NoDup_cons. unfold chain_of. rewrite (chain_loop_climb _ l); [cbn; apply app_nil_r | done | | done | apply chain_ends].
  intros k Hk ->%list_elem_of_singleton. done.
Qed.

Lemma ancestors_chain t : In t teams -> ancestors_of' (id t) = chain_of' (id t).
Proof.
  intros Ht. unfold ancestors_of, ancestors. replace (map_get _ _) with (Some (chain_of' (id t))); [done|]. symmetry. apply index_by_get; [done|]. by exists t.
Qed.

(** *** Heights *)

Fixpoint best (k : string) (chain : list Team) : nat :=
  match chain with [] => 0 | a :: r => Nat.max (if decide (id a = k) then length chain else 0) (best k r) end.

Lemma raise_get k chain h : map_get k (raise chain h) ?? 0%nat = Nat.max (map_get k h ?? 0%nat) (best k chain).
Proof.
  revert h. induction chain as [|a chain IH]; intros h; cbn [raise best]; [lia|]. rewrite IH. destruct (decide (id a = k)) as [<-|Hne]; [rewrite map_get_set_eq; cbn; lia|].
  rewrite map_get_set_ne by done. lia.
Qed.

Definition tallest (k : string) (l : list Team) : nat := foldr (fun t n => Nat.max (best k (chain_of' (id t))) n) 0%nat l.

Lemma heights_get k : map_get k heights' ?? 0%nat = tallest k teams.
Proof.
  unfold heights, tallest. assert (G : forall l h, map_get k (fold_left (fun h t => raise (chain_of' (id t)) h) l h) ?? 0%nat =
    Nat.max (map_get k h ?? 0%nat) (foldr (fun t n => Nat.max (best k (chain_of' (id t))) n) 0%nat l)).
  { induction l as [|t l IH]; intros h; cbn [fold_left foldr]; [lia|]. rewrite IH, raise_get. lia. }
  rewrite G. cbn. lia.
Qed.

Lemma tallest_ge k t l : In t l -> (best k (chain_of' (id t)) <= tallest k l)%nat.
Proof. unfold tallest. induction l as [|x l IH]; [done|]. cbn. intros [->|H]; [lia | specialize (IH H); lia]. Qed.

Lemma tallest_attained k l : tallest k l = 0%nat \/ exists t, In t l /\ best k (chain_of' (id t)) = tallest k l.
Proof.
  induction l as [|x l IH]; [by left|]. change (tallest k (x :: l)) with (Nat.max (best k (chain_of' (id x))) (tallest k l)). destruct IH as [E|(t & Ht & E)].
  - rewrite E, Nat.max_0_r. destruct (decide (best k (chain_of' (id x)) = 0%nat)); [by left | right; exists x; split; [by left | done]].
  - right. destruct (Nat.max_spec (best k (chain_of' (id x))) (tallest k l)) as [[_ ->]|[_ ->]]; [exists t; split; [by right | done] | exists x; split; [by left | done]].
Qed.

(** Where a team stands in a chain decides its height. *)
Lemma best_ge c1 a c2 : (S (length c2) <= best (id a) (c1 ++ a :: c2))%nat.
Proof. induction c1 as [|x c1 IH]; cbn; [rewrite decide_True by done; lia | lia]. Qed.

Lemma best_attained k c : (0 < best k c)%nat -> exists c1 a c2, c = c1 ++ a :: c2 /\ id a = k /\ best k c = S (length c2).
Proof.
  induction c as [|x c IH]; cbn; [lia|]. destruct (decide (id x = k)) as [E|E]; intros H.
  - exists [], x, c. split; [done|]. split; [done|]. assert (best k c <= length c)%nat; [|cbn; lia]. clear. induction c as [|y c IH]; cbn; [lia|]. destruct (decide _); cbn; lia.
  - destruct IH as (c1 & a & c2 & -> & Ea & Eb); [lia|]. exists (x :: c1), a, c2. split; [done|]. split; [done|]. lia.
Qed.
End Computed.

(** ** Moving a team *)

Section Move.
Context (teams : list Team) (settings : list (string * option string)) (projectedParents : list (string * string)).
Context (Hids : NoDup (map id teams)).

(** Every team reaches a root over at most [MAX_TEAM_DEPTH] ancestors. *)
Definition sound_tree (st : list (string * option string)) : Prop :=
  forall t, In t teams -> exists l, climb (parent_team teams st projectedParents) (id t) l /\ (length l <= MAX_TEAM_DEPTH)%nat.

Lemma moved_parent t p x : parent_team teams (map_set t (Some p) settings) projectedParents x =
  if decide (x = t) then map_get p (byId teams) else parent_team teams settings projectedParents x.
Proof.
  unfold parent_team, parentOf. destruct (decide (x = t)) as [->|Hne]; [by rewrite map_get_set_eq | by rewrite map_get_set_ne].
Qed.

Context (t parent : Team) (Ht : In t teams) (Hp : In parent teams) (Hsound : sound_tree settings).

Notation old := (parent_team teams settings projectedParents).
Notation new := (parent_team teams (map_set (id t) (Some (id parent)) settings) projectedParents).

Lemma new_other x : x <> id t -> new x = old x.
Proof. intros H. rewrite moved_parent. by rewrite decide_False. Qed.

Lemma new_self : new (id t) = Some parent.
Proof. rewrite moved_parent, decide_True by done. by apply byId_get. Qed.

(** The height of a team: how far its deepest descendant is below it. *)
Lemma height_spec : (forall x l1 a l2, In x teams -> climb old (id x) (l1 ++ a :: l2) -> id a = id t -> (S (length l1) <= tallest teams settings projectedParents (id t) teams)%nat)
  /\ (tallest teams settings projectedParents (id t) teams = 0%nat \/
      exists x l1 a l2, In x teams /\ climb old (id x) (l1 ++ a :: l2) /\ id a = id t /\ S (length l1) = tallest teams settings projectedParents (id t) teams).
Proof.
  split.
  - intros x l1 a l2 Hx Hc Ea. eapply Nat.le_trans; [|apply (tallest_ge teams settings projectedParents (id t) x); done].
    rewrite (chain_climb _ _ _ Hids _ _ Hc). rewrite rev_app_distr. cbn [rev]. rewrite <- app_assoc. cbn [app]. rewrite <- Ea. rewrite <- (length_rev l1). apply best_ge.
  - destruct (tallest_attained teams settings projectedParents (id t) teams) as [E|(x & Hx & E)]; [by left|]. destruct (decide (tallest teams settings projectedParents (id t) teams = 0%nat)); [by left|]. right.
    destruct (Hsound x Hx) as (l & Hc & _). rewrite (chain_climb _ _ _ Hids _ _ Hc) in E. destruct (best_attained (id t) (rev l)) as (c1 & a & c2 & Er & Ea & Eb); [lia|].
    exists x, (rev c2), a, (rev c1). apply (f_equal (@rev Team)) in Er. rewrite rev_involutive, rev_app_distr in Er. cbn [rev] in Er. rewrite <- app_assoc in Er. cbn [app] in Er. subst l.
    split; [done|]. split; [done|]. split; [done|]. rewrite length_rev. lia.
Qed.

Lemma move_sound l : climb old (id parent) l -> id parent <> id t -> id t ∉ map id l -> (length l + 1 + tallest teams settings projectedParents (id t) teams <= MAX_TEAM_DEPTH)%nat ->
  sound_tree (map_set (id t) (Some (id parent)) settings).
Proof.
  intros Hl Hne Hn Hd x Hx. destruct (Hsound x Hx) as (lx & Hc & Hlen). assert (Hpl : climb new (id parent) l) by (eapply climb_avoid; [apply new_other | done | by apply not_elem_of_cons]).
  assert (Hts : climb new (id t) (parent :: l)) by (constructor; [apply new_self | done]).
  destruct (decide (id x = id t)) as [E|E]; [rewrite E; exists (parent :: l); split; [done | cbn; lia]|].
  destruct (decide (id t ∈ map id lx)) as [Hin|Hin].
  - destruct (climb_split _ _ _ _ Hc Hin) as (l1 & a & l2 & -> & Ea & Hn1). exists (l1 ++ a :: parent :: l). split.
    + eapply climb_agree; [|exact Hc | by rewrite Ea | by rewrite Ea | by rewrite Ea]. intros y. rewrite Ea. apply new_other.
    + pose proof (proj1 height_spec x l1 a l2 Hx Hc Ea). rewrite length_app. cbn. lia.
  - exists lx. split; [|done]. eapply climb_avoid; [apply new_other | done|]. apply not_elem_of_cons. done.
Qed.

Lemma move_unsound l : climb old (id parent) l -> sound_tree (map_set (id t) (Some (id parent)) settings) ->
  id parent <> id t /\ (id t ∉ map id l) /\ (length l + 1 + tallest teams settings projectedParents (id t) teams <= MAX_TEAM_DEPTH)%nat.
Proof.
  intros Hl Hs. destruct (Hs t Ht) as (lt & Hct & _). inversion Hct as [? E|? p' l' E Hc']; subst; rewrite new_self in E; [done|]. injection E as <-.
  pose proof (climb_NoDup _ _ _ Hct) as [Hnt _]%NoDup_cons. cbn in Hnt. apply not_elem_of_cons in Hnt as [Hne Hnl].
  assert (Hin : id t ∉ map id l).
  { intros Hin. destruct (climb_split _ _ _ _ Hl Hin) as (l1 & a & l2 & -> & Ea & Hn1).
    assert (Hc2 : climb new (id parent) (l1 ++ a :: parent :: l')) by (eapply climb_agree; [intros y; rewrite Ea; apply new_other | exact Hl | rewrite Ea; congruence | by rewrite Ea | rewrite Ea; exact Hct]).
    pose proof (climb_det _ _ _ _ Hc' Hc2) as El. apply (f_equal length) in El. rewrite length_app in El. cbn in El. lia. }
  assert (El : l' = l) by (eapply climb_det; [exact Hc'|]; eapply climb_avoid; [apply new_other | done | apply not_elem_of_cons; split; [congruence | done]]). subst l'.
  split; [congruence|]. split; [done|]. destruct (proj2 height_spec) as [E|(x & l1 & a & l2 & Hx & Hcx & Ea & Eh)].
  - destruct (Hs t Ht) as (l3 & Hc3 & Hlen). rewrite (climb_det _ _ _ _ Hc3 Hct) in Hlen. cbn in Hlen. lia.
  - destruct (Hs x Hx) as (l3 & Hc3 & Hlen). assert (Hxt : id x <> id t).
    { intros Ext. pose proof (climb_NoDup _ _ _ Hcx) as [Hd _]%NoDup_cons. apply Hd. rewrite map_app. apply elem_of_app. right. cbn. rewrite Ea, Ext. left. }
    assert (Hn1 : id a ∉ map id l1).
    { pose proof (climb_NoDup _ _ _ Hcx) as [_ Hd]%NoDup_cons. rewrite map_app in Hd. apply NoDup_app in Hd as (_ & Hd & _). intros H. apply (Hd _ H). left. }
    assert (Hc4 : climb new (id x) (l1 ++ a :: parent :: l)) by (eapply climb_agree; [intros y; rewrite Ea; apply new_other | exact Hcx | by rewrite Ea | done | rewrite Ea; exact Hct]).
    rewrite (climb_det _ _ _ _ Hc3 Hc4), length_app in Hlen. cbn in Hlen. lia.
Qed.

(** C26 (parent_error_exact).  In a tree without cycles and of at most five levels, a team may move below an available one exactly when the tree is still without cycles and of at most five levels afterwards: [parentError] refuses no legal
    move and allows no illegal one. *)
Theorem parent_error_exact : truthy (id parent) = true -> retired parent = false ->
  parentError teams settings projectedParents (id t) (id parent) = None <-> sound_tree (map_set (id t) (Some (id parent)) settings).
Proof.
  intros Htr Hr. unfold parentError. rewrite Htr. cbn [negb]. replace (map_get (id parent) (byId teams)) with (Some parent) by (symmetry; by apply byId_get). rewrite Hr.
  destruct (Hsound parent Hp) as (l & Hl & _). rewrite (ancestors_chain _ _ _ Hids) by done. rewrite (chain_climb _ _ _ Hids _ _ Hl), heights_get, length_rev.
  assert (Hex : existsb (fun x => id x =s id t) (rev l) = true <-> id t ∈ map id l).
  { rewrite existsb_exists, list_elem_of_In, in_map_iff. split; intros (x & H1 & H2); exists x; [apply in_rev in H1; apply String.eqb_eq in H2; done | split; [by apply in_rev; rewrite rev_involutive | by apply String.eqb_eq]]. }
  split.
  - destruct (String.eqb_spec (id parent) (id t)) as [|Hne]; cbn [orb]; [done|]. destruct (existsb _ _) eqn:Ee; [done|]. destruct (Nat.ltb_spec MAX_TEAM_DEPTH (length l + 1 + tallest teams settings projectedParents (id t) teams)); [done|].
    intros _. eapply move_sound; [exact Hl | done | intros Hc; apply Hex in Hc; congruence | done].
  - intros Hs. destruct (move_unsound l Hl Hs) as (H1 & H2 & H3). apply String.eqb_neq in H1. rewrite H1. cbn [orb]. destruct (existsb _ _) eqn:Ee; [by destruct H2; apply Hex|].
    destruct (Nat.ltb_spec MAX_TEAM_DEPTH (length l + 1 + tallest teams settings projectedParents (id t) teams)); [lia | done].
Qed.
End Move.

(** ** The rows of the tree *)

Section RowFacts.
Context (teams : list Team) (settings : list (string * option string)) (projectedParents : list (string * string)).
Context (items : list Team) (collapsed : list string).
Context (Hids : NoDup (map id teams)) (Hitems : NoDup (map id items)) (Hsub : incl items teams).

Notation listed := (listed_parent teams settings projectedParents items).
Notation kids_of := (nested_of teams settings projectedParents items).
Notation loop := (visit_loop teams settings projectedParents items collapsed).

Definition child_of (k : string) (t : Team) : bool := match listed t with Some p => id p =s k | None => false end.

Lemma nested_spec k : kids_of k = List.filter (child_of k) items.
Proof.
  unfold nested_of, nested. assert (G : forall l m, map_get k (fold_left (fun m t => match listed t with Some p => map_set (id p) ((map_get (id p) m ?? []) ++ [t]) m | None => m end) l m) ?? [] =
    (map_get k m ?? []) ++ List.filter (child_of k) l).
  { induction l as [|t l IH]; intros m; cbn [fold_left List.filter]; [by rewrite app_nil_r|]. rewrite IH. unfold child_of at 2. destruct (listed t) as [p|]; [|done].
    destruct (String.eqb_spec (id p) k) as [<-|Hne]; [rewrite map_get_set_eq; cbn; by rewrite <- app_assoc | by rewrite map_get_set_ne]. }
  apply (G items []).
Qed.

(** The traversal ends: each step takes an entry off the stack, and the children of a team are pushed once. *)
Definition pending (seen : list string) : nat := length (List.filter (fun c => match listed c with Some p => negb (has (id p) seen) | None => false end) items).

Lemma pending_visit k seen : k ∉ seen -> (pending (k :: seen) + length (kids_of k) = pending seen)%nat.
Proof.
  intros Hk. rewrite nested_spec. unfold pending.
  assert (G : forall l, (length (List.filter (fun c => match listed c with Some p => negb (has (id p) (k :: seen)) | None => false end) l) + length (List.filter (child_of k) l) =
    length (List.filter (fun c => match listed c with Some p => negb (has (id p) seen) | None => false end) l))%nat); [|apply G]. intros l. induction l as [|c l IH]; [done|]. cbn [List.filter]. unfold child_of at 1. destruct (listed c) as [p|]; [|exact IH].
  unfold has at 1. cbn [existsb]. fold (has (id p) seen). destruct (String.eqb_spec (id p) k) as [->|Hne]; cbn [orb negb].
  - rewrite (proj2 (listed_false k seen) Hk). cbn [negb length]. lia.
  - destruct (negb (has (id p) seen)); cbn [length]; lia.
Qed.

Lemma visit_ends fuel stack seen result : (length stack + pending seen <= fuel)%nat -> is_Some (loop fuel stack seen result).
Proof.
  revert stack seen result. induction fuel as [|fuel IH]; intros [|[t d] stack] seen result Hf; cbn [visit_loop length] in *; try done; [lia|].
  destruct (has (id t) seen) eqn:E; [apply IH; lia|]. apply IH. apply listed_false in E. pose proof (pending_visit _ _ E) as Hp. rewrite length_app.
  destruct (has (id t) collapsed); [cbn; lia | rewrite length_map; lia].
Qed.

(** *** Every team once *)

Record walked (stack : list (Team * nat)) (seen : list string) (result : list Row) : Prop := {
  w_seen : map (fun r => id (r_team r)) result = rev seen;
  w_once : NoDup seen;
  w_rows : Forall (fun r => In (r_team r) items) result;
  w_stack : Forall (fun e => In e.1 items) stack;
  w_closed : forall k c, k ∈ seen -> k ∉ collapsed -> In c (kids_of k) -> id c ∈ seen \/ In c (map fst stack) }.

Lemma walked_loop fuel stack seen result seen' result' : walked stack seen result -> loop fuel stack seen result = Some (seen', result') ->
  walked [] seen' result' /\ (forall k, k ∈ seen -> k ∈ seen') /\ Forall (fun e => id e.1 ∈ seen') stack.
Proof.
  revert stack seen result. induction fuel as [|fuel IH]; intros [|[t d] stack] seen result Hw Hl; cbn [visit_loop] in Hl; try done.
  1, 2: injection Hl as <- <-; by split; [|split].
  destruct Hw as [H1 H2 H3 [Ht H4]%Forall_cons H5]. cbn [fst] in Ht. destruct (has (id t) seen) eqn:E.
  - apply IH in Hl as (G1 & G2 & G3); [|split; try done]; [split; [done|]; split; [done|]; constructor; [by apply G2, listed_spec | done]|].
    intros k c Hk Hc Hin. destruct (H5 k c Hk Hc Hin) as [?|[<-|?]]; [auto | left; by apply listed_spec | auto].
  - apply listed_false in E. apply IH in Hl as (G1 & G2 & G3).
    + split; [done|]. split; [intros k Hk; apply G2; by right|]. apply Forall_app in G3 as [_ G3]. constructor; [apply G2; left | done].
    + split.
      * rewrite map_app, H1. done.
      * by constructor.
      * apply Forall_app. split; [done | by repeat constructor].
      * apply Forall_app. split; [|done]. destruct (has (id t) collapsed); [constructor|]. apply Forall_map, List.Forall_forall. intros c Hc. rewrite nested_spec in Hc. by apply filter_In in Hc as [Hc _].
      * intros k c Hk Hc Hin. rewrite map_app, in_app_iff. apply elem_of_cons in Hk as [->|Hk].
        -- right. left. rewrite (proj2 (listed_false _ _) Hc). rewrite map_map. cbn. by rewrite map_id.
        -- destruct (H5 k c Hk Hc Hin) as [?|[<-|?]]; [left; by right | left; left | auto].
Qed.

Lemma visit_walked s root : walked [] s.1 s.2 -> In root items -> let s' := visit teams settings projectedParents items collapsed s root in
  walked [] s'.1 s'.2 /\ (forall k, k ∈ s.1 -> k ∈ s'.1) /\ id root ∈ s'.1.
Proof.
  intros Hw Hr. unfold visit. destruct (visit_ends (S (length items)) [(root, 0%nat)] s.1 s.2) as [[seen' result'] E].
  { cbn. unfold pending. pose proof (List.filter_length_le (fun c => match listed c with Some p => negb (has (id p) s.1) | None => false end) items). lia. }
  rewrite E. cbn [default fst snd]. assert (Hw' : walked [(root, 0%nat)] s.1 s.2).
  { destruct Hw as [H1 H2 H3 H4 H5]. split; [done | done | done | |]; [apply Forall_cons_2; [exact Hr | constructor]|]. intros k c Hk Hc Hin. destruct (H5 k c Hk Hc Hin) as [?|[]]. auto. }
  destruct (walked_loop _ _ _ _ _ _ Hw' E) as (G1 & G2 & G3).
  split; [done|]. split; [done|]. by apply Forall_cons in G3 as [G3 _].
Qed.

Lemma visits_walked l : incl l items -> forall s, walked [] s.1 s.2 -> let s' := fold_left (visit teams settings projectedParents items collapsed) l s in
  walked [] s'.1 s'.2 /\ (forall k, k ∈ s.1 -> k ∈ s'.1) /\ Forall (fun t => id t ∈ s'.1) l.
Proof.
  induction l as [|t l IH]; intros Hl s Hw; [split; [done|]; split; [done | constructor]|]. cbn [fold_left]. destruct (visit_walked s t Hw) as (G1 & G2 & G3); [apply Hl; by left|].
  destruct (IH (fun x Hx => Hl x (or_intror Hx)) _ G1) as (K1 & K2 & K3). split; [done|]. split; [auto|]. constructor; [auto | done].
Qed.

Lemma walked_start : walked [] [] [].
Proof. split; [done | constructor | constructor | constructor | intros k c Hk; by apply elem_of_nil in Hk]. Qed.

Notation phase1 := (fold_left (visit teams settings projectedParents items collapsed) (roots teams settings projectedParents items) ([], [])).
Notation rows' := (rows teams settings projectedParents items collapsed).

Lemma phase1_walked : walked [] phase1.1 phase1.2 /\ Forall (fun t => id t ∈ phase1.1) (roots teams settings projectedParents items).
Proof. destruct (visits_walked (roots teams settings projectedParents items) (incl_filter _ _) ([], []) walked_start) as (H1 & _ & H3). done. Qed.

(** Each team has at most one row, and only what is listed has one, whatever the parents are; when nothing is collapsed everything listed has one. *)
Lemma rows_once : NoDup (map (fun r => id (r_team r)) rows') /\ Forall (fun r => In (r_team r) items) rows' /\ (collapsed = [] -> forall t, In t items -> id t ∈ map (fun r => id (r_team r)) rows').
Proof.
  unfold rows. cbv zeta. destruct phase1_walked as [Hw Hr]. set (rest := List.filter _ items). destruct (visits_walked rest (incl_filter _ _) _ Hw) as (G1 & G2 & G3). destruct G1 as [W1 W2 W3 W4 W5].
  split; [rewrite W1; by rewrite <- Permutation_rev|]. split; [done|]. intros Ec t Ht. rewrite W1, list_elem_of_In, <- in_rev, <- list_elem_of_In.
  destruct (has (id t) phase1.1) eqn:E; [by apply G2, listed_spec|]. apply (proj1 (List.Forall_forall _ _) G3). apply filter_In. split; [done|]. rewrite E. cbn [negb andb].
  rewrite Ec. apply negb_true_iff. clear. induction (ancestors_of _ _ _ _) as [|a l IH]; [done | exact IH].
Qed.

(** *** The shape of the tree *)

Notation ancestors' := (ancestors_of teams settings projectedParents).

Definition is_listed (a : Team) : bool := has (id a) (map id items).

(** How many ancestors of a team are listed, and whether none of them is collapsed. *)
Definition depth_of (t : Team) : nat := length (List.filter is_listed (ancestors' (id t))).
Definition open (t : Team) : Prop := forall a, In a (ancestors' (id t)) -> is_listed a = true -> id a ∉ collapsed.

(** Every team reaches a root. *)
Definition climbs : Prop := forall t, In t teams -> exists l, climb (parent_team teams settings projectedParents) (id t) l.

Context (Hclimbs : climbs).

Lemma same_team a b : In a teams -> In b teams -> id a = id b -> a = b.
Proof. intros Ha Hb E. assert (map_get (id a) (byId teams) = Some a) as E1 by by apply byId_get. assert (map_get (id a) (byId teams) = Some b) as E2 by by apply byId_get. congruence. Qed.

Lemma climb_teams i l : climb (parent_team teams settings projectedParents) i l -> Forall (fun a => In a teams) l.
Proof. induction 1 as [|i p l H _ IH]; constructor; [by eapply parent_in | done]. Qed.

Lemma listed_None t : In t items -> listed t = None -> forall a, In a (ancestors' (id t)) -> is_listed a = false.
Proof. intros _ H a Ha. unfold listed_parent in H. apply (List.find_none _ _ H). by apply in_rev in Ha. Qed.

(** The listed parent splits the ancestors: those above it are its own, those below are not listed. *)
Lemma listed_Some t p : In t items -> listed t = Some p -> In p items /\ exists l1, ancestors' (id t) = ancestors' (id p) ++ p :: l1 /\ Forall (fun a => is_listed a = false) l1.
Proof.
  intros Ht H. pose proof (Hsub t Ht) as Htt. destruct (Hclimbs t Htt) as (l & Hl). unfold listed_parent in H.
  rewrite (ancestors_chain _ _ _ Hids) in * by done. rewrite (chain_climb _ _ _ Hids _ _ Hl) in *. rewrite rev_involutive in H.
  assert (Hf : exists l1 l2, l = l1 ++ p :: l2 /\ Forall (fun a => is_listed a = false) l1 /\ is_listed p = true).
  { clear -H. induction l as [|a l IH]; [done|]. cbn in H. destruct (has (id a) (map id items)) eqn:E; [injection H as <-; by exists [], l|].
    destruct (IH H) as (l1 & l2 & -> & H1 & H2). exists (a :: l1), l2. split; [done|]. split; [by constructor | done]. }
  destruct Hf as (l1 & l2 & -> & Hn & Hp). pose proof (climb_teams _ _ Hl) as Hall. apply Forall_app in Hall as [_ [Hpt _]%Forall_cons].
  assert (Hpi : In p items).
  { unfold is_listed in Hp. apply listed_spec, list_elem_of_In, in_map_iff in Hp as (q & E & Hq). by rewrite <- (same_team q p (Hsub q Hq) Hpt E). }
  split; [done|]. exists (rev l1). rewrite (ancestors_chain _ _ _ Hids) by done. rewrite (chain_climb _ _ _ Hids _ _ (climb_suffix _ _ _ _ _ Hl)).
  rewrite rev_app_distr. cbn [rev]. rewrite <- app_assoc. split; [done|]. by apply Forall_rev.
Qed.

Lemma child_shape t p : In t items -> listed t = Some p -> depth_of t = S (depth_of p) /\ (open t <-> open p /\ id p ∉ collapsed).
Proof.
  intros Ht H. destruct (listed_Some t p Ht H) as (Hp & l1 & E & Hn). assert (Hpl : is_listed p = true) by (apply listed_spec, list_elem_of_In, in_map, Hp). split.
  - unfold depth_of. rewrite E, List.filter_app, length_app. cbn [List.filter]. rewrite Hpl. cbn [length]. rewrite (filter_none is_listed l1 Hn). cbn. lia.
  - unfold open. rewrite E. split.
    + intros Ho. split; [intros a Ha; apply Ho, in_app_iff; auto | apply Ho; [apply in_app_iff; right; by left | done]].
    + intros [Ho Hc] a [Ha|[<-|Ha]]%in_app_iff Hl; [by apply Ho | done|]. rewrite (proj1 (List.Forall_forall _ _) Hn a Ha) in Hl. done.
Qed.

Definition shape (t : Team) (d : nat) : Prop := d = depth_of t /\ open t.

(** The last row that is less deep is the row of the parent. *)
Definition parent_at (t : Team) (d : nat) (result : list Row) : Prop := listed t = option_map r_team (last (List.filter (fun r => (r_depth r <? d)%nat) result)).

Record shaped (stack : list (Team * nat)) (result : list Row) : Prop := {
  s_items : Forall (fun e => In e.1 items) stack;
  s_stack : Forall (fun e => shape e.1 e.2) stack;
  s_rows : Forall (fun r => shape (r_team r) (r_depth r)) result;
  s_sorted : StronglySorted (fun a b => (b.2 <= a.2)%nat) stack;
  s_at : Forall (fun e => parent_at e.1 e.2 result) stack;
  s_order : forall pre r post, result = pre ++ r :: post -> parent_at (r_team r) (r_depth r) pre }.

Lemma order_snoc result x : (forall pre r post, result = pre ++ r :: post -> parent_at (r_team r) (r_depth r) pre) -> parent_at (r_team x) (r_depth x) result ->
  forall pre r post, result ++ [x] = pre ++ r :: post -> parent_at (r_team r) (r_depth r) pre.
Proof.
  intros Ho Hx pre r post E. destruct post as [|y post _] using rev_ind; [apply app_inj_tail in E as [-> ->]; done|].
  rewrite app_comm_cons, app_assoc in E. apply app_inj_tail in E as [E _]. by eapply Ho.
Qed.

Lemma kids_shape t d c : In t items -> shape t d -> id t ∉ collapsed -> In c (kids_of (id t)) -> In c items /\ shape c (S d) /\ listed c = Some t.
Proof.
  intros Ht [Ed Ho] Hc Hin. rewrite nested_spec in Hin. apply filter_In in Hin as [Hci Hch]. unfold child_of in Hch. destruct (listed c) as [p|] eqn:El; [|done].
  apply String.eqb_eq in Hch. destruct (listed_Some c p Hci El) as [Hp _]. assert (p = t) as -> by (apply same_team; [by apply Hsub | by apply Hsub | done]).
  destruct (child_shape c t Hci El) as [E1 E2]. split; [done|]. split; [|done]. split; [by rewrite E1, Ed | by apply E2].
Qed.

Lemma shaped_loop fuel stack seen result seen' result' : shaped stack result -> loop fuel stack seen result = Some (seen', result') -> shaped [] result'.
Proof.
  revert stack seen result. induction fuel as [|fuel IH]; intros [|[t d] stack] seen result Hw Hl; cbn [visit_loop] in Hl; try done.
  1, 2: injection Hl as <- <-; done.
  destruct Hw as [[Ht H1]%Forall_cons [Hs H2]%Forall_cons H3 H4 [Ha H5]%Forall_cons H6]. cbn [fst snd] in *. inversion H4 as [|? ? H4' H4'']; subst. destruct (has (id t) seen); [apply IH in Hl; [done | by split]|].
  apply IH in Hl; [done|]. set (kids := if has (id t) collapsed then [] else _). set (x := mkRow t d _).
  assert (Hk : Forall (fun e => In e.1 items /\ shape e.1 e.2 /\ e.2 = S d /\ listed e.1 = Some t) kids).
  { unfold kids. destruct (has (id t) collapsed) eqn:Ec; [constructor|]. apply Forall_map, List.Forall_forall. intros c Hc. cbn. destruct (kids_shape t d c Ht Hs ltac:(by apply listed_false) Hc) as (? & ? & ?). done. }
  assert (Hlast : forall e, (e <= d)%nat -> List.filter (fun r => (r_depth r <? e)%nat) (result ++ [x]) = List.filter (fun r => (r_depth r <? e)%nat) result).
  { intros e He. rewrite List.filter_app. cbn [List.filter x r_depth]. rewrite (proj2 (Nat.ltb_ge d e) He). apply app_nil_r. }
  split.
  - apply Forall_app. split; [|done]. eapply List.Forall_impl; [|exact Hk]. by intros e (? & _).
  - apply Forall_app. split; [|done]. eapply List.Forall_impl; [|exact Hk]. by intros e (_ & ? & _).
  - apply Forall_app. split; [done|]. by constructor; [|constructor].
  - clear -Hk H4' H4''. induction Hk as [|e l (_ & _ & E & _) Hl IH]; [done|]. cbn. constructor; [done|]. apply Forall_app. split.
    + eapply List.Forall_impl; [|exact Hl]. intros e' (_ & _ & E' & _). lia.
    + eapply List.Forall_impl; [|exact H4'']. cbn. intros e' He'. lia.
  - apply Forall_app. split.
    + eapply List.Forall_impl; [|exact Hk]. intros e (_ & _ & E & El). unfold parent_at. rewrite El, E, List.filter_app. cbn [List.filter x r_depth]. rewrite (proj2 (Nat.ltb_lt d (S d))) by lia. by rewrite last_snoc.
    + apply List.Forall_forall. intros e He. unfold parent_at. rewrite Hlast; [by apply (proj1 (List.Forall_forall _ _) H5)|]. by apply (proj1 (List.Forall_forall _ _) H4'').
  - by apply order_snoc.
Qed.

Lemma phase1_shaped : shaped [] phase1.2.
Proof.
  assert (G : forall l, incl l (roots teams settings projectedParents items) -> forall s, shaped [] s.2 -> shaped [] (fold_left (visit teams settings projectedParents items collapsed) l s).2).
  { induction l as [|t l IH]; intros Hl s Hs; [done|]. cbn [fold_left]. apply IH; [intros x Hx; apply Hl; by right|]. assert (Hr : In t (roots teams settings projectedParents items)) by (apply Hl; by left).
    apply filter_In in Hr as [Ht Hn]. destruct (listed t) as [p|] eqn:El; [done|]. unfold visit. destruct (loop _ _ _ _) as [[seen' result']|] eqn:E; [|done]. cbn [default snd].
    eapply shaped_loop; [|exact E]. destruct Hs as [_ _ H3 _ _ H6]. split; [by repeat constructor | | done | repeat constructor | | done].
    - constructor; [|constructor]. split; [unfold depth_of; cbn [fst snd]; by rewrite (filter_none is_listed); [|apply List.Forall_forall; by apply listed_None] | intros a Ha Hc; by rewrite (listed_None t Ht El a Ha) in Hc].
    - constructor; [|constructor]. unfold parent_at. cbn [fst snd]. rewrite El. replace (List.filter _ s.2) with (@nil Row); [done|]. symmetry. apply filter_none, List.Forall_forall. done. }
  apply G; [by intros x|]. split; try constructor. intros pre r post E. by destruct pre.
Qed.

(** What is open is reached from the roots. *)
Lemma phase1_open t : In t items -> open t -> id t ∈ phase1.1.
Proof.
  destruct phase1_walked as [[_ _ _ _ Hc] Hr]. remember (length (ancestors' (id t))) as n eqn:En. revert t En. induction n as [n IH] using lt_wf_ind. intros t -> Ht Ho. destruct (listed t) as [p|] eqn:El.
  - destruct (listed_Some t p Ht El) as (Hp & l1 & E & _). destruct (child_shape t p Ht El) as [_ [Hop _]]. destruct (Hop Ho) as [Ho' Hcp].
    assert (Hps : id p ∈ phase1.1) by (eapply IH; [|reflexivity | done | done]; rewrite E, length_app; cbn; lia).
    destruct (Hc (id p) t Hps Hcp) as [?|[]]; [|done]. rewrite nested_spec. apply filter_In. split; [done|]. unfold child_of. rewrite El. apply String.eqb_refl.
  - apply (proj1 (List.Forall_forall _ _) Hr). apply filter_In. by rewrite El.
Qed.

Lemma rows_phase1 : rows' = phase1.2.
Proof.
  unfold rows. cbv zeta. replace (List.filter _ items) with (@nil Team); [done|]. symmetry. apply filter_none, List.Forall_forall. intros t Ht. destruct (has (id t) phase1.1) eqn:E; [done|]. cbn [negb andb].
  apply negb_false_iff. destruct (existsb _ _) eqn:Ee; [done|]. exfalso. apply listed_false in E. apply E, phase1_open; [done|]. intros a Ha _ Hc. apply not_true_iff_false in Ee. apply Ee, existsb_exists. exists a. split; [done | by apply listed_spec].
Qed.
End RowFacts.

(** The rows of a list of teams, whatever parents and cycles the data has: no team has two rows and only listed teams have one, and when nothing is collapsed every listed team has one.  When every team reaches a root: exactly
    the teams without a collapsed listed ancestor have a row, its depth is the number of its listed ancestors, and the last row above it that is less deep is the row of its nearest listed ancestor. *)
Theorem team_rows_faithful teams settings projectedParents items collapsed :
  NoDup (map id teams) -> NoDup (map id items) -> incl items teams ->
  let out := rows teams settings projectedParents items collapsed in
  (NoDup (map (fun r => id (r_team r)) out) /\ Forall (fun r => In (r_team r) items) out /\ (collapsed = [] -> forall t, In t items -> id t ∈ map (fun r => id (r_team r)) out))
  /\ (climbs teams settings projectedParents ->
       (forall t, In t items -> id t ∈ map (fun r => id (r_team r)) out <-> open teams settings projectedParents items collapsed t)
       /\ Forall (fun r => r_depth r = depth_of teams settings projectedParents items (r_team r)) out
       /\ (forall pre r post, out = pre ++ r :: post -> listed_parent teams settings projectedParents items (r_team r) = option_map r_team (last (List.filter (fun x => (r_depth x <? r_depth r)%nat) pre)))).
Proof.
  intros Hids Hitems Hsub out. split; [by apply rows_once|]. intros Hc. unfold out. rewrite rows_phase1 by done.
  destruct (phase1_walked teams settings projectedParents items collapsed) as [[W1 _ W3 _ _] _]. destruct (phase1_shaped teams settings projectedParents items collapsed Hids Hsub Hc) as [_ _ S3 _ _ S6]. split; [|split].
  - intros t Ht. rewrite W1, list_elem_of_In, <- in_rev, <- list_elem_of_In. split; [|by apply phase1_open]. intros Hin.
    assert (Hm : id t ∈ map (fun r => id (r_team r)) (fold_left (visit teams settings projectedParents items collapsed) (roots teams settings projectedParents items) ([], [])).2) by (by rewrite W1, list_elem_of_In, <- in_rev, <- list_elem_of_In).
    apply list_elem_of_In, in_map_iff in Hm as (r & E & Hr). replace t with (r_team r); [by apply (proj1 (List.Forall_forall _ _) S3)|].
    apply (same_team teams); [done | apply Hsub; by apply (proj1 (List.Forall_forall _ _) W3) | by apply Hsub | done].
  - eapply List.Forall_impl; [|exact S3]. by intros r [? _].
  - exact S6.
Qed.

(** ** Inherited settings *)

Section Inherit.
Context (settings : list (string * TeamSettings)).

(** A team's settings that stand for themselves. *)
Definition stops (c : TeamSettings) : Prop := inheritIssueEstimation c = false \/ truthy (parentTeamId c ?? "") = false \/ map_get (parentTeamId c ?? "") settings = None.

(** The teams that are asked, from [k] up, and the estimation the last one has. *)
Inductive inherits : string -> list string -> Estimation -> Prop :=
  | inherits_own k c : map_get k settings = Some c -> stops c -> inherits k [k] (estimation c)
  | inherits_up k c l e : map_get k settings = Some c -> ~ stops c -> inherits (parentTeamId c ?? "") l e -> inherits k (k :: l) e.

Lemma inherits_head k l e : inherits k l e -> exists l', l = k :: l'.
Proof. by inversion 1; eexists. Qed.

Lemma inherits_det k l l' e e' : inherits k l e -> inherits k l' e' -> l = l'.
Proof.
  intros H. revert l' e'. induction H as [k c H1 H2|k c l e H1 H2 _ IH]; intros l' e' H'; inversion H' as [? c' G1 G2|? c' l2 ? G1 G2 G3]; subst; rewrite H1 in G1; injection G1 as <-; [done | done | done|].
  f_equal. by eapply IH.
Qed.

Lemma inherits_suffix k l1 x l2 e : inherits k (l1 ++ x :: l2) e -> inherits x (x :: l2) e.
Proof.
  revert k. induction l1 as [|y l1 IH]; intros k H.
  - destruct (inherits_head _ _ _ H) as (l' & E). by injection E as -> ->.
  - inversion H as [? c G1 G2 E|? c l ? G1 G2 G3]; subst; [by destruct l1 | by eapply IH].
Qed.

Lemma inherits_NoDup k l e : inherits k l e -> NoDup l /\ incl l (map_keys settings).
Proof.
  intros H. assert (Hd : forall l1 x l2 l3, l <> l1 ++ x :: l2 ++ x :: l3).
  { intros l1 x l2 l3 ->. pose proof (inherits_suffix _ _ _ _ _ H) as G1. rewrite app_comm_cons in G1. pose proof (inherits_suffix _ _ _ _ _ G1) as G2.
    pose proof (inherits_det _ _ _ _ _ G1 G2) as E. apply (f_equal length) in E. cbn in E. rewrite length_app in E. cbn in E. lia. }
  split.
  - clear H. revert Hd. induction l as [|x l IH]; intros Hd; [constructor|]. constructor.
    + intros (l2 & l3 & ->)%list_elem_of_In%in_split. by apply (Hd [] x l2 l3).
    + apply IH. intros l1 y l2 l3 ->. by apply (Hd (x :: l1) y l2 l3).
  - clear Hd. induction H as [k c H1 H2|k c l e H1 H2 _ IH]; intros x [<-|Hx]; [| by destruct Hx | |by apply IH]; apply list_elem_of_In; by eapply map_get_elem.
Qed.

Definition with_estimation (c : TeamSettings) (e : Estimation) : TeamSettings := mkSettings (parentTeamId c) (inheritIssueEstimation c) e (other c).

Lemma resolve_inherits k l e : inherits k l e -> forall fuel seen c, (forall x, x ∈ l -> x ∉ seen) -> NoDup l -> (length l <= fuel)%nat -> map_get k settings = Some c ->
  resolve fuel settings k seen = Some (with_estimation c e).
Proof.
  induction 1 as [k c H1 H2|k c l e H1 H2 H3 IH]; intros fuel seen c0 Hs Hn Hf Hg; rewrite H1 in Hg; injection Hg as <-; (destruct fuel as [|fuel]; [cbn in Hf; lia|]); cbn [resolve]; rewrite H1;
    rewrite (proj2 (listed_false k seen)) by (apply Hs; left).
  - assert (Ec : c = with_estimation c (estimation c)) by (by destruct c). destruct H2 as [->|[->|H2]]; [by rewrite <- Ec | rewrite orb_true_r; by rewrite <- Ec|].
    destruct (_ || _); [by rewrite <- Ec|]. replace (resolve fuel settings _ _) with (@None TeamSettings); [by rewrite <- Ec|]. destruct fuel; cbn; [done | by rewrite H2].
  - apply NoDup_cons in Hn as [Hk Hn]. assert (G1 : inheritIssueEstimation c = true) by (destruct (inheritIssueEstimation c) eqn:E; [done | destruct H2; by left]).
    assert (G2 : truthy (parentTeamId c ?? "") = true) by (destruct (truthy _) eqn:E; [done | destruct H2; right; by left]).
    destruct (map_get (parentTeamId c ?? "") settings) as [cp|] eqn:Ep; [|destruct H2; right; by right]. rewrite G1, G2. cbn [negb orb].
    rewrite (IH fuel (k :: seen) cp); [unfold with_estimation; cbn; by rewrite G1 | | done | cbn in Hf; lia | done]. intros x Hx. apply not_elem_of_cons. split; [by intros -> | apply Hs; by right].
Qed.

(** A team that inherits shows the estimation of the first team above it that does not, and its own other settings. *)
Theorem resolved_settings_inherited k l e c : inherits k l e -> map_get k settings = Some c -> resolvedTeamSettings settings k = Some (with_estimation c e).
Proof.
  intros H Hc. destruct (inherits_NoDup _ _ _ H) as [Hn Hi]. eapply resolve_inherits; [exact H | intros x _; apply not_elem_of_nil | done | | done].
  assert (length l <= length settings)%nat; [|lia]. rewrite <- (length_map fst settings). apply submseteq_length, NoDup_submseteq; [done|]. intros x Hx. apply list_elem_of_In, Hi, list_elem_of_In, Hx.
Qed.

(** On a cycle the recursion ends too: a team with settings always has resolved ones, with its own other settings. *)
Theorem resolved_settings_total k c : map_get k settings = Some c -> exists e, resolvedTeamSettings settings k = Some (with_estimation c e).
Proof.
  set (left seen := length (List.filter (fun x => negb (has x seen)) (map_keys settings))).
  assert (G : forall fuel seen k c, map_get k settings = Some c -> (left seen < fuel)%nat -> exists e, resolve fuel settings k seen = Some (with_estimation c e)).
  { induction fuel as [|fuel IH]; intros seen k0 c0 Hg Hf; [lia|]. cbn [resolve]. rewrite Hg. assert (Ec : c0 = with_estimation c0 (estimation c0)) by (by destruct c0).
    destruct (has k0 seen) eqn:E; [by eexists; rewrite <- Ec|]. destruct (_ || _); [by eexists; rewrite <- Ec|]. destruct (map_get (parentTeamId c0 ?? "") settings) as [cp|] eqn:Ep.
    - assert (Hlt : (left (k0 :: seen) < left seen)%nat).
      { apply (filter_shrinks _ _ _ k0); [intros y; rewrite !negb_true_iff, !listed_false; intros H Hc; apply H; by right | apply list_elem_of_In; by eapply map_get_elem | by rewrite E | apply negb_false_iff, listed_spec; left]. }
      destruct (IH (k0 :: seen) _ _ Ep) as (e & ->); [lia|]. by exists e.
    - exists (estimation c0). replace (resolve fuel settings _ _) with (@None TeamSettings); [by rewrite <- Ec|]. destruct fuel; cbn; [done | by rewrite Ep]. }
  intros Hc. apply (G _ [] k c Hc). unfold left. pose proof (List.filter_length_le (fun x => negb (has x [])) (map_keys settings)) as H. unfold map_keys in H at 2. rewrite length_map in H. lia.
Qed.
End Inherit.

(** ** Examples *)

Module Demo.
Definition team (i : string) : Team := mkTeam i i None.
Definition six : list Team := map team ["t0"; "t1"; "t2"; "t3"; "t4"; "t5"].
(** A chain of five levels and a team of its own. *)
Definition five : list (string * option string) := [("t1", Some "t0"); ("t2", Some "t1"); ("t3", Some "t2"); ("t4", Some "t3")].

Lemma ids_distinct : NoDup (map id six).
Proof. apply (bool_decide_eq_true_1 (NoDup (map id six))). vm_compute. reflexivity. Qed.

Ltac climb_up := first [apply climb_root; vm_compute; reflexivity | eapply climb_step; [vm_compute; reflexivity | climb_up]].

Lemma five_sound : sound_tree six [] five.
Proof. unfold sound_tree, six. intros t Ht. cbn in Ht. decompose [or] Ht; clear Ht; subst; try done; (eexists; split; [climb_up | cbn; unfold MAX_TEAM_DEPTH; lia]). Qed.

(** The team below the root may move to the root of its own; the root may not. *)
Lemma parent_error_exact_witness :
  sound_tree six [] (map_set "t1" (Some "t5") five) /\ ~ sound_tree six [] (map_set "t0" (Some "t5") five).
Proof.
  pose proof (parent_error_exact six five [] ids_distinct (team "t1") (team "t5") ltac:(cbn; auto) ltac:(cbn; auto 10) five_sound eq_refl eq_refl) as H1.
  pose proof (parent_error_exact six five [] ids_distinct (team "t0") (team "t5") ltac:(cbn; auto) ltac:(cbn; auto 10) five_sound eq_refl eq_refl) as H2.
  split; [apply H1; vm_compute; reflexivity|]. intros Hs. apply H2 in Hs. vm_compute in Hs. discriminate.
Defined.

(** Two levels collapsed, and a cycle, whose teams are still shown. *)
Lemma team_rows_faithful_witness :
  map (fun r => (id (r_team r), r_depth r)) (rows six five [] six ["t1"]) = [("t0", 0%nat); ("t1", 1%nat); ("t5", 0%nat)]
  /\ map (fun r => (id (r_team r), r_depth r)) (rows six (("t0", Some "t4") :: five) [] six []) = [("t5", 0%nat); ("t0", 0%nat); ("t1", 1%nat); ("t2", 2%nat); ("t3", 3%nat); ("t4", 4%nat)]
  /\ NoDup (map (fun r => id (r_team r)) (rows six (("t0", Some "t4") :: five) [] six [])).
Proof.
  split; [vm_compute; reflexivity|]. split; [vm_compute; reflexivity|].
  apply (team_rows_faithful six (("t0", Some "t4") :: five) [] six [] ids_distinct ids_distinct (fun x H => H)).
Defined.
End Demo.
