(* ===== verification/DashboardLayout.v ===== *)
(** * The layout of a dashboard (web/src/components/dashboards/dashboard-layout.ts)

    A dashboard stores a flat list of widgets with a position and a width; the page shows rows of columns of items.  [widgetsToLayout] and
    [layoutToWidgets] translate, [autofixWidgets] repairs a layout after each change, and widgets are
    added, duplicated, deleted and moved.

    The widths of a row are compared as fractions of it in floating point: the model computes them with the binary64 numbers of the language
    ([SpecFloat] with 53 bits), so that ties such as two thirds of five thirds fall where they fall in the program. *)

From Stdlib Require Import ZArith Lia Bool List Sorting.Sorted Floats.SpecFloat.
From stdpp Require Import base list strings pretty.
From S2P Require Import Prelude JsString JsMap.

Local Set Warnings "-register-all,-notation-for-abbreviation".

(** ** Floating point *)

Definition float : Type := spec_float.
Definition of_Z (z : Z) : float := binary_normalize 53 1024 z 0 false.
Definition fadd : float -> float -> float := SFadd 53 1024.
Definition fdiv : float -> float -> float := SFdiv 53 1024.
(** A decimal literal [n / d] is the nearest number, which is the quotient of the two exact numbers. *)
Definition literal (n d : Z) : float := fdiv (of_Z n) (of_Z d).
Definition lit_0_25 : float := Eval vm_compute in literal 1 4.
Definition lit_0_4 : float := Eval vm_compute in literal 4 10.
Definition lit_0_5 : float := Eval vm_compute in literal 1 2.
Definition lit_0_6 : float := Eval vm_compute in literal 6 10.
Definition lit_0_9 : float := Eval vm_compute in literal 9 10.
Definition lit_1_001 : float := Eval vm_compute in literal 1001 1000.
Definition lit_0 : float := Eval vm_compute in of_Z 0.
Definition lit_1 : float := Eval vm_compute in of_Z 1.
Definition two_over_three : float := Eval vm_compute in fdiv (of_Z 2) (of_Z 3).

(** ** Layouts *)

Inductive LayoutWidth := w_one | w_half | w_two_thirds | w_full.
Inductive LayoutHeight := h_one | h_two.

Record DashboardLayoutItem := mkItem { i_id : string; widgetId : string; height : LayoutHeight }.
Record DashboardLayoutColumn := mkColumn { c_id : string; c_width : LayoutWidth; items : list DashboardLayoutItem }.
Record DashboardLayoutRow := mkRow { r_id : string; columns : list DashboardLayoutColumn }.
Notation DashboardWidgetLayout := (list DashboardLayoutRow) (only parsing).

(** [config] is the rest of a widget. *)
Record DashboardWidget := mkWidget { w_id : string; position : Z; w_width : Z; config : string }.

#[export] Instance LayoutWidth_eq_dec : EqDecision LayoutWidth.
Proof. solve_decision. Defined.

Definition maxColumnsPerRow : nat := 4.

Definition fractionForWidth (w : LayoutWidth) : float :=
  match w with w_one => lit_0_25 | w_half => lit_0_5 | w_two_thirds => two_over_three | w_full => lit_1 end.

Definition widthFromFraction (f : float) : LayoutWidth :=
  if SFleb lit_0_9 f then w_full
  else if SFleb lit_0_6 f then w_two_thirds
  else if SFleb lit_0_4 f then w_half
  else w_one.

(** ** Repair *)

Definition set_width (w : LayoutWidth) (c : DashboardLayoutColumn) : DashboardLayoutColumn := mkColumn (c_id c) w (items c).
Definition set_items (l : list DashboardLayoutItem) (c : DashboardLayoutColumn) : DashboardLayoutColumn := mkColumn (c_id c) (c_width c) l.
Definition set_columns (l : list DashboardLayoutColumn) (r : DashboardLayoutRow) : DashboardLayoutRow := mkRow (r_id r) l.

Definition kept_columns (l : list DashboardLayoutColumn) : list DashboardLayoutColumn :=
  List.filter (fun c => negb (bool_decide (items c = []))) (map (fun c => set_items (List.filter (fun i => truthy (widgetId i)) (items c)) c) l).

(** [columns.reduce(...) || 1]; the sum of a column at least is never zero. *)
Definition total_width (l : list DashboardLayoutColumn) : float :=
  let s := fold_left (fun s c => fadd s (fractionForWidth (c_width c))) l lit_0 in
  match s with S754_zero _ | S754_nan => lit_1 | _ => s end.

Definition normalize (l : list DashboardLayoutColumn) : list DashboardLayoutColumn :=
  let total := total_width l in
  match map (fun c => set_width (widthFromFraction (fdiv (fractionForWidth (c_width c)) total)) c) l with
  | [c] => [set_width w_full c]
  | l => l
  end.

Fixpoint autofixWidgets (layout : DashboardWidgetLayout) : DashboardWidgetLayout :=
  match layout with
  | [] => []
  | r :: rest =>
      match kept_columns (columns r) with
      | [] => autofixWidgets rest
      | l => set_columns (normalize l) r :: autofixWidgets rest
      end
  end.

(** ** Translation *)

(** [sort((a, b) => a.position - b.position)], which is stable. *)
Fixpoint insert_widget (w : DashboardWidget) (l : list DashboardWidget) : list DashboardWidget :=
  match l with
  | [] => [w]
  | x :: r => if (position w <=? position x)%Z then w :: l else x :: insert_widget w r
  end.
Definition sort_widgets (l : list DashboardWidget) : list DashboardWidget := foldr insert_widget [] l.

Definition new_item (w : string) (h : LayoutHeight) : DashboardLayoutItem := mkItem ("item_" +:+ w) w h.
Definition new_column (w : string) (width : LayoutWidth) : DashboardLayoutColumn := mkColumn ("column_" +:+ w) width [new_item w h_one].
Definition row_name (n : nat) : string := "row_" +:+ pretty n.

(** The loop: the rows that are done, the columns of the open row and the share of it that is used. *)
Record Packing := mkPacking { done_rows : DashboardWidgetLayout; open_row : option (list DashboardLayoutColumn); used : float }.

Definition pack_rows (p : Packing) : DashboardWidgetLayout :=
  done_rows p ++ match open_row p with Some l => [mkRow (row_name (length (done_rows p))) l] | None => [] end.

Definition pack (p : Packing) (w : DashboardWidget) : Packing :=
  let width := if (w_width w =? 2)%Z then w_full else w_half in
  let fraction := fractionForWidth width in
  let column := new_column (w_id w) width in
  match open_row p with
  | Some l =>
      if SFltb lit_1_001 (fadd (used p) fraction) || (maxColumnsPerRow <=? length l)%nat
      then mkPacking (pack_rows p) (Some [column]) (fadd lit_0 fraction)
      else mkPacking (done_rows p) (Some (l ++ [column])) (fadd (used p) fraction)
  | None => mkPacking (pack_rows p) (Some [column]) (fadd lit_0 fraction)
  end.

Definition widgetsToLayout (widgets : list DashboardWidget) : DashboardWidgetLayout :=
  autofixWidgets (pack_rows (fold_left pack (sort_widgets widgets) (mkPacking [] None lit_0))).

Definition wide (w : LayoutWidth) : Z := match w with w_full | w_two_thirds => 2 | _ => 1 end.

(** All items with the width of their column, in the order they are shown. *)
Definition placed (layout : DashboardWidgetLayout) : list (LayoutWidth * DashboardLayoutItem) :=
  flat_map (fun r => flat_map (fun c => map (pair (c_width c)) (items c)) (columns r)) layout.

Fixpoint flatten (position : Z) (l : list (LayoutWidth * DashboardLayoutItem)) (byId : list (string * DashboardWidget)) : list DashboardWidget :=
  match l with
  | [] => []
  | (cw, i) :: r =>
      match map_get (widgetId i) byId with
      | Some w => mkWidget (w_id w) position (wide cw) (config w) :: flatten (position + 1) r byId
      | None => flatten position r byId
      end
  end.

Definition layoutToWidgets (layout : DashboardWidgetLayout) (byId : list (string * DashboardWidget)) : list DashboardWidget := flatten 0 (placed layout) byId.

Definition traverseLayoutItems (layout : DashboardWidgetLayout) : list string :=
  flat_map (fun r => flat_map (fun c => map widgetId (items c)) (columns r)) layout.

(** ** Changes *)

Definition append_row (w : string) (width : LayoutWidth) (layout : DashboardWidgetLayout) : DashboardWidgetLayout :=
  layout ++ [mkRow (row_name (length layout)) [new_column w width]].

(** [rows[i]], with its index; an absent index finds nothing. *)
Definition at_index {A} (l : list A) (i : option nat) : option (nat * A) :=
  match i with Some i => match l !! i with Some x => Some (i, x) | None => None end | None => None end.

Definition addWidgetToLayout (layout : DashboardWidgetLayout) (w : string) (row column : option nat) : DashboardWidgetLayout :=
  match at_index layout row with
  | None => autofixWidgets (append_row w w_full layout)
  | Some (i, r) =>
      match at_index (columns r) column with
      | None =>
          if (maxColumnsPerRow <=? length (columns r))%nat then autofixWidgets (append_row w w_one layout)
          else autofixWidgets (<[i := set_columns (columns r ++ [new_column w w_one]) r]> layout)
      | Some (j, c) => autofixWidgets (<[i := set_columns (<[j := set_items (items c ++ [new_item w h_one]) c]> (columns r)) r]> layout)
      end
  end.

(** An item behind the first one that shows a widget, in the first column that has one; [None] when no column does. *)
Fixpoint put_after (target : string) (make : DashboardLayoutItem -> DashboardLayoutItem) (l : list DashboardLayoutItem) : option (list DashboardLayoutItem) :=
  match l with
  | [] => None
  | x :: r => if widgetId x =s target then Some (x :: make x :: r) else option_map (cons x) (put_after target make r)
  end.
Fixpoint put_in_columns (target : string) (make : DashboardLayoutItem -> DashboardLayoutItem) (l : list DashboardLayoutColumn) : option (list DashboardLayoutColumn) :=
  match l with
  | [] => None
  | c :: r => match put_after target make (items c) with
              | Some k => Some (set_items k c :: r)
              | None => option_map (cons c) (put_in_columns target make r)
              end
  end.
Fixpoint put_in_rows (target : string) (make : DashboardLayoutItem -> DashboardLayoutItem) (l : DashboardWidgetLayout) : option DashboardWidgetLayout :=
  match l with
  | [] => None
  | x :: r => match put_in_columns target make (columns x) with
              | Some k => Some (set_columns k x :: r)
              | None => option_map (cons x) (put_in_rows target make r)
              end
  end.

Definition duplicateWidgetInLayout (layout : DashboardWidgetLayout) (source new : string) : DashboardWidgetLayout :=
  match put_in_rows source (fun i => new_item new (height i)) layout with
  | Some rows => autofixWidgets rows
  | None => addWidgetToLayout layout new None None
  end.

Definition deleteWidgetFromLayout (layout : DashboardWidgetLayout) (w : string) : DashboardWidgetLayout :=
  autofixWidgets (map (fun r => set_columns (map (fun c => set_items (List.filter (fun i => negb (widgetId i =s w)) (items c)) c) (columns r)) r) layout).

Inductive Target := TRow (rowIndex : nat) | TColumn (rowIndex columnIndex : nat) | TWidget (w : string).

Definition moveWidgetInLayout (layout : DashboardWidgetLayout) (source : string) (target : Target) : DashboardWidgetLayout :=
  let working := deleteWidgetFromLayout layout source in
  match target with
  | TRow i => addWidgetToLayout working source (Some i) None
  | TColumn i j => addWidgetToLayout working source (Some i) (Some j)
  | TWidget w =>
      match put_in_rows w (fun _ => new_item source h_one) working with
      | Some rows => autofixWidgets rows
      | None => addWidgetToLayout working source None None
      end
  end.

(** ** What repair does *)

Record wf_column (c : DashboardLayoutColumn) : Prop := { wc_items : items c <> []; wc_ids : Forall (fun i => truthy (widgetId i) = true) (items c) }.

(** Rows and columns are never empty, a row has at most four columns, and a single column has the full width. *)
Record wf_row (r : DashboardLayoutRow) : Prop := {
  wr_some : columns r <> [];
  wr_few : (length (columns r) <= maxColumnsPerRow)%nat;
  wr_columns : Forall wf_column (columns r);
  wr_single : forall c, columns r = [c] -> c_width c = w_full }.

Definition wf_layout (l : DashboardWidgetLayout) : Prop := Forall wf_row l.
Definition few_columns (l : DashboardWidgetLayout) : Prop := Forall (fun r => (length (columns r) <= maxColumnsPerRow)%nat) l.

Definition column_ids (l : list DashboardLayoutColumn) : list string := flat_map (fun c => map widgetId (items c)) l.

Lemma traverse_cons r l : traverseLayoutItems (r :: l) = column_ids (columns r) ++ traverseLayoutItems l.
Proof. done. Qed.

Lemma traverse_app a b : traverseLayoutItems (a ++ b) = traverseLayoutItems a ++ traverseLayoutItems b.
Proof. apply flat_map_app. Qed.

Lemma filter_map_comm {A B} (f : A -> B) (p : B -> bool) l : List.filter p (map f l) = map f (List.filter (fun x => p (f x)) l).
Proof. induction l as [|x l IH]; [done|]. cbn. rewrite IH. by destruct (p (f x)). Qed.

Lemma kept_column_ids l : column_ids (kept_columns l) = List.filter truthy (column_ids l).
Proof.
  unfold kept_columns, column_ids. induction l as [|c l IH]; [done|]. cbn [map List.filter flat_map]. rewrite List.filter_app, <- IH, (filter_map_comm widgetId truthy). clear IH.
  set (k := List.filter (fun i => truthy (widgetId i)) (items c)). change (items (set_items k c)) with k. case_bool_decide as E; [by rewrite E | done].
Qed.

Lemma kept_columns_wf l : Forall wf_column (kept_columns l).
Proof.
  apply List.Forall_forall. intros c [Hc Hn%negb_true_iff%bool_decide_eq_false_1]%filter_In. apply in_map_iff in Hc as (c0 & <- & _). split; [done|]. cbn. apply Forall_filter_true.
Qed.

Lemma kept_columns_length l : (length (kept_columns l) <= length l)%nat.
Proof. unfold kept_columns. eapply Nat.le_trans; [apply List.filter_length_le|]. by rewrite length_map. Qed.

(** Repair changes widths only. *)
Lemma normalize_items l : map items (normalize l) = map items l.
Proof.
  unfold normalize. cbv zeta. set (f := fun c => set_width _ c). assert (E : map items (map f l) = map items l) by (rewrite map_map; by apply map_ext).
  rewrite <- E. by destruct (map f l) as [|c [|? ?]].
Qed.

Lemma normalize_length l : length (normalize l) = length l.
Proof. rewrite <- (length_map items), normalize_items. apply length_map. Qed.

Lemma column_ids_items l l' : map items l = map items l' -> column_ids l = column_ids l'.
Proof. unfold column_ids. rewrite !flat_map_concat_map. intros E. f_equal. rewrite <- !(map_map items (map widgetId)). by rewrite E. Qed.

Lemma wf_columns_items l l' : map items l = map items l' -> Forall wf_column l -> Forall wf_column l'.
Proof.
  revert l'. induction l as [|c l IH]; intros [|c' l'] E H; try done. cbn in E. injection E as E1 E2. apply Forall_cons in H as [[H1 H2] H3]. constructor; [|by apply IH]. split; by rewrite <- E1.
Qed.

Lemma traverse_autofix l : traverseLayoutItems (autofixWidgets l) = List.filter truthy (traverseLayoutItems l).
Proof.
  induction l as [|r l IH]; [done|]. cbn [autofixWidgets]. rewrite traverse_cons, List.filter_app, <- kept_column_ids. destruct (kept_columns (columns r)) as [|c k] eqn:E; [exact IH|].
  rewrite traverse_cons, IH. cbn [set_columns columns]. by rewrite (column_ids_items _ _ (normalize_items (c :: k))).
Qed.

Lemma autofix_wf l : few_columns l -> wf_layout (autofixWidgets l).
Proof.
  induction 1 as [|r l Hr _ IH]; [constructor|]. cbn [autofixWidgets]. pose proof (kept_columns_length (columns r)) as Hk. pose proof (kept_columns_wf (columns r)) as Hw.
  destruct (kept_columns (columns r)) as [|c k] eqn:E; [exact IH|]. constructor; [|exact IH]. split; cbn [set_columns columns].
  - intros En. apply (f_equal length) in En. rewrite normalize_length in En. done.
  - rewrite normalize_length. cbn in *. lia.
  - eapply wf_columns_items; [symmetry; apply normalize_items | done].
  - intros c' Ec. unfold normalize in Ec. cbv zeta in Ec. destruct (map _ (c :: k)) as [|c1 [|c2 k']]; try done. by injection Ec as <-.
Qed.

Lemma wf_few l : wf_layout l -> few_columns l.
Proof. intros H. eapply List.Forall_impl; [|exact H]. by intros r []. Qed.

Lemma wf_traverse l : wf_layout l -> Forall (fun w => truthy w = true) (traverseLayoutItems l).
Proof.
  induction 1 as [|r l [_ _ Hc _] _ IH]; [constructor|]. rewrite traverse_cons. apply Forall_app. split; [|done]. clear -Hc. induction Hc as [|c k [_ H] _ IH]; [constructor|]. cbn. apply Forall_app. split; [by apply Forall_map | done].
Qed.

(** *** Repeated repair *)

Definition norm_widths (l : list LayoutWidth) : list LayoutWidth := map c_width (normalize (map (fun w => mkColumn "" w []) l)).

Fixpoint width_lists (n : nat) : list (list LayoutWidth) :=
  match n with O => [[]] | S n => flat_map (fun l => [w_one :: l; w_half :: l; w_two_thirds :: l; w_full :: l]) (width_lists n) end.

Lemma width_lists_all l : In l (width_lists (length l)).
Proof. induction l as [|w l IH]; [by left|]. cbn. apply in_flat_map. exists l. split; [done|]. destruct w; cbn; auto. Qed.

Definition list_normalised (l : list (list LayoutWidth)) : list (list LayoutWidth) := remove_dups (map norm_widths l).

Lemma in_list_normalised x l : In x l -> In (norm_widths x) (list_normalised l).
Proof. intros H. apply list_elem_of_In, elem_of_remove_dups, list_elem_of_In, in_map, H. Qed.

(** The widths of a row settle at the second repair: all rows of at most four columns, by computation. *)
Lemma norm_widths_settle l : (length l <= maxColumnsPerRow)%nat -> norm_widths (norm_widths (norm_widths l)) = norm_widths (norm_widths l).
Proof.
  intros Hl. set (once := list_normalised (flat_map width_lists [0; 1; 2; 3; 4]%nat)). assert (H : forallb (fun l => bool_decide (norm_widths l = l)) (list_normalised once) = true) by (vm_compute; reflexivity).
  rewrite forallb_forall in H. apply (bool_decide_eq_true_1 (norm_widths (norm_widths (norm_widths l)) = _)), H. apply in_list_normalised, in_list_normalised, in_flat_map.
  exists (length l). split; [unfold maxColumnsPerRow in Hl; cbn; lia | apply width_lists_all].
Qed.

(** Repair depends on the widths alone. *)
Fixpoint set_widths (ws : list LayoutWidth) (l : list DashboardLayoutColumn) : list DashboardLayoutColumn :=
  match ws, l with w :: ws, c :: l => set_width w c :: set_widths ws l | _, _ => [] end.

Lemma total_width_widths l l' : map c_width l = map c_width l' -> total_width l = total_width l'.
Proof.
  intros E. unfold total_width. assert (G : forall l l' s, map c_width l = map c_width l' -> fold_left (fun s c => fadd s (fractionForWidth (c_width c))) l s = fold_left (fun s c => fadd s (fractionForWidth (c_width c))) l' s).
  { clear. induction l as [|c l IH]; intros [|c' l'] s E; try done. cbn in *. injection E as E1 E2. rewrite E1. by apply IH. }
  by rewrite (G l l' _ E).
Qed.

Lemma normalize_widths l : normalize l = set_widths (norm_widths (map c_width l)) l.
Proof.
  unfold norm_widths, normalize. cbv zeta. rewrite (total_width_widths (map (fun w => mkColumn "" w []) (map c_width l)) l) by (rewrite !map_map; done).
  generalize (total_width l). intros t. destruct l as [|c [|c2 l]]; [done | done|]. cbn [map set_widths c_width set_width]. f_equal. f_equal. rewrite !map_map. cbn.
  induction l as [|x l IH]; [done|]. cbn [map set_widths]. by f_equal.
Qed.

Lemma set_widths_twice ws ws' l : length ws = length l -> set_widths ws' (set_widths ws l) = set_widths ws' l.
Proof. revert ws ws'. induction l as [|c l IH]; intros [|w ws] [|w' ws'] E; try done. cbn in *. f_equal. apply IH. lia. Qed.

Lemma set_widths_get ws l : length ws = length l -> map c_width (set_widths ws l) = ws.
Proof. revert ws. induction l as [|c l IH]; intros [|w ws] E; try done. cbn in *. f_equal. apply IH. lia. Qed.

Lemma norm_widths_length l : length (norm_widths l) = length l.
Proof. unfold norm_widths. by rewrite length_map, normalize_length, length_map. Qed.

Lemma normalize_settles l : (length l <= maxColumnsPerRow)%nat -> normalize (normalize (normalize l)) = normalize (normalize l).
Proof.
  intros Hl. rewrite (normalize_widths l). set (w1 := norm_widths (map c_width l)). assert (L1 : length w1 = length l) by (unfold w1; by rewrite norm_widths_length, length_map).
  rewrite (normalize_widths (set_widths w1 l)), set_widths_get, set_widths_twice by done. assert (L2 : length (norm_widths w1) = length l) by (by rewrite norm_widths_length).
  rewrite (normalize_widths (set_widths (norm_widths w1) l)), set_widths_get, set_widths_twice by done. unfold w1. rewrite norm_widths_settle; [done|]. by rewrite length_map.
Qed.

Lemma kept_columns_id l : Forall wf_column l -> kept_columns l = l.
Proof.
  induction 1 as [|c l [H1 H2] _ IH]; [done|]. unfold kept_columns in *. cbn [map List.filter]. rewrite (filter_all (fun i => truthy (widgetId i)) (items c) H2).
  assert (E : set_items (items c) c = c) by (by destruct c). rewrite E, bool_decide_eq_false_2 by done. cbn [negb]. by rewrite IH.
Qed.

Lemma autofix_cons r l : Forall wf_column (columns r) -> columns r <> [] -> autofixWidgets (r :: l) = set_columns (normalize (columns r)) r :: autofixWidgets l.
Proof. intros H1 H2. cbn [autofixWidgets]. rewrite kept_columns_id by done. by destruct (columns r). Qed.

(** Repairing a third time changes nothing. *)
Lemma autofix_settles l : few_columns l -> autofixWidgets (autofixWidgets (autofixWidgets l)) = autofixWidgets (autofixWidgets l).
Proof.
  intros Hl. induction Hl as [|r l Hr Hl IH]; [done|]. cbn [autofixWidgets]. pose proof (kept_columns_wf (columns r)) as Hw. pose proof (kept_columns_length (columns r)) as Hk.
  assert (G : forall k, Forall wf_column k -> (0 < length k)%nat -> forall r rest, autofixWidgets (set_columns k r :: rest) = set_columns (normalize k) r :: autofixWidgets rest).
  { intros k W0 L0 r0 rest. rewrite autofix_cons; [done | done | by destruct k; [cbn in L0; lia|]]. }
  destruct (kept_columns (columns r)) as [|c k] eqn:E; [exact IH|]. assert (N : forall k, Forall wf_column k -> Forall wf_column (normalize k)) by (intros k0 W; eapply wf_columns_items; [symmetry; apply normalize_items | done]).
  rewrite !G; rewrite ?normalize_length; auto; try (cbn; lia). rewrite IH. f_equal. unfold set_columns. cbn [r_id]. f_equal. apply normalize_settles. cbn in *. lia.
Qed.

(** ** What the changes do *)

Lemma fixed_traverse l : Forall (fun w => truthy w = true) (traverseLayoutItems l) -> traverseLayoutItems (autofixWidgets l) = traverseLayoutItems l.
Proof. intros H. rewrite traverse_autofix. by apply filter_all. Qed.

Lemma column_ids_app a b : column_ids (a ++ b) = column_ids a ++ column_ids b.
Proof. apply flat_map_app. Qed.

Lemma at_index_Some {A} (l : list A) i n x : at_index l i = Some (n, x) -> i = Some n /\ l !! n = Some x.
Proof. unfold at_index. destruct i as [i|]; [|done]. destruct (l !! i) eqn:E; [|done]. by intros [= <- <-]. Qed.

(** Replacing one row, or one column of a row. *)
Lemma traverse_insert l i r r' a b c : l !! i = Some r -> column_ids (columns r) = a ++ c -> column_ids (columns r') = a ++ b ++ c ->
  exists l1 l2, traverseLayoutItems l = l1 ++ l2 /\ traverseLayoutItems (<[i := r']> l) = l1 ++ b ++ l2.
Proof.
  intros Hi E E'. rewrite (insert_take_drop l i r') by (by eapply lookup_lt_Some). exists (traverseLayoutItems (take i l) ++ a), (c ++ traverseLayoutItems (drop (S i) l)).
  replace (traverseLayoutItems l) with (traverseLayoutItems (take i l ++ r :: drop (S i) l)) by (by rewrite take_drop_middle). rewrite !traverse_app, !traverse_cons, E, E', <- !app_assoc. done.
Qed.

Lemma column_ids_insert l j c k : l !! j = Some c -> exists a b, column_ids l = a ++ b /\ column_ids (<[j := set_items (items c ++ k) c]> l) = a ++ map widgetId k ++ b.
Proof.
  intros Hj. rewrite (insert_take_drop l j) by (by eapply lookup_lt_Some). exists (column_ids (take j l) ++ map widgetId (items c)), (column_ids (drop (S j) l)).
  replace (column_ids l) with (column_ids (take j l ++ c :: drop (S j) l)) by (by rewrite take_drop_middle). rewrite !column_ids_app. cbn. rewrite map_app, <- !app_assoc. done.
Qed.

Lemma few_insert l i r : few_columns l -> (length (columns r) <= maxColumnsPerRow)%nat -> few_columns (<[i := r]> l).
Proof. intros H Hr. by apply Forall_insert. Qed.

Lemma few_append w width l : few_columns l -> few_columns (append_row w width l).
Proof. intros H. apply Forall_app. split; [done|]. constructor; [cbn; unfold maxColumnsPerRow; lia | constructor]. Qed.

(** The layout in front of the repair that an addition ends with. *)
Lemma add_shape layout w row column : few_columns layout -> exists l, addWidgetToLayout layout w row column = autofixWidgets l /\ few_columns l
  /\ exists l1 l2, traverseLayoutItems layout = l1 ++ l2 /\ traverseLayoutItems l = l1 ++ w :: l2 /\ (row = None -> l2 = []).
Proof.
  intros Hf. assert (Ha : forall width, exists l, autofixWidgets (append_row w width layout) = autofixWidgets l /\ few_columns l
    /\ exists l1 l2, traverseLayoutItems layout = l1 ++ l2 /\ traverseLayoutItems l = l1 ++ w :: l2 /\ (row = None -> l2 = [])).
  { intros width. exists (append_row w width layout). split; [done|]. split; [by apply few_append|]. exists (traverseLayoutItems layout), []. unfold append_row. rewrite traverse_app, app_nil_r. done. }
  unfold addWidgetToLayout. destruct (at_index layout row) as [[i r]|] eqn:Er; [|apply Ha]. apply at_index_Some in Er as [-> Hi].
  assert (Hr : (length (columns r) <= maxColumnsPerRow)%nat) by (by apply (proj1 (Forall_lookup _ _) Hf i r)).
  destruct (at_index (columns r) column) as [[j c]|] eqn:Ec.
  - apply at_index_Some in Ec as [-> Hj]. destruct (column_ids_insert (columns r) j c [new_item w h_one] Hj) as (a & b & E1 & E2).
    destruct (traverse_insert layout i r (set_columns (<[j := set_items (items c ++ [new_item w h_one]) c]> (columns r)) r) a [w] b Hi E1 E2) as (l1 & l2 & T1 & T2).
    eexists. split; [reflexivity|]. split; [apply few_insert; [done|]; cbn; by rewrite length_insert|]. exists l1, l2. done.
  - destruct (Nat.leb_spec maxColumnsPerRow (length (columns r))); [apply Ha|].
    destruct (traverse_insert layout i r (set_columns (columns r ++ [new_column w w_one]) r) (column_ids (columns r)) [w] [] Hi) as (l1 & l2 & T1 & T2); [by rewrite app_nil_r | cbn; by rewrite column_ids_app|].
    eexists. split; [reflexivity|]. split; [apply few_insert; [done|]; cbn; rewrite length_app; cbn; lia|]. exists l1, l2. done.
Qed.

(** An item put behind another. *)
Lemma put_after_spec target make l : match put_after target make l with
  | Some k => exists a x b, l = a ++ x :: b /\ widgetId x = target /\ (target ∉ map widgetId a) /\ k = a ++ x :: make x :: b
  | None => target ∉ map widgetId l end.
Proof.
  induction l as [|x l IH]; cbn [put_after]; [apply not_elem_of_nil|]. destruct (String.eqb_spec (widgetId x) target) as [E|E]; [exists [], x, l; repeat split; try done; apply not_elem_of_nil|].
  destruct (put_after target make l) as [k|]; cbn.
  - destruct IH as (a & y & b & -> & H1 & H2 & ->). exists (x :: a), y, b. repeat split; try done. cbn. apply not_elem_of_cons. split; congruence.
  - apply not_elem_of_cons. split; congruence.
Qed.

Lemma put_in_columns_spec target make l : match put_in_columns target make l with
  | Some k => length k = length l /\ exists a x b, column_ids l = a ++ target :: b /\ (target ∉ a) /\ column_ids k = a ++ target :: widgetId (make x) :: b
  | None => target ∉ column_ids l end.
Proof.
  induction l as [|c l IH]; cbn [put_in_columns]; [apply not_elem_of_nil|]. pose proof (put_after_spec target make (items c)) as H. change (column_ids (c :: l)) with (map widgetId (items c) ++ column_ids l).
  destruct (put_after target make (items c)) as [k|].
  - destruct H as (a & x & b & E1 & E2 & E3 & ->). split; [done|]. exists (map widgetId a), x, (map widgetId b ++ column_ids l). rewrite E1. cbn. rewrite !map_app. cbn. rewrite E2, <- !app_assoc. done.
  - destruct (put_in_columns target make l) as [k|]; cbn [option_map].
    + destruct IH as (E1 & a & x & b & E2 & E3 & E4). split; [cbn; lia|]. exists (map widgetId (items c) ++ a), x, b. rewrite E2. change (column_ids (c :: k)) with (map widgetId (items c) ++ column_ids k). rewrite E4, <- !app_assoc. split; [done|].
      split; [|done]. rewrite elem_of_app. tauto.
    + rewrite elem_of_app. tauto.
Qed.

Lemma put_in_rows_spec target make l : match put_in_rows target make l with
  | Some k => (few_columns l -> few_columns k) /\ exists a x b, traverseLayoutItems l = a ++ target :: b /\ (target ∉ a) /\ traverseLayoutItems k = a ++ target :: widgetId (make x) :: b
  | None => target ∉ traverseLayoutItems l end.
Proof.
  induction l as [|r l IH]; cbn [put_in_rows]; [apply not_elem_of_nil|]. pose proof (put_in_columns_spec target make (columns r)) as H. rewrite traverse_cons.
  destruct (put_in_columns target make (columns r)) as [k|].
  - destruct H as (El & a & x & b & E1 & E2 & E3). split; [intros [Hr Hl]%Forall_cons; constructor; [cbn; lia | done]|]. exists a, x, (b ++ traverseLayoutItems l). rewrite traverse_cons. cbn [set_columns columns]. rewrite E1, E3, <- !app_assoc. done.
  - destruct (put_in_rows target make l) as [k|]; cbn [option_map].
    + destruct IH as (Hf & a & x & b & E2 & E3 & E4). split; [intros [Hr Hl]%Forall_cons; constructor; [done | by apply Hf]|]. exists (column_ids (columns r) ++ a), x, b. rewrite E2, traverse_cons, E4, <- !app_assoc. split; [done|].
      split; [|done]. rewrite elem_of_app. tauto.
    + rewrite elem_of_app. tauto.
Qed.

Lemma delete_traverse l w : wf_layout l -> wf_layout (deleteWidgetFromLayout l w) /\ traverseLayoutItems (deleteWidgetFromLayout l w) = List.filter (fun x => negb (x =s w)) (traverseLayoutItems l).
Proof.
  intros Hw. unfold deleteWidgetFromLayout. set (l' := map _ l). assert (Et : traverseLayoutItems l' = List.filter (fun x => negb (x =s w)) (traverseLayoutItems l)).
  { unfold l'. clear. induction l as [|r l IH]; [done|]. cbn [map]. rewrite !traverse_cons, List.filter_app, IH. f_equal. cbn. clear. induction (columns r) as [|c k IH]; [done|]. cbn. rewrite List.filter_app, IH. f_equal.
    by rewrite (filter_map_comm widgetId (fun x => negb (x =s w))). }
  split.
  - apply autofix_wf. unfold l'. apply Forall_map. eapply List.Forall_impl; [|apply (wf_few l Hw)]. intros r Hr. cbn. by rewrite length_map.
  - rewrite fixed_traverse; [done|]. rewrite Et. apply List.Forall_forall. intros x [Hx _]%filter_In. by apply (proj1 (List.Forall_forall _ _) (wf_traverse l Hw)).
Qed.

Lemma add_traverse l w row column : wf_layout l -> truthy w = true -> wf_layout (addWidgetToLayout l w row column)
  /\ exists l1 l2, traverseLayoutItems l = l1 ++ l2 /\ traverseLayoutItems (addWidgetToLayout l w row column) = l1 ++ w :: l2 /\ (row = None -> l2 = []).
Proof.
  intros Hw Ht. destruct (add_shape l w row column (wf_few l Hw)) as (k & -> & Hf & l1 & l2 & E1 & E2 & E3). split; [by apply autofix_wf|]. exists l1, l2. split; [done|]. split; [|done].
  rewrite fixed_traverse; [done|]. pose proof (wf_traverse l Hw) as Hall. rewrite E1 in Hall. apply Forall_app in Hall as [? ?]. rewrite E2. apply Forall_app. split; [done|]. by constructor.
Qed.

Lemma put_traverse l target make new : wf_layout l -> truthy new = true -> (forall x, widgetId (make x) = new) -> match put_in_rows target make l with
  | Some k => wf_layout (autofixWidgets k) /\ exists a b, traverseLayoutItems l = a ++ target :: b /\ traverseLayoutItems (autofixWidgets k) = a ++ target :: new :: b
  | None => target ∉ traverseLayoutItems l end.
Proof.
  intros Hw Ht Hm. pose proof (put_in_rows_spec target make l) as H. destruct (put_in_rows target make l) as [k|]; [|done]. destruct H as (Hf & a & x & b & E1 & _ & E2). split; [apply autofix_wf, Hf, wf_few, Hw|]. exists a, b. split; [done|].
  rewrite Hm in E2. rewrite fixed_traverse; [done|]. pose proof (wf_traverse l Hw) as Hall. rewrite E1 in Hall. apply Forall_app in Hall as [? [? ?]%Forall_cons]. rewrite E2. apply Forall_app. split; [done|]. by repeat constructor.
Qed.

(** C32 (dashboard_layout_sound).  Adding, duplicating, deleting and moving keep a layout well formed: no empty rows or columns, at most four columns in a row, a single column over the full width.  A deletion takes exactly the widget out, an
    addition and a move leave all other widgets in their order and show the widget once more or again, a copy stands right behind its source, and a widget that is dropped on another one right behind that. *)
Theorem dashboard_layout_sound l w row column source target :
  wf_layout l -> truthy w = true -> truthy source = true ->
  (wf_layout (addWidgetToLayout l w row column) /\ exists l1 l2, traverseLayoutItems l = l1 ++ l2 /\ traverseLayoutItems (addWidgetToLayout l w row column) = l1 ++ w :: l2)
  /\ (wf_layout (deleteWidgetFromLayout l w) /\ traverseLayoutItems (deleteWidgetFromLayout l w) = List.filter (fun x => negb (x =s w)) (traverseLayoutItems l))
  /\ (wf_layout (duplicateWidgetInLayout l source w)
      /\ ((exists a b, traverseLayoutItems l = a ++ source :: b /\ traverseLayoutItems (duplicateWidgetInLayout l source w) = a ++ source :: w :: b)
          \/ (source ∉ traverseLayoutItems l) /\ traverseLayoutItems (duplicateWidgetInLayout l source w) = traverseLayoutItems l ++ [w]))
  /\ (wf_layout (moveWidgetInLayout l source target)
      /\ (exists l1 l2, List.filter (fun x => negb (x =s source)) (traverseLayoutItems l) = l1 ++ l2 /\ traverseLayoutItems (moveWidgetInLayout l source target) = l1 ++ source :: l2
          /\ (forall t, target = TWidget t -> t <> source -> t ∈ traverseLayoutItems l -> last l1 = Some t))).
Proof.
  intros Hl Hw Hs. split; [destruct (add_traverse l w row column Hl Hw) as (H1 & l1 & l2 & H2 & H3 & _); split; [done|]; by exists l1, l2|]. split; [by apply delete_traverse|]. split.
  - unfold duplicateWidgetInLayout. pose proof (put_traverse l source (fun i => new_item w (height i)) w Hl Hw (fun _ => eq_refl)) as H. destruct (put_in_rows _ _ l) as [k|]; [destruct H as [? ?]; by split; [|left]|].
    destruct (add_traverse l w None None Hl Hw) as (H1 & l1 & l2 & H2 & H3 & H4). split; [done|]. right. split; [done|]. rewrite H3, H2, (H4 eq_refl). by rewrite app_nil_r.
  - destruct (delete_traverse l source Hl) as [Hd Et]. unfold moveWidgetInLayout. cbv zeta. rewrite <- Et. destruct target as [i|i j|t].
    + destruct (add_traverse _ source (Some i) None Hd Hs) as (H1 & l1 & l2 & H2 & H3 & _). split; [done|]. by exists l1, l2.
    + destruct (add_traverse _ source (Some i) (Some j) Hd Hs) as (H1 & l1 & l2 & H2 & H3 & _). split; [done|]. by exists l1, l2.
    + pose proof (put_traverse (deleteWidgetFromLayout l source) t (fun _ => new_item source h_one) source Hd Hs (fun _ => eq_refl)) as H. destruct (put_in_rows _ _ _) as [k|].
      * destruct H as (H1 & a & b & H2 & H3). split; [done|]. exists (a ++ [t]), b. rewrite <- !app_assoc. split; [done|]. split; [done|]. intros t' [= <-] _ _. by rewrite last_snoc.
      * destruct (add_traverse _ source None None Hd Hs) as (H1 & l1 & l2 & H2 & H3 & H4). split; [done|]. exists l1, l2. split; [done|]. split; [done|]. intros t' [= <-] Hne Hin. exfalso. apply H. rewrite Et.
        apply list_elem_of_In, filter_In. split; [by apply list_elem_of_In | by apply negb_true_iff, String.eqb_neq].
Qed.

(** ** Translating there and back *)

Lemma insert_widget_perm w l : insert_widget w l ≡ₚ w :: l.
Proof. induction l as [|x l IH]; [done|]. cbn. destruct (_ <=? _)%Z; [done|]. rewrite IH. apply perm_swap. Qed.

Lemma sort_widgets_perm l : sort_widgets l ≡ₚ l.
Proof. induction l as [|w l IH]; [done|]. cbn. rewrite insert_widget_perm. by constructor. Qed.

Lemma sort_widgets_sorted l : StronglySorted (fun a b => (position a <= position b)%Z) (sort_widgets l).
Proof.
  induction l as [|w l IH]; [constructor|]. cbn [sort_widgets foldr]. fold (sort_widgets l). revert IH. generalize (sort_widgets l). clear l. intros l H. induction H as [|x l H IH Hx]; cbn; [by repeat constructor|].
  destruct (Z.leb_spec (position w) (position x)).
  - constructor; [by constructor|]. constructor; [done|]. eapply List.Forall_impl; [|exact Hx]. cbn. lia.
  - constructor; [done|]. rewrite insert_widget_perm. constructor; [lia | done].
Qed.

Definition packed_width (w : DashboardWidget) : LayoutWidth := if (w_width w =? 2)%Z then w_full else w_half.

(** A row is one wide widget, or one or two narrow ones. *)
Inductive packed_row : list LayoutWidth -> float -> Prop :=
  | packed_wide : packed_row [w_full] lit_1
  | packed_one : packed_row [w_half] lit_0_5
  | packed_two : packed_row [w_half; w_half] lit_1.

Definition place (w : DashboardWidget) : LayoutWidth * DashboardLayoutItem := (packed_width w, new_item (w_id w) h_one).

Lemma placed_app a b : placed (a ++ b) = placed a ++ placed b.
Proof. apply flat_map_app. Qed.

Definition column_placed (l : list DashboardLayoutColumn) : list (LayoutWidth * DashboardLayoutItem) := flat_map (fun c => map (pair (c_width c)) (items c)) l.

Lemma placed_cons r l : placed (r :: l) = column_placed (columns r) ++ placed l.
Proof. done. Qed.

Definition singles (l : list DashboardLayoutColumn) : Prop := Forall (fun c => exists i, items c = [i]) l.

Record packing_ok (p : Packing) (seen : list DashboardWidget) : Prop := {
  p_placed : placed (pack_rows p) = map place seen;
  p_done : Forall (fun r => singles (columns r) /\ exists u, packed_row (map c_width (columns r)) u) (done_rows p);
  p_open : forall l, open_row p = Some l -> singles l /\ packed_row (map c_width l) (used p) }.

Lemma packed_rows_ok p seen : packing_ok p seen -> Forall (fun r => singles (columns r) /\ exists u, packed_row (map c_width (columns r)) u) (pack_rows p).
Proof.
  intros [_ H1 H2]. unfold pack_rows. apply Forall_app. split; [done|]. destruct (open_row p) as [l|]; [|constructor]. destruct (H2 l eq_refl) as [? ?]. constructor; [|constructor]. cbn. split; [done | by eexists].
Qed.

Lemma pack_ok p seen w : packing_ok p seen -> packing_ok (pack p w) (seen ++ [w]).
Proof.
  intros Hp. pose proof (packed_rows_ok p seen Hp) as Hr. destruct Hp as [H1 H2 H3].
  assert (Hnew : packing_ok (mkPacking (pack_rows p) (Some [new_column (w_id w) (packed_width w)]) (fadd lit_0 (fractionForWidth (packed_width w)))) (seen ++ [w])).
  { split.
    - unfold pack_rows at 1. cbn [done_rows open_row]. rewrite placed_app, H1, map_app. done.
    - exact Hr.
    - intros l [= <-]. split; [by repeat econstructor|]. cbn. unfold packed_width. destruct (w_width w =? 2)%Z; constructor. }
  unfold pack. fold (packed_width w). cbv zeta. destruct (open_row p) as [l|] eqn:Eo; [|exact Hnew]. destruct (_ || _) eqn:E; [exact Hnew|]. clear Hnew.
  apply orb_false_iff in E as [E _]. destruct (H3 l eq_refl) as [Hs Hu]. split.
  - unfold pack_rows in *. cbn [done_rows open_row]. rewrite Eo in H1. rewrite placed_app, placed_cons in *. cbn [columns placed flat_map] in *. unfold column_placed in *. rewrite flat_map_app, map_app, <- H1. cbn. by rewrite !app_nil_r, !app_assoc.
  - exact H2.
  - intros l' [= <-]. split; [apply Forall_app; split; [done|]; by repeat econstructor|]. rewrite map_app. cbn [map c_width new_column used]. unfold packed_width in *. revert E.
    destruct (w_width w =? 2)%Z; inversion Hu as [E1 E2|E1 E2|E1 E2]; vm_compute (SFltb _ _); try done. intros _. vm_compute (fadd _ _). constructor.
Qed.

Lemma packed_all ws : packing_ok (fold_left pack ws (mkPacking [] None lit_0)) ws.
Proof.
  assert (G : forall ws p seen, packing_ok p seen -> packing_ok (fold_left pack ws p) (seen ++ ws)).
  { clear. induction ws as [|w ws IH]; intros p seen H; [by rewrite app_nil_r|]. cbn [fold_left]. replace (seen ++ w :: ws) with ((seen ++ [w]) ++ ws) by by rewrite <- app_assoc. by apply IH, pack_ok. }
  apply (G ws _ []). split; [done | constructor | done].
Qed.

(** Repair widens a lone narrow widget and leaves everything else as it is. *)
Lemma packed_fixed_row l u : singles l -> packed_row (map c_width l) u -> Forall2 (fun a b => b.2 = a.2 /\ (a.1 = w_full -> b.1 = w_full)) (column_placed l) (column_placed (normalize l)).
Proof.
  intros Hs Hp. rewrite normalize_widths. unfold column_placed. remember (map c_width l) as ws eqn:Ew. destruct Hp; destruct l as [|c [|c' [|? ?]]]; try done; cbn [map] in Ew; apply Forall_cons in Hs as [[i Hi] Hs].
  - injection Ew as E1. vm_compute (norm_widths _). cbn. rewrite Hi. by repeat constructor.
  - injection Ew as E1. vm_compute (norm_widths _). cbn. rewrite Hi. by repeat constructor.
  - injection Ew as E1 E2. apply Forall_cons in Hs as [[i' Hi'] _]. vm_compute (norm_widths _). cbn. rewrite Hi, Hi', <- E1, <- E2. by repeat constructor.
Qed.

Lemma packed_fixed l : Forall (fun r => singles (columns r) /\ exists u, packed_row (map c_width (columns r)) u) l -> Forall (fun w => truthy w = true) (traverseLayoutItems l) ->
  few_columns l /\ Forall2 (fun a b => b.2 = a.2 /\ (a.1 = w_full -> b.1 = w_full)) (placed l) (placed (autofixWidgets l)).
Proof.
  induction 1 as [|r l (Hs & u & Hp) _ IH]; intros Ht; [split; constructor|]. rewrite traverse_cons in Ht. apply Forall_app in Ht as [Ht1 Ht2]. destruct (IH Ht2) as [H1 H2]. split.
  - constructor; [|done]. rewrite <- (length_map c_width). unfold maxColumnsPerRow. inversion Hp; cbn; lia.
  - rewrite autofix_cons.
    + rewrite !placed_cons. apply Forall2_app; [|done]. by eapply packed_fixed_row.
    + clear -Hs Ht1. induction Hs as [|c k [i Hi] _ IH]; [constructor|]. cbn in Ht1. apply Forall_app in Ht1 as [Hc%Forall_map ?]. constructor; [|by apply IH]. split; [by rewrite Hi | exact Hc].
    + intros E. rewrite E in Hp. inversion Hp.
Qed.

Lemma flatten_spec ws l byId pos : Forall2 (fun w e => map_get (widgetId e.2) byId = Some w) ws l ->
  map (fun o => (w_id o, config o)) (flatten pos l byId) = map (fun o => (w_id o, config o)) ws /\ map position (flatten pos l byId) = seqZ pos (Z.of_nat (length ws))
  /\ Forall2 (fun e o => w_width o = wide e.1) l (flatten pos l byId).
Proof.
  intros H. revert pos. induction H as [|w [cw i] ws l Hw _ IH]; intros pos; [done|]. cbn [flatten]. cbn [snd] in Hw. rewrite Hw. destruct (IH (pos + 1)%Z) as (H1 & H2 & H3). cbn [map length w_id config position]. split; [by rewrite H1|]. split.
  - rewrite H2. rewrite (seqZ_cons pos) by lia. f_equal. f_equal; lia.
  - by constructor.
Qed.

Lemma traverse_placed l : traverseLayoutItems l = map (fun e => widgetId e.2) (placed l).
Proof.
  induction l as [|r l IH]; [done|]. rewrite traverse_cons, placed_cons, map_app, IH. f_equal. unfold column_ids, column_placed. induction (columns r) as [|c k IHk]; [done|]. cbn. rewrite map_app, map_map, IHk. done.
Qed.

(** C31 (dashboard_roundtrip).  Shown as a layout and stored again, a dashboard has the same widgets in the order of their positions, numbered from zero, each with its contents, and wide ones are still wide; the layout in between is well
    formed. *)
Theorem dashboard_roundtrip ws : NoDup (map w_id ws) -> Forall (fun w => truthy (w_id w) = true) ws ->
  let out := layoutToWidgets (widgetsToLayout ws) (index_by w_id (fun w => w) ws) in
  wf_layout (widgetsToLayout ws)
  /\ map (fun o => (w_id o, config o)) out = map (fun o => (w_id o, config o)) (sort_widgets ws)
  /\ map position out = seqZ 0 (Z.of_nat (length ws))
  /\ Forall2 (fun w o => w_width w = 2%Z -> w_width o = 2%Z) (sort_widgets ws) out.
Proof.
  intros Hn Ht out. set (p := fold_left pack (sort_widgets ws) (mkPacking [] None lit_0)). pose proof (packed_all (sort_widgets ws)) as Hp. fold p in Hp. pose proof (packed_rows_ok _ _ Hp) as Hr. destruct Hp as [Hp _ _].
  assert (Hts : Forall (fun w => truthy w = true) (traverseLayoutItems (pack_rows p))).
  { rewrite traverse_placed, Hp, map_map. cbn. apply Forall_map. by rewrite sort_widgets_perm. }
  destruct (packed_fixed _ Hr Hts) as [Hf H2]. change (autofixWidgets (pack_rows p)) with (widgetsToLayout ws) in H2. split; [by apply autofix_wf|].
  assert (Hget : Forall2 (fun w e => map_get (widgetId e.2) (index_by w_id (fun w => w) ws) = Some w) (sort_widgets ws) (placed (widgetsToLayout ws))).
  { rewrite Hp in H2. assert (Hsub : Forall (fun w => In w ws) (sort_widgets ws)) by (rewrite sort_widgets_perm; by apply List.Forall_forall). revert H2 Hsub. generalize (placed (widgetsToLayout ws)). generalize (sort_widgets ws). clear -Hn.
    induction l as [|w l IH]; intros l' H Hs; inversion H as [|? b ? ? [E _] H']; subst; constructor; apply Forall_cons in Hs as [Hw Hs]; [|by apply IH]. rewrite E. apply index_by_get; [done|]. by exists w. }
  destruct (flatten_spec _ _ _ 0 Hget) as (E1 & E2 & E3). split; [exact E1|]. split; [rewrite <- (Permutation_length (sort_widgets_perm ws)); exact E2|].
  unfold out, layoutToWidgets. rewrite Hp in H2. revert E3 H2. generalize (flatten 0 (placed (widgetsToLayout ws)) (index_by w_id (fun w => w) ws)). generalize (placed (widgetsToLayout ws)). generalize (sort_widgets ws). clear.
  induction l as [|w l IH]; intros pl fl E3 H2; inversion H2 as [|? b ? ? [_ E] H']; subst; inversion E3 as [|? o ? ? Ew H'']; subst; constructor; [|by eapply IH]. intros Hw. rewrite Ew, E; [done|]. cbn. unfold packed_width. by rewrite Hw.
Qed.

(** ** Examples *)

Module Demo.
Definition widgets : list DashboardWidget := [mkWidget "c" 2 2 "C"; mkWidget "a" 0 1 "A"; mkWidget "b" 1 1 "B"; mkWidget "d" 3 1 "D"].
Definition layout : DashboardWidgetLayout := widgetsToLayout widgets.

Lemma dashboard_roundtrip_witness :
  map (fun r => (r_id r, map (fun c => (c_width c, map widgetId (items c))) (columns r))) layout = [("row_0", [(w_half, ["a"]); (w_half, ["b"])]); ("row_1", [(w_full, ["c"])]); ("row_2", [(w_full, ["d"])])]
  /\ map position (layoutToWidgets layout (index_by w_id (fun w => w) widgets)) = seqZ 0 4.
Proof.
  split; [vm_compute; reflexivity|]. apply (dashboard_roundtrip widgets).
  - apply (bool_decide_eq_true_1 (NoDup (map w_id widgets))). vm_compute. reflexivity.
  - unfold widgets. repeat (apply Forall_cons_2; [reflexivity|]). apply Forall_nil_2.
Defined.

Lemma layout_wf : wf_layout layout.
Proof.
  apply autofix_wf. assert (E : forallb (fun r => (length (columns r) <=? maxColumnsPerRow)%nat) (pack_rows (fold_left pack (sort_widgets widgets) (mkPacking [] None lit_0))) = true) by (vm_compute; reflexivity).
  rewrite forallb_forall in E. apply List.Forall_forall. intros r Hr. by apply Nat.leb_le, E.
Qed.

Lemma dashboard_layout_sound_witness :
  traverseLayoutItems (moveWidgetInLayout layout "d" (TWidget "a")) = ["a"; "d"; "b"; "c"] /\ wf_layout (moveWidgetInLayout layout "d" (TWidget "a")).
Proof. split; [vm_compute; reflexivity|]. apply (dashboard_layout_sound layout "x" None None "d" (TWidget "a") layout_wf eq_refl eq_refl). Defined.

(** A row that the repair has balanced does not fill the row, and the next repair changes it again. *)
Lemma repair_drifts :
  let w r := map c_width (columns r) in
  let row l := [mkRow "row_0" (map (fun e => mkColumn e.1 e.2 [new_item e.1 h_one]) l)] in
  map w (autofixWidgets (row [("a", w_full); ("b", w_one); ("c", w_one)])) = [[w_two_thirds; w_one; w_one]]
  /\ map w (autofixWidgets (autofixWidgets (row [("a", w_full); ("b", w_one); ("c", w_one)]))) = [[w_half; w_one; w_one]].
Proof. vm_compute. done. Qed.

(** The names of rows are counted, not remembered: after a deletion an added row has the name of another. *)
Lemma row_names_collide :
  map r_id (addWidgetToLayout (deleteWidgetFromLayout (addWidgetToLayout (addWidgetToLayout [] "a" None None) "b" None None) "a") "c" None None) = ["row_1"; "row_1"].
Proof. vm_compute. done. Qed.

(** A drop on a row counts the rows after the source is gone: a widget alone in the first row that is dropped on the second one lands in the third. *)
Lemma drop_misses_row :
  let l := addWidgetToLayout (addWidgetToLayout (addWidgetToLayout [] "a" None None) "b" None None) "c" None None in
  map (fun r => column_ids (columns r)) (moveWidgetInLayout l "a" (TRow 1)) = [["b"]; ["c"; "a"]].
Proof. vm_compute. done. Qed.
End Demo.
