(* ===== verification/SessionStream.v ===== *)
(** * The stream of a coding session
      (web/src/components/coding-sessions/coding-session-stream-model.ts)

    The activities of a session become the items of a stream: thoughts and actions fold into groups, prompts open
    turns, commits are shown at their turn.  An activity is an object; [ref] is its identity, which the code compares.
    What the browser knows of dates (parsing, the calendar day) is a parameter. *)

From Stdlib Require Import ZArith Lia Bool List.
From stdpp Require Import base list strings.
From S2P Require Import Prelude JsString JsMap Json.

Local Set Warnings "-register-all".

(** ** Activities *)

Record Activity := mkActivity {
  ref : nat; a_id : string; a_type : string; body : string; createdAt : string; ephemeral : bool; signal : option string;
  option_count : nat; deleted_id : option string (* metadata.activityId *); errorCode : option string }.

Definition SHOWN_TYPES : list string := ["prompt"; "thought"; "action"; "response"; "elicitation"; "error"].

Definition same (a b : Activity) : bool := (ref a =? ref b)%nat.
Definition is_type (t : string) (a : Activity) : bool := a_type a =s t.

Definition isCodingSessionGenerating (state : string) (phase : option string) : bool :=
  ((state =s "pending") || (state =s "active")) && negb (bool_decide (phase = Some "awaitingApproval")).

(** The predicate of the last filter, with the activity that follows. *)
Definition stays (latestAgent : option Activity) (a : Activity) (next : option Activity) : bool :=
  if ephemeral a && negb (match latestAgent with Some l => same a l | None => false end) then false
  else negb (is_type "thought" a && match next with Some n => is_type "response" n && (trim (body n) =s trim (body a)) | None => false end).

Fixpoint filter_next (p : Activity -> option Activity -> bool) (l : list Activity) : list Activity :=
  match l with
  | [] => []
  | a :: r => if p a (head r) then a :: filter_next p r else filter_next p r
  end.

Definition shown_activities (activities : list Activity) : list Activity :=
  let deleted := map deleted_id (List.filter (is_type "deleted") activities) in
  List.filter (fun a => existsb (String.eqb (a_type a)) SHOWN_TYPES && negb (bool_decide (Some (a_id a) ∈ deleted))) activities.

Definition visibleActivities (activities : list Activity) : list Activity :=
  let shown := shown_activities activities in
  let latestAgent := List.find (fun a => negb (is_type "prompt" a)) (rev shown) in
  filter_next (stays latestAgent) shown.

(** ** Items *)

(** What a group holds: a step of the run, or several actions folded. *)
Inductive Step := SAction (a : Activity) (loading : bool) | SReasoning (a : Activity) | SQuestion (a : Activity).
Inductive GroupChild := GStep (s : Step) | GTools (id : string) (actions : list Step).

Inductive StreamItem :=
  | IPrompt (a : Activity) (stop : bool)
  | IText (a : Activity)
  | IAuth (a : Activity)
  | IError (a : Activity)
  | IStep (s : Step)
  | IGroup (id : string) (children : list GroupChild) (loading : bool) (startedAt endedAt : option string) (live : option Activity) (promoted : option string)
  | IThinking.

Definition step_activity (s : Step) : Activity := match s with SAction a _ | SReasoning a | SQuestion a => a end.
Definition loading_action (s : Step) : bool := match s with SAction _ l => l | _ => false end.
Definition reasoning (s : Step) : bool := match s with SReasoning _ => true | _ => false end.

Definition MAX_GROUP_CHILDREN : nat := 20.
Definition PROMOTED_LENGTH : nat := 280.

(** [flush] of a run of finished actions. *)
Definition fold_run (run : list Step) : list GroupChild :=
  match run with
  | x :: _ :: _ => [GTools ("tools-" +:+ a_id (step_activity x)) run]
  | _ => map GStep run
  end.

Fixpoint fold_loop (children : list Step) (run : list Step) (folded : list GroupChild) : list GroupChild :=
  match children with
  | [] => folded ++ fold_run run
  | SAction a false :: r => fold_loop r (run ++ [SAction a false]) folded
  | s :: r => fold_loop r [] (folded ++ fold_run run ++ [GStep s])
  end.

Definition foldTools (children : list Step) : list GroupChild :=
  if (length children <=? MAX_GROUP_CHILDREN)%nat then map GStep children else fold_loop children [] [].

Definition isChoiceQuestion (a : Activity) : bool := is_type "elicitation" a && bool_decide (signal a = Some "select") && (0 <? option_count a)%nat.

Definition or_undefined (s : string) : option string := if truthy s then Some s else None.

Definition promote (text : string) : string := if (PROMOTED_LENGTH <? String.length text)%nat then slice 0 (PROMOTED_LENGTH - 1) text +:+ "…" else text.

Section Build.
Context (generating : bool) (last_shown : option Activity).

Definition is_last (a : Activity) : bool := match last_shown with Some l => same a l | None => false end.

Definition run_loading (run : list Step) : bool :=
  existsb loading_action run || (generating && match last run with Some s => is_last (step_activity s) | None => false end).

(** [flush(nextIsText)]: a lone step stays alone, a run becomes a group. *)
Definition flush (nextIsText : bool) (run : list Step) : list StreamItem :=
  match run with
  | [] => []
  | first :: more =>
      let loading := run_loading run in
      if bool_decide (more = []) && negb loading && negb (reasoning first && nextIsText) then [IStep first]
      else
        let live := if loading then option_map step_activity (List.find (fun s => match s with SAction a _ => is_last a | _ => false end) (rev run)) else None in
        let thought := option_map (fun s => trim (body (step_activity s))) (List.find reasoning (rev run)) in
        [IGroup ("group-" +:+ a_id (step_activity first)) (foldTools run) loading
           (or_undefined (createdAt (step_activity first))) (or_undefined (createdAt (step_activity (default first (last run))))) live
           (match thought with Some t => if loading && truthy t then Some (promote t) else None | None => None end)]
  end.

Definition text_like (a : Activity) : bool := is_type "response" a || (is_type "elicitation" a && negb (bool_decide (signal a = Some "auth"))).

Definition plain_item (a : Activity) : StreamItem :=
  if is_type "prompt" a then IPrompt a (bool_decide (signal a = Some "stop"))
  else if is_type "error" a then IError a
  else if is_type "elicitation" a && bool_decide (signal a = Some "auth") then IAuth a
  else IText a.

Definition step_of (a : Activity) : option Step :=
  if is_type "thought" a then Some (SReasoning a)
  else if is_type "action" a then Some (SAction a (generating && is_last a))
  else if isChoiceQuestion a then Some (SQuestion a)
  else None.

Fixpoint build_loop (l : list Activity) (run : list Step) : list StreamItem :=
  match l with
  | [] => flush false run
  | a :: r =>
      match step_of a with
      | Some s => build_loop r (run ++ [s])
      | None => flush (text_like a) run ++ plain_item a :: build_loop r []
      end
  end.
End Build.

Definition loading_group (i : StreamItem) : bool := match i with IGroup _ _ l _ _ _ _ => l | _ => false end.

Definition buildStreamItems (activities : list Activity) (generating : bool) : list StreamItem :=
  let shown := visibleActivities activities in
  let items := build_loop generating (last shown) shown [] in
  items ++ if generating && negb (match last items with Some t => loading_group t | None => false end) then [IThinking] else [].

(** ** Turns *)

Record StreamTurn := mkTurn { t_id : string; prompt : option StreamItem; t_items : list StreamItem; at_time : option string; showTime : bool }.

Definition is_prompt (i : StreamItem) : bool := match i with IPrompt _ _ => true | _ => false end.

Definition item_time (i : StreamItem) : option string :=
  match i with
  | IPrompt a _ | IText a | IError a | IAuth a => or_undefined (createdAt a)
  | IStep s => or_undefined (createdAt (step_activity s))
  | IGroup _ _ _ startedAt _ _ _ => match startedAt with Some s => or_undefined s | None => None end
  | IThinking => None
  end.

Definition open_turn (i : StreamItem) : StreamTurn :=
  match i with
  | IPrompt a _ => mkTurn (a_id a) (Some i) [] (item_time i) false
  | _ => mkTurn "start" None [i] (item_time i) false
  end.

(** [turns.at(-1)!.items.push(item)] *)
Definition push_item (i : StreamItem) (t : StreamTurn) : StreamTurn := mkTurn (t_id t) (prompt t) (t_items t ++ [i]) (at_time t) (showTime t).

Fixpoint turn_loop (items : list StreamItem) (current : option StreamTurn) : list StreamTurn :=
  match items, current with
  | [], None => []
  | [], Some t => [t]
  | i :: r, None => turn_loop r (Some (open_turn i))
  | i :: r, Some t => if is_prompt i then t :: turn_loop r (Some (open_turn i)) else turn_loop r (Some (push_item i t))
  end.

Section Dates.
Context (parse_date : string -> option Z) (day_of : Z -> string).

Definition HALF_DAY : Z := 12 * 60 * 60 * 1000.

Definition with_showTime (b : bool) (t : StreamTurn) : StreamTurn := mkTurn (t_id t) (prompt t) (t_items t) (at_time t) b.

Fixpoint mark_times (first : bool) (previous : option Z) (turns : list StreamTurn) : list StreamTurn :=
  match turns with
  | [] => []
  | t :: r =>
      match match at_time t with Some s => parse_date s | None => None end with
      | None => with_showTime (first && bool_decide (previous = None) && isSome (at_time t)) t :: mark_times false previous r
      | Some time =>
          with_showTime (match previous with None => true | Some p => (HALF_DAY <? time - p)%Z || negb (day_of time =s day_of p) end) t :: mark_times false (Some time) r
      end
  end.

Definition buildStreamTurns (items : list StreamItem) : list StreamTurn := mark_times true None (turn_loop items None).
End Dates.

(** ** Commits *)

Section Commits.
Context {Commit : Type}.

Definition turn_keys (session : string) (turns : list StreamTurn) : list (string * string) :=
  (fold_left (fun (s : bool * list (string * string)) t =>
     let m := match prompt t with Some (IPrompt a _) => map_set (a_id a) (t_id t) s.2 | _ => s.2 end in
     (false, if s.1 then map_set ("turn_" +:+ session) (t_id t) m else m)) turns (true, [])).2.

Definition commitsByTurn (turns : list StreamTurn) (session : string) (commitsByTurnActivityId : list (string * list Commit)) : list (string * list Commit) :=
  let entries := List.filter (fun e => negb (bool_decide (length e.2 = 0%nat))) commitsByTurnActivityId in
  match last turns with
  | None => []
  | Some final =>
      let keys := turn_keys session turns in
      fold_left (fun m e => let turn := map_get e.1 keys ?? t_id final in map_set turn ((map_get turn m ?? []) ++ e.2) m) entries []
  end.
End Commits.

(** ** Durations *)

Inductive DurationUnit := second | minute | hour | day | week.

(** [Math.round(a / b)] for a positive [b]: halves upwards. *)
Definition round_div (a b : Z) : Z := ((2 * a + b) / (2 * b))%Z.

Definition durationParts (ms : Z) : Z * DurationUnit :=
  let seconds := Z.max 1 (round_div ms 1000) in
  if (seconds <? 60)%Z then (seconds, second)
  else
    let minutes := round_div seconds 60 in
    if (minutes <? 60)%Z then (minutes, minute)
    else if (seconds <? 8 * 3600)%Z then
      let hours := (seconds / 3600)%Z in (if (40 * 60 <=? seconds - hours * 3600)%Z then hours + 1 else hours, hour)%Z
    else if (seconds <? 86400)%Z then (round_div seconds 3600, hour)
    else
      let days := round_div seconds 86400 in
      if (days <? 7)%Z then (days, day) else (round_div days 7, week).

(** ** The rest of the page *)

Inductive PlanStatus := inProgress | planPending | planDone.

Definition currentPlanStep {A} (status : A -> PlanStatus) (plan : list A) : option (nat * A) :=
  let found p := findIndex p plan in
  let index := match found (fun s => match status s with inProgress => true | _ => false end) with
               | Some i => i
               | None => match found (fun s => match status s with planPending => true | _ => false end) with Some i => i | None => length plan - 1 end
               end in
  option_map (pair index) (plan !! index).

Definition pendingElicitation (activities : list Activity) : option Activity :=
  match List.find (fun a => is_type "prompt" a || is_type "elicitation" a) (rev (visibleActivities activities)) with
  | Some a => if is_type "prompt" a then None else Some a
  | None => None
  end.

Definition stopRequested (state : string) (requested : bool) : bool := (state =s "stopping") || (requested && ((state =s "active") || (state =s "pending"))).

Definition LEFTOVER_HEAD : string := "Flow did not commit ".
Definition LEFTOVER_TAIL : string := " path(s) that already had uncommitted changes before this turn".

(** The number in a report; [\d+] takes all digits. *)
Definition leftover_report (text : string) : option Z :=
  if startsWith LEFTOVER_HEAD text then
    let (digits, rest) := take_digits (slice_from (String.length LEFTOVER_HEAD) text) in
    if truthy digits && startsWith LEFTOVER_TAIL rest then digits_value digits else None
  else None.

Definition item_thoughts (i : StreamItem) : list Activity :=
  match i with
  | IStep (SReasoning a) => [a]
  | IGroup _ children _ _ _ _ _ => flat_map (fun c => match c with GStep (SReasoning a) => [a] | _ => [] end) children
  | _ => []
  end.

Definition leftoverPathCount (items : list StreamItem) : Z :=
  fold_left (fun n a => match leftover_report (trim (body a)) with Some k => k | None => n end) (flat_map item_thoughts items) 0%Z.

Inductive ErrorVariant := signingKey | codeAccess | connect | awaiting | generic.

Definition errorVariant (code : option string) (viewerIsCreator : bool) : ErrorVariant :=
  match code with
  | Some c =>
      if c =s "missingCommitSigningKey" then signingKey
      else if existsb (String.eqb c) ["noCodeAccess"; "noGitHubConnection"; "noGitLabConnection"] then codeAccess
      else if existsb (String.eqb c) ["requiresGithubConnection"; "requiresGitlabConnection"; "personalAccessDenied"] then (if viewerIsCreator then connect else awaiting)
      else generic
  | None => generic
  end.

Inductive CardStatus := c_draft | c_open | c_inReview | c_approved | c_merged | c_closed.

Definition pullRequestCardStatus (state : string) (draft : bool) (review : option (string * bool)) : CardStatus :=
  let review_is s := match review with Some (st, _) => st =s s | None => false end in
  if (state =s "merged") || review_is "merged" then c_merged
  else if (state =s "closed") || review_is "closed" then c_closed
  else if draft || match review with Some (_, d) => d | None => false end then c_draft
  else if review_is "approved" then c_approved
  else if review_is "inReview" then c_inReview
  else c_open.

(** ** Nothing is lost on the way to the page *)

Definition child_activities (c : GroupChild) : list Activity := match c with GStep s => [step_activity s] | GTools _ l => map step_activity l end.

Definition item_activities (i : StreamItem) : list Activity :=
  match i with
  | IPrompt a _ | IText a | IAuth a | IError a => [a]
  | IStep s => [step_activity s]
  | IGroup _ children _ _ _ _ _ => flat_map child_activities children
  | IThinking => []
  end.

Lemma steps_activities l : flat_map child_activities (map GStep l) = map step_activity l.
Proof. induction l as [|s l IH]; [done|]. cbn. by rewrite IH. Qed.

Lemma fold_run_activities run : flat_map child_activities (fold_run run) = map step_activity run.
Proof. unfold fold_run. destruct run as [|x [|y run]]; [done | done|]. cbn. by rewrite app_nil_r. Qed.

Lemma fold_loop_activities children run folded :
  flat_map child_activities (fold_loop children run folded) = flat_map child_activities folded ++ map step_activity run ++ map step_activity children.
Proof.
  revert run folded. induction children as [|s r IH]; intros run folded; cbn [fold_loop]; [by rewrite flat_map_app, fold_run_activities, app_nil_r|].
  assert (Hs : forall s, flat_map child_activities (fold_loop r [] (folded ++ fold_run run ++ [GStep s])) = flat_map child_activities folded ++ map step_activity run ++ map step_activity (s :: r)).
  { intros s0. rewrite IH, !flat_map_app, fold_run_activities. cbn. by rewrite <- !app_assoc. }
  destruct s as [a [|]|a|a]; try apply Hs. rewrite IH, map_app. cbn. by rewrite <- !app_assoc.
Qed.

Lemma foldTools_activities l : flat_map child_activities (foldTools l) = map step_activity l.
Proof. unfold foldTools. destruct (_ <=? _)%nat; [apply steps_activities | apply (fold_loop_activities l [] [])]. Qed.

Lemma flush_activities g la b run : flat_map item_activities (flush g la b run) = map step_activity run.
Proof.
  unfold flush. destruct run as [|first more]; [done|]. destruct (_ && _ && _) eqn:E.
  - rewrite !andb_true_iff in E. destruct E as [[E%bool_decide_eq_true_1 _] _]. by rewrite E.
  - cbn [flat_map item_activities]. by rewrite foldTools_activities, app_nil_r.
Qed.

Lemma step_of_activity g la a s : step_of g la a = Some s -> step_activity s = a.
Proof. unfold step_of. destruct (is_type "thought" a); [by intros [= <-]|]. destruct (is_type "action" a); [by intros [= <-]|]. destruct (isChoiceQuestion a); [by intros [= <-] | done]. Qed.

Lemma plain_activity a : item_activities (plain_item a) = [a].
Proof. unfold plain_item. destruct (is_type _ a); [done|]. destruct (is_type _ a); [done|]. by destruct (_ && _). Qed.

Lemma build_activities g la l run : flat_map item_activities (build_loop g la l run) = map step_activity run ++ l.
Proof.
  revert run. induction l as [|a l IH]; intros run; cbn [build_loop]; [by rewrite flush_activities, app_nil_r|]. destruct (step_of g la a) as [s|] eqn:E.
  - rewrite IH, map_app. cbn. rewrite (step_of_activity _ _ _ _ E), <- app_assoc. done.
  - rewrite flat_map_app, flush_activities. cbn [flat_map]. by rewrite plain_activity, IH.
Qed.

(** *** The shape of the items *)

Definition work (i : StreamItem) : bool := match i with IStep _ | IGroup _ _ _ _ _ _ _ => true | _ => false end.
Definition live_item (i : StreamItem) : bool := match i with IStep s => loading_action s | IGroup _ _ l _ _ _ _ => l | IThinking => true | _ => false end.

(** Work is folded: no two items of work stand next to each other. *)
Fixpoint separated (l : list StreamItem) : bool :=
  match l with x :: ((y :: _) as r) => negb (work x && work y) && separated r | _ => true end.

Lemma separated_cons x y l : separated (x :: y :: l) = negb (work x && work y) && separated (y :: l).
Proof. done. Qed.

Lemma flush_cases g la b run : flush g la b run = [] \/ exists i, flush g la b run = [i] /\ work i = true.
Proof. unfold flush. destruct run as [|first more]; [by left|]. right. destruct (_ && _ && _); by eexists. Qed.

Lemma plain_not_work a : work (plain_item a) = false /\ live_item (plain_item a) = false.
Proof. unfold plain_item. destruct (is_type _ a); [done|]. destruct (is_type _ a); [done|]. by destruct (_ && _). Qed.

Lemma build_separated g la l run : separated (build_loop g la l run) = true.
Proof.
  revert run. induction l as [|a l IH]; intros run; cbn [build_loop].
  - destruct (flush_cases g la false run) as [->|(i & -> & _)]; done.
  - destruct (step_of g la a) as [s|]; [apply IH|]. assert (H : separated (plain_item a :: build_loop g la l []) = true).
    { specialize (IH []). cbn. destruct (plain_not_work a) as [-> _]. by destruct (build_loop g la l []). }
    destruct (flush_cases g la (text_like a) run) as [->|(i & -> & _)]; [exact H|]. cbn [app]. rewrite separated_cons, H. destruct (plain_not_work a) as [-> _]. by rewrite andb_false_r.
Qed.

(** Only the end of the stream is live, as only the last activity is. *)
Lemma flush_not_live g la b run : Forall (fun s => is_last la (step_activity s) = false /\ loading_action s = false) run -> Forall (fun i => live_item i = false) (flush g la b run).
Proof.
  intros H. unfold flush. destruct run as [|first more]; [constructor|].
  assert (Hl : run_loading g la (first :: more) = false).
  { unfold run_loading. apply orb_false_iff. split.
    - apply not_true_iff_false. intros (s & Hs & E)%existsb_exists. destruct (proj1 (List.Forall_forall _ _) H s Hs). congruence.
    - destruct (last (first :: more)) as [s|] eqn:E; [|apply andb_false_r]. apply andb_false_iff. right. apply (proj1 (List.Forall_forall _ _) H s). apply last_Some in E as [l' ->]. apply in_app_iff. right. by left. }
  rewrite Hl. apply Forall_cons in H as [[_ Hf] _]. destruct (_ && _ && _); (apply Forall_cons_2; [done | apply Forall_nil_2]).
Qed.

Lemma step_of_not_live g la a s : step_of g la a = Some s -> is_last la a = false -> is_last la (step_activity s) = false /\ loading_action s = false.
Proof.
  intros H Hl. rewrite (step_of_activity _ _ _ _ H). split; [done|]. unfold step_of in H. destruct (is_type "thought" a); [by injection H as <-|]. destruct (is_type "action" a); [injection H as <-; cbn; rewrite Hl; apply andb_false_r|].
  destruct (isChoiceQuestion a); [by injection H as <- | done].
Qed.

Lemma build_live g la l run : Forall (fun s => is_last la (step_activity s) = false /\ loading_action s = false) run ->
  (forall pre a post, l = pre ++ a :: post -> post <> [] -> is_last la a = false) ->
  exists init tail, build_loop g la l run = init ++ tail /\ Forall (fun i => live_item i = false) init /\ (length tail <= 1)%nat.
Proof.
  revert run. induction l as [|a l IH]; intros run Hr Hl; cbn [build_loop].
  - exists (flush g la false run), []. rewrite app_nil_r. split; [done|]. split; [by apply flush_not_live | cbn; lia].
  - assert (Hl' : forall pre a0 post, l = pre ++ a0 :: post -> post <> [] -> is_last la a0 = false) by (intros pre a0 post E; apply (Hl (a :: pre)); by rewrite E).
    destruct (step_of g la a) as [s|] eqn:E.
    + destruct l as [|a' l].
      * cbn [build_loop]. destruct (flush_cases g la false (run ++ [s])) as [->|(i & -> & _)]; [exists [], [] | exists [], [i]]; repeat split; try constructor; cbn; lia.
      * apply IH; [|done]. apply Forall_app. split; [done|]. constructor; [|constructor]. eapply step_of_not_live; [exact E|]. by apply (Hl [] a (a' :: l)).
    + destruct (IH [] ltac:(constructor) Hl') as (init & tail & -> & H1 & H2). exists (flush g la (text_like a) run ++ plain_item a :: init), tail. rewrite <- app_assoc. split; [done|]. split; [|done].
      apply Forall_app. split; [by apply flush_not_live|]. constructor; [apply plain_not_work | done].
Qed.

(** What is live in front of the last row is a group. *)
Lemma build_live_group g la l run : Forall (fun i => live_item i = true -> loading_group i = true) (build_loop g la l run).
Proof.
  assert (Hf : forall b run, Forall (fun i => live_item i = true -> loading_group i = true) (flush g la b run)).
  { intros b r. unfold flush. destruct r as [|first more]; [constructor|]. destruct (_ && _ && _) eqn:E; (apply Forall_cons_2; [|apply Forall_nil_2]); [|done].
    rewrite !andb_true_iff in E. destruct E as [[_ E%negb_true_iff] _]. unfold run_loading in E. apply orb_false_iff in E as [E _]. cbn in E. apply orb_false_iff in E as [E _]. cbn. congruence. }
  revert run. induction l as [|a l IH]; intros run; cbn [build_loop]; [apply Hf|]. destruct (step_of g la a); [apply IH|]. apply Forall_app. split; [apply Hf|]. constructor; [|apply IH]. destruct (plain_not_work a) as [_ ->]. done.
Qed.

(** *** Turns *)

Definition turn_all (t : StreamTurn) : list StreamItem := match prompt t with Some p => [p] | None => [] end ++ t_items t.

(** A turn has an item, its prompt in front when it has one, and no other prompt. *)
Definition turn_ok (t : StreamTurn) : Prop :=
  turn_all t <> [] /\ Forall (fun i => is_prompt i = false) (t_items t) /\ match prompt t with Some p => is_prompt p = true | None => True end.

Lemma open_turn_ok i : turn_all (open_turn i) = [i] /\ turn_ok (open_turn i) /\ (is_prompt i = true -> isSome (prompt (open_turn i)) = true).
Proof. by destruct i; repeat split; repeat constructor. Qed.

Lemma push_item_ok i t : is_prompt i = false -> turn_ok t -> turn_all (push_item i t) = turn_all t ++ [i] /\ turn_ok (push_item i t).
Proof. intros Hi (H0 & H1 & H2). unfold turn_all in *. cbn. rewrite app_assoc. split; [done|]. split; [unfold turn_all; cbn; intros E; apply (f_equal length) in E; rewrite !length_app in E; cbn in E; lia|]. split; [|done]. apply Forall_app. split; [done | by repeat constructor]. Qed.

Lemma turn_loop_head items t : exists h rest, turn_loop items (Some t) = h :: rest /\ prompt h = prompt t.
Proof. revert t. induction items as [|i items IH]; intros t; cbn [turn_loop]; [by exists t, []|]. destruct (is_prompt i); [by eexists _, _ | apply (IH (push_item i t))]. Qed.

(** The turns are the items cut in front of each prompt. *)
Lemma turn_loop_spec items current : match current with Some t => turn_ok t | None => True end ->
  flat_map turn_all (turn_loop items current) = match current with Some t => turn_all t | None => [] end ++ items
  /\ Forall turn_ok (turn_loop items current) /\ Forall (fun t => isSome (prompt t) = true) (tl (turn_loop items current)).
Proof.
  revert current. induction items as [|i items IH]; intros [t|] Ht; cbn [turn_loop].
  - cbn. split; [done|]. split; [by constructor | constructor].
  - split; [done|]. split; constructor.
  - destruct (is_prompt i) eqn:Ei.
    + destruct (open_turn_ok i) as (O1 & O2 & O3). destruct (IH (Some (open_turn i)) O2) as (H1 & H2 & H4). cbn [flat_map tl]. rewrite H1, O1. split; [done|]. split; [by constructor|].
      destruct (turn_loop_head items (open_turn i)) as (h & rest & E & Ep). rewrite E in *. constructor; [rewrite Ep; by apply O3 | done].
    + destruct (push_item_ok i t Ei Ht) as [P1 P2]. destruct (IH (Some (push_item i t)) P2) as (H1 & H2 & H4). rewrite H1, P1, <- app_assoc. done.
  - destruct (open_turn_ok i) as (O1 & O2 & O3). destruct (IH (Some (open_turn i)) O2) as (H1 & H2 & H4). rewrite H1, O1. done.
Qed.

Lemma mark_times_same parse day first previous turns :
  map turn_all (mark_times parse day first previous turns) = map turn_all turns /\ map prompt (mark_times parse day first previous turns) = map prompt turns /\ map t_id (mark_times parse day first previous turns) = map t_id turns.
Proof.
  revert first previous. induction turns as [|t r IH]; intros first previous; [done|]. cbn [mark_times]. destruct (match at_time t with Some s => parse s | None => None end) as [time|].
  - destruct (IH false (Some time)) as (H1 & H2 & H3). cbn [map]. rewrite H1, H2, H3. done.
  - destruct (IH false previous) as (H1 & H2 & H3). cbn [map]. rewrite H1, H2, H3. done.
Qed.

Lemma mark_times_ok parse day first previous turns : Forall turn_ok turns -> Forall turn_ok (mark_times parse day first previous turns).
Proof.
  intros H. revert first previous. induction H as [|t r Ht _ IH]; intros first previous; [constructor|]. cbn [mark_times].
  destruct (match at_time t with Some s => parse s | None => None end); by constructor.
Qed.

Lemma visible_sublist activities : sublist (visibleActivities activities) activities.
Proof.
  unfold visibleActivities. transitivity (shown_activities activities).
  - generalize (stays (List.find (fun a => negb (is_type "prompt" a)) (rev (shown_activities activities)))). intros p. induction (shown_activities activities) as [|a l IH]; [constructor|]. cbn. destruct (p a (head l)); by constructor.
  - unfold shown_activities. cbv zeta. generalize (fun a => existsb (String.eqb (a_type a)) SHOWN_TYPES && negb (bool_decide (Some (a_id a) ∈ map deleted_id (List.filter (is_type "deleted") activities)))). intros p.
    induction activities as [|a l IH]; [constructor|]. cbn. destruct (p a); by constructor.
Qed.

Lemma visible_refs activities : NoDup (map ref activities) -> NoDup (map ref (visibleActivities activities)).
Proof. intros H. eapply sublist_NoDup; [exact H|]. exact (fmap_sublist ref _ _ (visible_sublist activities)). Qed.

(** C25 (session_stream_faithful).  For a log of distinct activities, the stream shows every visible one exactly once and in order; work that stands together is folded into one item; while the session works, only the end of the stream is live; and the turns are the
    items of the stream, cut in front of each prompt and nowhere else: a turn is not empty, a prompt stands only at its front, and every turn but the first has one there. *)
Theorem session_stream_faithful activities generating parse day : NoDup (map ref activities) ->
  let items := buildStreamItems activities generating in
  let turns := buildStreamTurns parse day items in
  flat_map item_activities items = visibleActivities activities
  /\ separated items = true
  /\ (exists init tail, items = init ++ tail /\ Forall (fun i => live_item i = false) init /\ (length tail <= 1)%nat)
  /\ (generating = true -> match last items with Some i => live_item i = true | None => False end)
  /\ flat_map turn_all turns = items
  /\ Forall turn_ok turns
  /\ Forall (fun t => isSome (prompt t) = true) (tl turns).
Proof.
  intros Hn items turns. set (la := last (visibleActivities activities)). set (core := build_loop generating la (visibleActivities activities) []).
  assert (Ei : items = core ++ if generating && negb (match last core with Some t => loading_group t | None => false end) then [IThinking] else []) by done.
  split; [|split; [|split; [|split; [|split; [|split]]]]].
  - rewrite Ei, flat_map_app. unfold core. rewrite build_activities. destruct (_ && _); cbn; by rewrite app_nil_r.
  - rewrite Ei. assert (Hc : separated core = true) by apply build_separated. destruct (_ && _); [|by rewrite app_nil_r]. clear -Hc. revert Hc. induction core as [|x l IH]; [done|]. destruct l as [|y l].
    + intros _. cbn. by rewrite andb_false_r.
    + cbn [app]. rewrite !separated_cons. intros [H1 H2]%andb_true_iff. rewrite H1. by apply IH.
  - destruct (build_live generating la (visibleActivities activities) [] ltac:(constructor)) as (init & tail & E & H1 & H2).
    + intros pre a post E Hp. unfold is_last, la. rewrite E. destruct post as [|z post _] using rev_ind; [done|]. rewrite app_comm_cons, app_assoc, last_snoc. unfold same. apply Nat.eqb_neq. intros Er.
      assert (Hv : NoDup (map ref (visibleActivities activities))) by (by apply visible_refs). rewrite E, map_app in Hv. cbn [map] in Hv. apply NoDup_app in Hv as (_ & _ & [Hv _]%NoDup_cons). apply Hv. rewrite Er, map_app. apply elem_of_app. right. left.
    + rewrite Ei. unfold core in *. pose proof (build_live_group generating la (visibleActivities activities) []) as Hg. rewrite E in *. destruct (_ && _) eqn:Et.
      * exists (init ++ tail), [IThinking]. split; [done|]. split; [|cbn; lia]. apply Forall_app. split; [done|]. destruct tail as [|x [|? ?]]; [constructor | | cbn in H2; lia]. rewrite last_snoc in Et. apply andb_true_iff in Et as [_ Et%negb_true_iff].
        apply Forall_app in Hg as [_ [Hx _]%Forall_cons]. constructor; [|constructor]. destruct (live_item x); [specialize (Hx eq_refl); congruence | done].
      * exists init, tail. by rewrite app_nil_r.
  - intros ->. rewrite Ei. destruct (last core) as [t|] eqn:El; cbn [andb negb]; [|by rewrite last_snoc]. destruct (loading_group t) eqn:Et; cbn [negb]; [|by rewrite last_snoc]. rewrite app_nil_r, El. by destruct t.
  - unfold turns, buildStreamTurns. rewrite flat_map_concat_map. destruct (mark_times_same parse day true None (turn_loop items None)) as (-> & _ & _). rewrite <- flat_map_concat_map. by destruct (turn_loop_spec items None I) as (-> & _ & _).
  - apply mark_times_ok. by destruct (turn_loop_spec items None I) as (_ & H & _).
  - unfold turns, buildStreamTurns. destruct (turn_loop_spec items None I) as (_ & _ & H). destruct (mark_times_same parse day true None (turn_loop items None)) as (_ & E & _).
    assert (E' : map prompt (tl (mark_times parse day true None (turn_loop items None))) = map prompt (tl (turn_loop items None))) by (destruct (mark_times _ _ _ _ _), (turn_loop items None); try done; by injection E as _ E).
    apply (Forall_map prompt (fun p => isSome p = true)). rewrite E'. by apply (Forall_map prompt (fun p => isSome p = true)).
Qed.

(** ** Commits *)

Lemma values_set_append {C} (k : string) (l : list C) m : concat (map_values (map_set k ((map_get k m ?? []) ++ l) m)) ≡ₚ concat (map_values m) ++ l.
Proof.
  induction m as [|[k' v] m IH]; cbn; [by rewrite app_nil_r|]. case_decide; cbn; [rewrite <- !app_assoc; apply Permutation_app_head, Permutation_app_comm | by rewrite <- app_assoc, <- IH].
Qed.

(** The commits of a session are all shown, each once, and only at turns of the stream. *)
Theorem commits_shown {C} turns session (entries : list (string * list C)) : turns <> [] ->
  concat (map_values (commitsByTurn turns session entries)) ≡ₚ concat (map snd entries)
  /\ Forall (fun e => e.1 ∈ map t_id turns) (commitsByTurn turns session entries) /\ NoDup (map_keys (commitsByTurn turns session entries)).
Proof.
  intros Ht. unfold commitsByTurn. cbv zeta. destruct (last turns) as [final|] eqn:El; [|by apply last_None in El].
  assert (Hfin : t_id final ∈ map t_id turns) by (apply last_Some in El as [l ->]; rewrite map_app; apply elem_of_app; right; left).
  assert (Hkeys : Forall (fun e => e.2 ∈ map t_id turns) (turn_keys session turns)).
  { unfold turn_keys. assert (G : forall l, incl l turns -> forall s, Forall (fun e => e.2 ∈ map t_id turns) s.2 -> Forall (fun e => e.2 ∈ map t_id turns) (fold_left (fun (s : bool * list (string * string)) t =>
      (false, let m := match prompt t with Some (IPrompt a _) => map_set (a_id a) (t_id t) s.2 | _ => s.2 end in if s.1 then map_set ("turn_" +:+ session) (t_id t) m else m)) l s).2).
    { induction l as [|t l IH]; intros Hl s Hs; [done|]. cbn [fold_left]. apply IH; [intros x Hx; apply Hl; by right|]. cbn [snd]. assert (Hti : t_id t ∈ map t_id turns) by (apply list_elem_of_In, in_map, Hl; by left).
      assert (Hset : forall k m, Forall (fun e : string * string => e.2 ∈ map t_id turns) m -> Forall (fun e => e.2 ∈ map t_id turns) (map_set k (t_id t) m)) by (intros k m Hm; apply map_set_Forall; [by intros ? _ | done]).
      destruct (prompt t) as [[]|]; destruct s.1; repeat apply Hset; done. }
    apply (G turns (fun _ H => H) (true, [])). constructor. }
  assert (G : forall (l m : list (string * list C)), NoDup (map_keys m) -> Forall (fun e => e.1 ∈ map t_id turns) m ->
    let m' := fold_left (fun (m : list (string * list C)) (e : string * list C) => map_set (map_get e.1 (turn_keys session turns) ?? t_id final) ((map_get (map_get e.1 (turn_keys session turns) ?? t_id final) m ?? []) ++ e.2) m) l m in
    concat (map_values m') ≡ₚ concat (map_values m) ++ concat (map snd l) /\ Forall (fun e => e.1 ∈ map t_id turns) m' /\ NoDup (map_keys m')).
  { clear entries. induction l as [|e l IH]; intros m Hn Hm; [cbn; by rewrite app_nil_r|]. cbn [fold_left]. destruct (IH (map_set (map_get e.1 (turn_keys session turns) ?? t_id final) ((map_get (map_get e.1 (turn_keys session turns) ?? t_id final) m ?? []) ++ e.2) m)) as (H1 & H2 & H3).
    - by apply map_set_NoDup.
    - apply map_set_Forall; [|done]. intros k' <-. cbn. destruct (map_get e.1 (turn_keys session turns)) as [x|] eqn:E; [|done]. cbn.
      clear -E Hkeys. induction Hkeys as [|[k v] m Hk _ IH]; [done|]. cbn in *. case_decide; [by injection E as -> | auto].
    - split; [|done]. rewrite H1, values_set_append. cbn. by rewrite <- app_assoc. }
  set (kept := List.filter _ entries). destruct (G kept [] ltac:(constructor) ltac:(constructor)) as (H1 & H2 & H3). split; [|done]. rewrite H1. cbn. unfold kept. clear. induction entries as [|[k v] l IH]; [done|]. cbn.
  case_bool_decide as E; cbn; [|by rewrite IH]. apply nil_length_inv in E. by rewrite E, IH.
Qed.

(** ** Durations *)

Definition unit_seconds (u : DurationUnit) : Z := match u with second => 1 | minute => 60 | hour => 3600 | day => 86400 | week => 604800 end.
Definition unit_limit (u : DurationUnit) : option Z := match u with second => Some 59 | minute => Some 59 | hour => Some 24 | day => Some 6 | week => None end%Z.

(** How far the copy may be from the duration, in milliseconds: half a unit, 40 minutes for hours, half a day more for weeks. *)
Definition unit_error (u : DurationUnit) : Z := match u with second => 500 | minute => 30500 | hour => 2400500 | day => 43200500 | week => 302400500 end.

Definition copy_seconds (ms : Z) : Z := let (n, u) := durationParts ms in (n * unit_seconds u)%Z.

Ltac duration_cases :=
  unfold copy_seconds, durationParts, round_div in *; cbv zeta in *;
  repeat match goal with |- context [(?a <? ?b)%Z] => destruct (Z.ltb_spec a b) | |- context [(?a <=? ?b)%Z] => destruct (Z.leb_spec a b) end;
  cbn [unit_seconds unit_limit unit_error].

(** The copy as a function of the whole seconds. *)
Definition copy_of (s : Z) : Z :=
  (if (s <? 60)%Z then s
  else if (round_div s 60 <? 60)%Z then round_div s 60 * 60
  else if (s <? 8 * 3600)%Z then (if (40 * 60 <=? s - s / 3600 * 3600)%Z then s / 3600 + 1 else s / 3600) * 3600
  else if (s <? 86400)%Z then round_div s 3600 * 3600
  else if (round_div s 86400 <? 7)%Z then round_div s 86400 * 86400
  else round_div (round_div s 86400) 7 * 604800)%Z.

Lemma copy_seconds_of ms : copy_seconds ms = copy_of (Z.max 1 (round_div ms 1000)).
Proof.
  unfold copy_seconds, durationParts, copy_of. cbv zeta. set (s := Z.max 1 (round_div ms 1000)).
  repeat match goal with |- context [(?a <? ?b)%Z] => destruct (Z.ltb_spec a b) end; cbn [unit_seconds]; lia.
Qed.

Lemma copy_of_mono s s' : (1 <= s <= s')%Z -> (copy_of s <= copy_of s')%Z.
Proof.
  intros H. unfold copy_of, round_div.
  repeat match goal with |- context [(?a <? ?b)%Z] => destruct (Z.ltb_spec a b) | |- context [(?a <=? ?b)%Z] => destruct (Z.leb_spec a b) end; Z.to_euclidean_division_equations; lia.
Qed.

(** The copy of a duration names at least one of its unit and never as many as the next unit has (59 seconds, 59 minutes, 24 hours, 6 days), is off by at most half a unit (40 minutes for hours, half a day more for
    weeks) for a duration of at least half a second, and a longer duration never reads shorter. *)
Theorem duration_copy_faithful ms ms' :
  let (n, u) := durationParts ms in
  (1 <= n)%Z /\ match unit_limit u with Some m => (n <= m)%Z | None => True end
  /\ ((500 <= ms)%Z -> (Z.abs (n * unit_seconds u * 1000 - ms) <= unit_error u)%Z)
  /\ ((ms <= ms')%Z -> (copy_seconds ms <= copy_seconds ms')%Z).
Proof.
  destruct (durationParts ms) as [n u] eqn:E.
  assert (H : (1 <= n)%Z /\ match unit_limit u with Some m => (n <= m)%Z | None => True end /\ ((500 <= ms)%Z -> (Z.abs (n * unit_seconds u * 1000 - ms) <= unit_error u)%Z)).
  { revert E. duration_cases; intros [= <- <-]; cbn [unit_seconds unit_limit unit_error]; Z.to_euclidean_division_equations; lia. }
  destruct H as (H1 & H2 & H3). split; [done|]. split; [done|]. split; [done|]. clear. intros Hle. rewrite !copy_seconds_of. apply copy_of_mono. unfold round_div. Z.to_euclidean_division_equations. lia.
Qed.

Module Demo.
Definition act (n : nat) (t b : string) : Activity := mkActivity n ("a" +:+ showZ (Z.of_nat n)) t b "2026-01-01" false None 0 None None.
(** A prompt, a thought that the answer repeats, two actions and an answer; then a prompt and a first action. *)
Definition log : list Activity := [act 0 "prompt" "do"; act 1 "action" "read"; act 2 "action" "write"; act 3 "thought" "done "; act 4 "response" "done"; act 5 "status" ""; act 6 "prompt" "more"; act 7 "action" "run"].

Lemma session_stream_faithful_witness :
  map (fun i => map a_id (item_activities i)) (buildStreamItems log true) = [["a0"]; ["a1"; "a2"]; ["a4"]; ["a6"]; ["a7"]]
  /\ map live_item (buildStreamItems log true) = [false; false; false; false; true]
  /\ map t_id (buildStreamTurns (fun _ => None) (fun _ => "") (buildStreamItems log true)) = ["a0"; "a6"]
  /\ flat_map item_activities (buildStreamItems log true) = visibleActivities log.
Proof.
  split; [vm_compute; reflexivity|]. split; [vm_compute; reflexivity|]. split; [vm_compute; reflexivity|].
  assert (Hn : NoDup (map ref log)) by (apply (bool_decide_eq_true_1 (NoDup (map ref log))); vm_compute; reflexivity).
  exact (proj1 (session_stream_faithful log true (fun _ => None) (fun _ => "") Hn)).
Defined.

Lemma duration_copy_faithful_witness : durationParts 5940000 = (1, hour)%Z /\ durationParts 6000000 = (2, hour)%Z /\ (copy_seconds 5940000 <= copy_seconds 6000000)%Z.
Proof.
  split; [vm_compute; reflexivity|]. split; [vm_compute; reflexivity|]. pose proof (duration_copy_faithful 5940000 6000000) as H. destruct (durationParts 5940000) as [n u]. apply H. lia.
Defined.
End Demo.
