(* ===== verification/StatusGroups.v ===== *)
(** * Status groups (web/src/lib/status-groups.ts)

    Statuses of different teams that have one type and one name (trimmed, in any case) form a group.  The index resolves a
    status to its group, the status that stands for it and its members, best representative first.  [localeCompare], the
    last tie-break, is only reached for one and the same status and does not occur here; a position is an integer. *)

From Stdlib Require Import String ZArith Lia Bool List.
From stdpp Require Import base list strings.
From S2P Require Import Prelude JsString JsMap TeamHierarchy.

Local Set Warnings "-register-all,-notation-for-abbreviation".

(** [WorkflowState] *)
Record WorkflowState := mkState { s_id : string; s_name : string; s_type : string; s_teamId : option string; s_position : option Z }.

Definition statusGroupId (s : WorkflowState) : string := "status:" +:+ s_type s +:+ ":" +:+ toLowerCase (trim (s_name s)).

Section Index.
Context (states : list WorkflowState) (teams : list Team) (settings : list (string * option string)).

(** [new Map(data.states.map((state, index) => [state.id, { state, index }]))] *)
Definition state_index : list (string * (WorkflowState * nat)) :=
  fold_left (fun m e => map_set (s_id (fst e)) e m) (combine states (seq 0 (length states))) [].
Definition known (i : string) : option WorkflowState := option_map fst (map_get i state_index).

Definition members : list (string * list WorkflowState) :=
  fold_left (fun m s => map_set (statusGroupId s) ((map_get (statusGroupId s) m ?? []) ++ [s]) m) states [].

(** The place of a known status: the depth of its team, its position, its index. *)
Definition rank_of (e : WorkflowState * nat) : Z * Z * Z :=
  let s := fst e in
  let depth := if truthy (s_teamId s ?? "") then Z.of_nat (match map_get (s_teamId s ?? "") (ancestors teams settings []) with Some l => length l | None => 0 end) else (-1)%Z in
  (depth, s_position s ?? 0%Z, Z.of_nat (snd e)).

Definition before3 (a b : Z * Z * Z) : bool :=
  let '(a1, a2, a3) := a in let '(b1, b2, b3) := b in
  (a1 <? b1)%Z || (a1 =? b1)%Z && ((a2 <? b2)%Z || (a2 =? b2)%Z && (a3 <? b3)%Z).

(** [compare(left, right) <= 0]; a status that is not known comes last. *)
Definition not_after (l r : string) : bool :=
  match map_get l state_index, map_get r state_index with
  | Some a, Some b => negb (before3 (rank_of b) (rank_of a))
  | Some _, None => true
  | None, Some _ => false
  | None, None => true
  end.

Fixpoint insert_id (i : string) (l : list string) : list string :=
  match l with [] => [i] | j :: r => if not_after i j then i :: l else j :: insert_id i r end.

Definition stateIds (groupId : string) : list string := foldr insert_id [] (map s_id (map_get groupId members ?? [])).

(** The group of a status: the workspace's own record of it is preferred. *)
Definition groupOf (s : WorkflowState) : string := statusGroupId (known (s_id s) ?? s).
Definition group_of_id (i : string) : option string := option_map statusGroupId (known i).

Definition representative (groupId : string) : option WorkflowState :=
  match stateIds groupId with i :: _ => if truthy i then known i else None | [] => None end.

Definition representativeId (i : string) : string :=
  match known i with
  | Some s => match stateIds (statusGroupId s) with j :: _ => if truthy j then j else i | [] => i end
  | None => i
  end.

Definition memberIds (i : string) : list string := match known i with Some s => stateIds (statusGroupId s) | None => [i] end.

Definition TYPE_ORDER : list (string * Z) := [("backlog", 0%Z); ("unstarted", 1%Z); ("started", 2%Z); ("completed", 3%Z); ("canceled", 4%Z)].

(** The workflow order; [None] is infinity. *)
Definition order (s : WorkflowState) : Z * option Z :=
  if s_id s =s "triage" then ((-1)%Z, Some 0%Z)
  else (map_get (s_type s) TYPE_ORDER ?? 99%Z, match known (s_id s) with Some k => s_position k | None => None end).

(** ** The index is a partition *)

Lemma insert_id_perm i l : insert_id i l ≡ₚ i :: l.
Proof. induction l as [|j l IH]; [done|]. cbn. destruct (not_after i j); [done|]. rewrite IH. apply perm_swap. Qed.

Lemma sort_ids_perm l : foldr insert_id [] l ≡ₚ l.
Proof. induction l as [|i l IH]; [done|]. cbn. by rewrite insert_id_perm, IH. Qed.

Lemma members_get g : map_get g members ?? [] = List.filter (fun s => statusGroupId s =s g) states.
Proof.
  unfold members. assert (G : forall l m, map_get g (fold_left (fun m s => map_set (statusGroupId s) ((map_get (statusGroupId s) m ?? []) ++ [s]) m) l m) ?? []
    = (map_get g m ?? []) ++ List.filter (fun s => statusGroupId s =s g) l); [|by rewrite G].
  induction l as [|s l IH]; intros m; cbn [fold_left List.filter]; [by rewrite app_nil_r|]. rewrite IH. destruct (String.eqb_spec (statusGroupId s) g) as [<-|Hne].
  - rewrite map_get_set_eq. change (Some ((map_get (statusGroupId s) m ?? []) ++ [s]) ?? []) with ((map_get (statusGroupId s) m ?? []) ++ [s]). by rewrite <- app_assoc.
  - by rewrite map_get_set_ne by congruence.
Qed.

Lemma stateIds_spec g i : i ∈ stateIds g <-> exists s, In s states /\ s_id s = i /\ statusGroupId s = g.
Proof.
  unfold stateIds. rewrite sort_ids_perm, members_get, list_elem_of_In, in_map_iff. split.
  - intros (s & H1 & [H2 E%String.eqb_eq]%filter_In). eauto.
  - intros (s & H1 & H2 & H3). exists s. split; [done|]. apply filter_In. split; [done|]. by apply String.eqb_eq.
Qed.

Context (Hids : NoDup (map s_id states)).

Lemma known_spec i s : known i = Some s <-> In s states /\ s_id s = i.
Proof.
  unfold known, state_index. change (fold_left _ _ []) with (index_by (fun e => s_id (fst e)) (fun e : WorkflowState * nat => e) (combine states (seq 0 (length states)))).
  assert (Hf : map (fun e => s_id (fst e)) (combine states (seq 0 (length states))) = map s_id states).
  { rewrite <- (map_map fst s_id). f_equal. clear. generalize 0%nat. induction states as [|s l IH]; intros n; [done|]. cbn. by rewrite IH. }
  assert (Hin : forall s, In s states -> exists n, In (s, n) (combine states (seq 0 (length states)))).
  { clear. generalize 0%nat. induction states as [|x l IH]; intros n s; [done|]. cbn. intros [->|Hs]; [eauto|]. destruct (IH (S n) s Hs) as [m Hm]. eauto. }
  split.
  - destruct (map_get i _) as [e|] eqn:E; [|done]. intros [= <-]. apply index_by_get in E; [|by rewrite Hf]. destruct E as (e' & He & <- & ->). split; [|done]. destruct e as [s n]. by eapply in_combine_l.
  - intros [Hs <-]. destruct (Hin s Hs) as [n Hn]. assert (E : map_get (s_id s) (index_by (fun e => s_id (fst e)) (fun e : WorkflowState * nat => e) (combine states (seq 0 (length states)))) = Some (s, n)) by (apply index_by_get; [by rewrite Hf|]; by exists (s, n)).
    by rewrite E.
Qed.

Lemma memberIds_self i : i ∈ memberIds i.
Proof. unfold memberIds. destruct (known i) as [s|] eqn:E; [|left]. apply known_spec in E as [Hs <-]. apply stateIds_spec. eauto. Qed.

(** The members of a known status are the statuses of its group; they have it as a member too and one status stands for all of them. *)
Theorem status_groups_partition s : In s states -> truthy (s_id s) = true ->
  (forall i, i ∈ memberIds (s_id s) <-> exists s', In s' states /\ s_id s' = i /\ statusGroupId s' = statusGroupId s)
  /\ (forall i, i ∈ memberIds (s_id s) -> memberIds i = memberIds (s_id s))
  /\ representativeId (s_id s) ∈ memberIds (s_id s)
  /\ NoDup (memberIds (s_id s)).
Proof.
  intros Hs Ht. assert (Hk : known (s_id s) = Some s) by (by apply known_spec). unfold representativeId, memberIds. rewrite Hk. split; [apply stateIds_spec|]. split; [|split].
  - intros i (s' & Hs' & <- & E)%stateIds_spec. assert (Hk' : known (s_id s') = Some s') by (by apply known_spec). by rewrite Hk', E.
  - pose proof (memberIds_self (s_id s)) as Hm. unfold memberIds in Hm. rewrite Hk in Hm. destruct (stateIds (statusGroupId s)) as [|j r]; [done|]. destruct (truthy j); [left | done].
  - unfold stateIds. rewrite sort_ids_perm, members_get. eapply sublist_NoDup; [exact Hids|]. apply fmap_sublist. clear. induction states as [|x l IH]; [done|]. cbn. destruct (_ =s _); by constructor.
Qed.
End Index.
