(* ===== verification/FilterChips.v ===== *)
(** * Filter chips of the issue lists
      (web/src/components/my-issues/my-issues-filter-types.ts, web/src/components/issue-explorer/issue-date-filter.ts,
      web/src/components/issue-explorer/customer-filter.ts)

    A filter bar is a list of chips: a field, an operator and values.  Chips are read from storage, so their values and
    trees are what the code's own tests find there ([StoredValue], [StoredNode]).  This file holds the chips, the values
    of date and number filters, the operators a chip offers, and the toggling of an option. *)

From Stdlib Require Import Ascii String ZArith QArith Lia Bool List.
From stdpp Require Import base list strings.
From S2P Require Import Prelude JsString JsMap JsNumber.

Local Set Warnings "-register-all,-notation-for-abbreviation".
Local Open Scope Z_scope.

(** ** Chips *)

(** [MyIssuesFilterKey]; a stored chip may have any text as its field. *)
Inductive FilterKey :=
  | K_ai | K_advanced | K_team | K_status | K_assignee | K_agent | K_agentSession | K_creator | K_priority | K_estimate | K_labels | K_relations
  | K_suggestedLabel | K_triageIntelligence | K_dates | K_projectMilestone | K_project | K_projectProperties | K_initiative | K_cycle | K_addedToCycle
  | K_releases | K_customers | K_subscribers | K_externalSource | K_autoClosed | K_content | K_links | K_template | K_owner | K_other (name : string).
#[export] Instance FilterKey_eq : EqDecision FilterKey. Proof. solve_decision. Defined.

(** The text of a key. *)
Definition key_text (k : FilterKey) : string :=
  match k with
  | K_ai => "ai" | K_advanced => "advanced" | K_team => "team" | K_status => "status" | K_assignee => "assignee" | K_agent => "agent" | K_agentSession => "agentSession"
  | K_creator => "creator" | K_priority => "priority" | K_estimate => "estimate" | K_labels => "labels" | K_relations => "relations" | K_suggestedLabel => "suggestedLabel"
  | K_triageIntelligence => "triageIntelligence" | K_dates => "dates" | K_projectMilestone => "projectMilestone" | K_project => "project" | K_projectProperties => "projectProperties"
  | K_initiative => "initiative" | K_cycle => "cycle" | K_addedToCycle => "addedToCycle" | K_releases => "releases" | K_customers => "customers" | K_subscribers => "subscribers"
  | K_externalSource => "externalSource" | K_autoClosed => "autoClosed" | K_content => "content" | K_links => "links" | K_template => "template" | K_owner => "owner" | K_other s => s
  end.

(** [MyIssuesFilterOperator]. *)
Inductive Operator := is_ | isNot | includesAll | excludesAll | before | after | gte | lte | eq | neq.
#[export] Instance Operator_eq : EqDecision Operator. Proof. solve_decision. Defined.

Definition is_key (k : FilterKey) (f : FilterKey) : bool := bool_decide (f = k).
Definition is_op (o : Operator) (p : Operator) : bool := bool_decide (p = o).

(** [MyIssuesFilterValue]; [None] is a value without the key [color], [Some None] one whose color is undefined. *)
Record FilterValue := mkValue { value : string; valueLabel : string; color : option (option string) }.

(** An entry of a stored [values] array: a text, an object (with its [value] when that is a text), or neither. *)
Inductive StoredValue := VText (s : string) | VObject (value : option string) (valueLabel : option string) (color : option string) | VOther.

(** A node of a stored tree: a group has an array [items]; [field] is [None] when it is not a text. *)
Inductive StoredNode :=
  | NGroup (id : option string) (conjunction : option string) (items : list StoredNode)
  | NCondition (id : option string) (field : option FilterKey) (fieldLabel : option string) (operator : option Operator) (values : option (list StoredValue))
  | NJunk.

(** [MyIssuesAppliedFilter] *)
Record Filter := mkFilter {
  f_id : string; field : FilterKey; fieldLabel : string; operator : Operator; f_value : string; f_valueLabel : string; f_color : option string;
  operatorLabel : option string; negativeOperatorLabel : option string; values : option (list StoredValue); tree : option StoredNode }.

(** A value as an array of a chip stores it. *)
Definition store_value (v : FilterValue) : StoredValue := VObject (Some (value v)) (Some (valueLabel v)) (color v ?? None).

Definition read_value (v : StoredValue) : list FilterValue :=
  match v with
  | VText s => [mkValue s s None]
  | VObject (Some s) l c => [mkValue s (l ?? s) (Some c)]
  | VObject None _ _ | VOther => []
  end.

Definition filterValues (f : Filter) : list FilterValue :=
  match flat_map read_value (values f ?? []) with
  | [] => [mkValue (f_value f) (f_valueLabel f) (Some (f_color f))]
  | l => l
  end.

Definition value_ids (f : Filter) : list string := map value (filterValues f).

(** ** Values of date filters *)

(** The text before the first [c] and the text behind it. *)
Fixpoint cut (c : ascii) (s : string) : option (string * string) :=
  match s with
  | EmptyString => None
  | String x r => if (x =? c)%char then Some (EmptyString, r) else (fun p => (String x p.1, p.2)) <$> cut c r
  end.

(** A text of the shape of [p], in which [d] stands for a digit. *)
Fixpoint shaped (p s : string) : bool :=
  match p, s with
  | EmptyString, EmptyString => true
  | String x p', String y s' => (if (x =? "d")%char then is_digit y else (x =? y)%char) && shaped p' s'
  | _, _ => false
  end.

Inductive DateFilterKind := D_due | D_created | D_updated | D_started | D_completed | D_autoClosed | D_triaged | D_status | D_released.
#[export] Instance DateFilterKind_eq : EqDecision DateFilterKind. Proof. solve_decision. Defined.

Definition date_kinds : list (string * DateFilterKind) :=
  [("due", D_due); ("created", D_created); ("updated", D_updated); ("started", D_started); ("completed", D_completed); ("autoClosed", D_autoClosed);
   ("triaged", D_triaged); ("status", D_status); ("released", D_released)].

Definition UNIT_DAYS : list (string * Z) := [("d", 1); ("w", 7); ("m", 30); ("y", 365)].

(** [ParsedDateValue]: an offset in days or a day. *)
Record ParsedDateValue := mkParsed { kind : DateFilterKind; point : Z + string }.

(** The offset [([+-])(\d+)([dwmy])], in days. *)
Definition offset_days (s : string) : option Z :=
  match s with
  | String sign r =>
      if ((sign =? "+") || (sign =? "-"))%char then
        let (digits, unit) := take_digits r in
        match digits_value digits, map_get unit UNIT_DAYS with
        | Some n, Some d => Some ((if (sign =? "-")%char then -1 else 1) * n * d)
        | _, _ => None
        end
      else None
  | EmptyString => None
  end.

(** [value.match(DATE_FILTER_VALUE)] and the reading of its groups. *)
Definition parseDateFilterValue (v : string) : option ParsedDateValue :=
  match cut ":" v with
  | Some (k, r) =>
      match map_get k date_kinds with
      | Some kind =>
          match offset_days r with
          | Some n => Some (mkParsed kind (inl n))
          | None => if shaped "dddd-dd-dd" r then Some (mkParsed kind (inr r)) else None
          end
      | None => None
      end
  | None => None
  end.

Definition isComparableDateValue (v : string) : bool := isSome (parseDateFilterValue v).
Definition isReleasedDateValue (v : string) : bool := (v =s "no-released-date") || startsWith "released:" v.

Definition isDateComparison (f : FilterKey) (vs : list string) : bool :=
  (is_key K_dates f || is_key K_releases f) && (0 <? length vs)%nat && forallb isComparableDateValue vs.

Definition word_char (c : ascii) : bool := alnum (nat_of_ascii c) || (c =? "_")%char.
Definition word (s : string) : bool := truthy s && forallb word_char (String.list_ascii_of_string s).

(** [value.match(/^(\w+):([+-])?/)] *)
Definition defaultDateOperator (v : string) : Operator :=
  match cut ":" v with
  | Some (k, r) =>
      if word k then
        if k =s "status" then before
        else if startsWith "+" r then before else if startsWith "-" r then after
        else if k =s "due" then before else after
      else after
  | None => after
  end.

(** ** Values of number filters *)

Inductive CustomerNumberField := C_count | C_importantCount | C_revenue | C_size.

Definition CUSTOMER_NUMBER_PREFIXES : list (CustomerNumberField * string) :=
  [(C_count, "customer-count:"); (C_importantCount, "customer-important-count:"); (C_revenue, "customer-revenue:"); (C_size, "customer-size:")].
Definition prefix_of (f : CustomerNumberField) : string :=
  match f with C_count => "customer-count:" | C_importantCount => "customer-important-count:" | C_revenue => "customer-revenue:" | C_size => "customer-size:" end.

Definition isCustomerNumberComparison (o : Operator) : bool := match o with gte | lte | eq | neq => true | _ => false end.

(** [/^-?\d+(\.\d+)?$/] *)
Definition plain_number (s : string) : bool :=
  let s := match s with String "-" r => r | _ => s end in
  let (whole, r) := take_digits s in
  truthy whole && match r with
                  | EmptyString => true
                  | String c r' => (c =? ".")%char && (let (frac, rest) := take_digits r' in truthy frac && (rest =s ""))
                  end.

Definition parseCustomerNumberValue (v : string) : option (CustomerNumberField * Q) :=
  match List.find (fun e => startsWith (snd e) v) CUSTOMER_NUMBER_PREFIXES with
  | Some (f, p) => let raw := slice_from (String.length p) v in if plain_number raw then pair f <$> Number raw else None
  | None => None
  end.

Definition compareCustomerNumber (actual : Q) (comparison : Operator) (amount : Q) : bool :=
  match comparison with
  | gte => Qle_bool amount actual
  | lte => Qle_bool actual amount
  | eq => Qeq_bool actual amount
  | _ => negb (Qeq_bool actual amount)
  end.

Definition comparison_text (o : Operator) : string := match o with gte => "gte" | lte => "lte" | eq => "eq" | _ => "neq" end.

Definition customerNumberQueryValue (v : string) (comparison : Operator) : string :=
  match parseCustomerNumberValue v with
  | None => v
  | Some (f, amount) => prefix_of f +:+ comparison_text comparison +:+ ":" +:+ show_number amount
  end.

Definition CUSTOMER_NUMBER_COMPARISONS : list (Operator * string) :=
  [(gte, "greater than or equals"); (lte, "less than or equals"); (eq, "equals"); (neq, "not equals")].

(** ** The operators of a chip *)

Definition filterOperatorChoices (f : FilterKey) (vs : list string) (labels : option string * option string) : list (Operator * string) :=
  let several := (1 <? length vs)%nat in
  if truthy (fst labels ?? "") then [(is_, fst labels ?? ""); (isNot, snd labels ?? "is not")]
  else if is_key K_customers f && (0 <? length vs)%nat && forallb (fun v => isSome (parseCustomerNumberValue v)) vs then CUSTOMER_NUMBER_COMPARISONS
  else if isDateComparison f vs then
    if forallb (startsWith "status:") vs then [(before, "more than"); (after, "less than")] else [(before, "before"); (after, "after")]
  else if is_key K_labels f then
    if several then [(includesAll, "include all of"); (is_, "include any of"); (isNot, "exclude if any of"); (excludesAll, "exclude if all")]
    else [(is_, "include"); (isNot, "do not include")]
  else [(is_, if several then "is any of" else "is"); (isNot, "is not")].

Definition offers (o : Operator) (choices : list (Operator * string)) : bool := existsb (fun c => is_op o (fst c)) choices.
Definition first_operator (choices : list (Operator * string)) : Operator := match choices with c :: _ => fst c | [] => is_ end.

Definition normalizeFilterOperator (f : FilterKey) (o : Operator) (vs : list string) : Operator :=
  let choices := filterOperatorChoices f vs (None, None) in
  if offers o choices then o
  else if is_op excludesAll o || is_op isNot o then if offers isNot choices then isNot else first_operator choices
  else if (is_op is_ o || is_op includesAll o) && is_op before (first_operator choices) then
    match vs with v :: _ => if truthy v then defaultDateOperator v else before | [] => before end
  else if offers is_ choices then is_ else first_operator choices.

Definition filterOperatorLabel (f : FilterKey) (o : Operator) (labels : option string * option string) (vs : list string) : string :=
  let choices := filterOperatorChoices f vs labels in
  let operator := if is_op is_ o && isDateComparison f (take 1 vs) then defaultDateOperator (hd "" vs) else o in
  match List.find (fun c => is_op operator (fst c)) choices with
  | Some c => snd c
  | None => match choices with c :: _ => snd c | [] => "" end
  end.

(** ** Changing chips *)

(** [MyIssuesFilterOption], what the toggling reads of it. *)
Record FilterOption := mkOption {
  o_id : string; o_label : string; o_color : option string; filterLabel : option string; o_operatorLabel : option string; o_negativeOperatorLabel : option string;
  comparison : option Operator; aliases : option (list string) }.

Definition option_value (o : FilterOption) : FilterValue := mkValue (o_id o) (o_label o) (Some (o_color o)).

(** [{ ...filter, ...values[0], values }] *)
Definition with_values (vs : list FilterValue) (f : Filter) : Filter :=
  match vs with
  | [] => mkFilter (f_id f) (field f) (fieldLabel f) (operator f) (f_value f) (f_valueLabel f) (f_color f) (operatorLabel f) (negativeOperatorLabel f) (Some []) (tree f)
  | v :: _ => mkFilter (f_id f) (field f) (fieldLabel f) (operator f) (value v) (valueLabel v) (color v ?? f_color f) (operatorLabel f) (negativeOperatorLabel f) (Some (map store_value vs)) (tree f)
  end.

Definition with_operator (o : Operator) (f : Filter) : Filter :=
  mkFilter (f_id f) (field f) (fieldLabel f) o (f_value f) (f_valueLabel f) (f_color f) (operatorLabel f) (negativeOperatorLabel f) (values f) (tree f).

(** [fresh] is the name that [filterId] gives. *)
Definition fromOption (fresh : string) (k : FilterKey) (label : string) (o : FilterOption) : Filter :=
  let v := option_value o in
  let op := comparison o ?? (if isDateComparison k [o_id o] then defaultDateOperator (o_id o) else is_) in
  mkFilter fresh k label op (value v) (valueLabel v) (o_color o) (o_operatorLabel o) (o_negativeOperatorLabel o) (Some [store_value v]) None.

Definition has_value (s : string) (l : list FilterValue) : bool := existsb (fun v => value v =s s) l.

(** Chips that are never joined with another one. *)
Definition stands_alone (f : Filter) : bool :=
  is_key K_advanced (field f) || is_key K_dates (field f) || isCustomerNumberComparison (operator f) || forallb (fun v => isReleasedDateValue (value v)) (filterValues f).

Definition same_chip (f g : Filter) : bool := bool_decide (field f = field g) && (fieldLabel f =s fieldLabel g) && is_op (operator g) (operator f).

Definition join_values (old new : list FilterValue) : list FilterValue :=
  fold_left (fun l v => if has_value (value v) l then l else l ++ [v]) new old.

Definition consolidate_step (result : list Filter) (f : Filter) : list Filter :=
  if stands_alone f then result ++ [f]
  else match findIndex (fun g => same_chip g f) result with
       | None => result ++ [f]
       | Some i => match result !! i with
                   | Some existing => <[i := with_values (join_values (filterValues existing) (filterValues f)) existing]> result
                   | None => result
                   end
       end.

Definition consolidateFilters (filters : list Filter) : list Filter := fold_left consolidate_step filters [].

(** [filters.map(filter => filter.id === id ? replacement : filter)] and [filters.filter(filter => filter.id !== id)] *)
Definition replace_chip (i : string) (g : Filter) (l : list Filter) : list Filter := map (fun f => if f_id f =s i then g else f) l.
Definition remove_chip (i : string) (l : list Filter) : list Filter := List.filter (fun f => negb (f_id f =s i)) l.

Definition with_id (i : string) (f : Filter) : Filter :=
  mkFilter i (field f) (fieldLabel f) (operator f) (f_value f) (f_valueLabel f) (f_color f) (operatorLabel f) (negativeOperatorLabel f) (values f) (tree f).

Definition chip_of (k : FilterKey) (label : string) (f : Filter) : bool := is_key k (field f) && (fieldLabel f =s label).
Definition single_value (k : FilterKey) (o : FilterOption) : bool := is_key K_dates k || (is_key K_releases k && isReleasedDateValue (o_id o)).
Definition means (o : FilterOption) (s : string) : bool := existsb (String.eqb s) (o_id o :: aliases o ?? []).

Definition toggleFilterOption (fresh : string) (filters : list Filter) (k : FilterKey) (label : string) (o : FilterOption) : list Filter :=
  let filters := consolidateFilters filters in
  let effectiveLabel := filterLabel o ?? label in
  let replacement := fromOption fresh k effectiveLabel o in
  if isSome (comparison o) then
    match List.find (fun f => chip_of k effectiveLabel f && isCustomerNumberComparison (operator f)) filters with
    | Some current => replace_chip (f_id current) (with_id (f_id current) replacement) filters
    | None => filters ++ [replacement]
    end
  else
    let singleValue := single_value k o in
    match List.find (fun f => chip_of k effectiveLabel f && (singleValue || is_op is_ (operator f))) filters with
    | None => filters ++ [replacement]
    | Some existing =>
        let current := filterValues existing in
        if singleValue then
          if has_value (o_id o) current then remove_chip (f_id existing) filters
          else replace_chip (f_id existing) (with_id (f_id existing) replacement) filters
        else
          match (if existsb (fun v => means o (value v)) current then List.filter (fun v => negb (means o (value v))) current else current ++ [option_value o]) with
          | [] => remove_chip (f_id existing) filters
          | vs => map (fun f => if f_id f =s f_id existing then with_values vs f else f) filters
          end
    end.

Definition replaceFilterValues (f : Filter) (options : list FilterOption) : option Filter :=
  match options with
  | [] => None
  | _ => let vs := map option_value options in Some (with_operator (normalizeFilterOperator (field f) (operator f) (map value vs)) (with_values vs f))
  end.

Definition updateFilterOperator (filters : list Filter) (i : string) (o : Operator) : list Filter :=
  map (fun f => if f_id f =s i then with_operator o f else f) filters.

Definition updateFilterValues (filters : list Filter) (i : string) (options : list FilterOption) : list Filter :=
  match List.find (fun f => f_id f =s i) filters with
  | None => filters
  | Some target => match replaceFilterValues target options with Some g => replace_chip i g filters | None => remove_chip i filters end
  end.

(** ** The operator of a chip is one of its menu *)

Lemma is_op_spec o p : is_op o p = true <-> p = o.
Proof. apply bool_decide_eq_true. Qed.

Lemma is_key_spec k f : is_key k f = true <-> f = k.
Proof. apply bool_decide_eq_true. Qed.

Lemma default_date_operator v : defaultDateOperator v = before \/ defaultDateOperator v = after.
Proof. unfold defaultDateOperator. repeat case_match; auto. Qed.

(** [normalizeFilterOperator] gives an operator that the chip's menu offers, and keeps the one it has when that is offered. *)
Theorem normalized_operator_offered k o vs :
  offers (normalizeFilterOperator k o vs) (filterOperatorChoices k vs (None, None)) = true
  /\ (offers o (filterOperatorChoices k vs (None, None)) = true -> normalizeFilterOperator k o vs = o).
Proof.
  split; [|by unfold normalizeFilterOperator; intros ->]. unfold normalizeFilterOperator. destruct (offers o _) eqn:Ho; [done|].
  set (choices := filterOperatorChoices k vs (None, None)) in *.
  assert (Hc : offers before choices = true /\ offers after choices = true \/ offers is_ choices = true /\ first_operator choices <> before \/ offers (first_operator choices) choices = true /\ first_operator choices <> before).
  { subst choices. unfold filterOperatorChoices. cbn [fst snd default truthy negb String.eqb]. repeat case_match; cbn; auto. }
  assert (Hf : choices <> [] -> offers (first_operator choices) choices = true) by (destruct choices as [|[p l] r]; [done|]; intros _; apply orb_true_iff; left; by apply is_op_spec).
  assert (Hn : choices <> []) by (subst choices; unfold filterOperatorChoices; repeat case_match; done). specialize (Hf Hn).
  destruct (_ || _); [by destruct (offers isNot choices) eqn:? |]. destruct (_ && _) eqn:Hb; [|by destruct (offers is_ choices) eqn:?].
  apply andb_true_iff in Hb as [_ Hb%is_op_spec]. destruct Hc as [[H1 H2] | [[_ H] | [_ H]]]; [|done..].
  destruct vs as [|v vs']; [done|]. destruct (truthy v); [|done]. by destruct (default_date_operator v) as [-> | ->].
Qed.

(** ** Toggling *)

(** The chips of a field with a label and an operator, and what they select. *)
Definition keyed (k : FilterKey) (label : string) (o : Operator) (f : Filter) : bool := chip_of k label f && is_op o (operator f).
Definition selected (k : FilterKey) (label : string) (o : Operator) (l : list Filter) (s : string) : bool := existsb (fun f => keyed k label o f && has_value s (filterValues f)) l.

Lemma has_value_spec s l : has_value s l = true <-> s ∈ map value l.
Proof.
  unfold has_value. rewrite existsb_exists, list_elem_of_In, in_map_iff. split; intros (v & H1 & H2); exists v; [apply String.eqb_eq in H2 | rewrite String.eqb_eq]; done.
Qed.

Lemma has_value_app s a b : has_value s (a ++ b) = has_value s a || has_value s b.
Proof. apply existsb_app. Qed.

Lemma keyed_spec k label o f : keyed k label o f = true <-> field f = k /\ fieldLabel f = label /\ operator f = o.
Proof. unfold keyed, chip_of. rewrite !andb_true_iff, is_key_spec, is_op_spec, String.eqb_eq. tauto. Qed.

Lemma same_chip_spec f g : same_chip f g = true <-> keyed (field g) (fieldLabel g) (operator g) f = true.
Proof. unfold same_chip. rewrite keyed_spec, !andb_true_iff, bool_decide_eq_true, String.eqb_eq, is_op_spec. tauto. Qed.

Lemma keyed_with_values k label o vs f : keyed k label o (with_values vs f) = keyed k label o f.
Proof. by destruct vs. Qed.

Lemma with_values_id vs f : f_id (with_values vs f) = f_id f.
Proof. by destruct vs. Qed.

Lemma filterValues_with vs f : vs <> [] -> map value (filterValues (with_values vs f)) = map value vs.
Proof.
  intros Hn. assert (H : map value (flat_map read_value (map store_value vs)) = map value vs) by (clear; induction vs; [done|]; cbn; by f_equal).
  destruct vs as [|v vs]; [done|]. unfold filterValues. cbn [with_values values default]. rewrite <- H. by destruct (flat_map read_value _).
Qed.

Lemma has_value_with s vs f : vs <> [] -> has_value s (filterValues (with_values vs f)) = has_value s vs.
Proof. intros Hn. apply eq_iff_eq_true. by rewrite !has_value_spec, filterValues_with. Qed.

Lemma has_value_join s old new : has_value s (join_values old new) = has_value s old || has_value s new.
Proof.
  unfold join_values. revert old. induction new as [|v new IH]; intros old; cbn [fold_left]; [by rewrite orb_false_r|]. rewrite IH. destruct (has_value (value v) old) eqn:E; cbn [has_value existsb].
  - destruct (String.eqb_spec (value v) s) as [<-|]; [by rewrite E | done].
  - rewrite has_value_app. cbn. by rewrite orb_false_r, <- orb_assoc.
Qed.

Lemma filterValues_some f : filterValues f <> [].
Proof. unfold filterValues. by destruct (flat_map read_value _). Qed.

Lemma join_values_some old new : old <> [] -> join_values old new <> [].
Proof. unfold join_values. revert old. induction new as [|v new IH]; intros old H; cbn; [done|]. apply IH. destruct (has_value _ old); [done|]. by destruct old. Qed.

Lemma selected_app k label o a b s : selected k label o (a ++ b) s = selected k label o a s || selected k label o b s.
Proof. apply existsb_app. Qed.

Lemma selected_singleton k label o f s : selected k label o [f] s = keyed k label o f && has_value s (filterValues f).
Proof. cbn. by rewrite orb_false_r. Qed.

Lemma existsb_none {A} (p : A -> bool) l : Forall (fun x => p x = false) l -> existsb p l = false.
Proof. induction 1 as [|x l Hx _ IH]; [done|]. cbn. by rewrite Hx. Qed.

Lemma existsb_same {A} (p q : A -> bool) l : (forall x, p x = q x) -> existsb p l = existsb q l.
Proof. intros H. induction l as [|x l IH]; [done|]. cbn. by rewrite H, IH. Qed.

(** A step appends the chip, or changes the one in the middle that it joins. *)
Lemma consolidate_step_cases result f :
  (consolidate_step result f = result ++ [f] /\ (stands_alone f = true \/ Forall (fun g => same_chip g f = false) result))
  \/ (stands_alone f = false /\ exists a g b, result = a ++ g :: b /\ same_chip g f = true /\ consolidate_step result f = a ++ with_values (join_values (filterValues g) (filterValues f)) g :: b).
Proof.
  unfold consolidate_step. destruct (stands_alone f); [left; auto|]. destruct (findIndex _ result) as [i|] eqn:E; [|left; split; [done|]; right; by apply findIndex_None].
  right. split; [done|]. destruct (findIndex_Some _ _ _ E) as (g & Hl & Hi & Hg & _). rewrite Hi. exists (take i result), g, (drop (S i) result). split; [done|]. split; [done|].
  rewrite insert_take_drop; [done|]. by eapply lookup_lt_Some.
Qed.

Lemma consolidate_ind (P : list Filter -> list Filter -> Prop) :
  P [] [] -> (forall l result f, P l result -> P (l ++ [f]) (consolidate_step result f)) -> forall l, P l (consolidateFilters l).
Proof. intros H0 Hs l. unfold consolidateFilters. induction l as [|f l IH] using rev_ind; [done|]. rewrite fold_left_app. cbn. by apply Hs. Qed.

(** Joining chips changes neither what a field's chips select nor how many names there are. *)
Lemma consolidate_selected k label o l s : selected k label o (consolidateFilters l) s = selected k label o l s.
Proof.
  revert l. apply (consolidate_ind (fun l r => selected k label o r s = selected k label o l s)); [done|]. intros l result f IH. rewrite selected_app, <- IH. destruct (consolidate_step_cases result f) as [[-> _] | (_ & a & g & b & -> & Hg & ->)]; [by rewrite selected_app|].
  apply same_chip_spec, keyed_spec in Hg as (E1 & E2 & E3). rewrite selected_singleton, !selected_app. cbn [selected existsb]. rewrite keyed_with_values, has_value_with, has_value_join by (apply join_values_some, filterValues_some).
  replace (keyed k label o f) with (keyed k label o g) by (unfold keyed, chip_of; by rewrite E1, E2, E3). destruct (keyed k label o g), (has_value s (filterValues g)), (has_value s (filterValues f)), (selected k label o a s); cbn; try done; by rewrite ?orb_true_r, ?orb_false_r.
Qed.

Lemma consolidate_ids l : sublist (map f_id (consolidateFilters l)) (map f_id l).
Proof.
  revert l. apply (consolidate_ind (fun l r => sublist (map f_id r) (map f_id l))); [done|]. intros l result f IH. rewrite map_app. destruct (consolidate_step_cases result f) as [[-> _] | (_ & a & g & b & -> & Hg & ->)].
  - rewrite map_app. by apply sublist_app.
  - apply sublist_inserts_r. etrans; [|exact IH]. rewrite !map_app. cbn [map]. by rewrite with_values_id.
Qed.

(** The chips of a field that can be joined are one chip. *)
Lemma consolidate_one k label o l : Forall (fun f => keyed k label o f = true -> stands_alone f = false) l -> (length (List.filter (keyed k label o) (consolidateFilters l)) <= 1)%nat.
Proof.
  revert l. apply (consolidate_ind (fun l r => Forall (fun f => keyed k label o f = true -> stands_alone f = false) l -> (length (List.filter (keyed k label o) r) <= 1)%nat)); [cbn; lia|]. intros l result f IH [Hl [Hf _]%Forall_cons]%Forall_app. specialize (IH Hl). destruct (consolidate_step_cases result f) as [[-> Hc] | (_ & a & g & b & -> & Hg & ->)].
  - rewrite List.filter_app, length_app. cbn [List.filter]. destruct (keyed k label o f) eqn:E; [|cbn; lia]. destruct Hc as [Hc|Hc]; [rewrite Hf in Hc by done; done|].
    rewrite filter_none; [cbn; lia|]. eapply Forall_impl; [exact Hc|]. cbn. intros g Hg. apply keyed_spec in E as (<- & <- & <-). apply not_true_iff_false. intros Hk. apply same_chip_spec in Hk. congruence.
  - rewrite !List.filter_app in *. cbn [List.filter] in *. rewrite keyed_with_values. rewrite !length_app in *. by destruct (keyed k label o g).
Qed.

Lemma find_split {A} (p : A -> bool) l x : List.find p l = Some x -> p x = true /\ exists a b, l = a ++ x :: b /\ Forall (fun y => p y = false) a.
Proof.
  induction l as [|y l IH]; [done|]. cbn. destruct (p y) eqn:E.
  - intros [= <-]. split; [done|]. by exists [], l.
  - intros H. destruct (IH H) as (Hx & a & b & -> & Ha). split; [done|]. exists (y :: a), b. split; [done|]. by constructor.
Qed.

Lemma selected_none k label o l s : Forall (fun f => keyed k label o f = false) l -> selected k label o l s = false.
Proof. intros H. apply existsb_none. eapply Forall_impl; [exact H|]. by intros f ->. Qed.

Lemma selected_one k label o a g b s : Forall (fun f => keyed k label o f = false) a -> Forall (fun f => keyed k label o f = false) b -> keyed k label o g = true ->
  selected k label o (a ++ g :: b) s = has_value s (filterValues g).
Proof. intros Ha Hb Hg. change (g :: b) with ([g] ++ b). rewrite !selected_app, selected_singleton, (selected_none _ _ _ a), (selected_none _ _ _ b), Hg by done. cbn. by rewrite orb_false_r. Qed.

(** In a bar without doubled names, a change of the chip with a name is a change in the middle. *)
Lemma other_ids a g b : NoDup (map f_id (a ++ g :: b)) -> Forall (fun f => (f_id f =s f_id g) = false) (a ++ b).
Proof.
  rewrite map_app. cbn [map]. intros (Ha & Hd & [Hg Hb]%NoDup_cons)%NoDup_app. apply List.Forall_forall. intros f Hf. apply String.eqb_neq. intros E. apply in_app_or in Hf as [Hf|Hf].
  - apply (Hd (f_id f)); [apply list_elem_of_In, in_map; done|]. rewrite E. left.
  - apply Hg. rewrite <- E. by apply list_elem_of_In, in_map.
Qed.

Lemma remove_middle a g b : NoDup (map f_id (a ++ g :: b)) -> remove_chip (f_id g) (a ++ g :: b) = a ++ b.
Proof.
  intros [Ha Hb]%other_ids%Forall_app. unfold remove_chip. rewrite List.filter_app. cbn. rewrite String.eqb_refl. cbn. f_equal; apply filter_all; [eapply Forall_impl; [exact Ha|] | eapply Forall_impl; [exact Hb|]]; by intros f ->.
Qed.

Lemma change_middle (h : Filter -> Filter) a g b : NoDup (map f_id (a ++ g :: b)) -> map (fun f => if f_id f =s f_id g then h f else f) (a ++ g :: b) = a ++ h g :: b.
Proof.
  intros [Ha Hb]%other_ids%Forall_app. rewrite map_app. cbn [map]. rewrite String.eqb_refl. assert (H : forall l, Forall (fun f => (f_id f =s f_id g) = false) l -> map (fun f => if f_id f =s f_id g then h f else f) l = l).
  { induction 1 as [|f l Hf _ IH]; [done|]. cbn. by rewrite Hf, IH. } by rewrite !H.
Qed.

Lemma existsb_means o l : existsb (fun v => means o (value v)) l = existsb (fun s => has_value s l) (o_id o :: aliases o ?? []).
Proof.
  apply eq_iff_eq_true. unfold means, has_value. rewrite !existsb_exists. setoid_rewrite existsb_exists. split.
  - intros (v & Hv & s & Hs & E%String.eqb_eq). exists s. split; [done|]. exists v. by rewrite String.eqb_eq.
  - intros (s & Hs & v & Hv & E%String.eqb_eq). exists v. split; [done|]. exists s. by rewrite String.eqb_eq.
Qed.

Lemma has_value_filter s (p : string -> bool) l : has_value s (List.filter (fun v => p (value v)) l) = has_value s l && p s.
Proof.
  induction l as [|v l IH]; [done|]. cbn [List.filter has_value existsb]. destruct (p (value v)) eqn:E; cbn [has_value existsb]; fold (has_value s l); fold (has_value s (List.filter (fun v => p (value v)) l)); rewrite IH;
    destruct (String.eqb_spec (value v) s) as [<-|]; cbn; try done; by rewrite ?E, ?andb_false_r, ?orb_true_r.
Qed.

Section Toggle.
Context (fresh : string) (filters : list Filter) (k : FilterKey) (label : string) (o : FilterOption).
Local Notation lab := (filterLabel o ?? label).
Context (Hids : NoDup (map f_id filters)) (Hfresh : fresh ∉ map f_id filters) (Hcomp : comparison o = None) (Hsingle : single_value k o = false)
        (Hdate : isDateComparison k [o_id o] = false) (Hjoin : Forall (fun f => keyed k lab is_ f = true -> stands_alone f = false) filters).
Local Notation bar := (consolidateFilters filters).
Local Notation out := (toggleFilterOption fresh filters k label o).

(** What a toggle does to the bar: the chip of the field is added, dropped or has its values changed. *)
Lemma toggle_cases :
  (Forall (fun f => keyed k lab is_ f = false) bar /\ out = bar ++ [fromOption fresh k lab o])
  \/ exists a g b, bar = a ++ g :: b /\ keyed k lab is_ g = true /\ Forall (fun f => keyed k lab is_ f = false) a /\ Forall (fun f => keyed k lab is_ f = false) b
     /\ let vs := if existsb (fun v => means o (value v)) (filterValues g) then List.filter (fun v => negb (means o (value v))) (filterValues g) else filterValues g ++ [option_value o] in
        (vs = [] /\ out = a ++ b) \/ (vs <> [] /\ out = a ++ with_values vs g :: b).
Proof.
  assert (Hn : NoDup (map f_id bar)) by (eapply sublist_NoDup; [exact Hids | apply consolidate_ids]). unfold toggleFilterOption. rewrite Hcomp, Hsingle. cbn [isSome orb].
  destruct (List.find _ bar) as [g|] eqn:E.
  - right. destruct (find_split _ _ _ E) as (Hg & a & b & Eb & Ha). exists a, g, b. split; [done|]. split; [done|]. split; [done|]. split.
    + pose proof (consolidate_one k lab is_ filters Hjoin) as H1. rewrite Eb, List.filter_app, length_app in H1. cbn [List.filter] in H1. change (keyed k lab is_ g = true) in Hg. rewrite Hg in H1. cbn [length] in H1.
      apply List.Forall_forall. intros f Hf. destruct (keyed k lab is_ f) eqn:Ef; [|done]. assert (Hin : In f (List.filter (keyed k lab is_) b)) by (by apply filter_In). destruct (List.filter _ b); [done | cbn in H1; lia].
    + cbv zeta. rewrite Eb in Hn |- *. destruct (if existsb _ _ then _ else _) as [|v vs]; [left; split; [done|]; by apply remove_middle | right; split; [done|]; by apply change_middle].
  - left. split; [|done]. apply List.Forall_forall. intros f Hf. exact (List.find_none _ _ E f Hf).
Qed.
End Toggle.

(** An option of several values: when one of its values was selected they are all taken out, otherwise its value is added. *)
Lemma toggle_several fresh filters k label o :
  let lab := filterLabel o ?? label in
  let out := toggleFilterOption fresh filters k label o in
  NoDup (map f_id filters) -> fresh ∉ map f_id filters -> comparison o = None -> single_value k o = false -> isDateComparison k [o_id o] = false ->
  Forall (fun f => keyed k lab is_ f = true -> stands_alone f = false) filters ->
  (forall s, selected k lab is_ out s = if existsb (selected k lab is_ filters) (o_id o :: aliases o ?? []) then selected k lab is_ filters s && negb (means o s) else selected k lab is_ filters s || (o_id o =s s))
  /\ (forall k' lab' p s, (k', lab', p) <> (k, lab, is_) -> selected k' lab' p out s = selected k' lab' p filters s)
  /\ List.filter (fun f => negb (keyed k lab is_ f)) out = List.filter (fun f => negb (keyed k lab is_ f)) (consolidateFilters filters)
  /\ NoDup (map f_id out).
Proof.
  intros lab out Hids Hfresh Hcomp Hsingle Hdate Hjoin.
  assert (Hsel : existsb (selected k lab is_ filters) (o_id o :: aliases o ?? []) = existsb (selected k lab is_ (consolidateFilters filters)) (o_id o :: aliases o ?? [])).
  { apply existsb_same. intros s. by rewrite consolidate_selected. }
  assert (Hn : NoDup (map f_id (consolidateFilters filters))) by (eapply sublist_NoDup; [exact Hids | apply consolidate_ids]).
  assert (Hother : forall k' lab' p f, keyed k lab is_ f = true -> (k', lab', p) <> (k, lab, is_) -> keyed k' lab' p f = false).
  { intros k' lab' p f (E1 & E2 & E3)%keyed_spec Hne. apply not_true_iff_false. intros (<- & <- & <-)%keyed_spec. congruence. }
  rewrite Hsel. pose proof (toggle_cases fresh filters k label o Hids Hcomp Hsingle Hjoin) as Hc. fold lab out in Hc. destruct Hc as [[Hnone Eo] | (a & g & b & Eb & Hg & Ha & Hb & Hvs)].
  - assert (Hk : keyed k lab is_ (fromOption fresh k lab o) = true) by (apply keyed_spec; unfold fromOption; by rewrite Hcomp, Hdate). rewrite Eo. split; [|split; [|split]].
    + intros s. rewrite <- (consolidate_selected k lab is_ filters s), selected_app, selected_singleton, Hk, !(selected_none k lab is_ (consolidateFilters filters)) by done.
      rewrite existsb_none by (apply List.Forall_forall; intros; by apply selected_none). cbn. by rewrite orb_false_r.
    + intros k' lab' p s Hne. rewrite selected_app, selected_singleton, consolidate_selected, (Hother _ _ _ _ Hk Hne). by rewrite orb_false_r.
    + rewrite List.filter_app. cbn [List.filter]. rewrite Hk. cbn. by rewrite app_nil_r.
    + rewrite map_app. apply NoDup_app. split; [done|]. split; [|apply NoDup_singleton]. intros x Hx Hy. cbn in Hy. apply list_elem_of_singleton in Hy as ->. apply Hfresh. eapply sublist_subseteq; [apply (consolidate_ids filters)|]; exact Hx.
  - assert (Hm : existsb (fun v => means o (value v)) (filterValues g) = existsb (selected k lab is_ (consolidateFilters filters)) (o_id o :: aliases o ?? [])).
    { rewrite existsb_means. apply existsb_same. intros s. symmetry. rewrite Eb. by apply selected_one. }
    cbv zeta in Hvs. rewrite Hm in Hvs. set (sel := existsb (selected k lab is_ (consolidateFilters filters)) (o_id o :: aliases o ?? [])) in *. clearbody sel.
    assert (Hval : forall s, has_value s (if sel then List.filter (fun v => negb (means o (value v))) (filterValues g) else filterValues g ++ [option_value o])
                             = if sel then selected k lab is_ filters s && negb (means o s) else selected k lab is_ filters s || (o_id o =s s)).
    { intros s. rewrite <- (consolidate_selected k lab is_ filters s), Eb, selected_one by done. destruct sel; [by rewrite (has_value_filter s (fun x => negb (means o x)))|]. rewrite has_value_app. cbn. by rewrite orb_false_r. }
    assert (Hsub : forall k' lab' p s, (k', lab', p) <> (k, lab, is_) -> selected k' lab' p filters s = selected k' lab' p a s || selected k' lab' p b s).
    { intros k' lab' p s Hne. rewrite <- consolidate_selected, Eb. change (g :: b) with ([g] ++ b). rewrite !selected_app, selected_singleton, (Hother _ _ _ _ Hg Hne). done. }
    rewrite Eb in Hn. destruct Hvs as [[Ev Eo] | [Hv Eo]]; rewrite Eo, Eb; (split; [|split; [|split]]).
    + intros s. rewrite <- Hval, Ev. apply selected_none. apply Forall_app. by split.
    + intros k' lab' p s Hne. rewrite selected_app. by rewrite Hsub.
    + rewrite !List.filter_app. cbn [List.filter]. by rewrite Hg.
    + eapply sublist_NoDup; [exact Hn|]. rewrite !map_app. apply sublist_app; [done|]. by apply sublist_cons.
    + intros s. rewrite <- Hval. rewrite selected_one; [by apply has_value_with | done | done | by rewrite keyed_with_values].
    + intros k' lab' p s Hne. rewrite Hsub by done. match goal with |- selected _ _ _ (_ ++ ?x :: b) _ = _ => change (x :: b) with ([x] ++ b) end. rewrite !selected_app, selected_singleton, keyed_with_values, (Hother _ _ _ _ Hg Hne). done.
    + rewrite !List.filter_app. cbn [List.filter]. by rewrite keyed_with_values, Hg.
    + rewrite map_app. cbn [map]. rewrite with_values_id. by rewrite map_app in Hn.
Qed.

(** What choosing a single value does: the chip is added when the bar has none of its kind; otherwise the first one is dropped when it is switched off, and else replaced in its place and under its name. *)
Definition placed (kind off : Filter -> bool) (bar : list Filter) (new : Filter) (out : list Filter) : Prop :=
  (Forall (fun f => kind f = false) bar /\ out = bar ++ [new])
  \/ exists a g b, bar = a ++ g :: b /\ Forall (fun f => kind f = false) a /\ kind g = true /\ out = if off g then a ++ b else a ++ with_id (f_id g) new :: b.

Lemma placed_ids kind off bar new out : placed kind off bar new out -> NoDup (map f_id bar) -> f_id new ∉ map f_id bar -> NoDup (map f_id out).
Proof.
  intros [[_ ->] | (a & g & b & -> & _ & _ & ->)] Hn Hf.
  - rewrite map_app. apply NoDup_app. split; [done|]. split; [|apply NoDup_singleton]. intros x Hx Hy. cbn in Hy. by apply list_elem_of_singleton in Hy as ->.
  - destruct (off g); [|by rewrite map_app in *]. eapply sublist_NoDup; [exact Hn|]. rewrite !map_app. apply sublist_app; [done|]. by apply sublist_cons.
Qed.

Lemma toggle_number fresh filters k label o : NoDup (map f_id filters) -> isSome (comparison o) = true ->
  let lab := filterLabel o ?? label in
  placed (fun f => chip_of k lab f && isCustomerNumberComparison (operator f)) (fun _ => false) (consolidateFilters filters) (fromOption fresh k lab o) (toggleFilterOption fresh filters k label o).
Proof.
  intros Hids Hc lab. assert (Hn : NoDup (map f_id (consolidateFilters filters))) by (eapply sublist_NoDup; [exact Hids | apply consolidate_ids]). unfold toggleFilterOption. rewrite Hc. fold lab. destruct (List.find _ _) as [g|] eqn:E.
  - right. destruct (find_split _ _ _ E) as (Hg & a & b & Eb & Ha). exists a, g, b. rewrite Eb in Hn |- *. repeat split; try done. exact (change_middle (fun _ => with_id (f_id g) (fromOption fresh k lab o)) a g b Hn).
  - left. split; [|done]. apply List.Forall_forall. intros f Hf. exact (List.find_none _ _ E f Hf).
Qed.

Lemma toggle_single fresh filters k label o : NoDup (map f_id filters) -> comparison o = None -> single_value k o = true ->
  let lab := filterLabel o ?? label in
  placed (chip_of k lab) (fun g => has_value (o_id o) (filterValues g)) (consolidateFilters filters) (fromOption fresh k lab o) (toggleFilterOption fresh filters k label o).
Proof.
  intros Hids Hc Hs lab. assert (Hn : NoDup (map f_id (consolidateFilters filters))) by (eapply sublist_NoDup; [exact Hids | apply consolidate_ids]). unfold toggleFilterOption. rewrite Hc, Hs. cbn [isSome orb]. fold lab.
  assert (Hk : forall f, chip_of k lab f && true = chip_of k lab f) by (intros; apply andb_true_r). destruct (List.find _ _) as [g|] eqn:E.
  - right. destruct (find_split _ _ _ E) as (Hg & a & b & Eb & Ha). rewrite Hk in Hg. exists a, g, b. rewrite Eb in Hn |- *. split; [done|]. split; [eapply Forall_impl; [exact Ha|]; intros f; cbn; by rewrite Hk|]. split; [done|].
    destruct (has_value _ _); [by apply remove_middle | exact (change_middle (fun _ => with_id (f_id g) (fromOption fresh k lab o)) a g b Hn)].
  - left. split; [|done]. apply List.Forall_forall. intros f Hf. rewrite <- Hk. exact (List.find_none _ _ E f Hf).
Qed.

(** C36 (chip_toggle_faithful).  Toggling an option, in a bar without doubled names: chips of one filter are joined first, which changes no selection.  A number option replaces the number chip of its filter, in place and under its name,
    or is appended when there is none.  A date, of which a filter holds one, is dropped when the filter's chip has it, and otherwise replaces that chip or is appended; in both cases the new chip has the option as its only value and the
    option's operator.  Any other option, whose filter's chips can be joined and whose value is no point in time, changes the selection of that filter by exactly that option: when one of its values was selected they are all taken out,
    otherwise its value is added; what every other filter selects stays as it is and the chips of other filters are not touched.  No name is doubled. *)
Theorem chip_toggle_faithful fresh filters k label o :
  let lab := filterLabel o ?? label in
  let bar := consolidateFilters filters in
  let new := fromOption fresh k lab o in
  let out := toggleFilterOption fresh filters k label o in
  NoDup (map f_id filters) -> fresh ∉ map f_id filters ->
  (forall k' lab' p s, selected k' lab' p bar s = selected k' lab' p filters s)
  /\ (chip_of k lab new = true /\ value_ids new = [o_id o] /\ forall c, comparison o = Some c -> operator new = c)
  /\ (isSome (comparison o) = true -> placed (fun f => chip_of k lab f && isCustomerNumberComparison (operator f)) (fun _ => false) bar new out /\ NoDup (map f_id out))
  /\ (comparison o = None -> single_value k o = true -> placed (chip_of k lab) (fun g => has_value (o_id o) (filterValues g)) bar new out /\ NoDup (map f_id out))
  /\ (comparison o = None -> single_value k o = false -> isDateComparison k [o_id o] = false -> Forall (fun f => keyed k lab is_ f = true -> stands_alone f = false) filters ->
      (forall s, selected k lab is_ out s = if existsb (selected k lab is_ filters) (o_id o :: aliases o ?? []) then selected k lab is_ filters s && negb (means o s) else selected k lab is_ filters s || (o_id o =s s))
      /\ (forall k' lab' p s, (k', lab', p) <> (k, lab, is_) -> selected k' lab' p out s = selected k' lab' p filters s)
      /\ List.filter (fun f => negb (keyed k lab is_ f)) out = List.filter (fun f => negb (keyed k lab is_ f)) bar
      /\ NoDup (map f_id out)).
Proof.
  intros lab bar new out Hids Hfresh.
  assert (Hn : NoDup (map f_id bar)) by (eapply sublist_NoDup; [exact Hids | apply consolidate_ids]). assert (Hf : f_id new ∉ map f_id bar) by (intros H; apply Hfresh; eapply sublist_subseteq; [apply (consolidate_ids filters)|]; exact H).
  split; [intros; apply consolidate_selected|]. split; [|split; [|split]].
  - split; [apply andb_true_iff; split; [by apply is_key_spec | apply String.eqb_refl]|]. split; [done|]. intros c E. unfold new, fromOption. cbn [operator]. by rewrite E.
  - intros Hc. pose proof (toggle_number fresh filters k label o Hids Hc) as H. split; [exact H | by eapply placed_ids].
  - intros Hc Hs. pose proof (toggle_single fresh filters k label o Hids Hc Hs) as H. split; [exact H | by eapply placed_ids].
  - intros Hc Hs Hd Hj. by apply toggle_several.
Qed.

(** ** Examples *)

Module Demo.
Definition bug : FilterOption := mkOption "l1" "Bug" None None None None None None.
Definition chips : list Filter :=
  [mkFilter "p" K_priority "Priority" is_ "1" "Urgent" None None None (Some [VText "1"]) None;
   mkFilter "a" K_labels "Labels" is_ "l2" "Idea" None None None (Some [VObject (Some "l2") None None; VOther]) None;
   mkFilter "b" K_labels "Labels" is_ "l3" "Task" None None None None None].

(** Two chips of labels are joined, and the option is added to them; a second toggle takes it out again. *)
Lemma chip_toggle_faithful_witness :
  map (fun f => (f_id f, value_ids f)) (toggleFilterOption "n" chips K_labels "Labels" bug) = [("p", ["1"]); ("a", ["l2"; "l3"; "l1"])]
  /\ selected K_labels "Labels" is_ (toggleFilterOption "n" chips K_labels "Labels" bug) "l1" = true.
Proof.
  split; [reflexivity|]. destruct (chip_toggle_faithful "n" chips K_labels "Labels" bug) as (_ & _ & _ & _ & H); [apply (bool_decide_eq_true_1 (NoDup (map f_id chips))); reflexivity | apply (bool_decide_eq_true_1 ("n" ∉ map f_id chips)); reflexivity|].
  destruct H as [H _]; [reflexivity | reflexivity | reflexivity | repeat (apply Forall_cons_2; [reflexivity|]); apply Forall_nil_2|]. rewrite H. reflexivity.
Defined.

(** Another date replaces the date of its filter under its name; the same date again drops it.  Another number replaces a number. *)
Definition due (v : string) : FilterOption := mkOption v v None (Some "Due date") None None None None.
Definition count (v : string) : FilterOption := mkOption v v None (Some "Customer count") None None (Some gte) None.
Lemma single_value_examples :
  let one := toggleFilterOption "d" chips K_dates "Dates" (due "due:+1w") in
  let two := toggleFilterOption "e" one K_dates "Dates" (due "due:+2w") in
  map f_id one = ["p"; "a"; "d"] /\ map (fun f => (f_id f, value_ids f)) two = [("p", ["1"]); ("a", ["l2"; "l3"]); ("d", ["due:+2w"])]
  /\ map f_id (toggleFilterOption "g" two K_dates "Dates" (due "due:+2w")) = ["p"; "a"]
  /\ map (fun f => (f_id f, value_ids f, operator f)) (toggleFilterOption "y" (toggleFilterOption "x" [] K_customers "Customers" (count "customer-count:3")) K_customers "Customers" (count "customer-count:5")) = [("x", ["customer-count:5"], gte)].
Proof. vm_compute. repeat split. Qed.

Lemma operator_examples :
  normalizeFilterOperator K_labels includesAll ["a"] = is_ /\ normalizeFilterOperator K_labels excludesAll ["a"] = isNot /\ normalizeFilterOperator K_dates is_ ["due:+1w"] = before
  /\ normalizeFilterOperator K_customers is_ ["customer-count:3"] = gte /\ parseDateFilterValue "created:-3m" = Some (mkParsed D_created (inl (-90)))
  /\ parseDateFilterValue "due:2026-01-31" = Some (mkParsed D_due (inr "2026-01-31")) /\ parseDateFilterValue "due:+w" = None /\ customerNumberQueryValue "customer-count:3" gte = "customer-count:gte:3".
Proof. vm_compute. repeat split. Qed.
End Demo.
