(* ===== verification/AdvancedFilter.v ===== *)
(** * The advanced filter (web/src/components/issue-explorer/advanced-filter.ts)

    An advanced chip carries a tree of conditions joined by and / or, at most three levels deep.  A tree is read from
    storage through [sanitizeGroup]; the editor changes it with pure functions; a bar of chips is shared as the base64
    text of its JSON.  A name that [filterId] would make is an argument: [fresh] gives one for every place in a tree. *)

From Stdlib Require Import Ascii String ZArith Lia Bool List.
From stdpp Require Import base list strings.
From S2P Require Import Prelude JsString JsMap JsNumber Json Regex Protocol Mapping Base64 FilterChips.

Local Set Warnings "-register-all,-notation-for-abbreviation".

(** ** Trees *)

Inductive Conjunction := c_and | c_or.
#[export] Instance Conjunction_eq : EqDecision Conjunction. Proof. solve_decision. Defined.

(** A value of a condition: an object with a text [value]. *)
Record ConditionValue := mkConditionValue { cv_value : string; cv_label : option string; cv_color : option string }.
Record Condition := mkCondition { c_id : option string; c_field : FilterKey; c_fieldLabel : string; c_operator : Operator; c_values : list ConditionValue }.
Inductive Node := Cond (c : Condition) | Group (id : string) (conjunction : Conjunction) (items : list Node).

Definition ADVANCED_FILTER_MAX_DEPTH : nat := 3.
Definition ADVANCED_FIELD_LABEL : string := "Advanced filter".
Definition LEGACY_FIELDS : list (string * (FilterKey * string)) :=
  [("status", (K_status, "Status")); ("assignee", (K_assignee, "Assignee")); ("priority", (K_priority, "Priority")); ("labels", (K_labels, "Labels")); ("project", (K_project, "Project"))].

Definition defaultConjunction (depth : nat) : Conjunction := if (depth mod 2 =? 0)%nat then c_and else c_or.
Definition emptyAdvancedTree (fresh : string) : Node := Group fresh c_and [].

Definition items (n : Node) : list Node := match n with Group _ _ l => l | Cond _ => [] end.
Definition node_id (n : Node) : option string := match n with Cond c => c_id c | Group i _ _ => Some i end.
Definition has_id (i : string) (n : Node) : bool := bool_decide (node_id n = Some i).

(** A tree as a chip holds it. *)
Definition store_condition_value (v : ConditionValue) : StoredValue := VObject (Some (cv_value v)) (cv_label v) (cv_color v).
Definition conjunction_text (c : Conjunction) : string := match c with c_and => "and" | c_or => "or" end.

Fixpoint store (n : Node) : StoredNode :=
  match n with
  | Cond c => NCondition (c_id c) (Some (c_field c)) (Some (c_fieldLabel c)) (Some (c_operator c)) (Some (map store_condition_value (c_values c)))
  | Group i c l => NGroup (Some i) (Some (conjunction_text c)) (map store l)
  end.

Definition createAdvancedFilter (fresh : string) (t : Node) : Filter :=
  mkFilter fresh K_advanced ADVANCED_FIELD_LABEL is_ "" "" None None None (Some []) (Some (store t)).

Definition sanitize_value (v : StoredValue) : list ConditionValue :=
  match v with
  | VText s => [mkConditionValue s (Some s) None]
  | VObject (Some s) l c => [mkConditionValue s l c]
  | VObject None _ _ | VOther => []
  end.

(** [items.flatMap((item, index) => ...)] *)
Fixpoint flat_mapi {A B} (f : nat -> A -> list B) (i : nat) (l : list A) : list B :=
  match l with [] => [] | x :: r => f i x ++ flat_mapi f (S i) r end.

(** What [sanitizeGroup] makes of a node that is a group at depth [depth]; [path] is its place. *)
Fixpoint sanitize (fresh : list nat -> string) (depth : nat) (path : list nat) (n : StoredNode) : list Node :=
  match n with
  | NGroup i c l =>
      if (depth <? ADVANCED_FILTER_MAX_DEPTH)%nat then
        [Group (i ?? fresh path) (if bool_decide (c = Some "or") then c_or else c_and) (flat_mapi (fun j => sanitize fresh (S depth) (path ++ [j])) 0 l)]
      else []
  | NCondition i (Some k) label o vs =>
      [Cond (mkCondition i k (label ?? key_text k) (o ?? is_) (flat_map sanitize_value (vs ?? [])))]
  | NCondition _ None _ _ _ | NJunk => []
  end.

(** The conditions of the legacy form [values: ['field:id']]. *)
Definition legacy_condition (id : string) (index : nat) (v : FilterValue) : list Node :=
  match cut ":" (value v) with
  | Some (k, r) =>
      match map_get k LEGACY_FIELDS with
      | Some (key, label) => [Cond (mkCondition (Some (id +:+ "-" +:+ showZ (Z.of_nat index))) key label is_ [mkConditionValue r (Some (valueLabel v)) (color v ?? None)])]
      | None => []
      end
  | None => []
  end.

Definition advancedFilterTree (fresh : list nat -> string) (f : Filter) : Node :=
  match tree f with
  | Some (NGroup i c l) => Group (i ?? fresh []) (if bool_decide (c = Some "or") then c_or else c_and) (flat_mapi (fun j => sanitize fresh 1 [j]) 0 l)
  | _ => Group (f_id f +:+ "-root") c_and (flat_mapi (legacy_condition (f_id f)) 0 (filterValues f))
  end.

Definition with_tree (t : Node) (f : Filter) : Filter :=
  mkFilter (f_id f) (field f) (fieldLabel f) (operator f) (f_value f) (f_valueLabel f) (f_color f) (operatorLabel f) (negativeOperatorLabel f) (values f) (Some (store t)).

(** An advanced chip as [normalizeStoredFilters] writes it. *)
Definition normal_chip (fresh : list nat -> string) (f : Filter) : Filter :=
  if is_key K_advanced (field f) then
    mkFilter (f_id f) (field f) ADVANCED_FIELD_LABEL is_ "" "" (f_color f) (operatorLabel f) (negativeOperatorLabel f) (Some []) (Some (store (advancedFilterTree fresh f)))
  else f.

(** The argument is [None] when it is no array, an entry is [None] when it is no chip. *)
Definition normalizeStoredFilters (fresh : list nat -> string) (filters : option (list (option Filter))) : list Filter :=
  map (normal_chip fresh) (omap (fun f => f) (filters ?? [])).

Definition conditionAsFilter (c : Condition) : Filter :=
  let first := match c_values c with v :: _ => v | [] => mkConditionValue "" (Some "") None end in
  mkFilter (c_id c ?? "") (c_field c) (c_fieldLabel c) (c_operator c) (cv_value first) (cv_label first ?? "") (cv_color first) None None (Some (map store_condition_value (c_values c))) None.

Definition createCondition (fresh : string) (k : FilterKey) (label : string) (v : FilterValue) (o : Operator) : Condition :=
  mkCondition (Some fresh) k label o [mkConditionValue (value v) (Some (valueLabel v)) (color v ?? None)].

(** ** Edits *)

Fixpoint mapGroup (i : string) (change : Node -> Node) (n : Node) : Node :=
  match n with
  | Cond c => Cond c
  | Group j c l => if j =s i then change n else Group j c (map (mapGroup i change) l)
  end.

(** [group => ({ ...group, items: [...group.items, node] })] *)
Definition append_node (x : Node) (n : Node) : Node := match n with Group j c l => Group j c (l ++ [x]) | Cond c => Cond c end.
Definition toggle_conjunction (n : Node) : Node := match n with Group j c l => Group j (match c with c_and => c_or | c_or => c_and end) l | Cond c => Cond c end.

Definition addConditionToGroup (t : Node) (i : string) (c : Condition) : Node := mapGroup i (append_node (Cond c)) t.

(** The depth of the first group with the name, in the order of the tree. *)
Fixpoint groupDepth (depth : nat) (i : string) (n : Node) : option nat :=
  match n with
  | Cond _ => None
  | Group j _ l =>
      if j =s i then Some depth
      else (fix first l := match l with [] => None | x :: r => match groupDepth (S depth) i x with Some d => Some d | None => first r end end) l
  end.

Definition addGroupToGroup (fresh : string) (t : Node) (i : string) : Node * option string :=
  match groupDepth 0 i t with
  | None => (t, None)
  | Some d =>
      if (ADVANCED_FILTER_MAX_DEPTH <=? d + 1)%nat then (t, None)
      else (mapGroup i (append_node (Group fresh (defaultConjunction (d + 1)) [])) t, Some fresh)
  end.

Definition toggleGroupConjunction (t : Node) (i : string) : Node := mapGroup i toggle_conjunction t.

Fixpoint removeNode (i : string) (n : Node) : Node :=
  match n with
  | Cond c => Cond c
  | Group j c l => Group j c (flat_map (fun x => if has_id i x then [] else [removeNode i x]) l)
  end.

Fixpoint update_node (i : string) (change : Condition -> Condition) (n : Node) : Node :=
  match n with
  | Cond c => if bool_decide (c_id c = Some i) then Cond (change c) else Cond c
  | Group j c l => Group j c (map (update_node i change) l)
  end.
Definition updateCondition (t : Node) (i : string) (change : Condition -> Condition) : Node := update_node i change t.

Definition set_values (vs : list ConditionValue) (c : Condition) : Condition :=
  mkCondition (c_id c) (c_field c) (c_fieldLabel c) (normalizeFilterOperator (c_field c) (c_operator c) (map cv_value vs)) vs.

Definition setConditionValues (t : Node) (i : string) (vs : list ConditionValue) : Node :=
  match vs with [] => removeNode i t | _ => updateCondition t i (set_values vs) end.

(** A node of a pruned group: nothing when it is empty. *)
Fixpoint prune (n : Node) : list Node :=
  match n with
  | Cond c => match c_values c with [] => [] | _ => [Cond c] end
  | Group j c l => match flat_map prune l with [] => [] | l' => [Group j c l'] end
  end.
Definition pruneEmptyGroups (n : Node) : Node := match n with Group j c l => Group j c (flat_map prune l) | Cond c => Cond c end.

Fixpoint treeDepth (n : Node) : nat :=
  match n with
  | Cond _ => 0
  | Group _ _ l => S (foldr (fun x d => Nat.max (treeDepth x) d) 0%nat l)
  end.

Fixpoint treeConditions (n : Node) : list Condition :=
  match n with Cond c => [c] | Group _ _ l => flat_map treeConditions l end.

Definition countFilterConditions (fresh : list nat -> string) (filters : option (list (option Filter))) : nat :=
  foldr (fun f total => ((if is_key K_advanced (field f) then length (treeConditions (advancedFilterTree fresh f)) else 1) + total)%nat) 0%nat (normalizeStoredFilters fresh filters).

(** ** The summary of a chip *)

Record AdvancedSummaryPart := mkPart { p_conjunction : option Conjunction; p_condition : Condition; p_operatorLabel : string }.

(** [visit]: the parts of the nodes of a group with conjunction [c], appended to the parts found so far. *)
Fixpoint visit_node (c : Conjunction) (parts : list AdvancedSummaryPart) (n : Node) : list AdvancedSummaryPart :=
  match n with
  | Group _ c' l => fold_left (visit_node c') l parts
  | Cond d => match c_values d with
              | [] => parts
              | _ => parts ++ [mkPart (match parts with [] => None | _ => Some c end) d (filterOperatorLabel (c_field d) (c_operator d) (None, None) (map cv_value (c_values d)))]
              end
  end.

Definition advancedFilterSummary (t : Node) (shown : nat) : list AdvancedSummaryPart * nat :=
  let parts := visit_node c_and [] t in (take shown parts, (length parts - shown)%nat).

(** Filters worth saving. *)
Definition savableFilters (fresh : list nat -> string) (filters : list Filter) : list Filter :=
  flat_map (fun f =>
    if negb (is_key K_advanced (field f)) then [f]
    else let t := pruneEmptyGroups (advancedFilterTree fresh f) in match items t with [] => [] | _ => [with_tree t f] end) filters.

(** ** The address of a bar *)

Section Address.
(** [JSON.stringify] of the chips, and [JSON.parse] with what its value is to [normalizeStoredFilters]. *)
Context (stringify : list Filter -> string) (parse : string -> option (option (list (option Filter)))).

Definition encodeFiltersParam (filters : list Filter) : string := base64Url (utf8 (stringify filters)).

Definition decodeFiltersParam (fresh : list nat -> string) (v : option string) : list Filter :=
  match v with
  | None | Some "" => []
  | Some s =>
      match atob (map_string std_char s) with
      | None => []
      | Some bytes => match parse (from_utf8 bytes) with None => [] | Some filters => normalizeStoredFilters fresh filters end
      end
  end.
End Address.

(** ** Induction over trees *)

Fixpoint node_rect' (P : Node -> Prop) (Hc : forall c, P (Cond c)) (Hg : forall i c l, Forall P l -> P (Group i c l)) (n : Node) : P n :=
  match n with
  | Cond c => Hc c
  | Group i c l => Hg i c l ((fix all l := match l return Forall P l with [] => Forall_nil_2 P | x :: r => Forall_cons_2 P x r (node_rect' P Hc Hg x) (all r) end) l)
  end.

Lemma flat_map_ext_Forall {A B} (f g : A -> list B) l : Forall (fun x => f x = g x) l -> flat_map f l = flat_map g l.
Proof. induction 1 as [|x l E _ IH]; [done|]. cbn. by rewrite E, IH. Qed.

Lemma map_id_Forall {A} (f : A -> A) l : Forall (fun x => f x = x) l -> map f l = l.
Proof. induction 1 as [|x l E _ IH]; [done|]. cbn. by rewrite E, IH. Qed.

(** ** Depth *)

(** The depth of a list of nodes: that of a group around them, less one. *)
Definition depths (l : list Node) : nat := foldr (fun x d => Nat.max (treeDepth x) d) 0%nat l.

Lemma depths_le l d : (depths l <= d)%nat <-> Forall (fun x => (treeDepth x <= d)%nat) l.
Proof. unfold depths. induction l as [|x l IH]; cbn; [split; [constructor | lia]|]. rewrite Forall_cons, <- IH. lia. Qed.

Lemma group_depth i c l d : (treeDepth (Group i c l) <= S d)%nat <-> Forall (fun x => (treeDepth x <= d)%nat) l.
Proof. rewrite <- depths_le. change (treeDepth (Group i c l)) with (S (depths l)). lia. Qed.

Lemma depth_zero n : (treeDepth n <= 0)%nat -> exists c, n = Cond c.
Proof. destruct n; cbn; [eauto | lia]. Qed.

Lemma flat_mapi_Forall {A B} (P : B -> Prop) (f : nat -> A -> list B) i l : Forall (fun x => forall j, Forall P (f j x)) l -> Forall P (flat_mapi f i l).
Proof. intros H. revert i. induction H as [|x l Hx _ IH]; intros i; cbn; [constructor|]. apply Forall_app. auto. Qed.

Fixpoint stored_ind' (P : StoredNode -> Prop) (Hj : P NJunk) (Hc : forall i k l o v, P (NCondition i k l o v)) (Hg : forall i c l, Forall P l -> P (NGroup i c l)) (n : StoredNode) : P n :=
  match n with
  | NJunk => Hj
  | NCondition i k l o v => Hc i k l o v
  | NGroup i c l => Hg i c l ((fix all l := match l return Forall P l with [] => Forall_nil_2 P | x :: r => Forall_cons_2 P x r (stored_ind' P Hj Hc Hg x) (all r) end) l)
  end.

(** Whatever is stored, the tree read from it is at most three levels deep. *)
Lemma sanitize_depth fresh n depth path : Forall (fun x => (treeDepth x <= ADVANCED_FILTER_MAX_DEPTH - depth)%nat) (sanitize fresh depth path n).
Proof.
  revert depth path. induction n as [|i k l o v|i c l IH] using stored_ind'; intros depth path; cbn [sanitize]; [constructor | destruct k; repeat constructor; cbn; lia |].
  destruct (Nat.ltb_spec depth ADVANCED_FILTER_MAX_DEPTH); [|constructor]. constructor; [|constructor]. replace (ADVANCED_FILTER_MAX_DEPTH - depth)%nat with (S (ADVANCED_FILTER_MAX_DEPTH - S depth)) by lia.
  apply group_depth, flat_mapi_Forall. eapply Forall_impl; [exact IH|]. intros x Hx j. exact (Hx (S depth) (path ++ [j])).
Qed.

Lemma tree_depth fresh f : (treeDepth (advancedFilterTree fresh f) <= ADVANCED_FILTER_MAX_DEPTH)%nat.
Proof.
  assert (H : (treeDepth (Group (f_id f +:+ "-root") c_and (flat_mapi (legacy_condition (f_id f)) 0 (filterValues f))) <= 3)%nat).
  { apply group_depth, flat_mapi_Forall, List.Forall_forall. intros v _ j. unfold legacy_condition. repeat case_match; repeat constructor; cbn; lia. }
  unfold advancedFilterTree. destruct (tree f) as [[i c l| |]|]; try exact H. apply group_depth, flat_mapi_Forall, List.Forall_forall. intros n _ j. exact (sanitize_depth fresh n 1 [j]).
Qed.

(** A tree of at most three levels that was stored is read as it was. *)
Lemma sanitize_store_values vs : flat_map sanitize_value (map store_condition_value vs) = vs.
Proof. induction vs as [|[v l c] vs IH]; [done|]. cbn. by rewrite IH. Qed.

Lemma flat_mapi_store (f : nat -> StoredNode -> list Node) i l : Forall (fun x => forall j, f j (store x) = [x]) l -> flat_mapi f i (map store l) = l.
Proof. intros H. revert i. induction H as [|x l Hx _ IH]; intros i; [done|]. cbn. by rewrite Hx, IH. Qed.

Lemma sanitize_store fresh n depth path : (treeDepth n <= ADVANCED_FILTER_MAX_DEPTH - depth)%nat -> sanitize fresh depth path (store n) = [n].
Proof.
  revert depth path. induction n as [c|i c l IH] using node_rect'; intros depth path Hd.
  - cbn. rewrite sanitize_store_values. by destruct c.
  - cbn [store sanitize default]. destruct (Nat.ltb_spec depth ADVANCED_FILTER_MAX_DEPTH); [|cbn [treeDepth] in Hd; lia].
    replace (ADVANCED_FILTER_MAX_DEPTH - depth)%nat with (S (ADVANCED_FILTER_MAX_DEPTH - S depth)) in Hd by lia. apply group_depth in Hd.
    rewrite flat_mapi_store; [by destruct c|]. revert IH Hd. rewrite !List.Forall_forall. intros IH Hd x Hx j. by apply IH, Hd.
Qed.

Lemma tree_store fresh f i c l : tree f = Some (store (Group i c l)) -> (treeDepth (Group i c l) <= ADVANCED_FILTER_MAX_DEPTH)%nat -> advancedFilterTree fresh f = Group i c l.
Proof.
  intros E Hd. pose proof (sanitize_store fresh (Group i c l) 0 [] ltac:(lia)) as H. unfold advancedFilterTree. rewrite E.
  assert (Hone : forall x y : Node, [x] = [y] -> x = y) by congruence. apply Hone. exact H.
Qed.

Lemma tree_group fresh f : exists i c l, advancedFilterTree fresh f = Group i c l.
Proof. unfold advancedFilterTree. destruct (tree f) as [[]|]; eauto. Qed.

(** Reading the chips of a bar twice is reading them once. *)
Lemma normal_chip_again fresh fresh' f : normal_chip fresh' (normal_chip fresh f) = normal_chip fresh f.
Proof.
  unfold normal_chip. destruct (is_key K_advanced (field f)) eqn:E; [|by rewrite E]. cbn [field]. rewrite E. cbn [f_id f_color operatorLabel negativeOperatorLabel]. do 2 f_equal.
  destruct (tree_group fresh f) as (i & c & l & Ht). f_equal. rewrite Ht. apply tree_store; [done|]. rewrite <- Ht. apply tree_depth.
Qed.

Lemma omap_Some {A} (l : list A) : omap (fun x => x) (map Some l) = l.
Proof. induction l as [|x l IH]; [done|]. cbn. by f_equal. Qed.

(** C37 (filter_address_roundtrip).  A bar of chips that is shared as the text of an address is read back as the bar that storage would give, trees of at most three levels included, and again the same when it is shared once more; the text needs no
    escaping; a text that is no base64 or no JSON is read as no filter. *)
Theorem filter_address_roundtrip stringify parse fresh fresh' filters bad :
  (forall l, l = filters \/ l = map (normal_chip fresh) filters -> startsWith "[" (stringify l) = true /\ parse (stringify l) = Some (Some (map Some l))) ->
  let read := decodeFiltersParam parse in
  let bar := read fresh (Some (encodeFiltersParam stringify filters)) in
  bar = map (normal_chip fresh) filters
  /\ all_unreserved (encodeFiltersParam stringify filters) = true
  /\ read fresh' (Some (encodeFiltersParam stringify bar)) = bar
  /\ Forall (fun f => field f = K_advanced -> exists t, tree f = Some (store t) /\ (treeDepth t <= ADVANCED_FILTER_MAX_DEPTH)%nat) bar
  /\ (atob (map_string std_char bad) = None \/ (exists b, atob (map_string std_char bad) = Some b /\ parse (from_utf8 b) = None) -> read fresh (Some bad) = []).
Proof.
  intros Hp read bar.
  assert (Hread : forall fr l, l = filters \/ l = map (normal_chip fresh) filters -> read fr (Some (encodeFiltersParam stringify l)) = map (normal_chip fr) l).
  { intros fr l [Hs Hj]%Hp. unfold read, decodeFiltersParam, encodeFiltersParam. pose proof (atob_base64Url (utf8 (stringify l)) (utf8_bytes _)) as Ha. destruct (base64Url_read _ (utf8_bytes (stringify l))) as (_ & _ & Hlen).
    rewrite Ha, from_utf8_utf8, Hj. destruct (base64Url (utf8 (stringify l))) as [|c s] eqn:E; [|unfold normalizeStoredFilters; change (Some (map Some l) ?? []) with (map Some l); by rewrite omap_Some].
    exfalso. rewrite utf8_length in Hlen. pose proof (byteLength_length (stringify l)). destruct (stringify l) as [|x r]; [done|]. cbn [String.length] in *. Z.to_euclidean_division_equations. lia. }
  assert (Hb : bar = map (normal_chip fresh) filters) by (apply Hread; by left). split; [done|]. split; [by destruct (base64Url_read _ (utf8_bytes (stringify filters))) as (_ & ? & _)|]. split; [|split].
  - rewrite Hb, Hread, map_map by (by right). apply map_ext. intros f. apply normal_chip_again.
  - rewrite Hb. apply List.Forall_forall. intros f (g & <- & _)%in_map_iff Hf. unfold normal_chip in *. destruct (is_key K_advanced (field g)) eqn:E; [|apply is_key_spec in Hf; congruence]. exists (advancedFilterTree fresh g). split; [done|]. apply tree_depth.
  - intros H. unfold read, decodeFiltersParam. destruct bad; [done|]. destruct H as [-> | (b & -> & ->)]; done.
Qed.

(** ** Edits *)

Fixpoint group_ids (n : Node) : list string := match n with Cond _ => [] | Group i _ l => i :: flat_map group_ids l end.
(** The names of the nodes below the root. *)
Fixpoint inner_ids (n : Node) : list (option string) := match n with Cond _ => [] | Group _ _ l => flat_map (fun x => node_id x :: inner_ids x) l end.

Definition valued (c : Condition) : bool := match c_values c with [] => false | _ => true end.
Fixpoint no_empty_groups (n : Node) : bool := match n with Cond c => valued c | Group _ _ l => match l with [] => false | _ => forallb no_empty_groups l end end.

Lemma in_group_ids i l : i ∈ flat_map group_ids l <-> exists x, In x l /\ i ∈ group_ids x.
Proof. rewrite list_elem_of_In, in_flat_map. by setoid_rewrite list_elem_of_In. Qed.

Lemma groupDepth_list k i l : (fix first l := match l with [] => None | x :: r => match groupDepth k i x with Some d => Some d | None => first r end end) l
  = match l with [] => None | x :: r => match groupDepth k i x with Some d => Some d | None => (fix first l := match l with [] => None | x :: r => match groupDepth k i x with Some d => Some d | None => first r end end) r end end.
Proof. by destruct l. Qed.

Definition first_depth (k : nat) (i : string) (l : list Node) : option nat := foldr (fun x r => match groupDepth k i x with Some d => Some d | None => r end) None l.

Lemma groupDepth_group k i j c l : groupDepth k i (Group j c l) = if j =s i then Some k else first_depth (S k) i l.
Proof. cbn [groupDepth]. destruct (j =s i); [done|]. unfold first_depth. induction l as [|x l IH]; [done|]. cbn [foldr]. by rewrite <- IH. Qed.

(** [groupDepth] finds every group of the tree. *)
Lemma groupDepth_none k i n : groupDepth k i n = None <-> i ∉ group_ids n.
Proof.
  revert k. induction n as [c|j c l IH] using node_rect'; intros k; [cbn; split; [intros _ H; inversion H | done]|]. rewrite groupDepth_group. cbn [group_ids]. rewrite not_elem_of_cons.
  destruct (String.eqb_spec j i) as [->|Hne]; [by split; [|intros [? _]]|].
  assert (G : first_depth (S k) i l = None <-> i ∉ flat_map group_ids l); [|rewrite G; split; [split; congruence | by intros [_ ?]]].
  clear Hne. induction IH as [|x l Hx _ IH]; [cbn; split; [intros _ H; inversion H | done]|]. cbn [first_depth foldr flat_map]. rewrite not_elem_of_app, <- (Hx (S k)), <- IH. by destruct (groupDepth (S k) i x); split; [ | intros [? _] | | intros [_ ?]].
Qed.

Lemma mapGroup_absent i f n : i ∉ group_ids n -> mapGroup i f n = n.
Proof.
  induction n as [c|j c l IH] using node_rect'; [done|]. cbn [group_ids mapGroup]. rewrite not_elem_of_cons. intros [Hj Hl]. destruct (String.eqb_spec j i) as [->|]; [done|]. f_equal. apply map_id_Forall.
  revert IH. rewrite !List.Forall_forall. intros IH x Hx. apply IH; [done|]. intros Hi. apply Hl, in_group_ids. eauto.
Qed.

(** In a list of nodes the group with a name is in at most one of them. *)
Lemma one_of_list i l : NoDup (flat_map group_ids l) -> i ∈ flat_map group_ids l -> exists a x b, l = a ++ x :: b /\ i ∈ group_ids x /\ NoDup (group_ids x) /\ (i ∉ flat_map group_ids a) /\ (i ∉ flat_map group_ids b).
Proof.
  intros Hn (x & Hx & Hi)%in_group_ids. apply in_split in Hx as (a & b & ->). rewrite flat_map_app in Hn. cbn [flat_map] in Hn. apply NoDup_app in Hn as (Ha & Hd & (Hx & Hd' & Hb)%NoDup_app). exists a, x, b.
  split; [done|]. split; [done|]. split; [done|]. split; [intros H; apply (Hd i H); apply elem_of_app; by left | by apply Hd'].
Qed.

Lemma map_absent i f l : i ∉ flat_map group_ids l -> map (mapGroup i f) l = l.
Proof. intros H. apply map_id_Forall, List.Forall_forall. intros x Hx. apply mapGroup_absent. intros Hi. apply H, in_group_ids. eauto. Qed.

Lemma first_depth_app k i a x b : i ∉ flat_map group_ids a -> i ∈ group_ids x -> first_depth k i (a ++ x :: b) = groupDepth k i x.
Proof.
  intros Ha Hx. induction a as [|y a IH]; cbn [app first_depth foldr].
  - destruct (groupDepth k i x) eqn:E; [done|]. by apply groupDepth_none in E.
  - cbn [flat_map] in Ha. apply not_elem_of_app in Ha as [Hy Ha]. apply (groupDepth_none k) in Hy. rewrite Hy. by apply IH.
Qed.

(** Adding a node to the group with a name: the conditions are those of before and the node's, and the tree is as deep as
    before or as the place of the node is. *)
Lemma append_spec i x n k d : NoDup (group_ids n) -> groupDepth k i n = Some d ->
  treeConditions (mapGroup i (append_node x) n) ≡ₚ treeConditions x ++ treeConditions n
  /\ (k <= d)%nat /\ (treeDepth (mapGroup i (append_node x) n) <= Nat.max (treeDepth n) (d - k + 1 + treeDepth x))%nat.
Proof.
  revert k. induction n as [c|j c l IH] using node_rect'; intros k Hn Hd; [done|]. rewrite groupDepth_group in Hd. cbn [mapGroup]. destruct (String.eqb_spec j i) as [->|Hne].
  - injection Hd as <-. cbn [append_node treeConditions]. split; [|split; [lia|]].
    + rewrite flat_map_app. cbn [flat_map]. rewrite app_nil_r. by rewrite Permutation_app_comm.
    + change (treeDepth (Group i c l)) with (S (depths l)). destruct (Nat.max (S (depths l)) (k - k + 1 + treeDepth x)) as [|m] eqn:E; [lia|]. apply group_depth, Forall_app. split; [apply depths_le; lia | constructor; [lia | constructor]].
  - cbn [group_ids] in Hn. apply NoDup_cons in Hn as [_ Hn]. assert (Hi : i ∈ flat_map group_ids l).
    { destruct (decide (i ∈ flat_map group_ids l)) as [|H]; [done|]. exfalso. assert (Hg : groupDepth k i (Group j c l) = None) by (apply groupDepth_none; cbn; rewrite not_elem_of_cons; by split; [congruence|]).
      rewrite groupDepth_group in Hg. destruct (j =s i) eqn:E; [done|]. congruence. }
    destruct (one_of_list i l Hn Hi) as (a & y & b & -> & Hy & Hny & Ha & Hb). rewrite first_depth_app in Hd by done. apply Forall_app in IH as [_ [IH _]%Forall_cons]. destruct (IH (S k) Hny Hd) as (H1 & H2 & H3).
    rewrite map_app. cbn [map]. rewrite (map_absent i _ a), (map_absent i _ b) by done. split; [|split; [lia|]].
    + cbn [treeConditions]. rewrite !flat_map_app. cbn [flat_map]. rewrite H1. rewrite !app_assoc. apply Permutation_app_tail. rewrite <- !app_assoc. apply Permutation_app_swap_app.
    + change (treeDepth (Group j c (a ++ y :: b))) with (S (depths (a ++ y :: b))). destruct (Nat.max (S (depths (a ++ y :: b))) (d - k + 1 + treeDepth x)) as [|m] eqn:E; [lia|]. assert (Hl : Forall (fun x => (treeDepth x <= depths (a ++ y :: b))%nat) (a ++ y :: b)) by (by apply depths_le).
      apply Forall_app in Hl as [Hla [Hly Hlb]%Forall_cons]. apply group_depth, Forall_app. split; [|constructor].
      * eapply Forall_impl; [exact Hla|]. cbn. lia.
      * lia.
      * eapply Forall_impl; [exact Hlb|]. cbn. lia.
Qed.

Lemma toggle_twice i n : toggleGroupConjunction (toggleGroupConjunction n i) i = n.
Proof.
  unfold toggleGroupConjunction. induction n as [c|j c l IH] using node_rect'; [done|]. cbn [mapGroup]. destruct (String.eqb_spec j i) as [->|Hne]; cbn [toggle_conjunction mapGroup].
  - rewrite String.eqb_refl. by destruct c.
  - apply String.eqb_neq in Hne. rewrite Hne, map_map. f_equal. by apply map_id_Forall.
Qed.

Lemma toggle_shape i n : treeConditions (toggleGroupConjunction n i) = treeConditions n /\ treeDepth (toggleGroupConjunction n i) = treeDepth n /\ group_ids (toggleGroupConjunction n i) = group_ids n.
Proof.
  unfold toggleGroupConjunction. induction n as [c|j c l IH] using node_rect'; [done|]. cbn [mapGroup]. destruct (String.eqb_spec j i) as [->|Hne]; [done|]. cbn [treeConditions treeDepth group_ids].
  assert (G : flat_map treeConditions (map (mapGroup i toggle_conjunction) l) = flat_map treeConditions l /\ depths (map (mapGroup i toggle_conjunction) l) = depths l
              /\ flat_map group_ids (map (mapGroup i toggle_conjunction) l) = flat_map group_ids l).
  { induction IH as [|x l (H1 & H2 & H3) _ (I1 & I2 & I3)]; [done|]. cbn. unfold depths in *. by rewrite H1, H2, H3, I1, I2, I3. }
  unfold depths in G. destruct G as (-> & -> & ->). done.
Qed.

(** A removed name is gone, and conditions that had neither it nor a group with it around them stay. *)
Lemma remove_spec i n : (Some i ∉ inner_ids (removeNode i n)) /\ sublist (treeConditions (removeNode i n)) (treeConditions n) /\ (treeDepth (removeNode i n) <= treeDepth n)%nat
  /\ (Some i ∉ inner_ids n -> removeNode i n = n).
Proof.
  induction n as [c|j c l IH] using node_rect'; [cbn; split; [intros H; inversion H | done]|]. cbn [removeNode inner_ids treeConditions].
  set (f := fun x => if has_id i x then [] else [removeNode i x]).
  assert (G : (Some i ∉ flat_map (fun x => node_id x :: inner_ids x) (flat_map f l)) /\ sublist (flat_map treeConditions (flat_map f l)) (flat_map treeConditions l) /\ (depths (flat_map f l) <= depths l)%nat
              /\ (Some i ∉ flat_map (fun x => node_id x :: inner_ids x) l -> flat_map f l = l)).
  { induction IH as [|x l (H1 & H2 & H3 & H4) _ (I1 & I2 & I3 & I4)]; [cbn; split; [intros H; inversion H | done]|]. cbn [flat_map]. unfold f at 1 3 5 7. assert (Hid : node_id (removeNode i x) = node_id x) by (by destruct x).
    destruct (has_id i x) eqn:E; cbn [app flat_map]; unfold depths in *; cbn [foldr].
    - apply bool_decide_eq_true in E. split; [done|]. split; [by apply sublist_inserts_l|]. split; [lia|]. rewrite E. intros H. destruct H. left.
    - apply bool_decide_eq_false in E. rewrite not_elem_of_cons, not_elem_of_app, Hid. split; [by split; [congruence|]|]. split; [by apply sublist_app|]. split; [lia|].
      rewrite not_elem_of_cons, not_elem_of_app. intros (_ & Hx & Hl). by rewrite H4, I4. }
  destruct G as (G1 & G2 & G3 & G4). split; [done|]. split; [done|]. split; [cbn; unfold depths in G3; lia|]. intros H. by rewrite G4.
Qed.

Definition pruned (n : Node) : Prop :=
  flat_map treeConditions (prune n) = List.filter valued (treeConditions n) /\ forallb no_empty_groups (prune n) = true /\ (depths (prune n) <= treeDepth n)%nat /\ (no_empty_groups n = true -> prune n = [n]).

Lemma depths_app a b : depths (a ++ b) = Nat.max (depths a) (depths b).
Proof. unfold depths. induction a as [|x a IH]; [done|]. cbn. rewrite IH. lia. Qed.

Lemma prune_list l : Forall pruned l -> flat_map treeConditions (flat_map prune l) = List.filter valued (flat_map treeConditions l) /\ forallb no_empty_groups (flat_map prune l) = true /\ (depths (flat_map prune l) <= depths l)%nat
  /\ (forallb no_empty_groups l = true -> flat_map prune l = l).
Proof.
  induction 1 as [|x l (H1 & H2 & H3 & H4) _ (I1 & I2 & I3 & I4)]; [done|]. cbn [flat_map forallb]. rewrite flat_map_app, List.filter_app, H1, I1, forallb_app, H2, I2, depths_app. split; [done|]. split; [done|]. split.
  - unfold depths in *. cbn [foldr]. lia.
  - intros [Hx Hl]%andb_true_iff. by rewrite H4, I4.
Qed.

Lemma prune_spec n : pruned n.
Proof.
  induction n as [c|j c l IH] using node_rect'; unfold pruned; [cbn [prune treeConditions List.filter no_empty_groups]; destruct (c_values c) eqn:E; unfold valued; rewrite E; cbn; unfold valued; rewrite ?E; done|].
  cbn [prune treeConditions no_empty_groups]. destruct (prune_list l IH) as (G1 & G2 & G3 & G4).
  destruct (flat_map prune l) as [|y r] eqn:E; (split; [cbn in *; rewrite ?app_nil_r; done|]; split; [cbn in *; rewrite ?andb_true_r; done|]; split; [unfold depths in *; cbn in *; lia|]).
  - destruct l; [done|]. intros H. by discriminate (G4 H).
  - destruct l; [done|]. intros H. by rewrite (G4 H).
Qed.

Lemma update_spec i f n : treeConditions (updateCondition n i f) = map (fun c => if bool_decide (c_id c = Some i) then f c else c) (treeConditions n) /\ treeDepth (updateCondition n i f) = treeDepth n
  /\ group_ids (updateCondition n i f) = group_ids n.
Proof.
  unfold updateCondition. induction n as [c|j c l IH] using node_rect'; cbn [update_node]; [by destruct (bool_decide (c_id c = Some i)) eqn:E; cbn; rewrite E|]. cbn [treeConditions treeDepth group_ids].
  assert (G : flat_map treeConditions (map (update_node i f) l) = map (fun c => if bool_decide (c_id c = Some i) then f c else c) (flat_map treeConditions l) /\ depths (map (update_node i f) l) = depths l
              /\ flat_map group_ids (map (update_node i f) l) = flat_map group_ids l).
  { induction IH as [|x l (H1 & H2 & H3) _ (I1 & I2 & I3)]; [done|]. cbn. unfold depths in *. by rewrite map_app, H1, H2, H3, I1, I2, I3. }
  unfold depths in G. destruct G as (-> & -> & ->). done.
Qed.

Lemma condition_inner c n : In c (treeConditions n) -> n = Cond c \/ c_id c ∈ inner_ids n.
Proof.
  induction n as [d|j e l IH] using node_rect'; cbn [treeConditions]; [intros [->|[]]; by left|]. intros (x & Hx & Hc)%in_flat_map. right. cbn [inner_ids]. apply list_elem_of_In, in_flat_map. exists x. split; [done|].
  rewrite List.Forall_forall in IH. destruct (IH x Hx Hc) as [->|H]; [by left | right; by apply list_elem_of_In].
Qed.

Lemma groupDepth_bound i n k d : groupDepth k i n = Some d -> (k <= d)%nat /\ (d - k + 1 <= treeDepth n)%nat.
Proof.
  revert k d. induction n as [c|j c l IH] using node_rect'; intros k d; [done|]. rewrite groupDepth_group. destruct (j =s i); [intros [= <-]; cbn; lia|]. intros E.
  assert (G : (S k <= d)%nat /\ (d - S k + 1 <= depths l)%nat); [|change (treeDepth (Group j c l)) with (S (depths l)); lia].
  revert E. induction IH as [|x l Hx _ IH]; [done|]. unfold depths, first_depth in *. cbn [foldr]. destruct (groupDepth (S k) i x) eqn:Ex; [intros [= ->]; apply Hx in Ex; lia | intros E; apply IH in E; lia].
Qed.

(** ** Places *)

(** The node at a place of the tree: a place is the list of the positions that lead to it, so a group at a place of length 2 is of the third level. *)
Inductive node_at : Node -> list nat -> Node -> Prop :=
  | at_here n : node_at n [] n
  | at_child i c l k x p n : l !! k = Some x -> node_at x p n -> node_at (Group i c l) (k :: p) n.

(** The tree with the node at a place exchanged. *)
Fixpoint put (p : list nat) (new n : Node) : Node :=
  match p, n with
  | [], _ => new
  | k :: p, Group i c l => match l !! k with Some x => Group i c (<[k := put p new x]> l) | None => n end
  | _ :: _, Cond _ => n
  end.

Lemma place_exists i n : i ∈ group_ids n -> exists p c l, node_at n p (Group i c l).
Proof.
  induction n as [d|j e l IH] using node_rect'; intros Hi; [by apply elem_of_nil in Hi|]. cbn [group_ids] in Hi. apply elem_of_cons in Hi as [->|Hi]; [exists [], e, l; constructor|].
  apply in_group_ids in Hi as (x & Hx & Hi). rewrite List.Forall_forall in IH. destruct (IH x Hx Hi) as (p & c & k & Hp). apply list_elem_of_In, list_elem_of_lookup_1 in Hx as [m Hm]. exists (m :: p), c, k. by econstructor.
Qed.

Lemma place_group n p i c l : node_at n p (Group i c l) -> i ∈ group_ids n.
Proof.
  intros H. remember (Group i c l) as g eqn:E. induction H as [n|j e k m x p n Hx _ IH]; subst n; cbn [group_ids]; [left|]. right. apply in_group_ids. exists x. split; [apply list_elem_of_In; by eapply list_elem_of_lookup_2 | by apply IH].
Qed.

(** The child on the way to a group is the only one that holds it. *)
Lemma child_split i l m x : NoDup (flat_map group_ids l) -> l !! m = Some x -> i ∈ group_ids x ->
  l = take m l ++ x :: drop (S m) l /\ NoDup (group_ids x) /\ (i ∉ flat_map group_ids (take m l)) /\ (i ∉ flat_map group_ids (drop (S m) l)).
Proof.
  intros Hn Hx Hi. assert (E : l = take m l ++ x :: drop (S m) l) by (by rewrite take_drop_middle). rewrite E, flat_map_app in Hn. cbn [flat_map] in Hn. apply NoDup_app in Hn as (_ & Hd & (Hnx & Hd' & _)%NoDup_app).
  split; [exact E|]. split; [exact Hnx|]. split; intros H; [apply (Hd i H), elem_of_app; by left | by apply (Hd' i Hi)].
Qed.

Lemma own_name i j (l : list Node) : NoDup (j :: flat_map group_ids l) -> i ∈ flat_map group_ids l -> (j =s i) = false.
Proof. intros [Hj _]%NoDup_cons Hi. apply String.eqb_neq. by intros ->. Qed.

Lemma mapGroup_put i f n p c l : NoDup (group_ids n) -> node_at n p (Group i c l) -> mapGroup i f n = put p (f (Group i c l)) n.
Proof.
  intros Hn H. pose proof H as Hi. apply place_group in Hi. remember (Group i c l) as g eqn:E. induction H as [n|j e k m x p n Hx Hp IH]; subst n; cbn [mapGroup put]; [by rewrite String.eqb_refl|].
  pose proof (place_group _ _ _ _ _ Hp) as Hix. cbn [group_ids] in Hn. assert (Hk : i ∈ flat_map group_ids k) by (apply in_group_ids; exists x; split; [apply list_elem_of_In; by eapply list_elem_of_lookup_2 | done]).
  rewrite (own_name i j k Hn Hk), Hx. apply NoDup_cons in Hn as [_ Hn]. destruct (child_split i k m x Hn Hx Hix) as (Ek & Hnx & Ha & Hb). rewrite <- (IH Hnx eq_refl Hix). f_equal.
  rewrite Ek at 1. rewrite map_app. cbn [map]. rewrite (map_absent i _ (take m k)), (map_absent i _ (drop (S m) k)) by done. rewrite insert_take_drop; [done|]. by eapply lookup_lt_Some.
Qed.

Lemma groupDepth_place i n p c l d : NoDup (group_ids n) -> node_at n p (Group i c l) -> groupDepth d i n = Some (d + length p)%nat.
Proof.
  intros Hn H. revert d. remember (Group i c l) as g eqn:E. induction H as [n|j e k m x p n Hx Hp IH]; intros d; subst n; rewrite groupDepth_group; [rewrite String.eqb_refl; f_equal; cbn; lia|].
  pose proof (place_group _ _ _ _ _ Hp) as Hix. cbn [group_ids] in Hn. assert (Hk : i ∈ flat_map group_ids k) by (apply in_group_ids; exists x; split; [apply list_elem_of_In; by eapply list_elem_of_lookup_2 | done]).
  rewrite (own_name i j k Hn Hk). apply NoDup_cons in Hn as [_ Hn]. destruct (child_split i k m x Hn Hx Hix) as (Ek & Hnx & Ha & _). rewrite Ek, first_depth_app, (IH Hnx eq_refl) by done. f_equal. cbn [length]. lia.
Qed.

(** A condition that no removed name stands above. *)
Inductive survives (i : string) : Node -> Condition -> Prop :=
  | survives_here d : survives i (Cond d) d
  | survives_child j c l x d : In x l -> node_id x <> Some i -> survives i x d -> survives i (Group j c l) d.

Lemma remove_survives i n d : In d (treeConditions (removeNode i n)) <-> survives i n d.
Proof.
  induction n as [e|j c l IH] using node_rect'; cbn [removeNode treeConditions].
  - split; [intros [->|[]]; constructor | intros H; inversion H; by left].
  - rewrite List.Forall_forall in IH. rewrite in_flat_map. setoid_rewrite in_flat_map. split.
    + intros (y & (x & Hx & Hy) & Hd). destruct (has_id i x) eqn:E; [done|]. destruct Hy as [<-|[]]. apply bool_decide_eq_false in E. apply (survives_child i j c l x); [done | done | by apply IH].
    + intros H. inversion H as [|j' c' l' x d' Hx Hne Hs]; subst. exists (removeNode i x). split; [|by apply IH]. exists x. split; [done|]. unfold has_id. rewrite bool_decide_eq_false_2 by done. by left.
Qed.

(** A new group: its place is a group of the first two levels. *)
Lemma add_group_spec fresh t i : (treeDepth t <= 3)%nat -> NoDup (group_ids t) ->
  let (t', g) := addGroupToGroup fresh t i in (treeDepth t' <= 3)%nat
  /\ (g = None <-> (i ∉ group_ids t) \/ exists p d k, node_at t p (Group i d k) /\ length p = 2%nat) /\ (g = None -> t' = t)
  /\ (g <> None -> g = Some fresh /\ exists p d k, node_at t p (Group i d k) /\ t' = put p (Group i d (k ++ [Group fresh (defaultConjunction (S (length p))) []])) t).
Proof.
  intros Hd Hn. unfold addGroupToGroup. destruct (groupDepth 0 i t) as [m|] eqn:E.
  - assert (Hi : i ∈ group_ids t) by (destruct (decide (i ∈ group_ids t)) as [|H]; [done|]; apply (groupDepth_none 0) in H; congruence).
    pose proof (groupDepth_bound _ _ _ _ E) as Hm. assert (Hp : forall p d k, node_at t p (Group i d k) -> length p = m) by (intros p d k Hp; rewrite (groupDepth_place _ _ _ _ _ 0 Hn Hp) in E; by injection E).
    destruct (place_exists i t Hi) as (p & d & k & Hpl). unfold ADVANCED_FILTER_MAX_DEPTH. destruct (Nat.leb_spec 3 (m + 1)) as [Hl|Hl].
    + split; [done|]. split; [|split; [done | by intros []]]. split; [intros _; right | done]. exists p, d, k. split; [done|]. rewrite (Hp _ _ _ Hpl). lia.
    + destruct (append_spec i (Group fresh (defaultConjunction (m + 1)) []) t 0 m Hn E) as (_ & _ & H3). split; [cbn [treeDepth foldr] in H3; lia|]. split; [|split; [done|]].
      * split; [done|]. intros [H | (q & d' & k' & Hq & Hlen)]; [done|]. rewrite (Hp _ _ _ Hq) in Hlen. lia.
      * intros _. split; [done|]. exists p, d, k. split; [done|]. rewrite (Hp _ _ _ Hpl). replace (m + 1)%nat with (S m) by lia. exact (mapGroup_put i _ t p d k Hn Hpl).
  - apply groupDepth_none in E. split; [done|]. split; [|split; [done | by intros []]]. split; [by left | done].
Qed.

(** C38 (advanced_edits_sound).  Edits of a tree of at most three levels whose groups have different names, where a place is the list of positions that lead to a node: every edit keeps at most three levels.  A condition is added at the end of
    the group with the name, wherever it stands, and nothing else changes; without such a group nothing changes.  A new group is refused exactly when there is no group with the name or that group is of the third level, and otherwise
    added at its end.  Toggling changes the conjunction of the group with the name and nothing else, and twice changes nothing.  Of a tree from which a name is removed exactly the conditions stay that neither have it nor stand below it.
    New values change the condition with that name only, and none removes it; pruning leaves no empty group and exactly the conditions with a value. *)
Theorem advanced_edits_sound j e l i c fresh vs :
  let t := Group j e l in
  (treeDepth t <= 3)%nat -> NoDup (group_ids t) ->
  ((treeDepth (addConditionToGroup t i c) <= 3)%nat
    /\ (forall p d k, node_at t p (Group i d k) -> addConditionToGroup t i c = put p (Group i d (k ++ [Cond c])) t)
    /\ ((i ∉ group_ids t) -> addConditionToGroup t i c = t))
  /\ (let (t', g) := addGroupToGroup fresh t i in (treeDepth t' <= 3)%nat
       /\ (g = None <-> (i ∉ group_ids t) \/ exists p d k, node_at t p (Group i d k) /\ length p = 2%nat) /\ (g = None -> t' = t)
       /\ (g <> None -> g = Some fresh /\ exists p d k, node_at t p (Group i d k) /\ t' = put p (Group i d (k ++ [Group fresh (defaultConjunction (S (length p))) []])) t))
  /\ ((forall p d k, node_at t p (Group i d k) -> toggleGroupConjunction t i = put p (Group i (match d with c_and => c_or | c_or => c_and end) k) t)
       /\ toggleGroupConjunction (toggleGroupConjunction t i) i = t /\ treeDepth (toggleGroupConjunction t i) = treeDepth t)
  /\ ((Some i ∉ inner_ids (removeNode i t)) /\ sublist (treeConditions (removeNode i t)) (treeConditions t) /\ (forall d, In d (treeConditions (removeNode i t)) <-> survives i t d) /\ (treeDepth (removeNode i t) <= treeDepth t)%nat)
  /\ ((treeDepth (setConditionValues t i vs) <= 3)%nat
      /\ (vs <> [] -> treeConditions (setConditionValues t i vs) = map (fun d => if bool_decide (c_id d = Some i) then set_values vs d else d) (treeConditions t))
      /\ (vs = [] -> Forall (fun d => c_id d <> Some i) (treeConditions (setConditionValues t i vs))))
  /\ (treeConditions (pruneEmptyGroups t) = List.filter valued (treeConditions t) /\ Forall (fun n => no_empty_groups n = true) (items (pruneEmptyGroups t)) /\ (treeDepth (pruneEmptyGroups t) <= treeDepth t)%nat).
Proof.
  intros t Hd Hn. split; [|split; [|split; [|split; [|split]]]].
  - split; [|split; [intros p d k Hp; exact (mapGroup_put i _ t p d k Hn Hp) | by apply mapGroup_absent]]. unfold addConditionToGroup. destruct (groupDepth 0 i t) as [d|] eqn:E; [|apply groupDepth_none in E; by rewrite mapGroup_absent].
    destruct (append_spec i (Cond c) t 0 d Hn E) as (_ & _ & H3). apply groupDepth_bound in E. cbn [treeDepth] in *. lia.
  - exact (add_group_spec fresh t i Hd Hn).
  - split; [intros p d k Hp; exact (mapGroup_put i _ t p d k Hn Hp)|]. split; [apply toggle_twice | apply toggle_shape].
  - destruct (remove_spec i t) as (H1 & H2 & H3 & _). split; [exact H1|]. split; [exact H2|]. split; [apply remove_survives | exact H3].
  - destruct (remove_spec i t) as (H1 & _ & H3 & _). destruct (update_spec i (set_values vs) t) as (U1 & U2 & _). destruct vs as [|v vs]; cbn [setConditionValues]; (split; [lia|]); split; try done.
    intros _. apply List.Forall_forall. intros d Hin E. apply condition_inner in Hin as [Hin|Hin]; [done|]. rewrite E in Hin. done.
  - destruct (prune_list l) as (G1 & G2 & G3 & _); [apply List.Forall_forall; intros; apply prune_spec|]. split; [exact G1|]. split; [by apply List.Forall_forall, forallb_forall|].
    unfold t. cbn [pruneEmptyGroups]. change (S (depths (flat_map prune l)) <= S (depths l))%nat. lia.
Qed.

(** ** The summary *)

Lemma visit_conditions c parts n : map p_condition (visit_node c parts n) = map p_condition parts ++ List.filter valued (treeConditions n).
Proof.
  revert c parts. induction n as [d|j e l IH] using node_rect'; intros c parts; cbn [visit_node treeConditions].
  - cbn [List.filter]. unfold valued. destruct (c_values d); [by rewrite app_nil_r|]. by rewrite map_app.
  - revert parts. induction IH as [|x l Hx _ IH]; intros parts; cbn [fold_left flat_map]; [by rewrite app_nil_r|]. by rewrite IH, Hx, List.filter_app, app_assoc.
Qed.

(** The summary names the first conditions that have a value, and counts the others. *)
Theorem summary_complete t shown :
  let (parts, more) := advancedFilterSummary t shown in
  map p_condition parts = take shown (List.filter valued (treeConditions t)) /\ (length parts + more)%nat = length (List.filter valued (treeConditions t)).
Proof.
  unfold advancedFilterSummary. pose proof (visit_conditions c_and [] t) as H. cbn [map app] in H. rewrite <- H. split; [symmetry; apply firstn_map|]. rewrite length_map, List.length_firstn. lia.
Qed.

(** ** Examples *)

Module Demo.
Definition urgent : Condition := mkCondition (Some "u") K_priority "Priority" is_ [mkConditionValue "1" (Some "Urgent") None].
Definition triage : Condition := mkCondition (Some "s") K_status "Status" is_ [mkConditionValue "state-triage" (Some "Triage") None].
Definition two_levels : Node := Group "root" c_or [Cond triage; Group "g1" c_and [Cond urgent]; Group "g2" c_or []].
Definition names (_ : list nat) : string := "new".

Lemma advanced_edits_sound_witness :
  addConditionToGroup two_levels "g2" urgent = Group "root" c_or [Cond triage; Group "g1" c_and [Cond urgent]; Group "g2" c_or [Cond urgent]]
  /\ (treeDepth (addConditionToGroup two_levels "g2" urgent) <= 3)%nat /\ snd (addGroupToGroup "g3" two_levels "g1") = Some "g3" /\ items (pruneEmptyGroups two_levels) = [Cond triage; Group "g1" c_and [Cond urgent]].
Proof.
  destruct (advanced_edits_sound "root" c_or (items two_levels) "g2" urgent "g3" [] ltac:(apply Nat.leb_le; reflexivity) ltac:(apply (bool_decide_eq_true_1 (NoDup (group_ids two_levels))); reflexivity)) as [(H1 & H2 & _) _].
  split; [|split; [exact H1 | split; reflexivity]]. exact (H2 [2%nat] c_or [] ltac:(eapply at_child; [reflexivity | apply at_here])).
Defined.

(** A group of the second level takes a group, one of the third does not. *)
Lemma group_levels :
  let three := fst (addGroupToGroup "g3" two_levels "g1") in
  three = Group "root" c_or [Cond triage; Group "g1" c_and [Cond urgent; Group "g3" c_and []]; Group "g2" c_or []] /\ addGroupToGroup "g4" three "g3" = (three, None).
Proof. vm_compute. split; reflexivity. Qed.

Definition chip : Filter := createAdvancedFilter "adv" two_levels.
Definition text (_ : list Filter) : string := "[{}]".
Definition back (s : string) : option (option (list (option Filter))) := if s =s "[{}]" then Some (Some [Some chip]) else None.

Lemma filter_address_roundtrip_witness : encodeFiltersParam text [chip] = "W3t9XQ" /\ decodeFiltersParam back names (Some "W3t9XQ") = [chip] /\ decodeFiltersParam back names (Some "%%%") = [].
Proof.
  split; [reflexivity|]. assert (H : forall l, l = [chip] \/ l = map (normal_chip names) [chip] -> startsWith "[" (text l) = true /\ back (text l) = Some (Some (map Some l))) by (intros l [-> | ->]; split; reflexivity).
  destruct (filter_address_roundtrip text back names names [chip] "%%%" H) as (H1 & _ & _ & _ & H5). split; [exact H1 | apply H5; left; reflexivity].
Defined.

Lemma summary_example : map (fun p => (p_conjunction p, c_fieldLabel (p_condition p), p_operatorLabel p)) (fst (advancedFilterSummary two_levels 2)) = [(None, "Status", "is"); (Some c_and, "Priority", "is")].
Proof. reflexivity. Qed.
End Demo.
