(* ===== verification/QueryTree.v ===== *)
(** * Query trees of the issue lists
      (web/src/components/my-issues/my-issues-filter-types.ts, web/src/components/filter/filter-block-helper.ts)

    A query is a JSON object with the keys [and], [or], [not] or those of a leaf.  [simplifyQueryNode] flattens it so that
    nested filters stay within the server's limits; [combineModelFilters] joins queries.  [meaning] is what the server
    makes of a query (api/internal/store/issue_query.go), given what it makes of the leaves: every part of an object
    counts, and an empty [and] or [or] does not constrain. *)

From Stdlib Require Import String ZArith Lia Bool List.
From stdpp Require Import base list strings.
From S2P Require Import Prelude JsString.

Local Set Warnings "-register-all,-notation-for-abbreviation".

(** [IssueQueryAstNode]; [None] is a key that is missing. *)
Inductive QNode := mkQ (q_and q_or : option (list QNode)) (q_not : option QNode) (q_field q_operator : option string) (q_values : option (list string)).

Definition q_and (n : QNode) : option (list QNode) := let '(mkQ a _ _ _ _ _) := n in a.
Definition q_or (n : QNode) : option (list QNode) := let '(mkQ _ o _ _ _ _) := n in o.
Definition q_not (n : QNode) : option QNode := let '(mkQ _ _ m _ _ _) := n in m.
Definition q_field (n : QNode) : option string := let '(mkQ _ _ _ f _ _) := n in f.

Definition And (l : list QNode) : QNode := mkQ (Some l) None None None None None.
Definition Or (l : list QNode) : QNode := mkQ None (Some l) None None None None.
Definition Not (n : QNode) : QNode := mkQ None None (Some n) None None None.
(** [{ field, operator, values }] and [{ field, operator }] *)
Definition Leaf (field operator : string) (values : list string) : QNode := mkQ None None None (Some field) (Some operator) (Some values).
Definition Test (field operator : string) : QNode := mkQ None None None (Some field) (Some operator) None.

(** [Object.keys(node).length] *)
Definition key_count (n : QNode) : nat :=
  let '(mkQ a o m f p v) := n in
  ((if isSome a then 1 else 0) + (if isSome o then 1 else 0) + (if isSome m then 1 else 0) + (if isSome f then 1 else 0) + (if isSome p then 1 else 0) + (if isSome v then 1 else 0))%nat.

(** The keys [and] and [or] of the loop in [simplify]. *)
Definition part (conj : bool) (n : QNode) : option (list QNode) := if conj then q_and n else q_or n.
Definition group (conj : bool) (l : list QNode) : QNode := if conj then And l else Or l.

Definition splice (conj : bool) (child : QNode) : list QNode :=
  match part conj child with Some l => if (key_count child =? 1)%nat then l else [child] | None => [child] end.

Definition regroup (conj : bool) (children : list QNode) : QNode :=
  match flat_map (splice conj) children with [x] => x | flat => group conj flat end.

Fixpoint simplify (n : QNode) : QNode :=
  let '(mkQ a o m _ _ _) := n in
  match m with
  | Some inner => let inner := simplify inner in match q_not inner with Some x => x | None => Not inner end
  | None =>
      match a with
      | Some l => regroup true (map simplify l)
      | None => match o with Some l => regroup false (map simplify l) | None => n end
      end
  end.

Definition simplifyQueryNode (n : QNode) (keepAndRoot : bool) : QNode :=
  let result := simplify n in
  if negb keepAndRoot then result
  else if isSome (q_and result) && (key_count result =? 1)%nat then result
  else And (if (0 <? key_count result)%nat then [result] else []).

(** [isEmptyModelFilter], [unwrapMatching] and [combineModelFilters]; a filter may be null. *)
Definition isEmptyModelFilter (n : option QNode) : bool := match n with None => true | Some n => (key_count n =? 0)%nat end.

Definition unwrapMatching (conj : bool) (n : option QNode) : list QNode :=
  match n with
  | None => []
  | Some q => match part conj q with Some l => l | None => if isEmptyModelFilter n then [] else [q] end
  end.

Definition combineModelFilters (conj : bool) (filters : list (option QNode)) : QNode :=
  match flat_map (unwrapMatching conj) filters with
  | [] => mkQ None None None None None None
  | [x] => x
  | l => group conj l
  end.

(** ** Meaning and size *)

Section Meaning.
(** What the server makes of a leaf: its field, operator and values. *)
Context (leaf : string -> string -> list string -> bool).

Fixpoint meaning (n : QNode) : bool :=
  let '(mkQ a o m f p v) := n in
  match a with Some l => forallb meaning l | None => true end
  && match o with Some [] | None => true | Some l => existsb meaning l end
  && match m with Some inner => negb (meaning inner) | None => true end
  && match f with Some f => leaf f (p ?? "is") (v ?? []) | None => true end.
End Meaning.

(** The levels and the nodes of a query, as the server counts them. *)
Fixpoint levels (n : QNode) : nat :=
  let '(mkQ a o m _ _ _) := n in
  let highest := fix highest l := match l with [] => 0%nat | x :: r => Nat.max (levels x) (highest r) end in
  S (Nat.max (match a with Some l => highest l | None => 0%nat end) (Nat.max (match o with Some l => highest l | None => 0%nat end) (match m with Some x => levels x | None => 0%nat end))).

Fixpoint size (n : QNode) : nat :=
  let '(mkQ a o m _ _ _) := n in
  let total := fix total l := match l with [] => 0%nat | x :: r => (size x + total r)%nat end in
  S ((match a with Some l => total l | None => 0 end) + (match o with Some l => total l | None => 0 end) + (match m with Some x => size x | None => 0 end))%nat.

(** A query with one kind of node at every place, in which no [or] stands empty inside an [or]; with [strict], none is empty at all. *)
Inductive shaped : bool -> QNode -> Prop :=
  | shaped_and strict l : Forall (shaped strict) l -> shaped strict (And l)
  | shaped_or strict l : (strict = true -> l <> []) -> Forall (shaped true) l -> shaped strict (Or l)
  | shaped_not strict n : shaped strict n -> shaped strict (Not n)
  | shaped_leaf strict f p v : shaped strict (mkQ None None None (Some f) p v).

Abbreviation proper := (shaped true).

Lemma proper_and l : Forall proper l -> proper (And l).
Proof. apply shaped_and. Qed.
Lemma proper_or l : l <> [] -> Forall proper l -> proper (Or l).
Proof. intros H. by apply shaped_or. Qed.

(** A simplified query: no [and] in an [and], no [or] in an [or], no [not] in a [not], no group of one. *)
Inductive normal : QNode -> Prop :=
  | normal_and l : Forall normal l -> Forall (fun x => q_and x = None) l -> length l <> 1%nat -> normal (And l)
  | normal_or l : Forall normal l -> Forall (fun x => q_or x = None) l -> length l <> 1%nat -> normal (Or l)
  | normal_not n : normal n -> q_not n = None -> normal (Not n)
  | normal_leaf f p v : normal (mkQ None None None (Some f) p v).

Fixpoint shaped_ind' (P : bool -> QNode -> Prop) (Ha : forall st l, Forall (shaped st) l -> Forall (P st) l -> P st (And l))
  (Ho : forall st l, (st = true -> l <> []) -> Forall (shaped true) l -> Forall (P true) l -> P st (Or l))
  (Hn : forall st n, shaped st n -> P st n -> P st (Not n)) (Hl : forall st f p v, P st (mkQ None None None (Some f) p v)) (st : bool) (n : QNode) (H : shaped st n) : P st n :=
  let all := fix all st l (F : Forall (shaped st) l) : Forall (P st) l := match F with @List.Forall_nil _ _ => @List.Forall_nil _ _ | @List.Forall_cons _ _ x r Hx Hr => @List.Forall_cons _ _ x r (shaped_ind' P Ha Ho Hn Hl st x Hx) (all st r Hr) end in
  match H with
  | shaped_and st l F => Ha st l F (all st l F)
  | shaped_or st l E F => Ho st l E F (all true l F)
  | shaped_not st n G => Hn st n G (shaped_ind' P Ha Ho Hn Hl st n G)
  | shaped_leaf st f p v => Hl st f p v
  end.

Definition heights (l : list QNode) : nat := foldr (fun x d => Nat.max (levels x) d) 0%nat l.
Definition sizes (l : list QNode) : nat := foldr (fun x d => (size x + d)%nat) 0%nat l.

Lemma levels_group conj l : levels (group conj l) = S (heights l).
Proof. assert (E : forall l, (fix highest l := match l with [] => 0%nat | x :: r => Nat.max (levels x) (highest r) end) l = heights l) by (unfold heights; induction l0; cbn; congruence). destruct conj; cbn; rewrite E; lia. Qed.
Lemma size_group conj l : size (group conj l) = S (sizes l).
Proof. assert (E : forall l, (fix total l := match l with [] => 0%nat | x :: r => (size x + total r)%nat end) l = sizes l) by (unfold sizes; induction l0; cbn; congruence). destruct conj; cbn; rewrite E; lia. Qed.
Lemma levels_not n : levels (Not n) = S (levels n).
Proof. done. Qed.

Definition meanings leaf (conj : bool) (l : list QNode) : bool := if conj then forallb (meaning leaf) l else existsb (meaning leaf) l.

Lemma meaning_group leaf conj l : (conj = false -> l <> []) -> meaning leaf (group conj l) = meanings leaf conj l.
Proof. intros H. destruct conj; cbn; [by rewrite !andb_true_r|]. destruct l; [by specialize (H eq_refl)|]. by rewrite !andb_true_r. Qed.

Lemma meaning_not leaf n : meaning leaf (Not n) = negb (meaning leaf n).
Proof. cbn. by rewrite andb_true_r. Qed.

Lemma heights_app a b : heights (a ++ b) = Nat.max (heights a) (heights b).
Proof. unfold heights. induction a as [|x a IH]; [done|]. cbn. rewrite IH. lia. Qed.
Lemma sizes_app a b : sizes (a ++ b) = (sizes a + sizes b)%nat.
Proof. unfold sizes. induction a as [|x a IH]; [done|]. cbn. rewrite IH. lia. Qed.
Lemma meanings_app leaf conj a b : meanings leaf conj (a ++ b) = if conj then meanings leaf conj a && meanings leaf conj b else meanings leaf conj a || meanings leaf conj b.
Proof. destruct conj; [apply forallb_app | apply existsb_app]. Qed.

Lemma shaped_weaken strict n : proper n -> shaped strict n.
Proof.
  intros H. remember true as st eqn:E. induction H as [st l _ IH|st l Hne Hl _|st n _ IH|st f p v] using shaped_ind'; subst st; constructor; auto.
  eapply Forall_impl; [exact IH|]. auto.
Qed.

(** What the simplification of a node keeps. *)
Definition simplifies leaf (strict : bool) (n s : QNode) : Prop :=
  meaning leaf s = meaning leaf n /\ (levels s <= levels n)%nat /\ (size s <= size n)%nat /\ shaped strict s /\ normal s.

Lemma shaped_part strict conj n l : shaped strict n -> part conj n = Some l -> n = group conj l /\ Forall (shaped (strict || negb conj)) l /\ (conj = false -> strict = true -> l <> []).
Proof. intros H. destruct conj, H; cbn; intros [= <-]; rewrite ?orb_false_r, ?orb_true_r; done. Qed.

Lemma proper_part conj n l : proper n -> part conj n = Some l -> n = group conj l /\ Forall proper l /\ (conj = false -> l <> []).
Proof. intros H E. destruct (shaped_part true conj n l H E) as (H1 & H2 & H3). auto. Qed.

Lemma normal_part conj n : normal n -> Forall (fun x => part conj x = None) (splice conj n) /\ Forall normal (splice conj n).
Proof.
  intros H. unfold splice. destruct (part conj n) as [l|] eqn:E; [|split; by constructor].
  assert (G : n = group conj l /\ Forall (fun x => part conj x = None) l /\ Forall normal l).
  { destruct conj, H as [k H1 H2 H3 | k H1 H2 H3 | |]; try discriminate E; by injection E as <-. }
  destruct G as (-> & G). replace (key_count (group conj l) =? 1)%nat with true by (by destruct conj). done.
Qed.

(** The parts of a node that are spliced into a group: a query of an [or] must be strict. *)
Lemma splice_spec leaf strict conj n : (conj = false -> strict = true) -> shaped strict n ->
  meanings leaf conj (splice conj n) = meaning leaf n /\ (heights (splice conj n) <= levels n)%nat /\ (sizes (splice conj n) <= size n)%nat
  /\ Forall (shaped strict) (splice conj n) /\ (conj = false -> splice conj n <> []).
Proof.
  intros Hst H. unfold splice. destruct (part conj n) as [l|] eqn:E.
  - destruct (shaped_part _ _ _ _ H E) as (-> & Hl & Hc). replace (key_count (group conj l) =? 1)%nat with true by (by destruct conj).
    assert (Hne : conj = false -> l <> []) by (intros Hf; apply Hc; auto). rewrite meaning_group, levels_group, size_group by done.
    replace (strict || negb conj) with strict in Hl by (destruct conj; [by rewrite orb_false_r | by rewrite (Hst eq_refl)]). repeat split; try done; lia.
  - repeat split; [destruct conj; cbn; by rewrite ?andb_true_r, ?orb_false_r | unfold heights; cbn; lia | unfold sizes; cbn; lia | by repeat constructor | done].
Qed.

Lemma regroup_sound leaf strict conj l : (conj = false -> strict = true /\ l <> []) -> Forall (fun n => simplifies leaf strict n (simplify n)) l ->
  simplifies leaf strict (group conj l) (regroup conj (map simplify l))
  /\ (part conj (regroup conj (map simplify l)) = None -> (levels (regroup conj (map simplify l)) <= heights l)%nat).
Proof.
  intros Hc Hl. set (flat := flat_map (splice conj) (map simplify l)).
  assert (G : meanings leaf conj flat = meanings leaf conj l /\ (heights flat <= heights l)%nat /\ (sizes flat <= sizes l)%nat /\ Forall (shaped strict) flat /\ Forall normal flat
    /\ Forall (fun x => part conj x = None) flat /\ (conj = false -> l <> [] -> flat <> [])).
  { assert (Hst : conj = false -> strict = true) by (intros Hf; by apply Hc). subst flat. clear Hc.
    induction Hl as [|n l (E & H1 & H2 & H3 & H4) _ (I1 & I2 & I3 & I4 & I5 & I6 & _)]; [done|]. cbn [map flat_map].
    destruct (splice_spec leaf strict conj _ Hst H3) as (S1 & S2 & S3 & S4 & S5). destruct (normal_part conj _ H4) as (N1 & N2).
    rewrite meanings_app, heights_app, sizes_app, S1, I1, E, !Forall_app.
    repeat split; try done; [by destruct conj | unfold heights in *; cbn; lia | unfold sizes in *; cbn; lia|]. intros Hf _. specialize (S5 Hf). by destruct (splice conj (simplify n)). }
  destruct G as (G1 & G2 & G3 & G4 & G5 & G6 & G7). assert (Hne : conj = false -> l <> []) by (intros Hf; by apply Hc). unfold simplifies, regroup. fold flat.
  rewrite meaning_group, levels_group, size_group by done.
  assert (Hf : conj = false -> flat <> []) by (intros Hf; by apply G7, Hne). clear G7. destruct flat as [|x [|y r]] eqn:Ef.
  - destruct conj; [|by specialize (Hf eq_refl)]. split; [|done]. rewrite meaning_group, levels_group, size_group by done. rewrite <- G1. repeat split; [lia | lia | by constructor | by constructor].
  - apply Forall_cons in G4 as [G4 _], G5 as [G5 _]. rewrite <- G1. assert (Hx : (levels x <= heights l)%nat) by (unfold heights in G2; cbn in G2; unfold heights; lia). split; [|done].
    repeat split; try done; [destruct conj; cbn; by rewrite ?andb_true_r, ?orb_false_r | lia | unfold sizes in G3; cbn in G3; unfold sizes; lia].
  - split; [|by destruct conj]. rewrite meaning_group, levels_group, size_group by done. rewrite <- G1. repeat split; try done; try lia; destruct conj; constructor; try done.
    by rewrite (proj1 (Hc eq_refl)) in G4.
Qed.

Lemma simplify_node leaf strict n : shaped strict n -> simplifies leaf strict n (simplify n).
Proof.
  intros H. induction H as [strict l _ IH|strict l Hne _ IH|strict n Hp IH|strict f p v] using shaped_ind'.
  - exact (proj1 (regroup_sound leaf strict true l ltac:(done) IH)).
  - destruct l as [|x l]; [unfold simplifies; repeat split; try done; constructor; try done; by constructor|].
    destruct (proj1 (regroup_sound leaf true false (x :: l) ltac:(done) IH)) as (H1 & H2 & H3 & H4 & H5). repeat split; try done. destruct strict; [done|]. by apply shaped_weaken.
  - destruct IH as (E & H1 & H2 & H3 & H4). cbn [simplify Not]. assert (Hx : q_not (simplify n) = None -> simplifies leaf strict (Not n) (Not (simplify n))).
    { intros Hq. unfold simplifies. rewrite !meaning_not, !levels_not, E. repeat split; [lia | cbn; lia | by constructor | by constructor]. }
    destruct (q_not (simplify n)) as [x|] eqn:Eq; [|by apply Hx]. clear Hx. destruct H3 as [| |strict x' H3|]; try done. injection Eq as ->. inversion H4 as [| |? Hn Hq|]; subst.
    rewrite meaning_not in E. unfold simplifies. rewrite meaning_not, levels_not, <- E, negb_involutive. rewrite levels_not in H1. cbn [size Not default foldr] in H2 |- *. repeat split; try done; lia.
  - unfold simplifies. repeat split; try done; constructor.
Qed.

(** The query with its root kept: what is sent. *)
Lemma query_simplification_parts leaf strict n : shaped strict n ->
  let r := simplifyQueryNode n true in
  meaning leaf r = meaning leaf n /\ (size r <= S (size n))%nat /\ (isSome (q_and n) = true -> (levels r <= levels n)%nat)
  /\ exists l, r = And l /\ Forall normal l /\ Forall (fun x => q_and x = None) l.
Proof.
  intros H r. destruct (simplify_node leaf strict n H) as (H1 & H2 & H3 & H4 & H5). unfold r, simplifyQueryNode. cbn [negb]. set (t := simplify n) in *.
  destruct (isSome (q_and t) && (key_count t =? 1)%nat) eqn:E.
  { apply andb_true_iff in E as [E _]. repeat split; [done | lia | done|]. destruct H5 as [l A1 A2 A3| | |]; try done. by exists l. }
  assert (Hk : (0 <? key_count t)%nat = true) by (apply Nat.ltb_lt; destruct H4; cbn [key_count And Or Not isSome]; lia). rewrite Hk.
  assert (Hna : q_and t = None) by (destruct H4; cbn in E |- *; done).
  change (And [t]) with (group true [t]). rewrite meaning_group, levels_group, size_group by done.
  assert (Hh : heights [t] = levels t) by (unfold heights; cbn; lia). rewrite Hh. repeat split; [cbn; by rewrite andb_true_r | unfold sizes; cbn; lia | |].
  - intros Ha. destruct H as [strict l Hl| | |]; try done.
    assert (Hs : Forall (fun n => simplifies leaf strict n (simplify n)) l) by (eapply Forall_impl; [exact Hl|]; intros; by apply simplify_node). destruct (regroup_sound leaf strict true l ltac:(done) Hs) as [_ Hr].
    change (And l) with (group true l). rewrite levels_group. apply le_n_S. by apply Hr.
  - exists [t]. by repeat constructor.
Qed.

(** C35 (query_simplification_sound).  For a query whose nodes have one key each and in which no [or] is empty inside an [or] (one that is empty elsewhere does no harm): the simplified query selects exactly the issues of the query,
    whatever its leaves mean, has no more levels and no more nodes, no group of one, no group directly in one of its kind and no double negation.  With the root kept, as queries are sent, it is an [and] of such
    parts, none of them an [and]; the root alone may hold a single part; it has at most one node more, and no more levels than a query that is an [and]. *)
Theorem query_simplification_sound leaf n : shaped false n ->
  let s := simplifyQueryNode n false in
  let r := simplifyQueryNode n true in
  (meaning leaf s = meaning leaf n /\ (levels s <= levels n)%nat /\ (size s <= size n)%nat /\ normal s)
  /\ (meaning leaf r = meaning leaf n /\ (size r <= S (size n))%nat /\ (isSome (q_and n) = true -> (levels r <= levels n)%nat)
      /\ exists l, r = And l /\ Forall normal l /\ Forall (fun x => q_and x = None) l).
Proof.
  intros H s r. destruct (simplify_node leaf false n H) as (H1 & H2 & H3 & H4 & H5). split; [by repeat split | by apply (query_simplification_parts leaf false)].
Qed.

(** Joining queries under [and] or [or] is what it says; without a query nothing is constrained. *)
Theorem combined_filters_sound leaf conj l : Forall proper l ->
  meaning leaf (combineModelFilters conj (map Some l)) = match l with [] => true | _ => meanings leaf conj l end.
Proof.
  intros H. assert (G : meanings leaf conj (flat_map (unwrapMatching conj) (map Some l)) = meanings leaf conj l /\ (conj = false -> l <> [] -> flat_map (unwrapMatching conj) (map Some l) <> [])).
  { induction H as [|n l Hn _ [IH _]]; [done|]. cbn [map flat_map]. rewrite meanings_app, IH. assert (Hu : meanings leaf conj (unwrapMatching conj (Some n)) = meaning leaf n /\ (conj = false -> unwrapMatching conj (Some n) <> [])).
    { cbn [unwrapMatching]. destruct (part conj n) as [k|] eqn:E; [destruct (proper_part _ _ _ Hn E) as (-> & _ & Hc); by rewrite meaning_group|].
      replace (isEmptyModelFilter (Some n)) with false by (destruct Hn; cbn; by repeat case_match). split; [|done]. destruct conj; cbn; by rewrite ?andb_true_r, ?orb_false_r. }
    destruct Hu as [-> Hu]. split; [by destruct conj|]. intros Hc _. specialize (Hu Hc). by destruct (unwrapMatching conj (Some n)). }
  destruct G as [G1 G2]. unfold combineModelFilters. destruct (flat_map _ _) as [|x [|y r]] eqn:E.
  - destruct l; [done|]. rewrite <- G1. destruct conj; [done|]. by destruct (G2 eq_refl).
  - destruct l; [done|]. rewrite <- G1. destruct conj; cbn; by rewrite ?andb_true_r, ?orb_false_r.
  - rewrite meaning_group by done. destruct l; [done|]. by rewrite G1.
Qed.

(** ** Examples *)

Module Demo.
Definition leaf (f p : string) (v : list string) : bool := bool_decide (f = "priority") && bool_decide ("1" ∈ v).
Definition query : QNode := And [And [Leaf "priority" "in" ["1"]]; Not (Not (Or [Leaf "status" "in" ["a"]; Or [Leaf "priority" "in" ["1"]; Test "project" "isEmpty"]]))].

Lemma query_simplification_sound_witness :
  simplifyQueryNode query true = And [Leaf "priority" "in" ["1"]; Or [Leaf "status" "in" ["a"]; Leaf "priority" "in" ["1"]; Test "project" "isEmpty"]]
  /\ meaning leaf (simplifyQueryNode query true) = meaning leaf query.
Proof. split; [reflexivity|]. apply (query_simplification_sound leaf query). repeat (constructor; try discriminate). Defined.

(** An empty [or] does not constrain, but in another [or] it disappears: the simplification changes what such a query means. *)
Lemma empty_or_vanishes :
  let q := Or [Or []; Leaf "status" "in" ["a"]] in meaning leaf q = true /\ meaning leaf (simplifyQueryNode q false) = false.
Proof. by vm_compute. Qed.
End Demo.
