(* ===== verification/FilterQuery.v ===== *)
(** * Filters on the client and on the server
      (web/src/components/issue-explorer/issue-filter-query.ts, issue-explorer-model.ts, issue-date-filter.ts,
      triage-intelligence-filter.ts, customer-filter.ts, web/src/lib/agent-members.ts)

    A list that the browser holds is filtered by [matchesExplorerFilter]; a paged list is filtered by the server with the
    query [issueFiltersToQueryAst] makes of the chips.  What the platform knows of time is an argument: reading and
    writing instants, the local day of an instant, the start of a day.  Days are those of the calendar; the code throws on
    a text like 2026-02-31. *)

From Stdlib Require Import Ascii String ZArith QArith Lia Bool List.
From stdpp Require Import base list strings.
From S2P Require Import Prelude JsString JsMap JsNumber TeamHierarchy StatusGroups FilterChips AdvancedFilter QueryTree.

Local Set Warnings "-register-all,-notation-for-abbreviation".
Local Open Scope Z_scope.

Definition member (s : string) (l : list string) : bool := existsb (String.eqb s) l.
Definition nonempty {A} (l : list A) : bool := match l with [] => false | _ => true end.

(** ** Rows *)

(** The fields of [MyIssuesRowData] that filters read; a list that is missing is empty. *)
Record Row := mkRowData {
  r_teamId : option string; r_priority : Z; r_estimate : option Z; r_stateId : string; r_stateType : string; r_assignee : option string; r_delegate : option string;
  r_agentSessionId : option string; r_agentSessionState : option string; r_creatorId : option string; r_labels : list string;
  r_suggestedLabels : list string; r_suggestedAssignees : list string; r_suggestedProjects : list string; r_suggestedTeams : list string; r_suggestedDuplicates : list string; r_suggestedRelated : list string;
  r_project : option string; r_projectMilestoneId : option string; r_projectStatusId : option string; r_projectStatusType : option string; r_projectPriority : option Z; r_projectLabels : list string;
  r_projectLeadId : option string; r_projectMilestoneNames : list string; r_initiativeIds : list string; r_cycleId : option string; r_addedToCycle : option string;
  r_releaseIds : list string; r_releasePipelineIds : list string; r_releaseStages : list string; r_releaseStatuses : list string; r_hasReleasedRelease : bool; r_releasedDates : list string;
  r_customerIds : list string; r_hasUnknownCustomer : bool; r_customerCount : option Z; r_importantCustomerIds : list string; r_customerOwnerIds : list string; r_customerStatuses : list string;
  r_customerTiers : list string; r_customerRevenues : list Z; r_customerSizes : list Z;
  r_subscriberIds : list string; r_relationTypes : list string; r_hasLinks : bool; r_title : string; r_description : option string; r_externalSource : option string; r_autoClosed : bool; r_templateId : option string;
  r_isAssignedToViewer : bool;
  r_dueDate : option string; r_createdAt : option string; r_updatedAt : option string; r_startedAt : option string; r_completedAt : option string; r_autoClosedAt : option string; r_triagedAt : option string; r_statusChangedAt : option string }.

(** ** Customers *)

Definition customer_count (r : Row) : Z := r_customerCount r ?? (Z.of_nat (length (r_customerIds r)) + if r_hasUnknownCustomer r then 1 else 0).

Definition matchesCustomerNumberValues (r : Row) (vs : list string) (comparison : Operator) : bool :=
  existsb (fun v =>
    match parseCustomerNumberValue v with
    | None => false
    | Some (C_count, amount) => compareCustomerNumber (inject_Z (customer_count r)) comparison amount
    | Some (C_importantCount, amount) => compareCustomerNumber (inject_Z (Z.of_nat (length (r_importantCustomerIds r)))) comparison amount
    | Some (C_revenue, amount) => existsb (fun x => compareCustomerNumber (inject_Z x) comparison amount) (r_customerRevenues r)
    | Some (C_size, amount) => existsb (fun x => compareCustomerNumber (inject_Z x) comparison amount) (r_customerSizes r)
    end) vs.

Definition matchesCustomerValues (r : Row) (vs : list string) : bool :=
  let count := customer_count r in
  existsb (fun v =>
    if v =s "customer:" then r_hasUnknownCustomer r
    else if startsWith "customer:" v then member (slice_from 9 v) (r_customerIds r)
    else if v =s "customer-count:0" then (count =? 0)
    else if v =s "customer-count:1" then (count =? 1)
    else if v =s "customer-count:2+" then (2 <=? count)
    else if v =s "customer-owner:" then nonempty (r_customerIds r) && negb (existsb truthy (r_customerOwnerIds r))
    else if startsWith "customer-owner:" v then member (slice_from 15 v) (r_customerOwnerIds r)
    else if startsWith "customer-status:" v then member (slice_from 16 v) (r_customerStatuses r)
    else if startsWith "customer-tier:" v then member (slice_from 14 v) (r_customerTiers r)
    else if v =s "customer-revenue:" then nonempty (r_customerIds r) && negb (existsb (fun a => 0 <? a) (r_customerRevenues r))
    else if v =s "customer-revenue:any" then existsb (fun a => 0 <? a) (r_customerRevenues r)
    else if v =s "customer-size:" then nonempty (r_customerIds r) && negb (existsb (fun a => 0 <? a) (r_customerSizes r))
    else if v =s "customer-size:any" then existsb (fun a => 0 <? a) (r_customerSizes r)
    else false) vs.

(** ** Agent sessions *)

Definition AGENT_SESSION_STATE_FILTERS : list (string * list string) :=
  [("state:active", ["pending"; "active"; "awaitingInput"]); ("state:error", ["error"]); ("state:canceled", ["canceled"]); ("state:merged", ["merged"]); ("state:stale", ["stale"])].
Definition LEGACY_AGENT_SESSION_VALUES : list (string * option string) := [("state:awaitingInput", Some "state:active"); ("state:complete", None)].

Definition agentSessionFilterValue (v : string) : option string := match map_get v LEGACY_AGENT_SESSION_VALUES with Some o => o | None => Some v end.
Definition agentSessionStatesFor (v : string) : list string :=
  match agentSessionFilterValue v with Some c => map_get c AGENT_SESSION_STATE_FILTERS ?? [] | None => [] end.

Definition matchesAgentSessionFilter (r : Row) (vs : list string) : bool :=
  let session := truthy (r_agentSessionId r ?? "") in
  existsb (fun v =>
    if v =s "*" then session
    else if v =s "" then negb session
    else if startsWith "state:" v then session && truthy (r_agentSessionState r ?? "") && member (r_agentSessionState r ?? "") (agentSessionStatesFor v)
    else bool_decide (r_agentSessionId r = Some v)) vs.

(** ** Triage suggestions *)

Inductive TriageSuggestionKind := T_assignee | T_project | T_label | T_team.
Definition triage_kinds : list (string * TriageSuggestionKind) := [("assignee", T_assignee); ("project", T_project); ("label", T_label); ("team", T_team)].

Definition targets (r : Row) (k : TriageSuggestionKind) : list string :=
  match k with T_assignee => r_suggestedAssignees r | T_project => r_suggestedProjects r | T_label => r_suggestedLabels r | T_team => r_suggestedTeams r end.

Definition splitValue (v : string) : option (TriageSuggestionKind * string) :=
  match cut ":" v with Some (k, i) => (fun kind => (kind, i)) <$> map_get k triage_kinds | None => None end.

Definition matchesTriageIntelligence (r : Row) (v : string) : bool :=
  if v =s "related" then nonempty (r_suggestedRelated r)
  else if v =s "duplicate" then nonempty (r_suggestedDuplicates r)
  else match splitValue v with
       | None => false
       | Some (k, i) => if i =s "*" then nonempty (targets r k) else member i (targets r k)
       end.

(** ["suggested:" + kind] and ["suggested" + Kind + ":"] *)
Definition kind_text (k : TriageSuggestionKind) : string := match k with T_assignee => "assignee" | T_project => "project" | T_label => "label" | T_team => "team" end.
Definition kind_field (k : TriageSuggestionKind) : string := match k with T_assignee => "suggestedAssignee:" | T_project => "suggestedProject:" | T_label => "suggestedLabel:" | T_team => "suggestedTeam:" end.

Definition triageIntelligenceQueryNode (v : string) : option QNode :=
  if (v =s "related") || (v =s "duplicate") then Some (Test ("suggested:" +:+ v) "isNotEmpty")
  else match splitValue v with
       | None => None
       | Some (k, i) =>
           if negb (truthy i) then None
           else if i =s "*" then Some (Test ("suggested:" +:+ kind_text k) "isNotEmpty")
           else Some (Test (kind_field k +:+ i) "isNotEmpty")
       end.

(** ** Dates *)

Section Time.
(** [Date.parse] ([None] is NaN), [toISOString], the local day of an instant, the start of a local day, and the start of the day of an instant. *)
Context (parseTime : string -> option Z) (toISOString : Z -> string) (localDay : Z -> string) (dayStart : string -> Z) (startOfDay : Z -> Z).

Definition DAY : Z := 86400000.

Definition dateFilterThreshold (p : ParsedDateValue) (now : Z) : string :=
  match kind p, point p with
  | D_due, inr d => d
  | D_due, inl n => localDay (now + n * DAY)
  | _, inr d => toISOString (dayStart d)
  | _, inl n => toISOString (now + n * DAY)
  end.

Definition DATE_FILTER_FIELDS (k : DateFilterKind) : string :=
  match k with
  | D_due => "dueDate" | D_created => "createdAt" | D_updated => "updatedAt" | D_started => "startedAt" | D_completed => "completedAt" | D_autoClosed => "autoClosedAt"
  | D_triaged => "triagedAt" | D_status => "statusChangedAt" | D_released => "releasedAt"
  end.

(** The date of a row for a kind of filter ([released] has a list of its own). *)
Definition row_date (r : Row) (k : DateFilterKind) : option string :=
  match k with
  | D_due => r_dueDate r | D_created => r_createdAt r | D_updated => r_updatedAt r | D_started => r_startedAt r | D_completed => r_completedAt r | D_autoClosed => r_autoClosedAt r
  | D_triaged => r_triagedAt r | D_status => r_statusChangedAt r | D_released => None
  end.

Definition compare_times (op : Operator) (a b : option Z) : bool :=
  match a, b with Some x, Some y => if is_op before op then (x <? y) else (y <? x) | _, _ => false end.

Definition compareDateFilter (actual : option string) (p : ParsedDateValue) (op : Operator) (now : Z) : bool :=
  let a := actual ?? "" in
  if negb (truthy a) then false
  else
    let threshold := dateFilterThreshold p now in
    match kind p with
    | D_due => let day := slice 0 10 a in if is_op before op then String.ltb day threshold else String.ltb threshold day
    | _ => compare_times op (parseTime a) (parseTime threshold)
    end.

Definition present (o : option string) : bool := truthy (o ?? "").
Definition ends_with (suffix s : string) : bool := (String.length suffix <=? String.length s)%nat && (slice_from (String.length s - String.length suffix) s =s suffix).
Definition window (v : string) : Z := if ends_with "day" v then 1 else if ends_with "week" v then 7 else 30.

Definition matchesDateFilter (r : Row) (v : string) (comparison : option Operator) (now : Z) : bool :=
  let age input days := present input && match parseTime (input ?? "") with Some t => now - days * DAY <=? t | None => false end in
  match parseDateFilterValue v with
  | Some p =>
      let op := comparison ?? defaultDateOperator v in
      match kind p with
      | D_released => existsb (fun d => compareDateFilter (Some d) p op now) (r_releasedDates r)
      | k => compareDateFilter (row_date r k) p op now
      end
  | None =>
      if member v ["created-past-day"; "created-past-week"; "created-past-month"] then age (r_createdAt r) (window v)
      else if member v ["updated-past-day"; "updated-past-week"; "updated-past-month"] then age (r_updatedAt r) (window v)
      else if v =s "started-any" then present (r_startedAt r)
      else if v =s "completed-any" then present (r_completedAt r)
      else if v =s "no-completed-date" then negb (present (r_completedAt r))
      else if v =s "no-released-date" then negb (nonempty (r_releasedDates r))
      else if v =s "auto-closed-any" then r_autoClosed r
      else if v =s "triaged-any" then present (r_triagedAt r)
      else if v =s "status-over-week" then present (r_statusChangedAt r) && match parseTime (r_statusChangedAt r ?? "") with Some t => t <? now - 7 * DAY | None => false end
      else if v =s "has-due-date" then present (r_dueDate r)
      else if v =s "no-due-date" then negb (present (r_dueDate r))
      else if negb (present (r_dueDate r)) then false
      else
        let due := dayStart (slice 0 10 (r_dueDate r ?? "")) in
        let today := startOfDay now in
        if v =s "overdue" then due <? today
        else if v =s "today" then due =? today
        else if v =s "next-week" then (today <=? due) && (due <=? today + 7 * DAY)
        else false
  end.

(** ** Matching on the client *)

Definition search_text (r : Row) : string := toLowerCase (r_title r +:+ " " +:+ (r_description r ?? "")).

Definition matchesProjectProperties (r : Row) (vs : list string) : bool :=
  existsb (fun v =>
    if startsWith "project-status:" v then bool_decide (r_projectStatusId r = Some (slice_from 15 v))
    else if startsWith "project-status-type:" v then bool_decide (r_projectStatusType r = Some (slice_from 20 v))
    else if startsWith "project-priority:" v then (match r_projectPriority r with Some p => showZ p | None => "undefined" end) =s slice_from 17 v
    else if startsWith "project-label:" v then member (slice_from 14 v) (r_projectLabels r)
    else if v =s "project-lead:" then negb (present (r_projectLeadId r))
    else if startsWith "project-lead:" v then bool_decide (r_projectLeadId r = Some (slice_from 13 v))
    else if startsWith "project-milestone-name-contains:" v then existsb (fun n => includes (toLowerCase (slice_from 32 v)) (toLowerCase n)) (r_projectMilestoneNames r)
    else false) vs.

Definition matchesReleaseFilter (r : Row) (vs : list string) (comparison : option Operator) (now : Z) : bool :=
  existsb (fun v =>
    if v =s "no-releases" then negb (nonempty (r_releaseIds r))
    else if v =s "released-any" then r_hasReleasedRelease r
    else if v =s "no-released-date" then negb (nonempty (r_releasedDates r))
    else if startsWith "released:" v then matchesDateFilter r v comparison now
    else if startsWith "release:" v then member (slice_from 8 v) (r_releaseIds r)
    else if startsWith "release-pipeline:" v then member (slice_from 17 v) (r_releasePipelineIds r)
    else if startsWith "release-stage:" v then member (slice_from 14 v) (r_releaseStages r)
    else if startsWith "release-stage-type:" v then member (slice_from 19 v) (r_releaseStatuses r)
    else false) vs.

Definition matchesAIFilter (r : Row) (vs : list string) (now : Z) : bool :=
  existsb (fun v =>
    if v =s "assigned-to-me" then r_isAssignedToViewer r
    else if v =s "completed-last-month" then present (r_completedAt r) && match parseTime (r_completedAt r ?? "") with Some t => now - 30 * DAY <=? t | None => false end
    else if v =s "due-next-two-weeks" then present (r_dueDate r) && (dayStart (slice 0 10 (r_dueDate r ?? "")) <=? now + 14 * DAY)
    else if startsWith "query:" v then includes (toLowerCase (slice_from 6 v)) (search_text r)
    else false) vs.

(** The text a nullable column has: empty when it is unset. *)
Definition estimate_text (r : Row) : string := match r_estimate r with Some n => if n <? 0 then "" else showZ n | None => "" end.
Definition any_of (vs set : list string) : bool := existsb (fun x => member x vs) set.

(** What a chip other than an advanced one says about a row, before its negation; [memberIds] is the status index when there is one. *)
Definition matches_values (r : Row) (k : FilterKey) (vs : list string) (comparison : option Operator) (now : Z) (memberIds : option (string -> list string)) : bool :=
  match k with
  | K_priority => member (showZ (r_priority r)) vs
  | K_team => member (r_teamId r ?? "") vs
  | K_estimate => member (estimate_text r) vs
  | K_status => member (r_stateId r) vs || member (r_stateType r) vs || match memberIds with Some f => existsb (fun v => member (r_stateId r) (f v)) vs | None => false end
  | K_assignee => member (r_assignee r ?? "") vs || match r_delegate r with Some d => member d vs | None => false end
  | K_agent => if member "*" vs then isSome (r_delegate r) else member (r_delegate r ?? "") vs
  | K_agentSession => matchesAgentSessionFilter r vs
  | K_triageIntelligence => existsb (matchesTriageIntelligence r) vs
  | K_creator => member (r_creatorId r ?? "") vs
  | K_labels => member "" vs && negb (nonempty (r_labels r)) || any_of vs (r_labels r)
  | K_suggestedLabel => if member "" vs then negb (nonempty (r_suggestedLabels r)) else any_of vs (r_suggestedLabels r)
  | K_project => member (r_project r ?? "") vs
  | K_projectMilestone => member (r_projectMilestoneId r ?? "") vs
  | K_projectProperties => matchesProjectProperties r vs
  | K_initiative => if member "" vs then negb (nonempty (r_initiativeIds r)) else any_of vs (r_initiativeIds r)
  | K_cycle => member (r_cycleId r ?? "") vs
  | K_addedToCycle => member (r_addedToCycle r ?? "") vs
  | K_releases => matchesReleaseFilter r vs comparison now
  | K_customers => matchesCustomerValues r vs
  | K_dates => existsb (fun v => matchesDateFilter r v comparison now) vs
  | K_subscribers => if member "" vs then negb (nonempty (r_subscriberIds r)) else any_of vs (r_subscriberIds r)
  | K_relations => if member "" vs then negb (nonempty (r_relationTypes r)) else any_of vs (r_relationTypes r)
  | K_links => member (if r_hasLinks r then "has-links" else "no-links") vs
  | K_content => existsb (fun v => startsWith "query:" v && includes (toLowerCase (slice_from 6 v)) (search_text r)) vs
  | K_externalSource => member (r_externalSource r ?? "") vs
  | K_autoClosed => member (if r_autoClosed r then "true" else "false") vs
  | K_template => member (r_templateId r ?? "") vs
  | K_ai => matchesAIFilter r vs now
  | K_advanced | K_owner | K_other _ => true
  end.

Definition comparison_of (o : Operator) : option Operator := if is_op before o || is_op after o then Some o else None.

(** A chip that is not an advanced one. *)
Definition matches_chip (r : Row) (now : Z) (memberIds : option (string -> list string)) (f : Filter) : bool :=
  let vs := value_ids f in
  let o := operator f in
  if is_op includesAll o || is_op excludesAll o then
    let all := nonempty vs && forallb (fun v => matches_values r (field f) [v] None now memberIds) vs in
    if is_op includesAll o then all else negb all
  else if is_key K_customers (field f) && isCustomerNumberComparison o then matchesCustomerNumberValues r vs o
  else
    let matched := matches_values r (field f) vs (comparison_of o) now memberIds in
    if is_op isNot o then negb matched else matched.

(** [matchesAdvancedGroup], given what matches a condition. *)
Fixpoint matches_group (m : Filter -> bool) (n : Node) : bool :=
  match n with
  | Cond c => m (conditionAsFilter c)
  | Group _ c l =>
      let results := flat_map (fun x => match x with
                                        | Group _ _ k => if nonempty k then [matches_group m x] else []
                                        | Cond d => if nonempty (c_values d) then [m (conditionAsFilter d)] else []
                                        end) l in
      match results with [] => true | _ => match c with c_or => existsb (fun b => b) results | c_and => forallb (fun b => b) results end end
  end.

(** [matchesExplorerFilter]: a condition of a tree may be an advanced one of the legacy form, whose own conditions are
    not; [fuel] bounds this nesting. *)
Fixpoint matches_filter (fuel : nat) (fresh : list nat -> string) (r : Row) (now : Z) (memberIds : option (string -> list string)) (f : Filter) : bool :=
  if is_key K_advanced (field f) then
    match fuel with
    | O => true
    | S fuel' => matches_group (matches_filter fuel' fresh r now memberIds) (advancedFilterTree fresh f)
    end
  else matches_chip r now memberIds f.
Definition matchesExplorerFilter := matches_filter 2.

Definition applyExplorerFilters (fresh : list nat -> string) (now : Z) (memberIds : option (string -> list string)) (rows : list Row) (filters : list Filter) : list Row :=
  List.filter (fun r => forallb (matchesExplorerFilter fresh r now memberIds) filters) rows.

(** ** The query for the server *)

Record Project := mkProject { pr_id : string; pr_initiatives : list string; pr_status : option (string * string); pr_priority : Z; pr_labels : list string; pr_lead : option string; pr_milestones : list string }.

(** [IssueFilterQueryContext]: projects, the viewer, the users with their mark as an agent, and the workflows. *)
Record Context := mkContext { projects : list Project; viewer : string; users : list (string * bool); ctx_states : list WorkflowState; ctx_teams : option (list Team); ctx_settings : list (string * option string); ctx_now : Z }.

Definition any (nodes : list QNode) : QNode := match nodes with [x] => x | _ => Or nodes end.
Definition none : QNode := Leaf "id" "in" [].

Definition nullable (f : string) (vs : list string) : QNode :=
  let set := List.filter truthy vs in
  let nodes := (if nonempty set then [Leaf f "in" set] else []) ++ (if member "" vs then [Test f "isEmpty"] else []) in
  match nodes with [] => none | _ => any nodes end.

Definition index_of_context (c : Context) : option (string -> list string) :=
  match ctx_teams c with Some teams => if nonempty (ctx_states c) then Some (memberIds (ctx_states c) teams (ctx_settings c)) else None | None => None end.

Definition project_matches (p : Project) (v : string) : bool :=
  if startsWith "project-status:" v then bool_decide (option_map fst (pr_status p) = Some (slice_from 15 v))
  else if startsWith "project-status-type:" v then bool_decide (option_map snd (pr_status p) = Some (slice_from 20 v))
  else if startsWith "project-priority:" v then showZ (pr_priority p) =s slice_from 17 v
  else if startsWith "project-label:" v then member (slice_from 14 v) (pr_labels p)
  else if startsWith "project-lead:" v then (pr_lead p ?? "") =s slice_from 13 v
  else if startsWith "project-milestone-name-contains:" v then existsb (fun n => includes (toLowerCase (slice_from 32 v)) (toLowerCase n)) (pr_milestones p)
  else false.

(** The text of a date comparison. *)
Definition op_text (o : Operator) : string := if is_op before o then "before" else "after".

Definition release_node (now : Z) (comparison : option Operator) (v : string) : QNode :=
  if v =s "no-releases" then Test "release" "isEmpty"
  else if v =s "released-any" then Test "releasedAt" "isNotEmpty"
  else if v =s "no-released-date" then Test "releasedAt" "isEmpty"
  else
    let rest := if startsWith "release:" v then Leaf "release" "in" [slice_from 8 v]
                else if startsWith "release-pipeline:" v then Leaf "releasePipeline" "in" [slice_from 17 v]
                else if startsWith "release-stage:" v then Leaf "releaseStage" "in" [slice_from 14 v]
                else if startsWith "release-stage-type:" v then Leaf "releaseStatus" "in" [slice_from 19 v]
                else none in
    match parseDateFilterValue v with
    | Some p => match kind p with D_released => Leaf "releasedAt" (op_text (comparison ?? defaultDateOperator v)) [dateFilterThreshold p now] | _ => rest end
    | None => rest
    end.

Definition date_node (now : Z) (comparison : option Operator) (v : string) : QNode :=
  let since days := toISOString (now - days * DAY) in
  let isoDay offset := localDay (now + offset * DAY) in
  match parseDateFilterValue v with
  | Some p => Leaf (DATE_FILTER_FIELDS (kind p)) (op_text (comparison ?? defaultDateOperator v)) [dateFilterThreshold p now]
  | None =>
      if startsWith "created-past-" v then Leaf "createdAt" "after" [since (window v)]
      else if startsWith "updated-past-" v then Leaf "updatedAt" "after" [since (window v)]
      else if v =s "started-any" then Test "startedAt" "isNotEmpty"
      else if v =s "completed-any" then Test "completedAt" "isNotEmpty"
      else if v =s "no-completed-date" then Test "completedAt" "isEmpty"
      else if v =s "no-released-date" then Test "releasedAt" "isEmpty"
      else if v =s "auto-closed-any" then Test "autoClosed" "isNotEmpty"
      else if v =s "triaged-any" then Test "triagedAt" "isNotEmpty"
      else if v =s "status-over-week" then Leaf "statusChangedAt" "before" [since 7]
      else if v =s "has-due-date" then Test "dueDate" "isNotEmpty"
      else if v =s "no-due-date" then Test "dueDate" "isEmpty"
      else if v =s "overdue" then Leaf "dueDate" "before" [isoDay 0]
      else if v =s "today" then And [Leaf "dueDate" "gte" [isoDay 0]; Leaf "dueDate" "lte" [isoDay 0]]
      else if v =s "next-week" then And [Leaf "dueDate" "gte" [isoDay 0]; Leaf "dueDate" "lte" [isoDay 7]]
      else none
  end.

Definition positiveNode (k : FilterKey) (vs : list string) (c : Context) (comparison : option Operator) : QNode :=
  let now := ctx_now c in
  let since days := toISOString (now - days * DAY) in
  let isoDay offset := localDay (now + offset * DAY) in
  let or_none nodes := any (match nodes with [] => [none] | _ => nodes end) in
  match k with
  | K_status => Leaf "status" "in" (match index_of_context c with Some f => unique (flat_map f vs) | None => vs end)
  | K_priority => Leaf "priority" "in" vs
  | K_team => Leaf "teamId" "in" vs
  | K_estimate => nullable "estimate" vs
  | K_assignee =>
      let agents := map fst (List.filter snd (users c)) in
      let delegates := List.filter (fun v => member v agents) vs in
      let people := List.filter (fun v => negb (member v agents)) vs in
      if negb (nonempty delegates) then nullable "assignee" vs
      else let delegated := Leaf "delegateId" "in" delegates in if nonempty people then any [nullable "assignee" people; delegated] else delegated
  | K_creator => Leaf "creator" "in" vs
  | K_labels => Leaf "labels" "in" vs
  | K_project => nullable "project" vs
  | K_projectMilestone => nullable "projectMilestoneId" vs
  | K_cycle => nullable "cycle" vs
  | K_subscribers => Leaf "subscribers" "in" vs
  | K_template => nullable "templateId" vs
  | K_externalSource => nullable "externalSource" vs
  | K_addedToCycle => Leaf "addedToCycle" "in" vs
  | K_agent => if member "*" vs then Test "delegateId" "isNotEmpty" else nullable "delegateId" vs
  | K_agentSession =>
      if member "*" vs then Test "agentSessionId" "isNotEmpty"
      else
        let states := unique (flat_map agentSessionStatesFor vs) in
        or_none ((if member "" vs then [Test "agentSessionId" "isEmpty"] else []) ++ (if nonempty states then [Leaf "agentSessionState" "in" states] else []))
  | K_triageIntelligence => or_none (omap triageIntelligenceQueryNode vs)
  | K_autoClosed => if member "true" vs then Test "autoClosed" "isNotEmpty" else Test "autoClosed" "isEmpty"
  | K_links => if member "has-links" vs then Test "hasLinks" "isNotEmpty" else Test "hasLinks" "isEmpty"
  | K_relations =>
      if member "" vs then Not (any (map (fun t => Test ("relation:" +:+ t) "isNotEmpty") ["blocks"; "blocked_by"; "related"; "duplicate"]))
      else any (map (fun t => Test ("relation:" +:+ t) "isNotEmpty") vs)
  | K_suggestedLabel =>
      or_none (map (fun i => Test ("suggestedLabel:" +:+ i) "isNotEmpty") (List.filter truthy vs) ++ (if member "" vs then [Test "suggested:label" "isEmpty"] else []))
  | K_content => any (map (fun v => Leaf "title" "contains" [slice_from 6 v]) (List.filter (startsWith "query:") vs))
  | K_initiative =>
      let projectIds := map pr_id (List.filter (fun p => existsb (fun i => member i vs) (pr_initiatives p)) (projects c)) in
      let withoutInitiative := map pr_id (List.filter (fun p => negb (nonempty (pr_initiatives p))) (projects c)) in
      or_none ((if nonempty projectIds then [Leaf "project" "in" projectIds] else [])
               ++ (if member "" vs then Test "project" "isEmpty" :: (if nonempty withoutInitiative then [Leaf "project" "in" withoutInitiative] else []) else []))
  | K_releases => any (map (release_node now comparison) vs)
  | K_dates => any (map (date_node now comparison) vs)
  | K_projectProperties =>
      let projectIds := map pr_id (List.filter (fun p => existsb (project_matches p) vs) (projects c)) in
      if nonempty projectIds then Leaf "project" "in" projectIds else none
  | K_ai => any (map (fun v => if v =s "assigned-to-me" then Leaf "assignee" "in" [viewer c]
                               else if v =s "completed-last-month" then Leaf "completedAt" "after" [since 30]
                               else if v =s "due-next-two-weeks" then Leaf "dueDate" "lte" [isoDay 14]
                               else if startsWith "query:" v then Leaf "title" "contains" [slice_from 6 v] else none) vs)
  | K_customers => Leaf "customerId" "in" vs
  | K_advanced | K_owner | K_other _ => And []
  end.

(** A chip that is not an advanced one. *)
Definition chip_node (c : Context) (f : Filter) : QNode :=
  let vs := value_ids f in
  let o := operator f in
  if is_op includesAll o || is_op excludesAll o then
    let all := match vs with
               | [] => none
               | [v] => if is_key K_labels (field f) then Leaf "labels" "includesAll" vs else positiveNode (field f) vs c None
               | _ => if is_key K_labels (field f) then Leaf "labels" "includesAll" vs else And (map (fun v => positiveNode (field f) [v] c None) vs)
               end in
    if is_op excludesAll o then Not all else all
  else if isCustomerNumberComparison o then Leaf "customerId" "in" (map (fun v => customerNumberQueryValue v o) vs)
  else
    let node := positiveNode (field f) vs c (comparison_of o) in
    if is_op isNot o then Not node else node.

(** [advancedGroupToQueryNode], given the query of a condition. *)
Fixpoint group_node (q : Filter -> QNode) (n : Node) : QNode :=
  match n with
  | Cond c => q (conditionAsFilter c)
  | Group _ c l =>
      let nodes := flat_map (fun x => match x with
                                      | Group _ _ k => if nonempty k then [group_node q x] else []
                                      | Cond d => if nonempty (c_values d) then [q (conditionAsFilter d)] else []
                                      end) l in
      match nodes with [] => And [] | _ => match c with c_or => Or nodes | c_and => And nodes end end
  end.

Fixpoint filter_node (fuel : nat) (fresh : list nat -> string) (c : Context) (f : Filter) : QNode :=
  if is_key K_advanced (field f) then
    match fuel with
    | O => And []
    | S fuel' => group_node (filter_node fuel' fresh c) (advancedFilterTree fresh f)
    end
  else chip_node c f.
Definition filterToQueryNode := filter_node 2.

(** Without a context the fields keep their names in the server's vocabulary. *)
Definition QUERY_FIELDS (k : FilterKey) : option string :=
  match k with
  | K_team => Some "teamId" | K_assignee => Some "assigneeId" | K_creator => Some "creatorId" | K_labels => Some "labelId" | K_project => Some "projectId" | K_projectMilestone => Some "projectMilestoneId"
  | K_projectProperties => Some "project" | K_status => Some "status" | K_priority => Some "priority" | K_cycle => Some "cycleId" | K_subscribers => Some "subscriberId" | K_externalSource => Some "externalSource"
  | K_autoClosed => Some "autoClosed" | K_template => Some "templateId" | K_relations => Some "relation" | K_links => Some "links" | K_content => Some "content" | K_initiative => Some "initiativeId"
  | K_releases => Some "releaseId" | K_customers => Some "customerId" | K_dates => Some "dateFilter" | _ => None
  end.

Definition operator_text (o : Operator) : string :=
  match o with is_ => "is" | isNot => "isNot" | includesAll => "includesAll" | excludesAll => "excludesAll" | before => "before" | after => "after" | _ => comparison_text o end.

Definition plain_leaf (f : Filter) : QNode :=
  let number := isCustomerNumberComparison (operator f) in
  Leaf (QUERY_FIELDS (field f) ?? key_text (field f)) (if number then "is" else operator_text (operator f))
       (map (fun v => if number then customerNumberQueryValue v (operator f) else v) (value_ids f)).

Definition issueFiltersToQueryAst (fresh : list nat -> string) (filters : list Filter) (context : option Context) : QNode :=
  match context with
  | Some c => simplifyQueryNode (And (map (filterToQueryNode fresh c) filters)) true
  | None =>
      match map plain_leaf filters with
      | [] => And []
      | leaves => let combined := combineModelFilters true (map Some leaves) in if isSome (q_and combined) then combined else And [combined]
      end
  end.
End Time.
