(* ===== verification/IssueQueryServer.v ===== *)
(** * The server's filter of issues
      (api/internal/store/issue_query.go, issue_attributes.go, release_issue_filter.go, text_limits.go)

    A query of an issue list is compiled into a condition of SQL; here it is compiled into a predicate of the issue, read
    from its row.  [compile] is compileIssueFilterScoped with its limits (levels, nodes, values), [compile_leaf] what it
    does with a field.  [None] is a query the server refuses; fields and operators that no filter chip makes (titles,
    customers, sub-issues, ...) are not modelled and are [None] too.  Texts are compared unit by unit, as SQLite does.

    What is not the store's own is an argument: [parseDate] is Go's reading of a time ([RFC3339Nano], then a day) in
    nanoseconds, [stamp] and [dayText] its two formats, [number] the number that the database reads in a text it compares
    with a number, [digest] what stands for a text too long for a key column, [issue_id] the id of a row. *)

From Stdlib Require Import Ascii String ZArith Lia Bool List.
From stdpp Require Import base list strings.
From S2P Require Import Prelude JsString JsMap FilterChips QueryTree FilterQuery.

Local Set Warnings "-register-all,-notation-for-abbreviation".
Local Open Scope Z_scope.

(** ** Fields and operators *)

Definition issueFilterFieldAliases : list (string * string) :=
  [("state", "status"); ("stateid", "status"); ("teamid", "team"); ("projectid", "project"); ("assigneeid", "assignee"); ("creatorid", "creator"); ("cycleid", "cycle"); ("label", "labels"); ("labelid", "labels");
   ("subscriber", "subscribers"); ("subscriberid", "subscribers"); ("createdat", "createdAt"); ("updatedat", "updatedAt"); ("sortorder", "sortOrder"); ("myactivity", "myActivity"); ("statustype", "statusType")].

Definition field_name (f : string) : string := map_get (toLowerCase f) issueFilterFieldAliases ?? f.
Definition operator_name (op : string) : string := let op := toLowerCase op in if truthy op then op else "is".

Inductive OpKind := In_list | Not_in_list | Empty | Not_empty | Compare (test : string -> string -> bool) | All_of | Not_all_of.

Definition operators : list (string * OpKind) :=
  [("is", In_list); ("in", In_list); ("isnot", Not_in_list); ("notin", Not_in_list); ("isempty", Empty); ("isnotempty", Not_empty);
   ("before", Compare String.ltb); ("lt", Compare String.ltb); ("after", Compare (fun a b => String.ltb b a)); ("gt", Compare (fun a b => String.ltb b a));
   ("gte", Compare (fun a b => negb (String.ltb a b))); ("lte", Compare (fun a b => negb (String.ltb b a))); ("includesall", All_of); ("excludesall", Not_all_of)].

(** [strings.TrimSpace(value) == ""] *)
Definition go_space (c : ascii) : bool := let n := nat_of_ascii c in ((9 <=? n)%nat && (n <=? 13)%nat) || (n =? 32)%nat || (n =? 133)%nat || (n =? 160)%nat.
Fixpoint blank (s : string) : bool := match s with EmptyString => true | String c r => go_space c && blank r end.

Definition issueAttributeFields : list string :=
  ["projectMilestoneId"; "estimate"; "dueDate"; "completedAt"; "canceledAt"; "startedAt"; "templateId"; "externalSource"; "delegateId"; "firstLabel"; "agentSessionId"; "addedToCycle"; "hasLinks"; "autoClosed";
   "triagedAt"; "statusChangedAt"; "nextOccurrenceAt"; "recurrenceInstance"; "snoozedUntil"; "autoClosedAt"].
(** Of these, the ones that are not in a row of the client. *)
Definition unmodelled_fields : list string := ["canceledAt"; "firstLabel"; "nextOccurrenceAt"; "recurrenceInstance"; "snoozedUntil"].

Definition issueAttributePrefixes : list string :=
  ["relation:"; "suggestedLabel:"; "suggestedAssignee:"; "suggestedProject:"; "suggestedTeam:"; "suggestedDuplicate:"; "suggestedRelated:"; "suggested:"].

Definition isIssueAttributeField (f : string) : bool :=
  member f issueAttributeFields || existsb (fun p => startsWith p f && (String.length p <? String.length f)%nat) issueAttributePrefixes.

Definition date_field (f : string) : bool := ends_with "At" f || (f =s "dueDate") || (f =s "snoozedUntil").

Definition AgentSessionStates : list string := ["pending"; "active"; "awaitingInput"; "complete"; "error"; "canceled"; "stale"].

Section Store.
Context (parseDate : string -> option Z) (stamp dayText : Z -> string) (number : string -> option Z) (digest : string -> string) (issue_id : Row -> string).

(** ** What is stored of an issue *)

Definition indexKey (s : string) : string := if (byteLength s <=? 191) && lacks "000" s then s else digest s.

(** A time of the issue in its stored form. *)
Definition stored_time (o : option string) : option string := if present o then option_map stamp (parseDate (o ?? "")) else None.
Definition stored_text (o : option string) : option string := if present o then o else None.
Definition stored_flag (b : bool) : option string := if b then Some "true" else None.

Definition named_attributes (r : Row) : list (string * option string) :=
  [("projectMilestoneId", stored_text (r_projectMilestoneId r)); ("dueDate", stored_text (r_dueDate r)); ("completedAt", stored_time (r_completedAt r)); ("startedAt", stored_time (r_startedAt r));
   ("autoClosedAt", stored_time (r_autoClosedAt r)); ("estimate", option_map showZ (r_estimate r)); ("templateId", stored_text (r_templateId r)); ("externalSource", stored_text (r_externalSource r));
   ("delegateId", r_delegate r); ("agentSessionId", stored_text (r_agentSessionId r)); ("addedToCycle", stored_text (r_addedToCycle r)); ("hasLinks", stored_flag (r_hasLinks r));
   ("autoClosed", stored_flag (r_autoClosed r)); ("triagedAt", stored_time (r_triagedAt r)); ("statusChangedAt", stored_time (r_statusChangedAt r))].

Definition suggestions (r : Row) : list (string * list string) :=
  [("Label", r_suggestedLabels r); ("Assignee", r_suggestedAssignees r); ("Project", r_suggestedProjects r); ("Team", r_suggestedTeams r); ("Duplicate", r_suggestedDuplicates r); ("Related", r_suggestedRelated r)].

Definition issueAttributes (r : Row) : list (string * string) :=
  flat_map (fun e => match snd e with Some v => [(fst e, v)] | None => [] end) (named_attributes r)
  ++ map (fun t => ("relation:" +:+ t, "true")) (r_relationTypes r)
  ++ flat_map (fun e => flat_map (fun i => if truthy i then [("suggested" +:+ fst e +:+ ":" +:+ i, "true"); ("suggested:" +:+ toLowerCase (fst e), "true")] else []) (snd e)) (suggestions r).

(** [EXISTS (SELECT 1 FROM issue_attribute_records ...)] with a condition on the value. *)
Definition attribute_exists (r : Row) (f : string) (test : string -> bool) : bool :=
  existsb (fun e => (indexKey (fst e) =s indexKey f) && test (indexKey (snd e))) (issueAttributes r).

(** The columns of issue_records. *)
Definition column (r : Row) (f : string) : option string :=
  map_get f [("id", issue_id r); ("team", r_teamId r ?? ""); ("status", r_stateId r); ("statusType", r_stateType r); ("project", r_project r ?? ""); ("assignee", r_assignee r ?? ""); ("creator", r_creatorId r ?? "");
             ("cycle", r_cycleId r ?? ""); ("priority", showZ (r_priority r)); ("createdAt", stored_time (r_createdAt r) ?? ""); ("updatedAt", stored_time (r_updatedAt r) ?? "")].

(** The records of the tables issue_label_records and issue_subscriber_records. *)
Definition relation_records (r : Row) (f : string) : option (list string) := map_get f [("labels", r_labels r); ("subscribers", r_subscriberIds r)].

(** A column of the issue's records in release_issue_filter_records. *)
Definition release_values (r : Row) (f : string) : option (list string) :=
  map_get f [("release", r_releaseIds r); ("releaseId", r_releaseIds r); ("releasePipeline", r_releasePipelineIds r); ("releasePipelineId", r_releasePipelineIds r); ("releaseStage", r_releaseStages r); ("releaseStatus", r_releaseStatuses r)].
Definition released_values (r : Row) : list string := omap (fun d => stored_time (Some d)) (r_releasedDates r).

(** ** Leaves *)

Definition times (vs : list string) : option (list string) := mapM (fun v => option_map stamp (parseDate v)) vs.

Definition compileAgentSessionState (op : string) (vs : list string) : option (Row -> bool) :=
  if negb (nonempty vs) || (8 <? length vs)%nat || negb (forallb (fun v => (v =s "merged") || member v AgentSessionStates) vs) then None
  else
    (** The state an issue read reports is [agentSessionState] of the task: merged, stale or its status. *)
    let condition r := present (r_agentSessionId r) && present (r_agentSessionState r) && member (r_agentSessionState r ?? "") vs in
    match map_get op operators with Some In_list => Some condition | Some Not_in_list => Some (fun r => negb (condition r)) | _ => None end.

Definition isReleaseFilterField (f : string) : bool := member f ["release"; "releaseId"; "releasePipeline"; "releasePipelineId"; "releaseStage"; "releaseStatus"; "releasedAt"].

Definition compileReleaseFilter (f op : string) (vs : list string) : option (Row -> bool) :=
  let dated := f =s "releasedAt" in
  let members r := if dated then nonempty (released_values r) else nonempty (r_releaseIds r) in
  let listed r := let set := List.filter truthy vs in
    (nonempty set && any_of set (release_values r f ?? [])) || ((length set <? length vs)%nat && negb (members r)) in
  match map_get op operators with
  | Some Empty => Some (fun r => negb (members r))
  | Some Not_empty => Some members
  | Some In_list => if dated || negb (nonempty vs) then None else Some listed
  | Some Not_in_list => if dated || negb (nonempty vs) then None else Some (fun r => negb (listed r))
  | Some (Compare test) => match times vs with Some [t] => if dated then Some (fun r => existsb (fun d => test d t) (released_values r)) else None | _ => None end
  | _ => None
  end.

(** A value asked for, in its stored form. *)
Definition attribute_value (f v : string) : option string :=
  if negb (truthy v) then Some v
  else if date_field f then option_map (fun t => if f =s "dueDate" then dayText t else stamp t) (parseDate v)
  else Some (indexKey v).

Definition compileIssueAttribute (f op : string) (vs : list string) : option (Row -> bool) :=
  if member f unmodelled_fields then None
  else
    match mapM (attribute_value f) vs with
    | None => None
    | Some values =>
        let listed r := attribute_exists r f (fun v => member v values) || (member "" values && negb (attribute_exists r f (fun _ => true))) in
        match map_get op operators with
        | Some Empty => Some (fun r => negb (attribute_exists r f (fun _ => true)))
        | Some Not_empty => Some (fun r => attribute_exists r f (fun _ => true))
        | Some In_list => Some listed
        | Some Not_in_list => Some (fun r => negb (listed r))
        | Some (Compare test) => match values with [t] => if truthy t && negb (f =s "estimate") then Some (fun r => attribute_exists r f (fun v => test v t)) else None | _ => None end
        | _ => None
        end
    end.

(** Labels and subscribers. *)
Definition compile_records (f op : string) (vs : list string) : option (Row -> bool) :=
  let records r := relation_records r f ?? [] in
  let listed r := any_of vs (records r) || (member "" vs && negb (nonempty (records r))) in
  let all r := forallb (fun v => if truthy v then member v (records r) else negb (nonempty (records r))) vs in
  let counted := nonempty vs && (length vs <=? 100)%nat in
  match map_get op operators with
  | Some In_list => Some listed
  | Some Not_in_list => Some (fun r => negb (listed r))
  | Some All_of => if counted then Some all else None
  | Some Not_all_of => if counted then Some (fun r => negb (all r)) else None
  | Some Empty => Some (fun r => negb (nonempty (records r)))
  | Some Not_empty => Some (fun r => nonempty (records r))
  | _ => None
  end.

(** The columns of the issue itself. *)
Definition compile_column (f op : string) (vs : list string) : option (Row -> bool) :=
  let dated := (f =s "createdAt") || (f =s "updatedAt") in
  match (if dated then times vs else Some vs) with
  | None => None
  | Some values =>
      let text r := column r f ?? "" in
      let equal r v := if f =s "priority" then bool_decide (number v = Some (r_priority r)) else text r =s v in
      let listed r := existsb (equal r) values || ((f =s "status") && member (r_stateType r) values) in
      match map_get op operators with
      | Some In_list => Some listed
      | Some Not_in_list => Some (fun r => negb (listed r))
      | Some Empty => Some (fun r => text r =s "")
      | Some Not_empty => Some (fun r => negb (text r =s ""))
      | Some (Compare test) => match values with [t] => if dated then Some (fun r => test (text r) t) else None | _ => None end
      | _ => None
      end
  end.

Definition team_refused (f op : string) (vs : list string) : bool :=
  (f =s "team") && (negb (member op ["is"; "isnot"; "in"; "notin"]) || negb (nonempty vs) || existsb blank vs).

Definition compile_leaf (f op : string) (vs : list string) : option (Row -> bool) :=
  let f := field_name f in
  let op := operator_name op in
  if team_refused f op vs then None
  else if f =s "agentSessionState" then compileAgentSessionState op vs
  else if isReleaseFilterField f then compileReleaseFilter f op vs
  else if isIssueAttributeField f then compileIssueAttribute f op vs
  else if member f ["labels"; "subscribers"] then compile_records f op vs
  else if member f ["id"; "team"; "status"; "statusType"; "project"; "assignee"; "creator"; "cycle"; "priority"; "createdAt"; "updatedAt"] then compile_column f op vs
  else None.

(** ** Queries *)

(** [None] is an error; otherwise the condition, and what is left of the nodes a query may have. *)
Fixpoint compile (n : QNode) (depth : nat) (remaining : Z) : option ((Row -> bool) * Z) :=
  let '(mkQ a o m f p v) := n in
  let children := fix children (l : list QNode) (remaining : Z) : option (list (Row -> bool) * Z) :=
    match l with
    | [] => Some ([], remaining)
    | x :: rest => match compile x (S depth) remaining with
                   | None => None
                   | Some (c, remaining) => match children rest remaining with None => None | Some (cs, remaining) => Some (c :: cs, remaining) end
                   end
    end in
  if (8 <? depth)%nat || (remaining - 1 <? 0) || (1000 <? length (v ?? []))%nat then None
  else
    match (match a with Some l => children l (remaining - 1) | None => Some ([], remaining - 1) end) with
    | None => None
    | Some (ands, remaining) =>
        match (match o with Some l => children l remaining | None => Some ([], remaining) end) with
        | None => None
        | Some (ors, remaining) =>
            match (match m with Some x => match compile x (S depth) remaining with None => None | Some (c, remaining) => Some ((fun r => negb (c r)), remaining) end | None => Some ((fun _ => true), remaining) end) with
            | None => None
            | Some (negated, remaining) =>
                match (match f with Some f => if truthy f then compile_leaf f (p ?? "") (v ?? []) else Some (fun _ => true) | None => Some (fun _ => true) end) with
                | None => None
                | Some tested => Some ((fun r => forallb (fun c => c r) ands && (negb (nonempty ors) || existsb (fun c => c r) ors) && negated r && tested r), remaining)
                end
            end
        end
    end.

(** What a leaf says of a row; a refused one says nothing. *)
Definition leaf_meaning (r : Row) (f op : string) (vs : list string) : bool :=
  if truthy f then match compile_leaf f op vs with Some c => c r | None => false end else true.

(** ** What is selected *)

Lemma leaf_operator f p vs : compile_leaf f (p ?? "") vs = compile_leaf f (p ?? "is") vs.
Proof. by destruct p. Qed.

Definition conditions_mean (r : Row) (cs : list (Row -> bool)) (l : list QNode) : Prop := map (fun c => c r) cs = map (meaning (leaf_meaning r)) l.

Lemma conditions_forallb r cs l : conditions_mean r cs l -> forallb (fun c => c r) cs = forallb (meaning (leaf_meaning r)) l.
Proof. unfold conditions_mean. revert l. induction cs as [|c cs IH]; intros [|x l]; try done. cbn. intros [= E1 E2]. by rewrite E1, (IH l). Qed.
Lemma conditions_existsb r cs l : conditions_mean r cs l -> existsb (fun c => c r) cs = existsb (meaning (leaf_meaning r)) l.
Proof. unfold conditions_mean. revert l. induction cs as [|c cs IH]; intros [|x l]; try done. cbn. intros [= E1 E2]. by rewrite E1, (IH l). Qed.

(** A query that is not refused selects what its parts say: all of [and], one of [or] when there are any, not [not], and the leaf. *)
Fixpoint compile_sound (n : QNode) : forall depth remaining c left, compile n depth remaining = Some (c, left) -> forall r, c r = meaning (leaf_meaning r) n.
Proof.
  destruct n as [a o m f p v]. intros depth remaining c left. cbn [compile].
  set (children := fix children (l : list QNode) (remaining : Z) : option (list (Row -> bool) * Z) := _).
  assert (Hc : forall l rem cs rest, children l rem = Some (cs, rest) -> forall r, conditions_mean r cs l).
  { induction l as [|x l IH]; intros rem cs rest; cbn [children]; [by intros [= <- <-]|].
    destruct (compile x (S depth) rem) as [[cx rem']|] eqn:Ex; [|done]. destruct (children l rem') as [[cl rem'']|] eqn:El; [|done]. intros [= <- <-] r. unfold conditions_mean. cbn [map].
    f_equal; [exact (compile_sound x _ _ _ _ Ex r) | exact (IH _ _ _ El r)]. }
  destruct (_ || _ || _); [done|]. assert (Hp : forall l rem cs rest, match l with Some l => children l rem | None => Some ([], rem) end = Some (cs, rest) -> forall r, conditions_mean r cs (l ?? [])) by (intros [l|] rem cs rest; [apply Hc | by intros [= <- <-]]).
  destruct (match a with Some l => _ | None => _ end) as [[ands rem1]|] eqn:Ea; [|done]. destruct (match o with Some l => _ | None => _ end) as [[ors rem2]|] eqn:Eo; [|done].
  pose proof (Hp _ _ _ _ Ea) as Ha. pose proof (Hp _ _ _ _ Eo) as Ho. clear Hc Hp Ea Eo. clearbody children.
  destruct (match m with Some x => _ | None => _ end) as [[negated rem3]|] eqn:Em; [|done]. destruct (match f with Some f => _ | None => _ end) as [tested|] eqn:Ef; [|done]. intros [= <- _] r.
  cbn [meaning]. rewrite (conditions_forallb r ands _ (Ha r)). specialize (Ho r). f_equal; [f_equal; [f_equal|]|].
  - by destruct a.
  - destruct o as [l|]; [change (Some l ?? []) with l in Ho | change (None ?? []) with (@nil QNode) in Ho; by destruct ors]. rewrite (conditions_existsb r ors _ Ho). destruct l; [by destruct ors|]. by destruct ors.
  - destruct m as [x|]; [|by injection Em as <- _]. destruct (compile x (S depth) rem2) as [[cx rem']|] eqn:Ex; [|done]. injection Em as <- _. by rewrite (compile_sound x _ _ _ _ Ex r).
  - destruct f as [f|]; [|by injection Ef as <-]. unfold leaf_meaning. destruct (truthy f); [|by injection Ef as <-]. rewrite leaf_operator in Ef. by rewrite Ef.
Qed.
End Store.

#[global] Arguments leaf_meaning : simpl never.
