(* ===== verification/FilterParity.v ===== *)
(** * The client and the server select the same issues
      (web/src/components/issue-explorer/issue-filter-query.ts, issue-explorer-model.ts)

    The server is that of IssueQueryServer.  [Consistent] is what the rows and the context have in common: both are made
    from one workspace, of times that both sides read alike and of texts that fit the server's key columns.  [covered] are
    the values for which the two sides are written to agree; the examples at the end show what happens for others. *)

From Stdlib Require Import Ascii String ZArith Lia Bool List DecimalString DecimalPos DecimalZ.
From stdpp Require Import base list strings.
From S2P Require Import Prelude JsString JsMap TeamHierarchy StatusGroups FilterChips AdvancedFilter QueryTree FilterQuery IssueQueryServer.

Local Set Warnings "-register-all,-notation-for-abbreviation".
Local Open Scope Z_scope.

Definition due_day (r : Row) : string := slice 0 10 (r_dueDate r ?? "").
Definition timed (k : DateFilterKind) : bool := match k with D_due | D_released => false | _ => true end.
Definition agents (c : Context) : list string := map fst (List.filter snd (users c)).

(** The texts of a column: columns of the issue, and attributes that are stored when they are set; an unset one is empty. *)
Definition text_columns (r : Row) : list (string * string) := [("assignee", r_assignee r ?? ""); ("creator", r_creatorId r ?? ""); ("project", r_project r ?? ""); ("cycle", r_cycleId r ?? "")].
Definition text_attributes (r : Row) : list (string * string) :=
  [("estimate", estimate_text r); ("delegateId", r_delegate r ?? ""); ("projectMilestoneId", r_projectMilestoneId r ?? ""); ("addedToCycle", r_addedToCycle r ?? ""); ("templateId", r_templateId r ?? "");
   ("externalSource", r_externalSource r ?? "")].

(** What is there or not. *)
Definition named_flags (r : Row) : list (string * bool) :=
  [("hasLinks", r_hasLinks r); ("autoClosed", r_autoClosed r); ("startedAt", present (r_startedAt r)); ("completedAt", present (r_completedAt r)); ("triagedAt", present (r_triagedAt r)); ("dueDate", present (r_dueDate r));
   ("agentSessionId", present (r_agentSessionId r)); ("delegateId", present (r_delegate r))].
Definition suggested_flags (r : Row) : list (string * bool) :=
  [("suggested:assignee", nonempty (r_suggestedAssignees r)); ("suggested:project", nonempty (r_suggestedProjects r)); ("suggested:label", nonempty (r_suggestedLabels r));
   ("suggested:team", nonempty (r_suggestedTeams r)); ("suggested:related", nonempty (r_suggestedRelated r)); ("suggested:duplicate", nonempty (r_suggestedDuplicates r))].
Definition release_flags (r : Row) : list (string * bool) := [("release", nonempty (r_releaseIds r)); ("releasedAt", nonempty (r_releasedDates r))].

(** ** What rows and context have in common *)

Section Shared.
Context (parseTime : string -> option Z) (toISOString : Z -> string) (localDay : Z -> string) (dayStart : string -> Z) (startOfDay : Z -> Z).
Context (parseDate : string -> option Z) (stamp dayText : Z -> string) (number : string -> option Z) (digest : string -> string).

(** Times from 1970 to 9999, in nanoseconds. *)
Definition era (n : Z) : Prop := 0 <= n < 253402300800000000000.

(** What the formats of times and numbers promise: the stored form of times sorts as the times do. *)
Record Formats : Prop := {
  fm_order : forall a b, era a -> era b -> String.ltb (stamp a) (stamp b) = (a <? b);
  fm_stamp : forall a, era a -> stamp a <> "" /\ indexKey digest (stamp a) = stamp a;
  fm_number : forall n, number (showZ n) = Some n }.

(** A text that is its own key: at most 191 bytes, without NUL. *)
Definition plain (s : string) : Prop := indexKey digest s = s.

(** A time in whole milliseconds that both sides read alike; a text that the server reads as the day it names. *)
Definition whole (s : string) : Prop := s <> "" /\ exists ms, parseTime s = Some ms /\ parseDate s = Some (ms * 1000000) /\ era (ms * 1000000).
Definition day_text (s : string) : Prop := s <> "" /\ exists n, parseDate s = Some n /\ dayText n = s.

Record Consistent (c : Context) (r : Row) : Prop := {
  cs_agents : "" ∉ agents c;
  cs_delegate : forall d, r_delegate r = Some d -> d ∈ agents c;
  cs_assignee : forall a, r_assignee r = Some a -> a ∉ agents c;
  cs_states : NoDup (map s_id (ctx_states c));
  cs_type : r_stateType r ∉ map s_id (ctx_states c);
  cs_relations : Forall (fun t => t ∈ ["blocks"; "blocked_by"; "related"; "duplicate"]) (r_relationTypes r);
  cs_projects : NoDup (map pr_id (projects c)) /\ Forall (fun p => truthy (pr_id p) = true /\ "" ∉ pr_initiatives p) (projects c);
  cs_project : match r_project r with
               | Some i => exists p, In p (projects c) /\ pr_id p = i /\ r_initiativeIds r = pr_initiatives p /\ r_projectStatusId r = option_map fst (pr_status p) /\ r_projectStatusType r = option_map snd (pr_status p)
                             /\ r_projectPriority r = Some (pr_priority p) /\ r_projectLabels r = pr_labels p /\ r_projectLeadId r = pr_lead p /\ r_projectMilestoneNames r = pr_milestones p
               | None => r_initiativeIds r = [] /\ r_projectStatusId r = None /\ r_projectStatusType r = None /\ r_projectPriority r = None /\ r_projectLabels r = [] /\ r_projectLeadId r = None /\ r_projectMilestoneNames r = []
               end;
  cs_suggested : Forall (fun e => "" ∉ snd e) (suggestions r);
  cs_subscribers : "" ∉ r_subscriberIds r;
  cs_labels : "" ∉ r_labels r;
  cs_estimate : forall n, r_estimate r = Some n -> 0 <= n;
  cs_keys : Forall (fun e => plain (fst e) /\ plain (snd e)) (issueAttributes parseDate stamp r);
  cs_released : r_hasReleasedRelease r = nonempty (r_releasedDates r) /\ Forall (fun d => truthy d = true /\ whole d) (r_releasedDates r);
  cs_created : present (r_createdAt r) = true /\ present (r_updatedAt r) = true;
  cs_times : forall k t, row_date r k = Some t -> timed k = true -> t <> "" -> whole t;
  cs_due : forall d, r_dueDate r = Some d -> slice 0 10 d = d;
  cs_iso : parseTime (toISOString (ctx_now c - 7 * DAY)) = Some (ctx_now c - 7 * DAY) /\ whole (toISOString (ctx_now c - 7 * DAY));
  cs_today : startOfDay (ctx_now c) = dayStart (localDay (ctx_now c)) /\ day_text (localDay (ctx_now c));
  cs_days : String.ltb (due_day r) (localDay (ctx_now c)) = (dayStart (due_day r) <? dayStart (localDay (ctx_now c)))
            /\ String.ltb (localDay (ctx_now c)) (due_day r) = (dayStart (localDay (ctx_now c)) <? dayStart (due_day r)) }.

(** The values for which client and server are written to agree. *)
Definition threshold_read (c : Context) (p : ParsedDateValue) : Prop :=
  let t := dateFilterThreshold toISOString localDay dayStart p (ctx_now c) in match kind p with D_due => day_text t | _ => whole t end.

Definition plain_value (c : Context) (r : Row) (k : FilterKey) (v : string) : Prop :=
  match k with
  | K_content | K_ai | K_customers => False
  | K_team => blank v = false
  | K_priority => exists n, v = showZ n
  | K_estimate | K_assignee | K_agent | K_projectMilestone | K_template | K_externalSource | K_addedToCycle => plain v
  | K_relations => plain ("relation:" +:+ v)
  | K_suggestedLabel => plain ("suggestedLabel:" +:+ v)
  | K_triageIntelligence => match splitValue v with Some (kind, i) => plain (kind_field kind +:+ i) | None => True end
  | K_agentSession => v = "*" \/ v = "" \/ startsWith "state:" v = true
  | K_dates => match parseDateFilterValue v with Some p => threshold_read c p | None => startsWith "created-past-" v = false /\ startsWith "updated-past-" v = false /\ v <> "next-week" end
  | K_releases => (v ∉ ["release:"; "release-pipeline:"; "release-stage:"; "release-stage-type:"]) /\ match parseDateFilterValue v with Some p => threshold_read c p | None => True end
  | K_projectProperties => isSome (r_project r) = true \/ ((v <> "project-lead:") /\ (v <> "project-priority:undefined"))
  | _ => True
  end.

Definition plain_mix (k : FilterKey) (vs : list string) : Prop :=
  match k with
  | K_suggestedLabel | K_initiative | K_subscribers => "" ∈ vs -> Forall (fun v => v = "") vs
  | K_agentSession => member "*" vs && member "" vs = false
  | K_autoClosed => xorb (member "true" vs) (member "false" vs) = true
  | K_links => xorb (member "has-links" vs) (member "no-links" vs) = true
  | _ => True
  end.

Definition covered (c : Context) (r : Row) (k : FilterKey) (vs : list string) : Prop := vs <> [] /\ Forall (plain_value c r k) vs /\ plain_mix k vs.

(** Chips: one that is no number filter, all of whose values are covered. *)
Definition all_values (o : Operator) : bool := is_op includesAll o || is_op excludesAll o.
Definition covered_chip (c : Context) (r : Row) (f : Filter) : Prop :=
  isCustomerNumberComparison (operator f) = false
  /\ if all_values (operator f) then (length (value_ids f) <= 100)%nat /\ Forall (fun v => covered c r (field f) [v]) (value_ids f) else covered c r (field f) (value_ids f).

Fixpoint covered_filter (fuel : nat) (fresh : list nat -> string) (c : Context) (r : Row) (f : Filter) : Prop :=
  if is_key K_advanced (field f) then
    match fuel with
    | O => True
    | S fuel' => Forall (fun d => valued d = true -> covered_filter fuel' fresh c r (conditionAsFilter d)) (treeConditions (advancedFilterTree fresh f))
    end
  else covered_chip c r f.
End Shared.

(** Chips as the menus make them: only labels have the operators on all values, and no condition is an advanced chip. *)
Definition offered_chip (f : Filter) : bool := negb (is_key K_advanced (field f)) && (negb (all_values (operator f)) || is_key K_labels (field f)).
Definition offered_filter (fresh : list nat -> string) (f : Filter) : bool :=
  if is_key K_advanced (field f) then forallb (fun d => negb (valued d) || offered_chip (conditionAsFilter d)) (treeConditions (advancedFilterTree fresh f)) else offered_chip f.

(** ** Lists of texts *)

Lemma member_spec s l : member s l = true <-> s ∈ l.
Proof. unfold member. rewrite existsb_exists, list_elem_of_In. split; [intros (x & Hx & ->%String.eqb_eq); done | intros H; exists s; by rewrite String.eqb_refl]. Qed.

Lemma member_filter s (p : string -> bool) l : member s (List.filter p l) = member s l && p s.
Proof. apply eq_iff_eq_true. rewrite andb_true_iff, !member_spec, !list_elem_of_In, filter_In. done. Qed.

Lemma member_unique s l : member s (unique l) = member s l.
Proof. apply eq_iff_eq_true. rewrite !member_spec. apply unique_spec. Qed.

Lemma member_flat_map {A} s (f : A -> list string) l : member s (flat_map f l) = existsb (fun x => member s (f x)) l.
Proof. induction l as [|x l IH]; [done|]. cbn [flat_map existsb]. unfold member in *. by rewrite existsb_app, IH. Qed.

Lemma nonempty_existsb {A} (p : A -> bool) l : existsb p l = true -> nonempty l = true.
Proof. by destruct l. Qed.

Lemma forallb_same {A} (p q : A -> bool) l : (forall x, p x = q x) -> forallb p l = forallb q l.
Proof. intros H. induction l as [|x l IH]; [done|]. cbn. by rewrite H, IH. Qed.

Lemma truthy_spec s : truthy s = true <-> s <> "".
Proof. unfold truthy. rewrite negb_true_iff. apply String.eqb_neq. Qed.

Lemma truthy_false s : truthy s = false <-> s = "".
Proof. unfold truthy. rewrite negb_false_iff. apply String.eqb_eq. Qed.

Lemma existsb_swap (a b : list string) : any_of a b = any_of b a.
Proof. apply eq_iff_eq_true. unfold any_of, member. rewrite !existsb_exists. setoid_rewrite existsb_exists. split; intros (x & Hx & y & Hy & ->%String.eqb_eq); exists y; (split; [done|]); exists y; by rewrite String.eqb_refl. Qed.

Lemma existsb_ext_Forall {A} (p q : A -> bool) l : Forall (fun x => p x = q x) l -> existsb p l = existsb q l.
Proof. induction 1 as [|x l E _ IH]; [done|]. cbn. by rewrite E, IH. Qed.

(** ** What the server's leaves say *)

Section Leaves.
Context {parseTime : string -> option Z} {toISOString : Z -> string} {localDay : Z -> string} {dayStart : string -> Z} {startOfDay : Z -> Z}.
Context {parseDate : string -> option Z} {stamp dayText : Z -> string} {number : string -> option Z} {digest : string -> string} {issue_id : Row -> string}.
Context {c : Context} {r : Row} (fm : Formats stamp number digest) (ok : Consistent parseTime toISOString localDay dayStart startOfDay parseDate stamp dayText digest c r).
Local Notation leaf := (leaf_meaning parseDate stamp dayText number digest issue_id r).
Local Notation plain := (plain digest).
Local Notation stored := (attribute_exists parseDate stamp digest r).

Lemma existsb_map {A B} (p : B -> bool) (f : A -> B) l : existsb p (map f l) = existsb (fun x => p (f x)) l.
Proof. induction l as [|x l IH]; [done|]. cbn. by rewrite IH. Qed.

Lemma existsb_flat_map {A B} (p : B -> bool) (f : A -> list B) l : existsb p (flat_map f l) = existsb (fun x => existsb p (f x)) l.
Proof. induction l as [|x l IH]; [done|]. cbn [flat_map existsb]. by rewrite existsb_app, IH. Qed.

Lemma existsb_false {A} (p : A -> bool) l : (forall x, p x = false) -> existsb p l = false.
Proof. intros H. induction l as [|x l IH]; [done|]. cbn. by rewrite H. Qed.

Definition hit (f : string) (test : string -> bool) (e : string * string) : bool := (fst e =s f) && test (snd e).

(** Under plain keys an attribute is looked up by its own name. *)
Lemma stored_plain f test : plain f -> stored f test = existsb (hit f test) (issueAttributes parseDate stamp r).
Proof.
  intros Hf. unfold attribute_exists. red in Hf. rewrite Hf. pose proof (cs_keys _ _ _ _ _ _ _ _ _ _ _ ok) as H. induction H as [|e l [H1 H2] _ IH]; [done|]. cbn [existsb]. unfold hit at 1. by rewrite IH, H1, H2.
Qed.

Lemma eqb_prefix p s f : startsWith p f = false -> (p +:+ s =s f) = false.
Proof. intros H. apply String.eqb_neq. intros <-. apply not_true_iff_false in H. apply H. apply prefix_spec. by exists s. Qed.

Lemma existsb_named (l : list (string * option string)) f test : NoDup (map fst l) ->
  existsb (fun e => existsb (hit f test) match snd e with Some v => [(fst e, v)] | None => [] end) l = match map_get f l with Some (Some v) => test v | _ => false end.
Proof.
  induction l as [|[k o] l IH]; intros Hn; [done|]. cbn [map fst] in Hn. apply NoDup_cons in Hn as [Hk Hn]. cbn [existsb map_get fst snd]. rewrite IH by done. case_decide as E.
  - subst k. assert (G : map_get f l = None) by (by apply map_get_None). rewrite G, orb_false_r. destruct o; unfold hit; cbn; [by rewrite String.eqb_refl, orb_false_r | done].
  - destruct o; unfold hit; cbn; [|done]. rewrite (proj2 (String.eqb_neq k f)) by congruence. done.
Qed.

Lemma suggested_none f test : startsWith "suggested" f = false ->
  existsb (hit f test) (flat_map (fun e => flat_map (fun i => if truthy i then [("suggested" +:+ fst e +:+ ":" +:+ i, "true"); ("suggested:" +:+ toLowerCase (fst e), "true")] else []) (snd e)) (suggestions r)) = false.
Proof.
  intros H. rewrite existsb_flat_map. apply existsb_false. intros e. rewrite existsb_flat_map. apply existsb_false. intros i. destruct (truthy i); [|done]. unfold hit. cbn [existsb fst snd].
  change ("suggested:" +:+ toLowerCase (fst e)) with ("suggested" +:+ (":" +:+ toLowerCase (fst e))). by rewrite !eqb_prefix.
Qed.

(** A named attribute is the only one of its name. *)
Lemma stored_named f test : plain f -> startsWith "relation:" f = false -> startsWith "suggested" f = false ->
  stored f test = match map_get f (named_attributes parseDate stamp r) with Some (Some v) => test v | _ => false end.
Proof.
  intros Hf H1 H2. rewrite stored_plain by done. unfold issueAttributes. rewrite !existsb_app, suggested_none, existsb_map, existsb_flat_map, existsb_named by (done || (apply (bool_decide_unpack _); vm_compute; exact I)).
  rewrite existsb_false by (intros t; unfold hit; cbn [fst]; by rewrite eqb_prefix). by rewrite !orb_false_r.
Qed.

Lemma stored_relation t : plain ("relation:" +:+ t) -> stored ("relation:" +:+ t) (fun _ => true) = member t (r_relationTypes r).
Proof.
  intros Hf. rewrite stored_plain by done. unfold issueAttributes. rewrite !existsb_app, suggested_none, existsb_map, existsb_flat_map, existsb_named by (done || (apply (bool_decide_unpack _); vm_compute; exact I)).
  replace (map_get ("relation:" +:+ t) (named_attributes parseDate stamp r)) with (@None (option string)) by (symmetry; unfold named_attributes; cbn [map_get]; by repeat (case_decide; [discriminate|])).
  rewrite orb_false_r. cbn [orb fst snd]. unfold member. apply existsb_same. intros x. unfold hit. rewrite andb_true_r. cbn. apply String.eqb_sym.
Qed.
(** What is suggested: a record per target, and one for the kind. *)
Lemma stored_suggestions f : plain f -> startsWith "relation:" f = false -> map_get f (named_attributes parseDate stamp r) = None ->
  stored f (fun _ => true) = existsb (fun e => existsb (fun i => truthy i && (("suggested" +:+ fst e +:+ ":" +:+ i =s f) || ("suggested:" +:+ toLowerCase (fst e) =s f))) (snd e)) (suggestions r).
Proof.
  intros Hf H1 Hn. rewrite stored_plain by done. unfold issueAttributes. rewrite !existsb_app, existsb_map, !existsb_flat_map, existsb_named, Hn by (apply (bool_decide_unpack _); vm_compute; exact I).
  rewrite existsb_false by (intros t; unfold hit; cbn [fst]; by rewrite eqb_prefix). cbn [orb]. apply existsb_same. intros e. rewrite existsb_flat_map. apply existsb_same. intros i. destruct (truthy i); [|done]. unfold hit. cbn [existsb fst snd]. by rewrite !andb_true_r, orb_false_r.
Qed.

Lemma named_suggested s : map_get ("suggested" +:+ s) (named_attributes parseDate stamp r) = None.
Proof. unfold named_attributes. cbn [map_get]. by repeat (case_decide; [discriminate|]). Qed.

Lemma truthy_member i l : "" ∉ l -> existsb (fun x => truthy x && ((x =s i) || false)) l = member i l.
Proof. intros H. unfold member. apply existsb_ext_Forall, Forall_forall. intros x Hx. rewrite orb_false_r, String.eqb_sym. replace (truthy x) with true; [done|]. symmetry. apply truthy_spec. by intros ->. Qed.

Lemma truthy_some (l : list string) : "" ∉ l -> existsb (fun x => truthy x && true) l = nonempty l.
Proof. intros H. destruct l as [|x l]; [done|]. cbn. replace (truthy x) with true; [done|]. symmetry. apply truthy_spec. intros ->. apply H. left. Qed.

Lemma suggestions_set : Forall (fun e => "" ∉ snd e) (suggestions r).
Proof. exact (cs_suggested _ _ _ _ _ _ _ _ _ _ _ ok). Qed.

Lemma targets_set k : "" ∉ targets r k.
Proof. pose proof suggestions_set as H. unfold suggestions in H. repeat (apply Forall_cons in H as [? H]). by destruct k. Qed.

Lemma stored_target k i : plain (kind_field k +:+ i) -> stored (kind_field k +:+ i) (fun _ => true) = member i (targets r k).
Proof.
  intros Hf. rewrite stored_suggestions; [|done | by destruct k | destruct k; exact (named_suggested _)]. rewrite <- truthy_member by apply targets_set. unfold suggestions. cbn [existsb fst snd]. rewrite orb_false_r.
  destruct k; cbn [targets kind_field]; repeat match goal with |- context [existsb ?p ?l] => first [rewrite (existsb_false p l) by (intros x; cbn; by rewrite ?andb_false_r)] end; cbn [orb]; rewrite ?orb_false_r; reflexivity.
Qed.
Lemma present_stored o : (forall t, o = Some t -> t <> "" -> whole parseTime parseDate t) -> isSome (stored_time parseDate stamp o) = present o.
Proof. intros H. unfold stored_time. destruct o as [t|]; [|done]. destruct (present (Some t)) eqn:E; [|done]. apply truthy_spec in E. change (Some t ?? "") with t in *. by destruct (H t eq_refl E) as (_ & ms & _ & -> & _). Qed.

Lemma row_stored k : timed k = true -> isSome (stored_time parseDate stamp (row_date r k)) = present (row_date r k).
Proof. intros Hk. apply present_stored. intros t Ht. by apply (cs_times _ _ _ _ _ _ _ _ _ _ _ ok k). Qed.

Lemma delegate_set d : r_delegate r = Some d -> truthy d = true.
Proof. intros E. apply truthy_spec. intros ->. apply (cs_agents _ _ _ _ _ _ _ _ _ _ _ ok). by apply (cs_delegate _ _ _ _ _ _ _ _ _ _ _ ok). Qed.

Lemma lv_present f o : plain f -> startsWith "relation:" f = false -> startsWith "suggested" f = false -> map_get f (named_attributes parseDate stamp r) = Some o -> stored f (fun _ => true) = isSome o.
Proof. intros H1 H2 H3 E. rewrite stored_named, E by done. by destruct o. Qed.

Lemma stored_flag_some b : isSome (stored_flag b) = b.
Proof. by destruct b. Qed.
Lemma stored_text_some o : isSome (stored_text o) = present o.
Proof. unfold stored_text. destruct (present o) eqn:E; [|done]. by destruct o. Qed.

Lemma lv_named f b : map_get f (named_flags r) = Some b -> leaf f "isNotEmpty" [] = b /\ leaf f "isEmpty" [] = negb b.
Proof.
  intros H. assert (G : stored f (fun _ => true) = b).
  { revert H. unfold named_flags. cbn [map_get].
    repeat (case_decide; [subst f; intros [= <-]; match goal with |- attribute_exists _ _ _ _ ?g _ = _ => rewrite (lv_present g _ eq_refl eq_refl eq_refl eq_refl) end;
      first [apply stored_flag_some | apply stored_text_some | exact (row_stored D_started eq_refl) | exact (row_stored D_completed eq_refl) | exact (row_stored D_triaged eq_refl)
            | destruct (r_delegate r) as [d|] eqn:E; [symmetry; by apply delegate_set | done]]|]). done. }
  rewrite <- G. revert H. unfold named_flags. cbn [map_get]. repeat (case_decide; [subst f; intros _; split; reflexivity|]). all: done.
Qed.

Lemma lv_suggested_flag f b : map_get f (suggested_flags r) = Some b -> leaf f "isNotEmpty" [] = b /\ leaf f "isEmpty" [] = negb b.
Proof.
  intros H. assert (G : stored f (fun _ => true) = b).
  { pose proof suggestions_set as Hs. unfold suggestions in Hs. repeat (apply Forall_cons in Hs as [? Hs]). revert H. unfold suggested_flags. cbn [map_get].
    repeat (case_decide; [subst f; intros [= <-]; rewrite stored_suggestions by reflexivity; unfold suggestions; cbn [existsb fst snd];
      repeat match goal with |- context [existsb ?p ?l] => rewrite (existsb_false p l) by (intros ?; cbn; by rewrite ?andb_false_r) end; cbn [orb]; rewrite ?orb_false_r; by apply truthy_some|]). done. }
  rewrite <- G. revert H. unfold suggested_flags. cbn [map_get]. repeat (case_decide; [subst f; intros _; split; reflexivity|]). all: done.
Qed.

Lemma released_some : nonempty (released_values parseDate stamp r) = nonempty (r_releasedDates r).
Proof.
  unfold released_values. destruct (cs_released _ _ _ _ _ _ _ _ _ _ _ ok) as [_ H]. destruct H as [|d l [Hd Hw] _]; [done|]. rewrite omap_cons. pose proof (present_stored (Some d)) as G. unfold present in G. change (Some d ?? "") with d in G. rewrite Hd in G.
  destruct (stored_time parseDate stamp (Some d)); [done|]. discriminate G. intros t [= <-] _. exact Hw.
Qed.

Lemma lv_release_flag f b : map_get f (release_flags r) = Some b -> leaf f "isNotEmpty" [] = b /\ leaf f "isEmpty" [] = negb b.
Proof. unfold release_flags. cbn [map_get]. repeat (case_decide; [subst f; intros [= <-]; rewrite <- ?released_some; split; reflexivity|]). done. Qed.

(** Columns of the issue. *)
Lemma existsb_member s l : existsb (fun v => s =s v) l = member s l.
Proof. done. Qed.

Lemma lv_column f v vs : map_get f (text_columns r) = Some v -> leaf f "in" vs = member v vs /\ leaf f "isEmpty" [] = negb (truthy v).
Proof. unfold text_columns. cbn [map_get]. repeat (case_decide; [subst f; intros [= <-]; unfold truthy; rewrite negb_involutive; split; [exact (orb_false_r _) | reflexivity]|]). done. Qed.

Lemma lv_status vs : leaf "status" "in" vs = member (r_stateId r) vs || member (r_stateType r) vs.
Proof. done. Qed.

Lemma lv_none : leaf "id" "in" [] = false.
Proof. done. Qed.

Lemma lv_team vs : vs <> [] -> Forall (fun v => blank v = false) vs -> leaf "teamId" "in" vs = member (r_teamId r ?? "") vs.
Proof.
  intros Hn Hv. assert (E : team_refused "team" "in" vs = false). { unfold team_refused. destruct vs as [|v vs]; [done|]. exact (existsb_none blank (v :: vs) Hv). }
  unfold leaf_meaning, compile_leaf. change (field_name "teamId") with "team". change (operator_name "in") with "in". rewrite E. exact (orb_false_r _).
Qed.

Lemma lv_priority vs : Forall (fun v => exists n, v = showZ n) vs -> leaf "priority" "in" vs = member (showZ (r_priority r)) vs.
Proof.
  intros Hv. transitivity (existsb (fun v => bool_decide (number v = Some (r_priority r))) vs || false); [reflexivity|]. rewrite orb_false_r. unfold member. apply existsb_ext_Forall. eapply Forall_impl; [exact Hv|]. intros v [n ->].
  rewrite (fm_number _ _ _ fm). apply eq_iff_eq_true. rewrite bool_decide_eq_true, String.eqb_eq. split; [by intros [= ->]|]. intros E. rewrite <- !(fm_number _ _ _ fm). by rewrite E.
Qed.
(** Attributes that hold a text. *)
Lemma attribute_values f vs : date_field f = false -> Forall plain vs -> mapM (attribute_value parseDate stamp dayText digest f) vs = Some vs.
Proof.
  intros Hd H. apply mapM_Some. induction H as [|v l Hv _ IH]; constructor; [|done]. unfold attribute_value. red in Hv. rewrite Hd, Hv. by destruct (negb (truthy v)).
Qed.

Lemma estimate_stored : map_get "estimate" (text_attributes r) = Some (option_map showZ (r_estimate r) ?? "").
Proof.
  cbn. unfold estimate_text. f_equal. destruct (r_estimate r) as [n|] eqn:E; [|done]. pose proof (cs_estimate _ _ _ _ _ _ _ _ _ _ _ ok n E). by rewrite (proj2 (Z.ltb_ge n 0)).
Qed.

Lemma showZ_truthy n : 0 <= n -> truthy (showZ n) = true.
Proof. intros H. apply truthy_spec. rewrite showZ_nonneg by done. apply show_not_empty. Qed.

Lemma text_attribute f v : map_get f (text_attributes r) = Some v -> exists o, map_get f (named_attributes parseDate stamp r) = Some o /\ v = o ?? "" /\ match o with Some x => truthy x = true | None => True end.
Proof.
  assert (Ht : forall o, (o ?? "") = (stored_text o ?? "") /\ match stored_text o with Some x => truthy x = true | None => True end).
  { intros [x|]; [|done]. unfold stored_text, present. change (Some x ?? "") with x. destruct (truthy x) eqn:E; [done|]. by apply truthy_false in E. }
  unfold text_attributes. cbn [map_get]. case_decide; [subst f|].
  { intros [= <-]. exists (option_map showZ (r_estimate r)). split; [done|]. pose proof estimate_stored as E. injection E as ->. split; [done|]. destruct (r_estimate r) as [n|] eqn:En; [|done]. by eapply showZ_truthy, (cs_estimate _ _ _ _ _ _ _ _ _ _ _ ok). }
  case_decide; [subst f; intros [= <-]; exists (r_delegate r); (split; [done|]); split; [done|]; destruct (r_delegate r) eqn:E; [by apply delegate_set | done]|].
  repeat (case_decide; [subst f; intros [= <-]; eexists; split; [reflexivity | apply Ht]|]). done.
Qed.

Lemma lv_attribute f v vs : map_get f (text_attributes r) = Some v -> Forall plain vs -> leaf f "in" vs = member v vs.
Proof.
  intros H Hv. destruct (text_attribute f v H) as (o & Ho & -> & Hx).
  assert (E : plain f /\ startsWith "relation:" f = false /\ startsWith "suggested" f = false /\ date_field f = false /\ leaf f "in" vs =
    match mapM (attribute_value parseDate stamp dayText digest f) vs with Some values => stored f (fun v => member v values) || (member "" values && negb (stored f (fun _ => true))) | None => false end).
  { revert H. unfold text_attributes. cbn [map_get]. repeat (case_decide; [subst f; intros _; repeat split; unfold leaf_meaning; match goal with |- context [compile_leaf _ _ _ _ _ _ ?f ?op ?vs] => change (compile_leaf parseDate stamp dayText number digest issue_id f op vs) with (compileIssueAttribute parseDate stamp dayText digest f op vs) end; unfold compileIssueAttribute; by destruct (mapM _ vs)|]). done. }
  destruct E as (E1 & E2 & E3 & E4 & ->). rewrite attribute_values, !stored_named, Ho by done. destruct o as [x|]; [|cbn; by rewrite andb_true_r]. change (Some x ?? "") with x. cbn. by rewrite andb_false_r, orb_false_r.
Qed.

Lemma lv_attribute_empty f v : map_get f (text_attributes r) = Some v -> leaf f "isEmpty" [] = negb (truthy v).
Proof.
  intros H. destruct (text_attribute f v H) as (o & Ho & -> & Hx). assert (E : plain f /\ startsWith "relation:" f = false /\ startsWith "suggested" f = false /\ leaf f "isEmpty" [] = negb (stored f (fun _ => true))).
  { revert H. unfold text_attributes. cbn [map_get]. repeat (case_decide; [subst f; intros _; repeat split; reflexivity|]). done. }
  destruct E as (E1 & E2 & E3 & ->). rewrite stored_named, Ho by done. destruct o as [x|]; [change (Some x ?? "") with x; by rewrite Hx | done].
Qed.

(** Labels, subscribers and releases. *)
Lemma lv_records f l vs : map_get f [("labels", r_labels r); ("subscribers", r_subscriberIds r)] = Some l -> leaf f "in" vs = member "" vs && negb (nonempty l) || any_of vs l.
Proof. cbn [map_get]. repeat (case_decide; [subst f; intros [= <-]; exact (orb_comm _ _)|]). done. Qed.

Lemma lv_all vs : vs <> [] -> (length vs <= 100)%nat -> leaf "labels" "includesAll" vs = forallb (fun v => if truthy v then member v (r_labels r) else negb (nonempty (r_labels r))) vs.
Proof.
  intros Hn Hl. unfold leaf_meaning. change (compile_leaf parseDate stamp dayText number digest issue_id "labels" "includesAll" vs) with (compile_records "labels" "includesall" vs).
  unfold compile_records. rewrite (proj2 (Nat.leb_le _ _) Hl). by destruct vs.
Qed.

Lemma lv_release f l x : map_get f [("release", r_releaseIds r); ("releasePipeline", r_releasePipelineIds r); ("releaseStage", r_releaseStages r); ("releaseStatus", r_releaseStatuses r)] = Some l ->
  x <> "" -> leaf f "in" [x] = member x l.
Proof.
  intros H Hx%truthy_spec. assert (E : leaf f "in" [x] = (nonempty (List.filter truthy [x]) && any_of (List.filter truthy [x]) l) || ((length (List.filter truthy [x]) <? 1)%nat && negb (nonempty (r_releaseIds r)))).
  { revert H. cbn [map_get]. repeat (case_decide; [subst f; intros [= <-]; reflexivity|]). done. }
  rewrite E. cbn [List.filter]. rewrite Hx. cbn. rewrite orb_false_r, existsb_swap. cbn. by rewrite orb_false_r.
Qed.

Lemma lv_session vs : vs <> [] -> (length vs <= 8)%nat -> Forall (fun v => v = "merged" \/ v ∈ AgentSessionStates) vs ->
  leaf "agentSessionState" "in" vs = present (r_agentSessionId r) && present (r_agentSessionState r) && member (r_agentSessionState r ?? "") vs.
Proof.
  intros Hn Hl Hv. assert (E : compileAgentSessionState "in" vs = Some (fun r => present (r_agentSessionId r) && present (r_agentSessionState r) && member (r_agentSessionState r ?? "") vs)).
  { unfold compileAgentSessionState. rewrite (proj2 (Nat.ltb_ge _ _) Hl). assert (Hf : forallb (fun v => (v =s "merged") || member v AgentSessionStates) vs = true).
    { apply forallb_forall. intros v Hin. rewrite List.Forall_forall in Hv. destruct (Hv v Hin) as [-> | H]; [done|]. apply member_spec in H. rewrite H. apply orb_true_r. }
    rewrite Hf. by destruct vs. }
  unfold leaf_meaning. change (compile_leaf parseDate stamp dayText number digest issue_id "agentSessionState" "in" vs) with (compileAgentSessionState "in" vs). by rewrite E.
Qed.
(** Times: what is stored sorts as the times do. *)
Definition order (o : Operator) (a b : string) : bool := if is_op before o then String.ltb a b else String.ltb b a.

Lemma order_stamps o s t : whole parseTime parseDate s -> whole parseTime parseDate t ->
  exists a b, option_map stamp (parseDate s) = Some (stamp a) /\ option_map stamp (parseDate t) = Some (stamp b) /\ era b /\ order o (stamp a) (stamp b) = compare_times o (parseTime s) (parseTime t).
Proof.
  intros (_ & x & -> & -> & Hx) (_ & y & -> & -> & Hy). exists (x * 1000000), (y * 1000000). repeat split; try done; try apply Hy. unfold order, compare_times. rewrite !(fm_order _ _ _ fm) by done.
  destruct (is_op before o); apply eq_iff_eq_true; rewrite !Z.ltb_lt; lia.
Qed.

Lemma compare_operator o : exists test, map_get (operator_name (op_text o)) operators = Some (Compare test) /\ forall a b, test a b = order o a b.
Proof. unfold op_text, order. destruct (is_op before o); eexists; by split. Qed.

Lemma column_time f o t s : member f ["createdAt"; "updatedAt"] = true -> column parseDate stamp issue_id r f = Some (stored_time parseDate stamp (Some s) ?? "") ->
  whole parseTime parseDate s -> whole parseTime parseDate t -> leaf f (op_text o) [t] = compare_times o (parseTime s) (parseTime t).
Proof.
  intros Hf Hc Hs Ht. destruct (order_stamps o s t Hs Ht) as (a & b & Ea & Eb & _ & <-). destruct Hs as [Hs _]. apply truthy_spec in Hs. destruct (compare_operator o) as (test & Hop & Htest).
  assert (E : leaf f (op_text o) [t] = match compile_column parseDate stamp number issue_id f (operator_name (op_text o)) [t] with Some c => c r | None => false end).
  { apply member_spec in Hf. rewrite !elem_of_cons, elem_of_nil in Hf. unfold op_text. destruct Hf as [-> | [-> | []]], (is_op before o); reflexivity. }
  rewrite E. unfold compile_column. replace ((f =s "createdAt") || (f =s "updatedAt")) with true by (unfold member in Hf; cbn in Hf; by rewrite orb_false_r in Hf).
  unfold times. cbn [mapM]. rewrite Eb. cbn [mbind option_bind mret option_ret]. rewrite Hop, Htest, Hc. unfold stored_time, present. change (Some s ?? "") with s. rewrite Hs, Ea. done.
Qed.

Lemma attribute_time f o t d : timed d = true -> map_get f (named_attributes parseDate stamp r) = Some (stored_time parseDate stamp (row_date r d)) -> member f ["startedAt"; "completedAt"; "autoClosedAt"; "triagedAt"; "statusChangedAt"] = true ->
  whole parseTime parseDate t -> leaf f (op_text o) [t] = present (row_date r d) && compare_times o (parseTime (row_date r d ?? "")) (parseTime t).
Proof.
  intros Hd Hn Hf Ht. destruct (compare_operator o) as (test & Hop & Htest).
  assert (E : plain f /\ startsWith "relation:" f = false /\ startsWith "suggested" f = false /\ date_field f = true /\ (f =s "dueDate") = false /\ (f =s "estimate") = false /\ member f unmodelled_fields = false
    /\ leaf f (op_text o) [t] = match compileIssueAttribute parseDate stamp dayText digest f (operator_name (op_text o)) [t] with Some c => c r | None => false end).
  { apply member_spec in Hf. rewrite !elem_of_cons, elem_of_nil in Hf. unfold op_text. destruct Hf as [-> | [-> | [-> | [-> | [-> | []]]]]]; repeat split; destruct (is_op before o); reflexivity. }
  destruct E as (E1 & E2 & E3 & E4 & E5 & E6 & E7 & ->). unfold compileIssueAttribute. rewrite E7. cbn [mapM]. unfold attribute_value. pose proof (proj1 Ht) as Hne. apply truthy_spec in Hne. rewrite Hne, E4, E5. cbn [negb].
  pose proof Ht as (_ & y & _ & Ey & Hy). rewrite Ey. cbn [option_map mbind option_bind mret option_ret]. rewrite Hop. destruct (fm_stamp _ _ _ fm _ Hy) as [Hst _]. apply truthy_spec in Hst. rewrite Hst, E6. cbn [andb negb]. rewrite stored_named, Hn by done.
  destruct (row_date r d) as [s|] eqn:Es; [|done]. change (Some s ?? "") with s. unfold stored_time, present. change (Some s ?? "") with s. destruct (truthy s) eqn:Ets; [|done]. cbn [andb].
  apply truthy_spec in Ets. pose proof (cs_times _ _ _ _ _ _ _ _ _ _ _ ok d s Es Hd Ets) as Hs. destruct (order_stamps o s t Hs Ht) as (a & b & Ea & Eb & _ & <-). rewrite Ea. rewrite Ey in Eb. injection Eb as ->. by rewrite Htest.
Qed.
Lemma lv_time k o t : timed k = true -> whole parseTime parseDate t ->
  leaf (DATE_FILTER_FIELDS k) (op_text o) [t] = present (row_date r k) && compare_times o (parseTime (row_date r k ?? "")) (parseTime t).
Proof.
  intros Hk Ht. destruct (cs_created _ _ _ _ _ _ _ _ _ _ _ ok) as [Hc Hu]. pose proof (cs_times _ _ _ _ _ _ _ _ _ _ _ ok k) as Hw.
  destruct k; try discriminate Hk; cbn [DATE_FILTER_FIELDS]; try (apply (attribute_time _ o t); done || reflexivity); cbn [row_date] in *.
  - rewrite Hc. destruct (r_createdAt r) as [s|] eqn:E; [|done]. change (Some s ?? "") with s. apply truthy_spec in Hc. apply column_time; [done | cbn; by rewrite E | by apply Hw | done].
  - rewrite Hu. destruct (r_updatedAt r) as [s|] eqn:E; [|done]. change (Some s ?? "") with s. apply truthy_spec in Hu. apply column_time; [done | cbn; by rewrite E | by apply Hw | done].
Qed.

Lemma lv_released o t : whole parseTime parseDate t -> leaf "releasedAt" (op_text o) [t] = existsb (fun d => truthy d && compare_times o (parseTime d) (parseTime t)) (r_releasedDates r).
Proof.
  intros Ht. destruct (compare_operator o) as (test & Hop & Htest).
  assert (E : leaf "releasedAt" (op_text o) [t] = match compileReleaseFilter parseDate stamp "releasedAt" (operator_name (op_text o)) [t] with Some c => c r | None => false end) by (unfold op_text; by destruct (is_op before o)).
  rewrite E. unfold compileReleaseFilter. rewrite Hop. pose proof Ht as (_ & y & _ & Ey & _). unfold times. cbn [mapM]. rewrite Ey. cbn [option_map mbind option_bind mret option_ret]. cbv zeta. cbn [String.eqb Ascii.eqb Bool.eqb].
  unfold released_values. destruct (cs_released _ _ _ _ _ _ _ _ _ _ _ ok) as [_ H]. induction H as [|d l [Hd Hw] _ IH]; [done|]. rewrite omap_cons. cbn [existsb].
  destruct (order_stamps o d t Hw Ht) as (a & b & Ea & Eb & _ & Ec). assert (Es : stored_time parseDate stamp (Some d) = Some (stamp a)) by (unfold stored_time, present; change (Some d ?? "") with d; by rewrite Hd).
  rewrite Es. cbn [existsb]. rewrite IH, Htest, Hd, <- Ec. rewrite Ey in Eb. by injection Eb as ->.
Qed.

Lemma lv_day op test t : map_get (operator_name op) operators = Some (Compare test) -> day_text parseDate dayText t -> leaf "dueDate" op [t] = present (r_dueDate r) && test (due_day r) t.
Proof.
  intros Hop (Hne%truthy_spec & n & En & Et). unfold leaf_meaning, compile_leaf. change (truthy "dueDate") with true. change (field_name "dueDate") with "dueDate". cbv iota.
  change (team_refused "dueDate" (operator_name op) [t]) with false. cbv iota. change ("dueDate" =s "agentSessionState") with false. change (isReleaseFilterField "dueDate") with false. change (isIssueAttributeField "dueDate") with true. cbv iota.
  unfold compileIssueAttribute. change (member "dueDate" unmodelled_fields) with false. cbv iota. cbn [mapM]. unfold attribute_value. rewrite Hne, En. change (date_field "dueDate") with true. cbn [negb option_map]. change ("dueDate" =s "dueDate") with true. rewrite Et.
  cbn [mbind option_bind mret option_ret]. rewrite Hop, Hne. change ("dueDate" =s "estimate") with false. cbn [andb negb]. rewrite stored_named by done. change (map_get "dueDate" (named_attributes parseDate stamp r)) with (Some (stored_text (r_dueDate r))).
  unfold stored_text, due_day. destruct (present (r_dueDate r)) eqn:Ep; [|done]. destruct (r_dueDate r) as [d|] eqn:Ed; [|done]. change (Some d ?? "") with d. by rewrite (cs_due _ _ _ _ _ _ _ _ _ _ _ ok d Ed).
Qed.

Lemma lv_due t : day_text parseDate dayText t ->
  leaf "dueDate" "before" [t] = present (r_dueDate r) && String.ltb (due_day r) t /\ leaf "dueDate" "after" [t] = present (r_dueDate r) && String.ltb t (due_day r)
  /\ leaf "dueDate" "lte" [t] = present (r_dueDate r) && negb (String.ltb t (due_day r)) /\ leaf "dueDate" "gte" [t] = present (r_dueDate r) && negb (String.ltb (due_day r) t).
Proof. intros Ht. split; [exact (lv_day "before" _ t eq_refl Ht) | split; [exact (lv_day "after" _ t eq_refl Ht) | split; [exact (lv_day "lte" _ t eq_refl Ht) | exact (lv_day "gte" _ t eq_refl Ht)]]]. Qed.

Lemma lv_relation t : t <> "" -> plain ("relation:" +:+ t) -> leaf ("relation:" +:+ t) "isNotEmpty" [] = member t (r_relationTypes r).
Proof. intros Ht Hp. rewrite <- stored_relation by done. by destruct t. Qed.

Lemma lv_suggested k i : i <> "" -> plain (kind_field k +:+ i) -> leaf (kind_field k +:+ i) "isNotEmpty" [] = member i (targets r k).
Proof. intros Hi Hp. rewrite <- stored_target by done. destruct i; [done|]. by destruct k. Qed.
End Leaves.

(** ** Queries of columns *)

Section Server.
Context (parseTime : string -> option Z) (toISOString : Z -> string) (localDay : Z -> string) (dayStart : string -> Z) (startOfDay : Z -> Z).
Context (parseDate : string -> option Z) (stamp dayText : Z -> string) (number : string -> option Z) (digest : string -> string) (issue_id : Row -> string).
Context (c : Context) (r : Row) (fm : Formats stamp number digest) (ok : Consistent parseTime toISOString localDay dayStart startOfDay parseDate stamp dayText digest c r).
Local Notation leaf := (leaf_meaning parseDate stamp dayText number digest issue_id).
Local Notation mean := (meaning (leaf r)).
Local Notation plain := (plain digest).
Local Notation covered := (covered parseTime toISOString localDay dayStart parseDate dayText digest).

Lemma mean_leaf f p v : mean (Leaf f p v) = leaf r f p v.
Proof. done. Qed.
Lemma mean_test f p : mean (Test f p) = leaf r f p [].
Proof. done. Qed.
Lemma mean_none : mean none = false.
Proof. exact lv_none. Qed.

Lemma mean_any l : l <> [] -> mean (any l) = existsb mean l.
Proof. destruct l as [|x [|y l]]; [done | intros _; cbn; by rewrite orb_false_r|]. intros _. cbn [any]. change (Or (x :: y :: l)) with (group false (x :: y :: l)). by rewrite meaning_group. Qed.

Lemma mean_not n : mean (Not n) = negb (mean n).
Proof. apply meaning_not. Qed.

Lemma mean_and l : mean (And l) = forallb mean l.
Proof. exact (meaning_group (leaf r) true l ltac:(done)). Qed.

Lemma mean_nullable f v vs : leaf r f "in" (List.filter truthy vs) = member v (List.filter truthy vs) -> leaf r f "isEmpty" [] = negb (truthy v) -> mean (nullable f vs) = member v vs.
Proof.
  intros Hin Hempty. unfold nullable. set (nodes := _ ++ _). assert (E : existsb mean nodes = member v vs).
  { unfold nodes. rewrite existsb_app. assert (E1 : existsb mean (if nonempty (List.filter truthy vs) then [Leaf f "in" (List.filter truthy vs)] else []) = member v vs && truthy v).
    { rewrite <- member_filter, <- Hin. destruct (List.filter truthy vs) as [|x l]; [by rewrite Hin|]. cbn [nonempty existsb]. by rewrite orb_false_r, mean_leaf. }
    assert (E2 : existsb mean (if member "" vs then [Test f "isEmpty"] else []) = member "" vs && negb (truthy v)).
    { destruct (member "" vs); [|done]. cbn [existsb]. by rewrite orb_false_r, mean_test, Hempty. }
    rewrite E1, E2. destruct (truthy v) eqn:Ev; [by rewrite andb_true_r, andb_false_r, orb_false_r|]. apply truthy_false in Ev as ->. by rewrite andb_false_r, andb_true_r. }
  destruct nodes as [|x l] eqn:En; [rewrite mean_none; cbn in E; done|]. rewrite mean_any by done. exact E.
Qed.

Lemma nullable_column f v vs : map_get f (text_columns r) = Some v -> mean (nullable f vs) = member v vs.
Proof. intros H. apply mean_nullable; [exact (proj1 (lv_column f v _ H)) | exact (proj2 (lv_column f v [] H))]. Qed.

Lemma nullable_attribute f v vs : map_get f (text_attributes r) = Some v -> Forall plain vs -> mean (nullable f vs) = member v vs.
Proof. intros H Hp. apply mean_nullable; [|exact (lv_attribute_empty ok f v H)]. apply (lv_attribute ok f v _ H). apply List.Forall_forall. intros x [Hx _]%filter_In. rewrite List.Forall_forall in Hp. auto. Qed.

(** A query of parts that may be missing. *)
Lemma mean_or_none l : mean (any (match l with [] => [none] | _ => l end)) = existsb mean l.
Proof. destruct l as [|x l]; [exact mean_none | by apply mean_any]. Qed.

Lemma mean_flag f b : map_get f (named_flags r) = Some b \/ map_get f (suggested_flags r) = Some b \/ map_get f (release_flags r) = Some b -> mean (Test f "isNotEmpty") = b /\ mean (Test f "isEmpty") = negb b.
Proof. intros [H | [H | H]]; [exact (lv_named ok f b H) | exact (lv_suggested_flag ok f b H) | exact (lv_release_flag ok f b H)]. Qed.

Local Notation named := (or_introl eq_refl).
Local Notation suggested := (or_intror (or_introl eq_refl)).
Local Notation released := (or_intror (or_intror eq_refl)).
Local Notation client k vs cmp := (matches_values parseTime toISOString localDay dayStart startOfDay r k vs cmp (ctx_now c) (index_of_context c)).
Local Notation query k vs cmp := (positiveNode toISOString localDay dayStart k vs c cmp).

Lemma any_empty vs s : vs <> [] -> ("" ∈ vs -> Forall (fun v => v = "") vs) -> "" ∉ s ->
  (member "" vs && negb (nonempty s) || any_of vs s) = if member "" vs then negb (nonempty s) else any_of vs s.
Proof.
  intros Hn Hm Hs. destruct (member "" vs) eqn:E; [|done]. apply member_spec in E. specialize (Hm E). cbn [andb]. assert (Hf : any_of vs s = false); [|by rewrite Hf, orb_false_r].
  apply not_true_iff_false. unfold any_of. rewrite existsb_exists. intros (x & Hx & Hv%member_spec). rewrite Forall_forall in Hm. apply Hm in Hv as ->. by apply Hs, list_elem_of_In.
Qed.

Lemma status_parity vs cmp : mean (query K_status vs cmp) = client K_status vs cmp.
Proof.
  cbn [positiveNode matches_values]. rewrite mean_leaf, lv_status. unfold index_of_context. destruct (ctx_teams c) as [teams|]; [|by rewrite orb_false_r]. destruct (nonempty (ctx_states c)); [|by rewrite orb_false_r].
  rewrite !member_unique, !member_flat_map. set (f := memberIds (ctx_states c) teams (ctx_settings c)). assert (Hself : forall i, i ∈ f i) by (intros i; apply memberIds_self, ok).
  apply eq_iff_eq_true. rewrite !orb_true_iff, !existsb_exists. setoid_rewrite member_spec. split.
  - intros [H | (v & Hv & Ht)]; [by right|]. left. right. assert (E : v = r_stateType r); [|rewrite E in Hv; by apply list_elem_of_In].
    unfold f, memberIds in Ht. destruct (known (ctx_states c) v) as [s|] eqn:Ek; [|by apply list_elem_of_singleton in Ht]. exfalso. apply stateIds_spec in Ht as (s' & Hs' & E & _). apply (cs_type _ _ _ _ _ _ _ _ _ _ _ ok). rewrite <- E. by apply list_elem_of_In, in_map.
  - intros [[H|H]|H]; [left; exists (r_stateId r) | right; exists (r_stateType r) | by left]; (split; [by apply list_elem_of_In | apply Hself]).
Qed.

Lemma assignee_parity vs cmp : Forall plain vs -> mean (query K_assignee vs cmp) = client K_assignee vs cmp.
Proof.
  intros Hpl. cbn [positiveNode matches_values]. fold (agents c). set (ags := agents c). set (delegates := List.filter (fun v => member v ags) vs). set (people := List.filter (fun v => negb (member v ags)) vs).
  assert (Hd : member (r_delegate r ?? "") delegates = match r_delegate r with Some d => member d vs | None => false end).
  { unfold delegates. rewrite member_filter. destruct (r_delegate r) as [d|] eqn:E.
    - pose proof (cs_delegate _ _ _ _ _ _ _ _ _ _ _ ok d E) as H. apply member_spec in H. fold ags in H. change (Some d ?? "") with d. by rewrite H, andb_true_r.
    - change (None ?? "") with "". destruct (member "" ags) eqn:Ea; [|by rewrite andb_false_r]. apply member_spec in Ea. by destruct (cs_agents _ _ _ _ _ _ _ _ _ _ _ ok). }
  assert (Ha : member (r_assignee r ?? "") ags = false).
  { apply not_true_iff_false. rewrite member_spec. destruct (r_assignee r) as [a|] eqn:E; [exact (cs_assignee _ _ _ _ _ _ _ _ _ _ _ ok a E) | exact (cs_agents _ _ _ _ _ _ _ _ _ _ _ ok)]. }
  assert (Hp : member (r_assignee r ?? "") people = member (r_assignee r ?? "") vs) by (unfold people; by rewrite member_filter, Ha, andb_true_r).
  rewrite <- Hd. destruct (nonempty delegates) eqn:En; cbn [negb].
  - assert (El : mean (Leaf "delegateId" "in" delegates) = member (r_delegate r ?? "") delegates).
    { rewrite mean_leaf. apply (lv_attribute ok "delegateId" _ _ eq_refl). unfold delegates. apply List.Forall_forall. intros x [Hx _]%filter_In. rewrite List.Forall_forall in Hpl. auto. } destruct (nonempty people) eqn:Ep.
    + rewrite mean_any by done. cbn [existsb]. rewrite (nullable_column "assignee" _ _ eq_refl), El, Hp, orb_false_r. done.
    + rewrite El. rewrite <- Hp. destruct people; [done | discriminate Ep].
  - rewrite (nullable_column "assignee" _ _ eq_refl). destruct delegates; [by rewrite orb_false_r | discriminate En].
Qed.

(** The states a chip asks for are known, each once. *)
Lemma session_known vs : Forall (fun v => v = "merged" \/ v ∈ AgentSessionStates) (unique (flat_map agentSessionStatesFor vs)) /\ NoDup (unique (flat_map agentSessionStatesFor vs)).
Proof.
  split; [|apply unique_spec]. apply Forall_forall. intros v Hv. apply unique_spec, list_elem_of_In, in_flat_map in Hv as (x & _ & Hv). revert Hv. unfold agentSessionStatesFor. destruct (agentSessionFilterValue x) as [k|]; [|done].
  unfold AGENT_SESSION_STATE_FILTERS. cbn [map_get]. repeat (case_decide; [intros Hv; repeat (destruct Hv as [<- | Hv]; [first [by left | right; by apply (bool_decide_unpack _); vm_compute]|]); done|]). done.
Qed.

Lemma session_length l : Forall (fun v => v = "merged" \/ v ∈ AgentSessionStates) l -> NoDup l -> (length l <= 8)%nat.
Proof.
  intros Hl Hn. change 8%nat with (length ("merged" :: AgentSessionStates)). apply submseteq_length, NoDup_submseteq; [done|]. rewrite Forall_forall in Hl. intros v Hv. apply elem_of_cons. auto.
Qed.

Lemma session_parity vs cmp : covered c r K_agentSession vs -> mean (query K_agentSession vs cmp) = client K_agentSession vs cmp.
Proof.
  intros (_ & Hv & Hm). cbn [positiveNode matches_values]. unfold matchesAgentSessionFilter. fold (present (r_agentSessionId r)). set (session := present (r_agentSessionId r)).
  assert (Hs : forall l, existsb (fun v => if startsWith "state:" v then session && truthy (r_agentSessionState r ?? "") && member (r_agentSessionState r ?? "") (agentSessionStatesFor v) else false) l
                         = session && truthy (r_agentSessionState r ?? "") && member (r_agentSessionState r ?? "") (flat_map (fun v => if startsWith "state:" v then agentSessionStatesFor v else []) l)).
  { induction l as [|v l IH]; [by rewrite andb_false_r|]. cbn [existsb flat_map]. rewrite IH. unfold member. rewrite existsb_app. destruct (startsWith "state:" v); cbn; destruct (session && _); cbn; by rewrite ?orb_false_r. }
  assert (Hst : forall v, startsWith "state:" v = true -> v <> "*" /\ v <> "") by (intros v E; split; intros ->; done).
  destruct (member "*" vs) eqn:E.
  - rewrite (proj1 (mean_flag "agentSessionId" session named)). cbn [andb] in Hm. apply eq_iff_eq_true. rewrite existsb_exists. apply member_spec in E. split; [intros ->; exists "*"; split; [by apply list_elem_of_In | done]|].
    intros (v & Hin & H). rewrite Forall_forall in Hv. destruct (Hv v (proj2 (list_elem_of_In _ _) Hin)) as [->|[->|Hp]]; [done | |].
    + exfalso. apply not_true_iff_false in Hm. apply Hm, andb_true_iff. split; apply member_spec; [done | by apply list_elem_of_In].
    + destruct (Hst v Hp) as [N1%String.eqb_neq N2%String.eqb_neq]. rewrite N1, N2, Hp in H. by apply andb_true_iff in H as [[? _]%andb_true_iff _].
  - rewrite mean_or_none, existsb_app. transitivity ((member "" vs && negb session) || existsb (fun v => if startsWith "state:" v then session && truthy (r_agentSessionState r ?? "") && member (r_agentSessionState r ?? "") (agentSessionStatesFor v) else false) vs).
    + f_equal; [destruct (member "" vs); [|done]; cbn [existsb]; by rewrite (proj2 (mean_flag "agentSessionId" session named)), orb_false_r|]. rewrite Hs.
      assert (Hf : flat_map (fun v => if startsWith "state:" v then agentSessionStatesFor v else []) vs = flat_map agentSessionStatesFor vs).
      { apply flat_map_ext_Forall. eapply Forall_impl; [exact Hv|]. cbn. intros v [-> | [-> | ->]]; done. }
      rewrite Hf, <- (member_unique (r_agentSessionState r ?? "")). pose proof (session_known vs) as [Hse Hnd]. destruct (unique (flat_map agentSessionStatesFor vs)) as [|x l]; [by rewrite andb_false_r|]. cbn [nonempty existsb]. rewrite mean_leaf, orb_false_r. apply lv_session; [done | exact (session_length (x :: l) Hse Hnd) | exact Hse].
    + clear Hs Hm. assert (G : forall l, Forall (fun v => v = "*" \/ v = "" \/ startsWith "state:" v = true) l -> member "*" l = false -> (member "" l && negb session || existsb (fun v => if startsWith "state:" v then session && truthy (r_agentSessionState r ?? "") && member (r_agentSessionState r ?? "") (agentSessionStatesFor v) else false) l)
        = existsb (fun v => if v =s "*" then session else if v =s "" then negb session else if startsWith "state:" v then session && truthy (r_agentSessionState r ?? "") && member (r_agentSessionState r ?? "") (agentSessionStatesFor v) else bool_decide (r_agentSessionId r = Some v)) l); [|by apply G].
      clear -Hst. induction l as [|v l IH]; intros Hl He; [done|]. apply Forall_cons in Hl as [Hv Hl]. unfold member in He. cbn [existsb] in He. apply orb_false_iff in He as [He1 He2]. cbn [existsb]. rewrite <- (IH Hl He2). clear IH. unfold member. cbn [existsb].
      destruct Hv as [->|[->|Hp]]; [done | |].
      * cbn. destruct session; cbn; by rewrite ?andb_false_r, ?andb_true_r, ?orb_true_r.
      * destruct (Hst v Hp) as [N1 N2]. apply String.eqb_neq in N1 as N1'. apply String.eqb_neq in N2 as N2'. rewrite N1', N2', Hp. rewrite (proj2 (String.eqb_neq "" v)) by congruence. cbn [orb]. rewrite !orb_assoc. f_equal. apply orb_comm.
Qed.

Lemma existsb_omap {A} (p : QNode -> bool) (f : A -> option QNode) l : existsb p (omap f l) = existsb (fun x => match f x with Some n => p n | None => false end) l.
Proof. induction l as [|x l IH]; [done|]. rewrite omap_cons. cbn [existsb]. destruct (f x); cbn; by rewrite IH. Qed.


Lemma triage_parity vs cmp : covered c r K_triageIntelligence vs -> mean (query K_triageIntelligence vs cmp) = client K_triageIntelligence vs cmp.
Proof.
  intros (_ & Hv & _).
  cbn [positiveNode matches_values]. rewrite mean_or_none, existsb_omap. apply existsb_ext_Forall. eapply Forall_impl; [exact Hv|]. cbn [plain_value]. clear vs Hv. intros v Hv. unfold triageIntelligenceQueryNode, matchesTriageIntelligence.
  destruct (String.eqb_spec v "related") as [->|]; [exact (proj1 (mean_flag "suggested:related" _ suggested))|]. destruct (String.eqb_spec v "duplicate") as [->|]; [exact (proj1 (mean_flag "suggested:duplicate" _ suggested))|]. cbn [orb].
  destruct (splitValue v) as [[k i]|]; [|done]. destruct (truthy i) eqn:Ei; cbn [negb].
  - destruct (String.eqb_spec i "*") as [->|]; [|exact (lv_suggested ok k i (proj1 (truthy_spec i) Ei) Hv)].
    destruct k; [exact (proj1 (mean_flag "suggested:assignee" _ suggested)) | exact (proj1 (mean_flag "suggested:project" _ suggested)) | exact (proj1 (mean_flag "suggested:label" _ suggested)) | exact (proj1 (mean_flag "suggested:team" _ suggested))].
  - apply truthy_false in Ei as ->. cbn. symmetry. apply not_true_iff_false. rewrite member_spec. apply (targets_set ok).
Qed.

Lemma relations_parity vs cmp : covered c r K_relations vs -> mean (query K_relations vs cmp) = client K_relations vs cmp.
Proof.
  intros (Hn & Hv & _). cbn [positiveNode matches_values]. assert (Hr : forall l, Forall (fun t => t <> "" /\ plain ("relation:" +:+ t)) l -> existsb mean (map (fun t => Test ("relation:" +:+ t) "isNotEmpty") l) = any_of l (r_relationTypes r)).
  { intros l Hl. rewrite existsb_map, existsb_swap. unfold any_of. apply existsb_ext_Forall. eapply Forall_impl; [exact Hl|]. intros t [Ht Hp]. exact (lv_relation ok t Ht Hp). }
  destruct (member "" vs) eqn:E.
  - rewrite mean_not, mean_any by done. rewrite Hr by (repeat constructor; done). f_equal. pose proof (cs_relations _ _ _ _ _ _ _ _ _ _ _ ok) as Ht. destruct (r_relationTypes r) as [|t l]; [done|]. apply Forall_cons in Ht as [Ht _]. cbn [any_of existsb nonempty]. apply member_spec in Ht. by rewrite Ht.
  - rewrite mean_any by (by destruct vs). apply Hr. apply Forall_forall. intros t Ht. rewrite Forall_forall in Hv. split; [|by apply Hv]. intros ->. apply not_true_iff_false in E. apply E. by apply member_spec.
Qed.

Lemma suggested_parity vs cmp : covered c r K_suggestedLabel vs -> mean (query K_suggestedLabel vs cmp) = client K_suggestedLabel vs cmp.
Proof.
  intros (Hn & Hv & Hm). cbn [positiveNode matches_values]. rewrite mean_or_none, existsb_app, existsb_map. pose proof (targets_set ok T_label) as Hs. cbn [targets] in Hs.
  assert (Hf : existsb (fun i => mean (Test ("suggestedLabel:" +:+ i) "isNotEmpty")) (List.filter truthy vs) = any_of vs (r_suggestedLabels r)).
  { rewrite (existsb_ext_Forall _ (fun i => member i (r_suggestedLabels r))).
    2: { apply List.Forall_forall. intros i [Hi Ht]%filter_In. rewrite List.Forall_forall in Hv. exact (lv_suggested ok T_label i (proj1 (truthy_spec i) Ht) (Hv i Hi)). }
    rewrite existsb_swap. unfold any_of. clear -Hs. induction vs as [|v l IH]; [done|]. cbn [List.filter]. destruct (truthy v) eqn:E; cbn [existsb]; rewrite IH; [done|].
    apply truthy_false in E as ->. replace (member "" (r_suggestedLabels r)) with false; [done|]. symmetry. apply not_true_iff_false. by rewrite member_spec. }
  rewrite Hf, <- any_empty, orb_comm by done. f_equal. destruct (member "" vs); [|done]. cbn [existsb andb]. by rewrite (proj2 (mean_flag "suggested:label" _ suggested)), orb_false_r.
Qed.

(** The projects whose record has a property are the project of the row when it has it. *)
Lemma project_leaf (p : Project -> bool) : mean (Leaf "project" "in" (map pr_id (List.filter p (projects c)))) = match r_project r with Some i => existsb (fun q => (pr_id q =s i) && p q) (projects c) | None => false end.
Proof.
  rewrite mean_leaf, (proj1 (lv_column "project" (r_project r ?? "") _ eq_refl)). destruct (cs_projects _ _ _ _ _ _ _ _ _ _ _ ok) as [_ Hp]. apply eq_iff_eq_true. rewrite member_spec, list_elem_of_In, in_map_iff. setoid_rewrite filter_In. split.
  - intros (q & E & Hq & Hpq). rewrite List.Forall_forall in Hp. destruct (Hp q Hq) as [Ht _]. destruct (r_project r) as [i|]; [|change (None ?? "") with "" in E; rewrite E in Ht; done].
    apply existsb_exists. exists q. split; [done|]. rewrite Hpq, andb_true_r. by apply String.eqb_eq.
  - destruct (r_project r) as [i|]; [|done]. intros (q & Hq & [E%String.eqb_eq Hpq]%andb_true_iff)%existsb_exists. by exists q.
Qed.

(** The record of the row's project is the one that is found. *)
Lemma project_of_row (p : Project -> bool) q : In q (projects c) -> existsb (fun x => (pr_id x =s pr_id q) && p x) (projects c) = p q.
Proof.
  intros Hq. destruct (cs_projects _ _ _ _ _ _ _ _ _ _ _ ok) as [Hn _]. apply eq_iff_eq_true. rewrite existsb_exists. split; [|intros H; exists q; by rewrite String.eqb_refl].
  intros (x & Hx & [E%String.eqb_eq H]%andb_true_iff). replace q with x; [done|]. clear -Hn Hx Hq E. induction (projects c) as [|y l IH]; [done|]. cbn [map] in Hn. apply NoDup_cons in Hn as [Hy Hn].
  destruct Hx as [->|Hx], Hq as [->|Hq]; [done | destruct Hy; rewrite E; by apply list_elem_of_In, in_map | destruct Hy; rewrite <- E; by apply list_elem_of_In, in_map | by apply IH].
Qed.

Lemma project_optional (p : Project -> bool) : existsb mean (if nonempty (map pr_id (List.filter p (projects c))) then [Leaf "project" "in" (map pr_id (List.filter p (projects c)))] else [])
  = match r_project r with Some i => existsb (fun q => (pr_id q =s i) && p q) (projects c) | None => false end.
Proof. rewrite <- project_leaf. destruct (map pr_id _) as [|x l] eqn:E; cbn [nonempty existsb]; [|by rewrite orb_false_r]. by rewrite mean_leaf, (proj1 (lv_column "project" (r_project r ?? "") _ eq_refl)). Qed.

Lemma initiative_parity vs cmp : covered c r K_initiative vs -> mean (query K_initiative vs cmp) = client K_initiative vs cmp.
Proof.
  intros (Hn & _ & Hm). cbn [positiveNode matches_values]. rewrite mean_or_none, existsb_app.
  set (has := fun p => existsb (fun i => member i vs) (pr_initiatives p)). set (lacks := fun p => negb (nonempty (pr_initiatives p))).
  rewrite project_optional. pose proof (cs_project _ _ _ _ _ _ _ _ _ _ _ ok) as Hp. assert (Hempty : "" ∉ r_initiativeIds r).
  { destruct (r_project r) as [i|]; [|destruct Hp as (-> & _); by intros H%elem_of_nil]. destruct Hp as (p & Hin & _ & -> & _). destruct (cs_projects _ _ _ _ _ _ _ _ _ _ _ ok) as [_ Hps]. rewrite List.Forall_forall in Hps. by apply Hps. }
  rewrite <- any_empty by done. rewrite orb_comm. f_equal.
  - destruct (member "" vs); [|done]. cbn [existsb andb]. rewrite project_optional, mean_test, (proj2 (lv_column "project" (r_project r ?? "") [] eq_refl)). destruct (r_project r) as [i|].
    + destruct Hp as (p & Hin & <- & -> & _). rewrite project_of_row by done. destruct (cs_projects _ _ _ _ _ _ _ _ _ _ _ ok) as [_ Hps]. rewrite List.Forall_forall in Hps. change (Some (pr_id p) ?? "") with (pr_id p). by rewrite (proj1 (Hps p Hin)).
    + destruct Hp as (-> & _). done.
  - destruct (r_project r) as [i|]; [|by destruct Hp as (-> & _)]. destruct Hp as (p & Hin & <- & -> & _). rewrite project_of_row by done. done.
Qed.

Local Notation now := (ctx_now c).
Local Notation date_matches v cmp := (matchesDateFilter parseTime toISOString localDay dayStart startOfDay r v cmp now).

Lemma compare_client k p o : kind p = k -> timed k = true -> threshold_read parseTime toISOString localDay dayStart parseDate dayText c p ->
  leaf r (DATE_FILTER_FIELDS k) (op_text o) [dateFilterThreshold toISOString localDay dayStart p now] = compareDateFilter parseTime toISOString localDay dayStart (row_date r k) p o now.
Proof.
  intros Hk Ht Hr. unfold threshold_read in Hr. rewrite Hk in Hr. rewrite (lv_time fm ok) by (done || by destruct k). unfold compareDateFilter, present. rewrite Hk. destruct (truthy (row_date r k ?? "")); [|done]. by destruct k.
Qed.

Lemma compare_due p o : kind p = D_due -> threshold_read parseTime toISOString localDay dayStart parseDate dayText c p ->
  leaf r "dueDate" (op_text o) [dateFilterThreshold toISOString localDay dayStart p now] = compareDateFilter parseTime toISOString localDay dayStart (r_dueDate r) p o now.
Proof.
  intros Hk Hr. unfold threshold_read in Hr. rewrite Hk in Hr. unfold compareDateFilter. rewrite Hk. fold (present (r_dueDate r)) (due_day r). destruct (lv_due (number := number) (issue_id := issue_id) ok _ Hr) as (H1 & H2 & _). unfold op_text.
  destruct (is_op before o); [rewrite H1 | rewrite H2]; by destruct (present (r_dueDate r)).
Qed.

Lemma compare_released p o : kind p = D_released -> threshold_read parseTime toISOString localDay dayStart parseDate dayText c p ->
  leaf r "releasedAt" (op_text o) [dateFilterThreshold toISOString localDay dayStart p now] = existsb (fun d => compareDateFilter parseTime toISOString localDay dayStart (Some d) p o now) (r_releasedDates r).
Proof.
  intros Hk Hr. unfold threshold_read in Hr. rewrite Hk in Hr. rewrite (lv_released fm ok) by done. apply existsb_same. intros d. unfold compareDateFilter. rewrite Hk. change (Some d ?? "") with d. by destruct (truthy d).
Qed.

Lemma date_parsed v p cmp : parseDateFilterValue v = Some p -> threshold_read parseTime toISOString localDay dayStart parseDate dayText c p -> mean (date_node toISOString localDay dayStart now cmp v) = date_matches v cmp.
Proof.
  intros E Hr. unfold date_node, matchesDateFilter. rewrite E, mean_leaf. destruct (kind p) eqn:Ek; first [exact (compare_due p _ Ek Hr) | exact (compare_released p _ Ek Hr) | exact (compare_client _ p _ Ek eq_refl Hr)].
Qed.

Lemma due_test : present (r_dueDate r) = true ->
  leaf r "dueDate" "before" [localDay (now + 0 * DAY)] = (dayStart (due_day r) <? startOfDay now)
  /\ leaf r "dueDate" "gte" [localDay (now + 0 * DAY)] && leaf r "dueDate" "lte" [localDay (now + 0 * DAY)] = (dayStart (due_day r) =? startOfDay now).
Proof.
  intros Hp. replace (now + 0 * DAY) with now by lia. destruct (cs_today _ _ _ _ _ _ _ _ _ _ _ ok) as [Et Hday]. destruct (lv_due (number := number) (issue_id := issue_id) ok (localDay now) Hday) as (H1 & _ & H3 & H4). destruct (cs_days _ _ _ _ _ _ _ _ _ _ _ ok) as [D1 D2]. rewrite H1, H3, H4, Hp, D1, D2, Et. cbn [andb]. split; [done|].
  destruct (Z.ltb_spec (dayStart (due_day r)) (dayStart (localDay now))), (Z.ltb_spec (dayStart (localDay now)) (dayStart (due_day r))), (Z.eqb_spec (dayStart (due_day r)) (dayStart (localDay now))); cbn; lia.
Qed.

(** Values that name a test. *)
Lemma date_named v cmp : parseDateFilterValue v = None -> startsWith "created-past-" v = false -> startsWith "updated-past-" v = false -> v <> "next-week" ->
  mean (date_node toISOString localDay dayStart now cmp v) = date_matches v cmp.
Proof.
  intros E Hc Hu Hw. unfold date_node, matchesDateFilter. rewrite E, Hc, Hu.
  assert (Mc : member v ["created-past-day"; "created-past-week"; "created-past-month"] = false) by (apply not_true_iff_false; rewrite member_spec, !elem_of_cons, elem_of_nil; intros [-> | [-> | [-> | []]]]; discriminate Hc).
  assert (Mu : member v ["updated-past-day"; "updated-past-week"; "updated-past-month"] = false) by (apply not_true_iff_false; rewrite member_spec, !elem_of_cons, elem_of_nil; intros [-> | [-> | [-> | []]]]; discriminate Hu).
  rewrite Mc, Mu.
  destruct (v =s "started-any"); [exact (proj1 (mean_flag "startedAt" _ named))|]. destruct (v =s "completed-any"); [exact (proj1 (mean_flag "completedAt" _ named))|].
  destruct (v =s "no-completed-date"); [exact (proj2 (mean_flag "completedAt" _ named))|]. destruct (v =s "no-released-date"); [exact (proj2 (mean_flag "releasedAt" _ released))|].
  destruct (v =s "auto-closed-any"); [exact (proj1 (mean_flag "autoClosed" _ named))|]. destruct (v =s "triaged-any"); [exact (proj1 (mean_flag "triagedAt" _ named))|].
  destruct (v =s "status-over-week").
  { rewrite mean_leaf. change (leaf r "statusChangedAt" "before" [toISOString (now - 7 * DAY)]) with (leaf r (DATE_FILTER_FIELDS D_status) (op_text before) [toISOString (now - 7 * DAY)]). destruct (cs_iso _ _ _ _ _ _ _ _ _ _ _ ok) as [Hi Hw']. rewrite (lv_time fm ok) by done. cbn [row_date]. f_equal.
    rewrite Hi. unfold compare_times. cbn. by destruct (parseTime _). }
  destruct (v =s "has-due-date"); [exact (proj1 (mean_flag "dueDate" _ named))|]. destruct (v =s "no-due-date"); [exact (proj2 (mean_flag "dueDate" _ named))|]. fold (due_day r).
  destruct (present (r_dueDate r)) eqn:Hp; cbn [negb].
  - destruct (due_test Hp) as [T1 T2]. destruct (v =s "overdue"); [exact T1|]. destruct (v =s "today"); [rewrite <- T2, mean_and; cbn [forallb]; by rewrite !mean_leaf, andb_true_r|]. rewrite (proj2 (String.eqb_neq _ _) Hw). apply mean_none.
  - destruct (lv_due (number := number) (issue_id := issue_id) ok (localDay now) (proj2 (cs_today _ _ _ _ _ _ _ _ _ _ _ ok))) as (T1 & _ & _ & T2). assert (Ez : now + 0 * DAY = now) by lia. rewrite Ez. rewrite Hp in T1, T2. destruct (v =s "overdue"); [exact T1|]. destruct (v =s "today"); [rewrite mean_and; cbn [forallb]; rewrite !mean_leaf; by rewrite T2|]. rewrite (proj2 (String.eqb_neq _ _) Hw). apply mean_none.
Qed.

Lemma dates_parity vs cmp : covered c r K_dates vs -> mean (query K_dates vs cmp) = client K_dates vs cmp.
Proof.
  intros (Hn & Hv & _). cbn [positiveNode matches_values]. rewrite mean_any by (by destruct vs). rewrite existsb_map. apply existsb_ext_Forall. eapply Forall_impl; [exact Hv|]. cbn. intros v H.
  destruct (parseDateFilterValue v) as [p|] eqn:E; [by eapply date_parsed|]. destruct H as (H1 & H2 & H3). by apply date_named.
Qed.

Lemma cut_spec ch s a b : cut ch s = Some (a, b) -> s = a +:+ String ch b.
Proof.
  revert a b. induction s as [|x s IH]; intros a b; [done|]. cbn. destruct (Ascii.eqb_spec x ch) as [->|]; [intros [= <- <-]; done|]. destruct (cut ch s) as [[a' b']|]; [|done]. intros [= <- <-]. cbn. f_equal. by apply IH.
Qed.

Lemma released_prefix v p : parseDateFilterValue v = Some p -> kind p = D_released <-> startsWith "released:" v = true.
Proof.
  unfold parseDateFilterValue. destruct (cut ":" v) as [[k s]|] eqn:E; [|done]. apply cut_spec in E as ->. destruct (map_get k date_kinds) as [d|] eqn:Ek; [|done].
  assert (Hd : d = D_released <-> startsWith "released:" (k +:+ String ":" s) = true).
  { revert Ek. unfold date_kinds. cbn [map_get]. repeat (case_decide; [subst k; intros [= <-]; vm_compute; split; intros; first [discriminate | by destruct s]|]). done. }
  intros Hp. rewrite <- Hd. destruct (offset_days s); [injection Hp as <-; done|]. destruct (FilterChips.shaped _ s); [injection Hp as <-; done | done].
Qed.

(** A value that is a prefix and nothing behind it. *)
Lemma slice_from_app p s : slice_from (String.length p) (p +:+ s) = s.
Proof. induction p as [|ch p IH]; [by destruct s|]. exact IH. Qed.

Lemma release_value v cmp : plain_value parseTime toISOString localDay dayStart parseDate dayText digest c r K_releases v -> mean (release_node toISOString localDay dayStart now cmp v) =
  (if v =s "no-releases" then negb (nonempty (r_releaseIds r))
   else if v =s "released-any" then r_hasReleasedRelease r
   else if v =s "no-released-date" then negb (nonempty (r_releasedDates r))
   else if startsWith "released:" v then date_matches v cmp
   else if startsWith "release:" v then member (slice_from 8 v) (r_releaseIds r)
   else if startsWith "release-pipeline:" v then member (slice_from 17 v) (r_releasePipelineIds r)
   else if startsWith "release-stage:" v then member (slice_from 14 v) (r_releaseStages r)
   else if startsWith "release-stage-type:" v then member (slice_from 19 v) (r_releaseStatuses r)
   else false).
Proof.
  intros [Hbare Hread]. unfold release_node. destruct (v =s "no-releases"); [exact (proj2 (mean_flag "release" _ released))|]. destruct (v =s "released-any"); [rewrite (proj1 (cs_released _ _ _ _ _ _ _ _ _ _ _ ok)); exact (proj1 (mean_flag "releasedAt" _ released))|].
  destruct (v =s "no-released-date"); [exact (proj2 (mean_flag "releasedAt" _ released))|]. cbv zeta. set (rest := if startsWith "release:" v then _ else _).
  assert (Hin : forall f l p, v ≠ p -> startsWith p v = true -> map_get f [("release", r_releaseIds r); ("releasePipeline", r_releasePipelineIds r); ("releaseStage", r_releaseStages r); ("releaseStatus", r_releaseStatuses r)] = Some l ->
    mean (Leaf f "in" [slice_from (String.length p) v]) = member (slice_from (String.length p) v) l).
  { intros f l p Hvp Hs H. rewrite mean_leaf. apply (lv_release f l _ H). apply prefix_spec in Hs as [x ->]. rewrite slice_from_app. intros ->. apply Hvp, append_empty_r. }
  assert (Hn : v ≠ "release:" /\ v ≠ "release-pipeline:" /\ v ≠ "release-stage:" /\ v ≠ "release-stage-type:") by (rewrite !elem_of_cons in Hbare; repeat split; intros ->; apply Hbare; auto).
  destruct Hn as (N1 & N2 & N3 & N4).
  assert (Hrest : mean rest = if startsWith "release:" v then member (slice_from 8 v) (r_releaseIds r) else if startsWith "release-pipeline:" v then member (slice_from 17 v) (r_releasePipelineIds r)
    else if startsWith "release-stage:" v then member (slice_from 14 v) (r_releaseStages r) else if startsWith "release-stage-type:" v then member (slice_from 19 v) (r_releaseStatuses r) else false).
  { unfold rest. destruct (startsWith "release:" v) eqn:E1; [exact (Hin "release" _ "release:" N1 E1 eq_refl)|]. destruct (startsWith "release-pipeline:" v) eqn:E2; [exact (Hin "releasePipeline" _ "release-pipeline:" N2 E2 eq_refl)|].
    destruct (startsWith "release-stage:" v) eqn:E3; [exact (Hin "releaseStage" _ "release-stage:" N3 E3 eq_refl)|]. destruct (startsWith "release-stage-type:" v) eqn:E4; [exact (Hin "releaseStatus" _ "release-stage-type:" N4 E4 eq_refl) | apply mean_none]. }
  destruct (startsWith "released:" v) eqn:Ev.
  - destruct (parseDateFilterValue v) as [p|] eqn:Ep.
    + pose proof (proj2 (released_prefix v p Ep) Ev) as Ek. rewrite Ek. pose proof (date_parsed v p cmp Ep Hread) as Hd. unfold date_node in Hd. rewrite Ep, Ek in Hd. exact Hd.
    + rewrite Hrest. unfold matchesDateFilter. rewrite Ep. apply prefix_spec in Ev as [s ->]. cbn. by destruct (negb (present (r_dueDate r))).
  - transitivity (mean rest); [|exact Hrest]. destruct (parseDateFilterValue v) as [p|] eqn:Ep; [|done]. pose proof (released_prefix v p Ep) as Hk. rewrite Ev in Hk. destruct (kind p); try done. discriminate (proj1 Hk eq_refl).
Qed.

Lemma releases_parity vs cmp : covered c r K_releases vs -> mean (query K_releases vs cmp) = client K_releases vs cmp.
Proof. intros (Hn & Hv & _). cbn [positiveNode matches_values]. rewrite mean_any by (by destruct vs). rewrite existsb_map. apply existsb_ext_Forall. eapply Forall_impl; [exact Hv|]. intros v. apply release_value. Qed.

Lemma properties_parity vs cmp : covered c r K_projectProperties vs -> mean (query K_projectProperties vs cmp) = client K_projectProperties vs cmp.
Proof.
  intros (_ & Hv & _). cbn [positiveNode matches_values]. assert (E : mean (let projectIds := map pr_id (List.filter (fun p => existsb (project_matches p) vs) (projects c)) in if nonempty projectIds then Leaf "project" "in" projectIds else none)
    = match r_project r with Some i => existsb (fun q => (pr_id q =s i) && existsb (project_matches q) vs) (projects c) | None => false end).
  { rewrite <- project_optional. cbv zeta. destruct (nonempty _); [cbn; by rewrite orb_false_r | apply mean_none]. }
  cbv zeta in E. rewrite E. clear E. unfold matchesProjectProperties. pose proof (cs_project _ _ _ _ _ _ _ _ _ _ _ ok) as Hp. destruct (r_project r) as [i|] eqn:Er.
  - destruct Hp as (p & Hin & <- & _ & E2 & E3 & E4 & E5 & E6 & E7). rewrite project_of_row by done. apply existsb_same. intros v. unfold project_matches. rewrite E2, E3, E4, E5, E6, E7.
    destruct (startsWith "project-status:" v); [done|]. destruct (startsWith "project-status-type:" v); [done|]. destruct (startsWith "project-priority:" v); [done|]. destruct (startsWith "project-label:" v); [done|].
    destruct (startsWith "project-lead:" v) eqn:El.
    + apply prefix_spec in El as [s ->]. change 13%nat with (String.length "project-lead:"). rewrite slice_from_app. destruct (String.eqb_spec ("project-lead:" +:+ s) "project-lead:") as [Es|Es].
      * assert (s = "") as -> by (cbn in Es; by injection Es). unfold present, truthy. by rewrite negb_involutive.
      * assert (Hs : s <> "") by (by intros ->). destruct (pr_lead p) as [l|]; [change (Some l ?? "") with l | change (None ?? "") with ""].
        -- destruct (String.eqb_spec l s) as [->|]; [by rewrite bool_decide_eq_true_2 | rewrite bool_decide_eq_false_2 by congruence; done].
        -- rewrite bool_decide_eq_false_2 by done. apply String.eqb_neq. congruence.
    + destruct (String.eqb_spec v "project-lead:") as [->|]; [discriminate El|]. done.
  - destruct Hp as (_ & E2 & E3 & E4 & E5 & E6 & E7). symmetry. apply existsb_none. eapply Forall_impl; [exact Hv|]. intros v [H | [H1 H2]]; [rewrite Er in H; done|]. rewrite E2, E3, E4, E5, E6, E7.
    destruct (startsWith "project-status:" v); [done|]. destruct (startsWith "project-status-type:" v); [done|]. destruct (startsWith "project-priority:" v) eqn:Ep.
    + apply prefix_spec in Ep as [s ->]. change 17%nat with (String.length "project-priority:"). rewrite slice_from_app. apply String.eqb_neq. intros <-. by apply H2.
    + destruct (startsWith "project-label:" v); [done|]. rewrite (proj2 (String.eqb_neq _ _) H1). destruct (startsWith "project-lead:" v); [done|]. destruct (startsWith "project-milestone-name-contains:" v); reflexivity.
Qed.

(** A flag of which one of two values is asked for. *)
Lemma two_values (yes no : string) vs (b : bool) : xorb (member yes vs) (member no vs) = true -> (if member yes vs then b else negb b) = member (if b then yes else no) vs.
Proof. destruct (member yes vs) eqn:Ey, (member no vs) eqn:En; cbn; try done; intros _; by destruct b; rewrite ?Ey, ?En. Qed.

(** A chip's values mean on the server what they mean on the client. *)
Lemma positive_parity k vs cmp : covered c r k vs -> mean (query k vs cmp) = client k vs cmp.
Proof.
  intros Hc. assert (Hf : Forall (plain_value parseTime toISOString localDay dayStart parseDate dayText digest c r k) vs /\ vs <> []) by (by destruct Hc as (? & ? & _)). destruct Hf as [Hf Hn].
  destruct k; try (destruct vs; [done|]; by apply Forall_cons in Hf as [[] _]); cbn [plain_value] in Hf;
    lazymatch goal with
    | |- context [positiveNode _ _ _ K_priority _ _ _] => exact (lv_priority fm vs Hf)
    | |- context [positiveNode _ _ _ K_team _ _ _] => exact (lv_team vs Hn Hf)
    | |- context [positiveNode _ _ _ K_creator _ _ _] => exact (proj1 (lv_column "creator" _ vs eq_refl))
    | |- context [positiveNode _ _ _ K_addedToCycle _ _ _] => exact (lv_attribute ok "addedToCycle" _ vs eq_refl Hf)
    | |- context [positiveNode _ _ _ K_estimate _ _ _] => exact (nullable_attribute "estimate" _ vs eq_refl Hf)
    | |- context [positiveNode _ _ _ K_project _ _ _] => exact (nullable_column "project" _ vs eq_refl)
    | |- context [positiveNode _ _ _ K_projectMilestone _ _ _] => exact (nullable_attribute "projectMilestoneId" _ vs eq_refl Hf)
    | |- context [positiveNode _ _ _ K_cycle _ _ _] => exact (nullable_column "cycle" _ vs eq_refl)
    | |- context [positiveNode _ _ _ K_template _ _ _] => exact (nullable_attribute "templateId" _ vs eq_refl Hf)
    | |- context [positiveNode _ _ _ K_externalSource _ _ _] => exact (nullable_attribute "externalSource" _ vs eq_refl Hf)
    | |- context [positiveNode _ _ _ K_labels _ _ _] => exact (lv_records "labels" _ vs eq_refl)
    | |- context [positiveNode _ _ _ K_advanced _ _ _] => reflexivity
    | |- context [positiveNode _ _ _ K_owner _ _ _] => reflexivity
    | |- context [positiveNode _ _ _ (K_other _) _ _ _] => reflexivity
    | _ => idtac
    end.
  - apply status_parity.
  - by apply assignee_parity.
  - cbn [positiveNode matches_values]. destruct (member "*" vs); [|exact (nullable_attribute "delegateId" _ vs eq_refl Hf)]. rewrite (proj1 (mean_flag "delegateId" _ named)). destruct (r_delegate r) as [d|] eqn:Ed; [|done].
    unfold present. change (Some d ?? "") with d. apply truthy_spec. intros ->. apply (cs_agents _ _ _ _ _ _ _ _ _ _ _ ok). by apply (cs_delegate _ _ _ _ _ _ _ _ _ _ _ ok).
  - by apply session_parity.
  - by apply relations_parity.
  - by apply suggested_parity.
  - by apply triage_parity.
  - by apply dates_parity.
  - by apply properties_parity.
  - by apply initiative_parity.
  - by apply releases_parity.
  - destruct Hc as (_ & _ & Hm). cbn [positiveNode matches_values]. rewrite <- any_empty; [exact (lv_records "subscribers" _ vs eq_refl) | done | done | apply (cs_subscribers _ _ _ _ _ _ _ _ _ _ _ ok)].
  - destruct Hc as (_ & _ & Hm). cbn [positiveNode matches_values]. rewrite <- (two_values _ _ _ _ Hm). destruct (member "true" vs); [exact (proj1 (mean_flag "autoClosed" _ named)) | exact (proj2 (mean_flag "autoClosed" _ named))].
  - destruct Hc as (_ & _ & Hm). cbn [positiveNode matches_values]. rewrite <- (two_values _ _ _ _ Hm). destruct (member "has-links" vs); [exact (proj1 (mean_flag "hasLinks" _ named)) | exact (proj2 (mean_flag "hasLinks" _ named))].
Qed.

(** ** Chips and trees *)

Lemma value_ids_some f : value_ids f <> [].
Proof. unfold value_ids. pose proof (filterValues_some f) as H. by destruct (filterValues f). Qed.

Local Notation chip_matches f := (matches_chip parseTime toISOString localDay dayStart startOfDay r now (index_of_context c) f).
Local Notation chip_query f := (chip_node toISOString localDay dayStart c f).

Lemma label_parity v cmp : (if truthy v then member v (r_labels r) else negb (nonempty (r_labels r))) = client K_labels [v] cmp.
Proof.
  assert (E1 : any_of [v] (r_labels r) = member v (r_labels r)) by (rewrite existsb_swap; unfold any_of; cbn [existsb]; by rewrite orb_false_r).
  assert (E2 : member "" [v] = ("" =s v)) by (unfold member; cbn [existsb]; by rewrite orb_false_r). cbn [matches_values]. rewrite E1, E2. destruct (String.eqb_spec "" v) as [<-|Hne].
  - cbn [truthy negb String.eqb andb]. replace (member "" (r_labels r)) with false; [by rewrite orb_false_r|]. symmetry. apply not_true_iff_false. rewrite member_spec. apply (cs_labels _ _ _ _ _ _ _ _ _ _ _ ok).
  - rewrite (proj2 (truthy_spec v)) by congruence. done.
Qed.

Lemma chip_parity f : covered_chip parseTime toISOString localDay dayStart parseDate dayText digest c r f -> mean (chip_query f) = chip_matches f.
Proof.
  intros [Hnum Hc]. unfold chip_node, matches_chip, all_values in *. rewrite Hnum, andb_false_r. destruct (is_op includesAll (operator f) || is_op excludesAll (operator f)) eqn:Eo.
  - destruct Hc as [Hlen Hc]. set (all := match value_ids f with [] => _ | _ => _ end). assert (E : mean all = nonempty (value_ids f) && forallb (fun v => client (field f) [v] None) (value_ids f)).
    { assert (Hp : forall v, v ∈ value_ids f -> mean (query (field f) [v] None) = client (field f) [v] None) by (intros v Hv; apply positive_parity; rewrite Forall_forall in Hc; by apply Hc).
      assert (Hl : field f = K_labels -> mean (Leaf "labels" "includesAll" (value_ids f)) = forallb (fun v => client (field f) [v] None) (value_ids f)).
      { intros ->. rewrite mean_leaf, lv_all by (apply value_ids_some || done). apply forallb_same. intros v. apply label_parity. }
      pose proof (value_ids_some f) as Hn. subst all. destruct (value_ids f) as [|v [|w l]] eqn:Ev; [done | |]; cbn [nonempty]; rewrite andb_true_l; (destruct (is_key K_labels (field f)) eqn:Ek; [apply is_key_spec in Ek; by apply Hl|]).
      - cbn [forallb]. rewrite andb_true_r. apply Hp. left.
      - rewrite mean_and. clear -Hp. assert (G : forall l, (forall v, v ∈ l -> mean (query (field f) [v] None) = client (field f) [v] None) -> forallb mean (map (fun v => query (field f) [v] None) l) = forallb (fun v => client (field f) [v] None) l).
        { clear. induction l as [|v l IH]; intros H; [done|]. cbn [map forallb]. rewrite H, IH; [done | intros; apply H; by right | left]. }
        by apply G. }
    destruct (is_op includesAll (operator f)) eqn:Ei; cbn [orb] in Eo.
    + apply is_op_spec in Ei. rewrite Ei. cbn. exact E.
    + rewrite Eo, mean_not, E. done.
  - rewrite <- (positive_parity (field f) (value_ids f) (comparison_of (operator f))) by done. destruct (is_op isNot (operator f)); [apply mean_not | done].
Qed.

(** A tree means on both sides what its conditions mean. *)
Lemma group_parity (q : Filter -> QNode) (m : Filter -> bool) n : Forall (fun d => valued d = true -> mean (q (conditionAsFilter d)) = m (conditionAsFilter d)) (treeConditions n) ->
  (match n with Cond d => valued d = true | Group _ _ _ => True end) -> mean (group_node q n) = matches_group m n.
Proof.
  induction n as [d|i e l IH] using node_rect'; intros Hc Hv; [apply Forall_cons in Hc as [Hc _]; by apply Hc|]. cbn [group_node matches_group treeConditions] in *.
  set (nodes := flat_map _ l). set (results := flat_map (fun x => match x with Cond d => if nonempty (c_values d) then [m (conditionAsFilter d)] else [] | Group _ _ k => if nonempty k then [matches_group m x] else [] end) l).
  assert (E : results = map mean nodes).
  { subst nodes results. clear Hv. induction IH as [|x l Hx _ IH]; [done|]. cbn [flat_map] in *. apply Forall_app in Hc as [Hcx Hcl]. rewrite map_app, IH by done. f_equal. destruct x as [d|i' e' k].
    - assert (Hd : nonempty (c_values d) = valued d) by (unfold valued; by destruct (c_values d)). rewrite Hd. destruct (valued d) eqn:Ed; [|done]. apply Forall_cons in Hcx as [Hcx _]. cbn [map]. by rewrite Hcx.
    - destruct (nonempty k); [|done]. cbn [map]. by rewrite (Hx Hcx I). }
  rewrite E. clear. destruct nodes as [|x r']; [done|]. cbn [map]. destruct e.
  - rewrite mean_and. change (mean x :: map mean r') with (map mean (x :: r')). generalize (x :: r'). intros l0. induction l0 as [|y l0 IH]; [done|]. cbn. by rewrite IH.
  - change (Or (x :: r')) with (group false (x :: r')). rewrite meaning_group by done. cbn [meanings]. change (mean x :: map mean r') with (map mean (x :: r')). generalize (x :: r'). intros l0. induction l0 as [|y l0 IH]; [done|]. cbn. by rewrite IH.
Qed.

Lemma filter_parity fuel fresh f : covered_filter parseTime toISOString localDay dayStart parseDate dayText digest fuel fresh c r f ->
  mean (filter_node toISOString localDay dayStart fuel fresh c f) = matches_filter parseTime toISOString localDay dayStart startOfDay fuel fresh r now (index_of_context c) f.
Proof.
  revert f. induction fuel as [|fuel IH]; intros f; cbn [covered_filter filter_node matches_filter]; (destruct (is_key K_advanced (field f)); [|apply chip_parity]); [done|].
  intros Hc. apply group_parity; [eapply Forall_impl; [exact Hc|]; cbn; intros d Hd Hv; by apply IH, Hd|]. by destruct (tree_group fresh f) as (i & e & l & ->).
Qed.
End Server.

(** ** The shape of the query *)

Section Shape.
Context (parseTime : string -> option Z) (toISOString : Z -> string) (localDay : Z -> string) (dayStart : string -> Z) (parseDate : string -> option Z) (dayText : Z -> string) (digest : string -> string) (c : Context).
Local Notation covered := (covered parseTime toISOString localDay dayStart parseDate dayText digest c).
Local Notation covered_chip := (covered_chip parseTime toISOString localDay dayStart parseDate dayText digest c).
Local Notation covered_filter := (covered_filter parseTime toISOString localDay dayStart parseDate dayText digest).

(** A query with one kind of node at every place and at most [n] levels. *)
Definition shape (n : nat) (q : QNode) : Prop := proper q /\ (levels q <= n)%nat.

Lemma shape_le n m q : (n <= m)%nat -> shape n q -> shape m q.
Proof. intros H [H1 H2]. split; [done | lia]. Qed.

Lemma shape_leaf n f p v : (1 <= n)%nat -> shape n (mkQ None None None (Some f) p v).
Proof. intros H. split; [constructor | exact H]. Qed.

Lemma heights_le n l : Forall (shape n) l -> (heights l <= n)%nat.
Proof. unfold heights. induction 1 as [|x l [_ Hx] _ IH]; cbn; lia. Qed.

Lemma proper_all n l : Forall (shape n) l -> Forall proper l.
Proof. intros H. eapply Forall_impl; [exact H|]. by intros q [? _]. Qed.

Lemma shape_and n l : Forall (shape n) l -> shape (S n) (And l).
Proof. intros H. split; [apply proper_and; by eapply proper_all|]. change (And l) with (group true l). rewrite levels_group. apply heights_le in H. lia. Qed.

Lemma shape_or n l : l <> [] -> Forall (shape n) l -> shape (S n) (Or l).
Proof. intros Hn H. split; [apply proper_or; [done | by eapply proper_all]|]. change (Or l) with (group false l). rewrite levels_group. apply heights_le in H. lia. Qed.

Lemma shape_not n q : shape n q -> shape (S n) (Not q).
Proof. intros [H1 H2]. split; [by constructor|]. rewrite levels_not. lia. Qed.

Lemma shape_any n l : l <> [] -> Forall (shape n) l -> shape (S n) (any l).
Proof. intros Hn H. destruct l as [|x [|y l]]; [done | apply Forall_cons in H as [H _]; by eapply shape_le, H; lia | by apply shape_or]. Qed.

Lemma shape_map_any {A} n (f : A -> QNode) l : l <> [] -> (forall x, shape n (f x)) -> shape (S n) (any (map f l)).
Proof. intros Hn H. apply shape_any; [by destruct l|]. apply Forall_map, List.Forall_forall. auto. Qed.

Lemma shape_none n : (1 <= n)%nat -> shape n none.
Proof. apply shape_leaf. Qed.

Lemma shape_or_none n l : (1 <= n)%nat -> Forall (shape n) l -> shape (S n) (any (match l with [] => [none] | _ => l end)).
Proof. intros Hn H. destruct l as [|x l]; [apply shape_none; lia | by apply shape_any]. Qed.

Lemma shape_nullable f vs : shape 2 (nullable f vs).
Proof.
  unfold nullable. set (nodes := _ ++ _). assert (H : Forall (shape 1) nodes) by (unfold nodes; apply Forall_app; split; case_match; repeat constructor; cbn; lia).
  destruct nodes as [|x l]; [apply shape_none; lia | by apply shape_any].
Qed.

Lemma shape_date cmp now v : shape 2 (date_node toISOString localDay dayStart now cmp v).
Proof. unfold date_node. destruct (parseDateFilterValue v); [apply shape_leaf; lia|]. cbv zeta. repeat (case_match; [first [apply shape_leaf; lia | apply shape_and; repeat constructor; cbn; lia]|]). apply shape_none; lia. Qed.

Lemma shape_release cmp now v : shape 1 (release_node toISOString localDay dayStart now cmp v).
Proof. unfold release_node. cbv zeta. repeat case_match; apply shape_leaf; lia. Qed.

Lemma omap_Forall {A B} (P : B -> Prop) (f : A -> option B) l : (forall x y, f x = Some y -> P y) -> Forall P (omap f l).
Proof. intros H. induction l as [|x l IH]; [constructor|]. rewrite omap_cons. destruct (f x) as [y|] eqn:E; [|done]. constructor; [by eapply H | done]. Qed.

Lemma positive_shape k vs cmp : vs <> [] -> (k = K_content -> False) -> shape 3 (positiveNode toISOString localDay dayStart k vs c cmp).
Proof.
  intros Hn Hk. assert (Hand : shape 3 (And [])) by (eapply (shape_le 1); [lia | apply (shape_and 0); constructor]).
  destruct k; cbn [positiveNode]; cbv zeta; try (by destruct Hk); try exact Hand; try (apply shape_leaf; lia); try (eapply shape_le, shape_nullable; lia).
  - apply shape_map_any; [done|]. intros v. repeat case_match; apply shape_leaf; lia.
  - repeat case_match; try (apply shape_leaf; lia); try (eapply shape_le, shape_nullable; lia). apply shape_any; [done|]. constructor; [apply shape_nullable|]. constructor; [apply shape_leaf; lia | constructor].
  - case_match; [apply shape_leaf; lia | eapply shape_le, shape_nullable; lia].
  - case_match; [apply shape_leaf; lia|]. eapply shape_le, (shape_or_none 1); [lia | lia|]. apply Forall_app. split; case_match; repeat constructor; cbn; lia.
  - case_match.
    + apply shape_not. apply (shape_map_any 1); [done|]. intros t. apply shape_leaf. lia.
    + eapply shape_le, (shape_map_any 1); [lia | done|]. intros t. apply shape_leaf. lia.
  - eapply shape_le, (shape_or_none 1); [lia | lia|]. apply Forall_app. split; [|case_match; repeat constructor; cbn; lia]. apply Forall_map, List.Forall_forall. intros t _. apply shape_leaf. lia.
  - eapply shape_le, (shape_or_none 1); [lia | lia|]. apply omap_Forall. intros v q. unfold triageIntelligenceQueryNode. repeat case_match; intros [= <-]; apply shape_leaf; lia.
  - apply shape_map_any; [done|]. intros v. apply shape_date.
  - case_match; apply shape_leaf; lia.
  - eapply shape_le, (shape_or_none 1); [lia | lia|]. apply Forall_app. split; repeat case_match; repeat constructor; cbn; lia.
  - eapply shape_le, (shape_map_any 1); [lia | done|]. intros v. apply shape_release.
  - case_match; apply shape_leaf; lia.
  - case_match; apply shape_leaf; lia.
Qed.

Lemma covered_some r k vs : covered r k vs -> vs <> [] /\ (k = K_content -> False).
Proof. intros (Hn & Hv & _). split; [done|]. intros ->. destruct vs; [done|]. by apply Forall_cons in Hv as [[] _]. Qed.

Lemma chip_shape r f : covered_chip r f -> shape 5 (chip_node toISOString localDay dayStart c f) /\ (offered_chip f = true -> shape 4 (chip_node toISOString localDay dayStart c f)).
Proof.
  intros [Hnum Hc]. unfold chip_node, offered_chip, all_values in *. rewrite Hnum. destruct (is_op includesAll (operator f) || is_op excludesAll (operator f)).
  - destruct Hc as [_ Hc]. set (all := match value_ids f with [] => _ | _ => _ end). cbn [negb orb].
    assert (Hall : shape 4 all /\ (is_key K_labels (field f) = true -> shape 1 all)).
    { assert (Hp : forall v, v ∈ value_ids f -> shape 3 (positiveNode toISOString localDay dayStart (field f) [v] c None)) by (intros v Hv; rewrite Forall_forall in Hc; apply positive_shape; by apply (covered_some r (field f) [v]), Hc).
      subst all. destruct (value_ids f) as [|v [|w l]]; [by split; [|intros _]; apply shape_none; lia | |]; destruct (is_key K_labels (field f)); try (by split; [|intros _]; apply shape_leaf; lia); (split; [|done]).
      - eapply shape_le, Hp; [lia | left].
      - apply shape_and, Forall_map, Forall_forall. exact Hp. }
    destruct Hall as [H1 H2]. destruct (is_op excludesAll (operator f)).
    + split; [by apply shape_not|]. intros [_ Hl]%andb_true_iff. eapply shape_le, shape_not, H2; [lia | done].
    + split; [by eapply shape_le, H1; lia | done].
  - destruct (covered_some _ _ _ Hc) as [Hn Hk]. pose proof (positive_shape (field f) (value_ids f) (comparison_of (operator f)) Hn Hk) as H. destruct (is_op isNot (operator f)).
    + apply shape_not in H. split; [by eapply shape_le, H; lia | done].
    + split; [|intros _]; eapply shape_le, H; lia.
Qed.

Lemma group_shape n (q : Filter -> QNode) t : (1 <= n)%nat -> Forall (fun d => valued d = true -> shape n (q (conditionAsFilter d))) (treeConditions t) ->
  (match t with Cond d => valued d = true | Group _ _ _ => True end) -> shape (treeDepth t + n) (group_node q t).
Proof.
  intros Hn. induction t as [d|i e l IH] using node_rect'; intros Hc Hv; [apply Forall_cons in Hc as [Hc _]; by apply Hc|]. cbn [group_node treeConditions] in *. set (nodes := flat_map _ l).
  assert (H : Forall (shape (depths l + n)) nodes).
  { subst nodes. clear Hv. induction IH as [|x l Hx _ IH]; [constructor|]. cbn [flat_map] in *. apply Forall_app in Hc as [Hcx Hcl]. change (depths (x :: l)) with (Nat.max (treeDepth x) (depths l)). apply Forall_app. split.
    - destruct x as [d|i' e' k].
      + assert (Hd : nonempty (c_values d) = valued d) by (unfold valued; by destruct (c_values d)). rewrite Hd. destruct (valued d) eqn:Ed; [|constructor]. apply Forall_cons in Hcx as [Hcx _]. constructor; [|constructor]. eapply shape_le, Hcx; [lia | done].
      + destruct (nonempty k); [|constructor]. constructor; [|constructor]. eapply shape_le, (Hx Hcx I). lia.
    - eapply Forall_impl; [exact (IH Hcl)|]. intros y. apply shape_le. lia. }
  change (treeDepth (Group i e l) + n)%nat with (S (depths l + n)). destruct nodes as [|x k]; [apply shape_and; constructor|]. destruct e; [by apply shape_and | by apply shape_or].
Qed.

Lemma filter_shape r fuel fresh f : covered_filter fuel fresh c r f -> shape (5 + 3 * fuel) (filter_node toISOString localDay dayStart fuel fresh c f).
Proof.
  revert f. induction fuel as [|fuel IH]; intros f; cbn [covered_filter filter_node]; (destruct (is_key K_advanced (field f)); [|intros H; eapply shape_le, (proj1 (chip_shape r f H)); lia]).
  - intros _. eapply (shape_le 1); [lia | apply (shape_and 0); constructor].
  - intros Hc. pose proof (tree_depth fresh f) as Hd. unfold ADVANCED_FILTER_MAX_DEPTH in Hd. eapply shape_le, (group_shape (5 + 3 * fuel)); [lia | lia | |].
    + eapply Forall_impl; [exact Hc|]. cbn beta. intros d H Hv. by apply IH, H.
    + by destruct (tree_group fresh f) as (i & e & l & ->).
Qed.

Lemma offered_shape r fresh f : covered_filter 2 fresh c r f -> offered_filter fresh f = true -> shape 7 (filterToQueryNode toISOString localDay dayStart fresh c f).
Proof.
  unfold filterToQueryNode, offered_filter. cbn [covered_filter filter_node]. destruct (is_key K_advanced (field f)) eqn:E; [|intros H1 H2; eapply shape_le, (proj2 (chip_shape r f H1) H2); lia].
  intros Hc Ho. pose proof (tree_depth fresh f) as Hd. unfold ADVANCED_FILTER_MAX_DEPTH in Hd. eapply shape_le, (group_shape 4); [lia | lia | | by destruct (tree_group fresh f) as (i & e & l & ->)].
  rewrite forallb_forall in Ho. apply List.Forall_forall. intros d Hin Hv. rewrite List.Forall_forall in Hc. specialize (Hc d Hin Hv). specialize (Ho d Hin). rewrite Hv in Ho. cbn [negb orb] in Ho.
  assert (Hk : is_key K_advanced (field (conditionAsFilter d)) = false) by (apply andb_true_iff in Ho as [Ho _]; by apply negb_true_iff in Ho). cbn [covered_filter] in Hc. rewrite Hk in *. by apply (chip_shape r).
Qed.
End Shape.

(** ** Fuel *)

Lemma conditions_basic fresh d : Forall (fun x => is_key K_advanced (c_field x) = false) (treeConditions (advancedFilterTree fresh (conditionAsFilter d))).
Proof.
  unfold advancedFilterTree. cbn [conditionAsFilter tree treeConditions f_id]. generalize 0%nat. induction (filterValues _) as [|v l IH]; intros n; cbn [flat_mapi flat_map]; [constructor|]. rewrite flat_map_app. apply Forall_app. split; [|apply IH].
  unfold legacy_condition. destruct (cut ":" (value v)) as [[k s]|]; [|constructor]. destruct (map_get k LEGACY_FIELDS) as [[key lab]|] eqn:E; [|constructor]. repeat constructor. cbn [c_field].
  revert E. unfold LEGACY_FIELDS. cbn [map_get]. repeat (case_decide; [intros [= <- _]; done|]). done.
Qed.

Lemma group_node_ext q q' t : Forall (fun d => q (conditionAsFilter d) = q' (conditionAsFilter d)) (treeConditions t) -> group_node q t = group_node q' t.
Proof.
  induction t as [d|i e l IH] using node_rect'; intros H; [by apply Forall_cons in H as [H _]|]. cbn [group_node treeConditions] in *. erewrite (flat_map_ext_Forall _ _ l); [reflexivity|]. induction IH as [|x l Hx _ IH]; [constructor|].
  cbn [flat_map] in H. apply Forall_app in H as [H1 H2]. constructor; [|by apply IH]. destruct x as [d|i' e' k]; [apply Forall_cons in H1 as [-> _]; done | by rewrite Hx].
Qed.

Lemma matches_group_ext m m' t : Forall (fun d => m (conditionAsFilter d) = m' (conditionAsFilter d)) (treeConditions t) -> matches_group m t = matches_group m' t.
Proof.
  induction t as [d|i e l IH] using node_rect'; intros H; [by apply Forall_cons in H as [H _]|]. cbn [matches_group treeConditions] in *. erewrite (flat_map_ext_Forall _ _ l); [reflexivity|]. induction IH as [|x l Hx _ IH]; [constructor|].
  cbn [flat_map] in H. apply Forall_app in H as [H1 H2]. constructor; [|by apply IH]. destruct x as [d|i' e' k]; [apply Forall_cons in H1 as [-> _]; done | by rewrite Hx].
Qed.

(** Two levels of advanced chips are all there are. *)
Lemma filter_fuel toISOString localDay dayStart fresh c f n : filter_node toISOString localDay dayStart (2 + n) fresh c f = filterToQueryNode toISOString localDay dayStart fresh c f.
Proof.
  unfold filterToQueryNode. cbn [Nat.add filter_node]. destruct (is_key K_advanced (field f)); [|done]. apply group_node_ext, List.Forall_forall. intros d _. destruct (is_key K_advanced (field (conditionAsFilter d))); [|done].
  apply group_node_ext. eapply Forall_impl; [apply conditions_basic|]. cbn beta. intros x Hx. change (field (conditionAsFilter x)) with (c_field x). rewrite Hx. destruct n; cbn [filter_node]; change (field (conditionAsFilter x)) with (c_field x); by rewrite Hx.
Qed.

Lemma matches_fuel parseTime toISOString localDay dayStart startOfDay fresh r now ids f n :
  matches_filter parseTime toISOString localDay dayStart startOfDay (2 + n) fresh r now ids f = matchesExplorerFilter parseTime toISOString localDay dayStart startOfDay fresh r now ids f.
Proof.
  unfold matchesExplorerFilter. cbn [Nat.add matches_filter]. destruct (is_key K_advanced (field f)); [|done]. apply matches_group_ext, List.Forall_forall. intros d _. destruct (is_key K_advanced (field (conditionAsFilter d))); [|done].
  apply matches_group_ext. eapply Forall_impl; [apply conditions_basic|]. cbn beta. intros x Hx. change (field (conditionAsFilter x)) with (c_field x). rewrite Hx. destruct n; cbn [matches_filter]; change (field (conditionAsFilter x)) with (c_field x); by rewrite Hx.
Qed.

(** ** Parity *)


(** ** Examples *)

Module Demo.

(** Formats that keep what is asked of them: times as 68 binary digits. *)
Fixpoint bits (k : nat) (n : Z) : string :=
  match k with O => EmptyString | S k => if n <? 2 ^ Z.of_nat k then String "0" (bits k n) else String "1" (bits k (n - 2 ^ Z.of_nat k)) end.
Definition stamp (n : Z) : string := bits 68 n.
Definition number (s : string) : option Z := option_map Z.of_int (NilEmpty.int_of_string s).
Definition digest (_ : string) : string := "#".

Lemma bits_order k a b : 0 <= a < 2 ^ Z.of_nat k -> 0 <= b < 2 ^ Z.of_nat k -> String.ltb (bits k a) (bits k b) = (a <? b).
Proof.
  revert a b. induction k as [|k IH]; intros a b Ha Hb; [change (2 ^ Z.of_nat 0) with 1 in *; symmetry; apply Z.ltb_ge; lia|]. rewrite Nat2Z.inj_succ, Z.pow_succ_r in * by lia. cbn [bits]. set (p := 2 ^ Z.of_nat k) in *.
  destruct (Z.ltb_spec a p), (Z.ltb_spec b p).
  - rewrite <- IH by lia. reflexivity.
  - transitivity true; [reflexivity|]. symmetry. apply Z.ltb_lt. lia.
  - transitivity false; [reflexivity|]. symmetry. apply Z.ltb_ge. lia.
  - transitivity (a - p <? b - p); [rewrite <- IH by lia; reflexivity|]. apply eq_iff_eq_true. rewrite !Z.ltb_lt. lia.
Qed.

Lemma bits_plain k n : byteLength (bits k n) = Z.of_nat k /\ lacks "000" (bits k n) = true.
Proof. revert n. induction k as [|k IH]; intros n; [done|]. cbn [bits]. assert (H : forall m, byteLength (bits k m) = Z.of_nat k /\ lacks "000" (bits k m) = true) by exact IH. rewrite Nat2Z.inj_succ. destruct (n <? _); cbn [byteLength lacks]; rewrite !(proj1 (H _)), !(proj2 (H _)); split; try done; change ((nat_of_ascii _ <? 128)%nat) with true; cbv iota; lia. Qed.

Lemma bits_some k n : bits (S k) n <> "".
Proof. cbn [bits]. by destruct (n <? _). Qed.

Lemma demo_formats : Formats stamp number digest.
Proof.
  split.
  - intros a b Ha Hb. unfold era in *. apply bits_order; change (2 ^ Z.of_nat 68) with 295147905179352825856; lia.
  - intros a _. split; [exact (bits_some 67 a)|]. unfold indexKey. destruct (bits_plain 68 a) as [E1 E2]. unfold stamp. by rewrite E1, E2.
  - intros n. unfold number, showZ. rewrite NilEmpty.isi; [cbn; by rewrite DecimalZ.of_to|..]. all: intros E; destruct n; cbn in E; try discriminate E; injection E; apply DecimalPos.Unsigned.to_uint_nonnil.
Qed.

(** A small workspace; a day is read as its number. *)
Definition today : string := "2026-01-05".
Definition parseTime (s : string) : option Z := digits_value s.
Definition parseDate (s : string) : option Z := if s =s today then Some 5000000 else option_map (fun ms => ms * 1000000) (digits_value s).
Definition dayText (_ : Z) : string := today.
Definition localDay (_ : Z) : string := today.
Definition dayStart (s : string) : Z := if s =s today then 5 else if String.ltb s today then 3 else 7.
Definition startOfDay (_ : Z) : Z := 5.
Definition noon : Z := 900000000.

Definition row (state type : string) (assignee delegate : option string) (labels : list string) (priority : Z) (project due : option string) (links : bool) : Row :=
  mkRowData (Some "t") priority None state type assignee delegate None None (Some "me") labels [] [] [] [] [] [] project None (if isSome project then Some "ps" else None) (if isSome project then Some "started" else None)
    (if isSome project then Some 2 else None) [] None [] (if isSome project then ["i1"] else []) None None [] [] [] [] false [] [] false None [] [] [] [] [] [] [] [] links "Fix" None None false None false due (Some "880000000") (Some "1") None None None None (Some "1").

Definition context : Context :=
  mkContext [mkProject "p1" ["i1"] (Some ("ps", "started")) 2 [] None []] "me" [("me", false); ("bot", true)] [mkState "s1" "Todo" "backlog" None None; mkState "s2" "todo " "backlog" (Some "t") None] (Some []) [] noon.

Definition rows : list Row := [row "s2" "backlog" (Some "me") None ["l1"; "l2"] 1 (Some "p1") (Some "2026-01-03") true; row "s9" "started" None (Some "bot") [] 2 None None false].

Definition chip (k : FilterKey) (o : Operator) (vs : list string) : Filter := mkFilter "f" k (key_text k) o (hd "" vs) "" None None None (Some (map VText vs)) None.
Definition cond (k : FilterKey) (o : Operator) (vs : list string) : Node := Cond (mkCondition (Some "c") k (key_text k) o (map (fun v => mkConditionValue v (Some v) None) vs)).
Definition bar : list Filter :=
  [chip K_status is_ ["s1"]; chip K_dates is_ ["overdue"];
   createAdvancedFilter "adv" (Group "g" c_or [cond K_assignee isNot [""; "bot"]; Group "h" c_and [cond K_labels excludesAll ["l1"; "l3"]; cond K_initiative is_ ["i1"]]])].

Local Notation compiled q := (compile parseDate stamp dayText number digest r_stateId q 0 100).
Local Notation kept r := (applyExplorerFilters parseTime showZ localDay dayStart startOfDay AdvancedFilter.Demo.names noon (index_of_context context) r).
Local Notation ast f := (issueFiltersToQueryAst showZ localDay dayStart AdvancedFilter.Demo.names f (Some context)).

Ltac decided := apply (bool_decide_unpack _); vm_compute; exact I.
Ltac whole_time := (split; [discriminate|]); eexists; split; [reflexivity | split; [reflexivity | vm_compute; split; congruence]].

Lemma keys_plain l : forallb (fun e => (indexKey digest (fst e) =s fst e) && (indexKey digest (snd e) =s snd e)) l = true -> Forall (fun e => plain digest (fst e) /\ plain digest (snd e)) l.
Proof. intros H. apply List.Forall_forall. intros e He. rewrite forallb_forall in H. specialize (H e He). apply andb_true_iff in H as [H1%String.eqb_eq H2%String.eqb_eq]. done. Qed.

Lemma rows_consistent : Forall (Consistent parseTime showZ localDay dayStart startOfDay parseDate stamp dayText digest context) rows.
Proof.
  repeat (apply Forall_cons_2; [|]); [| |apply Forall_nil_2]; split; try decided; try done;
    first [intros d [= <-]; decided | (split; [reflexivity | whole_time]) | (split; [reflexivity | split; [discriminate | eexists; split; reflexivity]])
          | (intros [] t E Ht Hne; try discriminate Ht; cbn in E; first [discriminate E | injection E as <-; whole_time]) | idtac].
  - eexists. split; [left; reflexivity|]. repeat split; reflexivity.
  - apply keys_plain. vm_compute. reflexivity.
  - apply keys_plain. vm_compute. reflexivity.
Qed.

Lemma bar_covered r : Forall (covered_filter parseTime showZ localDay dayStart parseDate dayText digest 2 AdvancedFilter.Demo.names context r) bar.
Proof.
  assert (Hi : "" ∈ ["i1"] -> Forall (fun v => v = "") ["i1"]) by (intros H; apply list_elem_of_In in H as [H | []]; discriminate H).
  (apply Forall_cons_2; [|apply Forall_cons_2; [|apply Forall_cons_2; [|apply Forall_nil_2]]]).
  - split; [reflexivity|]. split; [discriminate|]. split; [repeat constructor | exact I].
  - split; [reflexivity|]. split; [discriminate|]. split; [|exact I]. constructor; [|constructor]. repeat split; discriminate.
  - (apply Forall_cons_2; [|apply Forall_cons_2; [|apply Forall_cons_2; [|apply Forall_nil_2]]]); intros _; (split; [reflexivity|]).
    + split; [discriminate|]. split; [repeat constructor | exact I].
    + split; [cbn; lia|]. repeat constructor; discriminate.
    + split; [discriminate|]. split; [repeat constructor | exact Hi].
Qed.


(** ** Where the two sides differ *)

Local Notation served r f := (match compiled (ast f) with Some (selects, _) => Some (map r_stateId (List.filter selects r)) | None => None end).
Local Notation shown r f := (map r_stateId (kept r f)).

(** Both values of a flag: the client keeps every row, the server only those that have it. *)
Lemma both_flags : shown rows [chip K_links is_ ["has-links"; "no-links"]] = ["s2"; "s9"] /\ served rows [chip K_links is_ ["has-links"; "no-links"]] = Some ["s2"].
Proof. by vm_compute. Qed.

(** "No initiative" together with an initiative: the client forgets the initiative. *)
Lemma none_and_some : shown rows [chip K_initiative is_ [""; "i1"]] = ["s9"] /\ served rows [chip K_initiative is_ [""; "i1"]] = Some ["s2"; "s9"].
Proof. by vm_compute. Qed.

(** "No project lead": the client keeps rows without a project. *)
Lemma no_lead : shown rows [chip K_projectProperties is_ ["project-lead:"]] = ["s2"; "s9"] /\ served rows [chip K_projectProperties is_ ["project-lead:"]] = Some ["s2"].
Proof. by vm_compute. Qed.

(** A content chip without a text: nothing on the client, an empty [or], that is everything, on the server. *)
Lemma content_without_text : shown rows [chip K_content is_ ["x"]] = [] /\ served rows [chip K_content is_ ["x"]] = Some ["s2"; "s9"].
Proof. by vm_compute. Qed.

(** An empty group in an [or] is skipped, a group that holds only an empty group lets every row pass; saving the bar drops both. *)
Definition nested_empty : list Filter := [createAdvancedFilter "adv" (Group "g" c_or [cond K_priority is_ ["1"]; Group "h" c_and [Group "k" c_and []]])].
Lemma empty_group_passes :
  shown rows nested_empty = ["s2"; "s9"] /\ served rows nested_empty = Some ["s2"; "s9"] /\ shown rows (savableFilters AdvancedFilter.Demo.names nested_empty) = ["s2"].
Proof. by vm_compute. Qed.

(** A release value with nothing behind its prefix: no row on the client, the rows without a release on the server.  A blank team is an error on the server. *)
Lemma bare_release : shown rows [chip K_releases is_ ["release:"]] = [] /\ served rows [chip K_releases is_ ["release:"]] = Some ["s2"; "s9"].
Proof. by vm_compute. Qed.
Lemma blank_team : shown rows [chip K_team is_ ["t"; " "]] = ["s2"; "s9"] /\ served rows [chip K_team is_ ["t"; " "]] = None.
Proof. by vm_compute. Qed.
End Demo.
