(* ===== verification/BackgroundReview.v ===== *)
(** * The queue of diffs of a review (web/src/lib/background-review-processor.ts)

    Opening a review asks for the diffs of its files.  The processor queues one job per file and
    variant, runs a few at a time, the most wanted first, and keeps the results for the views.  Several
    views share the job of a file; each holds a handle with which it can cancel the job or change its
    priority.

    The processor is a machine: [handle] takes a call of a view, a step of a running job (cut at its
    awaits) or the callback of a settled promise.  A promise has the id of its job.  What the diff computer yields and
    returns is part of the event; the computer itself is modelled in [DiffComputer]. *)

From Stdlib Require Import ZArith Lia Bool List.
From stdpp Require Import base list strings relations.
From S2P Require Import Prelude JsString JsMap DiffComputer.

Local Set Warnings "-register-all".

(** ** Keys *)

Definition variant_text (v : DiffVariant) : string := match v with basic => "basic" | structural => "structural" end.

Definition diffStoreKey (reviewId path : string) (v : DiffVariant) : string := reviewId +:+ "::" +:+ path +:+ "::" +:+ variant_text v.

Record ReviewFile := mkFile { path : string; patch : string }.
Record CodeReview := mkReview { review_id : string; files : list ReviewFile }.

(** ** State *)

Record QueueJob := mkJob { id : nat; parentId : string; job_key : string; priority : DiffPriority; file : ReviewFile; job_variant : DiffVariant; cancelled : bool }.

(** Where [runJob] stands: waiting for the contents, for the next snapshot (with the latest one), or returned. *)
Inductive Phase := Resolving | Iterating (latest : option ComputedFileDiff) | Returned.
Record Running := mkRunning { job : QueueJob; phase : Phase }.

Record PendingDiffUpdate := mkUpdate { update_key : string; diff : ComputedFileDiff }.

(** The handle of the view that made the job, of a view that shares its promise, and of one that joined a job of the queue. *)
Inductive Handle := Own (id : nat) (key : string) | Shared (key : string) | Joined (id : nat).

(** [settled] are the resolved promises, [finals] those whose [finally] has not run yet, [created] all of them, with the key of the file; [dropped] the jobs that were
    taken from the queue without being run; [emits] counts the notifications. *)
Record Processor := mkProcessor {
  store : list (string * ComputedFileDiff); pendingUpdates : list PendingDiffUpdate; pendingJobs : list QueueJob; running : list Running;
  active : Z; lastId : nat; processedReviewIds : list string; inFlightFile : list (string * nat); disposed : bool; engagedReviewId : option string;
  settled : list nat; finals : list (nat * string); created : list (nat * string); dropped : list nat; emits : nat }.
Definition set_store (v : list (string * ComputedFileDiff)) (p : Processor) : Processor := mkProcessor v (pendingUpdates p) (pendingJobs p) (running p) (active p) (lastId p) (processedReviewIds p) (inFlightFile p) (disposed p) (engagedReviewId p) (settled p) (finals p) (created p) (dropped p) (emits p).
Definition set_pendingUpdates (v : list PendingDiffUpdate) (p : Processor) : Processor := mkProcessor (store p) v (pendingJobs p) (running p) (active p) (lastId p) (processedReviewIds p) (inFlightFile p) (disposed p) (engagedReviewId p) (settled p) (finals p) (created p) (dropped p) (emits p).
Definition set_pendingJobs (v : list QueueJob) (p : Processor) : Processor := mkProcessor (store p) (pendingUpdates p) v (running p) (active p) (lastId p) (processedReviewIds p) (inFlightFile p) (disposed p) (engagedReviewId p) (settled p) (finals p) (created p) (dropped p) (emits p).
Definition set_running (v : list Running) (p : Processor) : Processor := mkProcessor (store p) (pendingUpdates p) (pendingJobs p) v (active p) (lastId p) (processedReviewIds p) (inFlightFile p) (disposed p) (engagedReviewId p) (settled p) (finals p) (created p) (dropped p) (emits p).
Definition set_active (v : Z) (p : Processor) : Processor := mkProcessor (store p) (pendingUpdates p) (pendingJobs p) (running p) v (lastId p) (processedReviewIds p) (inFlightFile p) (disposed p) (engagedReviewId p) (settled p) (finals p) (created p) (dropped p) (emits p).
Definition set_lastId (v : nat) (p : Processor) : Processor := mkProcessor (store p) (pendingUpdates p) (pendingJobs p) (running p) (active p) v (processedReviewIds p) (inFlightFile p) (disposed p) (engagedReviewId p) (settled p) (finals p) (created p) (dropped p) (emits p).
Definition set_processedReviewIds (v : list string) (p : Processor) : Processor := mkProcessor (store p) (pendingUpdates p) (pendingJobs p) (running p) (active p) (lastId p) v (inFlightFile p) (disposed p) (engagedReviewId p) (settled p) (finals p) (created p) (dropped p) (emits p).
Definition set_inFlightFile (v : list (string * nat)) (p : Processor) : Processor := mkProcessor (store p) (pendingUpdates p) (pendingJobs p) (running p) (active p) (lastId p) (processedReviewIds p) v (disposed p) (engagedReviewId p) (settled p) (finals p) (created p) (dropped p) (emits p).
Definition set_disposed (v : bool) (p : Processor) : Processor := mkProcessor (store p) (pendingUpdates p) (pendingJobs p) (running p) (active p) (lastId p) (processedReviewIds p) (inFlightFile p) v (engagedReviewId p) (settled p) (finals p) (created p) (dropped p) (emits p).
Definition set_engagedReviewId (v : option string) (p : Processor) : Processor := mkProcessor (store p) (pendingUpdates p) (pendingJobs p) (running p) (active p) (lastId p) (processedReviewIds p) (inFlightFile p) (disposed p) v (settled p) (finals p) (created p) (dropped p) (emits p).
Definition set_settled (v : list nat) (p : Processor) : Processor := mkProcessor (store p) (pendingUpdates p) (pendingJobs p) (running p) (active p) (lastId p) (processedReviewIds p) (inFlightFile p) (disposed p) (engagedReviewId p) v (finals p) (created p) (dropped p) (emits p).
Definition set_finals (v : list (nat * string)) (p : Processor) : Processor := mkProcessor (store p) (pendingUpdates p) (pendingJobs p) (running p) (active p) (lastId p) (processedReviewIds p) (inFlightFile p) (disposed p) (engagedReviewId p) (settled p) v (created p) (dropped p) (emits p).
Definition set_created (v : list (nat * string)) (p : Processor) : Processor := mkProcessor (store p) (pendingUpdates p) (pendingJobs p) (running p) (active p) (lastId p) (processedReviewIds p) (inFlightFile p) (disposed p) (engagedReviewId p) (settled p) (finals p) v (dropped p) (emits p).
Definition set_dropped (v : list nat) (p : Processor) : Processor := mkProcessor (store p) (pendingUpdates p) (pendingJobs p) (running p) (active p) (lastId p) (processedReviewIds p) (inFlightFile p) (disposed p) (engagedReviewId p) (settled p) (finals p) (created p) v (emits p).
Definition set_emits (v : nat) (p : Processor) : Processor := mkProcessor (store p) (pendingUpdates p) (pendingJobs p) (running p) (active p) (lastId p) (processedReviewIds p) (inFlightFile p) (disposed p) (engagedReviewId p) (settled p) (finals p) (created p) (dropped p) v.

Definition set_priority (v : DiffPriority) (j : QueueJob) : QueueJob := mkJob (id j) (parentId j) (job_key j) v (file j) (job_variant j) (cancelled j).
Definition mark_cancelled (j : QueueJob) : QueueJob := mkJob (id j) (parentId j) (job_key j) (priority j) (file j) (job_variant j) true.

(** ** Operations *)

Section Processor.
Context (options_concurrency : option Z) (preferStructural : bool) (contentResolver : bool).

Definition concurrency : Z := Z.max 1 (options_concurrency ?? 2%Z).

Definition new_processor : Processor := mkProcessor [] [] [] [] 0 0 [] [] false None [] [] [] [] 0.

Definition emit (p : Processor) : Processor := set_emits (S (emits p)) p.

(** A promise is resolved once; its [finally] runs later. *)
Definition settle (i : nat) (key : string) (p : Processor) : Processor :=
  if existsb (Nat.eqb i) (settled p) then p else set_finals (finals p ++ [(i, key)]) (set_settled (settled p ++ [i]) p).

(** [if (this.inFlightFile.get(key) === tracked) this.inFlightFile.delete(key)] *)
Definition run_finally (i : nat) (key : string) (p : Processor) : Processor :=
  let p1 := set_finals (List.filter (fun x => negb (Nat.eqb x.1 i)) (finals p)) p in
  match map_get key (inFlightFile p1) with
  | Some t => if Nat.eqb t i then set_inFlightFile (map_delete key (inFlightFile p1)) p1 else p1
  | None => p1
  end.

(** *** The store *)

Definition getComputedDiff (reviewId path : string) (v : DiffVariant) (p : Processor) : option ComputedFileDiff :=
  map_get (diffStoreKey reviewId path v) (store p).

Definition getReviewDiffs (reviewId : string) (p : Processor) : list ComputedFileDiff :=
  map snd (List.filter (fun e => startsWith (reviewId +:+ "::") e.1) (store p)).

Definition is_ready (d : option ComputedFileDiff) : bool := match d with Some d => match state d with ready => true | _ => false end | None => false end.

Definition areAllDiffsReady (review : CodeReview) (v : DiffVariant) (p : Processor) : bool :=
  forallb (fun f => is_ready (getComputedDiff (review_id review) (path f) v p)) (files review).

Definition applyPendingDiffUpdate (u : PendingDiffUpdate) (p : Processor) : Processor :=
  emit (set_pendingUpdates (List.filter (fun x => negb (update_key x =s update_key u)) (pendingUpdates p)) (set_store (map_set (update_key u) (diff u) (store p)) p)).

Definition flushDiffUpdates (p : Processor) : Processor :=
  let batch := pendingUpdates p in
  let p1 := set_store (fold_left (fun m u => map_set (update_key u) (diff u) m) batch (store p)) (set_pendingUpdates [] p) in
  match batch with [] => p1 | _ => emit p1 end.

Fixpoint replace_at (i : nat) (u : PendingDiffUpdate) (l : list PendingDiffUpdate) : list PendingDiffUpdate :=
  match l, i with [], _ => [] | _ :: r, O => u :: r | x :: r, S i => x :: replace_at i u r end.

Definition queueUpdate (u : PendingDiffUpdate) (p : Processor) : Processor :=
  let l := match findIndex (fun x => update_key x =s update_key u) (pendingUpdates p) with
           | Some i => replace_at i u (pendingUpdates p)
           | None => pendingUpdates p ++ [u]
           end in
  applyPendingDiffUpdate u (set_pendingUpdates l p).

(** *** Running jobs *)

Definition blank (j : QueueJob) (st : DiffComputeState) (err : option string) (now : Z) : ComputedFileDiff := {|
  key := job_key j; filename := path (file j); variant := job_variant j; state := st; language := "Text";
  hunks := []; lines := []; splitRows := []; commentableOriginal := []; commentableModified := [];
  additions := 0; deletions := 0; diffError := err; computedAt := now; fromCache := None |}.

Definition set_phase (i : nat) (f : Phase) (p : Processor) : Processor :=
  set_running (map (fun r => if Nat.eqb (id (job r)) i then mkRunning (job r) f else r) (running p)) p.

(** After the contents: the job shows that it computes, and asks for snapshots. *)
Definition seed (now : Z) (j : QueueJob) (p : Processor) : Processor :=
  set_phase (id j) (Iterating None) (queueUpdate (mkUpdate (job_key j) (blank j computing None now)) p).

Definition fails (now : Z) (j : QueueJob) (message : string) (p : Processor) : Processor :=
  set_phase (id j) Returned (settle (id j) (job_key j) (applyPendingDiffUpdate (mkUpdate (job_key j) (blank j error (Some message) now)) p)).

(** After the loop; [sync] is what [computeSync] does when it is called. *)
Definition finish (now : Z) (j : QueueJob) (latest : option ComputedFileDiff) (sync : ComputedFileDiff + string) (p : Processor) : Processor :=
  if is_ready latest then set_phase (id j) Returned (settle (id j) (job_key j) (flushDiffUpdates p))
  else match sync with
       | inl d => set_phase (id j) Returned (settle (id j) (job_key j) (applyPendingDiffUpdate (mkUpdate (job_key j) d) p))
       | inr message => fails now j message p
       end.

(** The start of [runJob], up to its first await. *)
Definition runJob (now : Z) (j : QueueJob) (p : Processor) : Processor :=
  let waits := match job_variant j with structural => contentResolver | basic => false end in
  let p1 := set_running (running p ++ [mkRunning j Resolving]) p in
  if waits then p1 else seed now j p1.

(** *** The queue *)

Definition score (p : Processor) (j : QueueJob) : Z :=
  ((match priority j with high => 2 | low => 0 end) + (match engagedReviewId p with Some r => if parentId j =s r then 1 else 0 | None => 0 end))%Z.

Fixpoint best_from (p : Processor) (l : list QueueJob) (i best : nat) (cur : Z) : nat :=
  match l with
  | [] => best
  | j :: r => if (cur <? score p j)%Z then best_from p r (S i) i (score p j) else best_from p r (S i) best cur
  end.

(** [None] stands for the result -1. *)
Definition bestPendingIndex (p : Processor) : option nat :=
  match pendingJobs p with [] => None | j :: r => Some (best_from p r 1 0 (score p j)) end.

Definition limit (p : Processor) : Z := match engagedReviewId p with Some r => if truthy r then concurrency + 1 else concurrency | None => concurrency end.

(** The loop of [schedule]; every turn takes a job from the queue. *)
Fixpoint schedule_loop (fuel : nat) (now : Z) (p : Processor) : Processor :=
  match fuel with
  | O => p
  | S fuel =>
      if (active p <? limit p)%Z then
        match bestPendingIndex p with
        | None => p
        | Some i =>
            match pendingJobs p !! i with
            | None => p
            | Some j =>
                let p1 := set_pendingJobs (delete i (pendingJobs p)) p in
                if cancelled j then schedule_loop fuel now (set_dropped (dropped p1 ++ [id j]) p1)
                else schedule_loop fuel now (runJob now j (set_active (active p1 + 1) p1))
            end
        end
      else p
  end.

Definition schedule (now : Z) (p : Processor) : Processor :=
  if disposed p then p else schedule_loop (S (length (pendingJobs p))) now p.

Definition update_job (i : nat) (f : QueueJob -> QueueJob) (p : Processor) : Processor :=
  set_running (map (fun r => if Nat.eqb (id (job r)) i then mkRunning (f (job r)) (phase r) else r) (running p))
    (set_pendingJobs (map (fun j => if Nat.eqb (id j) i then f j else j) (pendingJobs p)) p).

(** [this.pendingJobs.find(item => item.key === key)], changed. *)
Definition pending_with (key : string) (p : Processor) : option QueueJob := List.find (fun j => job_key j =s key) (pendingJobs p).

Definition enqueueFile (now : Z) (review : CodeReview) (f : ReviewFile) (v : DiffVariant) (prio : DiffPriority) (p : Processor) : Handle * Processor :=
  let key := diffStoreKey (review_id review) (path f) v in
  match map_get key (inFlightFile p) with
  | Some _ => (Shared key, set_lastId (S (lastId p)) p)
  | None =>
      match pending_with key p with
      | Some j => (Joined (id j), match prio with high => update_job (id j) (set_priority high) p | low => p end)
      | None =>
          let i := S (lastId p) in
          let p1 := set_created (created p ++ [(i, key)]) (set_inFlightFile (map_set key i (inFlightFile p)) (set_lastId i p)) in
          let j := mkJob i (review_id review) key prio f v false in
          (Own i key, schedule now (set_pendingJobs (pendingJobs p1 ++ [j]) p1))
      end
  end.

Definition cancel (h : Handle) (p : Processor) : Processor :=
  match h with
  | Own i key =>
      let p1 := update_job i mark_cancelled p in
      let queued := existsb (fun j => Nat.eqb (id j) i) (pendingJobs p1) in
      let p2 := set_pendingJobs (List.filter (fun j => negb (Nat.eqb (id j) i)) (pendingJobs p1)) p1 in
      settle i key (if queued then set_inFlightFile (map_delete key (inFlightFile p2)) p2 else p2)
  | Shared key => match pending_with key p with Some j => update_job (id j) mark_cancelled p | None => p end
  | Joined i => update_job i mark_cancelled p
  end.

Definition setPriority (now : Z) (h : Handle) (next : DiffPriority) (p : Processor) : Processor :=
  match h with
  | Own i _ | Joined i => schedule now (update_job i (set_priority next) p)
  | Shared key => schedule now (match pending_with key p with Some j => update_job (id j) (set_priority next) p | None => p end)
  end.

Definition engage (now : Z) (reviewId : string) (p : Processor) : Processor :=
  let p1 := set_engagedReviewId (Some reviewId) p in
  schedule now (set_pendingJobs (map (fun j => if parentId j =s reviewId then set_priority high j else j) (pendingJobs p1)) p1).

Definition disengage (reviewId : option string) (p : Processor) : Processor :=
  let given := match reviewId with Some r => truthy r | None => false end in
  let same := match reviewId, engagedReviewId p with Some r, Some e => r =s e | _, _ => false end in
  if negb given || same then set_engagedReviewId None p else p.

Definition default_priority (reviewId : string) (p : Processor) : DiffPriority :=
  match engagedReviewId p with Some e => if e =s reviewId then high else low | None => low end.

(** The loops of [prefetchReview]; the handle of the whole is the list of the handles of the files. *)
Definition prefetch_one (now : Z) (review : CodeReview) (prio : DiffPriority) (acc : list Handle * Processor) (x : ReviewFile * DiffVariant) : list Handle * Processor :=
  match x.2 with
  | structural => if preferStructural then let (h, p) := enqueueFile now review x.1 x.2 prio acc.2 in (acc.1 ++ [h], p) else acc
  | basic => let (h, p) := enqueueFile now review x.1 x.2 prio acc.2 in (acc.1 ++ [h], p)
  end.

Definition prefetchReview (now : Z) (review : CodeReview) (prio : option DiffPriority) (variants : option (list DiffVariant)) (p : Processor) : list Handle * Processor :=
  let prio := prio ?? default_priority (review_id review) p in
  let variants := variants ?? [basic; structural] in
  let (handles, p1) := fold_left (prefetch_one now review prio) (list_prod (files review) variants) ([], p) in
  let known := existsb (String.eqb (review_id review)) (processedReviewIds p1) in
  (handles, set_lastId (S (lastId p1)) (if known then p1 else set_processedReviewIds (processedReviewIds p1 ++ [review_id review]) p1)).

(** The result is the diff that is there, or the handle to wait for. *)
Definition ensureFileProcessed (now : Z) (review : CodeReview) (f : ReviewFile) (v : DiffVariant) (p : Processor) : (ComputedFileDiff + Handle) * Processor :=
  let existing := map_get (diffStoreKey (review_id review) (path f) v) (store p) in
  match existing with
  | Some d => if is_ready existing then (inl d, p)
              else let (h, p1) := enqueueFile now review f v (default_priority (review_id review) p) p in (inr h, p1)
  | None => let (h, p1) := enqueueFile now review f v (default_priority (review_id review) p) p in (inr h, p1)
  end.

Definition dispose (p : Processor) : Processor :=
  let p1 := fold_left (fun p j => settle (id j) (job_key j) p) (pendingJobs p) (set_disposed true p) in
  set_pendingUpdates [] (set_store [] (set_pendingJobs [] p1)).

(** *** Events *)

Inductive Input :=
| IEngage (reviewId : string) | IDisengage (reviewId : option string)
| IPrefetch (review : CodeReview) (prio : option DiffPriority) (variants : option (list DiffVariant))
| IEnsure (review : CodeReview) (f : ReviewFile) (v : DiffVariant)
| ICancel (h : Handle) | ISetPriority (h : Handle) (next : DiffPriority) | IDispose
| IContents (i : nat)
| ISnapshot (i : nat) (d : ComputedFileDiff) (sync : ComputedFileDiff + string)
| IEnd (i : nat) (sync : ComputedFileDiff + string) | IThrow (i : nat) (message : string)
| IReturned (i : nat) | IFinally (i : nat).

Definition find_running (i : nat) (p : Processor) : option Running := List.find (fun r => Nat.eqb (id (job r)) i) (running p).

Definition handle (now : Z) (i : Input) (p : Processor) : Processor :=
  match i with
  | IEngage r => engage now r p
  | IDisengage r => disengage r p
  | IPrefetch review prio variants => (prefetchReview now review prio variants p).2
  | IEnsure review f v => (ensureFileProcessed now review f v p).2
  | ICancel h => cancel h p
  | ISetPriority h next => setPriority now h next p
  | IDispose => dispose p
  | IContents i =>
      match find_running i p with
      | Some (mkRunning j Resolving) => seed now j p
      | _ => p
      end
  | ISnapshot i d sync =>
      match find_running i p with
      | Some (mkRunning j (Iterating latest)) =>
          if cancelled j then finish now j latest sync p
          else queueUpdate (mkUpdate (job_key j) d) (set_phase i (Iterating (Some d)) p)
      | _ => p
      end
  | IEnd i sync =>
      match find_running i p with
      | Some (mkRunning j (Iterating latest)) => finish now j latest sync p
      | _ => p
      end
  | IThrow i message =>
      match find_running i p with
      | Some (mkRunning j (Iterating _)) => fails now j message p
      | _ => p
      end
  | IReturned i =>
      match find_running i p with
      | Some (mkRunning j Returned) =>
          schedule now (set_active (active p - 1) (set_running (List.filter (fun r => negb (Nat.eqb (id (job r)) i)) (running p)) p))
      | _ => p
      end
  | IFinally i => match List.find (fun x => Nat.eqb x.1 i) (finals p) with Some (_, key) => run_finally i key p | None => p end
  end.
(** ** The best job *)

(** [i] is the first of the jobs with the highest score. *)
Definition first_best (p : Processor) (l : list QueueJob) (i : nat) : Prop :=
  exists j, l !! i = Some j /\ (forall k j', l !! k = Some j' -> (score p j' <= score p j)%Z)
            /\ (forall k j', (k < i)%nat -> l !! k = Some j' -> (score p j' < score p j)%Z).

Lemma best_from_first p seen rest best cur :
  first_best p seen best -> (forall j, seen !! best = Some j -> score p j = cur) ->
  first_best p (seen ++ rest) (best_from p rest (length seen) best cur).
Proof.
  revert seen best cur. induction rest as [|j rest IH]; intros seen best cur Hb Hc; [by rewrite app_nil_r|]. cbn [best_from].
  replace (seen ++ j :: rest) with ((seen ++ [j]) ++ rest) by (by rewrite <- app_assoc).
  replace (S (length seen)) with (length (seen ++ [j])) by (rewrite length_app; cbn; lia).
  destruct Hb as (b & Eb & Hmax & Hfirst). pose proof (Hc b Eb) as Hcb.
  destruct (Z.ltb_spec cur (score p j)) as [Hlt|Hge].
  - apply IH; [|intros x Hx; rewrite lookup_app_r in Hx by lia; rewrite Nat.sub_diag in Hx; by injection Hx as ->].
    exists j. split; [rewrite lookup_app_r by lia; by rewrite Nat.sub_diag|]. split.
    + intros k j' [Hk|[_ Hk]]%lookup_app_Some; [specialize (Hmax k j' Hk); lia|]. apply list_lookup_singleton_Some in Hk as [_ <-]. lia.
    + intros k j' Hlt' [Hk|[Hk _]]%lookup_app_Some; [specialize (Hmax k j' Hk); lia | lia].
  - pose proof (lookup_lt_Some _ _ _ Eb) as Hbl. apply IH; [|intros x Hx; rewrite lookup_app_l in Hx by lia; auto].
    exists b. split; [by rewrite lookup_app_l|]. split.
    + intros k j' [Hk|[_ Hk]]%lookup_app_Some; [by apply (Hmax k)|]. apply list_lookup_singleton_Some in Hk as [_ <-]. lia.
    + intros k j' Hlt' [Hk|[Hk _]]%lookup_app_Some; [by apply (Hfirst k) | lia].
Qed.

(** The job that is taken next has the highest score, and of these it waits longest. *)
Lemma best_first p i : bestPendingIndex p = Some i -> first_best p (pendingJobs p) i.
Proof.
  unfold bestPendingIndex. destruct (pendingJobs p) as [|j rest]; [done|]. intros [= <-].
  apply (best_from_first p [j] rest 0 (score p j)); [|by intros x [= ->]].
  exists j. split; [done|]. split; [intros [|k] j' Hk; [by injection Hk as -> | done] | intros k j' Hk; lia].
Qed.

Lemma best_in p i : bestPendingIndex p = Some i -> is_Some (pendingJobs p !! i).
Proof. intros (j & Hj & _)%best_first. by exists j. Qed.

(** ** The invariant *)

Definition rid (r : Running) : nat := id (job r).
Definition others (i : nat) (l : list QueueJob) : list QueueJob := List.filter (fun j => negb (Nat.eqb (id j) i)) l.

(** The invariant, of the fields it speaks of. *)
Record core (pend : list QueueJob) (run : list Running) (act : Z) (last : nat) (flight : list (string * nat)) (sett : list nat)
  (fin : list (nat * string)) (made : list (nat * string)) (drop : list nat) (ups : list PendingDiffUpdate) : Prop := {
  c_active : act = Z.of_nat (length run);
  c_room : (act <= concurrency + 1)%Z;
  c_nodup : NoDup (map id pend ++ map rid run);
  c_made : NoDup (map fst made) /\ forall i k, In (i, k) made -> (i <= last)%nat;
  c_jobs : (forall j, In j pend -> In (id j, job_key j) made) /\ (forall r, In r run -> In (rid r, job_key (job r)) made);
  c_settled : (forall i, In i sett -> In i (map fst made)) /\ (forall i k, In (i, k) fin -> In (i, k) made /\ In i sett);
  c_pending : forall j, In j pend -> ~ In (id j) sett /\ map_get (job_key j) flight = Some (id j);
  c_running : forall r, In r run -> phase r = Returned -> In (rid r) sett;
  c_open : forall i k, In (i, k) made -> In i sett \/ In i (map id pend) \/ In i (map rid run) \/ In i drop;
  c_flight : forall k i, map_get k flight = Some i -> In (i, k) made /\ (In i sett -> In (i, k) fin);
  c_keys : NoDup (map_keys flight);
  c_updates : ups = [] }.

Definition wf (p : Processor) : Prop :=
  core (pendingJobs p) (running p) (active p) (lastId p) (inFlightFile p) (settled p) (finals p) (created p) (dropped p) (pendingUpdates p).

(** No slot is free while a job waits. *)
Definition busy (p : Processor) : Prop := disposed p = false -> pendingJobs p = [] \/ (limit p <= active p)%Z.

Lemma made_key (made : list (nat * string)) i k k' : NoDup (map fst made) -> In (i, k) made -> In (i, k') made -> k = k'.
Proof.
  induction made as [|[i' k0] l IH]; [done|]. cbn. intros [Hn Hd]%NoDup_cons [[= -> ->]|Ha] [[= E]|Hb]; subst; try done; try (by apply IH);
    exfalso; apply Hn, list_elem_of_In; [by apply (in_map fst) in Hb | by apply (in_map fst) in Ha].
Qed.

Lemma others_In i l j : In j (others i l) <-> In j l /\ id j <> i.
Proof. unfold others. rewrite filter_In, negb_true_iff, Nat.eqb_neq. done. Qed.

Lemma others_ids i l x : In x (map id (others i l)) <-> In x (map id l) /\ x <> i.
Proof.
  rewrite !in_map_iff. split; [intros (j & <- & [Hj Hi]%others_In); eauto|]. intros [(j & <- & Hj) Hi]. exists j. split; [done|]. by apply others_In.
Qed.

Lemma others_same i l : ~ In i (map id l) -> others i l = l.
Proof. intros Hn. apply filter_all, List.Forall_forall. intros j Hj. apply negb_true_iff, Nat.eqb_neq. intros <-. apply Hn. by apply in_map. Qed.

Lemma others_sublist i l : sublist (map id (others i l)) (map id l).
Proof. induction l as [|j l IH]; [done|]. cbn. destruct (negb _); cbn; [by constructor | by constructor]. Qed.

Lemma settle_fields i k p :
  settled (settle i k p) = (if existsb (Nat.eqb i) (settled p) then settled p else settled p ++ [i])
  /\ finals (settle i k p) = (if existsb (Nat.eqb i) (settled p) then finals p else finals p ++ [(i, k)]).
Proof. unfold settle. by destruct (existsb _ _). Qed.

Lemma existsb_In i l : existsb (Nat.eqb i) l = true <-> In i l.
Proof. rewrite existsb_exists. split; [intros (x & Hx & ->%Nat.eqb_eq); done | intros Hi; exists i; split; [done | apply Nat.eqb_refl]]. Qed.

(** A promise of the processor is settled, and its job leaves the queue. *)
Lemma settle_core i k pend run act last flight sett fin made drop ups :
  core pend run act last flight sett fin made drop ups -> In (i, k) made ->
  core (others i pend) run act last flight (if existsb (Nat.eqb i) sett then sett else sett ++ [i])
    (if existsb (Nat.eqb i) sett then fin else fin ++ [(i, k)]) made drop ups.
Proof.
  intros [H1 H2 H3 H4 H5 H6 H7 H8 H9 H10 H11 H12] Hm.
  set (sett' := if existsb (Nat.eqb i) sett then sett else sett ++ [i]).
  assert (Hs : forall x, In x sett' <-> In x sett \/ x = i).
  { intros x. subst sett'. destruct (existsb (Nat.eqb i) sett) eqn:E; [apply existsb_In in E; split; [by left | intros [?| ->]; done]|].
    rewrite in_app_iff. cbn. split; [intros [?|[->|[]]]; auto | intros [?| ->]; auto]. }
  split; try done.
  - apply NoDup_app in H3 as (Ha & Hb & Hc). apply NoDup_app. split; [by eapply sublist_NoDup; [|apply others_sublist]|]. split; [|done].
    intros x Hx. apply Hb. apply list_elem_of_In. apply list_elem_of_In, others_ids in Hx. apply Hx.
  - split; [|apply H5]. intros j [Hj _]%others_In. by apply H5.
  - split; [intros x [Hx| ->]%Hs; [by apply H6 | by apply (in_map fst) in Hm]|]. intros x k' Hx.
    assert (Hx' : In (x, k') fin \/ (x = i /\ k' = k)) by (destruct (existsb _ _); [by left | apply in_app_iff in Hx as [?|[[= <- <-]|[]]]; auto]).
    destruct Hx' as [Hx'|[-> ->]]; [destruct (proj2 H6 _ _ Hx'); split; [done | apply Hs; by left] | split; [done | apply Hs; by right]].
  - intros j [Hj Hi]%others_In. destruct (H7 j Hj) as [Hn Hf]. split; [|done]. intros [?|?]%Hs; done.
  - intros r Hr Hp. apply Hs. left. by apply H8.
  - intros x k' Hx. destruct (decide (x = i)) as [->|Hne]; [left; apply Hs; by right|]. destruct (H9 x k' Hx) as [?|[?|[?|?]]]; auto; [left; apply Hs; by left|].
    right. left. apply others_ids. done.
  - intros k' x Hf. destruct (H10 k' x Hf) as [Hin Hfin]. split; [done|]. intros Hx. destruct (existsb (Nat.eqb i) sett) eqn:E; [by apply Hfin|].
    apply in_app_iff. apply Hs in Hx as [Hx| ->]; [left; by apply Hfin | right; left]. f_equal. by eapply made_key; [apply H4 | |].
Qed.

(** A file is no longer in flight. *)
Lemma unflight_core k pend run act last flight sett fin made drop ups :
  core pend run act last flight sett fin made drop ups -> (forall j, In j pend -> job_key j <> k) ->
  core pend run act last (map_delete k flight) sett fin made drop ups.
Proof.
  intros [H1 H2 H3 H4 H5 H6 H7 H8 H9 H10 H11 H12] Hk. split; try done.
  - intros j Hj. destruct (H7 j Hj) as [Hn Hf]. split; [done|]. rewrite map_get_delete_ne; [done | by apply Hk].
  - intros k' i Hf. apply H10. destruct (decide (k' = k)) as [->|Hne]; [by rewrite map_get_delete_eq in Hf | by rewrite map_get_delete_ne in Hf].
  - by apply map_delete_NoDup.
Qed.

Lemma apply_update_wf u p : wf p -> wf (applyPendingDiffUpdate u p).
Proof. intros [H1 H2 H3 H4 H5 H6 H7 H8 H9 H10 H11 H12]. split; try done. cbn. by rewrite H12. Qed.

Lemma flush_updates_wf p : wf p -> flushDiffUpdates p = p.
Proof. intros Hw. unfold flushDiffUpdates. rewrite (c_updates _ _ _ _ _ _ _ _ _ _ Hw). cbn. pose proof (c_updates _ _ _ _ _ _ _ _ _ _ Hw) as E. destruct p; cbn in *. by rewrite E. Qed.

Lemma queue_update_wf u p : wf p -> wf (queueUpdate u p).
Proof.
  intros [H1 H2 H3 H4 H5 H6 H7 H8 H9 H10 H11 H12]. unfold queueUpdate. split; try done. cbn. rewrite H12. cbn. by rewrite String.eqb_refl.
Qed.
(** Jobs may change in everything but their id and key; a job that returned is settled. *)
Lemma relabel_core f g pend run act last flight sett fin made drop ups :
  core pend run act last flight sett fin made drop ups ->
  (forall j, id (f j) = id j /\ job_key (f j) = job_key j) ->
  (forall r, rid (g r) = rid r /\ job_key (job (g r)) = job_key (job r) /\ (phase (g r) = Returned -> phase r = Returned \/ In (rid r) sett)) ->
  core (map f pend) (map g run) act last flight sett fin made drop ups.
Proof.
  intros [H1 H2 H3 H4 H5 H6 H7 H8 H9 H10 H11 H12] Hf Hg.
  assert (Ep : map id (map f pend) = map id pend) by (rewrite map_map; apply map_ext; intros j; apply Hf).
  assert (Er : map rid (map g run) = map rid run) by (rewrite map_map; apply map_ext; intros r; apply Hg).
  split; rewrite ?Ep, ?Er; try done.
  - by rewrite length_map.
  - split; [intros j (j' & <- & Hj)%in_map_iff; destruct (Hf j') as [-> ->]; by apply H5|].
    intros r (r' & <- & Hr)%in_map_iff. destruct (Hg r') as (-> & -> & _). by apply H5.
  - intros j (j' & <- & Hj)%in_map_iff. destruct (Hf j') as [-> ->]. by apply H7.
  - intros r (r' & <- & Hr)%in_map_iff Hp. destruct (Hg r') as (-> & _ & Hq). destruct (Hq Hp); [by apply H8 | done].
Qed.

Lemma update_job_wf i f p : (forall j, id (f j) = id j /\ job_key (f j) = job_key j) -> wf p -> wf (update_job i f p).
Proof.
  intros Hf Hw. apply (relabel_core (fun j => if Nat.eqb (id j) i then f j else j)
    (fun r => if Nat.eqb (id (job r)) i then mkRunning (f (job r)) (phase r) else r)); [exact Hw | |].
  - intros j. by destruct (Nat.eqb _ _).
  - intros r. unfold rid. destruct (Nat.eqb _ _); cbn; [destruct (Hf (job r)) as [-> ->]|]; auto.
Qed.

Lemma set_phase_wf i f p : wf p -> (f = Returned -> In i (settled p)) -> wf (set_phase i f p).
Proof.
  intros Hw Hf. unfold wf, set_phase. cbn. replace (pendingJobs p) with (map (fun j : QueueJob => j) (pendingJobs p)) by apply map_id.
  apply (relabel_core (fun j => j) (fun r => if Nat.eqb (id (job r)) i then mkRunning (job r) f else r)); [exact Hw | done |].
  intros r. unfold rid. destruct (Nat.eqb _ _) eqn:E; cbn; [|auto]. apply Nat.eqb_eq in E. split; [done|]. split; [done|]. intros Hr. right. rewrite E. by apply Hf.
Qed.

Lemma seed_wf now j p : wf p -> wf (seed now j p).
Proof. intros Hw. apply set_phase_wf; [by apply queue_update_wf | done]. Qed.

(** A job leaves the queue, to be run or to be dropped. *)
Lemma taken_core i j run' act' drop' pend run act last flight sett fin made drop ups :
  core pend run act last flight sett fin made drop ups -> pend !! i = Some j ->
  (run' = run ++ [mkRunning j Resolving] /\ act' = (act + 1)%Z /\ (act + 1 <= concurrency + 1)%Z /\ drop' = drop)
  \/ (run' = run /\ act' = act /\ drop' = drop ++ [id j]) ->
  core (delete i pend) run' act' last flight sett fin made drop' ups.
Proof.
  intros [H1 H2 H3 H4 H5 H6 H7 H8 H9 H10 H11 H12] Hj Hc. pose proof (delete_Permutation pend i j Hj) as Hp.
  assert (Hin : forall x, In x (delete i pend) -> In x pend) by (intros x Hx; apply (Permutation_in _ (Permutation_sym Hp)); by right).
  assert (Hjin : In j pend) by (by eapply list_elem_of_In, list_elem_of_lookup_2).
  assert (Hids : map id pend ≡ₚ id j :: map id (delete i pend)) by exact (Permutation_map id Hp).
  assert (Hsp : forall x, In x (map id pend) -> x = id j \/ In x (map id (delete i pend))).
  { intros x Hx. apply (Permutation_in _ Hids) in Hx as [<-|Hx]; auto. }
  assert (Hn : NoDup (map id (delete i pend) ++ map rid run') ).
  { rewrite Hids in H3. destruct Hc as [(-> & _)|(-> & _)]; [|by apply NoDup_cons in H3 as [_ ?]].
    rewrite map_app. cbn. rewrite app_assoc. by rewrite (Permutation_app_comm (_ ++ _) [_]). }
  split; try done.
  - destruct Hc as [(-> & -> & _)|(-> & -> & _)]; [rewrite length_app; cbn; lia | done].
  - destruct Hc as [(-> & -> & ? & _)|(-> & -> & _)]; lia.
  - split; [intros x Hx; by apply H5, Hin|]. intros r Hr. destruct Hc as [(-> & _)|(-> & _)]; [|by apply H5].
    apply in_app_iff in Hr as [Hr|[<-|[]]]; [by apply H5 | exact (proj1 H5 j Hjin)].
  - intros x Hx. by apply H7, Hin.
  - intros r Hr. destruct Hc as [(-> & _)|(-> & _)]; [|by apply H8]. apply in_app_iff in Hr as [Hr|[<-|[]]]; [by apply H8 | done].
  - intros x k Hx. destruct (H9 x k Hx) as [?|[Hq|[?|?]]]; [by left | | |].
    + apply Hsp in Hq as [->|?]; [|auto]. destruct Hc as [(-> & _)|(_ & _ & ->)].
      * right. right. left. rewrite map_app. apply in_app_iff. right. by left.
      * do 3 right. apply in_app_iff. right. by left.
    + right. right. left. destruct Hc as [(-> & _)|(-> & _)]; [rewrite map_app; apply in_app_iff; by left | done].
    + do 3 right. destruct Hc as [(_ & _ & _ & ->)|(_ & _ & ->)]; [done | apply in_app_iff; by left].
Qed.

Lemma runJob_wf now i j p : wf p -> pendingJobs p !! i = Some j -> (active p < concurrency + 1)%Z ->
  wf (runJob now j (set_active (active p + 1) (set_pendingJobs (delete i (pendingJobs p)) p))).
Proof.
  intros Hw Hj Ha. unfold runJob. cbv zeta.
  match goal with |- wf (if _ then ?q else _) => assert (Hq : wf q) end.
  { apply (taken_core i j _ _ _ _ _ _ _ _ _ _ _ _ _ Hw Hj). left. split; [done|]. split; [done|]. split; [lia | done]. }
  destruct (match job_variant j with basic => false | structural => contentResolver end); [done | by apply seed_wf].
Qed.

Lemma runJob_rest now j p : pendingJobs (runJob now j p) = pendingJobs p /\ active (runJob now j p) = active p
  /\ engagedReviewId (runJob now j p) = engagedReviewId p /\ disposed (runJob now j p) = disposed p.
Proof. unfold runJob. by destruct (match job_variant j with basic => false | structural => contentResolver end). Qed.

Lemma limit_room p : (limit p <= concurrency + 1)%Z.
Proof. unfold limit. destruct (engagedReviewId p) as [r|]; [destruct (truthy r)|]; lia. Qed.

Lemma schedule_loop_wf fuel now p : wf p -> (length (pendingJobs p) < fuel)%nat ->
  let q := schedule_loop fuel now p in
  wf q /\ (pendingJobs q = [] \/ (limit q <= active q)%Z) /\ engagedReviewId q = engagedReviewId p /\ disposed q = disposed p.
Proof.
  revert p. induction fuel as [|fuel IH]; intros p Hw Hl; [lia|]. cbn [schedule_loop].
  destruct (Z.ltb_spec (active p) (limit p)) as [Ha|Ha]; [|split; [done|]; split; [by right | done]].
  destruct (bestPendingIndex p) as [i|] eqn:Eb; [|split; [done|]; split; [left; unfold bestPendingIndex in Eb; by destruct (pendingJobs p) | done]].
  destruct (pendingJobs p !! i) as [j|] eqn:Ej; [|by apply best_in in Eb as [j E]; rewrite E in Ej].
  pose proof (lookup_lt_Some _ _ _ Ej) as Hi. assert (Hd : length (delete i (pendingJobs p)) = (length (pendingJobs p) - 1)%nat) by (apply length_delete; by exists j).
  cbv zeta. destruct (cancelled j).
  - match goal with |- wf (schedule_loop _ _ ?r) /\ _ => destruct (IH r) as (I1 & I2 & I3 & I4) end; [|cbn; lia | done].
    apply (taken_core i j _ _ _ _ _ _ _ _ _ _ _ _ _ Hw Ej). right. done.
  - match goal with |- wf (schedule_loop _ _ (runJob _ _ ?r)) /\ _ => destruct (runJob_rest now j r) as (R1 & R2 & R3 & R4) end.
    match goal with |- wf (schedule_loop _ _ ?r) /\ _ => destruct (IH r) as (I1 & I2 & I3 & I4) end.
    + apply (runJob_wf now i j p); [done | done |]. pose proof (limit_room p). lia.
    + rewrite R1. cbn. lia.
    + split; [done|]. split; [done|]. split; [by rewrite I3, R3 | by rewrite I4, R4].
Qed.

Lemma schedule_inv now p : wf p -> wf (schedule now p) /\ busy (schedule now p).
Proof.
  intros Hw. unfold schedule, busy. destruct (disposed p) eqn:Ed; [split; [done | by rewrite Ed]|].
  destruct (schedule_loop_wf (S (length (pendingJobs p))) now p Hw ltac:(lia)) as (H1 & H2 & _). auto.
Qed.
(** ** The events keep the invariant *)

Definition inv (p : Processor) : Prop := wf p /\ busy p.

(** The fields [busy] looks at. *)
Definition view (p : Processor) : list QueueJob * Z * bool * option string := (pendingJobs p, active p, disposed p, engagedReviewId p).

Lemma busy_view p q : view q = view p -> busy p -> busy q.
Proof. unfold view, busy, limit. intros [= -> -> -> ->]. done. Qed.

Lemma settle_view i k p : view (settle i k p) = view p.
Proof. unfold settle. by destruct (existsb _ _). Qed.

Lemma settle_job_wf i k p pend :
  core pend (running p) (active p) (lastId p) (inFlightFile p) (settled p) (finals p) (created p) (dropped p) (pendingUpdates p) ->
  In (i, k) (created p) -> pendingJobs p = others i pend -> wf (settle i k p).
Proof.
  intros Hc Hm Hp. pose proof (settle_core i k _ _ _ _ _ _ _ _ _ _ Hc Hm) as Hs. rewrite <- Hp in Hs.
  unfold settle. by destruct (existsb (Nat.eqb i) (settled p)).
Qed.

Lemma settled_In i k p : In i (settled (settle i k p)).
Proof. unfold settle. destruct (existsb _ _) eqn:E; [by apply existsb_In | cbn; apply in_app_iff; right; by left]. Qed.

Lemma pending_with_In key p j : pending_with key p = Some j -> In j (pendingJobs p) /\ job_key j = key.
Proof. intros [H1 H2]%find_some. apply String.eqb_eq in H2. done. Qed.

(** A job that waits is in flight: no second job is made for its file, and none is joined in the queue. *)
Lemma pending_in_flight p key j : wf p -> pending_with key p = Some j -> map_get key (inFlightFile p) = Some (id j).
Proof. intros Hw [Hj <-]%pending_with_In. by apply (c_pending _ _ _ _ _ _ _ _ _ _ Hw). Qed.

Lemma last_wf n p : wf p -> (lastId p <= n)%nat -> wf (set_lastId n p).
Proof. intros [H1 H2 H3 H4 H5 H6 H7 H8 H9 H10 H11 H12] Hn. split; try done. split; [apply H4|]. intros i k Hi. destruct H4 as [_ H4]. specialize (H4 i k Hi). cbn. lia. Qed.

Lemma new_job_wf review f v prio p : let key := diffStoreKey (review_id review) (path f) v in let i := S (lastId p) in
  wf p -> map_get key (inFlightFile p) = None ->
  wf (set_pendingJobs (pendingJobs p ++ [mkJob i (review_id review) key prio f v false])
       (set_created (created p ++ [(i, key)]) (set_inFlightFile (map_set key i (inFlightFile p)) (set_lastId i p)))).
Proof.
  intros key i [H1 H2 H3 H4 H5 H6 H7 H8 H9 H10 H11 H12] Hf.
  assert (Hfresh : forall x, In x (map fst (created p)) -> x <> i).
  { intros x ([y k] & <- & Hx)%in_map_iff. apply H4 in Hx. cbn. subst i. lia. }
  assert (Hki : key ∉ map_keys (inFlightFile p)) by (by apply map_get_None).
  split; cbn; try done.
  - rewrite map_app. cbn. rewrite <- app_assoc. cbn. rewrite <- Permutation_middle. apply NoDup_cons. split; [|done].
    intros [(j & E & Hj)%in_map_iff|(r & E & Hr)%in_map_iff]%list_elem_of_In%in_app_iff; apply (Hfresh i); try done; rewrite <- E;
      [by apply (in_map fst _ _ (proj1 H5 j Hj)) | by apply (in_map fst _ _ (proj2 H5 r Hr))].
  - split; [|intros x k [Hx|[[= <- <-]|[]]]%in_app_iff; [apply H4 in Hx; lia | lia]]. rewrite map_app. cbn. apply NoDup_app. split; [apply H4|]. split; [|apply NoDup_singleton].
    intros x Hx ->%list_elem_of_singleton. apply (Hfresh i); [by apply list_elem_of_In | done].
  - split; [intros j [Hj|[<-|[]]]%in_app_iff; apply in_app_iff; [left; by apply H5 | right; by left] | intros r Hr; apply in_app_iff; left; by apply H5].
  - split; [intros x Hx; rewrite map_app; apply in_app_iff; left; by apply H6 | intros x k Hx; split; [apply in_app_iff; left|]; by apply (proj2 H6 _ _ Hx)].
  - intros j [Hj|[<-|[]]]%in_app_iff; cbn.
    + destruct (H7 j Hj) as [Hn Hg]. split; [done|]. rewrite map_get_set_ne; [done|]. intros E. rewrite E in Hg. congruence.
    + split; [intros Hs; by apply (Hfresh i); [apply H6|] | by rewrite map_get_set_eq].
  - intros x k [Hx|[[= <- <-]|[]]]%in_app_iff; [destruct (H9 x k Hx) as [?|[?|[?|?]]]; auto; right; left | right; left]; rewrite map_app; apply in_app_iff; [by left | right; by left].
  - intros k x Hg. destruct (decide (k = key)) as [->|Hne].
    + rewrite map_get_set_eq in Hg. injection Hg as <-. split; [apply in_app_iff; right; by left|]. intros Hs. exfalso. apply (Hfresh i); [by apply H6 | done].
    + rewrite map_get_set_ne in Hg by done. destruct (H10 k x Hg). split; [apply in_app_iff; by left | done].
  - by apply map_set_NoDup.
Qed.

Lemma enqueue_inv now review f v prio p : inv p -> inv (enqueueFile now review f v prio p).2.
Proof.
  intros [Hw Hb]. unfold enqueueFile. cbv zeta. destruct (map_get _ (inFlightFile p)) as [i|] eqn:Ef.
  - split; [apply last_wf; [done | lia] | done].
  - destruct (pending_with _ p) as [j|] eqn:Ep; [apply pending_in_flight in Ep; [congruence | done]|]. apply schedule_inv. exact (new_job_wf review f v prio p Hw Ef).
Qed.

Lemma prefetch_inv now review prio variants p : inv p -> inv (prefetchReview now review prio variants p).2.
Proof.
  intros Hi. unfold prefetchReview. cbv zeta. set (l := list_prod _ _).
  assert (Hl : forall acc, inv acc.2 -> inv (fold_left (prefetch_one now review (prio ?? default_priority (review_id review) p)) l acc).2).
  { clear Hi. induction l as [|x l IH]; intros acc Ha; [done|]. cbn [fold_left]. apply IH. unfold prefetch_one.
    pose proof (enqueue_inv now review x.1 x.2 (prio ?? default_priority (review_id review) p) acc.2 Ha) as He.
    destruct x.2; [|destruct preferStructural; [|done]]; by destruct (enqueueFile _ _ _ _ _ _). }
  specialize (Hl ([], p) Hi). destruct (fold_left _ _ _) as [hs p1]. destruct Hl as [Hw Hb]. cbn [snd] in *.
  split; [|by destruct (existsb _ _)]. apply last_wf; [by destruct (existsb _ _) | destruct (existsb _ _); cbn; lia].
Qed.

Lemma ensure_inv now review f v p : inv p -> inv (ensureFileProcessed now review f v p).2.
Proof.
  intros Hi. unfold ensureFileProcessed. cbv zeta. pose proof (enqueue_inv now review f v (default_priority (review_id review) p) p Hi) as He.
  destruct (map_get _ (store p)) as [d|]; [destruct (is_ready _); [done|]|]; by destruct (enqueueFile _ _ _ _ _ _).
Qed.

Lemma marks_key j : id (mark_cancelled j) = id j /\ job_key (mark_cancelled j) = job_key j.
Proof. done. Qed.

Lemma busy_update i f p : busy p -> busy (update_job i f p).
Proof. unfold busy. cbn. intros Hb Hd. destruct (Hb Hd) as [->|?]; [by left | by right]. Qed.

Lemma settle_flight i k m p : settle i k (set_inFlightFile m p) = set_inFlightFile m (settle i k p).
Proof. unfold settle. cbn. by destruct (existsb _ _). Qed.

Lemma settle_in_flight i k p : inFlightFile (settle i k p) = inFlightFile p.
Proof. unfold settle. by destruct (existsb _ _). Qed.

Lemma cancel_inv h p : inv p -> (forall i k, h = Own i k -> In (i, k) (created p)) -> inv (cancel h p).
Proof.
  intros [Hw Hb] Hh. destruct h as [i k|k|i]; cbn [cancel].
  - cbv zeta. set (p1 := update_job i mark_cancelled p). assert (Hw1 : wf p1) by (by apply update_job_wf).
    set (p2 := set_pendingJobs (List.filter (fun j => negb (Nat.eqb (id j) i)) (pendingJobs p1)) p1).
    assert (Hm : In (i, k) (created p1)) by (by apply Hh).
    assert (Hw2 : wf (settle i k p2)) by (by apply (settle_job_wf i k p2 (pendingJobs p1))).
    assert (Hb2 : busy (settle i k p2)).
    { eapply busy_view; [apply settle_view|]. apply (busy_update i mark_cancelled) in Hb. fold p1 in Hb. unfold busy in *. cbn in *. intros Hd.
      destruct (Hb Hd) as [E|?]; [left; by rewrite E | by right]. }
    destruct (existsb _ (pendingJobs p1)) eqn:Eq; [|done]. rewrite settle_flight. split; [|done].
    replace (inFlightFile p2) with (inFlightFile (settle i k p2)) by apply settle_in_flight. apply unflight_core; [exact Hw2|]. apply existsb_exists in Eq as (j & Hj & Ei%Nat.eqb_eq).
    pose proof Hw1 as [_ _ _ M4 M5 _ M7 _ _ _ _ _].
    assert (Ej : job_key j = k) by (rewrite <- Ei in Hm; exact (made_key _ _ _ _ (proj1 M4) (proj1 M5 j Hj) Hm)).
    intros j' Hj'. assert (Hin : In j' (pendingJobs p1) /\ id j' <> i).
    { apply others_In. unfold settle in Hj'. by destruct (existsb _ _). }
    destruct Hin as [Hin Hne]. intros Ek. destruct (M7 _ Hin) as [_ E1]. destruct (M7 _ Hj) as [_ E2].
    rewrite Ek in E1. rewrite Ej in E2. congruence.
  - destruct (pending_with k p) as [j|]; [|done]. split; [by apply update_job_wf | by apply busy_update].
  - split; [by apply update_job_wf | by apply busy_update].
Qed.
Lemma find_running_In i p r : find_running i p = Some r -> In r (running p) /\ rid r = i.
Proof. intros [H1 H2%Nat.eqb_eq]%find_some. done. Qed.

(** A running job has left the queue. *)
Lemma running_not_pending p r : wf p -> In r (running p) -> others (rid r) (pendingJobs p) = pendingJobs p.
Proof.
  intros Hw Hr. apply others_same. intros Hin. pose proof (c_nodup _ _ _ _ _ _ _ _ _ _ Hw) as (_ & Hd & _)%NoDup_app.
  apply (Hd (rid r)); [by apply list_elem_of_In | apply list_elem_of_In, in_map, Hr].
Qed.

(** A job settles its promise and returns. *)
Lemma returns_inv p q r : inv q -> view q = view p -> running q = running p -> In r (running p) ->
  inv (set_phase (rid r) Returned (settle (rid r) (job_key (job r)) q)).
Proof.
  intros [Hw Hb] Ev Er Hr. rewrite <- Er in Hr. split; [|eapply busy_view; [|exact Hb]; apply settle_view].
  apply set_phase_wf; [|intros _; apply settled_In]. apply (settle_job_wf _ _ q (pendingJobs q)); [exact Hw | by apply (proj2 (c_jobs _ _ _ _ _ _ _ _ _ _ Hw)) | symmetry; by apply running_not_pending].
Qed.

Lemma fails_inv now r message p : inv p -> In r (running p) -> inv (fails now (job r) message p).
Proof. intros [Hw Hb] Hr. apply (returns_inv p _ r); [split; [by apply apply_update_wf | exact Hb] | done | done | done]. Qed.

Lemma finish_inv now r latest sync p : inv p -> In r (running p) -> inv (finish now (job r) latest sync p).
Proof.
  intros [Hw Hb] Hr. unfold finish. destruct (is_ready latest).
  - rewrite flush_updates_wf by done. by apply (returns_inv p _ r).
  - destruct sync as [d|m]; [|by apply fails_inv]. apply (returns_inv p _ r); [split; [by apply apply_update_wf | exact Hb] | done | done | done].
Qed.

Lemma filter_rid l r : NoDup (map rid l) -> In r l ->
  length l = S (length (List.filter (fun x => negb (Nat.eqb (id (job x)) (rid r))) l))
  /\ (forall x, In x (List.filter (fun x => negb (Nat.eqb (id (job x)) (rid r))) l) <-> In x l /\ rid x <> rid r)
  /\ sublist (map rid (List.filter (fun x => negb (Nat.eqb (id (job x)) (rid r))) l)) (map rid l).
Proof.
  intros Hn Hr. split; [|split].
  - revert Hn Hr. induction l as [|x l IH]; [done|]. intros [Hx Hn]%NoDup_cons [->|Hr]; cbn [List.filter].
    + unfold rid at 1. rewrite Nat.eqb_refl. cbn [negb]. rewrite filter_all; [done|]. apply List.Forall_forall. intros y Hy. apply negb_true_iff, Nat.eqb_neq.
      intros E. apply Hx, list_elem_of_In. fold (rid y) in E. rewrite <- E. by apply in_map.
    + rewrite (proj2 (Nat.eqb_neq _ _)); [cbn; f_equal; by apply IH|]. fold (rid x). intros E. apply Hx, list_elem_of_In. rewrite E. by apply in_map.
  - intros x. rewrite filter_In, negb_true_iff, Nat.eqb_neq. done.
  - clear. induction l as [|x l IH]; [done|]. cbn. destruct (negb _); cbn; by constructor.
Qed.

Lemma returned_wf r p : wf p -> In r (running p) -> phase r = Returned ->
  wf (set_active (active p - 1) (set_running (List.filter (fun x => negb (Nat.eqb (id (job x)) (rid r))) (running p)) p)).
Proof.
  intros [H1 H2 H3 H4 H5 H6 H7 H8 H9 H10 H11 H12] Hr Hp. pose proof H3 as (Ha & Hb & Hc)%NoDup_app. destruct (filter_rid _ r Hc Hr) as (L1 & L2 & L3).
  split; try done; cbn.
  - lia.
  - lia.
  - apply NoDup_app. split; [done|]. split; [intros x Hx Hy; apply (Hb x Hx); apply list_elem_of_In, in_map_iff in Hy as (y & <- & [Hy _]%L2); by apply list_elem_of_In, in_map|]. by eapply sublist_NoDup.
  - split; [apply H5|]. intros x [Hx _]%L2. by apply H5.
  - intros x [Hx _]%L2. by apply H8.
  - intros i k Hi. destruct (H9 i k Hi) as [?|[?|[Hq|?]]]; auto. destruct (decide (i = rid r)) as [->|Hne]; [left; by apply H8|].
    right. right. left. apply in_map_iff in Hq as (x & <- & Hx). apply in_map. by apply L2.
Qed.

Lemma finally_wf i k p : wf p -> In (i, k) (finals p) -> wf (run_finally i k p).
Proof.
  intros Hw Hi. pose proof Hw as [H1 H2 H3 H4 H5 H6 H7 H8 H9 H10 H11 H12]. set (fin := List.filter (fun x => negb (Nat.eqb x.1 i)) (finals p)).
  assert (Hf : forall x, In x fin <-> In x (finals p) /\ x.1 <> i) by (intros x; unfold fin; by rewrite filter_In, negb_true_iff, Nat.eqb_neq).
  assert (Hmade : In (i, k) (created p)) by (by apply (proj2 H6 _ _ Hi)).
  assert (Hone : forall k', map_get k' (inFlightFile p) = Some i -> k' = k) by (intros k' E; destruct (H10 k' i E); by eapply made_key; [apply H4 | |]).
  unfold run_finally. cbv zeta. cbn [inFlightFile set_finals].
  destruct (map_get k (inFlightFile p)) as [t|] eqn:Eg; [destruct (Nat.eqb t i) eqn:Et|].
  - apply Nat.eqb_eq in Et as ->. split; try done; cbn.
    + split; [apply H6|]. intros x k' [Hx _]%Hf. by apply (proj2 H6).
    + intros j Hj. destruct (H7 j Hj) as [Hn Hg]. split; [done|]. rewrite map_get_delete_ne; [done|]. intros E. rewrite E, Eg in Hg. injection Hg as Hg.
      apply Hn. rewrite <- Hg. by apply (proj2 H6 _ _ Hi).
    + intros k' x Hg. destruct (decide (k' = k)) as [->|Hne]; [by rewrite map_get_delete_eq in Hg|]. rewrite map_get_delete_ne in Hg by done.
      destruct (H10 k' x Hg) as [Hm Hs]. split; [done|]. intros Hx. apply Hf. split; [by apply Hs|]. cbn. intros ->. by apply Hne, Hone.
    + by apply map_delete_NoDup.
  - split; try done; cbn; [split; [apply H6|]; intros x k' [Hx _]%Hf; by apply (proj2 H6)|].
    intros k' x Hg. destruct (H10 k' x Hg) as [Hm Hs]. split; [done|]. intros Hx. apply Hf. split; [by apply Hs|]. cbn. intros ->. rewrite (Hone k' Hg), Eg in Hg. injection Hg as ->. by rewrite Nat.eqb_refl in Et.
  - split; try done; cbn; [split; [apply H6|]; intros x k' [Hx _]%Hf; by apply (proj2 H6)|].
    intros k' x Hg. destruct (H10 k' x Hg) as [Hm Hs]. split; [done|]. intros Hx. apply Hf. split; [by apply Hs|]. cbn. intros ->. rewrite (Hone k' Hg), Eg in Hg. done.
Qed.

Lemma dispose_wf p : wf p -> wf (dispose p).
Proof.
  intros Hw. unfold dispose. cbv zeta.
  assert (G : forall l q pend, core pend (running q) (active q) (lastId q) (inFlightFile q) (settled q) (finals q) (created q) (dropped q) (pendingUpdates q) ->
    (forall j, In j l -> In (id j, job_key j) (created q)) ->
    let r := fold_left (fun p j => settle (id j) (job_key j) p) l q in
    core (fold_left (fun pend j => others (id j) pend) l pend) (running r) (active r) (lastId r) (inFlightFile r) (settled r) (finals r) (created r) (dropped r) (pendingUpdates r)).
  { induction l as [|j l IH]; intros q pend Hc Hl; [exact Hc|]. cbn [fold_left]. apply IH.
    - pose proof (settle_core _ _ _ _ _ _ _ _ _ _ _ _ Hc (Hl j (or_introl eq_refl))) as Hs. unfold settle. by destruct (existsb _ _).
    - intros j' Hj'. unfold settle. destruct (existsb _ _); apply Hl; by right. }
  pose proof (G (pendingJobs p) (set_disposed true p) (pendingJobs p) Hw (proj1 (c_jobs _ _ _ _ _ _ _ _ _ _ Hw))) as Hc. cbv zeta in Hc.
  replace (fold_left (fun pend j => others (id j) pend) (pendingJobs p) (pendingJobs p)) with (@nil QueueJob) in Hc.
  - destruct Hc as [H1 H2 H3 H4 H5 H6 H7 H8 H9 H10 H11 H12]. by split.
  - symmetry. assert (E : forall l pend, (forall j, In j pend -> In (id j) (map id l)) -> fold_left (fun pend j => others (id j) pend) l pend = []); [|by apply E; intros; apply in_map].
    clear. induction l as [|j l IH]; intros pend Hp; [destruct pend as [|j pend]; [done | exfalso; by apply (Hp j); left]|]. cbn [fold_left]. apply IH.
    intros j' [Hj' Hne]%others_In. destruct (Hp j' Hj'); [congruence | done].
Qed.
(** A view only cancels with a handle it was given. *)
Definition valid (p : Processor) (i : Input) : Prop := match i with ICancel (Own n k) => In (n, k) (created p) | _ => True end.

Lemma handle_inv now i p : inv p -> valid p i -> inv (handle now i p).
Proof.
  intros [Hw Hb] Hv. destruct i as [r|r|review prio variants|review f v|h|h next| |i|i d sync|i sync|i m|i|i]; cbn [handle].
  - apply schedule_inv. unfold wf. cbn. replace (running p) with (map (fun r : Running => r) (running p)) by apply map_id.
    apply (relabel_core (fun j => if parentId j =s r then set_priority high j else j) (fun r => r)); [exact Hw | intros j; by destruct (_ =s _) | auto].
  - unfold disengage. destruct (_ || _); [|done]. split; [exact Hw|]. unfold busy, limit in *. cbn. intros Hd. destruct (Hb Hd) as [?|Hl]; [by left | right].
    destruct (engagedReviewId p) as [e|]; [destruct (truthy e)|]; lia.
  - by apply prefetch_inv.
  - by apply ensure_inv.
  - apply cancel_inv; [done|]. intros n k ->. exact Hv.
  - unfold setPriority. destruct h as [n k|k|n]; apply schedule_inv; [by apply update_job_wf | destruct (pending_with k p); [by apply update_job_wf | done] | by apply update_job_wf].
  - split; [by apply dispose_wf|]. unfold busy, dispose. cbn. intros _. by left.
  - destruct (find_running i p) as [[j []]|] eqn:E; try done. split; [by apply seed_wf | exact Hb].
  - destruct (find_running i p) as [[j [|latest|]]|] eqn:E; try done. apply find_running_In in E as [Hr <-].
    destruct (cancelled j); [by apply (finish_inv now (mkRunning j (Iterating latest)))|]. split; [|exact Hb]. apply queue_update_wf. by apply set_phase_wf.
  - destruct (find_running i p) as [[j [|latest|]]|] eqn:E; try done. apply find_running_In in E as [Hr <-]. by apply (finish_inv now (mkRunning j (Iterating latest))).
  - destruct (find_running i p) as [[j [|latest|]]|] eqn:E; try done. apply find_running_In in E as [Hr <-]. by apply (fails_inv now (mkRunning j (Iterating latest))).
  - destruct (find_running i p) as [[j [|latest|]]|] eqn:E; try done. apply find_running_In in E as [Hr <-]. apply schedule_inv. by apply (returned_wf (mkRunning j Returned)).
  - destruct (List.find _ (finals p)) as [[i' k]|] eqn:E; [|done]. apply find_some in E as [Hi E]. cbn in E. apply Nat.eqb_eq in E as ->.
    split; [by apply finally_wf|]. eapply busy_view; [|exact Hb]. unfold run_finally. cbv zeta. cbn [inFlightFile set_finals].
    destruct (map_get k (inFlightFile p)) as [t|]; [by destruct (Nat.eqb t i)|]. done.
Qed.

Definition step (p q : Processor) : Prop := exists now i, valid p i /\ q = handle now i p.
Definition reachable : Processor -> Prop := rtc step new_processor.

Lemma reachable_inv p : reachable p -> inv p.
Proof.
  intros Hr. refine (rtc_ind_r inv new_processor _ _ p Hr); [|intros q q' _ (now & i & Hv & ->) IH; by apply handle_inv].
  split; [|by left]. assert (1 <= concurrency)%Z by (unfold concurrency; lia). split; cbn; try done; try lia; try constructor; try done; constructor.
Qed.

(** ** Without shared cancellations *)

Definition polite (i : Input) : Prop := match i with ICancel (Shared _) | ICancel (Joined _) => False | _ => True end.

(** No waiting job is cancelled, and none was dropped. *)
Definition whole (p : Processor) : Prop := dropped p = [] /\ Forall (fun j => cancelled j = false) (pendingJobs p).

Lemma schedule_loop_whole fuel now p : whole p -> whole (schedule_loop fuel now p).
Proof.
  revert p. induction fuel as [|fuel IH]; intros p [Hd Hp]; [done|]. cbn [schedule_loop]. destruct (_ <? _)%Z; [|done].
  destruct (bestPendingIndex p) as [i|]; [|done]. destruct (pendingJobs p !! i) as [j|] eqn:Ej; [|done].
  pose proof (Forall_lookup_1 _ _ _ _ Hp Ej) as Hj. cbn in Hj. cbv zeta. rewrite Hj. apply IH.
  match goal with |- whole (runJob _ _ ?q) => assert (E : whole q) end; [split; [done | by apply Forall_delete]|].
  unfold runJob. cbv zeta. by destruct (match job_variant j with basic => false | structural => contentResolver end).
Qed.

Lemma schedule_whole now p : whole p -> whole (schedule now p).
Proof. intros Hw. unfold schedule. destruct (disposed p); [done|]. by apply schedule_loop_whole. Qed.

Lemma map_whole (f : QueueJob -> QueueJob) p : (forall j, cancelled (f j) = cancelled j) -> whole p -> Forall (fun j => cancelled j = false) (map f (pendingJobs p)).
Proof. intros Hf [_ Hp]. apply Forall_map. eapply Forall_impl; [exact Hp|]. intros j. cbn. by rewrite Hf. Qed.

Lemma update_whole i f p : (forall j, cancelled (f j) = cancelled j) -> whole p -> whole (update_job i f p).
Proof. intros Hf Hw. split; [apply Hw|]. apply (map_whole (fun j => if Nat.eqb (id j) i then f j else j)); [|done]. intros j. by destruct (Nat.eqb _ _). Qed.

Lemma settle_whole i k p : whole p -> whole (settle i k p).
Proof. unfold settle. by destruct (existsb _ _). Qed.

Lemma enqueue_whole now review f v prio p : whole p -> whole (enqueueFile now review f v prio p).2.
Proof.
  intros Hw. unfold enqueueFile. cbv zeta. destruct (map_get _ _); [done|]. destruct (pending_with _ p) as [j|]; [destruct prio; [by apply update_whole | done]|].
  apply schedule_whole. split; [apply Hw|]. cbn. apply Forall_app. split; [apply Hw|]. by repeat constructor.
Qed.

Lemma prefetch_whole now review prio variants p : whole p -> whole (prefetchReview now review prio variants p).2.
Proof.
  intros Hi. unfold prefetchReview. cbv zeta. set (l := list_prod _ _).
  assert (Hl : forall acc, whole acc.2 -> whole (fold_left (prefetch_one now review (prio ?? default_priority (review_id review) p)) l acc).2).
  { clear Hi. induction l as [|x l IH]; intros acc Ha; [done|]. cbn [fold_left]. apply IH. unfold prefetch_one.
    pose proof (enqueue_whole now review x.1 x.2 (prio ?? default_priority (review_id review) p) acc.2 Ha) as He.
    destruct x.2; [|destruct preferStructural; [|done]]; by destruct (enqueueFile _ _ _ _ _ _). }
  specialize (Hl ([], p) Hi). destruct (fold_left _ _ _) as [hs p1]. cbn [snd] in *. by destruct (existsb _ _).
Qed.

Lemma own_cancel_whole i k p : whole p -> whole (cancel (Own i k) p).
Proof.
  intros [Hd Hp]. cbn [cancel]. cbv zeta. apply settle_whole. match goal with |- whole (if _ then set_inFlightFile _ ?q else _) => assert (E : whole q) end.
  { split; [done|]. cbn. clear Hd. induction (pendingJobs p) as [|j l IH]; [constructor|]. apply Forall_cons in Hp as [Hj Hp]. specialize (IH Hp). cbn.
    destruct (Nat.eqb (id j) i) eqn:E; cbn; [by rewrite E|]. rewrite E. cbn. by constructor. }
  by destruct (existsb _ _).
Qed.

Lemma finish_whole now j latest sync p : whole p -> whole (finish now j latest sync p).
Proof.
  intros Hw. unfold finish. destruct (is_ready latest); [|destruct sync]; try (apply settle_whole; exact Hw).
  apply settle_whole. unfold flushDiffUpdates. by destruct (pendingUpdates p).
Qed.

Lemma dispose_whole p : whole p -> whole (dispose p).
Proof.
  intros [Hd Hp]. split; [|constructor]. unfold dispose. cbn. transitivity (dropped (set_disposed true p)); [|exact Hd].
  generalize (set_disposed true p). clear. induction (pendingJobs p) as [|j l IH]; intros q; [done|]. cbn [fold_left]. rewrite IH. unfold settle. by destruct (existsb _ _).
Qed.

Lemma handle_whole now i p : whole p -> polite i -> whole (handle now i p).
Proof.
  intros Hw Hi. destruct i as [r|r|review prio variants|review f v|h|h next| |i|i d sync|i sync|i m|i|i]; cbn [handle].
  - apply schedule_whole. split; [apply Hw|]. apply (map_whole (fun j => if parentId j =s r then set_priority high j else j)); [|done]. intros j. by destruct (_ =s _).
  - unfold disengage. by destruct (_ || _).
  - by apply prefetch_whole.
  - unfold ensureFileProcessed. cbv zeta. pose proof (enqueue_whole now review f v (default_priority (review_id review) p) p Hw) as He.
    destruct (map_get _ (store p)) as [d|]; [destruct (is_ready _); [done|]|]; by destruct (enqueueFile _ _ _ _ _ _).
  - destruct h as [n k|k|n]; [by apply own_cancel_whole | done | done].
  - unfold setPriority. destruct h as [n k|k|n]; apply schedule_whole; [by apply update_whole | destruct (pending_with k p); [by apply update_whole | done] | by apply update_whole].
  - by apply dispose_whole.
  - by destruct (find_running i p) as [[j []]|].
  - destruct (find_running i p) as [[j [|latest|]]|]; try done. destruct (cancelled j); [by apply finish_whole | done].
  - destruct (find_running i p) as [[j [|latest|]]|]; try done. by apply finish_whole.
  - destruct (find_running i p) as [[j [|latest|]]|]; try done. by apply settle_whole.
  - destruct (find_running i p) as [[j [|latest|]]|]; try done. by apply schedule_whole.
  - destruct (List.find _ (finals p)) as [[i' k]|]; [|done]. unfold run_finally. cbv zeta. cbn [inFlightFile set_finals].
    destruct (map_get k (inFlightFile p)) as [t|]; [by destruct (Nat.eqb t i)|]. done.
Qed.

Definition polite_step (p q : Processor) : Prop := exists now i, valid p i /\ polite i /\ q = handle now i p.

Lemma polite_reachable p : rtc polite_step new_processor p -> reachable p /\ whole p.
Proof.
  intros Hr. refine (rtc_ind_r (fun p => reachable p /\ whole p) new_processor _ _ p Hr); [split; [constructor | by repeat constructor]|].
  intros q q' _ (now & i & Hv & Hp & ->) [H1 H2]. split; [|by apply handle_whole]. eapply rtc_r; [exact H1|]. exists now, i. done.
Qed.

(** ** The theorems *)

(** C19 (review_queue_sound).  For every order of requests, cancellations, snapshots, failures and returns: the number of running jobs is exact and at most one above the
    concurrency; while a job waits no slot is free; each waiting job is the only one of its file, is in flight and unsettled; each promise is
    settled or its job waits, runs or was dropped; a file stays in flight only until its promise is settled and its callback has run; no update of
    the store waits for a flush; and the job that is started next has the highest score and of these it waits longest. *)
Theorem review_queue_sound p :
  reachable p ->
  active p = Z.of_nat (length (running p)) /\ (active p <= concurrency + 1)%Z
  /\ (disposed p = false -> pendingJobs p = [] \/ (limit p <= active p)%Z)
  /\ (forall j j', In j (pendingJobs p) -> In j' (pendingJobs p) -> job_key j = job_key j' -> id j = id j')
  /\ (forall j, In j (pendingJobs p) -> ~ In (id j) (settled p) /\ map_get (job_key j) (inFlightFile p) = Some (id j))
  /\ (forall i k, In (i, k) (created p) -> In i (settled p) \/ In i (map id (pendingJobs p)) \/ In i (map rid (running p)) \/ In i (dropped p))
  /\ (forall k i, map_get k (inFlightFile p) = Some i -> In i (settled p) -> In (i, k) (finals p))
  /\ pendingUpdates p = [] /\ (forall i, bestPendingIndex p = Some i -> first_best p (pendingJobs p) i).
Proof.
  intros [[H1 H2 H3 H4 H5 H6 H7 H8 H9 H10 H11 H12] Hb]%reachable_inv. do 3 (split; [done|]).
  split; [intros j j' Hj Hj' E; destruct (H7 j Hj) as [_ E1]; destruct (H7 j' Hj') as [_ E2]; congruence|]. do 2 (split; [done|]). split; [|split; [done | apply best_first]].
  intros k i Hg Hs. destruct (H10 k i Hg) as [_ Hf]. by apply Hf.
Qed.

(** As long as no view cancels a job that it only shares, nothing strands: when no job runs, every promise is settled and no job waits, and when the
    callbacks have run too, no file is in flight, so that a new request computes again.  A job that ends settles its promise, whether it was cancelled or failed. *)
Theorem review_promises_settle p :
  rtc polite_step new_processor p ->
  (disposed p = false -> running p = [] ->
     pendingJobs p = [] /\ (forall i k, In (i, k) (created p) -> In i (settled p)) /\ (finals p = [] -> inFlightFile p = []))
  /\ (forall now i j latest sync m, find_running i p = Some (mkRunning j (Iterating latest)) ->
         In i (settled (handle now (IEnd i sync) p)) /\ In i (settled (handle now (IThrow i m) p))).
Proof.
  intros [Hr [Hd _]]%polite_reachable. apply reachable_inv in Hr as [[H1 H2 H3 H4 H5 H6 H7 H8 H9 H10 H11 H12] Hb]. split.
  - intros Hdis Hrun. assert (Hpend : pendingJobs p = []).
    { destruct (Hb Hdis) as [?|Hl]; [done|]. rewrite H1, Hrun in Hl. unfold limit, concurrency in Hl. cbn in Hl. destruct (engagedReviewId p) as [e|]; [destruct (truthy e)|]; lia. }
    assert (Hall : forall i k, In (i, k) (created p) -> In i (settled p)).
    { intros i k Hi. destruct (H9 i k Hi) as [?|[Hq|[Hq|Hq]]]; [done | rewrite Hpend in Hq; done | rewrite Hrun in Hq; done | rewrite Hd in Hq; done]. }
    split; [done|]. split; [done|]. intros Hf. destruct (inFlightFile p) as [|[k i] l]; [done|].
    destruct (H10 k i) as [Hm Hs]; [cbn; by rewrite decide_True|]. specialize (Hs (Hall i k Hm)). rewrite Hf in Hs. done.
  - intros now i j latest sync m E. cbn [handle]. rewrite E. apply find_running_In in E as [_ <-]. cbn [rid job].
    split; [|apply (settled_In (id j))]. unfold finish. destruct (is_ready latest); [|destruct sync]; apply (settled_In (id j)).
Qed.
End Processor.

(** ** A review of two files, one slot *)

Module Demo.
Definition file_a : ReviewFile := mkFile "a.ts" "".
Definition file_b : ReviewFile := mkFile "b.ts" "".
Definition review : CodeReview := mkReview "r" [file_a; file_b].
Definition done_diff : ComputedFileDiff := blank (mkJob 1 "r" "r::a.ts::basic" low file_a basic false) ready None 0.

Definition run (l : list Input) : Processor := fold_left (fun p i => handle (Some 1%Z) true false 0 i p) l new_processor.

(** Two files are requested; the first is computed, then the second. *)
Definition both : list Input :=
  [IEnsure review file_a basic; IEnsure review file_b basic; IEnd 1 (inl done_diff); IReturned 1; IEnd 2 (inl done_diff); IReturned 2; IFinally 1; IFinally 2].

Lemma run_polite l : (forall i, In i l -> match i with ICancel _ => False | _ => True end) -> rtc (polite_step (Some 1%Z) true false) new_processor (run l).
Proof.
  unfold run. generalize new_processor. induction l as [|i l IH]; intros p Hl; [constructor|]. cbn [fold_left]. eapply rtc_l; [|apply IH; intros j Hj; apply Hl; by right].
  specialize (Hl i (or_introl eq_refl)). exists 0%Z, i. split; [by destruct i as [| | | |[]| | | | | | | |]|]. split; [by destruct i as [| | | |[]| | | | | | | |] | done].
Qed.

Lemma review_promises_settle_witness : pendingJobs (run both) = [] /\ inFlightFile (run both) = [].
Proof.
  destruct (review_promises_settle (Some 1%Z) true false (run both)) as [Hs _].
  - apply run_polite. intros i Hi. repeat (destruct Hi as [<-|Hi]; [exact I|]). destruct Hi.
  - destruct Hs as (H1 & _ & H2); [vm_compute; reflexivity | vm_compute; reflexivity |]. split; [exact H1 | apply H2; vm_compute; reflexivity].
Defined.

Lemma review_queue_sound_witness :
  active (run [IEnsure review file_a basic; IEnsure review file_b basic]) = Z.of_nat (length (running (run [IEnsure review file_a basic; IEnsure review file_b basic]))).
Proof.
  apply (review_queue_sound (Some 1%Z) true false). apply polite_reachable. apply run_polite.
  intros i Hi. repeat (destruct Hi as [<-|Hi]; [exact I|]). destruct Hi.
Defined.

(** Two views ask for the second file while it waits; the one that shares the job is closed. *)
Definition shared_cancel : list Input :=
  [IEnsure review file_a basic; IEnsure review file_b basic; IEnsure review file_b basic; ICancel (Shared "r::b.ts::basic");
   IEnd 1 (inl done_diff); IReturned 1; IFinally 1].

(** The job is dropped without settling its promise: the first view waits although nothing runs, and a new request shares the dead promise. *)
Theorem shared_cancel_strands :
  running (run shared_cancel) = [] /\ pendingJobs (run shared_cancel) = [] /\ settled (run shared_cancel) = [1%nat]
  /\ inFlightFile (run shared_cancel) = [("r::b.ts::basic", 2%nat)] /\ getComputedDiff "r" "b.ts" basic (run shared_cancel) = None
  /\ (ensureFileProcessed (Some 1%Z) false 0 review file_b basic (run shared_cancel)).1 = inr (Shared "r::b.ts::basic").
Proof. repeat split; reflexivity. Qed.
End Demo.
