(* ===== verification/Posters.v ===== *)
(** * What a chat run posts to Flow
      (agent-worker/src/chat-run.ts, activities.ts)

    While an agent runs, its activities are posted to Flow one at a time: those of a chat reply by
    [ChatActivityPoster], which numbers its posts and coalesces streamed text.  The poster is a machine over the calls of the run and the turns of the event loop
    (the timer, the answer or failure of a post, the end of a delay).  [enqueued] holds every activity handed to
    the promise chain, [next] is the number of those that are settled, and [flight] where the delivery of the next one stands. *)

From Stdlib Require Import ZArith Lia Bool List Ascii.
From stdpp Require Import base list strings.
From S2P Require Import Prelude JsString JsMap Json Mapping.

Local Set Warnings "-register-all".

(** ** Activities *)

Record HeldCall := mkHeldCall { held_callId : string; held_name : string; held_arguments : string }.

Inductive Elicitation :=
  | ElicitSelect (callId : string) (arguments : option string) (body : string) (options : list (string * string)) (allowFreeText : bool)
  | ElicitApproval (callIds : list string) (calls : option (list HeldCall)) (body : string) (options : list (string * string)).

(** An activity of the run. The time, the usage and the fields of a connector's question are not looked at here. *)
Inductive FlowActivity :=
  | AConnectorElicitation
  | AThought (body : string) (ephemeral : bool)
  | ATextDelta (delta : string)
  | AAction (activityId action : string) (parameter : option json)
  | AActionResult (activityId action result : string) (isError : bool) (change : option json)
  | AElicitation (elicitation : Elicitation)
  | AQuestionDelta (activityId body : string)
  | AResponse (body : string) (canceled : bool)
  | AError (body : string) (flow : bool).

(** A failed post: the status of the answer, or none (no answer). *)
Definition retryablePostError (status : option Z) : bool :=
  match status with None => true | Some s => (s =? 429)%Z || (500 <=? s)%Z end.

Definition chatPostRetryDelaysMs : list Z := [250; 1000; 3000]%Z.

(** Where the delivery of an activity stands: not begun, a post under way, or the delay after a failed one. *)
Inductive Flight := Waiting | Posting (attempt : nat) | Delayed (attempt : nat).

(** After the failure of post number [attempt]: another one after a delay, or the error. *)
Definition post_failed (delays : list Z) (attempt : nat) (status : option Z) : option Flight :=
  if (length delays <=? attempt)%nat || negb (retryablePostError status) then None else Some (Delayed attempt).

(** ** Chat replies *)

Module Chat.

Inductive ChatActivity :=
  | CThought (body : string)
  | CTextDelta (body : string)
  | CQuestionDelta (callId body : string)
  | CAction (activityId callId action : string) (parameter : option json)
  | CActionResult (activityId callId action : string) (parameter : option json) (result : string) (isError : bool) (change : option json)
  | CElicitation (elicitation : Elicitation)
  | CResponse (body : string)
  | CError (body : string).

Record Post := mkPost { seq : nat; activity : ChatActivity; final : bool }.

(** What the poster does to the outside. *)
Inductive Obs := OPost (seq : nat) | OAnswered (seq : nat) | OError (seq : nat) | OSettled.

Record Poster := mkPoster {
  text : string; question : option (string * string); timer : bool; ended : bool; settledCalled : bool;
  parameters : list (string * option json); enqueued : list Post; next : nat; flight : Flight; trace : list Obs }.

Definition new_poster : Poster := mkPoster "" None false false false [] [] 0 Waiting [].

Definition set_text (t : string) (p : Poster) : Poster :=
  mkPoster t (question p) (timer p) (ended p) (settledCalled p) (parameters p) (enqueued p) (next p) (flight p) (trace p).
Definition set_question (q : option (string * string)) (p : Poster) : Poster :=
  mkPoster (text p) q (timer p) (ended p) (settledCalled p) (parameters p) (enqueued p) (next p) (flight p) (trace p).
Definition set_timer (t : bool) (p : Poster) : Poster :=
  mkPoster (text p) (question p) t (ended p) (settledCalled p) (parameters p) (enqueued p) (next p) (flight p) (trace p).
Definition set_ended (p : Poster) : Poster :=
  mkPoster (text p) (question p) (timer p) true (settledCalled p) (parameters p) (enqueued p) (next p) (flight p) (trace p).
Definition set_parameters (m : list (string * option json)) (p : Poster) : Poster :=
  mkPoster (text p) (question p) (timer p) (ended p) (settledCalled p) m (enqueued p) (next p) (flight p) (trace p).
Definition set_flight (n : nat) (f : Flight) (o : list Obs) (p : Poster) : Poster :=
  mkPoster (text p) (question p) (timer p) (ended p) (settledCalled p) (parameters p) (enqueued p) n f (trace p ++ o).

(** [++this.seq] is the length of what was enqueued, plus one. *)
Definition enqueue (a : ChatActivity) (p : Poster) : Poster :=
  mkPoster (text p) (question p) (timer p) (ended p) (settledCalled p) (parameters p)
    (enqueued p ++ [mkPost (S (length (enqueued p))) a (ended p)]) (next p) (flight p) (trace p).

Definition flush_text (p : Poster) : Poster := if truthy (text p) then enqueue (CTextDelta (text p)) (set_text "" p) else p.

Definition flush_question (p : Poster) : Poster :=
  match question p with Some (callId, body) => enqueue (CQuestionDelta callId body) (set_question None p) | None => p end.

Definition flush (p : Poster) : Poster := flush_question (flush_text (set_timer false p)).

Definition send (a : ChatActivity) (p : Poster) : Poster := enqueue a (flush p).

Definition schedule (p : Poster) : Poster := set_timer true p.

(** The object [result.parameter]: undefined when there is none. *)
Definition known_parameter (id : string) (p : Poster) : option json := match map_get id (parameters p) with Some v => v | None => None end.

Definition push (a : FlowActivity) (p : Poster) : Poster :=
  match a with
  | ATextDelta delta => schedule (set_text (text p +:+ delta) p)
  | AQuestionDelta id body => schedule (set_question (Some (id, body)) p)
  | AThought body ephemeral => if ephemeral then p else send (CThought body) p
  | AConnectorElicitation => p
  | AAction id action parameter =>
      send (CAction (id +:+ ":call") id action parameter) (set_parameters (map_set id parameter (parameters p)) p)
  | AActionResult id action result isError change =>
      send (CActionResult (id +:+ ":result") id action (known_parameter id p) result isError (if js_truthy change then change else None)) p
  | AElicitation e => send (CElicitation e) (set_ended p)
  | AResponse body canceled => send (if canceled then CError "Generation stopped" else CResponse body) (set_ended p)
  | AError body _ => send (CError body) (set_ended p)
  end.

Section Delivery.
Context (delays : list Z).

(** The answer to the post of [x], with its [settled] flag. *)
Definition answered (x : Post) (settled : bool) (p : Poster) : Poster :=
  let call := settled && negb (final x) && negb (settledCalled p) in
  let p1 := set_flight (S (next p)) Waiting ([OAnswered (seq x)] ++ (if call then [OSettled] else [])) p in
  mkPoster (text p1) (question p1) (timer p1) (ended p1) (settledCalled p1 || call) (parameters p1) (enqueued p1) (next p1) (flight p1) (trace p1).

Inductive Input :=
  | IPush (a : FlowActivity)
  | IDrain
  | ITimer
  | IStart
  | IAnswer (settled : bool)
  | IFail (status : option Z)
  | IDelayOver.

Definition handle (i : Input) (p : Poster) : option Poster :=
  match i, enqueued p !! next p, flight p with
  | IPush a, _, _ => Some (push a p)
  | IDrain, _, _ => Some (flush p)
  | ITimer, _, _ => if timer p then Some (flush p) else None
  | IStart, Some x, Waiting => Some (set_flight (next p) (Posting 0) [OPost (seq x)] p)
  | IAnswer settled, Some x, Posting _ => Some (answered x settled p)
  | IFail status, Some x, Posting attempt =>
      Some (match post_failed delays attempt status with
            | None => set_flight (S (next p)) Waiting [OError (seq x)] p
            | Some f => set_flight (next p) f [] p
            end)
  | IDelayOver, Some x, Delayed attempt => Some (set_flight (next p) (Posting (S attempt)) [OPost (seq x)] p)
  | _, _, _ => None
  end.

Fixpoint run (ins : list Input) (p : Poster) : option Poster :=
  match ins with [] => Some p | i :: rest => match handle i p with Some p' => run rest p' | None => None end end.
End Delivery.

(** ** What Flow is told

    The reply as Flow shows it: the characters of the streamed text and, between them, the other
    activities.  The question being written is shown apart, only its latest wording counts. *)

Definition shown (a : ChatActivity) : list (ascii + ChatActivity) :=
  match a with
  | CTextDelta body => map inl (String.list_ascii_of_string body)
  | CQuestionDelta _ _ => []
  | a => [inr a]
  end.

Definition asked (a : ChatActivity) : list (string * string) := match a with CQuestionDelta id body => [(id, body)] | _ => [] end.

(** The reply and the question an activity of the run stands for, posted at once and alone; [m] are the parameters of the calls so far. *)
Definition means (m : list (string * option json)) (a : FlowActivity) : list (ascii + ChatActivity) :=
  match a with
  | ATextDelta delta => map inl (String.list_ascii_of_string delta)
  | AThought body false => [inr (CThought body)]
  | AAction id action parameter => [inr (CAction (id +:+ ":call") id action parameter)]
  | AActionResult id action result isError change =>
      [inr (CActionResult (id +:+ ":result") id action (map_get id m ?? None) result isError (if js_truthy change then change else None))]
  | AElicitation e => [inr (CElicitation e)]
  | AResponse body canceled => [inr (if canceled then CError "Generation stopped" else CResponse body)]
  | AError body _ => [inr (CError body)]
  | AThought _ true | AConnectorElicitation | AQuestionDelta _ _ => []
  end.

Definition learns (m : list (string * option json)) (a : FlowActivity) : list (string * option json) :=
  match a with AAction id _ parameter => map_set id parameter m | _ => m end.

Fixpoint reply (m : list (string * option json)) (l : list FlowActivity) : list (ascii + ChatActivity) :=
  match l with [] => [] | a :: rest => means m a ++ reply (learns m a) rest end.

Definition questions (l : list FlowActivity) : list (string * string) :=
  flat_map (fun a => match a with AQuestionDelta id body => [(id, body)] | _ => [] end) l.

Definition pushes (ins : list Input) : list FlowActivity := flat_map (fun i => match i with IPush a => [a] | _ => [] end) ins.

(** The reply and the latest question of what was enqueued and what is pending. *)
Definition told (p : Poster) : list (ascii + ChatActivity) :=
  flat_map (fun x => shown (activity x)) (enqueued p) ++ map inl (String.list_ascii_of_string (text p)).

Definition told_question (p : Poster) : option (string * string) :=
  last (flat_map (fun x => asked (activity x)) (enqueued p) ++ match question p with Some q => [q] | None => [] end).

(** Nothing waits without a timer. *)
Definition alarmed (p : Poster) : Prop := timer p = true \/ text p = "" /\ question p = None.

Lemma last_app_cons {A} (l k : list A) x : last (l ++ k ++ [x]) = Some x.
Proof. by rewrite app_assoc, last_snoc. Qed.

Lemma told_enqueue a p : text p = "" -> told (enqueue a p) = told p ++ shown a.
Proof. intros Ht. unfold told. cbn. rewrite Ht, flat_map_app. cbn. by rewrite !app_nil_r. Qed.

Lemma told_flush p : told (flush p) = told p /\ told_question (flush p) = told_question p /\ text (flush p) = "" /\ question (flush p) = None
  /\ parameters (flush p) = parameters p /\ ended (flush p) = ended p.
Proof.
  unfold flush, flush_question, flush_text. cbn [text set_timer]. destruct (truthy (text p)) eqn:Et.
  - cbn [question enqueue set_text set_timer]. destruct (question p) as [[id body]|] eqn:Eq; unfold told, told_question; cbn; rewrite ?Eq, ?flat_map_app, ?app_nil_r; cbn; rewrite ?app_nil_r; done.
  - assert (text p = "") as E by (unfold truthy in Et; apply negb_false_iff, String.eqb_eq in Et; done).
    cbn [question set_timer]. destruct (question p) as [[id body]|] eqn:Eq; unfold told, told_question; cbn; rewrite ?Eq, ?E, ?flat_map_app, ?app_nil_r; cbn; rewrite ?app_nil_r; done.
Qed.

Lemma told_send a p : asked a = [] -> told (send a p) = told p ++ shown a /\ told_question (send a p) = told_question p
  /\ parameters (send a p) = parameters p /\ alarmed (send a p).
Proof.
  intros Ha. destruct (told_flush p) as (H1 & H2 & H3 & H4 & H5 & _). unfold send. split; [by rewrite told_enqueue, H1|].
  split; [|by repeat split; [rewrite <- H5 | right]]. rewrite <- H2. unfold told_question. cbn. rewrite H4, flat_map_app. cbn. by rewrite Ha, !app_nil_r.
Qed.

Lemma ascii_list_app a b : String.list_ascii_of_string (a +:+ b) = String.list_ascii_of_string a ++ String.list_ascii_of_string b.
Proof. induction a as [|c a IH]; [done|]. cbn. by f_equal. Qed.

(** One activity adds exactly what it means. *)
Lemma told_push a p : alarmed p ->
  told (push a p) = told p ++ means (parameters p) a /\ parameters (push a p) = learns (parameters p) a /\ alarmed (push a p)
  /\ told_question (push a p) = match a with AQuestionDelta id body => Some (id, body) | _ => told_question p end.
Proof.
  intros Hal.
  assert (Hsend : forall c q, asked c = [] -> told q = told p -> told_question q = told_question p -> shown c = means (parameters p) a ->
            parameters q = learns (parameters p) a ->
            told (send c q) = told p ++ means (parameters p) a /\ parameters (send c q) = learns (parameters p) a /\ alarmed (send c q)
            /\ told_question (send c q) = told_question p).
  { intros c q Hc Hq Hqq Hm Hl. destruct (told_send c q Hc) as (H1 & H2 & H3 & H4). rewrite H1, H2, H3, Hq, Hqq, Hm. auto. }
  destruct a as [|body [] |delta|id action par|id action result err change|e|id body|body canceled|body flow]; cbn [push means learns].
  - by rewrite app_nil_r.
  - by rewrite app_nil_r.
  - by apply Hsend.
  - split; [|split; [done | split; [by left | done]]]. unfold told. cbn. by rewrite ascii_list_app, map_app, app_assoc.
  - by apply Hsend.
  - apply Hsend; [done | done | done | | done]. cbn. unfold known_parameter. by destruct (map_get id (parameters p)).
  - by apply Hsend.
  - rewrite app_nil_r. split; [done|]. split; [done|]. split; [by left|]. unfold told_question. cbn. by rewrite last_snoc.
  - apply Hsend; try done; by destruct canceled.
  - by apply Hsend.
Qed.

(** ** Delivery: one post at a time, in order *)

Definition resolved1 (o : Obs) : list nat := match o with OAnswered n | OError n => [n] | _ => [] end.
Definition resolved (tr : list Obs) : list nat := flat_map resolved1 tr.

#[export] Instance Obs_eq_dec : EqDecision Obs.
Proof. solve_decision. Defined.

Definition times (o : Obs) (tr : list Obs) : nat := length (List.filter (fun x => bool_decide (x = o)) tr).

#[local] Arguments times : simpl never.

Lemma times_app o l k : times o (l ++ k) = (times o l + times o k)%nat.
Proof. unfold times. by rewrite List.filter_app, length_app. Qed.

(** How often the delivery that stands at [f] has posted. *)
Definition posts_of (f : Flight) : nat := match f with Waiting => 0 | Posting k | Delayed k => S k end.

(** The numbers settled so far are [1 .. n]; a post of number [n] is made only when those before it are settled, and at most
    once more than there are delays. *)
Record orderly (delays : list Z) (tr : list Obs) (n : nat) (f : Flight) : Prop := {
  ord_resolved : resolved tr = List.seq 1 n;
  ord_posts : forall pre k post, tr = pre ++ OPost k :: post -> resolved pre = List.seq 1 (k - 1) /\ (1 <= k)%nat;
  ord_now : times (OPost (S n)) tr = posts_of f /\ (posts_of f <= S (length delays))%nat;
  ord_past : forall k, (k <= n)%nat -> (times (OPost k) tr <= S (length delays))%nat;
  ord_future : forall k, (S n < k)%nat -> times (OPost k) tr = 0%nat }.

Record wf (delays : list Z) (p : Poster) : Prop := {
  wf_numbers : forall i x, enqueued p !! i = Some x -> seq x = S i;
  wf_next : (next p <= length (enqueued p))%nat;
  wf_flight : flight p <> Waiting -> (next p < length (enqueued p))%nat;
  wf_delayed : forall k, flight p = Delayed k -> (k < length delays)%nat;
  wf_orderly : orderly delays (trace p) (next p) (flight p);
  wf_settled : times OSettled (trace p) = (if settledCalled p then 1 else 0)%nat }.

Lemma new_wf delays : wf delays new_poster.
Proof.
  split; cbn; try done; try lia.
  split; [done | by intros [|? pre] k post | split; [done | cbn; lia] | intros k _; unfold times; cbn; lia | done].
Qed.

(** Enqueueing concerns no post. *)
Lemma enqueue_wf delays a p : wf delays p -> wf delays (enqueue a p).
Proof.
  intros [Hn Hx Hf Hd Ho Hs]. split; cbn; [|rewrite length_app; lia|rewrite length_app; intros H; specialize (Hf H); lia|done|done|done].
  intros i x [H|[H1 H2]]%lookup_app_Some; [by apply Hn|]. apply list_lookup_singleton_Some in H2 as [H2 <-]. cbn. lia.
Qed.

(** The fields of the pending text concern no post. *)
Lemma wf_core delays p q : enqueued q = enqueued p -> next q = next p -> flight q = flight p -> trace q = trace p -> settledCalled q = settledCalled p ->
  wf delays p -> wf delays q.
Proof. intros H1 H2 H3 H4 H5 [Hn Hx Hf Hd Ho Hs]. by split; rewrite ?H1, ?H2, ?H3, ?H4, ?H5. Qed.

Lemma chat_flush_wf delays p : wf delays p -> wf delays (flush p).
Proof.
  intros H. assert (H1 : wf delays (flush_text (set_timer false p))).
  { unfold flush_text. destruct (truthy _); [apply enqueue_wf|]; by apply (wf_core delays p). }
  unfold flush, flush_question. destruct (question _) as [[id body]|]; [|done]. apply enqueue_wf. by apply (wf_core delays (flush_text (set_timer false p))).
Qed.

Lemma chat_push_wf delays a p : wf delays p -> wf delays (push a p).
Proof.
  intros H. assert (Hs : forall c q, wf delays q -> wf delays (send c q)) by (intros c q Hq; by apply enqueue_wf, chat_flush_wf).
  destruct a as [|body [] |delta|id action par|id action result err change|e|id body|body canceled|body flow]; cbn [push]; try done;
    try apply Hs; try done; by apply (wf_core delays p).
Qed.

Lemma snoc_split {A} (tr pre post : list A) o x : tr ++ [o] = pre ++ x :: post ->
  (tr = pre /\ o = x /\ post = []) \/ exists post', post = post' ++ [o] /\ tr = pre ++ x :: post'.
Proof.
  destruct post as [|y post _] using rev_ind.
  - intros [-> ?]%app_inj_tail. simplify_eq. auto.
  - rewrite app_comm_cons, app_assoc. intros [-> ->]%app_inj_tail. right. eauto.
Qed.

Lemma resolved_app l k : resolved (l ++ k) = resolved l ++ resolved k.
Proof. apply flat_map_app. Qed.

Section Orderly.
Context (delays : list Z) (tr : list Obs) (n : nat) (f : Flight).

Lemma orderly_post f' : orderly delays tr n f -> posts_of f' = S (posts_of f) -> (posts_of f' <= S (length delays))%nat ->
  orderly delays (tr ++ [OPost (S n)]) n f'.
Proof.
  intros [Hr Hp [Hn _] Hpast Hfut] Hf Hb. split.
  - by rewrite resolved_app, app_nil_r.
  - intros pre k post [(-> & [= <-] & ->)|(post' & -> & ->)]%snoc_split; [|eauto]. rewrite Nat.sub_succ, Nat.sub_0_r. split; [done | lia].
  - rewrite times_app, Hn, Hf. split; [unfold times; cbn; rewrite bool_decide_eq_true_2 by done; cbn; lia | lia].
  - intros k Hk. rewrite times_app. specialize (Hpast k Hk). unfold times at 2. cbn. rewrite bool_decide_eq_false_2 by (intros [= E]; lia). cbn. lia.
  - intros k Hk. rewrite times_app, Hfut by done. unfold times. cbn. by rewrite bool_decide_eq_false_2 by (intros [= E]; lia).
Qed.

Lemma orderly_silent o m f' : orderly delays tr n f -> resolved1 o = List.seq (S n) (m - n) -> (n <= m)%nat -> (forall k, o <> OPost k) ->
  (m = n /\ posts_of f' = posts_of f \/ m = S n /\ f' = Waiting) -> orderly delays (tr ++ [o]) m f'.
Proof.
  intros [Hr Hp [Hn Hnb] Hpast Hfut] Hres Hle Ho Hm.
  assert (Ht : forall k, times (OPost k) (tr ++ [o]) = times (OPost k) tr).
  { intros k. rewrite times_app. unfold times at 2. cbn. rewrite bool_decide_eq_false_2 by done. cbn. lia. }
  split.
  - rewrite resolved_app, Hr. cbn. rewrite app_nil_r, Hres. replace m with (n + (m - n))%nat at 2 by lia. by rewrite seq_app.
  - intros pre k post [(-> & -> & ->)|(post' & -> & ->)]%snoc_split; [by destruct (Ho k) | eauto].
  - rewrite Ht. destruct Hm as [[-> ->]|[-> ->]]; [done|]. cbn. split; [by apply Hfut; lia | lia].
  - intros k Hk. rewrite Ht. destruct (decide (k <= n)%nat); [by apply Hpast|]. replace k with (S n) by lia. lia.
  - intros k Hk. rewrite Ht. apply Hfut. lia.
Qed.
End Orderly.

Lemma times_settled_1 o tr : o <> OSettled -> times OSettled (tr ++ [o]) = times OSettled tr.
Proof. intros Ho. rewrite times_app. unfold times at 2. cbn. rewrite bool_decide_eq_false_2 by done. cbn. lia. Qed.

Lemma answered_wf delays x settled p k : wf delays p -> enqueued p !! next p = Some x -> flight p = Posting k -> wf delays (answered x settled p).
Proof.
  intros [Hn Hx Hf Hd Ho Hs] Hl Hk. pose proof (lookup_lt_Some _ _ _ Hl) as Hlt.
  assert (H1 : orderly delays (trace p ++ [OAnswered (S (next p))]) (S (next p)) Waiting).
  { eapply orderly_silent; [exact Ho | cbn; by replace (S (next p) - next p)%nat with 1%nat by lia | lia | done | by right]. }
  unfold answered. cbn. rewrite (Hn _ _ Hl). destruct (settled && negb (final x) && negb (settledCalled p)) eqn:E; cbn.
  - split; cbn; [done | lia | done | done | |].
    + change [OAnswered (S (next p)); OSettled] with ([OAnswered (S (next p))] ++ [OSettled]). rewrite app_assoc.
      eapply orderly_silent; [exact H1 | cbn; by rewrite Nat.sub_diag | lia | done | by left].
    + rewrite !andb_true_iff, !negb_true_iff in E. destruct E as [_ E]. rewrite E in Hs |- *. rewrite times_app, Hs. done.
  - rewrite orb_false_r. split; cbn; [done | lia | done | done | done |]. by rewrite times_settled_1.
Qed.

Lemma chat_handle_wf delays i p p' : wf delays p -> handle delays i p = Some p' -> wf delays p'.
Proof.
  intros Hwf. destruct i as [a| | | |settled|status|]; cbn [handle].
  - intros [= <-]. by apply chat_push_wf.
  - intros [= <-]. by apply chat_flush_wf.
  - destruct (timer p); [|done]. intros [= <-]. by apply chat_flush_wf.
  - destruct (enqueued p !! next p) as [x|] eqn:Hl; [|done]. destruct (flight p) eqn:Hf; [|done|done]. intros [= <-].
    destruct Hwf as [Hn Hx Hfl Hd Ho Hs]. rewrite (Hn _ _ Hl). split; cbn; [done | done | by intros _; eapply lookup_lt_Some | done | |by rewrite times_settled_1].
    rewrite Hf in Ho. eapply orderly_post; [exact Ho | done | cbn; lia].
  - destruct (enqueued p !! next p) as [x|] eqn:Hl; [|done]. destruct (flight p) eqn:Hf; [done| |done]. intros [= <-]. by eapply answered_wf.
  - destruct (enqueued p !! next p) as [x|] eqn:Hl; [|done]. destruct (flight p) as [|k|] eqn:Hf; [done| |done]. intros [= <-].
    destruct Hwf as [Hn Hx Hfl Hd Ho Hs]. rewrite (Hn _ _ Hl). pose proof (lookup_lt_Some _ _ _ Hl).
    unfold post_failed. destruct ((length delays <=? k)%nat || _) eqn:E; split; cbn; try done; try lia.
    + eapply orderly_silent; [exact Ho | cbn; by replace (S (next p) - next p)%nat with 1%nat by lia | lia | done | by right].
    + by rewrite times_settled_1.
    + intros j [= <-]. apply orb_false_iff in E as [E _]. apply Nat.leb_gt in E. done.
    + rewrite app_nil_r. rewrite Hf in Ho. destruct Ho. by split.
    + by rewrite app_nil_r.
  - destruct (enqueued p !! next p) as [x|] eqn:Hl; [|done]. destruct (flight p) as [| |k] eqn:Hf; [done|done|]. intros [= <-].
    destruct Hwf as [Hn Hx Hfl Hd Ho Hs]. rewrite (Hn _ _ Hl). pose proof (lookup_lt_Some _ _ _ Hl). specialize (Hd k Hf).
    split; cbn; [done | done | done | done | |by rewrite times_settled_1]. rewrite Hf in Ho. eapply orderly_post; [exact Ho | done | cbn; lia].
Qed.

(** Turns of the event loop other than a call change nothing of what is told. *)
Lemma handle_told delays i p p' : alarmed p -> handle delays i p = Some p' -> (forall a, i <> IPush a) ->
  told p' = told p /\ told_question p' = told_question p /\ parameters p' = parameters p /\ alarmed p'.
Proof.
  intros Ha. destruct (told_flush p) as (H1 & H2 & H3 & H4 & H5 & _). destruct i as [a| | | |settled|status|]; cbn [handle]; intros H Hi; [by destruct (Hi a)|..].
  - injection H as <-. repeat split; try done. by right.
  - destruct (timer p); [|done]. injection H as <-. repeat split; try done. by right.
  - destruct (_ !! _), (flight p); simplify_eq/=; done.
  - destruct (_ !! _), (flight p); simplify_eq/=; done.
  - destruct (_ !! _), (flight p); simplify_eq/=. by destruct (post_failed _ _ _).
  - destruct (_ !! _), (flight p); simplify_eq/=; done.
Qed.

(** What was told after some activities, from a state on. *)
Definition latest (q : option (string * string)) (l : list FlowActivity) : option (string * string) :=
  match last (questions l) with Some x => Some x | None => q end.

Lemma run_told delays ins p p' : alarmed p -> run delays ins p = Some p' ->
  told p' = told p ++ reply (parameters p) (pushes ins) /\ told_question p' = latest (told_question p) (pushes ins) /\ alarmed p'.
Proof.
  revert p. induction ins as [|i ins IH]; intros p Ha; cbn [run]; [intros [= <-]; by rewrite app_nil_r|].
  destruct (handle delays i p) as [p1|] eqn:Hi; [|done]. intros Hr. assert (Hcase : (exists a, i = IPush a) \/ forall a, i <> IPush a) by (destruct i; eauto).
  destruct Hcase as [[a ->]|Hp].
  - injection Hi as <-. destruct (told_push a p Ha) as (H1 & H2 & H3 & H4). destruct (IH _ H3 Hr) as (I1 & I2 & I3).
    rewrite I1, H1, H2, I2, H4. cbn [pushes flat_map app reply]. fold (pushes ins). rewrite app_assoc. split; [done|]. split; [|done].
    unfold latest, questions. cbn [flat_map]. destruct a; try done. cbn [app]. destruct (flat_map _ (pushes ins)) as [|x l] eqn:E; [done|].
    change (last ((activityId, body) :: x :: l)) with (last (x :: l)). destruct (last (x :: l)) eqn:El; [done | by apply last_None in El].
  - destruct (handle_told _ _ _ _ Ha Hi Hp) as (H1 & H2 & H3 & H4).
    destruct (IH _ H4 Hr) as (I1 & I2 & I3). rewrite I1, I2, H1, H2, H3. by destruct i; [destruct (Hp a)|..].
Qed.

Lemma run_wf delays ins p p' : wf delays p -> run delays ins p = Some p' -> wf delays p'.
Proof.
  revert p. induction ins as [|i ins IH]; intros p Hp; cbn [run]; [by intros [= <-]|].
  destruct (handle delays i p) eqn:E; [|done]. apply IH. by eapply chat_handle_wf.
Qed.

(** C15 (chat_reply_faithful).  Whatever the timing of the run, of the coalescing and of Flow's answers: what a chat reply was told, posted or still to be posted,
    is exactly the text and the activities of the run, in order, and the latest wording of the question; the posts are numbered
    from 1 without gaps and made one at a time in that order, each at most once more than there are retry delays; what
    waits has a timer; and the reply is reported settled at most once. *)
Theorem chat_reply_faithful delays ins p : run delays ins new_poster = Some p ->
  told p = reply [] (pushes ins)
  /\ told_question p = last (questions (pushes ins))
  /\ (forall i x, enqueued p !! i = Some x -> seq x = S i)
  /\ orderly delays (trace p) (next p) (flight p)
  /\ alarmed p
  /\ (times OSettled (trace p) <= 1)%nat.
Proof.
  intros Hr. assert (H0 : alarmed new_poster) by (by right). destruct (run_told _ _ _ _ H0 Hr) as (H1 & H2 & H3).
  pose proof (run_wf _ _ _ _ (new_wf delays) Hr) as [Hn _ _ _ Ho Hs].
  split; [done|]. split; [unfold latest in H2; by destruct (last (questions _))|]. split; [done|]. split; [done|]. split; [done|].
  rewrite Hs. destruct (settledCalled p); lia.
Qed.

Lemma chat_reply_faithful_witness :
  let ins := [IPush (ATextDelta "Hel"); IPush (ATextDelta "lo"); IPush (AAction "c1" "search" None); IStart; IFail None; IDelayOver; IAnswer false;
              IPush (AResponse "Hello" false); IStart; IAnswer true] in
  exists p, run [250%Z] ins new_poster = Some p
    /\ map activity (enqueued p) = [CTextDelta "Hello"; CAction "c1:call" "c1" "search" None; CResponse "Hello"]
    /\ trace p = [OPost 1; OPost 1; OAnswered 1; OPost 2; OAnswered 2; OSettled] /\ told p = reply [] (pushes ins).
Proof.
  intros ins. destruct (run [250%Z] ins new_poster) as [p|] eqn:E; [|vm_compute in E; discriminate]. exists p.
  pose proof (chat_reply_faithful [250%Z] ins p E) as (H & _). split; [reflexivity|]. vm_compute in E. injection E as <-. split; [reflexivity|]. split; [reflexivity|]. exact H.
Defined.
End Chat.
