(* ===== verification/ThreadPoster.v ===== *)
(** * What a run in a thread posts to Flow, and the conversation of a chat run
      (agent-worker/src/thread-run.ts, chat-run.ts)

    [ThreadActivityPoster] turns the activities of a run into posts of a session: [push] enqueues them on a
    promise chain, which delivers them one after the other with [deliver].  [Conversation] is what a chat run starts
    from: Flow's messages as items of the model library. *)

From Stdlib Require Import ZArith Lia Bool List Ascii.
From stdpp Require Import base list strings.
From S2P Require Import Prelude JsString JsMap Json Posters.

Local Set Warnings "-register-all".

(** ** Sessions in a thread *)

Module Thread.

Inductive ThreadType := t_action | t_output | t_elicitation | t_response | t_error.

#[export] Instance ThreadType_eq_dec : EqDecision ThreadType.
Proof. solve_decision. Defined.

Definition show_type (t : ThreadType) : string :=
  match t with t_action => "action" | t_output => "output" | t_elicitation => "elicitation" | t_response => "response" | t_error => "error" end.

Record ThreadActivity := mkThreadActivity { activityId : string; type : ThreadType; body : string; elicitation : option Elicitation }.

Definition threadProviderError : string := "Agent execution failed. Check the provider configuration and retry.".

Definition hostTools : list string := ["ask_user"; "load_tools"; "ask_question"].

(** [fate] records what became of the streamed text: posted ([true]) or dropped, in order. *)
Record Poster := mkPoster {
  pending : string; turnText : string; afterCall : bool; sawResult : bool; last_at : Z; enqueued : list ThreadActivity; fate : list (bool * string) }.

Definition new_poster : Poster := mkPoster "" "" false false 0 [] [].

Section Push.
(** [options.attempt ?? 1] *)
Context (attempt : option Z).

Definition enqueue (t : ThreadType) (b : string) (e : option Elicitation) (p : Poster) : Poster :=
  let id := showZ (attempt ?? 1%Z) +:+ ":" +:+ showZ (Z.of_nat (S (length (enqueued p)))) +:+ ":" +:+ show_type t in
  mkPoster (pending p) (turnText p) (afterCall p) (sawResult p) (last_at p) (enqueued p ++ [mkThreadActivity id t b e]) (fate p).

Definition drop_pending (p : Poster) : Poster :=
  mkPoster "" (turnText p) (afterCall p) (sawResult p) (last_at p) (enqueued p) (fate p ++ [(false, pending p)]).

Definition set_turn (text : string) (after saw : bool) (p : Poster) : Poster :=
  mkPoster (pending p) text after saw (last_at p) (enqueued p) (fate p).

(** The text written so far is posted. *)
Definition post_pending (now : Z) (p : Poster) : Poster :=
  let q := enqueue t_output (pending p) None p in
  mkPoster "" (turnText q) (afterCall q) (sawResult q) now (enqueued q) (fate q ++ [(true, pending p)]).

(** [now] is the clock during the call. *)
Definition push (now : Z) (a : FlowActivity) (p : Poster) : Poster :=
  match a with
  | ATextDelta delta =>
      let p1 := if afterCall p then set_turn "" false false p else p in
      let p2 := mkPoster (pending p1 +:+ delta) (turnText p1 +:+ delta) (afterCall p1) (sawResult p1) (last_at p1) (enqueued p1) (fate p1) in
      let len := Z.of_nat (String.length (pending p2)) in
      if (32000 <? len)%Z || ((1000 <? now - last_at p2)%Z && (100 <? len)%Z) then post_pending now p2 else p2
  | AAction _ action _ =>
      let p1 := drop_pending p in
      let p2 := if sawResult p1 then set_turn "" true false p1 else set_turn (turnText p1) true (sawResult p1) p1 in
      if existsb (String.eqb action) hostTools || startsWith "external_" action then p2 else enqueue t_action action None p2
  | AActionResult _ _ _ _ _ => set_turn (turnText p) true true p
  | AElicitation e => let p1 := drop_pending p in enqueue t_elicitation (if sawResult p1 then "" else turnText p1) (Some e) p1
  | AResponse body canceled => let p1 := drop_pending p in if canceled then p1 else enqueue t_response body None p1
  | AError body flow => enqueue t_error (if flow then body else threadProviderError) None (drop_pending p)
  | AThought _ _ | AQuestionDelta _ _ | AConnectorElicitation => p
  end.

Definition push_all (l : list (Z * FlowActivity)) (p : Poster) : Poster := fold_left (fun p x => push (fst x) (snd x) p) l p.
End Push.

(** A failed delivery: whether the session no longer takes activities ([onRejected]). *)
Definition rejected (status : option Z) : bool := bool_decide (status = Some 409%Z).

(** [deliver], given what each post answers ([inl]: the status of its failure): the posts made and the error that is left. *)
Fixpoint deliver (delays : list Z) (answers : nat -> option Z + unit) (attempt : nat) : nat * option (option Z) :=
  match answers attempt with
  | inr _ => (S attempt, None)
  | inl status =>
      match delays with
      | [] => (S attempt, Some status)
      | _ :: rest => if retryablePostError status then deliver rest answers (S attempt) else (S attempt, Some status)
      end
  end.

(** ** What the thread is told *)

(** The posts an activity makes beside streamed text: their type and, but for a question, their words. *)
Definition says (a : FlowActivity) : list (ThreadType * string) :=
  match a with
  | AAction _ action _ => if existsb (String.eqb action) hostTools || startsWith "external_" action then [] else [(t_action, action)]
  | AElicitation _ => [(t_elicitation, "")]
  | AResponse body false => [(t_response, body)]
  | AError body flow => [(t_error, if flow then body else threadProviderError)]
  | _ => []
  end.

Definition spoken1 (x : ThreadActivity) : list (ThreadType * string) :=
  match type x with t_output => [] | t_elicitation => [(t_elicitation, "")] | t => [(t, body x)] end.
Definition spoken (l : list ThreadActivity) : list (ThreadType * string) := flat_map spoken1 l.

Definition delta (a : FlowActivity) : string := match a with ATextDelta d => d | _ => "" end.
Fixpoint concat_text (l : list string) : string := match l with [] => "" | x :: r => x +:+ concat_text r end.

Definition outputs (l : list ThreadActivity) : list string := map body (List.filter (fun x => bool_decide (type x = t_output)) l).
Definition posted_text (f : list (bool * string)) : list string := map snd (List.filter fst f).

Lemma concat_text_app l k : concat_text (l ++ k) = concat_text l +:+ concat_text k.
Proof. induction l as [|x l IH]; [done|]. cbn. rewrite IH. by rewrite string_app_assoc. Qed.

Definition numbered_id (attempt : option Z) (n : nat) (t : ThreadType) : string :=
  showZ (attempt ?? 1%Z) +:+ ":" +:+ showZ (Z.of_nat n) +:+ ":" +:+ show_type t.

Record told (attempt : option Z) (said : list (ThreadType * string)) (streamed : string) (p : Poster) : Prop := {
  told_spoken : spoken (enqueued p) = said;
  told_text : concat_text (map snd (fate p)) +:+ pending p = streamed;
  told_outputs : outputs (enqueued p) = posted_text (fate p);
  told_ids : forall i x, enqueued p !! i = Some x -> activityId x = numbered_id attempt (S i) (type x) }.

Lemma told_drop attempt said streamed p : told attempt said streamed p -> told attempt said streamed (drop_pending p).
Proof.
  intros [H1 H2 H3 H5]. split; cbn; [done | | | done].
  - rewrite map_app, concat_text_app. cbn. by rewrite !append_empty_r.
  - unfold posted_text in *. rewrite List.filter_app, map_app. cbn. by rewrite app_nil_r.
Qed.

Lemma told_turn attempt said streamed t a s p : told attempt said streamed p -> told attempt said streamed (set_turn t a s p).
Proof. intros [H1 H2 H3 H5]. by split. Qed.

Lemma told_speak attempt said streamed t b e p : t <> t_output -> told attempt said streamed p ->
  told attempt (said ++ spoken1 (mkThreadActivity "" t b e)) streamed (enqueue attempt t b e p).
Proof.
  intros Ht [H1 H2 H3 H5]. split; cbn; [| done | |].
  - unfold spoken in *. rewrite flat_map_app, H1. cbn. by rewrite app_nil_r.
  - unfold outputs in *. rewrite List.filter_app, map_app. cbn. rewrite bool_decide_eq_false_2 by done. by rewrite app_nil_r.
  - intros i x [H|[Hi Hx]]%lookup_app_Some; [by apply H5|]. apply list_lookup_singleton_Some in Hx as [Hx <-]. cbn.
    unfold numbered_id. by replace (S i) with (S (length (enqueued p))) by lia.
Qed.

Lemma told_post attempt said streamed now p : told attempt said streamed p -> told attempt said streamed (post_pending attempt now p).
Proof.
  intros [H1 H2 H3 H5]. split; cbn; [| | |].
  - unfold spoken in *. rewrite flat_map_app, H1. cbn. by rewrite app_nil_r.
  - rewrite map_app, concat_text_app. cbn. by rewrite !append_empty_r.
  - unfold outputs, posted_text in *. rewrite !List.filter_app, !map_app. cbn. by rewrite H3.
  - intros i x [H|[Hi Hx]]%lookup_app_Some; [by apply H5|]. apply list_lookup_singleton_Some in Hx as [Hx <-]. cbn.
    unfold numbered_id. by replace (S i) with (S (length (enqueued p))) by lia.
Qed.

(** Room for the pending text. *)
Definition bounded (p : Poster) : Prop := (Z.of_nat (String.length (pending p)) <= 32000)%Z.

Lemma push_told attempt now a said streamed p : bounded p -> told attempt said streamed p ->
  told attempt (said ++ says a) (streamed +:+ delta a) (push attempt now a p) /\ bounded (push attempt now a p).
Proof.
  intros Hb Ht. pose proof (told_drop _ _ _ _ Ht) as Hd. assert (H0 : bounded (drop_pending p)) by (unfold bounded; cbn; lia).
  destruct a as [|b eph|d|id action par|id action result err change|e|id b|b canceled|b flow]; cbn [push says delta]; rewrite ?append_empty_r, ?app_nil_r; try done.
  - set (p1 := if afterCall p then set_turn "" false false p else p).
    assert (H1 : told attempt said streamed p1) by (unfold p1; destruct (afterCall p); [by apply told_turn | done]).
    set (p2 := mkPoster _ _ _ _ _ _ _). assert (H2 : told attempt said (streamed +:+ d) p2).
    { destruct H1 as [G1 G2 G3 G5]. split; cbn; [done | by rewrite <- string_app_assoc, G2 | done | done]. }
    destruct ((32000 <? _)%Z || _) eqn:E; [split; [by apply told_post | unfold bounded; cbn; lia]|].
    split; [done|]. apply orb_false_iff in E as [E%Z.ltb_ge _]. done.
  - set (p2 := if sawResult _ then _ else _). assert (H2 : told attempt said streamed p2 /\ bounded p2).
    { unfold p2. destruct (sawResult _); (split; [by apply told_turn | done]). }
    destruct H2 as [H2 Hb2]. destruct (_ || _); [by rewrite app_nil_r|]. split; [by apply (told_speak attempt said streamed t_action action None) | done].
  - split; [by apply told_turn | done].
  - split; [by apply (told_speak attempt said streamed t_elicitation _ (Some e)) | done].
  - destruct canceled; [by rewrite app_nil_r|]. split; [by apply (told_speak attempt said streamed t_response b None) | done].
  - split; [by apply (told_speak attempt said streamed t_error _ None) | done].
Qed.

Lemma push_all_told attempt l said streamed p : bounded p -> told attempt said streamed p ->
  told attempt (said ++ flat_map (fun x => says (snd x)) l) (streamed +:+ concat_text (map (fun x => delta (snd x)) l)) (push_all attempt l p)
  /\ bounded (push_all attempt l p).
Proof.
  revert said streamed p. induction l as [|[now a] l IH]; intros said streamed p Hb Ht; cbn [flat_map map concat_text snd push_all fold_left fst].
  - by rewrite app_nil_r, append_empty_r.
  - destruct (push_told attempt now a said streamed p Hb Ht) as [H1 H2]. destruct (IH _ _ _ H2 H1) as [H3 H4].
    split; [|done]. by rewrite app_assoc, <- string_app_assoc.
Qed.

Lemma numbered_id_inj attempt n m t u : numbered_id attempt n t = numbered_id attempt m u -> n = m.
Proof.
  unfold numbered_id. set (a := showZ _). intros H.
  assert (H' : showZ (Z.of_nat n) +:+ ":" +:+ show_type t = showZ (Z.of_nat m) +:+ ":" +:+ show_type u).
  { revert H. generalize a. intros s. induction s as [|c s IHs]; cbn [String.append]; intros H; injection H as H; [done | by apply IHs]. }
  apply (f_equal take_digits) in H'. rewrite !take_digits_show in H' by (done || lia). injection H' as H' _.
  apply (f_equal digits_value) in H'. rewrite !digits_value_show in H' by lia. injection H' as H'. lia.
Qed.

(** Every activity of a run in a thread becomes exactly one post, in order (a call of a Flow tool, the question, the answer, the
    error in the words of Flow or of the provider message; host tools, connector tools and a stopped run none); the streamed text is posted
    as it is, in order, or dropped as narration, and never more than 32000 characters of it wait; and no two posts share an id. *)
Theorem thread_told_faithful attempt l :
  let p := push_all attempt l new_poster in
  spoken (enqueued p) = flat_map (fun x => says (snd x)) l
  /\ concat_text (map snd (fate p)) +:+ pending p = concat_text (map (fun x => delta (snd x)) l)
  /\ outputs (enqueued p) = posted_text (fate p)
  /\ (Z.of_nat (String.length (pending p)) <= 32000)%Z
  /\ NoDup (map activityId (enqueued p)).
Proof.
  intros p. destruct (push_all_told attempt l [] "" new_poster) as [[H1 H2 H3 H5] Hb]; [unfold bounded; cbn; lia | by split |].
  repeat (split; [done|]). apply NoDup_alt. intros i j x Hi Hj. apply list_lookup_fmap_Some in Hi as (a & -> & Ha), Hj as (b & Hab & Hbj).
  rewrite (H5 _ _ Ha), (H5 _ _ Hbj) in Hab. apply numbered_id_inj in Hab. lia.
Qed.

(** A post is made again only after a failure that may pass, at most once per delay, and what is left over is the last failure. *)
Lemma deliver_spec delays answers k n left : deliver delays answers k = (n, left) ->
  (k < n <= S (k + length delays))%nat
  /\ (forall i, (k <= i)%nat -> (S i < n)%nat -> exists status, answers i = inl status /\ retryablePostError status = true)
  /\ match left with
     | None => answers (n - 1)%nat = inr tt
     | Some status => answers (n - 1)%nat = inl status /\ (retryablePostError status = false \/ n = S (k + length delays))
     end.
Proof.
  revert k n left. induction delays as [|d rest IH]; intros k n left; cbn [deliver]; destruct (answers k) as [status|[]] eqn:E.
  - intros [= <- <-]. cbn. rewrite Nat.sub_0_r. split; [lia|]. split; [intros; lia|]. auto.
  - intros [= <- <-]. cbn. rewrite Nat.sub_0_r. split; [lia|]. split; [intros; lia | done].
  - destruct (retryablePostError status) eqn:Er.
    + intros (H1 & H2 & H3)%IH. cbn [length]. split; [lia|]. split.
      * intros i Hi Hn. destruct (decide (i = k)) as [->|Hne]; [eauto | apply H2; lia].
      * destruct left; [|done]. destruct H3 as [? [?|?]]; split; auto; right; lia.
    + intros [= <- <-]. cbn. rewrite Nat.sub_0_r. split; [lia|]. split; [intros; lia|]. auto.
  - intros [= <- <-]. cbn. rewrite Nat.sub_0_r. split; [lia|]. split; [intros; lia | done].
Qed.
End Thread.

(** ** The conversation of a chat run *)

Module Conversation.

Inductive Role := r_user | r_assistant | r_tool | r_system.

Record ToolCall := mkToolCall { tc_id : string; tc_name : string; tc_arguments : string }.
Record Image := mkImage { im_name : string; im_mediaType : string; im_data : string }.

Record PromptMessage := mkMessage {
  role : Role; content : string; toolCalls : list ToolCall; toolCallId : option string; images : list Image }.

(** The items of the model library the worker builds. *)
Inductive Item :=
  | IUser (text : string)
  | IUserImages (text : string) (images : list string)
  | IAssistant (text : string)
  | ICall (callId name arguments : string)
  | IResult (callId : string) (name : option string) (text : string).

Definition data_url (i : Image) : string := "data:" +:+ im_mediaType i +:+ ";base64," +:+ im_data i.

Definition userItem (m : PromptMessage) : Item :=
  match images m with [] => IUser (content m) | l => IUserImages (content m) (map data_url l) end.

(** One message: the items it adds and the names of the calls known after it. *)
Definition message_items (names : list (string * string)) (m : PromptMessage) : list Item * list (string * string) :=
  match role m with
  | r_user => ([userItem m], names)
  | r_assistant =>
      ((if truthy (trim (content m)) then [IAssistant (content m)] else [])
       ++ map (fun c => ICall (tc_id c) (tc_name c) (if truthy (tc_arguments c) then tc_arguments c else "{}")) (toolCalls m),
       fold_left (fun n c => map_set (tc_id c) (tc_name c) n) (toolCalls m) names)
  | r_tool =>
      match toolCallId m with
      | Some id => if truthy id && map_has id names then ([IResult id (map_get id names) (content m)], names) else ([], names)
      | None => ([], names)
      end
  | r_system => ([], names)
  end.

Fixpoint items_of (names : list (string * string)) (l : list PromptMessage) : list Item :=
  match l with [] => [] | m :: rest => let '(items, names') := message_items names m in items ++ items_of names' rest end.

Definition is_user (m : PromptMessage) : bool := match role m with r_user => true | _ => false end.

(** [messages.findLast(m => m.role === 'user')?.content ?? ''] *)
Definition last_user (l : list PromptMessage) : string := match last (List.filter is_user l) with Some m => content m | None => "" end.

Record ChatConversation := mkConversation { history : list Item; request : string; input : option (list Item) }.

Definition chatConversation (messages : list PromptMessage) : ChatConversation :=
  let items := items_of [] messages in
  match last items with
  | Some (IUser text) => mkConversation (removelast items) text None
  | Some (IUserImages text urls) => mkConversation (removelast items) (last_user messages) (Some [IUserImages text urls])
  | _ => mkConversation items "" None
  end.

(** Every known name is the name of a call already in the items. *)
Definition known (names : list (string * string)) (items : list Item) : Prop :=
  forall id name, map_get id names = Some name -> exists args, In (ICall id name args) items.

Lemma known_more names items more : known names items -> known names (items ++ more).
Proof. intros Hk id name H. destruct (Hk id name H) as [args Hin]. exists args. apply in_app_iff. auto. Qed.

Lemma known_calls calls names items : known names items ->
  known (fold_left (fun n c => map_set (tc_id c) (tc_name c) n) calls names)
    (items ++ map (fun c => ICall (tc_id c) (tc_name c) (if truthy (tc_arguments c) then tc_arguments c else "{}")) calls).
Proof.
  revert names items. induction calls as [|c calls IH]; intros names items Hk; cbn [fold_left map]; [by rewrite app_nil_r|].
  set (x := ICall _ _ _). change (x :: ?k) with ([x] ++ k). rewrite app_assoc. apply IH. intros id name H.
  destruct (decide (id = tc_id c)) as [->|Hne].
  - rewrite map_get_set_eq in H. injection H as <-. eexists. apply in_app_iff. right. by left.
  - rewrite map_get_set_ne in H by done. destruct (Hk id name H) as [args Hin]. exists args. apply in_app_iff. auto.
Qed.

(** Each result among the items follows a call with its id and name. *)
Definition answered (items : list Item) : Prop :=
  forall pre id name text post, items = pre ++ IResult id name text :: post -> exists n args, name = Some n /\ In (ICall id n args) pre.

Lemma answered_app items more : answered items ->
  (forall pre id name text post, more = pre ++ IResult id name text :: post -> exists n args, name = Some n /\ In (ICall id n args) (items ++ pre)) ->
  answered (items ++ more).
Proof.
  intros Ha Hm pre id name text post H. apply app_eq_app in H as (k & [[-> H]|[-> H]]).
  - destruct k as [|x k]; cbn in H; [|injection H as <- ->; by eapply (Ha pre)]. destruct (Hm [] id name text post (eq_sym H)) as (n & args & Hn & Hin). rewrite !app_nil_r in *. eauto.
  - by eapply Hm.
Qed.

Lemma items_answered names before l : known names before -> answered before -> answered (before ++ items_of names l).
Proof.
  revert names before. induction l as [|m l IH]; intros names before Hk Ha; cbn [items_of]; [by rewrite app_nil_r|].
  destruct (message_items names m) as [items names'] eqn:E.
  assert (H : known names' (before ++ items) /\ answered (before ++ items)).
  { unfold message_items in E. destruct (role m).
    - injection E as <- <-. split; [by apply known_more|]. apply answered_app; [done|]. unfold userItem. destruct (images m); intros [|? [|]] *; naive_solver.
    - injection E as <- <-. rewrite app_assoc. split; [by apply known_calls, known_more|].
      rewrite <- app_assoc. apply answered_app; [done|]. intros pre id name text post H.
      assert (Hin : In (IResult id name text) (pre ++ IResult id name text :: post)) by (apply in_app_iff; right; by left).
      rewrite <- H in Hin. apply in_app_iff in Hin as [Hin|Hin]; [by destruct (truthy _); [destruct Hin as [|[]]|]|]. apply in_map_iff in Hin as (c & ? & _). done.
    - destruct (toolCallId m) as [id|]; [|injection E as <- <-; by rewrite app_nil_r].
      destruct (truthy id && map_has id names) eqn:Eh; injection E as <- <-; [|by rewrite app_nil_r].
      split; [by apply known_more|]. apply answered_app; [done|]. intros [|? [|]] id' name text post H; [|done|done].
      injection H as <- <- <- <-. rewrite app_nil_r. apply andb_true_iff in Eh as [_ Eh]. unfold map_has in Eh. apply isSome_true in Eh as [n Hn].
      destruct (Hk id n Hn) as [args Hin]. eauto.
    - injection E as <- <-. by rewrite app_nil_r. }
  destruct H as [H1 H2]. rewrite app_assoc. by apply IH.
Qed.

(** The text of a user item. *)
Definition user_text (i : Item) : option string := match i with IUser t | IUserImages t _ => Some t | _ => None end.

Lemma no_items_no_user names l : items_of names l = [] -> List.filter is_user l = [].
Proof.
  revert names. induction l as [|m l IH]; intros names; cbn [items_of List.filter]; [done|].
  unfold message_items, is_user. destruct (role m); [done|..].
  - intros [_ H]%app_nil. by eapply IH.
  - destruct (toolCallId m) as [id|]; [|by intros H; eapply IH]. destruct (_ && _); [done|]. intros H. by eapply IH.
  - intros H. by eapply IH.
Qed.

Lemma message_user names m i t : last (fst (message_items names m)) = Some i -> user_text i = Some t -> role m = r_user /\ content m = t.
Proof.
  unfold message_items. destruct (role m); cbn [fst].
  - intros [= <-]. unfold userItem. destruct (images m); intros [= <-]; done.
  - intros Hl Ht. exfalso. apply last_Some_elem_of, list_elem_of_In, in_app_iff in Hl as [Hl|Hl].
    + destruct (truthy _); [|done]. destruct Hl as [<-|[]]. done.
    + apply in_map_iff in Hl as (c & <- & _). done.
  - destruct (toolCallId m); [|done]. destruct (_ && _); [|done]. by intros [= <-].
  - done.
Qed.

(** When the last item is the person's, it is their last message. *)
Lemma last_item_user names l i t : last (items_of names l) = Some i -> user_text i = Some t ->
  exists m, last (List.filter is_user l) = Some m /\ content m = t.
Proof.
  revert names. induction l as [|m l IH]; intros names; cbn [items_of]; [done|].
  pose proof (message_user names m i t) as Hm. destruct (message_items names m) as [items names'] eqn:E. cbn [fst] in Hm. intros Hl Ht. cbn [List.filter].
  destruct (items_of names' l) as [|x rest] eqn:Er.
  - rewrite app_nil_r in Hl. destruct (Hm Hl Ht) as [Hr Hc]. unfold is_user at 1. rewrite Hr, (no_items_no_user _ _ Er). by exists m.
  - rewrite last_app_cons in Hl. rewrite <- Er in Hl. destruct (IH _ Hl Ht) as (m' & Hl' & Hc). exists m'. split; [|done].
    destruct (is_user m); [|done]. rewrite last_cons, Hl'. done.
Qed.

(** The history of a chat run is what Flow's messages say, in order, less the person's message the reply answers: that message is the
    request, or with its images the input; and every tool result in it follows the call it answers. *)
Theorem chat_conversation_sound messages :
  let c := chatConversation messages in
  let items := items_of [] messages in
  answered items
  /\ (history c = items /\ request c = "" /\ input c = None
      \/ exists i, items = history c ++ [i] /\ user_text i = Some (request c) /\ (input c = None /\ i = IUser (request c) \/ input c = Some [i])).
Proof.
  intros c items. split; [apply (items_answered [] []); [done | by intros [] *]|]. unfold c, chatConversation. fold items.
  destruct (last items) as [i|] eqn:El; [|by left]. assert (Hi : items = removelast items ++ [i]).
  { destruct items as [|x l] eqn:Ex using rev_ind; [done|]. rewrite removelast_last. rewrite last_snoc in El. by injection El as ->. }
  destruct i as [t|t urls|t|id name args|id name t]; try by left.
  - right. exists (IUser t). cbn. auto.
  - right. destruct (last_item_user [] messages _ t El eq_refl) as (m & Hm & Hc). exists (IUserImages t urls). cbn. split; [done|].
    split; [|auto]. unfold last_user. by rewrite Hm, Hc.
Qed.
End Conversation.
