(* ===== verification/AgentQueue.v ===== *)
(** * The worker on Flow's run queue
      (agent-worker/src/queue-worker.ts, agent-worker/src/runtime-client.ts)

    [CancelWatcher] keeps one long poll open while the worker holds runs and stops each run Flow names, once.
    [execute] runs one claimed run and reports how it ended.  [Queue] is the loop that claims runs for
    the free slots.  The watcher and the loop are machines over the turns of the event loop; what Flow, the
    model run and the timers do in an execution is an argument. *)

From Stdlib Require Import ZArith Lia Bool List.
From stdpp Require Import base list strings relations.
From S2P Require Import Prelude JsString RuntimeClient.

Local Set Warnings "-register-all".

(** ** The cancel watcher *)

Module Watcher.

(** Where [run] stands: before it started, parked without runs, woken up, in a poll, in the delay after a failed poll, or returned. *)
Inductive Phase := Fresh | Parked | Woken | Polling (ignore : list string) | Retrying | Returned.

(** [held] are the runs with a session; [stops] records the calls of [onCancel], and [None] marks the end of a run: [(id, true)] a stop, [(id, false)] an end. *)
Record Watcher := mkWatcher { stopping : list string; closed : bool; phase : Phase; held : list string; stops : list (string * bool) }.

Definition new_watcher : Watcher := mkWatcher [] false Fresh [] [].

Definition set_phase (f : Phase) (w : Watcher) : Watcher := mkWatcher (stopping w) (closed w) f (held w) (stops w).

(** [this.wake?.()]: a parked run goes on in the next turn. *)
Definition wake (w : Watcher) : Watcher := match phase w with Parked => set_phase Woken w | _ => w end.

(** The head of the loop, up to the next suspension. *)
Definition loop_head (w : Watcher) : Watcher :=
  if closed w then set_phase Returned w
  else match held w with [] => set_phase Parked w | _ => set_phase (Polling (stopping w)) w end.

Definition has (id : string) (l : list string) : bool := existsb (String.eqb id) l.

(** The loop over the answered runs. *)
Fixpoint cancel_all (ids : list string) (w : Watcher) : Watcher :=
  match ids with
  | [] => w
  | id :: rest =>
      cancel_all rest (if has id (stopping w) then w
                       else mkWatcher (id :: stopping w) (closed w) (phase w) (held w) (stops w ++ [(id, true)]))
  end.

Definition remove_id (id : string) (l : list string) : list string := List.filter (fun x => negb (x =s id)) l.

(** The session of a run is registered and [started] is called. *)
Definition started (id : string) (w : Watcher) : Watcher :=
  wake (mkWatcher (stopping w) (closed w) (phase w) (remove_id id (held w) ++ [id]) (stops w)).

(** The session of a run is removed and [finished] is called. *)
Definition finished (id : string) (w : Watcher) : Watcher :=
  mkWatcher (remove_id id (stopping w)) (closed w) (phase w) (remove_id id (held w)) (stops w ++ [(id, false)]).

Definition close (w : Watcher) : Watcher := wake (mkWatcher (stopping w) true (phase w) (held w) (stops w)).

Inductive Input := IRun | IStarted (id : string) | IFinished (id : string) | IClose | IWoken | IAnswer (cancel : list string) | IFail | IRetry.

Definition handle (i : Input) (w : Watcher) : option Watcher :=
  match i, phase w with
  | IRun, Fresh => Some (loop_head w)
  | IStarted id, _ => Some (started id w)
  | IFinished id, _ => Some (finished id w)
  | IClose, _ => Some (close w)
  | IWoken, Woken => Some (loop_head w)
  | IAnswer cancel, Polling _ => Some (loop_head (cancel_all cancel w))
  | IFail, Polling _ => Some (set_phase (if closed w then Returned else Retrying) w)
  | IRetry, Retrying => Some (loop_head w)
  | _, _ => None
  end.

Definition reachable : Watcher -> Prop := rtc (fun w w' => exists i, handle i w = Some w') new_watcher.

(** After the last end of the run in the record: whether it was told to stop. *)
Definition told (id : string) (l : list (string * bool)) : list bool := map snd (List.filter (fun e => fst e =s id) l).

(** In the record of one run no two stops follow each other without an end between them. *)
Definition once_each (l : list bool) : Prop := forall pre post, l <> pre ++ true :: true :: post.

Record wf_watch (w : Watcher) : Prop := {
  wf_parked : phase w = Parked -> held w = [] /\ closed w = false;
  wf_stopping : forall id, has id (stopping w) = true <-> last (told id (stops w)) = Some true;
  wf_once : forall id, once_each (told id (stops w)) }.

Lemma told_snoc id l e : told id (l ++ [e]) = told id l ++ (if fst e =s id then [snd e] else []).
Proof. unfold told. rewrite List.filter_app, map_app. cbn. by destruct (fst e =s id). Qed.

Lemma once_snoc l b : once_each l -> (b = true -> last l <> Some true) -> once_each (l ++ [b]).
Proof.
  intros Hl Hb pre post H. destruct post as [|x post _] using rev_ind.
  - change (pre ++ [true; true]) with (pre ++ [true] ++ [true]) in H. rewrite app_assoc in H. apply app_inj_tail in H as [-> ->].
    apply (Hb eq_refl). by rewrite last_snoc.
  - rewrite !app_comm_cons, app_assoc in H. apply app_inj_tail in H as [-> _]. by apply (Hl pre post).
Qed.

Lemma has_remove id x l : has id (remove_id x l) = has id l && negb (x =s id).
Proof.
  unfold has, remove_id. induction l as [|y l IH]; [done|]. cbn. destruct (y =s x) eqn:E; cbn; rewrite IH.
  - apply String.eqb_eq in E as ->. rewrite (String.eqb_sym id x). destruct (x =s id); cbn; [by rewrite andb_false_r | done].
  - destruct (id =s y) eqn:E2; [|done]. apply String.eqb_eq in E2 as ->. by rewrite String.eqb_sym, E.
Qed.

(** The parts of the invariant that speak of the record. *)
Definition record_ok (w : Watcher) : Prop :=
  forall id, (has id (stopping w) = true <-> last (told id (stops w)) = Some true) /\ once_each (told id (stops w)).

Lemma cancel_all_ok ids w : record_ok w -> record_ok (cancel_all ids w).
Proof.
  revert w. induction ids as [|x ids IH]; intros w Hw; [done|]. cbn [cancel_all]. apply IH. destruct (has x (stopping w)) eqn:Hx; [done|].
  intros id. destruct (Hw id) as [Hs Ho]. cbn [stops stopping]. rewrite told_snoc. cbn [fst snd]. unfold has. cbn [existsb]. fold (has id (stopping w)).
  rewrite (String.eqb_sym id x). destruct (x =s id) eqn:E; cbn [orb].
  - apply String.eqb_eq in E as ->. rewrite last_snoc. split; [done|]. apply once_snoc; [done|]. intros _ Hl. apply Hs in Hl. congruence.
  - by rewrite app_nil_r.
Qed.

Lemma cancel_all_rest ids w : held (cancel_all ids w) = held w /\ closed (cancel_all ids w) = closed w /\ phase (cancel_all ids w) = phase w.
Proof. revert w. induction ids as [|x ids IH]; intros w; [done|]. cbn [cancel_all]. destruct (IH (if has x (stopping w) then w else mkWatcher (x :: stopping w) (closed w) (phase w) (held w) (stops w ++ [(x, true)]))) as (-> & -> & ->). by destruct (has x (stopping w)). Qed.

Lemma finished_ok id w : record_ok w -> record_ok (finished id w).
Proof.
  intros Hw x. destruct (Hw x) as [Hs Ho]. cbn [finished stops stopping]. rewrite told_snoc, has_remove. cbn [fst snd].
  destruct (id =s x) eqn:E; cbn [negb]; rewrite ?andb_false_r, ?andb_true_r, ?app_nil_r; [|done].
  rewrite last_snoc. split; [done|]. by apply once_snoc.
Qed.

Lemma wf_watch_split w : wf_watch w <-> (phase w = Parked -> held w = [] /\ closed w = false) /\ record_ok w.
Proof. split; [intros [H1 H2 H3]; split; [done|]; intros id; by split | intros [H1 H2]; split; [done | apply H2 | apply H2]]. Qed.

Lemma loop_head_ok w : record_ok w -> wf_watch (loop_head w).
Proof.
  intros Hr. apply wf_watch_split. unfold loop_head. destruct (closed w) eqn:Ec; [done|]. destruct (held w) eqn:Eh; cbn; [|done]. split; [done | exact Hr].
Qed.

Lemma handle_watch i w w' : wf_watch w -> handle i w = Some w' -> wf_watch w'.
Proof.
  intros Hw. pose proof Hw as Hw0. apply wf_watch_split in Hw as [Hp Hr].
  destruct i; cbn [handle]; intros H.
  - destruct (phase w); try done. injection H as <-. by apply loop_head_ok.
  - injection H as <-. apply wf_watch_split. unfold started, wake. cbn [phase]. destruct (phase w); by split.
  - injection H as <-. apply wf_watch_split. split; [|by apply finished_ok]. cbn. intros Hph. destruct (Hp Hph) as [-> ?]. done.
  - injection H as <-. apply wf_watch_split. unfold close, wake. cbn [phase]. destruct (phase w); by split.
  - destruct (phase w); try done. injection H as <-. by apply loop_head_ok.
  - destruct (phase w); try done. injection H as <-. by apply loop_head_ok, cancel_all_ok.
  - destruct (phase w); try done. injection H as <-. apply wf_watch_split. cbn. split; [by destruct (closed w) | exact Hr].
  - destruct (phase w); try done. injection H as <-. by apply loop_head_ok.
Qed.

Lemma reachable_watch w : reachable w -> wf_watch w.
Proof.
  intros H. refine (rtc_ind_r wf_watch new_watcher _ _ w H).
  - apply wf_watch_split. split; [done|]. intros id. cbn. split; [done|]. by intros [] ?.
  - intros w1 w2 _ [i Hi] IH. by eapply handle_watch.
Qed.

Lemma cancel_all_stops ids w id : In id ids -> has id (stopping w) = false -> In (id, true) (stops (cancel_all ids w)) /\ has id (stopping (cancel_all ids w)) = true.
Proof.
  assert (Hkeep : forall l v, has id (stopping v) = true -> In (id, true) (stops v) -> has id (stopping (cancel_all l v)) = true /\ In (id, true) (stops (cancel_all l v))).
  { induction l as [|x l IH]; intros v H1 H2; [done|]. cbn [cancel_all]. apply IH; destruct (has x (stopping v)); cbn; try done; [rewrite orb_true_iff; by right | apply in_app_iff; by left]. }
  revert w. induction ids as [|x ids IH]; intros w; [done|]. intros [->|Hin] Hn; cbn [cancel_all].
  - rewrite Hn. destruct (Hkeep ids (mkWatcher (id :: stopping w) (closed w) (phase w) (held w) (stops w ++ [(id, true)]))) as [H1 H2]; [|apply in_app_iff; right; by left|done].
    cbn. by rewrite String.eqb_refl.
  - destruct (has x (stopping w)) eqn:Ex; [by apply IH|]. destruct (id =s x) eqn:E.
    + apply String.eqb_eq in E as ->. destruct (Hkeep ids (mkWatcher (x :: stopping w) (closed w) (phase w) (held w) (stops w ++ [(x, true)]))) as [H1 H2]; [|apply in_app_iff; right; by left|done].
      cbn. by rewrite String.eqb_refl.
    + apply IH; [done|]. cbn. by rewrite E.
Qed.

(** C16 (cancel_watcher_sound).  For every order of runs starting and ending, answers and failures: a run is told to stop at most once before it ends, and
    at once when an answer names it; while the worker holds a run the watcher is never parked, so a poll is open, on its way or in the delay
    after a failure; and a closed watcher never waits for a run. *)
Theorem cancel_watcher_sound w :
  reachable w ->
  (forall id, once_each (told id (stops w)))
  /\ (held w <> [] -> phase w <> Parked)
  /\ (closed w = true -> phase w <> Parked)
  /\ (forall cancel w' id, handle (IAnswer cancel) w = Some w' -> In id cancel -> has id (stopping w) = false ->
        In (id, true) (stops w') /\ last (told id (stops w')) = Some true).
Proof.
  intros Hr. destruct (reachable_watch w Hr) as [Hp Hs Ho]. split; [done|].
  split; [intros Hh Hph; destruct (Hp Hph); congruence|]. split; [intros Hc Hph; destruct (Hp Hph); congruence|].
  intros cancel w' id Hh Hin Hn. assert (Hw' : wf_watch w') by (eapply handle_watch; [by apply reachable_watch | done]).
  cbn [handle] in Hh. destruct (phase w); try done. injection Hh as <-. destruct (cancel_all_stops cancel w id Hin Hn) as [H1 H2].
  assert (Heq : stops (loop_head (cancel_all cancel w)) = stops (cancel_all cancel w) /\ stopping (loop_head (cancel_all cancel w)) = stopping (cancel_all cancel w)).
  { unfold loop_head. by repeat case_match. }
  destruct Heq as [E1 E2]. destruct Hw' as [_ Hs' _]. split; [by rewrite E1|]. apply Hs'. by rewrite E2.
Qed.

(** A run is held, the poll names it twice, and it is told to stop once. *)
Lemma cancel_watcher_sound_witness :
  let w := mkWatcher [] false (Polling []) ["r1"] [] in
  reachable w /\ handle (IAnswer ["r1"; "r1"]) w = Some (mkWatcher ["r1"] false (Polling ["r1"]) ["r1"] [("r1", true)])
  /\ In ("r1", true) (stops (mkWatcher ["r1"] false (Polling ["r1"]) ["r1"] [("r1", true)])).
Proof.
  intros w. assert (Hr : reachable w).
  { eapply rtc_l; [exists (IStarted "r1"); reflexivity|]. eapply rtc_l; [exists IRun; reflexivity|]. apply rtc_refl. }
  split; [done|]. split; [reflexivity|]. destruct (cancel_watcher_sound w Hr) as (_ & _ & _ & H).
  apply (H ["r1"; "r1"] _ "r1" eq_refl); [by left | reflexivity].
Defined.
End Watcher.

(** The stop of a run that has no session yet is used up: the run starts, and no later poll asks for it (its heartbeats still do). *)
Lemma early_stop_used_up :
  exists w, Watcher.reachable w /\ In "r2" (Watcher.held w) /\ Watcher.phase w = Watcher.Polling ["r2"].
Proof.
  assert (Hs : forall i w w', Watcher.handle i w = Some w' -> exists j, Watcher.handle j w = Some w') by eauto.
  exists (Watcher.mkWatcher ["r2"] false (Watcher.Polling ["r2"]) ["r1"; "r2"] [("r2", true)]). split; [|split; [|reflexivity]].
  - eapply rtc_l; [eapply (Hs (Watcher.IStarted "r1")); reflexivity|]. eapply rtc_l; [eapply (Hs Watcher.IRun); reflexivity|].
    eapply rtc_l; [eapply (Hs (Watcher.IAnswer ["r2"])); reflexivity|]. eapply rtc_l; [eapply (Hs (Watcher.IStarted "r2")); reflexivity|]. apply rtc_refl.
  - cbn. auto.
Qed.

(** ** One run *)

Inductive RunStatus := run_done | run_failed | run_canceled | run_awaiting | run_interrupted.
Inductive TurnStatus := turn_response | turn_awaiting | turn_canceled | turn_error.

Definition statusOf (t : TurnStatus) : RunStatus :=
  match t with turn_response => run_done | turn_awaiting => run_awaiting | turn_canceled => run_canceled | turn_error => run_failed end.

(** A claimed run: its kind, and whether its payload names a chat. *)
Record AgentRun := mkRun { run_id : string; run_kind : string; payload_chat : bool }.

(** What reading the payload gives: which infos it holds, and why a loop run cannot run. *)
Record Details := mkDetails { d_chat : bool; d_thread : bool; d_loop : bool; d_failure : option string }.

(** How the turn ended: its status, its words, and whether it waits for a choice of the person. *)
Record TurnOutcome := mkOutcome { o_status : TurnStatus; o_body : string; o_select : bool }.

(** What the outside does: the token, the payload, the making of the session, the turn (an exception or its outcome), whether
    the limit of a loop run was hit, the reports that fail (by their number), the end of the session. *)
Record ExecuteEnv := mkExecute {
  x_token : Value + string; x_details : option Details; x_session : option Value; x_turn : Value + TurnOutcome; x_timedOut : bool;
  x_report : nat -> option Value; x_close : option Value }.

Definition isChat (run : AgentRun) (d : option Details) : bool := (run_kind run =s "chat") && ((d_chat <$> d) ?? false).
Definition isThread (run : AgentRun) (d : option Details) : bool :=
  ((run_kind run =s "thread") || (run_kind run =s "delegation")) && ((d_thread <$> d) ?? false).
Definition isLoop (run : AgentRun) (d : option Details) : bool := (run_kind run =s "loop") && ((d_loop <$> d) ?? false).

Record Report := mkReport { rp_status : RunStatus; rp_error : option string }.

(** What the run did: its reports to Flow in order, whether its stored state was cleared, whether a session ran, and what [execute] rejects with. *)
Record Execution := mkExecution { reports : list Report; cleared : bool; ran : bool; rejection : option Value }.

Definition clip (s : string) : string := slice 0 2000 s.

(** The status a turn is reported with. *)
Definition final_status (flowRun timedOut : bool) (o : TurnOutcome) : RunStatus :=
  let status := statusOf (o_status o) in
  let status := if timedOut && match status with run_canceled => true | _ => false end then run_failed else status in
  if flowRun && match o_status o with turn_awaiting => o_select o | _ => false end then run_done else status.

Definition show_value (v : Value) : string :=
  match v with VError _ name message => if truthy message then name +:+ ": " +:+ message else name | v => errorMessage v end.

Definition execute (run : AgentRun) (x : ExecuteEnv) : Execution :=
  match x_token x with
  | inl e => mkExecution [] false false (Some e)
  | inr _ =>
      let d := x_details x in
      if (run_kind run =s "chat") && payload_chat run && negb (isChat run d)
      then mkExecution [mkReport run_failed (Some "The chat run payload could not be read.")] false false None
      else
      let failure := (if isLoop run d then d ≫= d_failure else None) ?? "" in
      if truthy failure then mkExecution [mkReport run_failed (Some (clip failure))] false false None
      else
      let flowRun := isChat run d || isThread run d || isLoop run d in
      match x_session x with
      | Some e => mkExecution [] false false (Some e)
      | None =>
          let failed e := mkReport run_failed (Some (clip (show_value e))) in
          match x_turn x with
          | inl e => mkExecution [failed e] false true (x_close x)
          | inr o =>
              let first := mkReport (final_status flowRun (x_timedOut x) o)
                             (match o_status o with turn_error => Some (clip (o_body o)) | _ => None end) in
              let clear := flowRun && match o_status o with turn_awaiting => o_select o | _ => false end in
              match x_report x 0 with
              | None => mkExecution [first] clear true (x_close x)
              | Some e => mkExecution [first; failed e] clear true (x_close x)
              end
          end
      end
  end.

(** A run that gets its token and its session is reported to Flow: with the status of its turn (a run that was stopped by its time limit
    failed, a question to the person ends a run of Flow's), a second time, as failed, only when the first report did not get through;
    a run that cannot start is reported as failed.  Only a failure to get the token, to make the session or to close it
    is not reported but rejects. *)
Theorem execute_reports run x :
  let e := execute run x in
  (forall v, x_token x = inl v -> reports e = [] /\ rejection e = Some v)
  /\ (forall token, x_token x = inr token -> x_session x = None ->
        exists first rest, reports e = first :: rest
        /\ (ran e = false -> rp_status first = run_failed /\ rest = [] /\ rejection e = None)
        /\ (ran e = true -> rejection e = x_close x /\
              match x_turn x with
              | inl v => rp_status first = run_failed /\ rest = []
              | inr o =>
                  (rest = [] <-> x_report x 0 = None) /\ (forall r, In r rest -> rp_status r = run_failed)
                  /\ (rp_status first = run_failed <-> o_status o = turn_error \/ x_timedOut x = true /\ o_status o = turn_canceled)
                  /\ (rp_status first = run_canceled <-> x_timedOut x = false /\ o_status o = turn_canceled)
                  /\ (rp_status first = run_awaiting -> cleared e = false)
                  /\ (rp_error first <> None <-> o_status o = turn_error)
              end)).
Proof.
  unfold execute. split; [intros v ->; done|]. intros token -> Hs. rewrite Hs.
  set (d := x_details x). destruct (_ && negb (isChat run d)); [eexists _, []; split; [reflexivity|]; cbn; naive_solver|].
  set (failure := _ ?? ""). destruct (truthy failure); [eexists _, []; split; [reflexivity|]; cbn; naive_solver|].
  set (flowRun := isChat run d || isThread run d || isLoop run d).
  destruct (x_turn x) as [v|[st body sel]]; [eexists _, []; split; [reflexivity|]; cbn; naive_solver|].
  destruct (x_report x 0) as [v|] eqn:Er; (eexists _, _; split; [reflexivity|]); cbn [ran rejection cleared rp_status rp_error o_status o_body o_select];
    (split; [done|]); intros _; (split; [done|]);
    (split; [by rewrite ?Er|]); (split; [intros r Hr; repeat (destruct Hr as [<-|Hr]); done|]); unfold final_status; cbn [o_status o_select];
    destruct st, flowRun, (x_timedOut x), sel; cbn;
    intuition (congruence || (left; reflexivity) || (right; split; reflexivity)).
Qed.

(** ** The loop over the queue *)

Module Queue.

(** Where [loop] stands: waiting for claimed runs, for a running one to end, about to go on because one has ended, waiting
    a second after a failed claim, waiting for the last runs after a signal, at its end, or dead because a run rejected. *)
Inductive Phase := Claiming (free : Z) | Racing | Raced | Pausing | Draining | Ended | Crashed.

(** [active] are the keys of the map of running runs; [tasks] are the executions under way; [handled] are those of them that took
    part in a [Promise.race], which leaves its handlers on them also after it has settled. *)
Record Queue := mkQueue { stopping : bool; active : list string; tasks : list string; handled : list string; phase : Phase }.

Section Loop.
Context (slots : Z).

Definition set_queue_phase (f : Phase) (q : Queue) : Queue := mkQueue (stopping q) (active q) (tasks q) (handled q) f.

(** [await Promise.all(active.values())] *)
Definition drain (q : Queue) : Queue := set_queue_phase (match active q with [] => Ended | _ => Draining end) q.

(** [await Promise.race(active.values())]: every task gets handlers. *)
Definition race (q : Queue) : Queue := mkQueue (stopping q) (active q) (tasks q) (handled q ++ active q) Racing.

Definition queue_head (q : Queue) : Queue :=
  if stopping q then drain q
  else let free := (slots - Z.of_nat (length (active q)))%Z in if (free <=? 0)%Z then race q else set_queue_phase (Claiming free) q.

(** [active.set(run.id, execute(run)...)]: a key that is there keeps its place. *)
Definition start (id : string) (q : Queue) : Queue :=
  mkQueue (stopping q) (if Watcher.has id (active q) then active q else active q ++ [id]) (tasks q ++ [id]) (handled q) (phase q).

Fixpoint remove_first (id : string) (l : list string) : list string :=
  match l with [] => [] | x :: r => if x =s id then r else x :: remove_first id r end.

Inductive Input := IClaimed (runs : list string) | IClaimFail | IPauseOver | IResume | IDone (id : string) (rejects : bool) | ISignal.

(** A run ended: its [finally] removes the key.  A rejection ends the process when the loop waits for the task (the race or
    [Promise.all] rejects, and nothing catches it) or when no race ever put a handler on it. *)
Definition fatal_rejection (id : string) (q : Queue) : bool :=
  match phase q with Racing | Draining => true | _ => negb (Watcher.has id (handled q)) end.

Definition task_done (id : string) (rejects : bool) (q : Queue) : Queue :=
  let q1 := mkQueue (stopping q) (Watcher.remove_id id (active q)) (remove_first id (tasks q)) (Watcher.remove_id id (handled q)) (phase q) in
  if rejects && fatal_rejection id q then set_queue_phase Crashed q1
  else match phase q with Racing => set_queue_phase Raced q1 | Draining => drain q1 | _ => q1 end.

Definition queue_turn (i : Input) (q : Queue) : option Queue :=
  match i, phase q with
  | _, Crashed => None
  | IClaimed runs, Claiming _ => Some (queue_head (fold_left (fun q id => start id q) runs q))
  | IClaimFail, Claiming _ => Some (set_queue_phase Pausing q)
  | IPauseOver, Pausing => Some (queue_head q)
  | IResume, Raced => Some (queue_head q)
  | IDone id rejects, _ => if Watcher.has id (tasks q) then Some (task_done id rejects q) else None
  | ISignal, _ => Some (mkQueue true (active q) (tasks q) (handled q) (phase q))
  | _, _ => None
  end.

Definition new_queue : Queue := queue_head (mkQueue false [] [] [] Pausing).

(** Flow hands out at most as many runs as were asked for, and none that the worker already runs. *)
Definition flow_ok (i : Input) (q : Queue) : Prop :=
  match i, phase q with
  | IClaimed runs, Claiming free => (Z.of_nat (length runs) <= free)%Z /\ NoDup runs /\ (forall id, In id runs -> Watcher.has id (active q) = false)
  | _, _ => True
  end.

Definition step (q q' : Queue) : Prop := exists i, flow_ok i q /\ queue_turn i q = Some q'.
Definition reachable : Queue -> Prop := rtc step new_queue.

Record wf_queue (q : Queue) : Prop := {
  wf_same : tasks q = active q;
  wf_nodup : NoDup (active q);
  wf_slots : (Z.of_nat (length (active q)) <= Z.max 0 slots)%Z;
  wf_claim : forall free, phase q = Claiming free -> (Z.of_nat (length (active q)) + free <= Z.max 0 slots)%Z;
  wf_ended : phase q = Ended -> active q = [];
  wf_handled : incl (handled q) (active q);
  wf_raced : phase q = Racing -> incl (active q) (handled q) }.

Lemma has_In id l : Watcher.has id l = true <-> In id l.
Proof. unfold Watcher.has. rewrite existsb_exists. split; [intros (x & Hx & ->%String.eqb_eq); done | intros H; exists id; split; [done | apply String.eqb_refl]]. Qed.

Lemma loop_head_queue q : tasks q = active q -> NoDup (active q) -> (Z.of_nat (length (active q)) <= Z.max 0 slots)%Z -> incl (handled q) (active q) -> wf_queue (queue_head q).
Proof.
  intros H1 H2 H3 Hh. unfold queue_head, drain, race. destruct (stopping q).
  - split; cbn; try done; by destruct (active q).
  - destruct (_ <=? _)%Z eqn:E; split; cbn; try done.
    + apply incl_app; [done | apply incl_refl].
    + intros _. apply incl_appr, incl_refl.
    + intros free [= <-]. apply Z.leb_gt in E. lia.
Qed.

Lemma start_all runs q : tasks q = active q -> NoDup (active q) -> NoDup runs -> (forall id, In id runs -> Watcher.has id (active q) = false) ->
  let q' := fold_left (fun q id => start id q) runs q in
  tasks q' = active q' /\ NoDup (active q') /\ length (active q') = (length (active q) + length runs)%nat /\ handled q' = handled q /\ incl (active q) (active q').
Proof.
  revert q. induction runs as [|id runs IH]; intros q H1 H2 H3 H4; cbn [fold_left]; [cbn; auto using incl_refl|].
  apply NoDup_cons in H3 as [Hn H3]. rewrite list_elem_of_In in Hn. pose proof (H4 id (or_introl eq_refl)) as Hid.
  assert (Hs : active (start id q) = active q ++ [id]) by (unfold start; cbn; by rewrite Hid).
  destruct (IH (start id q)) as (I1 & I2 & I3 & I4 & I5).
  - rewrite Hs. cbn. by rewrite H1.
  - rewrite Hs. apply NoDup_app. split; [done|]. split; [|apply NoDup_singleton]. intros x Hx ->%list_elem_of_singleton.
    apply list_elem_of_In, has_In in Hx. congruence.
  - done.
  - intros x Hx. rewrite Hs. destruct (Watcher.has x (active q ++ [id])) eqn:E; [|done]. apply has_In, in_app_iff in E as [E|[<-|[]]]; [|done].
    apply has_In in E. rewrite (H4 x (or_intror Hx)) in E. done.
  - split; [done|]. split; [done|]. split; [rewrite I3, Hs, length_app; cbn; lia|]. split; [by rewrite I4|].
    rewrite Hs in I5. eapply incl_tran; [|exact I5]. apply incl_appl, incl_refl.
Qed.

Lemma remove_same id l : NoDup l -> remove_first id l = Watcher.remove_id id l.
Proof.
  unfold Watcher.remove_id. induction 1 as [|x l Hx _ IH]; [done|]. cbn. destruct (x =s id) eqn:E; cbn; [|by f_equal].
  apply String.eqb_eq in E as ->. symmetry. apply filter_all, List.Forall_forall. intros y Hy. apply negb_true_iff, String.eqb_neq. intros ->.
  apply Hx. by apply list_elem_of_In.
Qed.

Lemma remove_shrinks id l : NoDup l -> NoDup (Watcher.remove_id id l) /\ (length (Watcher.remove_id id l) <= length l)%nat.
Proof.
  intros H. split; [|apply List.filter_length_le]. unfold Watcher.remove_id. induction H as [|x l Hx _ IH]; [constructor|]. cbn.
  destruct (negb (x =s id)); [|done]. constructor; [|done]. rewrite list_elem_of_In, filter_In. intros [Hin _]. by apply Hx, list_elem_of_In.
Qed.

Lemma remove_incl id l1 l2 : incl l1 l2 -> incl (Watcher.remove_id id l1) (Watcher.remove_id id l2).
Proof. unfold Watcher.remove_id. intros H x. rewrite !filter_In. intros [Hx Hf]. auto. Qed.

Lemma task_done_queue id rejects q : wf_queue q -> wf_queue (task_done id rejects q).
Proof.
  intros [H1 H2 H3 H4 H5 H6 H7]. destruct (remove_shrinks id (active q) H2) as [Hn Hl]. pose proof (remove_incl id _ _ H6) as Hi.
  unfold task_done. rewrite H1, (remove_same id _ H2). destruct (rejects && _); [split; cbn; try done; lia|].
  assert (Hl3 : (Z.of_nat (length (Watcher.remove_id id (active q))) <= Z.max 0 slots)%Z) by lia.
  destruct (phase q) as [free| | | | | |] eqn:Ep.
  - split; cbn; try done. intros f [= <-]. specialize (H4 free eq_refl). lia.
  - by split.
  - by split.
  - by split.
  - unfold drain. cbn [active]. split; cbn; try done; by destruct (Watcher.remove_id id (active q)).
  - split; cbn; try done. intros _. by rewrite (H5 eq_refl).
  - by split.
Qed.

Lemma step_queue q q' : wf_queue q -> step q q' -> wf_queue q'.
Proof.
  intros Hw [i [Hi Hh]]. pose proof Hw as [H1 H2 H3 H4 H5 H6 H7]. destruct i as [runs| | | |id rejects|]; cbn [queue_turn flow_ok] in *.
  - destruct (phase q) as [free| | | | | |] eqn:Ep; try done. injection Hh as <-. destruct Hi as (Hl & Hn & Hf).
    destruct (start_all runs q H1 H2 Hn Hf) as (S1 & S2 & S3 & S4 & S5). apply loop_head_queue; [done | done | specialize (H4 free eq_refl); lia |].
    rewrite S4. by eapply incl_tran.
  - destruct (phase q) eqn:Ep; try done. injection Hh as <-. by split.
  - destruct (phase q) eqn:Ep; try done. injection Hh as <-. by apply loop_head_queue.
  - destruct (phase q) eqn:Ep; try done. injection Hh as <-. by apply loop_head_queue.
  - destruct (phase q) eqn:Ep; try done;
      (destruct (Watcher.has id (tasks q)); [|done]); injection Hh as <-; by apply task_done_queue.
  - destruct (phase q) eqn:Ep; try done; injection Hh as <-; by split.
Qed.

Lemma reachable_queue q : reachable q -> wf_queue q.
Proof.
  intros H. refine (rtc_ind_r wf_queue new_queue _ _ q H); [|intros q1 q2 _ Hs IH; by eapply step_queue].
  apply loop_head_queue; cbn; [done | constructor | lia | apply incl_refl].
Qed.
End Loop.

(** C17 (queue_within_slots).  Whatever the order of claims, failures, ends of runs and signals: as long as Flow hands out no more runs than asked for and none that is
    under way, the worker never runs more than its slots, asks only for the slots that are free, and ends
    only when no run is left; a signal ends the claiming at the next turn of the loop.  A run that rejects takes the worker down exactly when the
    loop waits for the runs (all slots taken, or draining) or when the run has never been part of such a wait; a run that was, and outlived
    it, just ends. *)
Theorem queue_within_slots slots q :
  reachable slots q ->
  (Z.of_nat (length (tasks q)) <= Z.max 0 slots)%Z /\ NoDup (tasks q)
  /\ (forall free, phase q = Claiming free -> (Z.of_nat (length (tasks q)) + free <= Z.max 0 slots)%Z)
  /\ (phase q = Ended -> tasks q = [])
  /\ (stopping q = true -> forall i q', queue_turn slots i q = Some q' -> forall free, phase q' = Claiming free -> phase q = Claiming free)
  /\ incl (handled q) (tasks q) /\ (phase q = Racing -> incl (tasks q) (handled q))
  /\ (forall id q', queue_turn slots (IDone id true) q = Some q' ->
        (phase q' = Crashed <-> phase q = Racing \/ phase q = Draining \/ ~ In id (handled q))
        /\ tasks q' = remove_first id (tasks q)).
Proof.
  intros Hr. destruct (reachable_queue slots q Hr) as [H1 H2 H3 H4 H5 H6 H7]. rewrite H1. do 4 (split; [done|]). split; [|split; [done | split; [done|]]].
  - intros Hst i q' Hh free Hf. destruct i as [runs| | | |id rejects|]; cbn [queue_turn] in Hh.
    + destruct (phase q); try done. injection Hh as <-. exfalso. revert Hf. unfold queue_head.
      assert (Hs : stopping (fold_left (fun q id => start id q) runs q) = true) by (clear -Hst; revert q Hst; induction runs; [done | intros q Hq; by apply IHruns]).
      rewrite Hs. unfold drain. by destruct (active (fold_left _ _ _)).
    + by destruct (phase q); simplify_eq/=.
    + destruct (phase q); try done. injection Hh as <-. revert Hf. unfold queue_head, drain. rewrite Hst. by destruct (active q).
    + destruct (phase q); try done. injection Hh as <-. revert Hf. unfold queue_head, drain. rewrite Hst. by destruct (active q).
    + destruct (phase q) eqn:Ep; try done; (destruct (Watcher.has id (tasks q)); [|done]); injection Hh as <-; revert Hf; unfold task_done; rewrite Ep;
        destruct (rejects && _); try done; unfold drain; cbn; by repeat case_match.
    + destruct (phase q) eqn:Ep; try done; injection Hh as <-; cbn in Hf; congruence.
  - intros id q' Hh. cbn [queue_turn] in Hh. assert (Hc : phase q <> Crashed) by (intros E; by rewrite E in Hh).
    assert (Hq : q' = task_done id true q) by (destruct (phase q); try done; by destruct (Watcher.has id (tasks q)); simplify_eq). clear Hh. subst q'.
    assert (Hd : ~ In id (handled q) <-> Watcher.has id (handled q) = false) by (rewrite <- not_true_iff_false, has_In; done). rewrite Hd.
    unfold task_done, fatal_rejection. rewrite andb_true_l, H1.
    destruct (phase q), (Watcher.has id (handled q)); cbn; try done; unfold drain; cbn; try case_match; clear -Hc; intuition congruence.
Qed.

(** Two runs are claimed for three slots; one gets no token, so its execution rejects, and the worker is gone while the other still runs. *)
Lemma queue_within_slots_witness :
  let x := mkExecute (inl (VError 1 "RuntimeApiError" "POST /runs/r1/token: 503")) None None (inl VUndefined) false (fun _ => None) None in
  rejection (execute (mkRun "r1" "chat" true) x) <> None
  /\ exists q, reachable 3 q /\ tasks q = ["r1"; "r2"] /\ phase q = Claiming 1
       /\ forall q', queue_turn 3 (IDone "r1" true) q = Some q' -> phase q' = Crashed.
Proof.
  intros x. split; [discriminate|]. exists (mkQueue false ["r1"; "r2"] ["r1"; "r2"] [] (Claiming 1)).
  assert (Hr : reachable 3 (mkQueue false ["r1"; "r2"] ["r1"; "r2"] [] (Claiming 1))).
  { apply rtc_once. exists (IClaimed ["r1"; "r2"]). split; [|reflexivity]. cbn. split; [lia|]. split; [|done].
    apply NoDup_cons. split; [|apply NoDup_singleton]. intros [=]%list_elem_of_singleton. }
  split; [done|]. split; [done|]. split; [done|]. intros q' Hq.
  apply (queue_within_slots 3 (mkQueue false ["r1"; "r2"] ["r1"; "r2"] [] (Claiming 1)) Hr) in Hq as [Hq _]. apply Hq. right. right. intros [].
Defined.

(** Two runs fill the two slots and the loop races them; one ends, the loop asks for another, and the rejection of the one that is
    left is handled: the worker lives. *)
Lemma raced_rejection_survives :
  let q := fold_left (fun q i => match queue_turn 2 i q with Some q' => q' | None => q end)
             [IClaimed ["r1"; "r2"]; IDone "r1" false; IResume; IDone "r2" true] (new_queue 2) in
  phase q = Claiming 1 /\ tasks q = [].
Proof. vm_compute. done. Qed.
End Queue.
