(* ===== verification/Harness.v ===== *)
(** * The harnesses (sandbox-runner/src/harness, process.ts)

    How the runner starts a coding agent and reads its output: the command, environment and
    configuration files of each harness, the MCP servers it may reach, the lines of its output and
    the mapper that reads them.  [path.join], the URL class and [JSON.parse] are parameters. *)

From Stdlib Require Import ZArith Lia Bool List Ascii QArith Qround.
From stdpp Require Import base list strings.
From S2P Require Import Prelude JsString JsMap Regex JsNumber Json Protocol TurnScope RunnerEnv Mapping MapClaude MapCodex MapOpenCode MapPi.

Open Scope Z_scope.

(** ** Invocations *)

Record HarnessContext := {
  x_bootstrap : BootstrapResponse; x_token : string; x_paths : RunnerPaths; x_turn : Turn; x_resumeId : option string;
  x_guidance : string; x_mcp : McpServerCommand; x_env : Env }.

Record HarnessFile := mkFile { f_path : string; f_content : string; f_mode : Z }.

Record HarnessInvocation := {
  inv_command : string; inv_args : list string; inv_env : Env; inv_stdin : string; inv_cwd : string; inv_files : list HarnessFile }.

(** 0o600 *)
Definition private_mode : Z := 384.

Definition PROVIDER_KEY_VARS : list string := [
  "ANTHROPIC_API_KEY"; "ANTHROPIC_AUTH_TOKEN"; "OPENAI_API_KEY"; "OPENAI_BASE_URL"; "CODEX_API_KEY"; "OPENROUTER_API_KEY";
  "GEMINI_API_KEY"; "GOOGLE_API_KEY"; "AWS_ACCESS_KEY_ID"; "AWS_SECRET_ACCESS_KEY"; "AWS_SESSION_TOKEN"; "CLAUDE_CODE_USE_BEDROCK";
  "CLAUDE_CODE_USE_VERTEX"].

Definition withoutProviderKeys (env : Env) : Env := fold_left (fun e name => env_delete name e) PROVIDER_KEY_VARS env.

Definition given (o : option string) : bool := match o with Some s => truthy s | None => false end.
Definition text_of (o : option string) : string := o ?? "".

(** [/^[a-z0-9_-]{1,64}$/] *)
Definition name_char (c : ascii) : bool :=
  let n := nat_of_ascii c in ((97 <=? n) && (n <=? 122))%nat || is_digit c || Ascii.eqb c "_" || Ascii.eqb c "-".
Definition valid_server_name (s : string) : bool :=
  (1 <=? String.length s)%nat && (String.length s <=? 64)%nat && all_chars name_char s.

Definition GATEWAY_PATH : string := "/internal/coding-runtime/mcp/".

(** The prompt and the links of the attachments. *)
Definition turnPrompt (turn : Turn) : string :=
  match List.filter truthy (tn_attachments turn ?? []) with
  | [] => tn_prompt turn
  | attachments => tn_prompt turn +:+ newline +:+ newline +:+ "Attachments:" +:+ newline +:+ join newline (map (fun url => "- " +:+ url) attachments)
  end.

Definition resume_patterns : regex :=
  alts [lit "no conversation found"; lit "session not found"; lit "no session found"; lit "thread not found";
        Seq (lit "could not find ") (Seq (opt (lit "the ")) (lit "session")); lit "failed to resume"; lit "unable to resume"].
Definition resumeFailed (t : string) : bool := regex_test resume_patterns (units t).

(** ** Lines of the output *)

(** [text.indexOf('\n')]: the text in front of the first line end and the text after it. *)
Fixpoint cut_line (s : string) : option (string * string) :=
  match s with
  | EmptyString => None
  | String c r => if (nat_of_ascii c =? 10)%nat then Some ("", r) else match cut_line r with Some (a, b) => Some (String c a, b) | None => None end
  end.

Definition carriage : string := String (ascii_of_nat 13) "".
Definition emit_line (line : string) : string := if ends_with line carriage then slice 0 (String.length line - 1) line else line.

(** The loop of the data handler, from a chunk's text; [fuel] bounds the line ends of the text. *)
Fixpoint data_loop (fuel : nat) (buffer rest : string) (out : list string) : string * list string :=
  match cut_line rest, fuel with
  | Some (line, after), S fuel' => data_loop fuel' "" after (out ++ [emit_line (buffer +:+ line)])
  | _, _ => (buffer +:+ rest, out)
  end.
Definition on_data (t : string) (buffer : string) : string * list string := data_loop (String.length t) buffer t [].
Definition on_end (t : string) (buffer : string) : list string := if truthy (buffer +:+ t) then [emit_line (buffer +:+ t)] else [].

(** [splitLines]: the lines of the chunks, and of what the decoder holds at the end. *)
Fixpoint splitLines (chunks : list string) (last : string) (buffer : string) : list string :=
  match chunks with
  | [] => on_end last buffer
  | t :: r => let '(buffer', lines) := on_data t buffer in lines ++ splitLines r last buffer'
  end.

Section Harness.
Context (api : UrlApi) (join_path : list string -> string) (relative : string -> string -> string) (JSON_parse : string -> option json).

(** ** MCP servers behind Flow's gateway *)

Definition runtimeOrigin (b : BootstrapResponse) : option string :=
  let llm := b_llm b in
  match omap (fun v => url_origin api <$> new_URL api v) [anthropicBaseUrl llm; openaiBaseUrl llm; openSourceBaseUrl llm] with
  | origin :: _ => Some origin
  | [] => None
  end.

Definition server_allowed (runtime : option string) (server : BootstrapMCPServer) : bool :=
  match new_URL api (srv_url server) with
  | Some url => given runtime && (url_origin api url =s text_of runtime) && startsWith GATEWAY_PATH (url_pathname api url)
  | None => false
  end.

Definition gateway_filter (runtime : option string) (acc : list string * list BootstrapMCPServer) (server : BootstrapMCPServer) :=
  let '(seen, out) := acc in
  if negb (valid_server_name (srv_name server)) || bool_decide (srv_name server ∈ seen) then acc
  else if server_allowed runtime server then (seen ++ [srv_name server], out ++ [server]) else acc.

Definition gatewayMcpServers (b : BootstrapResponse) : list BootstrapMCPServer :=
  snd (fold_left (gateway_filter (runtimeOrigin b)) (b_mcpServers b ?? []) (["flow"], [])).

Definition strings (l : list string) : json := JArr (map JStr l).
Definition env_json (e : Env) : json := JObj (map (fun p => (fst p, JStr (snd p))) e).
Definition servers_json (b : BootstrapResponse) (flow : json) (remote : BootstrapMCPServer -> json) : json :=
  JObj (fold_left (fun o s => obj_set (srv_name s) (remote s) o) (gatewayMcpServers b) [("flow", flow)]).

(** ** Claude Code *)

Definition CLAUDE_THINKING_TOKENS (effort : string) : string :=
  if effort =s "low" then "4000" else if effort =s "medium" then "16000" else if effort =s "high" then "32000" else "".
Definition MAX_ARG_BYTES : Z := 120 * 1024.

Definition claudeMcpConfig (ctx : HarnessContext) : string :=
  let mcp := x_mcp ctx in
  stringify_pretty "" (JObj [("mcpServers", servers_json (x_bootstrap ctx)
    (JObj [("type", JStr "stdio"); ("command", JStr (mcp_command mcp)); ("args", strings (mcp_args mcp)); ("env", env_json (mcp_env mcp))])
    (fun s => JObj [("type", JStr "http"); ("url", JStr (srv_url s)); ("headers", JObj [("Authorization", JStr ("Bearer " +:+ x_token ctx))])]))]).

Definition claude_invocation (ctx : HarnessContext) : HarnessInvocation :=
  let b := x_bootstrap ctx in
  let mcpPath := join_path [p_flowDir (x_paths ctx); "mcp.json"] in
  let m := h_model (b_harness b) in
  let guidance := if MAX_ARG_BYTES <? byteLength (x_guidance ctx)
                  then from_utf8 (take (Z.to_nat MAX_ARG_BYTES) (utf8 (x_guidance ctx))) else x_guidance ctx in
  let thinking := CLAUDE_THINKING_TOKENS (text_of (reasoningEffort (b_harness b))) in
  let env := env_assign (withoutProviderKeys (x_env ctx)) [
    ("ANTHROPIC_BASE_URL", anthropicBaseUrl (b_llm b)); ("ANTHROPIC_AUTH_TOKEN", x_token ctx);
    ("CLAUDE_CODE_DISABLE_NONESSENTIAL_TRAFFIC", "1"); ("DISABLE_AUTOUPDATER", "1"); ("DISABLE_TELEMETRY", "1");
    ("DISABLE_ERROR_REPORTING", "1"); ("IS_SANDBOX", "1")] in
  let env := if truthy m then map_set "ANTHROPIC_MODEL" m env else env in
  {| inv_command := "claude";
     inv_args := ["-p"; "--output-format"; "stream-json"; "--verbose"; "--permission-mode"; "bypassPermissions"; "--mcp-config"; mcpPath]
       ++ (if truthy m then ["--model"; m] else []) ++ (if truthy (trim guidance) then ["--append-system-prompt"; guidance] else [])
       ++ (if given (x_resumeId ctx) then ["--resume"; text_of (x_resumeId ctx)] else []);
     inv_env := if truthy thinking then map_set "MAX_THINKING_TOKENS" thinking env else env;
     inv_stdin := turnPrompt (x_turn ctx); inv_cwd := p_repo (x_paths ctx);
     inv_files := [mkFile mcpPath (claudeMcpConfig ctx) private_mode] |}.

(** ** Codex *)

Definition tomlString (value : string) : string := quote value.

Definition bare_key (c : ascii) : bool := alnum (nat_of_ascii c) || Ascii.eqb c "_" || Ascii.eqb c "-".
Definition tomlInlineTable (values : Env) : string :=
  let entry p := (if truthy (fst p) && all_chars bare_key (fst p) then fst p else tomlString (fst p)) +:+ " = " +:+ tomlString (snd p) in
  "{ " +:+ join ", " (map entry values) +:+ " }".

Definition MIN_CONTEXT_WINDOW : Z := 1024.
Definition MAX_CONTEXT_WINDOW : Z := 10000000.

(** [Number.isSafeInteger] *)
Definition safe_integer (n : Q) : option Z :=
  let z := Qfloor n in if Qeq_bool n (inject_Z z) && (Z.abs z <? 2 ^ 53) then Some z else None.

Definition codexContextWindow (value : option json) : option Z :=
  match value with
  | Some (JNum n) => match safe_integer n with Some z => if (MIN_CONTEXT_WINDOW <=? z) && (z <=? MAX_CONTEXT_WINDOW) then Some z else None | None => None end
  | _ => None
  end.

Definition codexConfig (ctx : HarnessContext) : string :=
  let b := x_bootstrap ctx in
  let h := b_harness b in
  let mcp := x_mcp ctx in
  join newline (
    ["# Written by flow-runner for every turn. Model traffic goes to Flow only."; "model = " +:+ tomlString (h_model h);
     "model_provider = " +:+ quote "flow"]
    ++ (if given (reasoningEffort h) then ["model_reasoning_effort = " +:+ tomlString (text_of (reasoningEffort h))] else [])
    ++ (match codexContextWindow (contextWindow h) with Some n => ["model_context_window = " +:+ showZ n] | None => [] end)
    ++ ["approval_policy = " +:+ quote "never"; "sandbox_mode = " +:+ quote "danger-full-access"; "check_for_update_on_startup = false"; "";
        "[analytics]"; "enabled = false"; ""; "[model_providers.flow]"; "name = " +:+ quote "Flow";
        "base_url = " +:+ tomlString (openaiBaseUrl (b_llm b)); "env_key = " +:+ quote "FLOW_LLM_TOKEN"; "wire_api = " +:+ quote "responses";
        "requires_openai_auth = false"; ""; "[mcp_servers.flow]"; "command = " +:+ tomlString (mcp_command mcp);
        "args = [" +:+ join ", " (map tomlString (mcp_args mcp)) +:+ "]"; "env = " +:+ tomlInlineTable (mcp_env mcp); "startup_timeout_sec = 30"; ""]
    ++ (gatewayMcpServers b ≫= fun s => ["[mcp_servers." +:+ srv_name s +:+ "]"; "url = " +:+ tomlString (srv_url s);
        "bearer_token_env_var = " +:+ quote "FLOW_LLM_TOKEN"; "startup_timeout_sec = 30"; "tool_timeout_sec = 360"; ""])).

Definition codex_invocation (ctx : HarnessContext) : HarnessInvocation :=
  let b := x_bootstrap ctx in
  let h := b_harness b in
  let codexHome := join_path [p_home (x_paths ctx); ".codex"] in
  let common := ["--json"; "--dangerously-bypass-approvals-and-sandbox"; "--skip-git-repo-check"]
    ++ (if truthy (h_model h) then ["--model"; h_model h] else [])
    ++ (if given (reasoningEffort h) then ["-c"; "model_reasoning_effort=" +:+ tomlString (text_of (reasoningEffort h))] else []) in
  {| inv_command := "codex";
     inv_args := if given (x_resumeId ctx) then ["exec"; "resume"; text_of (x_resumeId ctx)] ++ common ++ ["-"]
                 else ["exec"] ++ common ++ ["-C"; p_repo (x_paths ctx); "-"];
     inv_env := env_assign (withoutProviderKeys (x_env ctx)) [("CODEX_HOME", codexHome); ("FLOW_LLM_TOKEN", x_token ctx)];
     inv_stdin := turnPrompt (x_turn ctx); inv_cwd := p_repo (x_paths ctx);
     inv_files := [mkFile (join_path [codexHome; "config.toml"]) (codexConfig ctx) private_mode;
                   mkFile (join_path [codexHome; "AGENTS.override.md"]) (x_guidance ctx) private_mode] |}.

(** ** OpenCode *)

Definition opencodeConfig (ctx : HarnessContext) : string :=
  let b := x_bootstrap ctx in
  let m := h_model (b_harness b) in
  let mcp := x_mcp ctx in
  stringify_pretty "" (JObj [
    ("$schema", JStr "https://opencode.ai/config.json"); ("model", JStr ("flow/" +:+ m)); ("small_model", JStr ("flow/" +:+ m));
    ("autoupdate", JBool false); ("share", JStr "disabled"); ("instructions", strings [join_path [p_flowDir (x_paths ctx); "guidance.md"]]);
    ("permission", JObj [("edit", JStr "allow"); ("bash", JStr "allow"); ("webfetch", JStr "allow")]);
    ("provider", JObj [("flow", JObj [
      ("npm", JStr "@ai-sdk/openai-compatible"); ("name", JStr "Flow");
      ("options", JObj [("baseURL", JStr (openSourceBaseUrl (b_llm b))); ("apiKey", JStr "{env:FLOW_LLM_TOKEN}")]);
      ("models", JObj [(m, JObj [("name", JStr m)])])])]);
    ("mcp", servers_json b
      (JObj [("type", JStr "local"); ("command", strings (mcp_command mcp :: mcp_args mcp)); ("environment", env_json (mcp_env mcp)); ("enabled", JBool true)])
      (fun s => JObj [("type", JStr "remote"); ("url", JStr (srv_url s));
        ("headers", JObj [("Authorization", JStr "Bearer {env:FLOW_LLM_TOKEN}")]); ("enabled", JBool true)]))]).

Definition opencode_invocation (ctx : HarnessContext) : HarnessInvocation :=
  let h := b_harness (x_bootstrap ctx) in
  let configPath := join_path [p_flowDir (x_paths ctx); "opencode.json"] in
  {| inv_command := "opencode";
     inv_args := ["run"; "--format"; "json"; "--auto"; "--thinking"; "-m"; "flow/" +:+ h_model h]
       ++ (if given (reasoningEffort h) then ["--variant"; text_of (reasoningEffort h)] else [])
       ++ (if given (x_resumeId ctx) then ["--session"; text_of (x_resumeId ctx)] else []);
     inv_env := env_assign (withoutProviderKeys (x_env ctx)) [
       ("OPENCODE_CONFIG", configPath); ("OPENCODE_DISABLE_AUTOUPDATE", "1"); ("OPENCODE_DISABLE_LSP_DOWNLOAD", "1"); ("FLOW_LLM_TOKEN", x_token ctx)];
     inv_stdin := turnPrompt (x_turn ctx); inv_cwd := p_repo (x_paths ctx);
     inv_files := [mkFile configPath (opencodeConfig ctx) private_mode;
                   mkFile (join_path [p_flowDir (x_paths ctx); "guidance.md"]) (x_guidance ctx) private_mode] |}.

(** ** Pi *)

Definition piAgentDir (home : string) : string := join_path [home; ".pi"; "agent"].

Definition piModelsConfig (ctx : HarnessContext) : string :=
  let b := x_bootstrap ctx in
  let h := b_harness b in
  let m := [("id", JStr (h_model h)); ("name", JStr (h_model h)); ("reasoning", JBool (given (reasoningEffort h)))]
    ++ (match codexContextWindow (contextWindow h) with Some n => [("contextWindow", JNum (inject_Z n))] | None => [] end) in
  stringify_pretty "" (JObj [("providers", JObj [("flow", JObj [
    ("name", JStr "Flow"); ("baseUrl", JStr (openSourceBaseUrl (b_llm b))); ("api", JStr "openai-completions"); ("apiKey", JStr "$FLOW_LLM_TOKEN");
    ("compat", JObj [("supportsStore", JBool false); ("supportsDeveloperRole", JBool false); ("maxTokensField", JStr "max_tokens")]);
    ("models", JArr [JObj m])])])]).

Definition piMcpConfig (ctx : HarnessContext) : string :=
  let mcp := x_mcp ctx in
  stringify_pretty "" (JObj [("mcpServers", servers_json (x_bootstrap ctx)
    (JObj [("command", JStr (mcp_command mcp)); ("args", strings (mcp_args mcp)); ("env", env_json (mcp_env mcp)); ("exposure", JStr "direct")])
    (fun s => JObj [("url", JStr (srv_url s)); ("headers", JObj [("Authorization", JStr "Bearer ${FLOW_LLM_TOKEN}")]); ("exposure", JStr "deferred");
      ("description", JStr (if truthy (srv_title s) then srv_title s else srv_name s)); ("timeout", JNum (inject_Z 360))]))]).

Definition piSettings : string :=
  stringify_pretty "" (JObj [
    ("defaultProjectTrust", JStr "never"); ("enableInstallTelemetry", JBool false); ("quietStartup", JBool true);
    ("extensions", strings ["-builtin:llama.cpp"])]).

Definition pi_invocation (ctx : HarnessContext) : HarnessInvocation :=
  let h := b_harness (x_bootstrap ctx) in
  let agentDir := piAgentDir (p_home (x_paths ctx)) in
  {| inv_command := "pi";
     inv_args := ["--mode"; "json"; "--no-approve"; "--provider"; "flow"; "--model"; h_model h]
       ++ (if given (reasoningEffort h) then ["--thinking"; text_of (reasoningEffort h)] else [])
       ++ (if given (x_resumeId ctx) then ["--session"; text_of (x_resumeId ctx)] else []);
     inv_env := env_delete "PI_CODING_AGENT_SESSION_DIR" (env_assign (withoutProviderKeys (x_env ctx)) [
       ("PI_CODING_AGENT_DIR", agentDir); ("PI_OFFLINE", "1"); ("PI_SKIP_VERSION_CHECK", "1"); ("PI_TELEMETRY", "0"); ("FLOW_LLM_TOKEN", x_token ctx)]);
     inv_stdin := turnPrompt (x_turn ctx); inv_cwd := p_repo (x_paths ctx);
     inv_files := [mkFile (join_path [agentDir; "models.json"]) (piModelsConfig ctx) private_mode;
                   mkFile (join_path [agentDir; "mcp.json"]) (piMcpConfig ctx) private_mode;
                   mkFile (join_path [agentDir; "settings.json"]) piSettings private_mode;
                   mkFile (join_path [agentDir; "APPEND_SYSTEM.md"]) (x_guidance ctx) private_mode] |}.

(** ** The adapters *)

Inductive HarnessName := codex | claudeCode | openSource | pi.

#[export] Instance HarnessName_eq_dec : EqDecision HarnessName.
Proof. solve_decision. Defined.

(** [harnessFor]; [None] is the error of an unknown name. *)
Definition harnessFor (name : string) : option HarnessName :=
  let normalized := if name =s "claude" then "claudeCode" else if (name =s "auto") || (name =s "") then "codex" else name in
  if normalized =s "claudeCode" then Some claudeCode else if normalized =s "codex" then Some codex
  else if normalized =s "openSource" then Some openSource else if normalized =s "pi" then Some pi else None.

Definition invocation (h : HarnessName) : HarnessContext -> HarnessInvocation :=
  match h with claudeCode => claude_invocation | codex => codex_invocation | openSource => opencode_invocation | pi => pi_invocation end.

Definition createMapper (h : HarnessName) : StreamMapper :=
  match h with
  | claudeCode => ClaudeMapper relative | codex => CodexMapper relative | openSource => OpenCodeMapper relative | pi => PiMapper relative
  end.

Definition stateDirs (h : HarnessName) : list string :=
  match h with
  | claudeCode => [".claude"; ".claude.json"] | codex => [".codex/sessions"; ".codex/session_index.jsonl"; ".codex/state"]
  | openSource => [".local/share/opencode"] | pi => [".pi/agent/sessions"]
  end.

#[local] Instance mapper_laws (h : HarnessName) : MapperLaws (createMapper h) :=
  match h with
  | claudeCode => ClaudeLaws relative | codex => CodexLaws relative | openSource => OpenCodeLaws relative | pi => PiLaws relative
  end.

(** ** A run of a harness *)

(** [onStdoutLine]: the record of a line, if it holds one. *)
Definition stdout_record (line : string) : option json :=
  let trimmed := trim line in if startsWith "{" trimmed then JSON_parse trimmed else None.

Section Run.
Context (M : StreamMapper) (o : MapperOptions).

Definition on_stdout_line (acc : MState * list Draft) (line : string) : MState * list Draft :=
  let '(s, out) := acc in
  match stdout_record line with Some r => let '(s', ds) := m_map o r s in (s', out ++ ds) | None => acc end.

(** The state of a running harness: the unfinished line, the mapper and the events so far. *)
Definition on_chunk (acc : string * (MState * list Draft)) (t : string) : string * (MState * list Draft) :=
  let '(buffer, m) := acc in
  let '(buffer', lines) := on_data t buffer in (buffer', fold_left on_stdout_line lines m).

(** The whole output, then the exit: the last line, and [finish]. *)
Definition run_output (chunks : list string) (last : string) : MState * list Draft :=
  let '(buffer, m) := fold_left on_chunk chunks ("", (m_init o, [])) in
  let '(s, out) := fold_left on_stdout_line (on_end last buffer) m in
  let '(s', tail_events) := m_finish s in (s', out ++ tail_events).
End Run.
End Harness.

(** ** The lines of an output do not depend on its chunks *)

Definition nl : ascii := ascii_of_nat 10.

(** The lines of a whole text: every terminated line, and the rest when it is not empty. *)
Definition output_lines (t : string) : list string :=
  let parts := split newline t in
  map emit_line (removelast parts) ++ (let r := List.last parts "" in if truthy r then [emit_line r] else []).

Lemma cut_line_spec s :
  match cut_line s with
  | Some (a, b) => s = a +:+ newline +:+ b /\ lacks nl a = true
  | None => lacks nl s = true
  end.
Proof.
  induction s as [|c r IH]; [done|]. cbn [cut_line]. destruct (Nat.eqb_spec (nat_of_ascii c) 10) as [E|E].
  - split; [|done]. rewrite <- (ascii_nat_embedding c), E. done.
  - assert (Hc : Ascii.eqb nl c = false) by (apply Ascii.eqb_neq; intros <-; by apply E).
    destruct (cut_line r) as [[a b]|]; cbn [lacks]; rewrite Hc; [|done]. destruct IH as [-> H]. done.
Qed.

Lemma output_lines_cons a b : lacks nl a = true -> output_lines (a +:+ newline +:+ b) = emit_line a :: output_lines b.
Proof.
  intros Ha. unfold output_lines. change (newline +:+ b) with (String nl b). unfold newline. fold nl. rewrite split_char_app by done.
  pose proof (split_skip_not_nil (String nl "") 0 b) as Hn. unfold split in *. destruct (split_skip _ 0 b) as [|x l]; [done|]. done.
Qed.

Lemma output_lines_rest a : lacks nl a = true -> output_lines a = if truthy a then [emit_line a] else [].
Proof. intros Ha. unfold output_lines, newline. fold nl. by rewrite split_char_none. Qed.

(** The loop emits the lines of its text and keeps the rest. *)
Lemma data_loop_spec fuel buffer rest out t : (String.length rest <= fuel)%nat -> lacks nl buffer = true ->
  let '(buffer', out') := data_loop fuel buffer rest out in
  lacks nl buffer' = true /\ out' ++ output_lines (buffer' +:+ t) = out ++ output_lines (buffer +:+ rest +:+ t).
Proof.
  revert buffer rest out. induction fuel as [|fuel IH]; intros buffer rest out Hf Hb; cbn [data_loop]; pose proof (cut_line_spec rest) as Hc;
    destruct (cut_line rest) as [[line after]|].
  - destruct Hc as [-> _]. rewrite string_length_app in Hf. simpl in Hf. lia.
  - by rewrite lacks_app, Hb, Hc, string_app_assoc.
  - destruct Hc as [-> Hl]. rewrite !string_length_app in Hf. cbn [String.length newline] in Hf.
    specialize (IH "" after (out ++ [emit_line (buffer +:+ line)]) ltac:(lia) eq_refl).
    destruct (data_loop fuel _ after _) as [buffer' out']. destruct IH as [H1 H2]. split; [done|]. rewrite H2, <- app_assoc. f_equal.
    rewrite !string_app_assoc, <- (string_app_assoc buffer line). rewrite output_lines_cons by (by rewrite lacks_app, Hb, Hl). done.
  - by rewrite lacks_app, Hb, Hc, string_app_assoc.
Qed.

Lemma on_data_spec t buffer more : lacks nl buffer = true ->
  let '(buffer', lines) := on_data t buffer in
  lacks nl buffer' = true /\ lines ++ output_lines (buffer' +:+ more) = output_lines (buffer +:+ t +:+ more).
Proof. intros Hb. by apply data_loop_spec. Qed.

Lemma on_end_spec last buffer : lacks nl buffer = true -> lacks nl last = true -> on_end last buffer = output_lines (buffer +:+ last).
Proof. intros Hb Hl. rewrite output_lines_rest by (by rewrite lacks_app, Hb, Hl). done. Qed.

Lemma splitLines_spec chunks last buffer : lacks nl buffer = true -> lacks nl last = true ->
  splitLines chunks last buffer = output_lines (buffer +:+ join "" chunks +:+ last).
Proof.
  intros Hb Hl. revert buffer Hb. induction chunks as [|t chunks IH]; intros buffer Hb; [by apply on_end_spec|].
  cbn [splitLines]. rewrite join_empty_cons, string_app_assoc. pose proof (on_data_spec t buffer (join "" chunks +:+ last) Hb) as H.
  destruct (on_data t buffer) as [buffer' lines]. destruct H as [H1 <-]. by rewrite IH.
Qed.

Section Runs.
Context (JSON_parse : string -> option json) {M : StreamMapper} (o : MapperOptions).

Lemma lines_records lines s out : fold_left (on_stdout_line JSON_parse M o) lines (s, out)
  = let '(s', ds) := m_records o (omap (stdout_record JSON_parse) lines) s in (s', out ++ ds).
Proof.
  revert s out. induction lines as [|line lines IH]; intros s out; [cbn; by rewrite app_nil_r|]. cbn [fold_left on_stdout_line].
  rewrite omap_cons. destruct (stdout_record JSON_parse line) as [r|]; [|apply IH]. cbn [m_records]. destruct (m_map o r s) as [s1 d1].
  rewrite IH. destruct (m_records o _ s1) as [s2 d2]. by rewrite app_assoc.
Qed.

Lemma records_app l1 l2 s : m_records o (l1 ++ l2) s
  = let '(s1, d1) := m_records o l1 s in let '(s2, d2) := m_records o l2 s1 in (s2, d1 ++ d2).
Proof.
  revert s. induction l1 as [|r l1 IH]; intros s; cbn [app m_records]; [by destruct (m_records o l2 s)|].
  destruct (m_map o r s) as [s1 d1]. rewrite IH. destruct (m_records o l1 s1) as [s2 d2], (m_records o l2 s2) as [s3 d3]. by rewrite app_assoc.
Qed.

Lemma chunks_lines chunks last buffer m :
  let '(buffer', m') := fold_left (on_chunk JSON_parse M o) chunks (buffer, m) in
  fold_left (on_stdout_line JSON_parse M o) (on_end last buffer') m' = fold_left (on_stdout_line JSON_parse M o) (splitLines chunks last buffer) m.
Proof.
  revert buffer m. induction chunks as [|t chunks IH]; intros buffer m; [done|]. cbn [fold_left on_chunk splitLines].
  destruct (on_data t buffer) as [buffer' lines]. rewrite fold_left_app. apply IH.
Qed.

(** However the output of a harness is cut into chunks, the runner sees the
    records on the lines of the whole output: the events of the run are those of mapping these
    records one after the other. *)
Theorem harness_output_chunks (chunks : list string) (last : string) (H : lacks nl last = true) :
  run_output JSON_parse M o chunks last = m_stream o (omap (stdout_record JSON_parse) (output_lines (join "" chunks +:+ last))).
Proof.
  unfold run_output, m_stream. pose proof (chunks_lines chunks last "" (m_init o, [])) as Hc.
  destruct (fold_left (on_chunk JSON_parse M o) chunks _) as [buffer m]. rewrite Hc, lines_records, splitLines_spec by done.
  cbn [String.append]. by destruct (m_records o _ (m_init o)).
Qed.
End Runs.

Definition demo_options : MapperOptions := mkOptions (Some "turn") (Some "/repo") None (fun n => showZ (Z.of_nat n)) (fun _ => "now").
Definition demo_parse (s : string) : option json :=
  if ends_with s "}" then Some (JObj [("type", JStr "text"); ("part", JObj [("text", JStr s)])]) else None.

(** A record cut in the middle, a carriage return and an unfinished last line. *)
Lemma harness_output_chunks_witness :
  run_output demo_parse (OpenCodeMapper (fun _ p => p)) demo_options ["{1"; "2}" +:+ carriage +:+ newline +:+ "{3"; "}"] ""
  = m_stream (H := OpenCodeMapper (fun _ p => p)) demo_options (omap (stdout_record demo_parse) ["{12}"; "{3}"])
  /\ said (snd (run_output demo_parse (OpenCodeMapper (fun _ p => p)) demo_options ["{1"; "2}" +:+ carriage +:+ newline +:+ "{3"; "}"] "")) = ["{12}"; "{3}"].
Proof.
  split; [|vm_compute; reflexivity].
  exact (harness_output_chunks demo_parse (M := OpenCodeMapper (fun _ p => p)) demo_options ["{1"; "2}" +:+ carriage +:+ newline +:+ "{3"; "}"] "" eq_refl).
Defined.

(** C18 (harness_stream_faithful). Whatever records a harness writes, nothing the agent says is lost,
    repeated or reordered: the responses and lasting thoughts of the events are the texts of the
    records in order, where only Claude's final answer may replace the text before it; and the
    outcome of the turn (question, error, usage, final text) is what the events showed. *)
Theorem harness_stream_faithful (relative : string -> string -> string) (h : HarnessName) (o : MapperOptions) (l : list json) :
  let '(s, ds) := m_stream (H := createMapper relative h) o l in
  @told _ (mapper_laws relative h) [] l (said ds) /\ shows (m_outcome s) (sees nothing_seen ds).
Proof. exact (stream_faithful (ML := mapper_laws relative h) o l). Qed.

(** ** Credentials *)

Lemma without_keys name env : name ∈ PROVIDER_KEY_VARS -> env_get name (withoutProviderKeys env) = None.
Proof.
  unfold withoutProviderKeys. generalize PROVIDER_KEY_VARS. intros l. revert env.
  assert (Hkeep : forall l env, env_get name env = None -> env_get name (fold_left (fun e k => env_delete k e) l env) = None).
  { clear l. induction l as [|k l IH]; intros env Hn; [done|]. apply IH. destruct (decide (name = k)) as [->|Hne]; [apply env_get_delete_eq|].
    by rewrite env_get_delete_ne. }
  induction l as [|k l IH]; intros env; [by intros ?%elem_of_nil|]. cbn [fold_left]. intros [->|Hin]%elem_of_cons;
    [apply Hkeep, env_get_delete_eq | by apply IH].
Qed.

Section Confined.
Context (api : UrlApi) (join_path : list string -> string).

(** A server that may be written into a configuration. *)
Definition confined_server (b : BootstrapResponse) (s : BootstrapMCPServer) : Prop :=
  valid_server_name (srv_name s) = true /\ srv_name s <> "flow"
  /\ exists url origin, new_URL api (srv_url s) = Some url /\ runtimeOrigin api b = Some origin
    /\ url_origin api url = origin /\ startsWith GATEWAY_PATH (url_pathname api url) = true.

Lemma gateway_spec b : Forall (confined_server b) (gatewayMcpServers api b) /\ NoDup (map srv_name (gatewayMcpServers api b)).
Proof.
  unfold gatewayMcpServers. assert (H : forall l seen out, seen = "flow" :: map srv_name out -> NoDup seen -> Forall (confined_server b) out ->
    let r := fold_left (gateway_filter api (runtimeOrigin api b)) l (seen, out) in
    fst r = "flow" :: map srv_name (snd r) /\ NoDup (fst r) /\ Forall (confined_server b) (snd r)).
  { induction l as [|s l IH]; intros seen out Hs Hd Hc; [done|]. cbn [fold_left gateway_filter].
    destruct (valid_server_name (srv_name s)) eqn:Hv; [|by apply IH]. cbn [negb orb]. case_bool_decide as Hin; [by apply IH|].
    unfold server_allowed. destruct (new_URL api (srv_url s)) as [url|] eqn:Hu; [|by apply IH].
    destruct (given (runtimeOrigin api b) && _ && _) eqn:Ha; [|by apply IH]. breflect. apply IH.
    - by rewrite Hs, map_app.
    - apply NoDup_app. split; [done|]. split; [|apply NoDup_singleton]. by intros x Hx ->%list_elem_of_singleton.
    - apply Forall_app. split; [done|]. constructor; [|constructor]. split; [done|]. split; [intros E; apply Hin; rewrite Hs, E; left|].
      destruct (runtimeOrigin api b) as [r|]; [|done]. by exists url, r. }
  destruct (H (b_mcpServers b ?? []) ["flow"] [] eq_refl (NoDup_singleton _) (Forall_nil_2 _)) as (H1 & H2 & H3). split; [done|].
  rewrite H1 in H2. by apply NoDup_cons in H2 as [_ H2].
Qed.

(** ** What the configuration files say of MCP servers *)

Lemma insert_index_In n k v o x : In x (insert_index n k v o) -> x = (k, v) \/ In x o.
Proof.
  induction o as [|[k' v'] o IH]; cbn [insert_index]; [intros [<-|[]]; by left|].
  destruct (array_index k') as [m|]; [|intros [<-|H]; auto].
  destruct (m <? n)%Z; [intros [<-|H]; [right; by left | destruct (IH H); auto; right; by right]|].
  destruct (m =? n)%Z; (intros [<-|H]; [by left|]); [right; by right | by right].
Qed.

Lemma map_set_member {V} (k : string) (v : V) o x : In x (map_set k v o) -> x = (k, v) \/ In x o.
Proof.
  induction o as [|[k' v'] o IH]; cbn; [intros [<-|[]]; by left|].
  destruct (decide (k = k')) as [->|]; (intros [<-|H]; [auto|]); [auto | destruct (IH H); auto].
Qed.

Lemma obj_set_In k v o x : In x (obj_set k v o) -> x = (k, v) \/ In x o.
Proof.
  unfold obj_set. destruct (k =s "__proto__"); [by right|]. destruct (array_index k); [apply insert_index_In | apply map_set_member].
Qed.

Lemma servers_In b flow remote x : In x (fold_left (fun o s => obj_set (srv_name s) (remote s) o) (gatewayMcpServers api b) [("flow", flow)]) ->
  x = ("flow", flow) \/ exists s, confined_server b s /\ x = (srv_name s, remote s).
Proof.
  destruct (gateway_spec b) as [Hc _]. revert Hc. generalize (gatewayMcpServers api b). intros l Hl.
  enough (forall o, In x (fold_left (fun o s => obj_set (srv_name s) (remote s) o) l o) -> In x o \/ exists s, confined_server b s /\ x = (srv_name s, remote s)) as H.
  { intros Hx. destruct (H _ Hx) as [[<-|[]]|Hs]; auto. }
  induction Hl as [|s l Hs _ IH]; intros o; [by left|]. cbn [fold_left]. intros Hx. destruct (IH _ Hx) as [Ho|Ho]; [|by right].
  apply obj_set_In in Ho as [->|Ho]; eauto.
Qed.

(** An entry of a list of servers: Flow's own, which is a command and no address, or a server of the
    gateway under its own name. *)
Definition confined_entry (b : BootstrapResponse) (e : string * json) : Prop :=
  fst e = "flow" /\ field "url" (snd e) = None
  \/ exists s, confined_server b s /\ fst e = srv_name s /\ field "url" (snd e) = Some (JStr (srv_url s)).

(** A JSON configuration: the servers under these keys are confined. *)
Definition confined_json (b : BootstrapResponse) (content : string) : Prop :=
  exists doc, content = stringify_pretty "" (JObj doc)
    /\ Forall (fun key => match map_get key doc with
                          | None => True
                          | Some (JObj servers) => Forall (confined_entry b) servers
                          | Some _ => False
                          end) ["mcpServers"; "mcp"].

(** A TOML configuration, line by line: the tables of servers and their addresses are confined. *)
Definition confined_line (b : BootstrapResponse) (line : string) : Prop :=
  lacks nl line = true
  /\ (startsWith "[mcp_servers." line = true -> line = "[mcp_servers.flow]" \/ exists s, confined_server b s /\ line = "[mcp_servers." +:+ srv_name s +:+ "]")
  /\ (startsWith "url = " line = true -> exists s, confined_server b s /\ line = "url = " +:+ tomlString (srv_url s)).

Definition confined_toml (b : BootstrapResponse) (content : string) : Prop :=
  exists lines, content = join newline lines /\ Forall (confined_line b) lines.

(** Every file of an invocation is private, and is the guidance or a configuration of its harness. *)
Definition confined_file (h : HarnessName) (ctx : HarnessContext) (f : HarnessFile) : Prop :=
  f_mode f = private_mode
  /\ (f_content f = x_guidance ctx
      \/ match h with codex => confined_toml (x_bootstrap ctx) (f_content f) | _ => confined_json (x_bootstrap ctx) (f_content f) end).

(** The configuration the harness is told to read. *)
Definition config_file (h : HarnessName) (ctx : HarnessContext) : HarnessFile :=
  match h with
  | claudeCode => mkFile (join_path [p_flowDir (x_paths ctx); "mcp.json"]) (claudeMcpConfig api ctx) private_mode
  | codex => mkFile (join_path [join_path [p_home (x_paths ctx); ".codex"]; "config.toml"]) (codexConfig api ctx) private_mode
  | openSource => mkFile (join_path [p_flowDir (x_paths ctx); "opencode.json"]) (opencodeConfig api join_path ctx) private_mode
  | pi => mkFile (join_path [piAgentDir join_path (p_home (x_paths ctx)); "mcp.json"]) (piMcpConfig api ctx) private_mode
  end.

Lemma servers_confined b flow remote : field "url" flow = None -> (forall s, field "url" (remote s) = Some (JStr (srv_url s))) ->
  match servers_json api b flow remote with JObj servers => Forall (confined_entry b) servers | _ => False end.
Proof.
  intros Hf Hr. unfold servers_json. apply List.Forall_forall. intros x Hx. apply servers_In in Hx as [->|(s & Hs & ->)]; [by left|].
  right. exists s. cbn. auto.
Qed.

Lemma escape_lacks t : lacks nl (escape t) = true.
Proof.
  induction t as [|c t IH]; [done|]. cbn [escape]. rewrite lacks_app, IH, andb_true_r. destruct c as [[] [] [] [] [] [] [] []]; reflexivity.
Qed.

Lemma quote_lacks t : lacks nl (quote t) = true.
Proof. unfold quote. by rewrite !lacks_app, escape_lacks. Qed.

Lemma name_lacks t : all_chars name_char t = true -> lacks nl t = true.
Proof.
  induction t as [|c t IH]; [done|]. cbn. intros H. apply andb_true_iff in H as [Hc Ht]. rewrite (IH Ht), andb_true_r.
  destruct (Ascii.eqb_spec nl c) as [<-|]; [done | done].
Qed.

Lemma join_lacks sep l : lacks nl sep = true -> Forall (fun t => lacks nl t = true) l -> lacks nl (join sep l) = true.
Proof.
  intros Hs. induction 1 as [|x l Hx Hl IH]; [done|]. destruct l as [|y l]; [done|]. change (join sep (x :: y :: l)) with (x +:+ sep +:+ join sep (y :: l)).
  by rewrite !lacks_app, Hx, Hs, IH.
Qed.

(** A line that neither opens a table of a server nor gives an address. *)
Lemma other_line b line : lacks nl line = true -> startsWith "[mcp_servers." line = false -> startsWith "url = " line = false -> confined_line b line.
Proof. intros H1 H2 H3. split; [done|]. rewrite H2, H3. done. Qed.

(** A list of such lines; [tac] shows that they have no line break. *)
Ltac other_lines tac := repeat (apply Forall_cons; split; [try (apply other_line; [tac; done | done | done])|]); try apply Forall_nil_2.

Lemma toml_table_lacks values : lacks nl (tomlInlineTable values) = true.
Proof.
  unfold tomlInlineTable. rewrite !lacks_app. apply andb_true_iff. split; [done|]. apply andb_true_iff. split; [|done]. apply join_lacks; [done|].
  apply Forall_map, List.Forall_forall. intros [k v] _. cbn [fst snd]. rewrite !lacks_app. unfold tomlString. rewrite quote_lacks, andb_true_r.
  destruct (truthy k && all_chars bare_key k) eqn:E; [|apply quote_lacks].
  apply andb_true_iff in E as [_ E]. clear -E. induction k as [|c k IH]; [done|]. cbn in *. apply andb_true_iff in E as [Hc Hk].
  rewrite (IH Hk), andb_true_r. by destruct (Ascii.eqb_spec nl c) as [<-|].
Qed.

Lemma window_lacks v n : codexContextWindow v = Some n -> lacks nl (showZ n) = true.
Proof.
  unfold codexContextWindow. destruct v as [[]|]; try done. destruct (safe_integer n0) as [z|]; [|done].
  destruct (_ && _) eqn:E; [|done]. intros [= ->]. apply andb_true_iff in E as [E _]. apply Z.leb_le in E. unfold MIN_CONTEXT_WINDOW in E.
  rewrite showZ_nonneg by lia. generalize (N.to_uint (Z.to_N n)). intros d. induction d; [done|..]; cbn; by rewrite IHd.
Qed.

Lemma codex_confined ctx : confined_toml (x_bootstrap ctx) (codexConfig api ctx).
Proof.
  eexists. split; [reflexivity|]. set (b := x_bootstrap ctx).
  assert (Hq : forall t, lacks nl (tomlString t) = true) by apply quote_lacks.
  assert (Ha : lacks nl (join ", " (map tomlString (mcp_args (x_mcp ctx)))) = true) by (apply join_lacks; [done | apply Forall_map, List.Forall_forall; auto]).
  repeat (apply Forall_app; split).
  - other_lines ltac:(rewrite ?lacks_app, ?Hq; done).
  - destruct (given _); other_lines ltac:(rewrite ?lacks_app, ?Hq; done).
  - destruct (codexContextWindow _) eqn:E; other_lines ltac:(rewrite lacks_app, (window_lacks _ _ E); done).
  - other_lines ltac:(rewrite ?lacks_app, ?Hq, ?Ha, ?toml_table_lacks; done). split; [done|]. split; [by left | done].
  - destruct (gateway_spec b) as [Hc _]. revert Hc. generalize (gatewayMcpServers api b). induction 1 as [|s l Hs _ IH]; [constructor|].
    cbn [mbind list_bind]. apply Forall_app. split; [|exact IH]. pose proof Hs as (Hv & _). unfold valid_server_name in Hv. apply andb_true_iff in Hv as [_ Hv].
    other_lines idtac.
    + split; [by rewrite !lacks_app, (name_lacks _ Hv)|]. split; [right; eauto | done].
    + split; [by rewrite lacks_app, Hq|]. split; [done | eauto].
Qed.

Lemma files_confined h ctx : Forall (confined_file h ctx) (inv_files (invocation api join_path h ctx)).
Proof.
  assert (Hj : forall key servers doc, key = "mcpServers" \/ key = "mcp" -> map_get "mcpServers" doc = None -> map_get "mcp" doc = None ->
    match servers with JObj l => Forall (confined_entry (x_bootstrap ctx)) l | _ => False end ->
    confined_json (x_bootstrap ctx) (stringify_pretty "" (JObj (doc ++ [(key, servers)])))).
  { intros key servers doc Hk H1 H2 Hs. eexists. split; [reflexivity|].
    assert (Hg : forall k, map_get k doc = None -> map_get k (doc ++ [(key, servers)]) = if decide (k = key) then Some servers else None).
    { intros k. clear H1 H2. induction doc as [|[k' v'] doc IH]; cbn; [done|]. by destruct (decide (k = k')). }
    repeat constructor; rewrite Hg by done; case_decide; try done; by destruct servers. }
  assert (Hp : forall doc, map_get "mcpServers" doc = None -> map_get "mcp" doc = None -> confined_json (x_bootstrap ctx) (stringify_pretty "" (JObj doc))).
  { intros doc H1 H2. eexists. split; [reflexivity|]. repeat constructor; by rewrite ?H1, ?H2. }
  assert (Hg : forall path, confined_file h ctx (mkFile path (x_guidance ctx) private_mode)) by (intros path; split; [reflexivity | left; reflexivity]).
  destruct h; cbn [invocation claude_invocation codex_invocation opencode_invocation pi_invocation inv_files].
  - repeat (apply Forall_cons; split; [try apply Hg|]); [|apply Forall_nil_2]. split; [reflexivity|]. right. apply codex_confined.
  - repeat (apply Forall_cons; split; [try apply Hg|]); [|apply Forall_nil_2]. split; [reflexivity|]. right.
    apply (Hj _ _ []); auto. apply servers_confined; reflexivity.
  - repeat (apply Forall_cons; split; [try apply Hg|]); [|apply Forall_nil_2]. split; [reflexivity|]. right.
    apply (Hj _ _ [_; _; _; _; _; _; _; _]); auto. apply servers_confined; reflexivity.
  - repeat (apply Forall_cons; split; [try apply Hg|]); [| | |apply Forall_nil_2]; (split; [reflexivity|]); right.
    + apply Hp; reflexivity.
    + apply (Hj _ _ []); auto. apply servers_confined; reflexivity.
    + apply Hp; reflexivity.
Qed.

(** C21 (harness_credentials_confined). The environment of every harness is free of provider keys: the only such
    variable it may have is the token of the sandbox itself.  Every file written for it is private, and is the
    guidance or a configuration in which each MCP server with an address is a server of the gateway on
    Flow's own runtime, under its own name, so that the token is sent nowhere else; the configuration is
    among the files, and Claude is told to read it and no other. *)
Theorem harness_credentials_confined (h : HarnessName) (ctx : HarnessContext) :
  let inv := invocation api join_path h ctx in
  (forall name, name ∈ PROVIDER_KEY_VARS ->
     env_get name (inv_env inv) = if decide (h = claudeCode /\ name = "ANTHROPIC_AUTH_TOKEN") then Some (x_token ctx) else None)
  /\ Forall (confined_file h ctx) (inv_files inv)
  /\ In (config_file h ctx) (inv_files inv)
  /\ (h = claudeCode -> exists args, inv_args inv = ["-p"; "--output-format"; "stream-json"; "--verbose"; "--permission-mode"; "bypassPermissions";
        "--mcp-config"; f_path (config_file h ctx)] ++ args)
  /\ NoDup (map srv_name (gatewayMcpServers api (x_bootstrap ctx))).
Proof.
  cbn zeta. pose proof (gateway_spec (x_bootstrap ctx)) as [_ Hd]. split; [|split; [apply files_confined | split; [|split; [by intros ->; eexists | done]]]].
  - intros name Hp. pose proof (without_keys name (x_env ctx) Hp) as Hn.
    destruct h; cbn [invocation inv_env claude_invocation codex_invocation opencode_invocation pi_invocation]; revert Hn;
      generalize (withoutProviderKeys (x_env ctx)); intros env Hn; cbn [env_assign fold_left fst snd];
      unfold PROVIDER_KEY_VARS in Hp; rewrite !elem_of_cons, elem_of_nil in Hp; destruct_or?; subst name;
      repeat match goal with |- context [if truthy ?x then _ else _] => destruct (truthy x) end;
      rewrite ?env_get_delete_ne by done; rewrite ?env_get_set, Hn; done.
  - destruct h; cbn; auto.
Qed.
End Confined.

Lemma harness_examples :
  harnessFor "claude" = Some claudeCode /\ harnessFor "" = Some codex /\ harnessFor "gpt" = None
  /\ codexContextWindow (Some (JNum 200000)) = Some 200000 /\ codexContextWindow (Some (JNum (2049 # 2))) = None /\ codexContextWindow (Some (JStr "4096")) = None
  /\ tomlInlineTable [("A", "x"); ("a b", "y")] = "{ A = " +:+ quote "x" +:+ ", " +:+ quote "a b" +:+ " = " +:+ quote "y" +:+ " }"
  /\ stringify_pretty "" (JObj [("a", JArr [JNum 1; JArr []]); ("b", JObj [])])
     = join newline ["{"; "  " +:+ quote "a" +:+ ": ["; "    1,"; "    []"; "  ],"; "  " +:+ quote "b" +:+ ": {}"; "}"]
  /\ obj_set "7" JNull (obj_set "10" JNull (obj_set "__proto__" JNull [("flow", JNull)])) = [("7", JNull); ("10", JNull); ("flow", JNull)]
  /\ resumeFailed "Error: No conversation found with session ID" = true.
Proof. vm_compute. done. Qed.
