(* ===== verification/Session.v ===== *)
(** * A session of the runner (sandbox-runner/src/session.ts)

    The life of a session: the queue of turns fed by the inbox, stop requests, the turns one after
    the other, and what a turn publishes.  The session is a machine that reacts to inputs: answers
    of the inbox and the heartbeat, signals, the end of the preparation, of the harness and of a
    request, and the resumption of the loop once the promise of its [take] has resolved, which may come
    after any number of other inputs.  The git commands of a turn run between two inputs; the inputs that
    arrive in between only queue turns and set the stop request, which a turn reads when its harness
    has ended.  Git is the environment of [Git], the mapping of the harness' output is [Harness];
    file contents, hashes and dates are parameters.  Log lines, the harness' saved state and the
    refresher of command line credentials are left out. *)

From Stdlib Require Import ZArith Lia Bool List Ascii.
From stdpp Require Import base list strings.
From S2P Require Import Prelude JsString JsMap Regex JsNumber Json Protocol RunnerQueue TurnScope Git Mapping Harness.

Open Scope Z_scope.

(** ** Turns *)

Inductive StopReason := stop_user | stop_flow | stop_signal | stop_revoked.
Record StopRequest := mkStop { stop_by : string; stop_reason : StopReason }.

(** What running the harness gave. *)
Record Attempt := mkAttempt { at_outcome : TurnOutcome; at_exitCode : Z; at_timedOut : bool; at_stderr : string }.

(** [data?.[key]]: the first of the names that is a text with something in it. *)
Definition stopperName (data : option fields) : string :=
  let value key := match data ≫= get key with Some (JStr s) => trim s | _ => "" end in
  match List.filter truthy (map value ["by"; "userName"; "actorName"; "name"]) with v :: _ => slice 0 80 v | [] => "user" end.

Definition stopGraceMs (limits : BootstrapLimits) : Z :=
  Z.max 1 (if stopGraceSeconds limits =? 0 then 60 else stopGraceSeconds limits) * 1000.

(** A harness that could not resume its session is started again without one. *)
Definition resume_lost (resumeId : option string) (stop : option StopRequest) (a : Attempt) : bool :=
  nonempty resumeId && negb (isSome stop) && negb (at_timedOut a)
  && (negb (completed (at_outcome a)) || isSome (t_error (at_outcome a)))
  && resumeFailed (at_stderr a +:+ newline +:+ match t_error (at_outcome a) with Some e => err_message e | None => "" end).

Definition with_prompt (p : string) (t : Turn) : Turn :=
  {| tn_id := tn_id t; tn_prompt := p; tn_attachments := tn_attachments t; tn_kind := tn_kind t; tn_scope := tn_scope t;
     tn_scopeSource := tn_scopeSource t; tn_includeLeftovers := tn_includeLeftovers t |}.

Definition fresh_turn (t : Turn) : Turn :=
  with_prompt ("The previous agent session for this branch could not be resumed. Review the branch history (git log, git diff against the base) to see the work done so far, then handle this request:"
    +:+ newline +:+ newline +:+ tn_prompt t) t.

Definition harnessTurn (t : Turn) (resumeId : option string) (scope : TurnScope) : Turn :=
  if (tn_kind t =s "initial") && negb (nonempty resumeId) && bool_decide (scope = write) then t
  else with_prompt (requestHeader (tn_kind t) scope +:+ tn_prompt t) t.

Definition scope_of_turn (t : Turn) : TurnScope := turnScope (mkTurn (units (tn_prompt t)) (tn_kind t) (tn_scope t)).

(** The status of a turn whose harness has ended; [marker] is the file an elicitation leaves. *)
Definition turn_result (limits : BootstrapLimits) (stop : option StopRequest) (a : Attempt) (marker : bool) : TurnStatus * option ErrorDetail :=
  let o := at_outcome a in
  if isSome stop then (st_stopped, None)
  else if at_timedOut a then
    (st_error, Some {| err_code := turnTimeout; err_message := "The turn exceeded " +:+ showZ (turnTimeoutSeconds limits) +:+ "s and was stopped." |})
  else match t_error o with
       | Some e => (st_error, Some e)
       | None =>
           if negb (completed o) then
             let why := if at_exitCode a =? 0 then "exited without finishing the turn" else "exited with code " +:+ showZ (at_exitCode a) in
             (st_error, Some (harnessError ("The agent " +:+ why +:+ "." +:+ (if truthy (at_stderr a) then newline +:+ slice_end 1500 (at_stderr a) else ""))))
           else if elicited o || marker then (st_awaitingInput, None) else (st_success, None)
       end.

(** An error that the harness did not report itself is shown. *)
Definition result_events (a : Attempt) (error : option ErrorDetail) : list Draft :=
  match error, t_error (at_outcome a) with Some e, None => [Mapping.error e] | _, _ => [] end.

(** ** The end of a turn *)

Definition scope_text (scope : TurnScope) : string := match scope with write => "write" | noPublish => "noPublish" | readOnly => "readOnly" end.
Definition turn_message (status : TurnStatus) (error : option ErrorDetail) (stop : option StopRequest) (summary : string) (trailer : option string) : string :=
  match status with
  | st_stopped => commitMessage ("WIP: stopped by " +:+ match stop with Some s => if truthy (stop_by s) then stop_by s else "user" | None => "user" end) trailer default_subject
  | st_error => commitMessage ("WIP: " +:+ match error with
      | Some e => match err_code e with turnTimeout => "turn timed out" | _ => "turn ended with an error" end | None => "turn ended with an error" end) trailer default_subject
  | st_awaitingInput => commitMessage summary trailer "WIP: waiting for input"
  | st_success => commitMessage summary trailer default_subject
  end.

(** [fail]: the error is shown, and a turn that had ended well now ends with it. *)
Definition fail (detail : ErrorDetail) (acc : TurnStatus * option ErrorDetail * list Draft) : TurnStatus * option ErrorDetail * list Draft :=
  let '(status, error, events) := acc in
  let events := events ++ [Mapping.error detail] in
  match status with st_success | st_awaitingInput => (st_error, Some detail, events) | _ => (status, error, events) end.

Definition error_text (e : GitError) : string :=
  match e with
  | CommandError command r =>
      command +:+ " failed with exit code " +:+ showZ (rr_code r) +:+ (if rr_timedOut r then " (timed out)" else "") +:+ ": "
      +:+ slice_end 2000 (trim (if truthy (rr_stderr r) then rr_stderr r else rr_stdout r))
  | RemoteQueryError kind branch detail =>
      "Could not check whether branch " +:+ branch +:+ " exists on origin: "
      +:+ match kind with rf_auth => "the code host rejected the credentials or denied access" | rf_network => "the code host could not be reached"
          | rf_unavailable => "the code host is unavailable" | rf_unknown => "the query failed" end
      +:+ "." +:+ (if truthy detail then newline +:+ detail else "")
  | BranchNotFoundError branch =>
      "Branch " +:+ branch +:+ " was published before but no longer exists on origin, and this workspace has no copy of it. Restore the branch on the code host or start over."
  | BranchPolicyError m => m
  | DateError => "Invalid time value"
  end.

(** What a failed push reports. *)
Definition push_error_text (e : GitError) : string :=
  match e with
  | CommandError _ r => let t := slice_end 2000 (trim (rr_stderr r)) in if truthy t then t else error_text e
  | _ => error_text e
  end.

Definition permanent_push : regex := words ["rejected"; "non-fast-forward"; "protected branch"; "pre-receive hook"; "permission"; "denied"; "403"].

Section Turns.
Context (environment : History -> Command -> RunResult) (credentialHelper : string) (toISOString : string -> option string) (hash : string -> string).
(** The contents of the files at this point of the history. *)
Context (fingerprints : History -> list string -> list (string * string)).
Context (bootstrap : BootstrapResponse) (branchPrefix : string) (pushRetries : nat).

Definition workspace_commands : list (list string) := [
  ["rev-parse"; "HEAD"]; ["symbolic-ref"; "--quiet"; "HEAD"];
  ["--no-optional-locks"; "diff"; "--cached"; "--binary"; "--no-renames"; "--no-ext-diff"];
  ["--no-optional-locks"; "diff"; "--binary"; "--no-renames"; "--no-ext-diff"];
  ["--no-optional-locks"; "status"; "--porcelain=v1"; "-z"; "--untracked-files=all"; "--no-renames"]].

Fixpoint run_all (commands : list (list string)) : M (list (list string * RunResult)) :=
  match commands with
  | [] => ret []
  | args :: rest => let* r := git_unchecked environment args in let* more := run_all rest in ret ((args, r) :: more)
  end.

Definition read_workspace : M WorkspaceState :=
  let* answers := run_all workspace_commands in
  ret (readWorkspaceState (fun args => match map_get args answers with Some r => (rr_code r, rr_stdout r) | None => (1, "") end) hash).

Definition fingerprintPaths (paths : list string) : M (list (string * string)) := fun h => (h, inl (fingerprints h paths)).

(** The workspace in front of a turn. *)
Definition begin_turn (t : Turn) : M (string * TurnRun) :=
  let* startHead := git_head environment in
  let* before := read_workspace in
  let leftovers := map_keys (ws_dirty before) in
  let* prints := fingerprintPaths leftovers in
  ret (startHead, mkTurnRun (scope_of_turn t) before leftovers prints (match tn_includeLeftovers t with Some b => b | None => false end)).

(** The commit step, with what it tells. *)
Definition commit_turn (message : string) (run : TurnRun) : M (list Draft) :=
  let identity := b_git bootstrap in
  match run_leftovers run with
  | [] => commitAll environment message identity ;;; ret []
  | _ =>
      let* after := read_workspace in
      if run_include run then
        let '(_, _, earlier) := commitPlan run after [] in
        commitAll environment message identity ;;;
        ret (match earlier with
             | [] => []
             | _ => [thought ("Flow committed " +:+ showZ (Z.of_nat (length earlier))
                 +:+ " path(s) that already had uncommitted changes before this turn, as requested: " +:+ listPaths earlier 10 +:+ ".") false]
             end)
      else
        let* now := fingerprintPaths (run_leftovers run) in
        let '(plan, alone, changed) := commitPlan run after now in
        match plan with CommitAll => commitAll environment message identity | CommitPaths own => commitPaths environment message identity own end ;;;
        ret ((match changed with
              | [] => []
              | _ => [thought ("Flow committed " +:+ showZ (Z.of_nat (length changed))
                  +:+ " path(s) that had uncommitted changes before this turn because this turn changed them: " +:+ listPaths changed 10 +:+ ".") false]
              end)
             ++ (match alone with
                 | [] => []
                 | _ => [thought ("Flow did not commit " +:+ showZ (Z.of_nat (length alone))
                     +:+ " path(s) that already had uncommitted changes before this turn: " +:+ listPaths alone 10 +:+ ". They are left in the workspace unchanged.") false]
                 end))
  end.

(** [retries] more attempts after this one. *)
Fixpoint pushWithRetry (branch : string) (forceWithLease : bool) (retries : nat) : M unit :=
  catch (git_push environment credentialHelper branch forceWithLease) (fun e =>
    let stderr := match e with CommandError _ r => rr_stderr r | _ => "" end in
    match retries with
    | S n => if regex_test permanent_push (units stderr) then throw e else pushWithRetry branch forceWithLease n
    | O => throw e
    end).

(** [Some] of the error of a program that failed. *)
Definition attempt_of {A} (m : M A) : M (A + GitError) := fun h => let '(h', r) := m h in (h', inl r).

Definition nonempty_list {A} (l : list A) : option (list A) := match l with [] => None | _ => Some l end.
Definition nonempty_text (s : string) : option string := if truthy s then Some s else None.

(** The push step: nothing without commits, nothing against the branch policy. *)
Definition push_step (t : Turn) (commits : list CodingCommit) : M (bool + GitError) :=
  match commits with
  | [] => ret (inl false)
  | _ => match checkBranchAllowed (b_repo bootstrap) branchPrefix with
         | Some e => ret (inr e)
         | None => let* r := attempt_of (pushWithRetry (branchName (b_repo bootstrap)) (tn_kind t =s "rebase") pushRetries) in
                   ret (match r with inl _ => inl true | inr e => inr e end)
         end
  end.

(** [publish] of a write turn. *)
Definition publish_write (t : Turn) (startHead : string) (status : TurnStatus) (error : option ErrorDetail) (stop : option StopRequest)
    (resumeId : option string) (o : TurnOutcome) (run : TurnRun) : M (TurnCompleteRequest * list Draft) :=
  let repo := b_repo bootstrap in
  let identity := b_git bootstrap in
  let signed := nonempty (signingFormat identity) && nonempty (signingPublicKey identity) in
  let summary := finalText o ?? "" in
  let* committed := attempt_of (commit_turn (turn_message status error stop summary (coAuthorTrailer identity)) run) in
  let acc := match committed with
    | inl events => (status, error, events)
    | inr e => fail {| err_code := if isSigningFailure e then signingFailed else internal; err_message := "Committing failed: " +:+ error_text e |} (status, error, [])
    end in
  let* commits := catch (commitsSince environment toISOString startHead (branchName repo) (Some (tn_id t)) signed) (fun _ => ret []) in
  let* pushed := push_step t commits in
  let acc := match pushed with
    | inl true => let '(status, error, events) := acc in (status, error, events ++ [action (act "Pushed branch" (branchName repo) None None None) false])
    | inl false => acc
    | inr e => fail {| err_code := pushFailed; err_message := "Pushing " +:+ branchName repo +:+ " failed: " +:+ push_error_text e |} acc
    end in
  let '(status, error, events) := acc in
  let* headSha := git_head environment in
  let* diff := catch (diffSummary environment (baseRevision repo)) (fun _ => ret []) in
  ret ({| rq_status := status; rq_summary := nonempty_text summary;
          rq_displayTitle := match status with st_success | st_awaitingInput => summaryTitle summary | _ => None end;
          rq_harnessSessionId := resumeId; rq_commits := nonempty_list commits;
          rq_pushed := match pushed with inl b => b | inr _ => false end; rq_headSha := nonempty_text headSha;
          rq_diff := nonempty_list diff; rq_error := error; rq_scope := Some (scope_text (run_scope run)) |}, events).

(** [completeWithoutPublishing] *)
Definition publish_nothing (startHead : string) (status : TurnStatus) (error : option ErrorDetail) (resumeId : option string) (o : TurnOutcome) (run : TurnRun)
    : M (TurnCompleteRequest * list Draft) :=
  let* after := read_workspace in
  let* headNow := git_head environment in
  let violations := scopeViolations run after startHead headNow in
  let untracked := snd (readOnlyViolations (run_before run) after) in
  let what := match run_scope run with readOnly => "keep the repository and the pull request unchanged" | _ => "not commit or push" end in
  let detail := {| err_code := harnessFailed;
    err_message := "This turn's request was to " +:+ what +:+ ", but the agent changed the repository: " +:+ join "; " violations
      +:+ ". Flow did not commit or push anything and did not revert anything; the changes are left in the workspace for review." |} in
  let '(status, error, events) := match violations with [] => (status, error, []) | _ => fail detail (status, error, []) end in
  ret ({| rq_status := status; rq_summary := nonempty_text (finalText o ?? ""); rq_displayTitle := None; rq_harnessSessionId := resumeId;
          rq_commits := None; rq_pushed := false; rq_headSha := None; rq_diff := None; rq_error := error; rq_scope := Some (scope_text (run_scope run)) |},
       events ++ match untracked with [] => [] | _ => [thought ("Temporary files created in this turn were not committed: " +:+ listPaths untracked 10 +:+ ".") false] end).

Definition publish (t : Turn) (startHead : string) (status : TurnStatus) (error : option ErrorDetail) (stop : option StopRequest)
    (resumeId : option string) (o : TurnOutcome) (run : TurnRun) : M (TurnCompleteRequest * list Draft) :=
  if publishes (run_scope run) then publish_write t startHead status error stop resumeId o run
  else publish_nothing startHead status error resumeId o run.
End Turns.

(** What stopped the preparation of the workspace. *)
Inductive SetupFailure := SetupFailed (message logTail : string) | GitFailed (e : GitError) | OtherFailed (message : string).

Definition setup_detail (f : SetupFailure) : ErrorDetail :=
  let prefix := "Workspace preparation failed: " in
  let message := match f with SetupFailed m _ => m | GitFailed e => prefix +:+ error_text e | OtherFailed m => prefix +:+ m end in
  let log := match f with SetupFailed _ l => l | GitFailed (CommandError _ r) => slice_end 2000 (rr_stderr r) | _ => "" end in
  let auth := match f with GitFailed e => isRemoteAuthFailure e | _ => false end in
  let lead := if auth then "The code host rejected Flow's repository credentials while preparing the workspace. " +:+ message else message in
  {| err_code := if auth then noCodeAccess else environmentSetupFailed;
     err_message := if truthy log then lead +:+ newline +:+ newline +:+ log else lead |}.

(** ** The session *)

Abbreviation TurnQueue := (@AsyncQueue.Queue Turn).

(** Where [run] is: preparing, waiting for a turn, reading the workspace in front of one, waiting for the
    harness (with the turn it was given), waiting for the completion of the turn, or of the first turn
    after a failed preparation, or ended with its exit code. *)
Inductive Main :=
  | AtPrepare
  | AtTake
  | AtStart (t : Turn)
  | AtHarness (t given_turn : Turn) (startHead : string) (run : TurnRun) (resumeId : option string) (again : bool)
  | AtComplete (t : Turn) (request : TurnCompleteRequest)
  | AtFailed (t : Turn) (request : TurnCompleteRequest)
  | AtEnd (code : Z).

(** [started] are the turns that were run, [spawned] the prompts and sessions given to the harness and
    [interrupts] the number of interrupts sent to it: they are the trace of the session. *)
Record Session := mkSession {
  phase : HeartbeatPhase; s_turnId : option string; inboxAfter : Z; s_stop : option StopRequest; s_resumeId : option string;
  seenTurns : list string; turns : TurnQueue; taken : list (nat * option Turn); reports : list (string * TurnCompleteRequest);
  s_events : list Draft; s_history : History; main : Main; wakes : nat; started : list Turn; spawned : list (Turn * option string); interrupts : nat }.

Definition set_phase (p : HeartbeatPhase) (id : option string) (s : Session) : Session :=
  let changed := negb (bool_decide (p = phase s)) || negb (bool_decide (id = s_turnId s)) in
  mkSession p id (inboxAfter s) (s_stop s) (s_resumeId s) (seenTurns s) (turns s) (taken s) (reports s) (s_events s) (s_history s) (main s)
    (if changed then S (wakes s) else wakes s) (started s) (spawned s) (interrupts s).
Definition set_main (m : Main) (s : Session) : Session :=
  mkSession (phase s) (s_turnId s) (inboxAfter s) (s_stop s) (s_resumeId s) (seenTurns s) (turns s) (taken s) (reports s) (s_events s) (s_history s) m
    (wakes s) (started s) (spawned s) (interrupts s).
Definition set_after (n : Z) (s : Session) : Session :=
  mkSession (phase s) (s_turnId s) n (s_stop s) (s_resumeId s) (seenTurns s) (turns s) (taken s) (reports s) (s_events s) (s_history s) (main s)
    (wakes s) (started s) (spawned s) (interrupts s).
Definition set_stop (r : StopRequest) (s : Session) : Session :=
  mkSession (phase s) (s_turnId s) (inboxAfter s) (Some r) (s_resumeId s) (seenTurns s) (turns s) (taken s) (reports s) (s_events s) (s_history s) (main s)
    (wakes s) (started s) (spawned s) (interrupts s).
Definition set_resume (r : option string) (s : Session) : Session :=
  mkSession (phase s) (s_turnId s) (inboxAfter s) (s_stop s) r (seenTurns s) (turns s) (taken s) (reports s) (s_events s) (s_history s) (main s)
    (wakes s) (started s) (spawned s) (interrupts s).
Definition set_turns (seen : list string) (q : TurnQueue) (resolved : list (nat * option Turn)) (s : Session) : Session :=
  mkSession (phase s) (s_turnId s) (inboxAfter s) (s_stop s) (s_resumeId s) seen q (taken s ++ resolved) (reports s) (s_events s) (s_history s) (main s)
    (wakes s) (started s) (spawned s) (interrupts s).
Definition clear_taken (s : Session) : Session :=
  mkSession (phase s) (s_turnId s) (inboxAfter s) (s_stop s) (s_resumeId s) (seenTurns s) (turns s) [] (reports s) (s_events s) (s_history s) (main s)
    (wakes s) (started s) (spawned s) (interrupts s).
Definition add_report (id : string) (r : TurnCompleteRequest) (s : Session) : Session :=
  mkSession (phase s) (s_turnId s) (inboxAfter s) (s_stop s) (s_resumeId s) (seenTurns s) (turns s) (taken s) (reports s ++ [(id, r)]) (s_events s) (s_history s) (main s)
    (wakes s) (started s) (spawned s) (interrupts s).
Definition push_events (l : list Draft) (s : Session) : Session :=
  mkSession (phase s) (s_turnId s) (inboxAfter s) (s_stop s) (s_resumeId s) (seenTurns s) (turns s) (taken s) (reports s) (s_events s ++ l) (s_history s) (main s)
    (wakes s) (started s) (spawned s) (interrupts s).
Definition set_history (h : History) (s : Session) : Session :=
  mkSession (phase s) (s_turnId s) (inboxAfter s) (s_stop s) (s_resumeId s) (seenTurns s) (turns s) (taken s) (reports s) (s_events s) h (main s)
    (wakes s) (started s) (spawned s) (interrupts s).
Definition add_started (t : Turn) (s : Session) : Session :=
  mkSession (phase s) (s_turnId s) (inboxAfter s) (s_stop s) (s_resumeId s) (seenTurns s) (turns s) (taken s) (reports s) (s_events s) (s_history s) (main s)
    (wakes s) (started s ++ [t]) (spawned s) (interrupts s).
Definition add_spawned (t : Turn) (resume : option string) (s : Session) : Session :=
  mkSession (phase s) (s_turnId s) (inboxAfter s) (s_stop s) (s_resumeId s) (seenTurns s) (turns s) (taken s) (reports s) (s_events s) (s_history s) (main s)
    (wakes s) (started s) (spawned s ++ [(t, resume)]) (interrupts s).
Definition interrupt (s : Session) : Session :=
  mkSession (phase s) (s_turnId s) (inboxAfter s) (s_stop s) (s_resumeId s) (seenTurns s) (turns s) (taken s) (reports s) (s_events s) (s_history s) (main s)
    (wakes s) (started s) (spawned s) (S (interrupts s)).

(** A stop closes the queue and interrupts a running harness; a second one changes nothing. *)
Definition requestStop (r : StopRequest) (s : Session) : Session :=
  if isSome (s_stop s) then s
  else
    let '(q, resolved) := AsyncQueue.close (turns s) in
    let s := set_turns (seenTurns s) q resolved (set_stop r s) in
    match main s with AtHarness _ _ _ _ _ _ => interrupt s | _ => s end.

Definition handleInboxItem (item : InboxItem) (s : Session) : Session :=
  let s := if inboxAfter s <? item_seq item then set_after (item_seq item) s else s in
  let stop := requestStop (mkStop (stopperName (item_data item)) stop_user) s in
  if item_kind item =s "stop" then stop
  else if (item_kind item =s "turn") || (item_kind item =s "signal") then
    if bool_decide (item_signal item = Some "stop") then stop
    else match item_turn item with
         | Some t =>
             if bool_decide (tn_id t ∈ seenTurns s) then s
             else let '(q, resolved) := AsyncQueue.push t (turns s) in set_turns (seenTurns s ++ [tn_id t]) q resolved s
         | None => s
         end
  else s.

Definition start_turn (t : Turn) (s : Session) : Session := set_main (AtStart t) (add_started t (set_phase ph_running (Some (tn_id t)) s)).

(** The loop resumes when the promise of [take] has resolved: the next turn, or the end. *)
Definition settle (s : Session) : Session :=
  match main s, taken s with
  | AtTake, (_, Some t) :: _ => start_turn t (clear_taken s)
  | AtTake, (_, None) :: _ => set_main (AtEnd 0) (clear_taken s)
  | _, _ => s
  end.

(** The top of the loop without a turn at hand. *)
Definition next_turn (s : Session) : Session :=
  if isSome (s_stop s) then set_main (AtEnd 0) s
  else
    let s := set_phase ph_idle None s in
    let '(q, resolved) := AsyncQueue.take 0 (turns s) in
    set_main AtTake (set_turns (seenTurns s) q resolved s).

Definition spawn (t : Turn) (resume : option string) (s : Session) : Session :=
  let s := add_spawned t resume s in if isSome (s_stop s) then interrupt s else s.

(** [catch] of [run]: a rejected token ends the session, anything else is an error. *)
Definition session_throws (auth : bool) (message : string) (s : Session) : Session :=
  if auth then set_main (AtEnd 0) s
  else set_main (AtEnd 1) (push_events [Mapping.error {| err_code := internal; err_message := "Runner error: " +:+ message |}] s).

Inductive Input :=
  | InInbox (items : list InboxItem)
  | InInboxAuth
  | InHeartbeat (stop : bool)
  | InHeartbeatAuth
  | InStop (r : StopRequest)
  | InPrepared
  | InPrepareFailed (f : SetupFailure)
  | InRead
  | InExit (a : Attempt) (marker : bool)
  | InCompleted
  | InResume
  | InThrow (auth : bool) (message : string).

Section Machine.
Context (environment : History -> Command -> RunResult) (credentialHelper : string) (toISOString : string -> option string) (hash : string -> string)
  (fingerprints : History -> list string -> list (string * string)) (bootstrap : BootstrapResponse) (branchPrefix : string) (pushRetries : nat).

Definition initial : Session :=
  mkSession ph_setup None 0 None (match h_resumeId (b_harness bootstrap) with Some r => nonempty_text r | None => None end)
    (match b_turn bootstrap with Some t => [tn_id t] | None => [] end) AsyncQueue.empty [] [] [] [] AtPrepare 0 [] [] 0.

Definition failed_request (detail : ErrorDetail) : TurnCompleteRequest :=
  {| rq_status := st_error; rq_summary := None; rq_displayTitle := None; rq_harnessSessionId := None; rq_commits := None; rq_pushed := false;
     rq_headSha := None; rq_diff := None; rq_error := Some detail; rq_scope := None |}.

Definition revoked : StopRequest := mkStop "Flow" stop_revoked.

(** [runTurn] once the harness has ended for good. *)
Definition end_turn (t : Turn) (startHead : string) (run : TurnRun) (a : Attempt) (marker : bool) (s : Session) : Session :=
  let o := at_outcome a in
  let s := if nonempty (harnessSessionId o) then set_resume (harnessSessionId o) s else s in
  let '(status, error) := turn_result (b_limits bootstrap) (s_stop s) a marker in
  let s := push_events (result_events a error) s in
  let s := if publishes (run_scope run) then set_phase ph_publishing (Some (tn_id t)) s else s in
  let '(h, r) := publish environment credentialHelper toISOString hash fingerprints bootstrap branchPrefix pushRetries
                   t startHead status error (s_stop s) (s_resumeId s) o run (s_history s) in
  match r with
  | inl (request, events) => set_main (AtComplete t request) (push_events events (set_history h s))
  | inr e => session_throws false (error_text e) (set_history h s)
  end.

Definition handle (i : Input) (s : Session) : Session :=
  match i, main s with
  | InInbox items, _ => fold_left (fun s item => handleInboxItem item s) items s
  | InInboxAuth, _ | InHeartbeatAuth, _ => requestStop revoked s
  | InHeartbeat stop, _ => if stop then requestStop (mkStop "Flow" stop_flow) s else s
  | InStop r, _ => requestStop r s
  | InResume, _ => settle s
  | InPrepared, AtPrepare =>
      if isSome (s_stop s) then set_main (AtEnd 0) s else match b_turn bootstrap with Some t => start_turn t s | None => next_turn s end
  | InPrepareFailed f, AtPrepare =>
      let detail := setup_detail f in
      let s := push_events [Mapping.error detail] s in
      match b_turn bootstrap with Some t => set_main (AtFailed t (failed_request detail)) s | None => set_main (AtEnd 1) s end
  | InRead, AtStart t =>
      let '(h, r) := begin_turn environment hash fingerprints t (s_history s) in
      match r with
      | inl (startHead, run) =>
          let given_turn := harnessTurn t (s_resumeId s) (run_scope run) in
          spawn given_turn (s_resumeId s) (set_main (AtHarness t t startHead run (s_resumeId s) false) (set_history h s))
      | inr e => session_throws false (error_text e) (set_history h s)
      end
  | InExit a marker, AtHarness t _ startHead run resume again =>
      if negb again && resume_lost (s_resumeId s) (s_stop s) a then
        let given_turn := harnessTurn (fresh_turn t) None (run_scope run) in
        spawn given_turn None (set_main (AtHarness t (fresh_turn t) startHead run None true) (set_resume None s))
      else end_turn t startHead run a marker s
  | InCompleted, AtComplete t request => next_turn (set_phase ph_idle None (add_report (tn_id t) request s))
  | InCompleted, AtFailed t request => set_main (AtEnd 1) (set_phase ph_idle None (add_report (tn_id t) request s))
  | InThrow auth message, (AtPrepare | AtStart _ | AtHarness _ _ _ _ _ _ | AtComplete _ _ | AtFailed _ _) => session_throws auth message s
  | _, _ => s
  end.

Definition run_session (inputs : list Input) : Session := fold_left (fun s i => handle i s) inputs initial.
End Machine.

(** ** Every turn once, in order *)

(** The turn an inbox item brings. *)
Definition arrival (item : InboxItem) : list Turn :=
  if negb (item_kind item =s "stop") && ((item_kind item =s "turn") || (item_kind item =s "signal")) && negb (bool_decide (item_signal item = Some "stop"))
  then option_list (item_turn item) else [].
Definition arrivals_of (i : Input) : list Turn := match i with InInbox items => items ≫= arrival | _ => [] end.
Definition arrivals (inputs : list Input) : list Turn := inputs ≫= arrivals_of.

(** The turns with an id not seen before, in order. *)
Fixpoint distinct (seen : list string) (l : list Turn) : list Turn :=
  match l with
  | [] => []
  | t :: r => if bool_decide (tn_id t ∈ seen) then distinct seen r else t :: distinct (seen ++ [tn_id t]) r
  end.

Lemma distinct_snoc seen l t : distinct seen (l ++ [t])
  = distinct seen l ++ if bool_decide (tn_id t ∈ seen ++ map tn_id (distinct seen l)) then [] else [t].
Proof.
  revert seen. induction l as [|x l IH]; intros seen; cbn [app distinct].
  - cbn [map]. rewrite app_nil_r. by case_bool_decide.
  - case_bool_decide; [apply IH|]. cbn [map app]. rewrite IH. by rewrite <- app_assoc.
Qed.

Lemma distinct_NoDup seen l : NoDup seen -> NoDup (seen ++ map tn_id (distinct seen l)).
Proof.
  revert seen. induction l as [|x l IH]; intros seen Hs; cbn [distinct]; [by rewrite app_nil_r|].
  case_bool_decide as Hx; [by apply IH|]. cbn [map]. rewrite cons_middle, app_assoc. apply IH. apply NoDup_app.
  split; [done|]. split; [by intros y Hy ->%list_elem_of_singleton | apply NoDup_singleton].
Qed.

Section Turns_once.
Context (first : option Turn).
Abbreviation firsts := (map tn_id (option_list first)).

(** What the reports say of the turns that were run. *)
Definition reported (s : Session) : Prop :=
  match main s with
  | AtPrepare | AtFailed _ _ => reports s = []
  | AtTake => map fst (reports s) = map tn_id (started s)
  | AtStart t | AtHarness t _ _ _ _ _ | AtComplete t _ => map tn_id (started s) = map fst (reports s) ++ [tn_id t]
  | AtEnd _ => map fst (reports s) = map tn_id (started s) \/ (exists t, map tn_id (started s) = map fst (reports s) ++ [tn_id t])
      \/ started s = [] /\ map fst (reports s) = firsts
  end.

Definition begun (s : Session) (ts : list Turn) : Prop :=
  match main s with
  | AtPrepare => started s = [] /\ ts = []
  | AtFailed t _ => started s = [] /\ ts = [] /\ first = Some t
  | AtEnd _ => started s = option_list first ++ ts \/ started s = [] /\ ts = []
  | _ => started s = option_list first ++ ts
  end.

(** The promise of [take]. *)
Definition waiting (s : Session) : Prop :=
  match main s with
  | AtTake => (taken s = [] /\ AsyncQueue.waiters (turns s) = [0%nat] /\ AsyncQueue.items (turns s) = [] /\ s_stop s = None)
      \/ exists o, taken s = [(0%nat, o)] /\ AsyncQueue.waiters (turns s) = []
  | _ => taken s = [] /\ AsyncQueue.waiters (turns s) = []
  end.

Record session_inv (arr : list Turn) (s : Session) : Prop := {
  i_seen : seenTurns s = firsts ++ map tn_id (distinct firsts arr);
  i_turns : exists ts dropped, distinct firsts arr = ts ++ omap snd (taken s) ++ AsyncQueue.items (turns s) ++ dropped
    /\ (s_stop s = None -> dropped = []) /\ begun s ts;
  i_closed : AsyncQueue.closed (turns s) = isSome (s_stop s);
  i_waiting : waiting s;
  i_reports : reported s }.

Lemma inv_requestStop arr r s : session_inv arr s -> session_inv arr (requestStop r s).
Proof.
  intros Hi. pose proof Hi as [H1 (ts & dropped & H2 & H3 & H4) H5 H6 H7]. unfold requestStop. destruct (s_stop s) eqn:Hs; cbn [isSome]; [done|].
  rewrite (H3 eq_refl), app_nil_r in H2. unfold AsyncQueue.close.
  assert (Hg : forall s', seenTurns s' = seenTurns s -> turns s' = AsyncQueue.mkQueue (AsyncQueue.items (turns s)) [] true ->
    taken s' = taken s ++ map (fun w => (w, None)) (AsyncQueue.waiters (turns s)) -> isSome (s_stop s') = true -> main s' = main s ->
    started s' = started s -> reports s' = reports s -> session_inv arr s').
  { intros s' E1 E2 E3 E4 E5 E6 E7. split.
    - by rewrite E1.
    - exists ts, []. rewrite E2, E3, omap_app. cbn [AsyncQueue.items]. split; [|split; [done | unfold begun in *; by rewrite E5, E6]].
      assert (E : omap snd (map (fun w : nat => (w, @None Turn)) (AsyncQueue.waiters (turns s))) = []) by apply (AsyncQueue.given_nones (T := Turn)).
      rewrite E, !app_nil_r. done.
    - rewrite E2. by rewrite E4.
    - unfold waiting in *. rewrite E5, E2, E3. destruct (main s); cbn [AsyncQueue.waiters AsyncQueue.items];
        try (destruct H6 as [-> ->]; done). right. destruct H6 as [(-> & -> & _)|(o & -> & ->)]; cbn; eauto.
    - unfold reported in *. by rewrite E5, E6, E7. }
  destruct (main s) eqn:Hm; cbn; rewrite Hm; apply Hg; cbn; congruence.
Qed.

Lemma inv_same arr s s' : session_inv arr s -> seenTurns s' = seenTurns s -> turns s' = turns s -> taken s' = taken s -> s_stop s' = s_stop s ->
  main s' = main s -> started s' = started s -> reports s' = reports s -> session_inv arr s'.
Proof.
  intros [H1 H2 H3 H4 H5] E1 E2 E3 E4 E5 E6 E7. split; unfold begun, waiting, reported in *; rewrite ?E1, ?E2, ?E3, ?E4, ?E5, ?E6, ?E7; done.
Qed.

Lemma inv_item arr item s : session_inv arr s -> session_inv (arr ++ arrival item) (handleInboxItem item s).
Proof.
  intros Hinv. unfold handleInboxItem, arrival. set (s0 := if inboxAfter s <? item_seq item then _ else s).
  assert (Hinv0 : session_inv arr s0) by (subst s0; destruct (_ <? _); [by eapply inv_same | done]). clearbody s0. clear s Hinv. rename s0 into s.
  destruct (item_kind item =s "stop"); cbn [negb andb]; [rewrite app_nil_r; by apply inv_requestStop|].
  destruct ((item_kind item =s "turn") || (item_kind item =s "signal")); cbn [andb]; [|by rewrite app_nil_r].
  case_bool_decide; cbn [negb andb]; [rewrite app_nil_r; by apply inv_requestStop|].
  destruct (item_turn item) as [t|]; [change (option_list (Some t)) with [t] | by rewrite app_nil_r].
  destruct Hinv0 as [H1 (ts & dropped & H2 & H3 & H4) H5 H6 H7]. pose proof (distinct_snoc firsts arr t) as Hd. rewrite <- H1 in Hd.
  case_bool_decide as Hin; [rewrite app_nil_r in Hd; split; rewrite ?Hd; eauto 6|].
  unfold AsyncQueue.push. rewrite H5. destruct (s_stop s) as [r|] eqn:Hs; cbn [isSome].
  - split; cbn; rewrite ?Hd, ?app_nil_r.
    + by rewrite H1, map_app, app_assoc.
    + exists ts, (dropped ++ [t]). rewrite H2, <- !app_assoc. split; [done|]. split; [by rewrite Hs | done].
    + by rewrite H5, Hs.
    + unfold waiting in *. cbn. by rewrite app_nil_r.
    + done.
  - rewrite (H3 eq_refl), app_nil_r in H2. destruct (AsyncQueue.waiters (turns s)) as [|w ws] eqn:Hw; cbn.
    + split; cbn; rewrite ?Hd, ?app_nil_r.
      * by rewrite H1, map_app, app_assoc.
      * exists ts, []. rewrite H2, app_nil_r, <- !app_assoc. done.
      * by rewrite Hs.
      * unfold waiting in *. cbn. rewrite app_nil_r. destruct (main s); try (by destruct H6). right. destruct H6 as [(_ & Hx & _)|(o & ? & _)]; [congruence | eauto].
      * done.
    + unfold waiting in H6. rewrite Hw in H6. destruct (main s) eqn:Hm; try (by destruct H6 as [_ ?]).
      destruct H6 as [(Ht & [= -> ->] & Hi & _)|(o & _ & [=])]. split; cbn; rewrite ?Hd.
      * by rewrite H1, map_app, app_assoc.
      * exists ts, []. rewrite H2, Ht, Hi. cbn. split; [by rewrite !app_nil_r|]. split; [done|]. unfold begun in *. cbn. by rewrite Hm in *.
      * by rewrite Hs.
      * unfold waiting. cbn. rewrite Hm. right. exists (Some t). by rewrite Ht.
      * unfold reported in *. cbn. by rewrite Hm in *.
Qed.

Lemma inv_items arr items s : session_inv arr s ->
  session_inv (arr ++ (items ≫= arrival)) (fold_left (fun s item => handleInboxItem item s) items s).
Proof.
  revert arr s. induction items as [|item items IH]; intros arr s H; [by rewrite app_nil_r|]. cbn [fold_left mbind list_bind].
  rewrite app_assoc. apply IH. by apply inv_item.
Qed.

(** Moving on when no promise is waited for. *)
Lemma inv_move arr s s' : session_inv arr s -> main s <> AtTake -> seenTurns s' = seenTurns s -> turns s' = turns s -> taken s' = taken s ->
  s_stop s' = s_stop s -> (forall ts, begun s ts -> begun s' ts) -> reported s' -> main s' <> AtTake -> session_inv arr s'.
Proof.
  intros [H1 (ts & dropped & H2 & H3 & H4) H5 H6 H7] Hm E1 E2 E3 E4 Hb Hr Hm'. split; rewrite ?E1, ?E2, ?E3, ?E4; try done.
  - exists ts, dropped. auto.
  - unfold waiting in *. rewrite E2, E3. destruct (main s); try done; destruct (main s'); done.
Qed.

(** The loop takes the next turn, or waits for it; [s0] is the state in front of the report. *)
Lemma inv_next arr s0 s : session_inv arr s0 -> main s0 <> AtTake -> main s = main s0 -> seenTurns s = seenTurns s0 -> turns s = turns s0 ->
  taken s = taken s0 -> s_stop s = s_stop s0 -> started s = started s0 -> (forall ts, begun s0 ts -> started s = option_list first ++ ts) ->
  map fst (reports s) = map tn_id (started s) -> session_inv arr (next_turn s).
Proof.
  intros Hi Hm E1 E2 E3 E4 E5 E6 Hb Hr. pose proof Hi as [H1 (ts & dropped & H2 & H3 & H4) H5 H6 H7]. unfold next_turn.
  assert (Hw : taken s0 = [] /\ AsyncQueue.waiters (turns s0) = []) by (unfold waiting in H6; destruct (main s0); done). destruct Hw as [Ht Hw].
  destruct (s_stop s) eqn:Hs; cbn [isSome].
  - eapply inv_move; [exact Hi | done | done | done | done | by cbn; rewrite Hs | | | done].
    + intros ts' Hts. unfold begun. cbn. left. by apply Hb.
    + unfold reported. cbn. by left.
  - rewrite <- E5 in H3. specialize (Hb ts H4). rewrite (H3 eq_refl), Ht, app_nil_r in H2. cbn in H2. unfold AsyncQueue.take. cbn [turns set_phase].
    rewrite E3. destruct (AsyncQueue.items (turns s0)) as [|t rest] eqn:Hq.
    + rewrite H5, <- E5. cbn [isSome]. split; cbn; rewrite ?E2, ?E4, ?Ht, ?Hw, ?Hs; try done.
      * exists ts, []. rewrite H2. split; [done|]. split; [done|]. done.
      * left. done.
    + rewrite Hw in *. split; cbn; rewrite ?E2, ?E4, ?Ht, ?Hs; try done.
      * exists ts, []. rewrite H2. cbn. by rewrite app_nil_r.
      * by rewrite H5, <- E5.
      * right. by exists (Some t).
Qed.

Lemma inv_settle arr s : session_inv arr s -> session_inv arr (settle s).
Proof.
  intros Hi. pose proof Hi as [H1 (ts & dropped & H2 & H3 & H4) H5 H6 H7]. unfold settle. unfold waiting, begun, reported in H4, H6, H7.
  destruct (main s) eqn:Hm; try (by destruct H6). destruct H6 as [(Ht & _)|(o & Ht & Hw)]; rewrite Ht; [done|]. rewrite Ht in H2.
  destruct o as [t|]; split; cbn; try done.
  - exists (ts ++ [t]), dropped. cbn in H2. rewrite <- app_assoc. split; [done|]. split; [done|]. unfold begun. cbn. by rewrite H4, <- app_assoc.
  - unfold reported. cbn. rewrite map_app, H7. done.
  - exists ts, dropped. unfold begun. cbn. auto.
  - unfold reported. cbn. auto.
Qed.
End Turns_once.

(** ** Programs that only read *)

Definition reading (p : Command * RunResult) : bool :=
  existsb (String.eqb (subcommand (cmd_args (fst p)))) ["rev-parse"; "symbolic-ref"; "diff"; "status"].
(** [m] runs reading commands and does not throw. *)
Definition reads {A} (m : M A) : Prop := spec m (fun l r => Forall (fun p => reading p = true) l /\ exists a, r = inl a).

Lemma reads_bind {A B} (m : M A) (k : A -> M B) : reads m -> (forall a, reads (k a)) -> reads (bind m k).
Proof.
  intros Hm Hk. eapply spec_bind; [exact Hm | |]; [|no_throw]. intros l a [Hl _]. eapply spec_mono; [|apply Hk].
  intros l2 r [Hl2 Hr]. split; [by apply Forall_app | done].
Qed.

Lemma reads_ret {A} (a : A) : reads (ret a).
Proof. apply spec_ret. eauto. Qed.

Lemma reads_git environment args : existsb (String.eqb (subcommand args)) ["rev-parse"; "symbolic-ref"; "diff"; "status"] = true -> reads (git_unchecked environment args).
Proof. intros H. eapply spec_mono; [|apply git_unchecked_spec]. intros l r (a & -> & ->). split; [by repeat constructor | eauto]. Qed.

Lemma reads_head environment : reads (git_head environment).
Proof. apply reads_bind; [by apply reads_git | intros r; apply reads_ret]. Qed.

Lemma reads_workspace environment hash : reads (read_workspace environment hash).
Proof.
  unfold read_workspace. apply reads_bind; [|intros l; apply reads_ret]. unfold workspace_commands.
  repeat (cbn [run_all]; apply reads_bind; [by apply reads_git | intros ?; apply reads_bind; [|intros ?; apply reads_ret]]). apply reads_ret.
Qed.

Lemma reads_files fingerprints paths : reads (fingerprintPaths fingerprints paths).
Proof. intros h. exists []. cbn. rewrite app_nil_r. eauto. Qed.

Lemma reads_total {A} (m : M A) h : reads m -> exists h' a, m h = (h', inl a).
Proof. intros H. destruct (H h) as (l & Hl & _ & a & Ha). destruct (m h) as [h' r]. cbn in *. subst. eauto. Qed.

Section Session_facts.
Context (environment : History -> Command -> RunResult) (credentialHelper : string) (toISOString : string -> option string) (hash : string -> string)
  (fingerprints : History -> list string -> list (string * string)) (bootstrap : BootstrapResponse) (branchPrefix : string) (pushRetries : nat).

Abbreviation handle := (handle environment credentialHelper toISOString hash fingerprints bootstrap branchPrefix pushRetries).
Abbreviation run_session := (run_session environment credentialHelper toISOString hash fingerprints bootstrap branchPrefix pushRetries).
Abbreviation inv := (session_inv (b_turn bootstrap)).

(** The same queue, stop request and turns. *)
Definition same_turns (s s' : Session) : Prop :=
  seenTurns s' = seenTurns s /\ turns s' = turns s /\ taken s' = taken s /\ s_stop s' = s_stop s /\ started s' = started s /\ reports s' = reports s.

Lemma same_turns_trans s1 s2 s3 : same_turns s1 s2 -> same_turns s2 s3 -> same_turns s1 s3.
Proof. unfold same_turns. intuition congruence. Qed.

(** In the middle of a turn the session stays with it or ends. *)
Definition in_turn (m : Main) (t : Turn) : Prop :=
  match m with AtStart t' | AtHarness t' _ _ _ _ _ | AtComplete t' _ => t' = t | _ => False end.

Lemma inv_within arr s s' t : inv arr s -> in_turn (main s) t -> same_turns s s' -> in_turn (main s') t \/ (exists code, main s' = AtEnd code) -> inv arr s'.
Proof.
  intros Hi Ht (E1 & E2 & E3 & E4 & E5 & E6) Hm'. pose proof (i_reports _ _ _ Hi) as Hr.
  apply (inv_move (b_turn bootstrap) arr s); try done; unfold begun, reported in *; rewrite ?E5, ?E6.
  - intros H. by rewrite H in Ht.
  - intros ts Hts. destruct Hm' as [Hm'|[code ->]]; [by destruct (main s), (main s') | by destruct (main s); try left].
  - destruct Hm' as [Hm'|[code ->]].
    + destruct (main s); try done; cbn in Ht; subst; destruct (main s'); try done; cbn in Hm'; subst; done.
    + right. left. exists t. destruct (main s); try done; cbn in Ht; by subst.
  - intros H. destruct Hm' as [Hm'|[code Hc]]; [by rewrite H in Hm' | congruence].
Qed.

Lemma throws_same s auth m : same_turns s (session_throws auth m s) /\ exists code, main (session_throws auth m s) = AtEnd code.
Proof. unfold session_throws. destruct auth; (split; [done | by eexists]). Qed.

Lemma spawn_same t r s : same_turns s (spawn t r s) /\ main (spawn t r s) = main s.
Proof. unfold spawn. cbn. by destruct (isSome (s_stop s)). Qed.

Lemma end_turn_same t startHead run a marker s :
  let s' := end_turn environment credentialHelper toISOString hash fingerprints bootstrap branchPrefix pushRetries t startHead run a marker s in
  same_turns s s' /\ (in_turn (main s') t \/ exists code, main s' = AtEnd code).
Proof.
  cbn zeta. unfold end_turn. set (s1 := if nonempty _ then _ else s). assert (H1 : same_turns s s1) by (subst s1; by destruct (nonempty _)). clearbody s1.
  destruct (turn_result _ _ a marker) as [status error]. set (s2 := push_events _ s1). assert (H2 : same_turns s s2) by exact H1. clearbody s2.
  set (s3 := if publishes _ then _ else s2). assert (H3 : same_turns s s3) by (subst s3; by destruct (publishes _)). clearbody s3.
  destruct (publish _ _ _ _ _ _ _ _ _ _ _ _ _ _ _ _ _) as [h [[request events]|e]].
  - split; [exact H3 | by left].
  - pose proof (throws_same (set_history h s3) false (error_text e)) as [Hs Hc]. split; [|by right].
    by eapply same_turns_trans; [|exact Hs].
Qed.

Lemma begin_turn_total t h : exists h' x, begin_turn environment hash fingerprints t h = (h', inl x).
Proof.
  apply reads_total. apply reads_bind; [apply reads_head|]. intros head. apply reads_bind; [apply reads_workspace|]. intros before.
  apply reads_bind; [apply reads_files|]. intros prints. apply reads_ret.
Qed.

Lemma inv_prepared arr s : inv arr s -> main s = AtPrepare -> inv arr (handle InPrepared s).
Proof.
  intros Hi Hm. cbn. rewrite Hm. pose proof (i_reports _ _ _ Hi) as Hr. unfold reported in Hr. rewrite Hm in Hr.
  destruct (i_turns _ _ _ Hi) as (ts0 & _ & _ & _ & Hb0). unfold begun in Hb0. rewrite Hm in Hb0. destruct Hb0 as [Hst _].
  assert (Hne : main s <> AtTake) by congruence. destruct (isSome (s_stop s)).
  { apply (inv_move _ arr s); try done; unfold begun, reported; cbn; rewrite ?Hm, ?Hr, ?Hst; auto. }
  destruct (b_turn bootstrap) as [t|] eqn:Ht.
  - apply (inv_move _ arr s); try done; unfold begun, reported; cbn; rewrite ?Hm, ?Hr, ?Hst; try done. by intros ts [_ ->].
  - apply (inv_next _ arr s); try done; unfold begun; cbn; rewrite ?Hm, ?Hr, ?Hst; try done. by intros ts [_ ->].
Qed.

Lemma inv_failed arr detail s : inv arr s -> main s = AtPrepare -> inv arr (handle (InPrepareFailed detail) s).
Proof.
  intros Hi Hm. cbn. rewrite Hm. pose proof (i_reports _ _ _ Hi) as Hr. unfold reported in Hr. rewrite Hm in Hr.
  destruct (i_turns _ _ _ Hi) as (ts0 & _ & _ & _ & Hb0). unfold begun in Hb0. rewrite Hm in Hb0. destruct Hb0 as [Hst _].
  assert (Hne : main s <> AtTake) by congruence. destruct (b_turn bootstrap) as [t|] eqn:Ht;
    (apply (inv_move _ arr s); try done; unfold begun, reported; cbn; rewrite ?Hm, ?Hr, ?Hst, ?Ht; try done); [|by right | by left].
  by intros ts [_ ->].
Qed.

Lemma inv_completed arr s : inv arr s -> inv arr (handle InCompleted s).
Proof.
  intros Hi. cbn. pose proof (i_reports _ _ _ Hi) as Hr. unfold reported in Hr. destruct (main s) eqn:Hm; try done.
  - apply (inv_next _ arr s); try done; [congruence | | by cbn; rewrite map_app, Hr]. intros ts Hb. unfold begun in Hb. by rewrite Hm in Hb.
  - destruct (i_turns _ _ _ Hi) as (ts0 & _ & _ & _ & Hb0). unfold begun in Hb0. rewrite Hm in Hb0. destruct Hb0 as (Hst & _ & Hf).
    apply (inv_move _ arr s); try done; [congruence | |]; unfold begun, reported; cbn; rewrite ?Hm, ?Hr, ?Hst, ?Hf; [|by auto].
    intros ts (_ & -> & _). by right.
Qed.

Lemma inv_throw arr auth m s : inv arr s -> inv arr (handle (InThrow auth m) s).
Proof.
  intros Hi. cbn. pose proof (throws_same s auth m) as [Hs Hc]. destruct (main s) eqn:Hm; try done;
    try (eapply inv_within; [exact Hi | by rewrite Hm | exact Hs | by right]).
  all: destruct Hs as (E1 & E2 & E3 & E4 & E5 & E6), Hc as [code Hc]; pose proof (i_reports _ _ _ Hi) as Hr; unfold reported in Hr; rewrite Hm in Hr;
    destruct (i_turns _ _ _ Hi) as (ts0 & _ & _ & _ & Hb0); unfold begun in Hb0; rewrite Hm in Hb0; destruct Hb0 as (Hst & _);
    (apply (inv_move _ arr s); try done; [congruence | | | congruence]; unfold begun, reported; rewrite Hc, ?Hm, ?E5, ?E6, ?Hr, ?Hst; [|by left]).
  - intros ts [_ ->]. by right.
  - intros ts (_ & -> & _). by right.
Qed.

Lemma inv_handle arr i s : inv arr s -> inv (arr ++ arrivals_of i) (handle i s).
Proof.
  intros Hi. destruct i; cbn [arrivals_of]; rewrite ?app_nil_r; [by apply inv_items | by apply inv_requestStop | | by apply inv_requestStop
    | by apply inv_requestStop | | | | | by apply inv_completed | by apply inv_settle | by apply inv_throw].
  - cbn. destruct stop; [by apply inv_requestStop | done].
  - destruct (main s) eqn:Hm; try (by cbn; rewrite Hm). by apply inv_prepared.
  - destruct (main s) eqn:Hm; try (by cbn; rewrite Hm). by apply inv_failed.
  - cbn -[begin_turn]. destruct (main s) eqn:Hm; try done. destruct (begin_turn_total t (s_history s)) as (h & [startHead run] & ->).
    set (s1 := set_main _ (set_history h s)). destruct (spawn_same (harnessTurn t (s_resumeId s) (run_scope run)) (s_resumeId s) s1) as [Hs Hmain].
    eapply inv_within; [exact Hi | by rewrite Hm | | left; by rewrite Hmain]. by eapply same_turns_trans; [|exact Hs].
  - cbn. destruct (main s) eqn:Hm; try done. destruct (negb again && _).
    + set (s1 := set_main _ (set_resume None s)). destruct (spawn_same (harnessTurn (fresh_turn t) None (run_scope run)) None s1) as [Hs Hmain].
      eapply inv_within; [exact Hi | by rewrite Hm | | left; by rewrite Hmain]. by eapply same_turns_trans; [|exact Hs].
    + pose proof (end_turn_same t startHead run a marker s) as [Hs He]. eapply inv_within; [exact Hi | by rewrite Hm | exact Hs | exact He].
Qed.

Lemma inv_initial : inv [] (initial bootstrap).
Proof.
  split; try done; cbn.
  - by destruct (b_turn bootstrap).
  - by exists [], [].
Qed.

Lemma run_app before after : run_session (before ++ after) = fold_left (fun s i => handle i s) after (run_session before).
Proof. apply fold_left_app. Qed.

Lemma inv_session inputs : inv (arrivals inputs) (run_session inputs).
Proof.
  induction inputs as [|i inputs IH] using rev_ind; [apply inv_initial|].
  rewrite run_app. unfold arrivals. rewrite bind_app. cbn [fold_left mbind list_bind]. rewrite app_nil_r. by apply inv_handle.
Qed.

(** The turn that was handed to the loop, which has not resumed yet. *)
Definition handed (s : Session) : list Turn := match main s with AtTake => omap snd (taken s) | _ => [] end.

Lemma handed_taken arr s : inv arr s -> handed s = omap snd (taken s) /\ (length (handed s) <= 1)%nat.
Proof.
  intros Hi. pose proof (i_waiting _ _ _ Hi) as Hw. unfold waiting, handed in *.
  destruct (main s); try (destruct Hw as [-> _]; cbn; split; [done | lia]).
  split; [done|]. destruct Hw as [(-> & _)|([t|] & -> & _)]; cbn; lia.
Qed.

(** C3 (session_turns_once). For every sequence of answers and events: the turns that are run are the
    first turn of the session and then the turns of the inbox in their order, each once, however
    often it is delivered, and none is lost while no stop was requested (the next one may be in the
    hands of the loop, at most one, and the others wait in the queue); each is completed before the
    next one starts, and each is reported exactly once: only the last may lack its report, because it
    is still running or the session failed in it. *)
Theorem session_turns_once (inputs : list Input) :
  let s := run_session inputs in
  let first := option_list (b_turn bootstrap) in
  NoDup (map tn_id (started s))
  /\ (exists ts dropped, distinct (map tn_id first) (arrivals inputs) = ts ++ handed s ++ AsyncQueue.items (turns s) ++ dropped
      /\ (length (handed s) <= 1)%nat
      /\ (s_stop s = None -> dropped = []) /\ (started s = first ++ ts \/ started s = []))
  /\ (map fst (reports s) = map tn_id (started s) \/ (exists t, map tn_id (started s) = map fst (reports s) ++ [tn_id t])
      \/ started s = [] /\ map fst (reports s) = map tn_id first).
Proof.
  cbn zeta. pose proof (inv_session inputs) as Hi. destruct (handed_taken _ _ Hi) as [Hh Hle]. rewrite Hh.
  destruct Hi as [H1 (ts & dropped & H2 & H3 & H4) H5 H6 H7]. rewrite Hh in Hle.
  assert (Hst : started (run_session inputs) = option_list (b_turn bootstrap) ++ ts \/ started (run_session inputs) = [] /\ ts = [])
    by (unfold begun in H4; destruct (main (run_session inputs)); tauto).
  split; [|split].
  - destruct Hst as [->|[-> _]]; [|constructor]. pose proof (distinct_NoDup (map tn_id (option_list (b_turn bootstrap))) (arrivals inputs)) as Hn.
    rewrite map_app. rewrite H2, map_app, app_assoc in Hn. apply NoDup_app in Hn as [Hn _]; [done|].
    destruct (b_turn bootstrap); [apply NoDup_singleton | constructor].
  - exists ts, dropped. split; [done|]. split; [done|]. split; [done|]. tauto.
  - unfold reported in H7. destruct (main (run_session inputs)) eqn:Hm; try (by left); try (by right; left; eexists); [| |done].
    + left. rewrite H7. unfold begun in H4. rewrite Hm in H4. by destruct H4 as [-> _].
    + left. rewrite H7. unfold begun in H4. rewrite Hm in H4. by destruct H4 as [-> _].
Qed.

(** The harnesses that were not interrupted, as a difference. *)
Definition spared (s : Session) : Z := Z.of_nat (length (spawned s)) - Z.of_nat (interrupts s).

(** A stopped session: its queue is closed and its [take], if it is at one, has resolved. *)
Definition stopped (ts : list Turn) (n : Z) (s : Session) : Prop :=
  started s ++ handed s = ts /\ isSome (s_stop s) = true /\ AsyncQueue.closed (turns s) = true /\ spared s = n.

Lemma stopped_same ts n s s' : stopped ts n s -> started s' = started s -> main s' = main s -> taken s' = taken s -> s_stop s' = s_stop s ->
  turns s' = turns s -> spared s' = spared s -> stopped ts n s'.
Proof. unfold stopped, handed. intros (H1 & H2 & H3 & H4) -> -> -> -> -> ->. done. Qed.

Lemma stopped_item ts n item s : stopped ts n s -> stopped ts n (handleInboxItem item s).
Proof.
  intros Hs. unfold handleInboxItem. set (s0 := if _ <? _ then _ else s).
  assert (H0 : stopped ts n s0) by (subst s0; by destruct (_ <? _)). clearbody s0. pose proof H0 as (_ & H2 & H3 & _).
  unfold requestStop. rewrite H2. destruct (item_kind item =s "stop"); [done|]. destruct (_ || _); [|done]. case_bool_decide; [done|]. destruct (item_turn item); [|done].
  case_bool_decide; [done|]. unfold AsyncQueue.push. rewrite H3. eapply stopped_same; [exact H0 | ..]; try done. cbn. by rewrite app_nil_r.
Qed.

Lemma stopped_end ts n s s' : stopped ts n s -> main s <> AtTake -> same_turns s s' -> main s' <> AtTake -> spared s' = spared s -> stopped ts n s'.
Proof.
  intros (H1 & H2 & H3 & H4) Hm (_ & E2 & _ & E4 & E5 & _) Hm' Hsp. unfold stopped. rewrite E2, E4, E5, Hsp.
  split; [|done]. unfold handed in *. by destruct (main s), (main s').
Qed.

Lemma spawn_spared t r s : isSome (s_stop s) = true -> spared (spawn t r s) = spared s.
Proof. intros H. unfold spawn. cbn. rewrite H. unfold spared. cbn. rewrite length_app. cbn. lia. Qed.

Lemma throws_spared auth m s : spared (session_throws auth m s) = spared s.
Proof. unfold session_throws. by destruct auth. Qed.

Lemma end_turn_spared t startHead run a marker s :
  spared (end_turn environment credentialHelper toISOString hash fingerprints bootstrap branchPrefix pushRetries t startHead run a marker s) = spared s.
Proof.
  unfold end_turn. destruct (nonempty _); destruct (turn_result _ _ a marker) as [status error]; destruct (publishes _);
    destruct (publish _ _ _ _ _ _ _ _ _ _ _ _ _ _ _ _ _) as [h [[request events]|e]]; rewrite ?throws_spared; done.
Qed.

Lemma stopped_settle ts n s : stopped ts n s -> (main s = AtTake -> (length (taken s) <= 1)%nat) -> stopped ts n (settle s).
Proof.
  intros Hs Hle. pose proof Hs as (H1 & H2 & H3 & H4). unfold settle. destruct (main s) eqn:Hm; try done. specialize (Hle eq_refl).
  unfold handed in H1. rewrite Hm in H1. destruct (taken s) as [|[w [t|]] [|]] eqn:Ht; cbn in Hle; try lia; try done.
  split; [|done]. cbn in *. by rewrite <- H1, app_nil_r.
Qed.

Lemma stopped_handle arr ts n i s : inv arr s -> stopped ts n s -> stopped ts n (handle i s).
Proof.
  intros Hi Hs. pose proof Hs as (H1 & H2 & H3 & H4). destruct i; cbn -[begin_turn settle]; unfold requestStop, next_turn; cbn -[begin_turn settle]; rewrite ?H2; try done.
  - clear H1 H2 H3 H4 Hi. revert s Hs. induction items as [|x l IH]; intros s Hs; [done|]. cbn. by apply IH, stopped_item.
  - by destruct stop.
  - destruct (main s) eqn:Hm; try done. by eapply stopped_end; [exact Hs | congruence | ..].
  - destruct (main s) eqn:Hm; try done. destruct (b_turn bootstrap); by eapply stopped_end; [exact Hs | congruence | ..].
  - destruct (main s) eqn:Hm; try done. destruct (begin_turn_total t (s_history s)) as (h & [startHead run] & ->).
    eapply stopped_end; [exact Hs | congruence | eapply same_turns_trans; [|apply spawn_same]; done | by rewrite (proj2 (spawn_same _ _ _)) | by rewrite spawn_spared].
  - destruct (main s) eqn:Hm; try done. destruct (negb again && _).
    + eapply stopped_end; [exact Hs | congruence | eapply same_turns_trans; [|apply spawn_same]; done | by rewrite (proj2 (spawn_same _ _ _)) | by rewrite spawn_spared].
    + pose proof (end_turn_same t startHead run a marker s) as [He Hm']. eapply stopped_end; [exact Hs | congruence | exact He | | apply end_turn_spared].
      intros Hx. rewrite Hx in Hm'. by destruct Hm' as [|[code ?]].
  - unfold stopped, handed in H1 |- *. destruct (main s) eqn:Hm; try done; unfold stopped, handed; by rewrite ?Hm.
  - apply stopped_settle; [done|]. intros Hm. pose proof (i_waiting _ _ _ Hi) as Hw. unfold waiting in Hw. rewrite Hm in Hw.
    destruct Hw as [(-> & _)|(o & -> & _)]; cbn; lia.
  - pose proof (throws_same s auth message) as [He [code Hc]]. destruct (main s) eqn:Hm; try done;
      (eapply stopped_end; [exact Hs | congruence | exact He | by rewrite Hc | apply throws_spared]).
Qed.

(** A harness that runs while a stop stands was interrupted. *)
Definition harness_told (s : Session) : Prop :=
  isSome (s_stop s) = true -> match main s with AtHarness _ _ _ _ _ _ => (1 <= interrupts s)%nat | _ => True end.

Lemma told_requestStop r s : harness_told s -> harness_told (requestStop r s).
Proof.
  unfold requestStop, harness_told. intros H. destruct (isSome (s_stop s)) eqn:E; [by rewrite E|]. unfold AsyncQueue.close. cbn.
  destruct (main s) eqn:Hm; cbn; rewrite ?Hm; auto with lia.
Qed.

Lemma told_item item s : harness_told s -> harness_told (handleInboxItem item s).
Proof.
  intros H. unfold handleInboxItem. set (s0 := if _ <? _ then _ else s). assert (H0 : harness_told s0) by (subst s0; by destruct (_ <? _)). clearbody s0.
  destruct (item_kind item =s "stop"); [by apply told_requestStop|]. destruct (_ || _); [|done]. case_bool_decide; [by apply told_requestStop|].
  destruct (item_turn item); [|done]. case_bool_decide; [done|]. by destruct (AsyncQueue.push _ _).
Qed.

Lemma told_spawn t r s : harness_told (spawn t r s).
Proof. unfold spawn, harness_told. cbn. destruct (isSome (s_stop s)) eqn:E; cbn; rewrite ?E; destruct (main s); auto with lia. Qed.

Lemma told_away s : (forall t g sh r i a, main s <> AtHarness t g sh r i a) -> harness_told s.
Proof. intros H _. destruct (main s) eqn:Hm; try done. by destruct (H t given_turn startHead run resumeId again). Qed.

Lemma told_next s : harness_told (next_turn s).
Proof. apply told_away. unfold next_turn. destruct (isSome _); [done|]. by destruct (AsyncQueue.take _ _). Qed.

Lemma told_throws auth m s : harness_told (session_throws auth m s).
Proof. apply told_away. unfold session_throws. by destruct auth. Qed.

Lemma told_handle i s : harness_told s -> harness_told (handle i s).
Proof.
  intros H. destruct i; cbn -[begin_turn settle]; try (by apply told_requestStop).
  - revert s H. induction items as [|x l IH]; intros s H; [done|]. cbn. by apply IH, told_item.
  - destruct stop; [by apply told_requestStop | done].
  - destruct (main s) eqn:Hm; try done. destruct (isSome _); [by apply told_away|]. destruct (b_turn bootstrap); [by apply told_away | apply told_next].
  - destruct (main s) eqn:Hm; try done. destruct (b_turn bootstrap); by apply told_away.
  - destruct (main s) eqn:Hm; try done. destruct (begin_turn_total t (s_history s)) as (h & [startHead run] & ->). apply told_spawn.
  - destruct (main s) eqn:Hm; try done. destruct (negb again && _); [apply told_spawn|]. apply told_away.
    intros t2 g2 sh2 r2 i2 a2 E. unfold end_turn in E. destruct (turn_result _ _ a marker), (publish _ _ _ _ _ _ _ _ _ _ _ _ _ _ _ _ _) as [h [[request events]|e]]; [done|].
    unfold session_throws in E. done.
  - destruct (main s) eqn:Hm; try done. apply told_next.
  - unfold settle. destruct (main s) eqn:Hm; try done. by destruct (taken s) as [|[w [t|]] l]; [| apply told_away | apply told_away].
  - destruct (main s); try done; apply told_throws.
Qed.

Lemma told_session inputs : harness_told (run_session inputs).
Proof. induction inputs as [|i inputs IH] using rev_ind; [by apply told_away|]. rewrite run_app. by apply told_handle. Qed.

(** C7 (stop_is_final). Once a stop was requested, by the user, by Flow, by a signal or because the token was
    revoked, whatever arrives afterwards and in whatever order: the request stands; no further turn is
    started but the one, at most, that had already been handed to the loop when the stop came (a turn and
    a stop in one answer of the inbox); every harness started after the stop is interrupted, and so was
    the one that runs. *)
Theorem stop_is_final (before after : list Input) (H : s_stop (run_session before) <> None) :
  let s := run_session before in
  let s' := run_session (before ++ after) in
  s_stop s' <> None
  /\ started s' ++ handed s' = started s ++ handed s /\ (length (handed s) <= 1)%nat
  /\ (length (spawned s') + interrupts s = length (spawned s) + interrupts s')%nat
  /\ match main s' with AtHarness _ _ _ _ _ _ => (1 <= interrupts s')%nat | _ => True end.
Proof.
  cbn zeta. pose proof (inv_session before) as Hi. destruct (handed_taken _ _ Hi) as [_ Hle].
  assert (Hs : stopped (started (run_session before) ++ handed (run_session before)) (spared (run_session before)) (run_session before)).
  { split; [done|]. rewrite (i_closed _ _ _ Hi). by destruct (s_stop (run_session before)). }
  assert (Hend : stopped (started (run_session before) ++ handed (run_session before)) (spared (run_session before)) (run_session (before ++ after))).
  { clear H Hle. rewrite run_app. revert Hs. generalize (started (run_session before) ++ handed (run_session before)), (spared (run_session before)).
    revert Hi. generalize (arrivals before), (run_session before). induction after as [|i l IH]; intros arr s Hi ts n Hs; [done|].
    cbn [fold_left]. eapply IH; [by apply inv_handle | by eapply stopped_handle]. }
  destruct Hend as (H1 & H2 & _ & H4). split; [intros E; by rewrite E in H2|]. split; [done|]. split; [done|].
  split; [unfold spared in H4; lia | by apply told_session].
Qed.
End Session_facts.

(** ** What a turn publishes *)

(** [m] pushes nothing. *)
Definition unpushed {A} (m : M A) : Prop := spec m (fun l _ => Forall (fun p => pushes (fst p) = false) l).

Lemma unpushed_bind {A B} (m : M A) (k : A -> M B) : unpushed m -> (forall a, unpushed (k a)) -> unpushed (bind m k).
Proof.
  intros Hm Hk. eapply spec_bind; [exact Hm | | done]. intros l a Hl. eapply spec_mono; [|apply Hk]. intros l2 r Hl2. by apply Forall_app.
Qed.

Lemma unpushed_ret {A} (a : A) : unpushed (ret a).
Proof. by apply spec_ret. Qed.

Lemma unpushed_git environment args stdin env check : pushes (mkCommand args stdin env) = false -> unpushed (git_with environment args stdin env check).
Proof.
  intros H. eapply spec_bind; [apply exec_spec | |]; [|no_throw]. intros l r (a & -> & _).
  destruct (check && _); [apply spec_throw | apply spec_ret]; by repeat constructor.
Qed.

Lemma reading_unpushed l : Forall (fun p => reading p = true) l -> Forall (fun p => pushes (fst p) = false) l.
Proof.
  intros Hl. eapply Forall_impl; [exact Hl|]. intros p Hp. unfold pushes, reading in *.
  destruct (String.eqb_spec (subcommand (cmd_args (fst p))) "push") as [E|]; [|done]. by rewrite E in Hp.
Qed.

Lemma unpushed_reads {A} (m : M A) : reads m -> unpushed m.
Proof. apply spec_mono. intros l r [Hl _]. by apply reading_unpushed. Qed.

Lemma unpushed_head environment : unpushed (git_head environment).
Proof. apply unpushed_reads, reads_head. Qed.

(** A command of the commit step, and one that failed. *)
Definition stages (c : Command) : bool := existsb (String.eqb (subcommand (cmd_args c))) ["add"; "commit"].
Definition failed (p : Command * RunResult) : bool := negb (rr_code (snd p) =? 0).
Definition failed_stage (p : Command * RunResult) : bool := stages (fst p) && failed p.

(** No push; a value means that no command of the commit step failed, an error that a command did. *)
Definition commits_as {A} (l : History) (r : A + GitError) : Prop :=
  Forall (fun p => pushes (fst p) = false) l
  /\ match r with inl _ => Forall (fun p => failed_stage p = false) l | inr _ => Exists (fun p => failed p = true) l end.

Lemma commits_bind {A B} (m : M A) (k : A -> M B) : spec m commits_as -> (forall a, spec (k a) commits_as) -> spec (bind m k) commits_as.
Proof.
  intros Hm Hk. eapply spec_bind; [exact Hm | | by intros l e]. intros l a [Hl Hs]. eapply spec_mono; [|apply Hk].
  intros l2 r [Hl2 Hr]. split; [by apply Forall_app|]. destruct r; [by apply Forall_app | apply Exists_app; by right].
Qed.

Lemma commits_ret {A} (a : A) : spec (ret a) commits_as.
Proof. by apply spec_ret. Qed.

Lemma reading_unstaged l : Forall (fun p => reading p = true) l -> Forall (fun p => failed_stage p = false) l.
Proof.
  intros Hl. eapply Forall_impl; [exact Hl|]. intros p Hp. unfold reading in Hp. apply existsb_exists in Hp as (c & Hc & E%String.eqb_eq).
  unfold failed_stage, stages. rewrite E. by repeat (destruct Hc as [<-|Hc]; [done|]).
Qed.

Lemma commits_reads {A} (m : M A) : reads m -> spec m commits_as.
Proof. apply spec_mono. intros l r [Hl [a ->]]. split; [by apply reading_unpushed | by apply reading_unstaged]. Qed.

Lemma commits_git environment args stdin env : pushes (mkCommand args stdin env) = false -> spec (git_with environment args stdin env true) commits_as.
Proof.
  intros H. eapply spec_bind; [apply exec_spec | |]; [|no_throw]. intros l r (a & -> & [= <-]). rewrite andb_true_l.
  destruct (rr_code r =? 0) eqn:E; cbn [negb]; [apply spec_ret | apply spec_throw]; (split; [by repeat constructor|]).
  - repeat constructor. unfold failed_stage, failed. cbn [snd]. by rewrite E, andb_false_r.
  - constructor. unfold failed. cbn [snd]. by rewrite E.
Qed.

Lemma commits_commitAll environment message author : spec (commitAll environment message author) commits_as.
Proof.
  apply commits_bind; [by apply commits_git|]. intros _. apply commits_bind; [by apply commits_reads, reads_git|]. intros r.
  destruct (rr_code r =? 0); [apply commits_ret|]. apply commits_bind; [by apply commits_git | intros _; apply commits_reads, reads_head].
Qed.

Lemma commits_commitPaths environment message author paths : spec (commitPaths environment message author paths) commits_as.
Proof.
  destruct paths as [|p ps]; [apply commits_ret|]. apply commits_bind; [by apply commits_git|]. intros _.
  apply commits_bind; [by apply commits_git|]. intros r. destruct (negb _); [apply commits_ret|].
  apply commits_bind; [by apply commits_git | intros _; apply commits_reads, reads_head].
Qed.

(** The errors a turn shows. *)
Definition shown (events : list Draft) : list ErrorDetail := omap d_error events.

(** The commit step shows no error of its own: a failure is thrown. *)
Definition commits_quietly (l : History) (r : list Draft + GitError) : Prop :=
  commits_as l r /\ match r with inl events => shown events = [] | inr _ => True end.

Lemma quietly_bind {A} (m : M A) (k : A -> M (list Draft)) : spec m commits_as -> (forall a, spec (k a) commits_quietly) -> spec (bind m k) commits_quietly.
Proof.
  intros Hm Hk h. destruct (Hm h) as (l & Hl & Hq). unfold bind. destruct (m h) as [h1 [a|e]]; cbn in Hl, Hq; subst h1.
  - destruct (Hk a (h ++ l)) as (l2 & Hl2 & Hq2 & Hs). exists (l ++ l2). split; [by rewrite app_assoc|]. split; [|done].
    destruct Hq as [H1 H2], Hq2 as [H3 H4]. split; [by apply Forall_app|]. destruct (snd (k a (h ++ l))); [by apply Forall_app | apply Exists_app; by right].
  - by exists l.
Qed.

Lemma quietly_ret events : shown events = [] -> spec (ret events) commits_quietly.
Proof. intros H. apply spec_ret. by repeat split. Qed.

Lemma commit_turn_spec environment hash fingerprints bootstrap message run : spec (commit_turn environment hash fingerprints bootstrap message run) commits_quietly.
Proof.
  unfold commit_turn. destruct (run_leftovers run) eqn:El; [apply quietly_bind; [apply commits_commitAll | intros _; by apply quietly_ret]|].
  apply quietly_bind; [apply commits_reads, reads_workspace|]. intros after. destruct (run_include run).
  - destruct (commitPlan run after []) as [[plan alone] earlier]. apply quietly_bind; [apply commits_commitAll | intros _; apply quietly_ret].
    by destruct earlier.
  - apply quietly_bind; [apply commits_reads, reads_files|]. intros now. destruct (commitPlan run after now) as [[plan alone] changed].
    apply quietly_bind; [destruct plan; [apply commits_commitAll | apply commits_commitPaths] | intros _; apply quietly_ret].
    by destruct changed, alone.
Qed.

(** The value or the error, caught. *)
Lemma attempt_spec {A} (m : M A) Q : spec m Q -> spec (attempt_of m) (fun l r => exists x, r = inl x /\ Q l x).
Proof. intros H h. destruct (H h) as (l & Hl & HQ). exists l. unfold attempt_of. destruct (m h) as [h' r]. cbn in *. eauto. Qed.

(** [m] only looks at the repository. *)
Definition looks (p : Command * RunResult) : bool := reading p || (subcommand (cmd_args (fst p)) =s "log").

Lemma looks_calm p : looks p = true -> pushes (fst p) = false /\ failed_stage p = false.
Proof.
  unfold looks, reading, pushes, failed_stage, stages. intros H. apply orb_true_iff in H as [H|H].
  - apply existsb_exists in H as (c & Hc & E%String.eqb_eq). rewrite E. by repeat (destruct Hc as [<-|Hc]; [done|]).
  - apply String.eqb_eq in H. by rewrite H.
Qed.

Lemma looks_git environment args : (forall r, looks (mkCommand args None [], r) = true) -> spec (git_unchecked environment args) (fun l r => Forall (fun p => looks p = true) l /\ exists a, r = inl a).
Proof. intros H. eapply spec_mono; [|apply git_unchecked_spec]. intros l r (a & -> & ->). split; [by repeat constructor | eauto]. Qed.

Lemma catch_spec {A} (m : M A) (a : A) : spec m (fun l _ => Forall (fun p => looks p = true) l) ->
  spec (catch m (fun _ => ret a)) (fun l r => Forall (fun p => looks p = true) l /\ exists x, r = inl x).
Proof. intros H h. destruct (H h) as (l & Hl & HQ). exists l. unfold catch. destruct (m h) as [h' [x|e]]; cbn in *; eauto. Qed.

Section Push.
Context (environment : History -> Command -> RunResult) (credentialHelper branch : string) (force : bool).

Definition push_command : Command := mkCommand (helperArgs credentialHelper ++ ["push"; "--porcelain"] ++ (if force then ["--force-with-lease"] else [])
  ++ ["origin"; "HEAD:refs/heads/" +:+ branch]) None [].

(** Only this push was run, and it succeeded exactly when the program did. *)
Definition pushed_to {A} (l : History) (r : A + GitError) : Prop :=
  Forall (fun p => fst p = push_command) l /\ (match r with inl _ => Exists (fun p => rr_code (snd p) = 0) l | inr _ => Forall (fun p => rr_code (snd p) <> 0) l end).

Lemma git_push_spec : spec (git_push environment credentialHelper branch force) pushed_to.
Proof.
  eapply spec_bind; [apply network_spec | |]; [|no_throw]. intros l a (a' & [= <-] & Hl). unfold pushed_to.
  destruct (Z.eqb_spec (rr_code a) 0) as [E|E]; [apply spec_ret | apply spec_throw]; rewrite app_nil_r;
    destruct Hl as [-> | (first & -> & Hf & _)]; (split; [by repeat constructor|]); [| |by repeat constructor | by repeat constructor];
    [by constructor | by right; constructor].
Qed.

Lemma pushWithRetry_spec retries : spec (pushWithRetry environment credentialHelper branch force retries) pushed_to.
Proof.
  induction retries as [|n IH]; intros h; destruct (git_push_spec h) as (l & Hl & Hf & Hr); cbn [pushWithRetry]; unfold catch;
    destruct (git_push environment credentialHelper branch force h) as [h1 [u|e]]; cbn in Hl, Hr; subst h1; try (by exists l).
  destruct (regex_test permanent_push _); [by exists l|]. destruct (IH (h ++ l)) as (l2 & -> & Hf2 & Hr2). exists (l ++ l2).
  split; [by rewrite app_assoc|]. split; [by apply Forall_app|]. destruct (snd (pushWithRetry _ _ _ _ n (h ++ l))); [apply Exists_app; by right | by apply Forall_app].
Qed.
End Push.

Section Publishing.
Context (environment : History -> Command -> RunResult) (credentialHelper : string) (toISOString : string -> option string) (hash : string -> string)
  (fingerprints : History -> list string -> list (string * string)) (bootstrap : BootstrapResponse) (branchPrefix : string) (pushRetries : nat).

Abbreviation branch := (branchName (b_repo bootstrap)).

(** What a turn ends with, given the errors it showed: one that had ended well ends with the first of
    them; any other keeps its status and its error. *)
Definition verdict (status : TurnStatus) (error : option ErrorDetail) (events : list Draft) : TurnStatus * option ErrorDetail :=
  match shown events, status with
  | e :: _, (st_success | st_awaitingInput) => (st_error, Some e)
  | _, _ => (status, error)
  end.

Lemma shown_app l1 l2 : shown (l1 ++ l2) = shown l1 ++ shown l2.
Proof. apply omap_app. Qed.

Lemma fail_verdict status error detail events :
  fail detail (verdict status error events, events) = (verdict status error (events ++ [Mapping.error detail]), events ++ [Mapping.error detail]).
Proof. unfold fail, verdict. rewrite shown_app. destruct (shown events), status; reflexivity. Qed.

Lemma verdict_failed status error events : shown events <> [] -> fst (verdict status error events) <> st_success.
Proof. unfold verdict. destruct (shown events), status; done. Qed.

(** An error of this kind was shown. *)
Definition tells (code : CodingErrorCode) (events : list Draft) : Prop := code ∈ map err_code (shown events).

(** The pushes of a history, with the success reported. *)
Definition pushes_reported (t : Turn) (l : History) (done : bool) : Prop :=
  Forall (fun p => pushes (fst p) = true -> fst p = push_command credentialHelper branch (tn_kind t =s "rebase") /\ checkBranchAllowed (b_repo bootstrap) branchPrefix = None) l
  /\ (done = true <-> Exists (fun p => pushes (fst p) = true /\ rr_code (snd p) = 0) l).

Lemma no_pushes t l : Forall (fun p => pushes (fst p) = false) l -> pushes_reported t l false.
Proof.
  intros H. split; [eapply Forall_impl; [exact H|]; intros p Hp Hq; congruence|]. split; [done|]. intros He. exfalso.
  apply Exists_exists in He as (p & Hp & E & _). rewrite Forall_forall in H. specialize (H p Hp). congruence.
Qed.

Lemma pushes_app t l1 l2 done : Forall (fun p => pushes (fst p) = false) l1 -> pushes_reported t l2 done -> pushes_reported t (l1 ++ l2) done.
Proof.
  intros H1 [H2 H3]. destruct (no_pushes t l1 H1) as [H4 H5]. split; [by apply Forall_app|]. rewrite Exists_app. rewrite H3. split; [by right|].
  intros [He|He]; [|done]. apply H5 in He. done.
Qed.

Lemma pushes_app_r t l1 l2 done : pushes_reported t l1 done -> Forall (fun p => pushes (fst p) = false) l2 -> pushes_reported t (l1 ++ l2) done.
Proof.
  intros [H2 H3] H1. destruct (no_pushes t l2 H1) as [H4 H5]. split; [by apply Forall_app|]. rewrite Exists_app. rewrite H3. split; [by left|].
  intros [He|He]; [done|]. apply H5 in He. done.
Qed.

Lemma push_step_spec t commits : spec (push_step environment credentialHelper bootstrap branchPrefix pushRetries t commits) (fun l r => exists x, r = inl x
  /\ pushes_reported t l (match x with inl b => b | inr _ => false end) /\ (x = inl false <-> commits = [])
  /\ Forall (fun p => failed_stage p = false) l /\ (Exists (fun p => pushes (fst p) = true) l -> commits <> [])).
Proof.
  unfold push_step. destruct commits as [|c cs].
  { apply spec_ret. eexists. split; [done|]. split; [by apply no_pushes|]. repeat split; [done|]. by intros ?%Exists_nil. }
  destruct (checkBranchAllowed (b_repo bootstrap) branchPrefix) eqn:Ha.
  { apply spec_ret. eexists. split; [done|]. split; [by apply no_pushes|]. repeat split; done. }
  eapply spec_bind; [apply attempt_spec, pushWithRetry_spec | |]; [|no_throw]. intros l a (x & [= <-] & Hf & Hr). apply spec_ret. rewrite app_nil_r.
  assert (Hp : Forall (fun p : Command * RunResult => pushes (fst p) = true) l) by (eapply Forall_impl; [exact Hf|]; intros p ->; by destruct (_ =s "rebase")).
  eexists. split; [done|].
  enough (pushes_reported t l (match match a with inl _ => inl true | inr e => inr e end with inl b => b | inr _ => false end)) as Hrep.
  { split; [exact Hrep|]. split; [by destruct a|]. split; [|done]. eapply Forall_impl; [exact Hp|]. intros p E. unfold pushes in E.
    apply String.eqb_eq in E. unfold failed_stage, stages. by rewrite E. }
  split; [eapply Forall_impl; [exact Hf|]; auto|].
  rewrite Forall_forall in Hp. destruct a as [u|e]; cbn; (split; [|done || idtac]).
  - intros _. apply Exists_exists in Hr as (p & Hin & E). apply Exists_exists. exists p. auto.
  - done.
  - intros He. apply Exists_exists in He as (p & Hin & _ & E). rewrite Forall_forall in Hr. by destruct (Hr p Hin).
Qed.

Lemma looks_commitsSince since turnId signed : spec (commitsSince environment toISOString since branch turnId signed) (fun l _ => Forall (fun p => looks p = true) l).
Proof.
  eapply spec_bind; [by apply looks_git | |]; [|no_throw]. intros l r [Hl _]. destruct (negb _); [apply spec_ret; by rewrite app_nil_r|].
  destruct (mapM _ _); [apply spec_ret | apply spec_throw]; by rewrite app_nil_r.
Qed.

Lemma looks_diffSummary base : spec (diffSummary environment base) (fun l _ => Forall (fun p => looks p = true) l).
Proof.
  eapply spec_bind; [by apply looks_git | |]; [|no_throw]. intros l r [Hl _].
  eapply spec_bind; [by apply looks_git | |]; [|no_throw]. intros l2 n [Hl2 _]. destruct (negb _); apply spec_ret; rewrite app_nil_r; by apply Forall_app.
Qed.

(** What a writing turn shows of its commit and push steps. *)
Definition steps_told (l : History) (rq : TurnCompleteRequest) (events : list Draft) : Prop :=
  (Exists (fun p => failed_stage p = true) l -> tells signingFailed events \/ tells internal events)
  /\ (tells signingFailed events \/ tells internal events -> Exists (fun p => failed p = true) l)
  /\ (tells pushFailed events <-> rq_commits rq <> None /\ rq_pushed rq = false)
  /\ (Exists (fun p => pushes (fst p) = true) l -> rq_commits rq <> None).

(** What a turn reports. *)
Definition publish_ok (t : Turn) (run : TurnRun) (status : TurnStatus) (error : option ErrorDetail) (l : History) (rq : TurnCompleteRequest) (events : list Draft) : Prop :=
  pushes_reported t l (rq_pushed rq)
  /\ (run_scope run <> write -> Forall (fun p => reading p = true) l /\ rq_pushed rq = false /\ rq_commits rq = None)
  /\ (run_scope run = write -> steps_told l rq events)
  /\ (rq_status rq, rq_error rq) = verdict status error events
  /\ (rq_status rq = st_success -> rq_commits rq <> None -> rq_pushed rq = true).

(** The commit step with its error shown. *)
Lemma commit_shown status error committed (l : History) : commits_quietly l committed ->
  exists events, match committed with
    | inl events => (status, error, events)
    | inr e => fail {| err_code := if isSigningFailure e then signingFailed else internal; err_message := "Committing failed: " +:+ error_text e |} (status, error, [])
    end = (verdict status error events, events)
  /\ ((exists e, committed = inr e) /\ (map err_code (shown events) = [signingFailed] \/ map err_code (shown events) = [internal])
      \/ (exists x, committed = inl x) /\ shown events = []).
Proof.
  intros [_ Hq]. destruct committed as [events|e].
  - exists events. split; [unfold verdict; by rewrite Hq | right; eauto].
  - eexists. split; [exact (fail_verdict status error _ [])|]. left. split; [by eexists|]. destruct (isSigningFailure e); [left | right]; done.
Qed.

(** The push step with its error shown. *)
Lemma push_shown status error events pushed :
  exists more, match pushed with
    | inl true => let '(status, error, events) := (verdict status error events, events) in (status, error, events ++ [action (act "Pushed branch" branch None None None) false])
    | inl false => (verdict status error events, events)
    | inr e => fail {| err_code := pushFailed; err_message := "Pushing " +:+ branch +:+ " failed: " +:+ push_error_text e |} (verdict status error events, events)
    end = (verdict status error (events ++ more), events ++ more)
  /\ map err_code (shown more) = match pushed with inl _ => [] | inr _ => [pushFailed] end.
Proof.
  destruct pushed as [[|]|e].
  - exists [action (act "Pushed branch" branch None None None) false]. split; [|done].
    unfold verdict. rewrite shown_app. cbn [shown omap list_omap]. rewrite app_nil_r. by destruct (shown events), status.
  - exists []. by rewrite app_nil_r.
  - eexists. split; [apply fail_verdict | done].
Qed.

Lemma looks_split (l : History) : Forall (fun p => looks p = true) l ->
  Forall (fun p => pushes (fst p) = false) l /\ Forall (fun p => failed_stage p = false) l.
Proof. intros H. split; (eapply Forall_impl; [exact H|]); intros p Hp; by apply looks_calm. Qed.

Lemma none_exists {A} (P : A -> bool) (l : list A) : Forall (fun x => P x = false) l -> ~ Exists (fun x => P x = true) l.
Proof. rewrite Forall_forall, Exists_exists. intros H (x & Hx & E). specialize (H x Hx). congruence. Qed.

(** A code that is not in a list of codes. *)
Ltac not_listed H := cbn in H; repeat (apply elem_of_cons in H as [H|H]; [discriminate H|]); by apply elem_of_nil in H.

Lemma steps_shown committed (commits : list CodingCommit) pushed e1 e2 l1 l2 rq :
  commits_quietly l1 committed -> Forall (fun p => failed_stage p = false) l2 ->
  (Exists (fun p => pushes (fst p) = true) l2 -> commits <> []) ->
  ((exists e : GitError, committed = inr e) /\ (map err_code (shown e1) = [signingFailed] \/ map err_code (shown e1) = [internal])
    \/ (exists x : list Draft, committed = inl x) /\ shown e1 = []) ->
  map err_code (shown e2) = match pushed : bool + GitError with inl _ => [] | inr _ => [pushFailed] end ->
  rq_commits rq = nonempty_list commits -> rq_pushed rq = match pushed with inl b => b | inr _ => false end ->
  (pushed = inl false <-> commits = []) ->
  steps_told (l1 ++ l2) rq (e1 ++ e2).
Proof.
  intros [[Hpu Hc] _] Hl2 Hrun H1 H2 Hcs Hdone [Hno Hnone]. unfold steps_told, tells. rewrite shown_app, map_app, H2, Hcs, Hdone.
  assert (Hcn : nonempty_list commits <> None <-> commits <> []) by (destruct commits; naive_solver). rewrite Hcn.
  split; [|split; [|split; [split|]]].
  - rewrite Exists_app. intros [He|He]; [|by destruct (none_exists _ _ Hl2)].
    destruct H1 as [[_ [-> | ->]]|[[x ->] _]]; [left; by left | right; by left | by destruct (none_exists _ _ Hc)].
  - intros Ht. apply Exists_app. left. destruct H1 as [[[e ->] _]|[_ E]]; [done|]. exfalso. rewrite E in Ht. destruct pushed, Ht as [Ht|Ht]; not_listed Ht.
  - intros Ht. destruct pushed as [b|e]; [exfalso | split; [intros E; by apply Hnone in E | done]].
    destruct H1 as [[_ [E|E]]|[_ E]]; rewrite E in Ht; not_listed Ht.
  - intros [Hne Hf]. destruct pushed as [[|]|e]; [done | by destruct Hne; apply Hno | apply elem_of_app; right; left].
  - rewrite Exists_app. intros [He|He]; [by destruct (none_exists _ _ Hpu) | by apply Hrun].
Qed.

Lemma publish_write_spec t startHead status error stop resumeId o run : run_scope run = write ->
  spec (publish_write environment credentialHelper toISOString hash fingerprints bootstrap branchPrefix pushRetries t startHead status error stop resumeId o run)
    (fun l r => exists rq events, r = inl (rq, events) /\ publish_ok t run status error l rq events).
Proof.
  intros Hw. unfold publish_write. cbv zeta.
  eapply spec_bind; [apply attempt_spec, commit_turn_spec | |]; [|no_throw]. intros l1 committed (x1 & [= <-] & H1).
  destruct (commit_shown status error committed l1 H1) as (events & -> & Hshown).
  eapply spec_bind; [apply catch_spec, looks_commitsSince | |]; [|no_throw]. intros l2 commits [[H2 H2']%looks_split _].
  eapply spec_bind; [apply push_step_spec | |]; [|no_throw]. intros l3 pushed (x3 & [= <-] & H3 & Hno & Hst & Hrun).
  destruct (push_shown status error events pushed) as (more & -> & Hmore).
  destruct (verdict status error (events ++ more)) as [status' error'] eqn:Hv.
  eapply spec_bind; [apply reads_head | |]; [|no_throw]. intros l4 headSha [H4 _].
  eapply spec_bind; [apply catch_spec, looks_diffSummary | |]; [|no_throw]. intros l5 diff [[H5 H5']%looks_split _]. apply spec_ret.
  assert (Hrep : pushes_reported t (l1 ++ l2 ++ l3 ++ l4 ++ l5 ++ []) (match pushed with inl b => b | inr _ => false end)).
  { apply pushes_app; [apply H1|]. apply pushes_app; [done|]. apply pushes_app_r; [done|]. rewrite app_nil_r. apply Forall_app. split; [by apply reading_unpushed | done]. }
  eexists _, _. split; [done|]. set (rq := {| rq_status := _ |}).
  assert (Hsteps : steps_told (l1 ++ l2 ++ l3 ++ l4 ++ l5 ++ []) rq (events ++ more)).
  { apply (steps_shown committed commits pushed); try done.
    - rewrite app_nil_r. repeat (apply Forall_app; split); auto using reading_unstaged.
    - rewrite !Exists_app. intros [He|[He|[He|[He|He]]]]; [by destruct (none_exists _ _ H2) | by apply Hrun | | by destruct (none_exists _ _ H5) | by apply Exists_nil in He].
      by destruct (none_exists _ _ (reading_unpushed _ H4)). }
  split; [exact Hrep|]. split; [done|]. split; [done|]. split; [by rewrite Hv|]. intros E Hc.
  destruct (rq_pushed rq) eqn:Hp; [done|]. exfalso. destruct Hsteps as (_ & _ & Hpush & _).
  assert (Ht : tells pushFailed (events ++ more)) by (by apply Hpush). apply (verdict_failed status error (events ++ more)).
  - intros E0. unfold tells in Ht. rewrite E0 in Ht. not_listed Ht.
  - by rewrite Hv.
Qed.

(** A turn that does not publish reads the workspace twice; what it changed against its scope is shown. *)
Lemma publish_nothing_spec t startHead status error resumeId o run : run_scope run <> write ->
  spec (publish_nothing environment hash startHead status error resumeId o run)
    (fun l r => exists rq events, r = inl (rq, events) /\ publish_ok t run status error l rq events).
Proof.
  intros Hs. unfold publish_nothing. cbv zeta. eapply spec_bind; [apply reads_workspace | |]; [|no_throw]. intros l1 after [H1 _].
  eapply spec_bind; [apply reads_head | |]; [|no_throw]. intros l2 headNow [H2 _].
  set (violations := scopeViolations run after startHead headNow). set (detail := {| err_code := harnessFailed; err_message := _ |}).
  set (rest := match snd (readOnlyViolations _ _) with [] => _ | _ => _ end).
  assert (Hrest : shown rest = []) by (subst rest; by destruct (snd _)).
  set (acc := match violations with [] => _ | _ => _ end).
  assert (Hacc : exists events, acc = (verdict status error events, events)).
  { subst acc. destruct violations; [by exists [] | eexists; exact (fail_verdict status error detail [])]. }
  clearbody acc rest. destruct Hacc as [events ->]. destruct (verdict status error events) as [status' error'] eqn:Hv.
  apply spec_ret. eexists _, _. split; [done|].
  assert (Hl : Forall (fun p => reading p = true) (l1 ++ l2 ++ [])) by (rewrite app_nil_r; by apply Forall_app).
  split; [by apply no_pushes, reading_unpushed|]. split; [done|]. split; [done|]. split; [|done].
  cbn. rewrite <- Hv. unfold verdict. by rewrite shown_app, Hrest, app_nil_r.
Qed.

(** What the turn did against its scope, as it reads it, is the one error shown. *)
Lemma violations_shown t startHead status error stop resumeId o run h h1 h2 after headNow : run_scope run <> write ->
  read_workspace environment hash h = (h1, inl after) -> git_head environment h1 = (h2, inl headNow) ->
  exists rq events,
    publish environment credentialHelper toISOString hash fingerprints bootstrap branchPrefix pushRetries t startHead status error stop resumeId o run h = (h2, inl (rq, events))
    /\ map err_code (shown events) = match scopeViolations run after startHead headNow with [] => [] | _ => [harnessFailed] end.
Proof.
  intros Hs Hw Hh. unfold publish. destruct (publishes (run_scope run)) eqn:Hp; [by apply bool_decide_eq_true in Hp|].
  unfold publish_nothing, bind. rewrite Hw, Hh. cbv zeta.
  destruct (scopeViolations run after startHead headNow) as [|v vs]; cbn [fail].
  - eexists _, _. split; [reflexivity|]. by destruct (snd (readOnlyViolations _ _)).
  - destruct status; (eexists _, _; split; [reflexivity|]); by destruct (snd (readOnlyViolations _ _)).
Qed.

(** C4 (publish_faithful). Whatever git answers, the end of a turn always produces its report.  A writing
    turn shows a commit error (signingFailed or internal) when a command of its commit step failed, and only
    when a command failed; it shows a push error (pushFailed) exactly when it has commits and did not push
    them, be it a push that failed or a branch the policy refuses.  A turn that had ended well ends with the
    first error it shows, which its report carries; any other keeps its status and error.  A turn that must
    not publish runs nothing but reading commands, and what it changed against its scope is shown as the
    failure of the harness.  Every push goes to the session's own branch, which the branch policy allows, and
    is reported exactly when it succeeded; a turn reported as a success has pushed its commits. *)
Theorem publish_faithful (t : Turn) (startHead : string) (status : TurnStatus) (error : option ErrorDetail) (stop : option StopRequest)
    (resumeId : option string) (o : TurnOutcome) (run : TurnRun) (h : History) :
  exists l rq events,
    publish environment credentialHelper toISOString hash fingerprints bootstrap branchPrefix pushRetries t startHead status error stop resumeId o run h
      = (h ++ l, inl (rq, events))
    /\ publish_ok t run status error l rq events
    /\ (forall h1 h2 after headNow, run_scope run <> write ->
          read_workspace environment hash h = (h1, inl after) -> git_head environment h1 = (h2, inl headNow) ->
          map err_code (shown events) = match scopeViolations run after startHead headNow with [] => [] | _ => [harnessFailed] end).
Proof.
  assert (H : spec (publish environment credentialHelper toISOString hash fingerprints bootstrap branchPrefix pushRetries t startHead status error stop resumeId o run)
    (fun l r => exists rq events, r = inl (rq, events) /\ publish_ok t run status error l rq events)).
  { unfold publish. destruct (publishes (run_scope run)) eqn:Hp; [apply publish_write_spec | apply publish_nothing_spec];
      [by apply bool_decide_eq_true in Hp | by apply bool_decide_eq_false in Hp]. }
  destruct (H h) as (l & Hl & rq & events & Hr & Hok). exists l, rq, events.
  assert (E : publish environment credentialHelper toISOString hash fingerprints bootstrap branchPrefix pushRetries t startHead status error stop resumeId o run h
    = (h ++ l, inl (rq, events))) by (by destruct (publish _ _ _ _ _ _ _ _ _ _ _ _ _ _ _ _ h); cbn in *; subst).
  split; [exact E|]. split; [exact Hok|]. intros h1 h2 after headNow Hs Hw Hh.
  destruct (violations_shown t startHead status error stop resumeId o run h h1 h2 after headNow Hs Hw Hh) as (rq' & events' & E' & Hv).
  rewrite E in E'. by injection E' as _ _ ->.
Qed.
End Publishing.

(** ** A run *)

Definition demo_turn (id : string) : Turn :=
  {| tn_id := id; tn_prompt := "Fix it"; tn_attachments := None; tn_kind := "followUp"; tn_scope := Some "write"; tn_scopeSource := None; tn_includeLeftovers := None |}.
Definition demo_item (seq : Z) (id : string) : InboxItem :=
  {| item_seq := seq; item_kind := "turn"; item_turn := Some (demo_turn id); item_signal := None; item_data := None |}.
Definition demo_repo : BootstrapRepo :=
  {| codeHost := "github"; hostName := "github.com"; fullName := "o/r"; cloneUrl := "https://github.com/o/r"; pushUrl := None; baseRef := "main";
     baseSha := None; branchName := "flow/x"; existingBranch := false; branchUnconfirmed := false; repo_branchPrefix := None |}.
Definition demo_bootstrap : BootstrapResponse :=
  {| b_repo := demo_repo;
     b_harness := {| h_name := "codex"; h_model := "m"; reasoningEffort := None; h_resumeId := None; contextWindow := None |};
     b_llm := {| anthropicBaseUrl := ""; openaiBaseUrl := ""; openSourceBaseUrl := "" |};
     b_git := {| authorName := "a"; authorEmail := "e"; committerName := ""; committerEmail := ""; signingFormat := None; signingPublicKey := None; coAuthorTrailer := None |};
     b_browser := false; b_environmentVariables := None; b_restored := false; b_turn := None;
     b_limits := {| turnTimeoutSeconds := 60; heartbeatSeconds := 15; setupTimeoutSeconds := 60; stopGraceSeconds := 10 |}; b_guidance := None; b_mcpServers := None |}.

(** One commit in the log; every command succeeds but the comparison of the index. *)
Definition demo_git (h : History) (c : Command) : RunResult :=
  if subcommand (cmd_args c) =s "log" then mkResult 0 ("abc" +:+ unit_separator +:+ "Fix" +:+ unit_separator +:+ "now") "" false
  else if bool_decide (cmd_args c = ["diff"; "--cached"; "--quiet"]) then mkResult 1 "" "" false else mkResult 0 "" "" false.

Definition demo_outcome : TurnOutcome := mkOutcome (Some "session") None (Some "Fixed the parser") None None false true.
Definition demo_run (inputs : list Input) : Session :=
  run_session demo_git "helper" (fun s => Some s) (fun s => s) (fun _ _ => []) demo_bootstrap "flow/" 2 inputs.

Definition demo_before : list Input := [InPrepared; InInbox [demo_item 3 "a"; demo_item 3 "a"; demo_item 4 "b"]; InResume; InRead; InExit (mkAttempt demo_outcome 0 false "") false;
  InCompleted; InResume; InRead; InStop (mkStop "Ada" stop_user)].
Definition demo_after : list Input := [InInbox [demo_item 5 "c"]; InResume; InExit (mkAttempt demo_outcome 1 false "") false; InCompleted; InResume].

(** The first turn is published; the second one is stopped and reported; the third never starts. *)
Lemma session_example :
  let s := demo_run (demo_before ++ demo_after) in
  map tn_id (started s) = ["a"; "b"] /\ map (fun r => (fst r, rq_status (snd r), rq_pushed (snd r))) (reports s) = [("a", st_success, true); ("b", st_stopped, true)]
  /\ main s = AtEnd 0 /\ interrupts s = 1%nat /\ inboxAfter s = 5 /\ s_resumeId s = Some "session".
Proof. vm_compute. done. Qed.

Definition demo_stop (seq : Z) : InboxItem :=
  {| item_seq := seq; item_kind := "stop"; item_turn := None; item_signal := None; item_data := None |}.

(** A turn and a stop in one answer of the inbox: the turn was handed to the loop and starts once it
    resumes, after the stop; its harness is interrupted as soon as it runs. *)
Lemma turn_starts_after_stop :
  let s := demo_run [InPrepared; InInbox [demo_item 3 "a"; demo_stop 4]] in
  let s' := demo_run [InPrepared; InInbox [demo_item 3 "a"; demo_stop 4]; InResume; InRead] in
  isSome (s_stop s) = true /\ started s = [] /\ map tn_id (handed s) = ["a"]
  /\ map tn_id (started s') = ["a"] /\ length (spawned s') = 1%nat /\ interrupts s' = 1%nat.
Proof. vm_compute. done. Qed.

Lemma stop_is_final_witness :
  let s := demo_run demo_before in
  let s' := demo_run (demo_before ++ demo_after) in
  s_stop s' <> None
  /\ started s' ++ handed s' = started s ++ handed s /\ (length (handed s) <= 1)%nat
  /\ (length (spawned s') + interrupts s = length (spawned s) + interrupts s')%nat
  /\ match main s' with AtHarness _ _ _ _ _ _ => (1 <= interrupts s')%nat | _ => True end.
Proof. apply (stop_is_final demo_git "helper" (fun s => Some s) (fun s => s) (fun _ _ => []) demo_bootstrap "flow/" 2 demo_before demo_after). vm_compute. discriminate. Defined.
